(* ===== verification/_CoqProject ===== *)
-Q . S2P
Prelude.v
Sha256.v
KTypes.v
AuditLog.v
CapCore.v
CapRevoke.v
CapReparent.v
Pipe.v
SchedCtx.v
KState.v
Endpoint.v
Untyped.v
CSpace.v
PipeSys.v
Retype.v
TaskLife.v
CapSys.v
Ipc.v
TaskSys.v
CapInv.v
CapOps.v
IpcOps.v
Kernel.v
Calm.v
Security.v
IpcInv.v
Lifetime.v
IpcSpec.v
TaskSpec.v
Edges.v
Resources.v
Users.v
UsersSpec.v
Aead.v
Disk.v
Super.v
Store.v
Journal.v
Tree.v
Staging.v
Knot.v
Merkle.v
Format.v
Files.v
View.v
Cells.v
Alloc.v
Nodes.v
FileMap.v
Commit.v
Reads.v
FileOps.v
Mortal.v
Inodes.v
Freeing.v
StoreSpec.v
FileSpec.v
FsSys.v
ObjectStore.v
