(* ===== verification/Prelude.v ===== *)
(** * Horus, a capability-based microkernel: a verification development

    The program is a multiprocessor x86-64 kernel in C (src/src/kernel/) with
    the capability algebra, the scheduling arithmetic and the cryptography in
    Rust (src/rust/src/), and servers and libraries in user space
    (src/userspace/).  This development models the parts of the kernel that
    decide who may do what and what they may tell each other: capability spaces,
    the memory that kernel objects come out of, pipes, endpoints and
    notifications, CPU shares, the birth and death of tasks and their signals,
    accounts and logins, the audit log with the hashing it rests on, and the
    encrypted volume from the device up to the system calls that serve files.

    ** How the parts interact

    Every system call names what it acts on by a slot of the caller's cspace, an
    array of 256 capabilities.  A capability has a type, rights, an object, a
    serial of its own, the serial of the capability it was derived from (its
    badge) and an optional token.  Deriving writes a child with fewer rights and
    a fresh serial; revoking empties a slot and everything below it in the
    derivation forest, in every cspace of the system.  The arena hands out memory
    for kernel objects, a capability with the right rights being the only way to
    ask; the collector frees an object when no live capability names it.  Pipes
    count their live ends, so every way a pipe capability is copied or destroyed
    must keep the counts.  A task is born with a cspace out of its creator's
    memory and dies by a teardown that closes its pipe ends, moves the children
    of its capabilities up to their grandparents, empties its cspace and runs the
    collector.  Tasks talk through endpoints: a send queues a message or hands it
    to a sleeping receiver together with a one-shot capability to reply; a task
    that must wait declares it in the system call and is put to sleep on the way
    out of it, after looking at the queue once more.  A login checks a password
    against the account table, gives the calling task a uid and writes to the
    audit log, whose chained MACs commit to everything ever recorded.

    The volume is a stack.  The device loses what it had not flushed when the power
    goes.  A write-ahead journal makes a set of block writes happen as one: its
    commit record is the only point at which a transaction takes effect, and
    recovery replays it.  The blocks from the inode bitmap onwards are sealed one
    by one under a key of the volume, with nonce and tag in a metadata region; the
    metadata blocks are the leaves of a Merkle tree whose root the superblock keeps,
    so that an old block cannot be put back.  Both regions have caches whose
    evictions may fall inside any write, which is why the block layer calls itself.
    Above it, bitmaps hand out blocks and inodes and an inode's pointer trees say
    where the blocks of a file are.  The calls of the object store work on inodes,
    for a task that holds the store's capability.

    ** Files

    - Prelude: arrays indexed by machine integers, widths, bit masks, the hint
      database [horus] and the scope [horus_scope].
    - Sha256: SHA-256, HMAC and HKDF (src/rust/src/sha256.rs), their reference
      definitions, and what equal digests mean.
    - KTypes: constants, capabilities and the capability memory, a finite map
      from cspace arrays to their slots (src/src/include/kernel.h).
    - AuditLog: the audit log (src/src/kernel/kaudit.c, src/rust/src/audit.rs).
    - CapCore, CapRevoke: the algebra of src/rust/src/capability.rs: lookup,
      serials, the derivations; the pipe tally, the mark-and-sweep revocation and
      the re-parenting of a dying cspace, with their specifications.
    - CapReparent: why re-parenting keeps the ancestry of the survivors.
    - Pipe: the pipe table and the byte ring (src/src/kernel/pipe.c), refined to
      a bounded queue.
    - SchedCtx: scheduling contexts (src/rust/src/sched.rs, scheduler.c).
    - KState: the record [kstate] of the tables all components share.
    - Endpoint: the message queue of an endpoint (syscall_ipc.c), refined to a
      bounded queue.
    - Untyped: arena regions, kernel object tables and the collector
      (src/src/kernel/untyped.c).
    - CSpace: the operations on cspaces (src/src/kernel/capability.c).
    - PipeSys: the pipe system calls (src/src/kernel/pipe.c).
    - Retype: split, retype, info and sched_split (src/src/kernel/untyped.c).
    - TaskLife: create_task, spawn, fork and teardown (scheduler.c, kspawn.c).
    - CapSys: the capability system calls and kill (src/src/kernel/syscall.c).
    - Ipc: send, receive, call, reply, notifications, and how a task goes to
      sleep and is woken (src/src/kernel/syscall_ipc.c, scheduler.c).
    - TaskSys: the dispatch table and the identity, heap, wait and signal calls
      (src/src/kernel/syscall.c, scheduler.c, idt.c).
    - CapInv: the interface [CapOp] between an operation and the capability
      memory: a small transition system of steps that weaken slots, derive, or
      create, indexed by the power an operation has, and the invariant [minv].
    - CapOps, IpcOps: every operation above is an instance of [CapOp].
    - Kernel: the operations as one type [kop], the interpreter [kexec], boot.
      An operation that needs a running caller is skipped when there is none.
    - Calm: the interface [Calm] of the operations that put nobody to sleep and
      queue nothing, and its instances.
    - Security, Lifetime, Resources, IpcInv: the theorems over reachable states.
    - IpcSpec, TaskSpec: what the calls of Ipc and TaskSys do, case by case.
    - Edges: states in which the code does not do what it means to.
    - Users, UsersSpec: accounts and logins (src/src/kernel/kusers.c,
      src/rust/src/auth.rs) and their theorems.  The volume the table is stored
      on is the interface [Volume], whose laws are [VolumeKeeps]; the password
      hash is an argument.
    - Aead: ChaCha20 and the sealed box (src/rust/src/rng.rs, aead.rs).
    - Disk: a device with a volatile cache that fails and loses power as a script
      says, the RAM disk and the partition window; Super: the superblock's fields
      and bytes; Store: the volume's state [store], its monad [SM], the raw blocks
      and the shape of the tree; Format: the layout a format computes; Files:
      bitmaps, inodes, pointer trees, directories and the repairing sweep (all
      src/src/kernel/storage.c).
    - Journal: recovery, and what a crash in the middle of a commit leaves.  Tree,
      Staging, Merkle, Knot: the Merkle tree, what an open transaction may change,
      the tree of a volume as an authenticated array, and why the mutual calls of the
      block layer end.
    - View, Cells, Commit, Reads, Mortal: logics of the block layer: what a volume
      shows beneath its caches, the blocks as plain contents, that a commit only
      publishes, that reads show what is there, that a dead device stays dead.
    - Alloc, Nodes, FileMap, FileOps, Inodes, Freeing: bitmaps, the inode table, the
      ownership of pointer trees, and writing, reserving and freeing, each against
      those logics.
    - StoreSpec, FileSpec: the theorems about the volume and its files.
    - FsSys: the object store's system calls (src/src/kernel/syscall_fs.c);
      ObjectStore: what they promise, and that they keep it.

    ** How the model corresponds to the code

    A C function is a function of the same name from the state to its result and
    the state after; an [int] or [bool] result is returned as such, a pointer or
    a failure as an option, and [None] of a whole state is a machine that halted.
    Machine integers are [Z] with the wrap-around written out where the code
    relies on it.  A section of code under a lock is one atomic step; system
    calls interleave as the sequence [kexec] is given.  The shipping
    configuration is modelled: the arms the source marks as controls for its own
    tests are not.  What a call reads from outside the model (user memory, the
    clock, the stacks other CPUs are on, the loader's and the pager's results, the
    random generator's bytes) is an argument.  A system call that copies from or
    to user memory takes what it would read and whether each copy succeeds, and
    gives the bytes it writes.  [task_info] omits the flag that says whether the
    task was inside the kernel.

    ** What the theorems show

    - No amplification: user operations never make authority; a pipe end is never
      copied by one; a serial names one capability for ever; a snapshot of a
      derived capability that revalidates names the same capability; lookup and mint do exactly what
      their guards say.
    - Revocation empties exactly the subtree, and its marking loop ends.  A
      death keeps every surviving ancestry, so a grandparent can still revoke.
    - Killing needs authority over this incarnation of the target; teardown
      leaves nothing behind; exit records leak no bytes.
    - Arena blocks never overlap and the kernel's half is its own; the collector
      frees exactly what nothing holds, and no frame that is still mapped.
    - Pipes are FIFO queues of bytes; a freed pipe is wiped and its old object is
      dead; the table and the quotas stay within bounds in every reachable state.
    - Shares of a CPU are conserved, and charged on the CPU they belong to.
    - Endpoints are queues of at most four messages, wiped behind the receiver; no
      registered waiter sleeps beside a message or a badge; every send has one of the
      outcomes stated; a message arrives whole, a reply is spent once and reaches only its
      caller, a call to a waiting server that has room for the reply capability
      completes, and a blocking receive returns.
    - A signal is delivered and returned from exactly; the heap stays in bounds.
    - Streaming hashes equal the published definitions.  The audit log is the last
      256 calls, its own check passes, and its head commits to the whole history:
      statements about hashes give equality or name the colliding messages.
    - Logins succeed exactly for the account and password given (where no name
      continues the one given) in a table not found unauthentic before, stored hashes
      are compared at a bounded rate, the account table is always well formed, and a
      password set is a password accepted.
    - On a device that fails only with its power, a power loss anywhere in a session of
      transactions leaves each of them done or not done, crashes during recovery
      included; over successful updates the tree accepts only what was last written,
      or names a collision; the regions of a formatted volume are
      disjoint and within it; two levels of the block layer's recursion suffice.
    - Allocation gives a free block and takes it; a write to a file changes that
      block of that file and nothing else.  Every call of the object store, through
      the gate, the handler and the volume, refines an abstract map from inode
      numbers to files.  Each failure it may have is tied to what went wrong in that
      call: a block on the way to the file that could not be read, an inode that could
      not be written back, an I/O error, the power.
    - Theorems of Edges, Security, SchedCtx, UsersSpec, FileSpec and ObjectStore state behaviour that
      differs from what the code means: among them a move that destroys the
      capability, messages lost or handed to the wrong task, a receiver displaced by a
      second one and left asleep, a login as another account, a login admitted by the
      very call that finds the account table unauthentic, passwords tried on the volume
      without being counted, a cooldown that never ends, the volume's keys in the clear in its
      first block, and kernel stack on the device.

    ** Fuel and bounds

    The marking loop takes one more pass than there are visited slots as fuel and
    is proved to finish within it.  The binary search and the chase of
    re-parenting take fuel that bounds their intervals and the length of a chain;
    the lemmas of CapReparent show it is enough.  A blocking receive takes five
    rounds, one per message a queue can hold and one more; HKDF takes 255, the most its
    counter allows; hashing takes a round per byte.  Each is proved enough.
    The block layer writes through caches that write through it: [io_at n] allows n
    more rounds, and [two_levels_suffice] shows that one is all the code needs.
    A pointer tree has three levels, the deepest the inode names.
    Every other loop is a fold over the indices the code visits.

    ** What is not modelled

    Run queues and context switches, page tables and swap: they are registers and
    hardware tables, seen here by the reference counts, addresses and verdicts the
    modelled calls take from them.  Unlocking, mounting and enumerating volumes and
    the key slots: they rest on Argon2id, a TPM and device drivers; a store is given
    mounted, with its keys.  Program loading, devices and the console: input and
    output.  User space: the clients of the modelled calls. *)
From Stdlib Require Import Strings.String Strings.Ascii.
From Stdlib Require Export ZArith Lia.
From stdpp Require Export base numbers option gmap list_numbers list.

#[global] Open Scope Z_scope.

(** ** Arrays indexed by machine integers

    A C array is a list; [zget] and [zset] are the read and the write at an
    index of type [Z].  A write outside the array changes nothing and a read
    outside it gives the default: the guards of the code and the
    well-formedness invariants of the components keep every access inside. *)
Definition zlen {A} (l : list A) : Z := Z.of_nat (length l).

Definition zget {A} (d : A) (l : list A) (i : Z) : A :=
  if i <? 0 then d else default d (l !! Z.to_nat i).

Definition zset {A} (l : list A) (i : Z) (x : A) : list A :=
  if i <? 0 then l else <[Z.to_nat i := x]> l.

(** C's [x >= lo && x < hi] on an index. *)
Definition in_range (lo hi i : Z) : bool := (lo <=? i) && (i <? hi).

(** The first index of [lo, lo+n) that satisfies [p], or None: the shape of
    every "find a free entry" loop of the kernel. *)
Definition find_index (p : Z -> bool) (lo : Z) (n : nat) : option Z :=
  snd <$> list_find (fun i => p i = true) (seqZ lo (Z.of_nat n)).

(** The bytes of a C string of at most [n] characters. *)
Fixpoint c_string (n : nat) (l : list Z) : list Z :=
  match n, l with
  | S n, x :: l => if x =? 0 then [] else x :: c_string n l
  | _, _ => []
  end.

(** The bytes of a string literal. *)
Definition byte_string (s : string) : list Z := (fun a => Z.of_nat (nat_of_ascii a)) <$> list_ascii_of_string s.

(** A decidable closed fact, by evaluation. *)
Ltac by_vm := refine (bool_decide_unpack _ _); vm_compute; exact I.

(** ** Machine widths *)
Definition u16 (x : Z) : Z := Z.land x 0xFFFF.
Definition u32 (x : Z) : Z := Z.land x 0xFFFFFFFF.
Definition u64 (x : Z) : Z := Z.land x 0xFFFFFFFFFFFFFFFF.
Definition U32_MAX : Z := 0xFFFFFFFF.
Definition U64_MAX : Z := 0xFFFFFFFFFFFFFFFF.

(** [has_bits r m]: every bit of the mask [m] is set in [r], the C test
    [(r & m) == m]. *)
Definition has_bits (r m : Z) : bool := Z.land r m =? m.

Declare Scope horus_scope.
Delimit Scope horus_scope with horus.

Create HintDb horus.
Create Rewrite HintDb horus.

Section arrays.
Context {A : Type}.
Implicit Types (l : list A) (i j : Z) (d x : A).

Lemma zlen_nonneg l : 0 <= zlen l.
Proof. unfold zlen; lia. Qed.

Lemma zlen_zset l i x : zlen (zset l i x) = zlen l.
Proof. unfold zlen, zset. case (i <? 0); [done|]. by rewrite length_insert. Qed.

Lemma zget_lookup d l i : 0 <= i -> zget d l i = default d (l !! Z.to_nat i).
Proof. intros. unfold zget. destruct (Z.ltb_spec i 0); [lia|done]. Qed.

Lemma zget_out d l i : i < 0 \/ zlen l <= i -> zget d l i = d.
Proof.
  unfold zget, zlen. intros H. destruct (Z.ltb_spec i 0); [done|].
  rewrite lookup_ge_None_2; [done|lia].
Qed.

Lemma zget_zset_eq d l i x : 0 <= i < zlen l -> zget d (zset l i x) i = x.
Proof.
  unfold zget, zset, zlen. intros. destruct (Z.ltb_spec i 0); [lia|].
  rewrite list_lookup_insert_eq; [done|lia].
Qed.

Lemma zget_zset_ne d l i j x : i <> j -> zget d (zset l i x) j = zget d l j.
Proof.
  unfold zget, zset. intros. destruct (Z.ltb_spec i 0); [done|].
  destruct (Z.ltb_spec j 0); [done|]. rewrite list_lookup_insert_ne; [done|lia].
Qed.

Lemma zset_out l i x : i < 0 \/ zlen l <= i -> zset l i x = l.
Proof.
  unfold zset, zlen. intros H. destruct (Z.ltb_spec i 0); [done|].
  apply list_insert_ge; lia.
Qed.

(** The one case split every array argument needs. *)
Lemma zget_zset d l i j x :
  zget d (zset l i x) j = if bool_decide (i = j /\ 0 <= i < zlen l) then x else zget d l j.
Proof.
  case_bool_decide as H.
  - destruct H as [-> ?]. by apply zget_zset_eq.
  - destruct (decide (i = j)) as [->|]; [|by apply zget_zset_ne].
    destruct (decide (0 <= j < zlen l)); [tauto|].
    rewrite zset_out; [done|lia].
Qed.

Lemma zget_elem d l i : 0 <= i < zlen l -> zget d l i ∈ l.
Proof.
  intros H. rewrite zget_lookup by lia. unfold zlen in H.
  destruct (lookup_lt_is_Some_2 l (Z.to_nat i)) as [y Hy]; [lia|].
  rewrite Hy. by eapply list_elem_of_lookup_2.
Qed.

Lemma elem_zget d l x : x ∈ l -> exists i, 0 <= i < zlen l /\ zget d l i = x.
Proof.
  intros [k Hk]%list_elem_of_lookup. exists (Z.of_nat k).
  pose proof (lookup_lt_Some _ _ _ Hk). rewrite zget_lookup by lia.
  rewrite Nat2Z.id, Hk. unfold zlen. split; [lia|done].
Qed.

Lemma zget_replicate d n x i : 0 <= i < Z.of_nat n -> zget d (replicate n x) i = x.
Proof.
  intros. rewrite zget_lookup by lia. rewrite lookup_replicate_2; [done|lia].
Qed.

Lemma zlen_replicate n x : zlen (replicate n x) = Z.of_nat n.
Proof. unfold zlen. by rewrite length_replicate. Qed.

Lemma list_eq_zget d l1 l2 :
  zlen l1 = zlen l2 -> (forall i, 0 <= i < zlen l1 -> zget d l1 i = zget d l2 i) -> l1 = l2.
Proof.
  unfold zlen. intros Hl H. apply list_eq_same_length with (n := length l2); [done|lia|].
  intros k x y Hk Hx Hy. specialize (H (Z.of_nat k)).
  rewrite !zget_lookup, Nat2Z.id, Hx, Hy in H by lia. apply H; lia.
Qed.
End arrays.

#[export] Hint Rewrite @zlen_zset : horus.
#[export] Hint Rewrite @zlen_replicate : horus.
#[export] Hint Resolve zlen_nonneg : horus.

(** Comparing every byte decides equality. *)
Lemma or_fold_zero (f : Z -> Z) l acc :
  foldl (fun diff i => Z.lor diff (f i)) acc l = 0 <-> acc = 0 /\ Forall (fun i => f i = 0) l.
Proof.
  revert acc. induction l as [|i l IH]; intros acc; cbn [foldl].
  - split; [by intros ->|by intros [? _]].
  - rewrite IH, Z.lor_eq_0_iff, Forall_cons. tauto.
Qed.
Lemma ct_equal_iff n a b :
  length a = n -> length b = n ->
  foldl (fun diff i => Z.lor diff (Z.lxor (zget 0 a i) (zget 0 b i))) 0 (seqZ 0 (Z.of_nat n)) = 0 <-> a = b.
Proof.
  intros Ha Hb. rewrite (or_fold_zero (fun i => Z.lxor (zget 0 a i) (zget 0 b i))).
  split; [|intros ->; split; [done|]; apply Forall_forall; intros; apply Z.lxor_nilpotent].
  intros [_ HF]. rewrite Forall_forall in HF. apply list_eq_same_length with n; [done..|].
  intros i x y Hi Hx Hy. specialize (HF (Z.of_nat i)). rewrite elem_of_seqZ, Z.lxor_eq_0_iff in HF.
  rewrite !zget_lookup, Nat2Z.id, Hx, Hy in HF by lia. apply HF. lia.
Qed.

Lemma length_mjoin_same {A} n (ls : list (list A)) :
  Forall (fun l => length l = n) ls -> length (mjoin ls) = (n * length ls)%nat.
Proof. induction 1 as [|l ls Hl _ IH]; [cbn; lia|].
  change (mjoin (l :: ls)) with (l ++ mjoin ls). rewrite length_app, Hl, IH. cbn [length]. lia. Qed.

(** ** Searching a range *)
Lemma find_index_Some p lo n i :
  find_index p lo n = Some i ->
  lo <= i < lo + Z.of_nat n /\ p i = true /\ (forall j, lo <= j < i -> p j = false).
Proof.
  unfold find_index. intros ([k x] & (Hk & Hp & Hmin)%list_find_Some & Hx)%fmap_Some.
  simpl in Hx. subst x. apply lookup_seqZ in Hk as [-> Hk]. split_and!; [lia..|done|].
  intros j Hj. apply not_true_iff_false.
  apply (Hmin (Z.to_nat (j - lo)) j); [apply lookup_seqZ|]; lia.
Qed.

Lemma find_index_None p lo n :
  find_index p lo n = None -> forall j, lo <= j < lo + Z.of_nat n -> p j = false.
Proof.
  unfold find_index. intros H%fmap_None%list_find_None j Hj.
  rewrite Forall_forall in H. apply not_true_iff_false, (H j), elem_of_seqZ. lia.
Qed.

(** ** Machine words *)
Lemma land_ones_mod x k : 0 <= k -> Z.land x (2 ^ k - 1) = x mod 2 ^ k.
Proof. intros. rewrite <- Z.land_ones by lia. by rewrite Z.ones_equiv, <- Z.sub_1_r. Qed.

Lemma u32_mod x : u32 x = x mod 2 ^ 32.
Proof. apply (land_ones_mod x 32). lia. Qed.
Lemma u64_mod x : u64 x = x mod 2 ^ 64.
Proof. apply (land_ones_mod x 64). lia. Qed.
Lemma u16_mod x : u16 x = x mod 2 ^ 16.
Proof. apply (land_ones_mod x 16). lia. Qed.

Lemma u32_id x : 0 <= x <= U32_MAX -> u32 x = x.
Proof. unfold U32_MAX. intros. rewrite u32_mod. apply Z.mod_small. lia. Qed.
Lemma u32_range x : 0 <= u32 x <= U32_MAX.
Proof. rewrite u32_mod. unfold U32_MAX. pose proof (Z.mod_pos_bound x (2 ^ 32)). lia. Qed.
Lemma lor_u32 x y : 0 <= x <= U32_MAX -> 0 <= Z.lor x (u32 y) <= U32_MAX.
Proof.
  intros Hx. rewrite <- (u32_id x Hx). unfold u32. rewrite <- Z.land_lor_distr_l. apply u32_range.
Qed.
Lemma u32_U32_MAX_land x : 0 <= x <= U32_MAX -> Z.land U32_MAX x = x.
Proof. intros. rewrite Z.land_comm. by apply u32_id. Qed.

#[export] Hint Resolve u32_range : horus.

(** Rights: bits only disappear. *)
Definition subset_bits (a b : Z) : Prop := Z.land a b = a.
Infix "⊑b" := subset_bits (at level 70, no associativity) : horus_scope.
#[global] Open Scope horus_scope.

Lemma subset_bits_refl a : subset_bits a a.
Proof. apply Z.land_diag. Qed.
Lemma subset_bits_trans a b c : subset_bits a b -> subset_bits b c -> subset_bits a c.
Proof. unfold subset_bits. intros H1 H2. by rewrite <- H1, <- Z.land_assoc, H2. Qed.
Lemma subset_bits_land_r a b : subset_bits (Z.land a b) b.
Proof. unfold subset_bits. by rewrite <- Z.land_assoc, Z.land_diag. Qed.
Lemma subset_bits_ldiff a b : subset_bits (Z.ldiff a b) a.
Proof.
  unfold subset_bits. apply Z.bits_inj. intros i. rewrite Z.land_spec, Z.ldiff_spec.
  by destruct (Z.testbit a i), (Z.testbit b i).
Qed.
Lemma has_bits_subset r m : has_bits r m = true <-> subset_bits m r.
Proof. unfold has_bits, subset_bits. by rewrite Z.eqb_eq, Z.land_comm. Qed.

#[export] Hint Resolve subset_bits_refl subset_bits_land_r subset_bits_ldiff : horus.

(** ** Sums over indices *)
Definition zsum (f : Z -> Z) (l : list Z) : Z := foldr (fun i a => f i + a) 0 l.

Lemma zsum_ext f g l : (forall i, i ∈ l -> f i = g i) -> zsum f l = zsum g l.
Proof.
  induction l as [|i l IH]; simpl; intros H; [done|].
  rewrite (H i) by left. rewrite IH; [done|]. intros; apply H. by right.
Qed.

Lemma zsum_nonneg f l : (forall i, i ∈ l -> 0 <= f i) -> 0 <= zsum f l.
Proof.
  induction l as [|i l IH]; simpl; intros H; [lia|].
  pose proof (H i (list_elem_of_here _ _)). assert (0 <= zsum f l); [|lia].
  apply IH. intros; apply H. by right.
Qed.

Lemma zsum_update f g l i :
  NoDup l -> i ∈ l -> (forall j, j <> i -> g j = f j) -> zsum g l = zsum f l - f i + g i.
Proof.
  induction 1 as [|k l Hk HN IH]; intros Hi Hj; [by apply not_elem_of_nil in Hi|]. simpl.
  apply elem_of_cons in Hi as [->|Hi].
  - rewrite (zsum_ext g f l); [lia|]. intros j ?. apply Hj. by intros ->.
  - rewrite (IH Hi Hj), (Hj k); [lia|]. by intros ->.
Qed.

Lemma zsum_ge_one f l i : (forall j, j ∈ l -> 0 <= f j) -> i ∈ l -> f i <= zsum f l.
Proof.
  induction l as [|k l IH]; intros H Hi; [by apply not_elem_of_nil in Hi|]. simpl.
  pose proof (H k (list_elem_of_here _ _)).
  pose proof (zsum_nonneg f l (fun j Hj => H j (list_elem_of_further _ _ _ Hj))).
  apply elem_of_cons in Hi as [->|Hi]; [lia|].
  assert (f i <= zsum f l); [|lia]. apply IH; [|done]. intros; apply H. by right.
Qed.

Lemma zsum_ge_two f l i j :
  NoDup l -> (forall k, k ∈ l -> 0 <= f k) -> i ∈ l -> j ∈ l -> i <> j -> f i + f j <= zsum f l.
Proof.
  induction 1 as [|k l Hk HN IH]; intros H Hi Hj Hne; [by apply not_elem_of_nil in Hi|]. simpl.
  pose proof (H k (list_elem_of_here _ _)).
  assert (forall x, x ∈ l -> 0 <= f x) as Hl by (intros; apply H; by right).
  apply elem_of_cons in Hi as [->|Hi], Hj as [->|Hj]; [done| | |specialize (IH Hl Hi Hj Hne); lia].
  - pose proof (zsum_ge_one f l j Hl Hj). lia.
  - pose proof (zsum_ge_one f l i Hl Hi). lia.
Qed.
