(* ===== verification/Sha256.v ===== *)
(** SHA-256, HMAC and HKDF (src/rust/src/sha256.rs): the streaming hash and its
    equivalence with hashing the whole message at once, the two HMAC routines
    and their agreement, and key expansion. *)
From S2P Require Import Prelude.

(** ** Words and bytes *)
Definition SHA256_BLOCK : Z := 64.
Definition SHA256_OUT : Z := 32.
Definition rotate_right (x n : Z) : Z := Z.lor (Z.shiftr x n) (u32 (Z.shiftl x (32 - n))).
Definition not32 (x : Z) : Z := Z.lxor x U32_MAX.
Definition from_be_bytes (b : list Z) : Z := foldl (fun acc x => 256 * acc + x) 0 b.
(** The [n] low bytes of a word, highest first. *)
Definition to_be_bytes (n : nat) (x : Z) : list Z :=
  (fun i => Z.land (Z.shiftr x (8 * i)) 0xFF) <$> rev (seqZ 0 (Z.of_nat n)).
Definition to_le_bytes (n : nat) (x : Z) : list Z :=
  (fun i => Z.land (Z.shiftr x (8 * i)) 0xFF) <$> seqZ 0 (Z.of_nat n).

(** Constants, a row of eight words at a time. *)
Definition words8 (row : Z) : list Z := (fun i => Z.land (Z.shiftr row (32 * (7 - i))) 0xFFFFFFFF) <$> seqZ 0 8.
Definition H0 : list Z := words8 0x6a09e667_bb67ae85_3c6ef372_a54ff53a_510e527f_9b05688c_1f83d9ab_5be0cd19.
Definition K : list Z := mjoin (words8 <$> [
    0x428a2f98_71374491_b5c0fbcf_e9b5dba5_3956c25b_59f111f1_923f82a4_ab1c5ed5;
    0xd807aa98_12835b01_243185be_550c7dc3_72be5d74_80deb1fe_9bdc06a7_c19bf174;
    0xe49b69c1_efbe4786_0fc19dc6_240ca1cc_2de92c6f_4a7484aa_5cb0a9dc_76f988da;
    0x983e5152_a831c66d_b00327c8_bf597fc7_c6e00bf3_d5a79147_06ca6351_14292967;
    0x27b70a85_2e1b2138_4d2c6dfc_53380d13_650a7354_766a0abb_81c2c92e_92722c85;
    0xa2bfe8a1_a81a664b_c24b8b70_c76c51a3_d192e819_d6990624_f40e3585_106aa070;
    0x19a4c116_1e376c08_2748774c_34b0bcb5_391c0cb3_4ed8aa4a_5b9cca4f_682e6ff3;
    0x748f82ee_78a5636f_84c87814_8cc70208_90befffa_a4506ceb_bef9a3f7_c67178f2]).

(** ** Compression *)
Definition schedule_word (w : list Z) (i : Z) : Z :=
  let w15 := zget 0 w (i - 15) in
  let w2 := zget 0 w (i - 2) in
  let s0 := Z.lxor (Z.lxor (rotate_right w15 7) (rotate_right w15 18)) (Z.shiftr w15 3) in
  let s1 := Z.lxor (Z.lxor (rotate_right w2 17) (rotate_right w2 19)) (Z.shiftr w2 10) in
  u32 (u32 (u32 (zget 0 w (i - 16) + s0) + zget 0 w (i - 7)) + s1).
Definition schedule (block : list Z) : list Z :=
  let w0 := (fun i => from_be_bytes (take 4 (drop (Z.to_nat (i * 4)) block))) <$> seqZ 0 16 in
  foldl (fun w i => w ++ [schedule_word w i]) w0 (seqZ 16 48).

Record regs := mk_regs { ra : Z; rb : Z; rc : Z; rd : Z; re : Z; rf : Z; rg : Z; rh : Z }.
Definition sha_round (w : list Z) (s : regs) (i : Z) : regs :=
  let '(mk_regs a b c d e f g hh) := s in
  let s1 := Z.lxor (Z.lxor (rotate_right e 6) (rotate_right e 11)) (rotate_right e 25) in
  let ch := Z.lxor (Z.land e f) (Z.land (not32 e) g) in
  let t1 := u32 (u32 (u32 (u32 (hh + s1) + ch) + zget 0 K i) + zget 0 w i) in
  let s0 := Z.lxor (Z.lxor (rotate_right a 2) (rotate_right a 13)) (rotate_right a 22) in
  let maj := Z.lxor (Z.lxor (Z.land a b) (Z.land a c)) (Z.land b c) in
  let t2 := u32 (s0 + maj) in
  mk_regs (u32 (t1 + t2)) a b c (u32 (d + t1)) e f g.
Definition compress (h block : list Z) : list Z :=
  let w := schedule block in
  let at_ i := zget 0 h i in
  let s := foldl (sha_round w) (mk_regs (at_ 0) (at_ 1) (at_ 2) (at_ 3) (at_ 4) (at_ 5) (at_ 6) (at_ 7)) (seqZ 0 64) in
  (fun p => u32 (p.1 + p.2)) <$> zip h [s.(ra); s.(rb); s.(rc); s.(rd); s.(re); s.(rf); s.(rg); s.(rh)].

(** ** The streaming state *)
Record Sha256 := mk_sha { sh_h : list Z; sh_buf : list Z; sh_buf_len : Z; sh_total : Z }.
Definition sha_new : Sha256 := mk_sha H0 (replicate 64 0) 0 0.

(** [buf[at..at+len(data)]] becomes [data]. *)
Definition splice (buf : list Z) (at_ : Z) (data : list Z) : list Z :=
  take (Z.to_nat at_) buf ++ data ++ drop (Z.to_nat at_ + length data) buf.

(** The whole blocks at the front of [data], and what is left. *)
Fixpoint absorb (fuel : nat) (h data : list Z) : list Z * list Z :=
  match fuel with
  | O => (h, data)
  | S fuel => if SHA256_BLOCK <=? zlen data then absorb fuel (compress h (take 64 data)) (drop 64 data) else (h, data)
  end.

Definition sha_update (s : Sha256) (data : list Z) : Sha256 :=
  let total := u64 (s.(sh_total) + zlen data) in
  let '(s, data) :=
    if 0 <? s.(sh_buf_len) then
      let need := SHA256_BLOCK - s.(sh_buf_len) in
      let tk := if zlen data <? need then zlen data else need in
      let buf := splice s.(sh_buf) s.(sh_buf_len) (take (Z.to_nat tk) data) in
      let len := s.(sh_buf_len) + tk in
      let data := drop (Z.to_nat tk) data in
      if len =? SHA256_BLOCK then (mk_sha (compress s.(sh_h) buf) buf 0 total, data)
      else (mk_sha s.(sh_h) buf len total, data)
    else (mk_sha s.(sh_h) s.(sh_buf) s.(sh_buf_len) total, data) in
  let '(h, data) := absorb (length data) s.(sh_h) data in
  if bool_decide (data <> []) then mk_sha h (splice s.(sh_buf) 0 data) (zlen data) total
  else mk_sha h s.(sh_buf) s.(sh_buf_len) total.

Definition sha_finalize (s : Sha256) : list Z :=
  let bit_len := u64 (s.(sh_total) * 8) in
  let pad := 0x80 :: replicate 71 0 in
  let rem := s.(sh_buf_len) mod SHA256_BLOCK in
  let pad_len := if rem <? 56 then 56 - rem else 120 - rem in
  let s := sha_update s (take (Z.to_nat pad_len) pad) in
  let s := sha_update s (to_be_bytes 8 bit_len) in
  mjoin (to_be_bytes 4 <$> take 8 s.(sh_h)).

Definition sha256 (data : list Z) : list Z := sha_finalize (sha_update sha_new data).

(** ** HMAC *)
(** The key as one block: hashed when it is longer. *)
Definition hmac_k0 (key : list Z) : list Z :=
  if SHA256_BLOCK <? zlen key then splice (replicate 64 0) 0 (sha256 key) else splice (replicate 64 0) 0 key.
Definition xor_pad (c : Z) (k0 : list Z) : list Z := Z.lxor c <$> k0.
Definition hmac_sha256 (key data : list Z) : list Z :=
  let k0 := hmac_k0 key in
  let inner := sha_update (sha_update sha_new (xor_pad 0x36 k0)) data in
  let outer := sha_update (sha_update sha_new (xor_pad 0x5c k0)) (sha_finalize inner) in
  sha_finalize outer.

Record Sha256Hmac := mk_hmac { hm_inner : Sha256; hm_opad : list Z }.
Definition hmac_new (key : list Z) : Sha256Hmac :=
  let k0 := hmac_k0 key in mk_hmac (sha_update sha_new (xor_pad 0x36 k0)) (xor_pad 0x5c k0).
Definition hmac_update (m : Sha256Hmac) (data : list Z) : Sha256Hmac :=
  mk_hmac (sha_update m.(hm_inner) data) m.(hm_opad).
Definition hmac_finalize (m : Sha256Hmac) : list Z :=
  sha_finalize (sha_update (sha_update sha_new m.(hm_opad)) (sha_finalize m.(hm_inner))).

(** ** HKDF

    [None] is out of fuel; the loop makes at most 255 rounds. *)
Fixpoint hkdf_expand (fuel : nat) (prk info t out : list Z) (out_len counter : Z) : option (list Z) :=
  if out_len <=? zlen out then Some out else
  match fuel with
  | O => None
  | S fuel =>
      let mac := hmac_update (hmac_update (hmac_update (hmac_new prk) t) info) [counter] in
      let t := hmac_finalize mac in
      let tk := Z.min SHA256_OUT (out_len - zlen out) in
      let out := out ++ take (Z.to_nat tk) t in
      if counter =? 255 then Some out else hkdf_expand fuel prk info t out out_len (counter + 1)
  end.
Definition HKDF_FUEL : nat := 255.
(** The bytes written; a longer buffer keeps its own tail. *)
Definition hkdf_sha256 (ikm salt info : list Z) (out_len : Z) : option (list Z) :=
  let salt_ref := if bool_decide (salt = []) then replicate 32 0 else salt in
  hkdf_expand HKDF_FUEL (hmac_sha256 salt_ref ikm) info [] [] out_len 1.

(** ** The specification

    One padded message, cut into blocks. *)
Definition pad_zeros (len : Z) : Z := (55 - len) mod 64.
Definition padded (msg : list Z) : list Z :=
  msg ++ 0x80 :: replicate (Z.to_nat (pad_zeros (zlen msg))) 0 ++ to_be_bytes 8 (u64 (8 * zlen msg)).
Fixpoint blocks_of (n : nat) (l : list Z) : list (list Z) :=
  match n with O => [] | S n => take 64 l :: blocks_of n (drop 64 l) end.
Definition sha256_spec (msg : list Z) : list Z :=
  let m := padded msg in
  mjoin (to_be_bytes 4 <$> foldl compress H0 (blocks_of (length m / 64) m)).
Definition hmac_spec (key msg : list Z) : list Z :=
  let k := if 64 <? zlen key then sha256_spec key else key in
  let k0 := k ++ replicate (64 - length k) 0 in
  sha256_spec (xor_pad 0x5c k0 ++ sha256_spec (xor_pad 0x36 k0 ++ msg)).

(** ** Lemmas *)
Lemma zlen_length {A} (l : list A) n : zlen l = n -> length l = Z.to_nat n.
Proof. unfold zlen. lia. Qed.
Lemma absorb_enough f1 f2 h l :
  (length l <= f1)%nat -> (length l <= f2)%nat -> absorb f1 h l = absorb f2 h l.
Proof.
  revert f2 h l. induction f1 as [|f1 IH]; intros [|f2] h l H1 H2; cbn [absorb]; unfold SHA256_BLOCK, zlen.
  - done.
  - by rewrite (proj2 (Z.leb_gt _ _)) by lia.
  - by rewrite (proj2 (Z.leb_gt _ _)) by lia.
  - destruct (Z.leb_spec 64 (Z.of_nat (length l))); [|done]. apply IH; rewrite length_drop; lia.
Qed.
Definition absorbed (h l : list Z) : list Z * list Z := absorb (length l) h l.
Lemma absorbed_short h l : (length l < 64)%nat -> absorbed h l = (h, l).
Proof.
  intros Hl. unfold absorbed. destruct l as [|x l]; [done|]. cbn [length absorb]. unfold SHA256_BLOCK, zlen.
  by rewrite (proj2 (Z.leb_gt _ _)) by lia.
Qed.
Lemma absorbed_block h b l : length b = 64%nat -> absorbed h (b ++ l) = absorbed (compress h b) l.
Proof.
  intros Hb. unfold absorbed. destruct (length (b ++ l)) as [|n] eqn:E; [rewrite length_app in E; lia|].
  cbn [absorb]. unfold SHA256_BLOCK, zlen. rewrite E, (proj2 (Z.leb_le _ _)) by (rewrite length_app in E; lia).
  rewrite take_app_le, drop_app_ge by lia. rewrite take_ge, Hb, Nat.sub_diag by lia. cbn [drop].
  apply absorb_enough; rewrite length_app in E; lia.
Qed.
Lemma absorbed_rest h l : length (absorbed h l).2 = (length l mod 64)%nat.
Proof.
  remember (length l) as n eqn:Hn. revert h l Hn. induction n as [n IH] using lt_wf_ind. intros h l ->.
  destruct (decide (length l < 64)%nat) as [Hs|Hs].
  - rewrite absorbed_short by done. symmetry. by apply Nat.mod_small.
  - rewrite <- (take_drop 64 l) at 1. rewrite absorbed_block by (rewrite length_take; lia).
    rewrite (IH (length (drop 64 l))); [|rewrite length_drop; lia|done]. rewrite length_drop.
    replace (length l) with (length l - 64 + 1 * 64)%nat at 2 by lia. by rewrite Nat.Div0.mod_add.
Qed.
Lemma absorbed_app h a b : absorbed h (a ++ b) = absorbed (absorbed h a).1 ((absorbed h a).2 ++ b).
Proof.
  remember (length a) as n eqn:Hn. revert h a Hn. induction n as [n IH] using lt_wf_ind. intros h a ->.
  destruct (decide (length a < 64)%nat) as [Hs|Hs]; [by rewrite (absorbed_short h a)|].
  assert (length (take 64 a) = 64%nat) as Ht by (rewrite length_take; lia).
  assert (length (drop 64 a) < length a)%nat as Hd by (rewrite length_drop; lia).
  assert (absorbed h a = absorbed (compress h (take 64 a)) (drop 64 a)) as ->
    by (rewrite <- absorbed_block by done; by rewrite take_drop).
  rewrite <- (take_drop 64 a) at 1. rewrite <- app_assoc, absorbed_block by done. by eapply IH.
Qed.
Lemma absorbed_full h l n : length l = (64 * n)%nat -> absorbed h l = (foldl compress h (blocks_of n l), []).
Proof.
  revert h l. induction n as [|n IH]; intros h l Hl.
  - destruct l; [|simpl in Hl; lia]. by rewrite absorbed_short by (simpl; lia).
  - rewrite <- (take_drop 64 l) at 1. rewrite absorbed_block by (rewrite length_take; lia).
    cbn [blocks_of foldl]. apply IH. rewrite length_drop. lia.
Qed.

(** The state after the bytes [msg]. *)
Record st_ok (s : Sha256) (msg : list Z) : Prop := {
  so_h : s.(sh_h) = (absorbed H0 msg).1;
  so_buf : take (Z.to_nat s.(sh_buf_len)) s.(sh_buf) = (absorbed H0 msg).2;
  so_len : s.(sh_buf_len) = zlen (absorbed H0 msg).2;
  so_size : length s.(sh_buf) = 64%nat;
  so_total : s.(sh_total) = u64 (zlen msg)
}.
Lemma rest_lt h l : (length (absorbed h l).2 < 64)%nat.
Proof. rewrite absorbed_rest. apply Nat.mod_upper_bound. lia. Qed.
Lemma new_ok : st_ok sha_new [].
Proof. by split. Qed.
Lemma length_splice buf at_ d : 0 <= at_ -> (Z.to_nat at_ + length d <= length buf)%nat -> length (splice buf at_ d) = length buf.
Proof. intros Ha Hl. unfold splice. rewrite !length_app, length_take, length_drop. lia. Qed.
Lemma take_splice buf at_ d :
  0 <= at_ -> (Z.to_nat at_ + length d <= length buf)%nat ->
  take (Z.to_nat at_ + length d) (splice buf at_ d) = take (Z.to_nat at_) buf ++ d.
Proof.
  intros Ha Hl. unfold splice. rewrite app_assoc, take_app_le by (rewrite length_app, length_take; lia).
  apply take_ge. rewrite length_app, length_take. lia.
Qed.
Lemma total_step a b : u64 (u64 a + b) = u64 (a + b).
Proof. rewrite !u64_mod. by rewrite Zplus_mod_idemp_l. Qed.

(** The second half of an update: whole blocks, then the tail into the buffer. *)
Lemma tail_ok h buf total data msg :
  absorbed H0 msg = absorbed h data -> length buf = 64%nat -> total = u64 (zlen msg) ->
  st_ok (let '(h, d) := absorb (length data) h data in
         if bool_decide (d <> []) then mk_sha h (splice buf 0 d) (zlen d) total else mk_sha h buf 0 total) msg.
Proof.
  intros Hm Hb Ht. fold (absorbed h data). pose proof (rest_lt h data) as Hl.
  destruct (absorbed h data) as [h' d]. cbn [snd] in Hl. case_bool_decide as Hd.
  - split; cbn [sh_h sh_buf sh_buf_len sh_total]; rewrite ?Hm; try done.
    + replace (Z.to_nat (zlen d)) with (Z.to_nat 0 + length d)%nat by (unfold zlen; lia).
      rewrite take_splice by lia. done.
    + rewrite length_splice by lia. done.
  - subst d. split; cbn [sh_h sh_buf sh_buf_len sh_total]; rewrite ?Hm; done.
Qed.
Lemma update_ok s msg data : st_ok s msg -> st_ok (sha_update s data) (msg ++ data).
Proof.
  intros [Hh Hb Hl Hs Ht]. pose proof (rest_lt H0 msg) as Hr. pose proof (absorbed_app H0 msg data) as HA.
  destruct (absorbed H0 msg) as [h r]. cbn [fst snd] in *. unfold sha_update. rewrite Hh, Hl in *.
  assert (u64 (s.(sh_total) + zlen data) = u64 (zlen (msg ++ data))) as HT.
  { rewrite Ht, total_step. f_equal. unfold zlen. rewrite length_app. lia. } rewrite HT.
  destruct (Z.ltb_spec 0 (zlen r)) as [Hp|Hp].
  2: { assert (r = []) as -> by (destruct r; [done|unfold zlen in Hp; simpl in Hp; lia]). cbn [app] in HA.
       cbn [sh_h sh_buf sh_buf_len]. by apply tail_ok. }
  unfold SHA256_BLOCK. set (tk := if zlen data <? 64 - zlen r then zlen data else 64 - zlen r).
  assert (Z.of_nat (length data) < 64 - zlen r -> tk = zlen data) as K1.
  { intros. unfold tk, zlen in *. by rewrite (proj2 (Z.ltb_lt _ _)) by lia. }
  assert (64 - zlen r <= Z.of_nat (length data) -> tk = 64 - zlen r) as K2.
  { intros. unfold tk, zlen in *. by rewrite (proj2 (Z.ltb_ge _ _)) by lia. } clearbody tk.
  set (buf := splice s.(sh_buf) (zlen r) (take (Z.to_nat tk) data)).
  assert (Z.to_nat (zlen r) + length (take (Z.to_nat tk) data) <= 64)%nat as Hfit.
  { rewrite length_take. unfold zlen in *. destruct (decide (Z.of_nat (length data) < 64 - Z.of_nat (length r))); lia. }
  assert (take (Z.to_nat (zlen r) + length (take (Z.to_nat tk) data)) buf = r ++ take (Z.to_nat tk) data) as HB.
  { unfold buf. rewrite take_splice by (unfold zlen in *; lia). by rewrite Hb. }
  assert (length buf = 64%nat) as HBs by (unfold buf; rewrite length_splice by (unfold zlen in *; lia); done).
  destruct (Z.eqb_spec (zlen r + tk) 64) as [E|E].
  - assert (buf = r ++ take (Z.to_nat tk) data) as HBe.
    { rewrite <- HB, take_ge; [done|]. rewrite length_take. unfold zlen in *.
      destruct (decide (Z.of_nat (length data) < 64 - Z.of_nat (length r))); lia. }
    cbn [sh_h sh_buf sh_buf_len]. apply tail_ok; [|done|done]. rewrite HA, HBe, <- absorbed_block; [|by rewrite <- HBe].
    by rewrite <- app_assoc, take_drop.
  - assert (tk = zlen data /\ zlen r + zlen data < 64) as [-> Hlt].
    { unfold zlen in *. destruct (decide (Z.of_nat (length data) < 64 - Z.of_nat (length r))); [split; [by apply K1|lia]|].
      exfalso. apply E. rewrite K2 by lia. lia. }
    assert (take (Z.to_nat (zlen data)) data = data) as Htk by (apply take_ge; unfold zlen; lia). rewrite Htk in HB, Hfit.
    rewrite drop_ge by (unfold zlen; lia). cbn [length absorb sh_h sh_buf sh_buf_len]. rewrite bool_decide_false by tauto.
    rewrite (absorbed_short h (r ++ data)) in HA by (rewrite length_app; unfold zlen in *; lia).
    split; cbn [sh_h sh_buf sh_buf_len sh_total]; rewrite ?HA; try done.
    + cbn [snd]. rewrite <- HB. f_equal. unfold zlen. lia.
    + unfold zlen. cbn [snd]. rewrite length_app. lia.
Qed.
Lemma updates_ok s msg chunks : st_ok s msg -> st_ok (foldl sha_update s chunks) (msg ++ mjoin chunks).
Proof.
  revert s msg. induction chunks as [|c cs IH]; intros s msg Hs; [by rewrite app_nil_r|].
  cbn [foldl mjoin list_join]. rewrite app_assoc. by apply IH, update_ok.
Qed.

Lemma length_compress h b : length h = 8%nat -> length (compress h b) = 8%nat.
Proof. intros Hh. unfold compress. rewrite length_fmap, length_zip, Hh. done. Qed.
Lemma length_blocks h bs : length h = 8%nat -> length (foldl compress h bs) = 8%nat.
Proof. revert h. induction bs as [|b bs IH]; intros h Hh; [done|]. by apply IH, length_compress. Qed.
Lemma length_be n x : length (to_be_bytes n x) = n.
Proof. unfold to_be_bytes. rewrite length_fmap, length_rev, length_seqZ. lia. Qed.

Lemma take_pad n : 1 <= n <= 72 -> take (Z.to_nat n) (0x80 :: replicate 71 0) = 0x80 :: replicate (Z.to_nat (n - 1)) 0.
Proof.
  intros Hn. replace (Z.to_nat n) with (S (Z.to_nat (n - 1))) by lia. cbn [take]. f_equal.
  rewrite take_replicate. f_equal. lia.
Qed.
Lemma length_padded msg : exists n, length (padded msg) = (64 * n)%nat.
Proof.
  exists ((length (padded msg)) / 64)%nat. unfold padded, pad_zeros, zlen. rewrite !length_app. cbn [length].
  rewrite length_app, length_replicate, length_be. set (L := Z.of_nat (length msg)).
  assert (exists q, Z.of_nat (length msg + S (Z.to_nat ((55 - L) mod 64) + 8)) = 64 * q) as [q Hq].
  { exists ((L + 8 + 1 + (55 - L) mod 64) / 64). fold L. Z.div_mod_to_equations. lia. }
  assert (exists q', (length msg + S (Z.to_nat ((55 - L) mod 64) + 8))%nat = (64 * q')%nat) as [q' ->] by (exists (Z.to_nat q); lia).
  rewrite Nat.mul_comm, Nat.div_mul; lia.
Qed.

Lemma finalize_ok s msg : st_ok s msg -> sha_finalize s = sha256_spec msg.
Proof.
  intros Hs. unfold sha_finalize. set (rem := s.(sh_buf_len) mod SHA256_BLOCK).
  assert (rem = zlen msg mod 64) as Hrem.
  { unfold rem, SHA256_BLOCK. rewrite (so_len _ _ Hs). unfold zlen. rewrite absorbed_rest, Nat2Z.inj_mod.
    by rewrite Z.mod_mod by lia. }
  set (pad_len := if rem <? 56 then _ else _). assert (pad_len = pad_zeros (zlen msg) + 1 /\ 1 <= pad_len <= 72) as [Hp Hr].
  { unfold pad_len, pad_zeros. rewrite Hrem. clear. generalize (zlen msg). intros L.
    destruct (Z.ltb_spec (L mod 64) 56); Z.div_mod_to_equations; lia. }
  rewrite take_pad by done. replace (pad_len - 1) with (pad_zeros (zlen msg)) by lia. cbv zeta.
  assert (u64 (s.(sh_total) * 8) = u64 (8 * zlen msg)) as ->.
  { rewrite (so_total _ _ Hs), !u64_mod, Zmult_mod_idemp_l. f_equal. lia. }
  pose proof (update_ok _ _ (to_be_bytes 8 (u64 (8 * zlen msg))) (update_ok _ _ (0x80 :: replicate (Z.to_nat (pad_zeros (zlen msg))) 0) Hs)) as Hf.
  assert ((msg ++ 0x80 :: replicate (Z.to_nat (pad_zeros (zlen msg))) 0) ++ to_be_bytes 8 (u64 (8 * zlen msg)) = padded msg) as Hm
    by (unfold padded; by rewrite <- app_assoc). rewrite Hm in Hf.
  destruct (length_padded msg) as [n Hn]. rewrite (so_h _ _ Hf), (absorbed_full _ _ n Hn). unfold sha256_spec.
  rewrite Hn, Nat.mul_comm, Nat.div_mul by lia. cbn [fst]. rewrite take_ge; [done|]. rewrite length_blocks; done.
Qed.

Lemma sha256_is_spec msg : sha256 msg = sha256_spec msg.
Proof. exact (finalize_ok _ _ (update_ok _ _ msg new_ok)). Qed.
Lemma length_sha256_spec msg : length (sha256_spec msg) = 32%nat.
Proof.
  unfold sha256_spec. set (hs := foldl compress _ _). assert (length hs = 8%nat) as Hl by by apply length_blocks.
  clearbody hs. do 9 (destruct hs as [|? hs]; try (simpl in Hl; lia)). cbn [fmap list_fmap mjoin list_join].
  rewrite !length_app, !length_be. done.
Qed.
Lemma hmac_k0_spec key :
  hmac_k0 key = let k := if 64 <? zlen key then sha256_spec key else key in k ++ replicate (64 - length k) 0.
Proof.
  assert (forall k, (length k <= 64)%nat -> splice (replicate 64 0) 0 k = k ++ replicate (64 - length k) 0) as HS.
  { intros k Hk. unfold splice. rewrite drop_replicate. done. }
  unfold hmac_k0, SHA256_BLOCK. destruct (Z.ltb_spec 64 (zlen key)); cbv zeta.
  - rewrite HS, sha256_is_spec; [done|]. rewrite sha256_is_spec, length_sha256_spec. lia.
  - apply HS. unfold zlen in *. lia.
Qed.
Lemma hmac_finalize_spec key chunks :
  hmac_finalize (foldl hmac_update (hmac_new key) chunks) = hmac_spec key (mjoin chunks).
Proof.
  assert (forall m cs, foldl hmac_update m cs = mk_hmac (foldl sha_update m.(hm_inner) cs) m.(hm_opad)) as HF.
  { intros m cs. revert m. induction cs as [|c cs IH]; intros m; [by destruct m|]. cbn [foldl]. rewrite IH. done. }
  rewrite HF. unfold hmac_finalize, hmac_new. cbv zeta. cbn [hm_inner hm_opad].
  rewrite (finalize_ok _ _ (updates_ok _ _ chunks (update_ok _ _ _ new_ok))).
  rewrite (finalize_ok _ _ (update_ok _ _ _ (update_ok _ _ _ new_ok))). rewrite hmac_k0_spec. done.
Qed.
Lemma hmac_is_spec key msg : hmac_sha256 key msg = hmac_spec key msg.
Proof.
  unfold hmac_sha256. cbv zeta. rewrite (finalize_ok _ _ (update_ok _ _ msg (update_ok _ _ _ new_ok))).
  rewrite (finalize_ok _ _ (update_ok _ _ _ (update_ok _ _ _ new_ok))). rewrite hmac_k0_spec. done.
Qed.

(** C20: hashing in pieces is hashing the whole.  However a message is cut, the
    streaming SHA-256 gives the digest of the whole message as FIPS 180-4
    defines it: the message, a one bit, zeros up to 56 modulo 64, and its
    length in bits as a 64-bit word, compressed block by block; and the
    streaming HMAC and the one-shot HMAC both give the HMAC of RFC 2104. *)
Theorem hashing_streams_equivalently key chunks :
  sha_finalize (foldl sha_update sha_new chunks) = sha256_spec (mjoin chunks)
  /\ hmac_finalize (foldl hmac_update (hmac_new key) chunks) = hmac_spec key (mjoin chunks)
  /\ hmac_sha256 key (mjoin chunks) = hmac_spec key (mjoin chunks).
Proof.
  split; [|split; [apply hmac_finalize_spec|apply hmac_is_spec]].
  exact (finalize_ok _ _ (updates_ok _ _ chunks new_ok)).
Qed.

(** Known answers: FIPS 180-4 and RFC 4231. *)
Example sha256_abc :
  from_be_bytes (sha256_spec [97; 98; 99]) = 0xba7816bf8f01cfea414140de5dae2223b00361a396177a9cb410ff61f20015ad.
Proof. vm_compute. reflexivity. Qed.
Example sha256_empty :
  from_be_bytes (sha256 []) = 0xe3b0c44298fc1c149afbf4c8996fb92427ae41e4649b934ca495991b7852b855.
Proof. vm_compute. reflexivity. Qed.
(** The key Jefe and the message of case 2. *)
Example hmac_case2 :
  from_be_bytes (hmac_spec [74; 101; 102; 101]
    [119; 104; 97; 116; 32; 100; 111; 32; 121; 97; 32; 119; 97; 110; 116; 32; 102; 111; 114; 32; 110; 111; 116; 104; 105; 110; 103; 63])
  = 0x5bdcc146bf60754e6a042426089575c75a003f089d2739839dec58b964ec3843.
Proof. vm_compute. reflexivity. Qed.

(** ** Key expansion *)

(** T(n) of RFC 5869 and the first blocks in a row. *)
Fixpoint hkdf_t (prk info : list Z) (n : nat) : list Z :=
  match n with O => [] | S m => hmac_spec prk (hkdf_t prk info m ++ info ++ [Z.of_nat n]) end.
Definition hkdf_blocks (prk info : list Z) (n : nat) : list Z := mjoin (hkdf_t prk info <$> seq 1 n).
Definition hkdf_spec (ikm salt info : list Z) (out_len : Z) : list Z :=
  let prk := hmac_spec (if bool_decide (salt = []) then replicate 32 0 else salt) ikm in
  take (Z.to_nat out_len) (hkdf_blocks prk info 255).

Lemma length_hmac_spec key msg : length (hmac_spec key msg) = 32%nat.
Proof. apply length_sha256_spec. Qed.
Lemma hkdf_blocks_S prk info n : hkdf_blocks prk info (S n) = hkdf_blocks prk info n ++ hkdf_t prk info (S n).
Proof. unfold hkdf_blocks. rewrite seq_S, fmap_app, join_app. cbn [fmap list_fmap mjoin list_join]. by rewrite app_nil_r. Qed.
Lemma length_hkdf_blocks prk info n : length (hkdf_blocks prk info n) = (32 * n)%nat.
Proof.
  induction n as [|n IH]; [done|]. rewrite hkdf_blocks_S, length_app, IH. cbn [hkdf_t]. rewrite length_hmac_spec. lia.
Qed.
Lemma hkdf_blocks_prefix prk info n m : (n <= m)%nat -> take (32 * n) (hkdf_blocks prk info m) = hkdf_blocks prk info n.
Proof.
  induction 1 as [|m Hm IH]; [apply take_ge; rewrite length_hkdf_blocks; lia|].
  rewrite hkdf_blocks_S, take_app_le by (rewrite length_hkdf_blocks; lia). done.
Qed.

Lemma hkdf_expand_spec N prk info out_len n fuel :
  Z.of_nat N = 255 -> 0 <= out_len -> (n < N)%nat -> (N <= n + fuel)%nat ->
  hkdf_expand fuel prk info (hkdf_t prk info n) (take (Z.to_nat out_len) (hkdf_blocks prk info n)) out_len (Z.of_nat (S n))
  = Some (take (Z.to_nat out_len) (hkdf_blocks prk info N)).
Proof.
  intros HN Ho. revert n. induction fuel as [|fuel IH]; intros n Hn Hf; [lia|]. cbn [hkdf_expand].
  set (out := take _ _). assert (zlen out = Z.min out_len (32 * Z.of_nat n)) as Hl.
  { unfold out, zlen. rewrite length_take, length_hkdf_blocks. lia. }
  rewrite Hl. destruct (Z.leb_spec out_len (Z.min out_len (32 * Z.of_nat n))).
  { f_equal. unfold out. rewrite <- (hkdf_blocks_prefix prk info n N) by lia. rewrite take_take. f_equal. lia. }
  assert (out = hkdf_blocks prk info n) as Hout by (apply take_ge; rewrite length_hkdf_blocks; lia).
  change (hmac_finalize (hmac_update (hmac_update (hmac_update (hmac_new prk) (hkdf_t prk info n)) info) [Z.of_nat (S n)]))
    with (hmac_finalize (foldl hmac_update (hmac_new prk) [hkdf_t prk info n; info; [Z.of_nat (S n)]])).
  rewrite hmac_finalize_spec. cbn [mjoin list_join]. rewrite app_nil_r.
  change (hmac_spec prk (hkdf_t prk info n ++ info ++ [Z.of_nat (S n)])) with (hkdf_t prk info (S n)).
  assert (out ++ take (Z.to_nat (Z.min SHA256_OUT (out_len - Z.min out_len (32 * Z.of_nat n)))) (hkdf_t prk info (S n))
          = take (Z.to_nat out_len) (hkdf_blocks prk info (S n))) as ->.
  { rewrite Hout, hkdf_blocks_S, take_app_ge by (rewrite length_hkdf_blocks; lia). f_equal. rewrite length_hkdf_blocks.
    unfold SHA256_OUT. destruct (Z.leb_spec 32 (out_len - 32 * Z.of_nat n)).
    - rewrite !take_ge; [done|..]; cbn [hkdf_t]; rewrite length_hmac_spec; lia.
    - f_equal. lia. }
  destruct (Z.eqb_spec (Z.of_nat (S n)) 255).
  - by replace (S n) with N by lia.
  - replace (Z.of_nat (S n) + 1) with (Z.of_nat (S (S n))) by lia. apply IH; lia.
Qed.
Lemma hkdf_is_spec ikm salt info out_len :
  0 <= out_len -> hkdf_sha256 ikm salt info out_len = Some (hkdf_spec ikm salt info out_len).
Proof.
  intros Ho. unfold hkdf_sha256, hkdf_spec. cbv zeta. rewrite hmac_is_spec.
  set (prk := hmac_spec _ ikm). assert (exists N, N = 255%nat) as [N HN] by eauto. rewrite <- HN.
  pose proof (hkdf_expand_spec N prk info out_len 0 HKDF_FUEL ltac:(lia) Ho) as H.
  change (hkdf_t prk info 0) with (@nil Z) in H. change (hkdf_blocks prk info 0) with (@nil Z) in H. rewrite take_nil in H.
  apply H; unfold HKDF_FUEL; lia.
Qed.

(** Little-endian bytes determine the word. *)
Lemma le_byte x i : 0 <= i -> Z.testbit (Z.land (Z.shiftr x (8 * (i / 8))) 0xFF) (i mod 8) = Z.testbit x i.
Proof.
  intros Hi. pose proof (Z.mod_pos_bound i 8 ltac:(lia)). pose proof (Z.div_mod i 8 ltac:(lia)).
  change 0xFF with (Z.ones 8). rewrite Z.land_spec, Z.ones_spec_low, andb_true_r, Z.shiftr_spec by lia. f_equal. lia.
Qed.
Lemma to_le_bytes_inj n x y :
  0 <= x < 2 ^ (8 * Z.of_nat n) -> 0 <= y < 2 ^ (8 * Z.of_nat n) -> to_le_bytes n x = to_le_bytes n y -> x = y.
Proof.
  intros Hx Hy E. apply Z.bits_inj'. intros i Hi. destruct (decide (i < 8 * Z.of_nat n)) as [Hl|Hl].
  - apply (f_equal (.!! Z.to_nat (i / 8))) in E. unfold to_le_bytes in E.
    rewrite !list_lookup_fmap, lookup_seqZ_lt in E by (Z.div_mod_to_equations; lia). cbn in E. injection E as E.
    rewrite Z2Nat.id, Z.add_0_l in E by (apply Z.div_pos; lia). rewrite <- (le_byte x), <- (le_byte y) by done. by rewrite E.
  - assert (forall z, 0 <= z < 2 ^ (8 * Z.of_nat n) -> Z.testbit z i = false) as HT; [|by rewrite !HT].
    intros z Hz. destruct (decide (z = 0)) as [->|Hz0]; [by rewrite Z.bits_0|]. apply Z.bits_above_log2; [lia|].
    apply Z.log2_lt_pow2; [lia|]. eapply Z.lt_le_trans; [apply Hz|]. apply Z.pow_le_mono_r; lia.
Qed.
Lemma length_le n x : length (to_le_bytes n x) = n.
Proof. unfold to_le_bytes. rewrite length_fmap, length_seqZ. lia. Qed.

(** ** What equal digests mean

    Security statements are reductions: equal digests come from equal messages,
    or two of the messages hashed are a collision. *)
Definition collides (xs ys : list (list Z)) : Prop :=
  exists x y, x ∈ xs /\ y ∈ ys /\ x <> y /\ sha256_spec x = sha256_spec y.
(** The two messages an HMAC hashes. *)
Definition hmac_block (key : list Z) : list Z := key ++ replicate (64 - length key) 0.
Definition hmac_inner (key msg : list Z) : list Z := xor_pad 0x36 (hmac_block key) ++ msg.
Definition hmac_outer (key msg : list Z) : list Z := xor_pad 0x5c (hmac_block key) ++ sha256_spec (hmac_inner key msg).
Definition hmac_inputs (key msg : list Z) : list (list Z) := [hmac_outer key msg; hmac_inner key msg].

Lemma collides_mono xs xs' ys ys' : xs ⊆ xs' -> ys ⊆ ys' -> collides xs ys -> collides xs' ys'.
Proof. intros Hx Hy (x & y & H1 & H2 & H3). exists x, y. split; [by apply Hx|]. split; [by apply Hy|done]. Qed.
Lemma collides_sym xs ys : collides xs ys -> collides ys xs.
Proof. intros (x & y & H1 & H2 & H3 & H4). by exists y, x. Qed.
Lemma digest_binds x y : sha256_spec x = sha256_spec y -> x = y \/ collides [x] [y].
Proof.
  intros E. destruct (decide (x = y)) as [->|Hne]; [by left|]. right. exists x, y. rewrite !list_elem_of_singleton. done.
Qed.
Lemma xor_pad_inj c a b : xor_pad c a = xor_pad c b -> a = b.
Proof.
  assert (Inj (=) (=) (Z.lxor c)).
  { intros x y E. apply (f_equal (Z.lxor c)) in E. by rewrite <- !Z.lxor_assoc, !Z.lxor_nilpotent, !Z.lxor_0_l in E. }
  apply (inj (fmap (Z.lxor c))).
Qed.
Lemma hmac_short key msg : (length key <= 64)%nat -> hmac_spec key msg = sha256_spec (hmac_outer key msg).
Proof. intros Hk. unfold hmac_spec. destruct (Z.ltb_spec 64 (zlen key)); [unfold zlen in *; lia|done]. Qed.
Lemma length_hmac_block key : (length key <= 64)%nat -> length (hmac_block key) = 64%nat.
Proof. intros Hk. unfold hmac_block. rewrite length_app, length_replicate. lia. Qed.
(** Equal HMACs under keys of one length are of equal keys and messages. *)
Lemma hmac_binds k1 k2 m1 m2 :
  length k1 = length k2 -> (length k1 <= 64)%nat -> hmac_spec k1 m1 = hmac_spec k2 m2 ->
  (k1 = k2 /\ m1 = m2) \/ collides (hmac_inputs k1 m1) (hmac_inputs k2 m2).
Proof.
  intros Hl Hk E. rewrite !hmac_short in E by lia.
  destruct (digest_binds _ _ E) as [Eo|C]; [|right; revert C; apply collides_mono; set_solver].
  apply app_inj_1 in Eo as [Ek Ei]; [|unfold xor_pad; rewrite !length_fmap, !length_hmac_block; lia].
  apply xor_pad_inj in Ek. destruct (digest_binds _ _ Ei) as [Em|C]; [|right; revert C; apply collides_mono; set_solver].
  left. split.
  - by apply app_inj_1 in Ek as [? _].
  - apply app_inj_1 in Em as [_ ?]; [done|]. by rewrite Ek.
Qed.
