(* ===== verification/KTypes.v ===== *)
(** Constants and data types shared by the kernel components: the capability
    record, its types and rights, the well-known slots, the memory that holds
    the capability spaces, and the error codes.  They are the declarations of
    src/src/include/kernel.h and src/include/errno.h that the modelled code
    uses. *)
From S2P Require Import Prelude.

(** ** Sizes (kernel.h) *)
Definition PAGE_SIZE : Z := 4096.
Definition CNODE_SIZE : Z := 256.
Definition MAX_TASKS : Z := 256.
Definition CAP_BYTES : Z := 40.
Definition MAX_CAPS_PER_TASK : Z := 128.
Definition KERNEL_RESERVED_CAPS : Z := 4.
Definition MAX_REV_SETS : Z := 8.
Definition USER_VIRT_BASE : Z := 0x400000.
Definition USER_AREA_BASE : Z := 0x400000.

(** ** Object index spaces *)
Definition REPLY_EP_BASE : Z := 64.
Definition MAX_ENDPOINTS : Z := REPLY_EP_BASE + MAX_TASKS.
Definition MAX_DYN_ENDPOINTS : Z := 256.
Definition DYN_EP_BASE : Z := MAX_ENDPOINTS.
Definition EP_INDEX_MAX : Z := DYN_EP_BASE + MAX_DYN_ENDPOINTS.
Definition FS_EP_REQ : Z := 4.
Definition CON_EP_REQ : Z := 6.
Definition NOTIF_FS_READY : Z := 0.
Definition MAX_NOTIFICATIONS : Z := 64.
Definition MAX_DYN_NOTIFICATIONS : Z := 256.
Definition DYN_NOTIF_BASE : Z := MAX_NOTIFICATIONS.
Definition NOTIF_INDEX_MAX : Z := DYN_NOTIF_BASE + MAX_DYN_NOTIFICATIONS.
Definition MAX_UNTYPED : Z := 64.
Definition UNTYPED_KERNEL : Z := 0.
Definition UNTYPED_ROOT : Z := 1.
Definition IODEV_PLATFORM : Z := 1.

(** ** Well-known slots of a task's cspace *)
Definition CAPSLOT_TCB : Z := 0.
Definition CAPSLOT_FRAME : Z := 3.
Definition CAPSLOT_REPLY_EP : Z := 4.
Definition CAPSLOT_CONSOLE : Z := 8.
Definition CAPSLOT_STORAGE : Z := 9.
Definition CAPSLOT_REPLY : Z := 21.
Definition CAP_DYNAMIC_FLOOR : Z := 64.
Definition LIBC_SLOT_FIRST : Z := 128.
Definition SHLIB_MAX_PAGES : Z := 64.
Definition STDIN_PIPE_SLOT : Z := 14.
Definition STDOUT_PIPE_SLOT : Z := 15.

(** ** Task states *)
Definition TASK_DEAD : Z := 0.
Definition TASK_RUNNABLE : Z := 1.
Definition TASK_BLOCKED_IPC : Z := 2.
Definition TASK_BLOCKED_NOTIF : Z := 3.
Definition TASK_BLOCKED_WAIT : Z := 4.

(** ** Capability types *)
Definition CAP_NULL : Z := 0.
Definition CAP_TCB : Z := 1.
Definition CAP_NOTIFICATION : Z := 2.
Definition CAP_ENDPOINT : Z := 3.
Definition CAP_FRAME : Z := 4.
Definition CAP_USER : Z := 6.
Definition CAP_AUDIT : Z := 7.
Definition CAP_CONSOLE : Z := 8.
Definition CAP_ENCRYPTED_STORAGE : Z := 9.
Definition CAP_REVOCATION : Z := 10.
Definition CAP_BLOCK_DEV : Z := 11.
Definition CAP_IO_DEVICE : Z := 12.
Definition CAP_PIPE : Z := 13.
Definition CAP_KERNEL_LOG : Z := 14.
Definition CAP_BOOT_MODULE : Z := 15.
Definition CAP_UNTYPED : Z := 16.
Definition CAP_REPLY : Z := 17.
Definition CAP_DEBUG : Z := 18.
Definition CAP_STORAGE_FORMAT : Z := 19.
Definition CAP_SCHED_CONTEXT : Z := 20.
Definition CAP_ANYTYPE : Z := 0xFFFFFFFF.

(** ** Rights *)
Definition CAP_RIGHT_READ : Z := 1.
Definition CAP_RIGHT_WRITE : Z := 2.
Definition CAP_RIGHT_EXEC : Z := 4.
Definition CAP_RIGHT_GRANT : Z := 8.
Definition CAP_RIGHT_MINT : Z := 16.
Definition CAP_RIGHT_REVOKE : Z := 32.
Definition CAP_RIGHT_AUDIT_WRITE : Z := 64.
Definition CAP_RIGHT_PRIORITY : Z := 128.
Definition CAP_RIGHT_ALL : Z := 0xFFFFFFFF.

(** ** Error codes (include/errno.h) *)
Definition SYS_ERR_PERM : Z := -1.
Definition SYS_ERR_NOENT : Z := -2.
Definition SYS_ERR_AGAIN : Z := -11.
Definition SYS_ERR_NOMEM : Z := -12.
Definition SYS_ERR_FAULT : Z := -14.
Definition SYS_ERR_INVAL : Z := -22.
Definition SYS_ERR_PIPE : Z := -32.
Definition SYS_ERR_RANGE : Z := -34.

(** ** The capability (capability_t) *)
Record capability := mk_cap {
  ctype : Z;
  rights : Z;
  object : Z;
  badge : Z;
  serial : Z;
  token : Z
}.

(** A slot with every field zero: what an emptied slot holds. *)
Definition null_cap : capability := mk_cap CAP_NULL 0 0 0 0 0.

#[global] Instance capability_eq_dec : EqDecision capability.
Proof. solve_decision. Defined.
#[global] Instance capability_inhabited : Inhabited capability := populate null_cap.

Definition set_ctype (c : capability) (t : Z) : capability :=
  mk_cap t c.(rights) c.(object) c.(badge) c.(serial) c.(token).
Definition set_badge (c : capability) (b : Z) : capability :=
  mk_cap c.(ctype) c.(rights) c.(object) b c.(serial) c.(token).

(** ** Capability spaces

    A [capability_t *] is the base of one array: the static [root_cnode], or
    a block the kernel carved out of the untyped arena at an address.  Two
    pointers to one array are one [cref], so a sweep that reaches an array
    twice writes the same memory. *)
Inductive cref := CRoot | CAddr (a : Z).

#[global] Instance cref_eq_dec : EqDecision cref.
Proof. solve_decision. Defined.
#[global] Instance cref_countable : Countable cref.
Proof.
  refine (inj_countable' (fun c => match c with CRoot => None | CAddr a => Some a end)
                         (fun o => match o with None => CRoot | Some a => CAddr a end) _).
  by intros [].
Defined.

(** A slot is a cspace and an index; the memory is the arrays by base. *)
Definition loc : Type := cref * Z.
Abbreviation cmem := (gmap cref (list capability)).

Definition space (m : cmem) (c : cref) : list capability := default [] (m !! c).
Definition cap_at (m : cmem) (l : loc) : capability := zget null_cap (space m l.1) l.2.
Definition cap_put (m : cmem) (l : loc) (x : capability) : cmem :=
  <[l.1 := zset (space m l.1) l.2 x]> m.

(** [slot_ok m l]: the slot lies inside its array. *)
Definition slot_ok (m : cmem) (l : loc) : Prop := 0 <= l.2 < zlen (space m l.1).

(** ** Pointers to a task's [caps_in_use]: the task, or NULL. *)
Definition ciu_ptr : Type := option Z.

(** ** Descriptors of retyped objects (struct kobj_slot, untyped.c)

    [ks_mem] is the pointer into the arena, [None] for NULL; the object behind
    it is kept beside the address, because exactly one descriptor points at
    each object. *)
Record kobj_slot (A : Type) := mk_kslot {
  ks_mem : option (Z * A);
  ks_untyped : Z;
  ks_pinned : bool;
  ks_pages : Z
}.
Arguments mk_kslot {A}.
Arguments ks_mem {A}.
Arguments ks_untyped {A}.
Arguments ks_pinned {A}.
Arguments ks_pages {A}.
Definition kslot_zero {A} : kobj_slot A := mk_kslot None 0 false 0.
Definition ks_obj {A} (k : kobj_slot A) : option A := snd <$> k.(ks_mem).
Definition ks_set_obj {A} (k : kobj_slot A) (x : A) : kobj_slot A :=
  mk_kslot ((fun ma => (ma.1, x)) <$> k.(ks_mem)) k.(ks_untyped) k.(ks_pinned) k.(ks_pages).

Lemma set_badge_id c : set_badge c c.(badge) = c.
Proof. by destruct c. Qed.

(** ** Reading the memory after a write *)
Lemma space_put m l x c :
  space (cap_put m l x) c = if decide (l.1 = c) then zset (space m l.1) l.2 x else space m c.
Proof.
  unfold space, cap_put. case_decide as H.
  - by rewrite H, lookup_insert_eq.
  - by rewrite lookup_insert_ne.
Qed.

Lemma zlen_space_put m l x c : zlen (space (cap_put m l x) c) = zlen (space m c).
Proof. rewrite space_put. case_decide as H; [|done]. by rewrite zlen_zset, H. Qed.

Lemma slot_ok_put m l x l' : slot_ok (cap_put m l x) l' <-> slot_ok m l'.
Proof. unfold slot_ok. by rewrite zlen_space_put. Qed.

Lemma cap_at_put_eq m l x : slot_ok m l -> cap_at (cap_put m l x) l = x.
Proof. intros. unfold cap_at. rewrite space_put, decide_True by done. by apply zget_zset_eq. Qed.

Lemma cap_at_put_ne m l x l' : l <> l' -> cap_at (cap_put m l x) l' = cap_at m l'.
Proof.
  intros H. unfold cap_at. rewrite space_put. case_decide as Hc; [|done].
  rewrite Hc. apply zget_zset_ne. intros Hi. apply H. by destruct l, l'; simpl in *; subst.
Qed.

Lemma cap_at_not_ok m l : ~ slot_ok m l -> cap_at m l = null_cap.
Proof. unfold slot_ok, cap_at. intros. apply zget_out. lia. Qed.

#[global] Instance slot_ok_dec m l : Decision (slot_ok m l).
Proof. unfold slot_ok. apply _. Defined.

Lemma cap_put_not_ok m l x l' : ~ slot_ok m l -> cap_at (cap_put m l x) l' = cap_at m l'.
Proof.
  intros H. unfold cap_at. rewrite space_put. case_decide as Hc; [|done].
  rewrite zset_out by (unfold slot_ok in H; lia). by rewrite Hc.
Qed.

(** The one case split every argument about a write needs. *)
Lemma cap_at_put m l x l' :
  cap_at (cap_put m l x) l' = if decide (l = l' /\ slot_ok m l) then x else cap_at m l'.
Proof.
  case_decide as H; [destruct H as [-> ?]; by apply cap_at_put_eq|].
  destruct (decide (l = l')) as [->|]; [|by apply cap_at_put_ne].
  destruct (decide (slot_ok m l')); [tauto|]. by apply cap_put_not_ok.
Qed.

(** A slot whose type is not CAP_NULL lies inside its array. *)
Lemma typed_slot_ok m l : (cap_at m l).(ctype) <> CAP_NULL -> slot_ok m l.
Proof.
  destruct (decide (slot_ok m l)) as [|H]; [done|]. by rewrite (cap_at_not_ok _ _ H).
Qed.

#[export] Hint Rewrite zlen_space_put : horus.
#[export] Hint Resolve typed_slot_ok : horus.
#[export] Hint Resolve -> slot_ok_put : horus.
#[export] Hint Resolve <- slot_ok_put : horus.
