(* ===== verification/AuditLog.v ===== *)
(** The audit log (src/src/kernel/kaudit.c, src/rust/src/audit.rs): the ring of
    events, the keyed chain under an evolving key, the unkeyed chain of the
    retained window, and what the heads commit to. *)
From Stdlib Require Import Strings.String Strings.Ascii.
From S2P Require Import Prelude KTypes Sha256.

(** ** The keyed chain (audit.rs) *)
Definition AUDIT_CHAIN_DOMAIN : list Z := byte_string "horus-audit-chain-v1".
Definition AUDIT_FS_KEY_DOMAIN : list Z := byte_string "horus-audit-fs-key-v1".
Definition AUDIT_FS_RATCHET_DOMAIN : list Z := byte_string "horus-audit-fs-ratchet-v1".
Definition AUDIT_PUB_DOMAIN : list Z := byte_string "horus-audit-pub-v1".

Definition entry_mac (key : list Z) (seq : Z) (event : list Z) : list Z :=
  hmac_finalize (hmac_update (hmac_update (hmac_new key) (to_le_bytes 8 seq)) event).
Definition head_init (key : list Z) : list Z := hmac_finalize (hmac_update (hmac_new key) AUDIT_CHAIN_DOMAIN).
Definition head_extend (key prev mac : list Z) : list Z :=
  hmac_finalize (hmac_update (hmac_update (hmac_new key) prev) mac).
Definition ratchet (key : list Z) : list Z := sha_finalize (sha_update (sha_update sha_new AUDIT_FS_RATCHET_DOMAIN) key).
Definition fs_genesis_key (pepper : list Z) : list Z :=
  sha_finalize (sha_update (sha_update sha_new AUDIT_FS_KEY_DOMAIN) pepper).

(** The key and the head. *)
Definition rust_audit_fs_genesis (pepper : list Z) : list Z * list Z :=
  let k0 := fs_genesis_key pepper in (k0, head_init k0).
(** The key, the head and the entry's MAC afterwards; the old key is gone. *)
Definition rust_audit_fs_record (key : list Z) (seq : Z) (event head : list Z) : list Z * list Z * list Z :=
  let mac := entry_mac key seq event in
  (ratchet key, head_extend key head mac, mac).
Definition rust_audit_pub_init : list Z := sha256 AUDIT_PUB_DOMAIN.
Definition rust_audit_pub_extend (prev : list Z) (seq : Z) (mac : list Z) : list Z :=
  sha_finalize (sha_update (sha_update (sha_update sha_new prev) (to_le_bytes 8 seq)) mac).
(** Every byte is compared, whatever the earlier ones were. *)
Definition AUDIT_MAC_LEN : Z := SHA256_OUT.
Definition rust_audit_mac_eq (a b : list Z) : bool :=
  foldl (fun diff i => Z.lor diff (Z.lxor (zget 0 a i) (zget 0 b i))) 0 (seqZ 0 AUDIT_MAC_LEN) =? 0.

(** ** The ring (kaudit.c) *)
Definition AUDIT_LOG_SIZE : Z := 256.
Definition AUDIT_PATH_BYTES : Z := 64.
Definition AUDIT_MESSAGE_MAX : Z := 128.
Record audit_event := mk_event {
  ae_type : Z; ae_kind : Z; ae_uid : Z; ae_subject_uid : Z; ae_subject_task : Z; ae_object : Z;
  ae_result : Z; ae_timestamp : Z; ae_arg0 : Z; ae_arg1 : Z; ae_path : list Z; ae_message : list Z
}.
Definition event_zero : audit_event :=
  mk_event 0 0 0 0 0 0 0 0 0 0 (replicate (Z.to_nat AUDIT_PATH_BYTES) 0) (replicate (Z.to_nat AUDIT_MESSAGE_MAX) 0).
Record audit_state := mk_audit {
  audit_log_buffer : list audit_event; audit_head : Z; audit_count : Z;
  audit_mac : list (list Z); audit_entry_seq : list Z; audit_chain_head : list Z; audit_fs_key : list Z;
  audit_pub_head : list Z; audit_pub_start : list Z; audit_seq : Z; audit_chain_ready : bool
}.
(** The statics as the image holds them. *)
Definition audit_zero : audit_state :=
  let mac0 := replicate (Z.to_nat AUDIT_MAC_LEN) 0 in
  mk_audit (replicate (Z.to_nat AUDIT_LOG_SIZE) event_zero) 0 0 (replicate (Z.to_nat AUDIT_LOG_SIZE) mac0)
    (replicate (Z.to_nat AUDIT_LOG_SIZE) 0) mac0 mac0 mac0 mac0 0 false.

Definition audit_serialize (e : audit_event) : list Z :=
  mjoin (to_le_bytes 8 <$> [e.(ae_type); e.(ae_kind); e.(ae_uid); e.(ae_subject_uid); u32 e.(ae_subject_task);
                            e.(ae_object); u32 e.(ae_result); e.(ae_timestamp); e.(ae_arg0); e.(ae_arg1)])
  ++ e.(ae_path) ++ e.(ae_message).

Definition audit_chain_start (st : audit_state) (pepper : list Z) : audit_state :=
  let '(key, head) := rust_audit_fs_genesis pepper in
  let pub := rust_audit_pub_init in
  mk_audit st.(audit_log_buffer) st.(audit_head) st.(audit_count) st.(audit_mac) st.(audit_entry_seq)
    head key pub pub 0 true.

(** The slot of the [i]-th oldest retained entry. *)
Definition audit_start (st : audit_state) : Z :=
  u32 (u32 (st.(audit_head) + AUDIT_LOG_SIZE) - st.(audit_count)) mod AUDIT_LOG_SIZE.
Definition audit_slot (st : audit_state) (i : Z) : Z := u32 (audit_start st + i) mod AUDIT_LOG_SIZE.
(** 0 when the window folds to the head, -1 before the chain is started. *)
Definition audit_verify (st : audit_state) : Z :=
  if negb st.(audit_chain_ready) then -1 else
  let acc := foldl (fun acc i => rust_audit_pub_extend acc (zget 0 st.(audit_entry_seq) (audit_slot st i))
                                   (zget [] st.(audit_mac) (audit_slot st i)))
               st.(audit_pub_start) (seqZ 0 st.(audit_count)) in
  if rust_audit_mac_eq acc st.(audit_pub_head) then 0 else if st.(audit_count) =? 0 then 1 else st.(audit_count).

(** A call of audit_log: the tick, the caller's uid and task, and the arguments. *)
Record audit_call := mk_acall {
  ac_now : Z; ac_uid : Z; ac_task : Z; ac_type : Z; ac_object : Z; ac_result : Z; ac_msg : option (list Z)
}.
(** The event the call leaves in slot [e], whose unused fields stay. *)
Definition audit_fill (e : audit_event) (c : audit_call) : audit_event :=
  let m := match c.(ac_msg) with Some m => c_string 127 m | None => [] end in
  mk_event c.(ac_type) e.(ae_kind) e.(ae_uid) c.(ac_uid) c.(ac_task) c.(ac_object) c.(ac_result) c.(ac_now)
    e.(ae_arg0) e.(ae_arg1) e.(ae_path) (m ++ [0] ++ drop (S (length m)) e.(ae_message)).
Definition audit_log (st : audit_state) (c : audit_call) : audit_state :=
  let h := st.(audit_head) in
  let e := audit_fill (zget event_zero st.(audit_log_buffer) h) c in
  let buffer := zset st.(audit_log_buffer) h e in
  let head := u32 (h + 1) mod AUDIT_LOG_SIZE in
  let count := if st.(audit_count) <? AUDIT_LOG_SIZE then u32 (st.(audit_count) + 1) else st.(audit_count) in
  if st.(audit_chain_ready) then
    let pub_start := if st.(audit_count) =? AUDIT_LOG_SIZE
      then rust_audit_pub_extend st.(audit_pub_start) (zget 0 st.(audit_entry_seq) h) (zget [] st.(audit_mac) h)
      else st.(audit_pub_start) in
    let '(key, chain, mac) := rust_audit_fs_record st.(audit_fs_key) st.(audit_seq) (audit_serialize e) st.(audit_chain_head) in
    mk_audit buffer head count (zset st.(audit_mac) h mac) (zset st.(audit_entry_seq) h st.(audit_seq)) chain key
      (rust_audit_pub_extend st.(audit_pub_head) st.(audit_seq) mac) pub_start (u64 (st.(audit_seq) + 1)) true
  else
    mk_audit buffer head count st.(audit_mac) st.(audit_entry_seq) st.(audit_chain_head) st.(audit_fs_key)
      st.(audit_pub_head) st.(audit_pub_start) st.(audit_seq) false.

(** ** Reading the log *)
Record audit_record := mk_record {
  ar_timestamp : Z; ar_object : Z; ar_type : Z; ar_result : Z; ar_subject_uid : Z; ar_subject_task : Z; ar_message : list Z
}.
Definition audit_export (e : audit_event) : audit_record :=
  let m := c_string 127 e.(ae_message) in
  mk_record e.(ae_timestamp) e.(ae_object) e.(ae_type) e.(ae_result) e.(ae_subject_uid) e.(ae_subject_task)
    (m ++ replicate (Z.to_nat AUDIT_MESSAGE_MAX - length m) 0).
(** The records copied, each to the next free place of the caller's array; the
    [i]-th attempt succeeds if [copied i]. *)
Definition h_read_audit (st : audit_state) (rcx : Z) (copied : Z -> bool) : list audit_record :=
  let max := if AUDIT_LOG_SIZE <? u32 rcx then AUDIT_LOG_SIZE else u32 rcx in
  foldl (fun out i => if (zlen out <? max) && copied i
                      then out ++ [audit_export (zget event_zero st.(audit_log_buffer) (audit_slot st i))] else out)
    [] (seqZ 0 st.(audit_count)).
(** rax and the digest copied out. *)
Definition h_audit_digest (st : audit_state) (copied : bool) : Z * option (list Z) :=
  if negb copied then (u32 SYS_ERR_FAULT, None)
  else (u64 (audit_verify st), Some (to_le_bytes 8 st.(audit_seq) ++ st.(audit_chain_head))).

(** ** The history

    The log as a list: every event as it was recorded, oldest first, with its
    MAC. *)
Record entry := mk_entry { en_event : audit_event; en_seq : Z; en_mac : list Z }.
Definition last_entry (st st' : audit_state) : entry :=
  let h := st.(audit_head) in
  mk_entry (zget event_zero st'.(audit_log_buffer) h) (zget 0 st'.(audit_entry_seq) h) (zget [] st'.(audit_mac) h).
Fixpoint audit_run (st : audit_state) (calls : list audit_call) : audit_state * list entry :=
  match calls with
  | [] => (st, [])
  | c :: calls =>
      let st' := audit_log st c in
      let '(st2, es) := audit_run st' calls in (st2, last_entry st st' :: es)
  end.
Definition audit_boot (pepper : list Z) : audit_state := audit_chain_start audit_zero pepper.
(** The record a reader should get of a call. *)
Definition record_of (c : audit_call) : audit_record :=
  let m := match c.(ac_msg) with Some m => c_string 127 m | None => [] end in
  mk_record c.(ac_now) c.(ac_object) c.(ac_type) c.(ac_result) c.(ac_uid) c.(ac_task)
    (m ++ replicate (Z.to_nat AUDIT_MESSAGE_MAX - length m) 0).
(** The last [n] elements. *)
Definition last_n {A} (n : nat) (l : list A) : list A := drop (length l - n) l.
(** The entry of the ring in slot [i]. *)
Definition ring_entry (st : audit_state) (i : Z) : entry :=
  mk_entry (zget event_zero st.(audit_log_buffer) i) (zget 0 st.(audit_entry_seq) i) (zget [] st.(audit_mac) i).
Definition retained (st : audit_state) : list entry := (fun i => ring_entry st (audit_slot st i)) <$> seqZ 0 st.(audit_count).
Definition pub_fold (acc : list Z) (es : list entry) : list Z :=
  foldl (fun acc e => rust_audit_pub_extend acc e.(en_seq) e.(en_mac)) acc es.

(** The key and the head after the entries, and the MACs the entries must have. *)
Fixpoint fs_chain (key head : list Z) (es : list entry) : list Z * list Z :=
  match es with
  | [] => (key, head)
  | e :: es => fs_chain (ratchet key) (head_extend key head e.(en_mac)) es
  end.
Fixpoint macs_ok (key : list Z) (seq : Z) (es : list entry) : Prop :=
  match es with
  | [] => True
  | e :: es => e.(en_seq) = seq /\ e.(en_mac) = entry_mac key seq (audit_serialize e.(en_event))
               /\ macs_ok (ratchet key) (u64 (seq + 1)) es
  end.

(** What the keyed hashes hash. *)
Lemma entry_mac_eq key seq event : entry_mac key seq event = hmac_spec key (to_le_bytes 8 seq ++ event).
Proof. pose proof (hmac_finalize_spec key [to_le_bytes 8 seq; event]) as E. cbn [mjoin list_join] in E. by rewrite app_nil_r in E. Qed.
Lemma head_init_eq key : head_init key = hmac_spec key AUDIT_CHAIN_DOMAIN.
Proof. pose proof (hmac_finalize_spec key [AUDIT_CHAIN_DOMAIN]) as E. cbn [mjoin list_join] in E. by rewrite app_nil_r in E. Qed.
Lemma head_extend_eq key prev mac : head_extend key prev mac = hmac_spec key (prev ++ mac).
Proof. pose proof (hmac_finalize_spec key [prev; mac]) as E. cbn [mjoin list_join] in E. by rewrite app_nil_r in E. Qed.
Lemma ratchet_eq key : ratchet key = sha256_spec (AUDIT_FS_RATCHET_DOMAIN ++ key).
Proof. exact (finalize_ok _ _ (update_ok _ _ key (update_ok _ _ _ new_ok))). Qed.
Lemma fs_genesis_key_eq pepper : fs_genesis_key pepper = sha256_spec (AUDIT_FS_KEY_DOMAIN ++ pepper).
Proof. exact (finalize_ok _ _ (update_ok _ _ pepper (update_ok _ _ _ new_ok))). Qed.
Lemma pub_extend_eq prev seq mac : rust_audit_pub_extend prev seq mac = sha256_spec ((prev ++ to_le_bytes 8 seq) ++ mac).
Proof. exact (finalize_ok _ _ (update_ok _ _ mac (update_ok _ _ _ (update_ok _ _ prev new_ok)))). Qed.
Lemma pub_init_eq : rust_audit_pub_init = sha256_spec AUDIT_PUB_DOMAIN.
Proof. apply sha256_is_spec. Qed.
Lemma mac_eq_iff a b : length a = 32%nat -> length b = 32%nat -> rust_audit_mac_eq a b = true <-> a = b.
Proof. intros Ha Hb. unfold rust_audit_mac_eq. rewrite Z.eqb_eq. by apply (ct_equal_iff 32). Qed.

(** ** The invariant *)
#[local] Opaque entry_mac head_init head_extend ratchet fs_genesis_key rust_audit_pub_init rust_audit_pub_extend.
Record audit_inv (pepper : list Z) (st : audit_state) (hist : list entry) : Prop := {
  ai_sizes : zlen st.(audit_log_buffer) = 256 /\ zlen st.(audit_mac) = 256 /\ zlen st.(audit_entry_seq) = 256;
  ai_head : st.(audit_head) = zlen hist mod 256;
  ai_count : st.(audit_count) = Z.min 256 (zlen hist);
  ai_ring : forall j e, zlen hist - 256 <= Z.of_nat j -> hist !! j = Some e -> ring_entry st (Z.of_nat j mod 256) = e;
  ai_ready : st.(audit_chain_ready) = true;
  ai_seq : st.(audit_seq) = u64 (zlen hist);
  ai_pub : st.(audit_pub_head) = pub_fold rust_audit_pub_init hist;
  ai_start : st.(audit_pub_start) = pub_fold rust_audit_pub_init (take (length hist - 256) hist);
  ai_chain : (st.(audit_fs_key), st.(audit_chain_head))
             = fs_chain (fs_genesis_key pepper) (head_init (fs_genesis_key pepper)) hist;
  ai_macs : macs_ok (fs_genesis_key pepper) 0 hist
}.

Lemma fs_chain_app key head a b :
  fs_chain key head (a ++ b) = fs_chain (fs_chain key head a).1 (fs_chain key head a).2 b.
Proof. revert key head. induction a as [|e a IH]; intros key head; [done|]. apply IH. Qed.
Lemma fs_chain_key key h h' a : (fs_chain key h a).1 = (fs_chain key h' a).1.
Proof. revert key h h'. induction a as [|x a IH]; intros key h h'; [done|]. apply IH. Qed.
Lemma u64_succ n : u64 (u64 n + 1) = u64 (n + 1).
Proof. rewrite !u64_mod. by rewrite Zplus_mod_idemp_l. Qed.
Lemma macs_ok_snoc key seq a e :
  macs_ok key (u64 seq) a -> e.(en_seq) = u64 (seq + zlen a) ->
  e.(en_mac) = entry_mac (fs_chain key [] a).1 (u64 (seq + zlen a)) (audit_serialize e.(en_event)) ->
  macs_ok key (u64 seq) (a ++ [e]).
Proof.
  revert key seq. induction a as [|x a IH]; intros key seq Hm Hs He.
  { unfold zlen in *. cbn [length Z.of_nat] in *. rewrite Z.add_0_r in *. done. }
  destruct Hm as (H1 & H2 & H3). cbn [app macs_ok]. split; [done|]. split; [done|]. rewrite u64_succ in *.
  assert (seq + zlen (x :: a) = seq + 1 + zlen a) as Hz by (unfold zlen; cbn [length]; lia). rewrite Hz in *.
  apply IH; [done|done|]. rewrite He. cbn [fs_chain]. by rewrite (fs_chain_key (ratchet key) [] (head_extend key [] x.(en_mac))).
Qed.
Lemma pub_fold_app acc a b : pub_fold acc (a ++ b) = pub_fold (pub_fold acc a) b.
Proof. apply foldl_app. Qed.

Lemma boot_inv pepper : audit_inv pepper (audit_boot pepper) [].
Proof. split; done. Qed.

Section step.
Context (pepper : list Z) (st : audit_state) (hist : list entry) (c : audit_call) (HI : audit_inv pepper st hist).
Let st' := audit_log st c.
Let e := last_entry st st'.
Let n := zlen hist.

Lemma log_slot : 0 <= st.(audit_head) < 256.
Proof using HI. rewrite (ai_head _ _ _ HI). apply Z.mod_pos_bound. lia. Qed.
Lemma log_entry :
  e = mk_entry (audit_fill (zget event_zero st.(audit_log_buffer) st.(audit_head)) c) (u64 n)
        (entry_mac st.(audit_fs_key) (u64 n) (audit_serialize (audit_fill (zget event_zero st.(audit_log_buffer) st.(audit_head)) c))).
Proof using HI.
  pose proof log_slot. destruct (ai_sizes _ _ _ HI) as (S1 & S2 & S3). unfold e, last_entry, st', audit_log. cbv zeta.
  rewrite (ai_ready _ _ _ HI). cbn [rust_audit_fs_record audit_log_buffer audit_mac audit_entry_seq].
  rewrite !zget_zset_eq by lia. by rewrite (ai_seq _ _ _ HI).
Qed.
(** The slot written is the new entry's; the others keep theirs. *)
Lemma log_ring i : 0 <= i < 256 -> ring_entry st' i = if decide (i = st.(audit_head)) then e else ring_entry st i.
Proof using HI.
  intros Hi. case_decide as E; [by subst i|]. unfold ring_entry, st', audit_log. cbv zeta.
  rewrite (ai_ready _ _ _ HI). cbn [rust_audit_fs_record audit_log_buffer audit_mac audit_entry_seq].
  by rewrite !zget_zset_ne by done.
Qed.
Lemma log_inv : audit_inv pepper st' (hist ++ [e]).
Proof using HI.
  pose proof log_slot as Hs. pose proof log_entry as He. pose proof log_ring as Hr.
  assert (zlen (hist ++ [e]) = n + 1) as Hn by (unfold n, zlen; rewrite length_app; cbn [length]; lia).
  assert (0 <= n) as Hn0 by (unfold n, zlen; lia). destruct HI as [S1 S2 S3 S4 S5 S6 S7 S8 S9 S10]. fold n in S2, S3, S4, S6.
  assert (n = Z.of_nat (length hist)) as Hnl by done. clearbody n.
  assert (forall j x, zlen (hist ++ [e]) - 256 <= Z.of_nat j -> (hist ++ [e]) !! j = Some x -> ring_entry st' (Z.of_nat j mod 256) = x) as R4.
  { intros j x Hj Hx. rewrite Hn in Hj. rewrite Hr by (apply Z.mod_pos_bound; lia). rewrite S2.
    apply lookup_app_Some in Hx as [Hx|[Hx1 Hx2]].
    - pose proof (lookup_lt_Some _ _ _ Hx). rewrite decide_False; [by apply S4; [lia|]|].
      intros E. Z.div_mod_to_equations. lia.
    - destruct (j - length hist)%nat as [|] eqn:Ej; [|done]. injection Hx2 as <-.
      assert (Z.of_nat j = n) as -> by lia. by rewrite decide_True. }
  split; [| | |exact R4|..]; try (unfold st', audit_log; cbv zeta; rewrite S5; cbn [rust_audit_fs_record audit_log_buffer audit_mac audit_entry_seq audit_head
    audit_count audit_chain_ready audit_seq audit_pub_head audit_pub_start audit_fs_key audit_chain_head]).
  - by rewrite !zlen_zset.
  - rewrite S2, Hn. unfold AUDIT_LOG_SIZE. rewrite u32_id by (pose proof (Z.mod_pos_bound n 256); unfold U32_MAX; lia).
    by rewrite Zplus_mod_idemp_l.
  - rewrite S3, Hn. unfold AUDIT_LOG_SIZE. destruct (Z.ltb_spec (Z.min 256 n) 256); [|lia].
    rewrite u32_id by (unfold U32_MAX; lia). lia.
  - done.
  - rewrite S6, Hn. apply u64_succ.
  - rewrite pub_fold_app, <- S7, He, S6. done.
  - rewrite S3. unfold AUDIT_LOG_SIZE. rewrite length_app. cbn [length]. destruct (Z.eqb_spec (Z.min 256 n) 256) as [E|E].
    + assert (exists x, hist !! (length hist - 256)%nat = Some x) as [x Hx] by (apply lookup_lt_is_Some; lia).
      assert (ring_entry st st.(audit_head) = x) as Hxe.
      { rewrite S2, <- (S4 (length hist - 256)%nat x ltac:(lia) Hx). apply (f_equal (ring_entry st)).
        rewrite Nat2Z.inj_sub by lia. Z.div_mod_to_equations. lia. }
      rewrite take_app_le by lia. replace (length hist + 1 - 256)%nat with (S (length hist - 256)) by lia.
      rewrite (take_S_r _ _ x Hx), pub_fold_app, <- S8, <- Hxe. done.
    + rewrite S8. f_equal. rewrite take_app_le by lia.
      by replace (length hist - 256)%nat with 0%nat by lia; replace (length hist + 1 - 256)%nat with 0%nat by lia.
  - rewrite fs_chain_app, <- S9. cbn [fst snd fs_chain]. by rewrite He, S6.
  - apply (macs_ok_snoc _ 0); [done|by rewrite He, Hnl|]. rewrite He. cbn [en_mac en_event]. rewrite Z.add_0_l, Hnl. f_equal.
    rewrite (fs_chain_key _ _ (head_init (fs_genesis_key pepper))), <- S9. done.
Qed.
End step.

(** ** The window *)
Lemma run_inv pepper st hist calls :
  audit_inv pepper st hist ->
  audit_inv pepper (audit_run st calls).1 (hist ++ (audit_run st calls).2).
Proof.
  revert st hist. induction calls as [|c calls IH]; intros st hist HI; cbn [audit_run].
  { by rewrite app_nil_r. }
  specialize (IH _ _ (log_inv _ _ _ c HI)). destruct (audit_run (audit_log st c) calls) as [st2 es].
  cbn [fst snd] in *. by rewrite <- app_assoc in IH.
Qed.
Lemma c_string_stop n l r : c_string n (c_string n l ++ 0 :: r) = c_string n l.
Proof.
  revert l. induction n as [|n IH]; intros [|x l]; try done. cbn [c_string].
  destruct (Z.eqb_spec x 0); [done|]. cbn [app]. cbn [c_string]. destruct (Z.eqb_spec x 0); [done|]. by rewrite IH.
Qed.
Lemma export_fill e c : audit_export (audit_fill e c) = record_of c.
Proof.
  unfold audit_export, record_of, audit_fill. cbv zeta. cbn [ae_message app].
  destruct (ac_msg c) as [m|]; [by rewrite c_string_stop|done].
Qed.
Lemma run_records pepper st hist calls :
  audit_inv pepper st hist -> (fun e => audit_export e.(en_event)) <$> (audit_run st calls).2 = record_of <$> calls.
Proof.
  revert st hist. induction calls as [|c calls IH]; intros st hist HI; cbn [audit_run]; [done|].
  specialize (IH _ _ (log_inv _ _ _ c HI)). pose proof (log_entry _ _ _ c HI) as He.
  destruct (audit_run (audit_log st c) calls) as [st2 es]. cbn [snd] in *. rewrite fmap_cons, IH, He.
  cbn [en_event]. by rewrite export_fill.
Qed.

Lemma retained_last pepper st hist : audit_inv pepper st hist -> retained st = last_n 256 hist.
Proof.
  intros HI. destruct HI as [S1 S2 S3 S4 S5 S6 S7 S8 S9 S10]. unfold zlen in *. apply list_eq. intros i.
  unfold retained, last_n. rewrite list_lookup_fmap, lookup_drop. rewrite S3 at 1.
  destruct (decide (Z.of_nat i < Z.min 256 (Z.of_nat (length hist)))) as [Hi|Hi].
  - rewrite lookup_seqZ_lt by lia. rewrite Z.add_0_l. cbn [fmap option_fmap option_map].
    destruct (lookup_lt_is_Some_2 hist (length hist - 256 + i)) as [x Hx]; [lia|]. rewrite Hx. f_equal.
    rewrite <- (S4 (length hist - 256 + i)%nat x ltac:(lia) Hx). apply (f_equal (ring_entry st)). unfold audit_slot, audit_start, AUDIT_LOG_SIZE.
    rewrite S2, S3. pose proof (Z.mod_pos_bound (Z.of_nat (length hist)) 256 ltac:(lia)).
    rewrite (u32_id (_ mod 256 + 256)), (u32_id (_ - _)), u32_id by (unfold U32_MAX; Z.div_mod_to_equations; lia).
    rewrite Nat2Z.inj_add, Nat2Z.inj_sub_max. Z.div_mod_to_equations. lia.
  - rewrite lookup_seqZ_ge by lia. rewrite lookup_ge_None_2; [done|lia].
Qed.
Lemma verify_fold st :
  foldl (fun acc i => rust_audit_pub_extend acc (zget 0 st.(audit_entry_seq) (audit_slot st i))
                        (zget [] st.(audit_mac) (audit_slot st i)))
    st.(audit_pub_start) (seqZ 0 st.(audit_count)) = pub_fold st.(audit_pub_start) (retained st).
Proof. unfold pub_fold, retained. by rewrite foldl_fmap. Qed.
Lemma length_pub_fold acc es : length acc = 32%nat -> length (pub_fold acc es) = 32%nat.
Proof.
  revert acc. induction es as [|e es IH]; intros acc Ha; [done|]. apply IH. rewrite pub_extend_eq. apply length_sha256_spec.
Qed.
Lemma length_pub_init : length rust_audit_pub_init = 32%nat.
Proof. rewrite pub_init_eq. apply length_sha256_spec. Qed.
Lemma verify_zero pepper st hist : audit_inv pepper st hist -> audit_verify st = 0.
Proof.
  intros HI. unfold audit_verify. rewrite (ai_ready _ _ _ HI), verify_fold, (retained_last _ _ _ HI). cbv zeta.
  rewrite (ai_start _ _ _ HI), (ai_pub _ _ _ HI), <- pub_fold_app. unfold last_n. rewrite take_drop. cbn [negb].
  by rewrite (proj2 (mac_eq_iff _ _ (length_pub_fold _ _ length_pub_init) (length_pub_fold _ _ length_pub_init)) eq_refl).
Qed.

(** Copying out appends until the caller's array is full. *)
Lemma read_fold {B} (f : Z -> B) (copied : Z -> bool) (n : nat) l out :
  (length out <= n)%nat ->
  foldl (fun out i => if (zlen out <? Z.of_nat n) && copied i then out ++ [f i] else out) out l
  = take n (out ++ (f <$> filter (fun i => copied i = true) l)).
Proof.
  revert out. induction l as [|i l IH]; intros out Ho; cbn [foldl].
  { by rewrite app_nil_r, take_ge. }
  rewrite filter_cons. destruct (copied i) eqn:Hc; cycle 1.
  { rewrite andb_false_r, IH by done. rewrite decide_False by congruence. done. }
  rewrite andb_true_r, decide_True by done. destruct (Z.ltb_spec (zlen out) (Z.of_nat n)) as [Hl|Hl]; unfold zlen in Hl.
  - rewrite IH by (rewrite length_app; cbn [length]; lia). by rewrite <- app_assoc.
  - rewrite IH, !take_app_le by lia. done.
Qed.
Lemma last_n_fmap {A B} (f : A -> B) n l : f <$> last_n n l = last_n n (f <$> l).
Proof. unfold last_n. by rewrite fmap_drop, length_fmap. Qed.

Lemma filter_all {A} (l : list A) : filter (fun _ => true = true) l = l.
Proof. induction l as [|x l IH]; [done|]. by rewrite filter_cons, decide_True, IH. Qed.

(** C26: the log is the last 256 calls.  After the chain is started and any
    calls of audit_log, the kernel's own check of the window passes, however
    often the ring has wrapped; reading the log gives the newest 256 calls,
    oldest first, each with the caller, the object, the result and the first
    127 characters of its message, cut to the room the caller has; a reader is
    never written more records than it has room for, even when copies fail; and
    the digest carries the number of calls ever made. *)
Theorem audit_log_keeps_last_calls pepper calls rcx :
  let st := (audit_run (audit_boot pepper) calls).1 in
  let room := Z.min 256 (u32 rcx) in
  audit_verify st = 0
  /\ h_read_audit st rcx (fun _ => true) = take (Z.to_nat room) (record_of <$> last_n 256 calls)
  /\ (forall copied, zlen (h_read_audit st rcx copied) <= room)
  /\ (h_audit_digest st true).2 = Some (to_le_bytes 8 (u64 (zlen calls)) ++ st.(audit_chain_head)).
Proof.
  cbv zeta. pose proof (run_inv _ _ _ calls (boot_inv pepper)) as HI. rewrite app_nil_l in HI.
  pose proof (run_records _ _ _ calls (boot_inv pepper)) as HR.
  destruct (audit_run (audit_boot pepper) calls) as [st hist]. cbn [fst snd] in *.
  assert (0 <= u32 rcx) as Hr by (rewrite u32_mod; apply Z.mod_pos_bound; lia).
  assert (forall copied, h_read_audit st rcx copied = take (Z.to_nat (Z.min 256 (u32 rcx)))
    ((fun i => audit_export (zget event_zero st.(audit_log_buffer) (audit_slot st i)))
      <$> filter (fun i => copied i = true) (seqZ 0 st.(audit_count)))) as HF.
  { intros copied. unfold h_read_audit, AUDIT_LOG_SIZE. cbv zeta.
    replace (if 256 <? u32 rcx then 256 else u32 rcx) with (Z.of_nat (Z.to_nat (Z.min 256 (u32 rcx))))
      by (destruct (Z.ltb_spec 256 (u32 rcx)); lia).
    rewrite (read_fold (fun i => audit_export (zget event_zero st.(audit_log_buffer) (audit_slot st i)))) by (cbn; lia).
    done. }
  split; [by eapply verify_zero|]. split; [|split].
  - rewrite HF, filter_all, last_n_fmap, <- HR, <- last_n_fmap, <- (retained_last _ _ _ HI). f_equal.
    unfold retained. rewrite <- list_fmap_compose. done.
  - intros copied. rewrite HF. unfold zlen. rewrite length_take. lia.
  - cbn [h_audit_digest negb snd]. rewrite (ai_seq _ _ _ HI). apply (f_equal length) in HR. rewrite !length_fmap in HR.
    unfold zlen. by rewrite HR.
Qed.

(** ** What the chain head commits to *)

(** Every message hashed under a key while the entries were recorded. *)
Fixpoint chain_inputs (key head : list Z) (es : list entry) : list (list Z) :=
  match es with
  | [] => []
  | e :: es => hmac_inputs key (head ++ e.(en_mac))
               ++ hmac_inputs key (to_le_bytes 8 e.(en_seq) ++ audit_serialize e.(en_event))
               ++ chain_inputs (ratchet key) (head_extend key head e.(en_mac)) es
  end.
Definition history_inputs (pepper : list Z) (es : list entry) : list (list Z) :=
  let k0 := fs_genesis_key pepper in hmac_inputs k0 AUDIT_CHAIN_DOMAIN ++ chain_inputs k0 (head_init k0) es.

Lemma chain_inputs_app key head a b :
  chain_inputs key head (a ++ b) = chain_inputs key head a ++ chain_inputs (fs_chain key head a).1 (fs_chain key head a).2 b.
Proof.
  revert key head. induction a as [|e a IH]; intros key head; [done|]. cbn [app chain_inputs fs_chain].
  by rewrite IH, !app_assoc.
Qed.
Lemma macs_ok_last key head seq a e :
  macs_ok key seq (a ++ [e]) ->
  macs_ok key seq a /\ e.(en_mac) = entry_mac (fs_chain key head a).1 e.(en_seq) (audit_serialize e.(en_event)).
Proof.
  revert key head seq. induction a as [|x a IH]; intros key head seq; cbn [app macs_ok fs_chain].
  { intros (-> & H & _). done. }
  intros (H1 & H2 & H3). destruct (IH _ (head_extend key head x.(en_mac)) _ H3) as [H4 H5]. done.
Qed.
Lemma length_entry_mac key seq ev : length (entry_mac key seq ev) = 32%nat.
Proof. rewrite entry_mac_eq. apply length_hmac_spec. Qed.
Lemma length_head_init key : length (head_init key) = 32%nat.
Proof. rewrite head_init_eq. apply length_hmac_spec. Qed.
Lemma length_genesis pepper : length (fs_genesis_key pepper) = 32%nat.
Proof. rewrite fs_genesis_key_eq. apply length_sha256_spec. Qed.
Lemma length_chain key head es :
  length key = 32%nat -> length head = 32%nat ->
  length (fs_chain key head es).1 = 32%nat /\ length (fs_chain key head es).2 = 32%nat.
Proof.
  revert key head. induction es as [|e es IH]; intros key head Hk Hh; [done|].
  apply IH; [rewrite ratchet_eq; apply length_sha256_spec|rewrite head_extend_eq; apply length_hmac_spec].
Qed.

(** The head of a non-empty history is not the head of the empty one, short of
    a collision: what they hash has different lengths. *)
Lemma head_not_init k1 k2 prev mac :
  length k1 = 32%nat -> length k2 = 32%nat -> length prev = 32%nat ->
  head_init k1 = head_extend k2 prev mac -> collides (hmac_inputs k1 AUDIT_CHAIN_DOMAIN) (hmac_inputs k2 (prev ++ mac)).
Proof.
  intros H1 H2 H3 E. rewrite head_init_eq, head_extend_eq in E.
  destruct (hmac_binds _ _ _ _ (eq_trans H1 (eq_sym H2)) ltac:(lia) E) as [[_ Em]|C]; [|done].
  apply (f_equal length) in Em. rewrite length_app, H3 in Em. vm_compute in Em. lia.
Qed.
(** One step back: equal heads extend equal heads by equal entries. *)
Lemma head_step k1 k2 p1 p2 e1 e2 :
  length k1 = 32%nat -> length k2 = 32%nat -> length p1 = 32%nat -> length p2 = 32%nat ->
  e1.(en_mac) = entry_mac k1 e1.(en_seq) (audit_serialize e1.(en_event)) ->
  e2.(en_mac) = entry_mac k2 e2.(en_seq) (audit_serialize e2.(en_event)) ->
  head_extend k1 p1 e1.(en_mac) = head_extend k2 p2 e2.(en_mac) ->
  (p1 = p2 /\ audit_serialize e1.(en_event) = audit_serialize e2.(en_event))
  \/ collides (chain_inputs k1 p1 [e1]) (chain_inputs k2 p2 [e2]).
Proof.
  intros H1 H2 H3 H4 M1 M2 E. rewrite !head_extend_eq in E. cbn [chain_inputs]. rewrite !app_nil_r.
  destruct (hmac_binds _ _ _ _ (eq_trans H1 (eq_sym H2)) ltac:(lia) E) as [[Ek Em]|C];
    [|right; revert C; apply collides_mono; set_solver].
  apply app_inj_1 in Em as [Ep Em]; [|lia]. rewrite M1, M2, !entry_mac_eq in Em.
  destruct (hmac_binds _ _ _ _ (eq_trans H1 (eq_sym H2)) ltac:(lia) Em) as [[_ Es]|C];
    [|right; revert C; apply collides_mono; set_solver].
  apply app_inj_1 in Es as [_ Es]; [by left|by rewrite !length_le].
Qed.
Lemma heads_bind p1 p2 es1 es2 :
  let k1 := fs_genesis_key p1 in let k2 := fs_genesis_key p2 in
  macs_ok k1 0 es1 -> macs_ok k2 0 es2 ->
  (fs_chain k1 (head_init k1) es1).2 = (fs_chain k2 (head_init k2) es2).2 ->
  (fun e => audit_serialize e.(en_event)) <$> es1 = (fun e => audit_serialize e.(en_event)) <$> es2
  \/ collides (history_inputs p1 es1) (history_inputs p2 es2).
Proof.
  cbv zeta. unfold history_inputs. cbv zeta. set (k1 := fs_genesis_key p1). set (k2 := fs_genesis_key p2).
  assert (length k1 = 32%nat) as L1 by apply length_genesis. assert (length k2 = 32%nat) as L2 by apply length_genesis.
  clearbody k1 k2. pose proof (length_head_init k1) as L3. pose proof (length_head_init k2) as L4.
  revert es2. induction es1 as [|e1 es1 IH] using rev_ind; intros es2 M1 M2; destruct es2 as [|e2 es2 _] using rev_ind.
  - by left.
  - rewrite fs_chain_app, chain_inputs_app. cbn [fs_chain snd]. intros E. right.
    destruct (length_chain k2 (head_init k2) es2 L2 L4) as [N1 N2].
    eapply collides_mono, (head_not_init _ _ _ _ L1 N1 N2 E); set_solver.
  - rewrite fs_chain_app, chain_inputs_app. cbn [fs_chain snd]. intros E. right.
    destruct (length_chain k1 (head_init k1) es1 L1 L3) as [N1 N2].
    apply collides_sym. eapply collides_mono, (head_not_init _ _ _ _ L2 N1 N2 (eq_sym E)); set_solver.
  - rewrite !fs_chain_app, !chain_inputs_app. cbn [fs_chain snd]. intros E.
    destruct (length_chain k1 (head_init k1) es1 L1 L3) as [N1 N2].
    destruct (length_chain k2 (head_init k2) es2 L2 L4) as [N3 N4].
    destruct (macs_ok_last _ (head_init k1) _ _ _ M1) as [M3 M4]. destruct (macs_ok_last _ (head_init k2) _ _ _ M2) as [M5 M6].
    destruct (head_step _ _ _ _ _ _ N1 N3 N2 N4 M4 M6 E) as [[Eh Es]|C];
      [|right; revert C; apply collides_mono; do 2 apply list_subseteq_app_r; reflexivity].
    destruct (IH es2 M3 M5 Eh) as [El|C];
      [|right; revert C; apply collides_mono; rewrite app_assoc; apply list_subseteq_app_l; reflexivity].
    left. rewrite !fmap_app, El. cbn [fmap list_fmap]. by rewrite Es.
Qed.

(** What the C types bound: the words of an event and the sizes of its arrays. *)
Definition word32 (x : Z) : Prop := 0 <= x < 2 ^ 32.
Definition int32 (x : Z) : Prop := - 2 ^ 31 <= x < 2 ^ 31.
Definition word64 (x : Z) : Prop := 0 <= x < 2 ^ 64.
Definition call_ok (c : audit_call) : Prop :=
  word64 c.(ac_now) /\ word32 c.(ac_uid) /\ int32 c.(ac_task) /\ word32 c.(ac_type) /\ word32 c.(ac_object) /\ int32 c.(ac_result).
#[export] Instance word32_dec x : Decision (word32 x).
Proof. unfold word32. apply _. Defined.
#[export] Instance int32_dec x : Decision (int32 x).
Proof. unfold int32. apply _. Defined.
#[export] Instance word64_dec x : Decision (word64 x).
Proof. unfold word64. apply _. Defined.
#[export] Instance call_ok_dec c : Decision (call_ok c).
Proof. unfold call_ok. apply _. Defined.
Definition shape_ok (e : audit_event) : Prop := length e.(ae_path) = 64%nat /\ length e.(ae_message) = 128%nat.
Definition event_ok (e : audit_event) : Prop :=
  shape_ok e /\ word64 e.(ae_timestamp) /\ word32 e.(ae_subject_uid) /\ int32 e.(ae_subject_task) /\ word32 e.(ae_type)
  /\ word64 e.(ae_object) /\ int32 e.(ae_result).

Lemma length_c_string n l : (length (c_string n l) <= n)%nat.
Proof. revert l. induction n as [|n IH]; intros [|x l]; cbn; try lia. case_match; cbn; [lia|]. specialize (IH l). lia. Qed.
Lemma fill_ok e c : shape_ok e -> call_ok c -> event_ok (audit_fill e c).
Proof.
  intros [H1 H2] (C1 & C2 & C3 & C4 & C5 & C6). split; [split; [done|]|].
  2: { unfold word32, word64 in *. cbn [audit_fill ae_timestamp ae_subject_uid ae_subject_task ae_type ae_object ae_result]. split_and!; try done; lia. }
  unfold audit_fill. cbv zeta. cbn [ae_message]. set (m := match ac_msg c with Some m => _ | None => _ end).
  assert (length m <= 127)%nat by (unfold m; destruct (ac_msg c); [apply length_c_string|cbn; lia]).
  rewrite !length_app, length_drop, H2. cbn [length]. lia.
Qed.
Lemma run_events_ok pepper st hist calls :
  audit_inv pepper st hist -> Forall shape_ok st.(audit_log_buffer) -> Forall call_ok calls ->
  Forall (fun e => event_ok e.(en_event)) (audit_run st calls).2.
Proof.
  revert st hist. induction calls as [|c calls IH]; intros st hist HI HS HC; cbn [audit_run]; [constructor|].
  apply Forall_cons in HC as [Hc HC]. pose proof (log_slot _ _ _ HI) as Hh. destruct (ai_sizes _ _ _ HI) as [Hb _].
  assert (event_ok (audit_fill (zget event_zero st.(audit_log_buffer) st.(audit_head)) c)) as He.
  { apply fill_ok; [|done]. rewrite Forall_forall in HS. apply HS, zget_elem. lia. }
  specialize (IH _ _ (log_inv _ _ _ c HI)). pose proof (log_entry _ _ _ c HI) as Hl.
  assert (audit_log_buffer (audit_log st c)
          = zset st.(audit_log_buffer) st.(audit_head) (audit_fill (zget event_zero st.(audit_log_buffer) st.(audit_head)) c)) as Hz
    by (unfold audit_log; cbv zeta; by destruct (audit_chain_ready st)).
  destruct (audit_run (audit_log st c) calls) as [st2 es]. cbn [snd] in *. constructor; [by rewrite Hl|].
  apply IH; [|done]. rewrite Hz. unfold zset. case_match; [done|]. apply Forall_insert; [done|]. by destruct He.
Qed.

Lemma u32_int32_inj x y : int32 x -> int32 y -> u32 x = u32 y -> x = y.
Proof. unfold int32. rewrite !u32_mod. intros. Z.div_mod_to_equations. lia. Qed.
(** The serialization determines everything a reader is shown. *)
Lemma serialize_binds e1 e2 :
  event_ok e1 -> event_ok e2 -> audit_serialize e1 = audit_serialize e2 -> audit_export e1 = audit_export e2.
Proof.
  intros ((P1 & Q1) & A1 & A2 & A3 & A4 & A5 & A6) ((P2 & Q2) & B1 & B2 & B3 & B4 & B5 & B6) E.
  unfold audit_serialize in E. cbn [fmap list_fmap mjoin list_join] in E. rewrite <- !app_assoc, !app_nil_l in E.
  assert (forall x y a b, to_le_bytes 8 x ++ a = to_le_bytes 8 y ++ b -> to_le_bytes 8 x = to_le_bytes 8 y /\ a = b) as HA
    by (intros x y a b H; apply app_inj_1 in H; [done|by rewrite !length_le]).
  apply HA in E as [E1 E]. apply HA in E as [_ E]. apply HA in E as [_ E]. apply HA in E as [E2 E]. apply HA in E as [E3 E].
  apply HA in E as [E4 E]. apply HA in E as [E5 E]. apply HA in E as [E6 E]. apply HA in E as [_ E]. apply HA in E as [_ E].
  apply app_inj_1 in E as [_ Em]; [|by rewrite P1]. unfold audit_export. cbv zeta.
  assert (forall x y, word64 x -> word64 y -> to_le_bytes 8 x = to_le_bytes 8 y -> x = y) as HB by (intros; by apply (to_le_bytes_inj 8)).
  assert (forall x, word32 x -> word64 x) as HW by (unfold word32, word64; lia).
  assert (forall x, word64 (u32 x)) as HU by (intros x; rewrite u32_mod; unfold word64; pose proof (Z.mod_pos_bound x (2 ^ 32)); lia).
  rewrite Em, (HB _ _ A1 B1 E6), (HB _ _ (HW _ A4) (HW _ B4) E1), (HB _ _ (HW _ A2) (HW _ B2) E2), (HB _ _ A5 B5 E4).
  by rewrite (u32_int32_inj _ _ A3 B3 (HB _ _ (HU _) (HU _) E3)), (u32_int32_inj _ _ A6 B6 (HB _ _ (HU _) (HU _) E5)).
Qed.

Lemma fmap_determines {A B C} (P : A -> Prop) (f : A -> B) (g : A -> C) l1 l2 :
  (forall x y, P x -> P y -> f x = f y -> g x = g y) -> Forall P l1 -> Forall P l2 -> f <$> l1 = f <$> l2 -> g <$> l1 = g <$> l2.
Proof.
  intros HP F1. revert l2. induction F1 as [|x l1 Hx F1 IH]; intros [|y l2] F2 E; try done.
  apply Forall_cons in F2 as [Hy F2]. rewrite !fmap_cons in *. injection E as Eh Et. by rewrite (HP x y), (IH l2).
Qed.

(** C10: the chain head commits to the whole history.  If two runs of the audit
    log, of any lengths, under any peppers and long after their first entries
    left the ring, end with the same head, then they recorded the same calls in
    the same order, or two of the messages hashed in the two runs are different
    and have the same SHA-256 digest. *)
Theorem audit_head_commits pepper1 pepper2 calls1 calls2 :
  let r1 := audit_run (audit_boot pepper1) calls1 in
  let r2 := audit_run (audit_boot pepper2) calls2 in
  Forall call_ok calls1 -> Forall call_ok calls2 ->
  r1.1.(audit_chain_head) = r2.1.(audit_chain_head) ->
  record_of <$> calls1 = record_of <$> calls2
  \/ collides (history_inputs pepper1 r1.2) (history_inputs pepper2 r2.2).
Proof.
  cbv zeta. intros H1 H2 E.
  assert (forall p, Forall shape_ok (audit_boot p).(audit_log_buffer)) as HS by (intros p; by apply Forall_replicate).
  pose proof (run_inv _ _ _ calls1 (boot_inv pepper1)) as I1. pose proof (run_inv _ _ _ calls2 (boot_inv pepper2)) as I2.
  pose proof (run_events_ok _ _ _ _ (boot_inv pepper1) (HS _) H1) as O1.
  pose proof (run_events_ok _ _ _ _ (boot_inv pepper2) (HS _) H2) as O2.
  rewrite <- (run_records _ _ _ calls1 (boot_inv pepper1)), <- (run_records _ _ _ calls2 (boot_inv pepper2)).
  rewrite app_nil_l in I1, I2. rewrite (f_equal snd (ai_chain _ _ _ I1) : audit_chain_head _ = _) in E.
  rewrite (f_equal snd (ai_chain _ _ _ I2) : audit_chain_head _ = _) in E.
  destruct (heads_bind _ _ _ _ (ai_macs _ _ _ I1) (ai_macs _ _ _ I2) E) as [Es|C]; [left|by right].
  revert O1 O2 Es. apply (fmap_determines (fun e => event_ok e.(en_event))). intros e1 e2. apply serialize_binds.
Qed.
(** Two runs whose second messages differ after their terminator. *)
Definition noted (tail : list Z) : list audit_call :=
  [mk_acall 5 1000 3 1 7 0 None; mk_acall 9 1000 3 2 8 (-1) (Some ([110; 111; 0] ++ tail))].
Lemma audit_head_commits_witness :
  record_of <$> noted [1] = record_of <$> noted [2]
  \/ collides (history_inputs [1; 2] (audit_run (audit_boot [1; 2]) (noted [1])).2)
              (history_inputs [1; 2] (audit_run (audit_boot [1; 2]) (noted [2])).2).
Proof.
  apply (audit_head_commits [1; 2] [1; 2] (noted [1]) (noted [2]));
    [by_vm..|vm_compute; reflexivity].
Defined.

(** ** What the window's own check detects *)

(** The ring with its stored sequence numbers and MACs overwritten. *)
Definition with_window (st : audit_state) (seqs : list Z) (macs : list (list Z)) : audit_state :=
  mk_audit st.(audit_log_buffer) st.(audit_head) st.(audit_count) macs seqs st.(audit_chain_head) st.(audit_fs_key)
    st.(audit_pub_head) st.(audit_pub_start) st.(audit_seq) st.(audit_chain_ready).
Fixpoint pub_inputs (acc : list Z) (es : list entry) : list (list Z) :=
  match es with
  | [] => []
  | e :: es => ((acc ++ to_le_bytes 8 e.(en_seq)) ++ e.(en_mac)) :: pub_inputs (rust_audit_pub_extend acc e.(en_seq) e.(en_mac)) es
  end.
Definition stored (e : entry) : Z * list Z := (e.(en_seq), e.(en_mac)).
Definition stored_ok (e : entry) : Prop := word64 e.(en_seq) /\ length e.(en_mac) = 32%nat.

Lemma macs_ok_stored key seq es : word64 seq -> macs_ok key seq es -> Forall stored_ok es.
Proof.
  revert key seq. induction es as [|e es IH]; intros key seq Hs; [constructor|]. intros (H1 & H2 & H3).
  constructor; [split; [by rewrite H1|rewrite H2; apply length_entry_mac]|]. eapply IH, H3.
  rewrite u64_mod. unfold word64. apply Z.mod_pos_bound. lia.
Qed.
Lemma pub_folds_bind a1 a2 es1 es2 :
  length a1 = 32%nat -> length a2 = 32%nat -> length es1 = length es2 -> Forall stored_ok es1 -> Forall stored_ok es2 ->
  pub_fold a1 es1 = pub_fold a2 es2 ->
  (a1 = a2 /\ stored <$> es1 = stored <$> es2) \/ collides (pub_inputs a1 es1) (pub_inputs a2 es2).
Proof.
  intros L1 L2 Hl F1. revert a1 a2 es2 L1 L2 Hl. induction F1 as [|e1 es1 [W1 M1] F1 IH]; intros a1 a2 [|e2 es2] L1 L2 Hl F2 E; try done.
  { by left. }
  apply Forall_cons in F2 as [[W2 M2] F2]. injection Hl as Hl. cbn [pub_inputs].
  destruct (IH (rust_audit_pub_extend a1 e1.(en_seq) e1.(en_mac)) (rust_audit_pub_extend a2 e2.(en_seq) e2.(en_mac)) es2)
    as [[Ea Es]|C]; try done.
  1, 2: rewrite pub_extend_eq; apply length_sha256_spec.
  2: { right. revert C. apply collides_mono; apply list_subseteq_cons; reflexivity. }
  rewrite !pub_extend_eq in Ea. destruct (digest_binds _ _ Ea) as [Em|C]; cycle 1.
  { right. revert C. apply collides_mono; intros x Hx; apply list_elem_of_singleton in Hx as ->; constructor. }
  left. apply app_inj_1 in Em as [Em Em']; [|rewrite !length_app, !length_le; lia].
  apply app_inj_1 in Em as [-> Eq]; [|lia]. split; [done|].
  rewrite !fmap_cons, Es. f_equal. unfold stored. by rewrite Em', (to_le_bytes_inj 8 _ _ W1 W2 Eq).
Qed.
Lemma verify_folds st :
  st.(audit_chain_ready) = true -> length st.(audit_pub_start) = 32%nat -> length st.(audit_pub_head) = 32%nat ->
  audit_verify st = 0 -> pub_fold st.(audit_pub_start) (retained st) = st.(audit_pub_head).
Proof.
  intros Hr Hs Hh. unfold audit_verify. rewrite Hr, verify_fold. cbv zeta. cbn [negb].
  destruct (rust_audit_mac_eq _ _) eqn:Hq; [|destruct (Z.eqb_spec (audit_count st) 0); lia].
  intros _. apply mac_eq_iff in Hq; [done|by apply length_pub_fold|done].
Qed.
Lemma retained_window_ok st seqs macs :
  zlen seqs = 256 -> zlen macs = 256 -> Forall word64 seqs -> Forall (fun m => length m = 32%nat) macs ->
  Forall stored_ok (retained (with_window st seqs macs)).
Proof.
  intros Hs Hm Fs Fm. apply Forall_fmap, Forall_forall. intros i _. rewrite Forall_forall in Fs. rewrite Forall_forall in Fm.
  assert (0 <= audit_slot (with_window st seqs macs) i < 256) by (apply Z.mod_pos_bound; done).
  split; [apply Fs|apply Fm]; apply zget_elem; cbn [with_window audit_entry_seq audit_mac]; lia.
Qed.

(** C34: a changed window is noticed.  After any calls, let the sequence numbers
    and MACs the ring holds be replaced by any others.  If the kernel's check of
    the window still passes, then every retained entry has the number and the
    MAC it was recorded with, or the two windows give two different messages
    with the same SHA-256 digest. *)
Theorem window_check_detects pepper calls seqs macs :
  let st := (audit_run (audit_boot pepper) calls).1 in
  let st' := with_window st seqs macs in
  zlen seqs = 256 -> zlen macs = 256 -> Forall word64 seqs -> Forall (fun m => length m = 32%nat) macs ->
  audit_verify st' = 0 ->
  stored <$> retained st' = stored <$> retained st
  \/ collides (pub_inputs st.(audit_pub_start) (retained st')) (pub_inputs st.(audit_pub_start) (retained st)).
Proof.
  cbv zeta. intros Hs Hm Fs Fm HV. pose proof (run_inv _ _ _ calls (boot_inv pepper)) as HI. rewrite app_nil_l in HI.
  destruct (audit_run (audit_boot pepper) calls) as [st hist]. cbn [fst snd] in *.
  pose proof (retained_window_ok st seqs macs Hs Hm Fs Fm) as HW.
  assert (length (audit_pub_start st) = 32%nat) as HL by (rewrite (ai_start _ _ _ HI); apply length_pub_fold, length_pub_init).
  assert (length (audit_pub_head st) = 32%nat) as HP by (rewrite (ai_pub _ _ _ HI); apply length_pub_fold, length_pub_init).
  assert (pub_fold st.(audit_pub_start) (retained (with_window st seqs macs)) = pub_fold st.(audit_pub_start) (retained st)) as HE.
  { rewrite (verify_folds st (ai_ready _ _ _ HI) HL HP (verify_zero _ _ _ HI)).
    exact (verify_folds (with_window st seqs macs) (ai_ready _ _ _ HI) HL HP HV). }
  assert (Forall stored_ok (retained st)) as HR.
  { rewrite (retained_last _ _ _ HI). unfold last_n. apply Forall_drop. by eapply macs_ok_stored, (ai_macs _ _ _ HI). }
  assert (length (retained (with_window st seqs macs)) = length (retained st)) as HN by (unfold retained; by rewrite !length_fmap).
  destruct (pub_folds_bind _ _ _ _ HL HL HN HW HR HE) as [[_ ?]|?]; [by left|by right].
Qed.
(** A stray write outside the retained slots. *)
Definition noted_log : audit_state := (audit_run (audit_boot [1; 2]) (noted [])).1.
Definition noted_seqs : list Z := zset noted_log.(audit_entry_seq) 2 77.
Lemma window_check_detects_witness :
  stored <$> retained (with_window noted_log noted_seqs noted_log.(audit_mac)) = stored <$> retained noted_log
  \/ collides (pub_inputs noted_log.(audit_pub_start) (retained (with_window noted_log noted_seqs noted_log.(audit_mac))))
       (pub_inputs noted_log.(audit_pub_start) (retained noted_log)).
Proof.
  refine (window_check_detects [1; 2] (noted []) noted_seqs noted_log.(audit_mac) _ _ _ _ _);
    [vm_compute; reflexivity|vm_compute; reflexivity|by_vm|by_vm|vm_compute; reflexivity].
Defined.
(** A stray write inside them. *)
Lemma changed_window_fails : audit_verify (with_window noted_log (zset noted_log.(audit_entry_seq) 1 77) noted_log.(audit_mac)) = 2.
Proof. vm_compute. reflexivity. Qed.
