(* ===== verification/CapCore.v ===== *)
(** The capability algebra of rust/src/capability.rs: lookup, serial
    allocation, the five derivations (mint, transfer, grant, token mint, reply
    mint), the pipe-end tally, the mark-and-sweep revocation and the
    re-parenting of a dying cspace's children.  The C side reaches every slot
    through these functions.

    A derivation that returns [false] has written nothing, so it is [None]; one
    that returns [true] is [Some] of the memory and the serial counter after
    it. *)
From S2P Require Import Prelude KTypes.

(** ** Constants of the Rust side *)
Definition TOKEN_STRIPPED_RIGHTS : Z := CAP_RIGHT_READ.
Definition MIN_DERIVED_SERIAL : Z := 0x100000000.
Definition PRIMORDIAL_SERIAL_MASK : Z := 0xFFFFFFFFFFFF0000.
Definition PRIMORDIAL_SERIAL_TAG : Z := 0xC0DE0000.
Definition CAP_MARK_NEW : Z := 0xFFFFFFFF.
Definition CAP_MARK_DONE : Z := 0xFFFFFFFE.
Definition PIPE_TALLY_CELLS : Z := 3.
Definition PIPE_TALLY_GEN_MIXED : Z := 0xFFFFFFFF.

Definition copyable_from_ring3 (typ : Z) : bool := negb (typ =? CAP_PIPE).

Definition serial_is_primordial (s : Z) : bool :=
  Z.land s PRIMORDIAL_SERIAL_MASK =? PRIMORDIAL_SERIAL_TAG.

(** [slot < cspace_size && slot < CNODE_SIZE] for an unsigned slot. *)
Definition slot_in (size slot : Z) : bool :=
  (0 <=? slot) && (slot <? size) && (slot <? CNODE_SIZE).

(** ** Lookup *)
Definition rust_cap_lookup (m : cmem) (cspace : option cref) (cspace_size slot required_rights : Z)
  : option loc :=
  match cspace with
  | None => None
  | Some c =>
      if negb (slot_in cspace_size slot) then None else
      let cap := cap_at m (c, slot) in
      if cap.(ctype) =? CAP_NULL then None else
      if negb (has_bits cap.(rights) required_rights) then None else
      if cap.(serial) =? 0 then None else
      Some (c, slot)
  end.

Definition rust_cap_lookup_typed (m : cmem) (cspace : option cref)
    (cspace_size slot expected_type required_rights : Z) : option loc :=
  match rust_cap_lookup m cspace cspace_size slot required_rights with
  | None => None
  | Some p =>
      if negb (expected_type =? CAP_ANYTYPE) && negb ((cap_at m p).(ctype) =? expected_type)
      then None else Some p
  end.

(** Some of the object index, or None for the -1 return. *)
Definition rust_ipc_object_from_slot (m : cmem) (cspace : option cref)
    (cspace_size slot expected_type need_rights index_max : Z) : option Z :=
  match rust_cap_lookup_typed m cspace cspace_size slot expected_type need_rights with
  | None => None
  | Some p =>
      let obj := (cap_at m p).(object) in
      if index_max <=? obj then None else Some (u32 obj)
  end.

(** ** Serials

    The result is the serial (0 on exhaustion) and the counter after it. *)
Definition assign_fresh_serial (next_serial : Z) : Z * Z :=
  let base := if next_serial <? MIN_DERIVED_SERIAL then MIN_DERIVED_SERIAL else next_serial in
  if base + 1 <=? U64_MAX then (base + 1, base + 1) else (0, next_serial).

Definition rust_cap_alloc_serial (next_serial : Z) : Z * Z := assign_fresh_serial next_serial.

(** ** Derivations *)
Definition rust_cap_mint (m : cmem) (next_serial : Z) (cspace : option cref)
    (cspace_size dest_slot src_slot new_rights : Z) : option (cmem * Z) :=
  match cspace with
  | None => None
  | Some c =>
      if negb (slot_in cspace_size dest_slot) then None else
      if negb (slot_in cspace_size src_slot) then None else
      if dest_slot <? KERNEL_RESERVED_CAPS then None else
      let src := cap_at m (c, src_slot) in
      if src.(ctype) =? CAP_NULL then None else
      if src.(serial) =? 0 then None else
      if negb (copyable_from_ring3 src.(ctype)) then None else
      let '(fresh, ns) := assign_fresh_serial next_serial in
      if fresh =? 0 then None else
      Some (cap_put m (c, dest_slot)
              (mk_cap src.(ctype) (Z.land new_rights src.(rights)) src.(object)
                      src.(serial) fresh src.(token)), ns)
  end.

Definition rust_cap_transfer (m : cmem) (next_serial : Z) (cspace : option cref)
    (cspace_size dest_slot src_slot : Z) : option (cmem * Z) :=
  rust_cap_mint m next_serial cspace cspace_size dest_slot src_slot U32_MAX.

(** [src] is the capability the source pointer names, read before the write. *)
Definition rust_cap_grant_into (m : cmem) (next_serial : Z) (src : option capability)
    (dest_cspace : option cref) (dest_cspace_size dest_slot new_rights : Z)
  : option (cmem * Z) :=
  match src, dest_cspace with
  | Some s, Some d =>
      if negb (slot_in dest_cspace_size dest_slot) then None else
      if (s.(ctype) =? CAP_NULL) || (s.(serial) =? 0) then None else
      let '(fresh, ns) := assign_fresh_serial next_serial in
      if fresh =? 0 then None else
      Some (cap_put m (d, dest_slot)
              (mk_cap s.(ctype) (Z.land new_rights s.(rights)) s.(object)
                      s.(serial) fresh s.(token)), ns)
  | _, _ => None
  end.

Definition rust_cap_grant_from_user (m : cmem) (next_serial : Z) (src : option capability)
    (dest_cspace : option cref) (dest_cspace_size dest_slot new_rights : Z)
  : option (cmem * Z) :=
  match src with
  | None => None
  | Some s =>
      if negb (copyable_from_ring3 s.(ctype)) then None
      else rust_cap_grant_into m next_serial src dest_cspace dest_cspace_size dest_slot new_rights
  end.

Definition rust_cap_mint_token (m : cmem) (next_serial : Z) (cspace : option cref)
    (cspace_size dest_slot src_slot new_rights tok : Z) : option (cmem * Z) :=
  match cspace with
  | None => None
  | Some c =>
      if tok =? 0 then None else
      if negb (slot_in cspace_size dest_slot) || (dest_slot <? KERNEL_RESERVED_CAPS) then None else
      if negb (slot_in cspace_size src_slot) || (src_slot =? dest_slot) then None else
      let src := cap_at m (c, src_slot) in
      if negb (src.(ctype) =? CAP_ENDPOINT) || (src.(serial) =? 0) then None else
      if (Z.land src.(rights) CAP_RIGHT_MINT =? 0) || negb (src.(token) =? 0) then None else
      let '(fresh, ns) := assign_fresh_serial next_serial in
      if fresh =? 0 then None else
      Some (cap_put m (c, dest_slot)
              (mk_cap CAP_ENDPOINT
                      (Z.ldiff (Z.land new_rights src.(rights)) TOKEN_STRIPPED_RIGHTS)
                      src.(object) src.(serial) fresh tok), ns)
  end.

Definition rust_cap_reply_mint (m : cmem) (next_serial : Z) (src : option capability)
    (dest_cspace : option cref) (dest_cspace_size dest_slot new_rights tok : Z)
  : option (cmem * Z) :=
  match src, dest_cspace with
  | Some s, Some d =>
      if tok =? 0 then None else
      if negb (slot_in dest_cspace_size dest_slot) || (dest_slot <? KERNEL_RESERVED_CAPS) then None
      else
      if negb (s.(ctype) =? CAP_ENDPOINT) || (s.(serial) =? 0) then None else
      if negb ((cap_at m (d, dest_slot)).(ctype) =? CAP_NULL) then None else
      let '(fresh, ns) := assign_fresh_serial next_serial in
      if fresh =? 0 then None else
      Some (cap_put m (d, dest_slot)
              (mk_cap CAP_ENDPOINT
                      (Z.ldiff (Z.land new_rights s.(rights)) TOKEN_STRIPPED_RIGHTS)
                      s.(object) s.(serial) fresh tok), ns)
  | _, _ => None
  end.

(** Emptying a slot. *)
Definition nullify (m : cmem) (l : loc) : cmem := cap_put m l null_cap.
