(* ===== verification/CapRevoke.v ===== *)
(** System-wide revocation and re-parenting (rust/src/capability.rs:
    PipeTally::note, mark_children_of, revoke_subtree, rust_cap_revoke_global,
    rust_cap_reparent_dying), and the proof that revocation empties exactly
    the target and its descendants. *)
From S2P Require Import Prelude KTypes CapCore.

(** ** The sweep's descriptors and state *)
Record CSpaceDesc := mk_desc {
  d_caps : option cref;
  d_size : Z;
  d_caps_in_use : ciu_ptr
}.

(** What the sweep writes: the slots, the owners' [caps_in_use] counters
    (indexed by task) and the pipe tally ([None] for a null pointer). *)
Record rstate := mk_rs {
  rs_mem : cmem;
  rs_ciu : list Z;
  rs_tally : option (list Z)
}.

Definition rs_set_mem (st : rstate) (m : cmem) : rstate :=
  mk_rs m st.(rs_ciu) st.(rs_tally).

(** The slots [for i in 0..limit] of one descriptor, and of all of them, in the
    order the loops visit them.  The descriptors do not change during a sweep,
    so every pair of nested loops is one pass over this list. *)
Definition desc_locs (d : CSpaceDesc) : list (loc * ciu_ptr) :=
  match d.(d_caps) with
  | None => []
  | Some c =>
      (fun i => ((c, i), d.(d_caps_in_use)))
        <$> seqZ 0 (if CNODE_SIZE <? d.(d_size) then CNODE_SIZE else d.(d_size))
  end.
Definition visit (spaces : list CSpaceDesc) : list (loc * ciu_ptr) :=
  spaces ≫= desc_locs.

(** ** The pipe tally *)
Definition sat_add_u32 (x : Z) : Z := if x + 1 <=? U32_MAX then x + 1 else U32_MAX.

Definition pipe_tally_note (c : capability) (cells : list Z) : list Z :=
  let pipes := zlen cells / PIPE_TALLY_CELLS in
  let index := Z.land c.(object) 0xFFFFFFFF in
  let generation := u32 (Z.shiftr c.(object) 32) in
  if pipes <=? index then cells else
  let base := index * PIPE_TALLY_CELLS in
  let writer := if Z.land c.(rights) CAP_RIGHT_WRITE =? 0 then 0 else 1 in
  let cells := zset cells (base + writer) (sat_add_u32 (zget 0 cells (base + writer))) in
  let seen := zget 0 cells (base + 2) in
  if seen =? 0 then zset cells (base + 2) generation
  else if negb (seen =? generation) then zset cells (base + 2) PIPE_TALLY_GEN_MIXED
  else cells.

Definition note (c : capability) (t : option (list Z)) : option (list Z) :=
  match t with
  | None => None
  | Some cells => if negb (c.(ctype) =? CAP_PIPE) then t else Some (pipe_tally_note c cells)
  end.

(** ** Marking *)
Definition is_mark (t : Z) : bool := (t =? CAP_MARK_NEW) || (t =? CAP_MARK_DONE).

Definition mark_child (parent_serial : Z) (st : rstate) (v : loc * ciu_ptr) : rstate :=
  let l := v.1 in
  let c := cap_at st.(rs_mem) l in
  if (c.(ctype) =? CAP_NULL) || is_mark c.(ctype) then st else
  if (c.(serial) =? 0) || (c.(badge) =? 0) then st else
  if c.(badge) =? parent_serial
  then mk_rs (cap_put st.(rs_mem) l (set_ctype c CAP_MARK_NEW)) st.(rs_ciu)
             (note c st.(rs_tally))
  else st.

Definition mark_children_of (spaces : list CSpaceDesc) (parent_serial : Z) (st : rstate) : rstate :=
  if parent_serial =? 0 then st
  else foldl (mark_child parent_serial) st (visit spaces).

(** One slot of one pass of the marking loop. *)
Definition revoke_visit (spaces : list CSpaceDesc) (acc : bool * rstate) (v : loc * ciu_ptr)
  : bool * rstate :=
  let '(progress, st) := acc in
  let l := v.1 in
  let c := cap_at st.(rs_mem) l in
  if negb (c.(ctype) =? CAP_MARK_NEW) then (progress, st) else
  let st := rs_set_mem st (cap_put st.(rs_mem) l (set_ctype c CAP_MARK_DONE)) in
  (true, if c.(serial) =? 0 then st else mark_children_of spaces c.(serial) st).

Definition revoke_pass (spaces : list CSpaceDesc) (st : rstate) : bool * rstate :=
  foldl (revoke_visit spaces) (false, st) (visit spaces).

(** [loop { ...; if !progress { break; } }], None when the fuel runs out
    before a pass without progress. *)
Fixpoint revoke_loop (fuel : nat) (spaces : list CSpaceDesc) (st : rstate) : option rstate :=
  match fuel with
  | O => None
  | S fuel =>
      let '(progress, st) := revoke_pass spaces st in
      if progress then revoke_loop fuel spaces st else Some st
  end.

(** ** Sweeping *)
Definition dec_ciu (p : ciu_ptr) (ciu : list Z) : list Z :=
  match p with
  | None => ciu
  | Some t => if 0 <? zget 0 ciu t then zset ciu t (zget 0 ciu t - 1) else ciu
  end.

Definition sweep_visit (by_object : bool) (root_serial root_object : Z)
    (st : rstate) (v : loc * ciu_ptr) : rstate :=
  let '(l, p) := v in
  let c := cap_at st.(rs_mem) l in
  if c.(ctype) =? CAP_NULL then st else
  if is_mark c.(ctype)
     || (negb (root_serial =? 0) && (c.(serial) =? root_serial))
     || (by_object && negb (root_object =? 0) && (c.(object) =? root_object))
  then mk_rs (nullify st.(rs_mem) l) (dec_ciu p st.(rs_ciu)) (note c st.(rs_tally))
  else st.

(** The marking loop ends within one pass per visited slot and one more
    ([marked_phase]), so the default below is never taken. *)
Definition revoke_subtree (spaces : list CSpaceDesc) (root_serial root_object : Z) (st : rstate)
  : rstate :=
  let by_object := root_serial =? 0 in
  let st :=
    if by_object then st
    else let st := mark_children_of spaces root_serial st in
         default st (revoke_loop (S (length (visit spaces))) spaces st) in
  foldl (sweep_visit by_object root_serial root_object) st (visit spaces).

Definition is_primordial_root (m : cmem) (c : cref) (slot : Z) : bool :=
  (slot <? KERNEL_RESERVED_CAPS) && serial_is_primordial (cap_at m (c, slot)).(serial).

(** The result is the C [bool] and the state after. *)
Definition rust_cap_revoke_global (target_cspace : option cref) (target_size target_slot : Z)
    (target_ciu : ciu_ptr) (spaces : list CSpaceDesc) (st : rstate) : bool * rstate :=
  match target_cspace with
  | None => (false, st)
  | Some c =>
      if negb (slot_in target_size target_slot) then (false, st) else
      if is_primordial_root st.(rs_mem) c target_slot then (false, st) else
      let target := cap_at st.(rs_mem) (c, target_slot) in
      if target.(ctype) =? CAP_NULL then (true, st) else
      let st := mk_rs (nullify st.(rs_mem) (c, target_slot)) (dec_ciu target_ciu st.(rs_ciu))
                      (note target st.(rs_tally)) in
      (true, revoke_subtree spaces target.(serial) target.(object) st)
  end.

(** Revocation confined to one cspace, which the indirection through a
    CAP_REVOCATION capability uses on that capability itself. *)
Definition rust_cap_revoke (cspace : option cref) (cspace_size slot : Z) (st : rstate) : bool * rstate :=
  match cspace with
  | None => (false, st)
  | Some c =>
      if negb (slot_in cspace_size slot) then (false, st) else
      if is_primordial_root st.(rs_mem) c slot then (false, st) else
      let target := cap_at st.(rs_mem) (c, slot) in
      if target.(ctype) =? CAP_NULL then (true, st) else
      let st := mk_rs (nullify st.(rs_mem) (c, slot)) st.(rs_ciu) (note target st.(rs_tally)) in
      (true, revoke_subtree [mk_desc (Some c) cspace_size None] target.(serial) target.(object) st)
  end.

(** ** Re-parenting a dying cspace's children

    The scratch array is a list of (serial, badge) pairs. *)
Definition dying_pairs (m : cmem) (dying : cref) (size : Z) (cap_pairs : nat) : list (Z * Z) :=
  foldl (fun acc i =>
           if decide (cap_pairs <= length acc)%nat then acc else
           let c := cap_at m (dying, i) in
           if (c.(ctype) =? CAP_NULL) || (c.(serial) =? 0) then acc
           else acc ++ [(c.(serial), c.(badge))])
        [] (seqZ 0 (if CNODE_SIZE <? size then CNODE_SIZE else size)).

(** The insertion sort's inner loop walks the sorted prefix from its end. *)
Fixpoint insert_back (k : Z * Z) (rev_prefix : list (Z * Z)) : list (Z * Z) :=
  match rev_prefix with
  | [] => [k]
  | p :: r => if k.1 <? p.1 then p :: insert_back k r else k :: p :: r
  end.
Definition sort_pairs (l : list (Z * Z)) : list (Z * Z) :=
  reverse (foldl (fun acc k => insert_back k acc) [] l).

(** Binary search by serial over [lo, hi). *)
Fixpoint find_pair (fuel : nat) (scratch : list (Z * Z)) (serial lo hi : Z) : option Z :=
  match fuel with
  | O => None
  | S fuel =>
      if lo <? hi then
        let mid := lo + (hi - lo) / 2 in
        let v := (zget (0, 0) scratch mid).1 in
        if v =? serial then Some mid
        else if v <? serial then find_pair fuel scratch serial (mid + 1) hi
        else find_pair fuel scratch serial lo mid
      else None
  end.
Definition scratch_find (scratch : list (Z * Z)) (serial : Z) : option Z :=
  find_pair (S (length scratch)) scratch serial 0 (zlen scratch).

(** [while parent != 0 && steps <= n]: the first ancestor that is not dying
    and the number of steps taken. *)
Fixpoint chase (fuel : nat) (scratch : list (Z * Z)) (parent steps : Z) : Z * Z :=
  match fuel with
  | O => (parent, steps)
  | S fuel =>
      if negb (parent =? 0) && (steps <=? zlen scratch) then
        match scratch_find scratch parent with
        | Some x => chase fuel scratch (zget (0, 0) scratch x).2 (steps + 1)
        | None => (parent, steps)
        end
      else (parent, steps)
  end.

Definition reparent_visit (scratch : list (Z * Z)) (acc : cmem * Z) (l : loc) : cmem * Z :=
  let '(m, moved) := acc in
  let c := cap_at m l in
  if (c.(ctype) =? CAP_NULL) || (c.(badge) =? 0) then acc else
  match scratch_find scratch c.(badge) with
  | None => acc
  | Some idx =>
      let '(parent, steps) :=
        chase (S (length scratch)) scratch (zget (0, 0) scratch idx).2 1 in
      if zlen scratch <? steps then acc
      else (cap_put m l (set_badge c parent), moved + 1)
  end.

Definition rust_cap_reparent_dying (m : cmem) (dying : cref) (dying_size : Z)
    (spaces : list CSpaceDesc) (scratch_len : Z) : cmem * Z :=
  let pairs := dying_pairs m dying dying_size (Z.to_nat (scratch_len / 2)) in
  if bool_decide (pairs = []) then (m, 0) else
  foldl (reparent_visit (sort_pairs pairs)) (m, 0)
        (fst <$> visit (filter (fun d => d.(d_caps) <> Some dying) spaces)).

(** ** Specification: what revocation must empty *)

(** A slot that hangs in the derivation forest under some parent. *)
Definition derived_live (c : capability) : Prop :=
  c.(ctype) <> CAP_NULL /\ c.(serial) <> 0 /\ c.(badge) <> 0.

(** The slots of [V] below serial [ts] in the derivation forest of [m]. *)
Inductive descendant (m : cmem) (V : list loc) (ts : Z) : loc -> Prop :=
| desc_child l :
    l ∈ V -> derived_live (cap_at m l) -> (cap_at m l).(badge) = ts ->
    descendant m V ts l
| desc_step l p :
    descendant m V ts p ->
    l ∈ V -> derived_live (cap_at m l) -> (cap_at m l).(badge) = (cap_at m p).(serial) ->
    descendant m V ts l.

Definition marked (m : cmem) (l : loc) : Prop := is_mark (cap_at m l).(ctype) = true.
Definition unmarked (m : cmem) : Prop := forall l, is_mark (cap_at m l).(ctype) = false.
Definition is_new (m : cmem) (l : loc) : Prop := (cap_at m l).(ctype) = CAP_MARK_NEW.
Definition is_done (m : cmem) (l : loc) : Prop := (cap_at m l).(ctype) = CAP_MARK_DONE.

#[global] Instance is_done_dec m l : Decision (is_done m l).
Proof. unfold is_done. apply _. Defined.
#[global] Instance marked_dec m l : Decision (marked m l).
Proof. unfold marked. apply _. Defined.

Lemma descendant_live m V ts l : descendant m V ts l -> l ∈ V /\ derived_live (cap_at m l).
Proof. by destruct 1. Qed.

Lemma is_mark_cases t : is_mark t = true <-> t = CAP_MARK_NEW \/ t = CAP_MARK_DONE.
Proof. unfold is_mark. rewrite orb_true_iff, !Z.eqb_eq. done. Qed.

Lemma note_not_pipe c t : c.(ctype) <> CAP_PIPE -> note c t = t.
Proof.
  intros H. destruct t; simpl; [|done]. by rewrite (proj2 (Z.eqb_neq _ _) H).
Qed.

Definition note_locs (m : cmem) (N : list loc) (t : option (list Z)) : option (list Z) :=
  foldl (fun t l => note (cap_at m l) t) t N.

Lemma note_locs_app m N1 N2 t : note_locs m (N1 ++ N2) t = note_locs m N2 (note_locs m N1 t).
Proof. apply foldl_app. Qed.

Lemma note_locs_ext m m' N t :
  (forall l, l ∈ N -> cap_at m l = cap_at m' l) -> note_locs m N t = note_locs m' N t.
Proof.
  unfold note_locs. revert t. induction N as [|l N IH]; intros t H; simpl; [done|].
  rewrite (H l) by left. apply IH. intros; apply H. by right.
Qed.

(** ** The marking phase *)
Section marking.
Context (spaces : list CSpaceDesc) (m0 : cmem) (ciu0 : list Z) (tally0 : option (list Z)) (ts : Z).
Hypothesis m0_unmarked : unmarked m0.

Let V : list loc := (visit spaces).*1.

(** A state the marking can reach: only types of marked slots have changed,
    every mark sits on a descendant, and the tally counted each marked slot
    once, as it was before. *)
Record marking (st : rstate) : Prop := {
  mkg_frame : forall l, cap_at st.(rs_mem) l = cap_at m0 l
              \/ marked st.(rs_mem) l
                 /\ cap_at st.(rs_mem) l
                    = set_ctype (cap_at m0 l) (cap_at st.(rs_mem) l).(ctype);
  mkg_desc : forall l, marked st.(rs_mem) l -> descendant m0 V ts l;
  mkg_tally : exists N, NoDup N /\ (forall l, l ∈ N <-> marked st.(rs_mem) l)
              /\ st.(rs_tally) = note_locs m0 N tally0;
  mkg_ciu : st.(rs_ciu) = ciu0
}.

Definition child_of (ps : Z) (l : loc) : Prop :=
  l ∈ V /\ derived_live (cap_at m0 l) /\ (cap_at m0 l).(badge) = ps.

(** Every child of the root and of a finished slot is marked. *)
Definition closed (st : rstate) : Prop :=
  (forall l, child_of ts l -> marked st.(rs_mem) l)
  /\ (forall p l, is_done st.(rs_mem) p -> child_of (cap_at m0 p).(serial) l ->
       marked st.(rs_mem) l).

(** Marking changes no slot that is already marked and finishes none. *)
Definition keeps_marks (st st' : rstate) : Prop :=
  (forall l, marked st.(rs_mem) l -> cap_at st'.(rs_mem) l = cap_at st.(rs_mem) l)
  /\ (forall l, is_done st'.(rs_mem) l -> is_done st.(rs_mem) l).

Lemma keeps_marks_refl st : keeps_marks st st.
Proof. by split. Qed.

Lemma keeps_marks_marked st st' l :
  keeps_marks st st' -> marked st.(rs_mem) l -> marked st'.(rs_mem) l.
Proof. unfold marked. intros [H _] Hm. by rewrite (H l Hm). Qed.

Lemma keeps_marks_trans st1 st2 st3 :
  keeps_marks st1 st2 -> keeps_marks st2 st3 -> keeps_marks st1 st3.
Proof.
  intros H1 H2. split; [|by intros l ?%H2%H1].
  intros l Hl. rewrite (proj1 H2 l), (proj1 H1 l); [done..|]. by eapply keeps_marks_marked.
Qed.

Lemma marking_unmarked st l :
  marking st -> ~ marked st.(rs_mem) l -> cap_at st.(rs_mem) l = cap_at m0 l.
Proof. intros H Hl. destruct (mkg_frame _ H l) as [|[? _]]; [done|tauto]. Qed.

Lemma marking_serial st l :
  marking st -> (cap_at st.(rs_mem) l).(serial) = (cap_at m0 l).(serial).
Proof. intros H. destruct (mkg_frame _ H l) as [->|[_ ->]]; done. Qed.

Lemma marked_set_type m l c t :
  slot_ok m l -> is_mark t = true ->
  forall l', marked (cap_put m l (set_ctype c t)) l' <-> l' = l \/ marked m l'.
Proof.
  intros Hok Ht l'. unfold marked. destruct (decide (l' = l)) as [->|Hne].
  - rewrite cap_at_put_eq by done. simpl. tauto.
  - rewrite cap_at_put_ne by done. tauto.
Qed.

Lemma mark_child_spec ps st v :
  marking st -> (forall l, child_of ps l -> descendant m0 V ts l) -> v.1 ∈ V ->
  let st' := mark_child ps st v in
  marking st' /\ keeps_marks st st' /\ (child_of ps v.1 -> marked st'.(rs_mem) v.1).
Proof.
  intros Hm Hps Hv. unfold mark_child. destruct v as [l p]; simpl in *.
  destruct (decide (marked st.(rs_mem) l)) as [Hl|Hl].
  { assert (is_mark (cap_at st.(rs_mem) l).(ctype) = true) as -> by done.
    rewrite orb_true_r. split_and!; [done|apply keeps_marks_refl|done]. }
  pose proof (marking_unmarked _ _ Hm Hl) as E. rewrite E.
  pose proof (m0_unmarked l) as ->. rewrite orb_false_r.
  destruct (Z.eqb_spec (cap_at m0 l).(ctype) CAP_NULL) as [Hn|Hn].
  { split_and!; [done|apply keeps_marks_refl|]. intros [_ [[? _] _]]. done. }
  destruct ((_ =? 0) || (_ =? 0)) eqn:Hz.
  { split_and!; [done|apply keeps_marks_refl|]. intros [_ [[_ ?] _]].
    apply orb_true_iff in Hz as [?%Z.eqb_eq|?%Z.eqb_eq]; tauto. }
  apply orb_false_iff in Hz as [Hs%Z.eqb_neq Hb%Z.eqb_neq].
  destruct (Z.eqb_spec (cap_at m0 l).(badge) ps) as [Hc|Hc].
  2: { split_and!; [done|apply keeps_marks_refl|]. intros [_ [_ ?]]. done. }
  assert (child_of ps l) as Hchild by done.
  assert (slot_ok st.(rs_mem) l) as Hok by (apply typed_slot_ok; by rewrite E).
  pose proof (marked_set_type _ _ (cap_at m0 l) CAP_MARK_NEW Hok eq_refl) as HM.
  split_and!.
  - constructor; simpl.
    + intros l'. destruct (decide (l = l')) as [<-|Hne].
      * right. rewrite HM, cap_at_put_eq by done. auto.
      * rewrite cap_at_put_ne, HM by done. destruct (mkg_frame _ Hm l') as [|[? ?]]; auto.
    + intros l'. rewrite HM. intros [->|]; [by apply Hps|by apply (mkg_desc _ Hm)].
    + destruct (mkg_tally _ Hm) as (N & HN & HNm & HT). exists (N ++ [l]). split_and!.
      * apply NoDup_app. split_and!; [done| |apply NoDup_singleton].
        intros x Hx ->%list_elem_of_singleton. by apply Hl, HNm.
      * intros l'. rewrite elem_of_app, list_elem_of_singleton, HM, HNm. tauto.
      * rewrite note_locs_app, <- HT. done.
    + apply Hm.
  - split; intros l' Hl'; simpl in *.
    + rewrite cap_at_put_ne; [done|]. by intros ->.
    + unfold is_done in *. rewrite cap_at_put in Hl'. by case_decide.
  - intros _. simpl. apply HM. auto.
Qed.

Lemma mark_children_fold ps st vs :
  marking st -> (forall l, child_of ps l -> descendant m0 V ts l) ->
  (forall v, v ∈ vs -> v.1 ∈ V) ->
  let st' := foldl (mark_child ps) st vs in
  marking st' /\ keeps_marks st st'
  /\ (forall v, v ∈ vs -> child_of ps v.1 -> marked st'.(rs_mem) v.1).
Proof.
  revert st. induction vs as [|v vs IH]; simpl; intros st Hm Hps Hvs.
  { split_and!; [done|apply keeps_marks_refl|]. intros v Hv. by apply not_elem_of_nil in Hv. }
  destruct (mark_child_spec ps st v) as (H1 & H2 & H3); [done..|apply Hvs; left|].
  destruct (IH (mark_child ps st v)) as (I1 & I2 & I3); [done..|intros; apply Hvs; by right|].
  split_and!; [done|by eapply keeps_marks_trans|].
  intros w [->|Hw]%elem_of_cons Hc; [|by apply I3].
  eapply keeps_marks_marked; [done|by apply H3].
Qed.

Lemma mark_children_of_spec ps st :
  marking st -> (forall l, child_of ps l -> descendant m0 V ts l) ->
  let st' := mark_children_of spaces ps st in
  marking st' /\ keeps_marks st st' /\ (forall l, child_of ps l -> marked st'.(rs_mem) l).
Proof.
  intros Hm Hps. unfold mark_children_of. destruct (Z.eqb_spec ps 0) as [->|Hz].
  { split_and!; [done|apply keeps_marks_refl|]. intros l (_ & (_ & _ & ?) & ?). done. }
  destruct (mark_children_fold ps st (visit spaces)) as (H1 & H2 & H3); [done..| |].
  { intros v Hv. apply list_elem_of_fmap. eauto. }
  split_and!; [done|done|]. intros l Hl.
  destruct Hl as (Hv & ? & ?). apply list_elem_of_fmap in Hv as Hv'.
  destruct Hv' as (v & -> & Hin). by apply H3.
Qed.

(** How many visited slots the loop has not finished with. *)
Definition undone (st : rstate) : nat :=
  length (filter (fun l => ~ is_done st.(rs_mem) l) V).

Lemma filter_length_lt {A} (P Q : A -> Prop) `{forall x, Decision (P x)} `{forall x, Decision (Q x)}
    (l : list A) x :
  (forall y, Q y -> P y) -> x ∈ l -> P x -> ~ Q x ->
  (length (filter Q l) < length (filter P l))%nat.
Proof.
  intros HQP Hx HP HQ.
  assert (forall k, length (filter Q k) <= length (filter P k))%nat as Hle.
  { induction k as [|y k IH]; [done|]. rewrite !filter_cons.
    repeat case_decide; simpl; naive_solver lia. }
  induction l as [|y l IH]; [by apply not_elem_of_nil in Hx|].
  rewrite !filter_cons. specialize (Hle l). apply elem_of_cons in Hx as [->|Hx].
  - rewrite decide_False, decide_True by done. simpl. lia.
  - specialize (IH Hx). repeat case_decide; simpl; naive_solver lia.
Qed.

Lemma is_done_marked m l : is_done m l -> marked m l.
Proof. unfold is_done, marked. by intros ->. Qed.
Lemma is_new_marked m l : is_new m l -> marked m l.
Proof. unfold is_new, marked. by intros ->. Qed.

(** Finishing a slot: from NEW to DONE. *)
Lemma finish_spec st l :
  marking st -> is_new st.(rs_mem) l ->
  let st' := rs_set_mem st (cap_put st.(rs_mem) l
               (set_ctype (cap_at st.(rs_mem) l) CAP_MARK_DONE)) in
  marking st' /\ is_done st'.(rs_mem) l
  /\ (forall l', l' <> l -> cap_at st'.(rs_mem) l' = cap_at st.(rs_mem) l').
Proof.
  intros Hm Hn. pose proof (is_new_marked _ _ Hn) as Hl.
  assert (slot_ok st.(rs_mem) l) as Hok by (apply typed_slot_ok; by rewrite Hn).
  pose proof (marked_set_type _ l (cap_at st.(rs_mem) l) CAP_MARK_DONE Hok eq_refl) as HM.
  simpl. split_and!.
  - constructor; simpl.
    + intros l'. destruct (decide (l = l')) as [<-|Hne].
      * right. rewrite HM, cap_at_put_eq by done. split; [auto|].
        destruct (mkg_frame _ Hm l) as [->|[_ ->]]; done.
      * rewrite cap_at_put_ne, HM by done. destruct (mkg_frame _ Hm l') as [|[? ?]]; auto.
    + intros l'. rewrite HM. intros [->|]; by apply (mkg_desc _ Hm).
    + destruct (mkg_tally _ Hm) as (N & HN & HNm & HT). exists N. split_and!; [done| |done].
      intros l'. rewrite HM, HNm. split; [by auto|by intros [->|]].
    + apply Hm.
  - unfold is_done. by rewrite cap_at_put_eq.
  - intros l' Hne. by apply cap_at_put_ne.
Qed.

Lemma revoke_visit_spec progress st v :
  marking st -> closed st -> v.1 ∈ V ->
  let r := revoke_visit spaces (progress, st) v in
  marking r.2 /\ closed r.2
  /\ (r = (progress, st) /\ ~ is_new st.(rs_mem) v.1
      \/ r.1 = true /\ (undone r.2 < undone st)%nat).
Proof.
  intros Hm Hcl Hv. destruct v as [l p]. simpl. unfold revoke_visit; simpl.
  destruct (Z.eqb_spec (cap_at st.(rs_mem) l).(ctype) CAP_MARK_NEW) as [Hn|Hn]; simpl.
  2: { split_and!; [done..|]. left. done. }
  destruct (finish_spec st l Hm Hn) as (F1 & F2 & F3).
  set (st1 := rs_set_mem _ _) in *.
  assert (forall l', child_of (cap_at m0 l).(serial) l' -> descendant m0 V ts l') as Hps.
  { intros l' (? & ? & ?). eapply desc_step; [|done..].
    by apply (mkg_desc _ Hm), is_new_marked. }
  rewrite (marking_serial _ l Hm).
  destruct (mark_children_of_spec (cap_at m0 l).(serial) st1) as (G1 & G2 & G3); [done..|].
  set (st2 := if _ =? 0 then st1 else _).
  assert (st2 = mark_children_of spaces (cap_at m0 l).(serial) st1) as ->.
  { subst st2. unfold mark_children_of. by destruct (_ =? 0). }
  set (st2 := mark_children_of _ _ _) in *.
  assert (forall l', marked st.(rs_mem) l' -> marked st2.(rs_mem) l') as Hmono.
  { intros l' Hl'. eapply keeps_marks_marked; [done|].
    destruct (decide (l' = l)) as [->|]; [by apply is_done_marked|].
    unfold marked. by rewrite F3. }
  assert (forall p, is_done st2.(rs_mem) p -> p = l \/ is_done st.(rs_mem) p) as Hdone.
  { intros q Hq%G2. destruct (decide (q = l)) as [->|Hne]; [by left|right].
    unfold is_done. by rewrite <- F3. }
  split_and!; [done| |right; split; [done|]].
  - split; [intros l' ?; by apply Hmono, Hcl|].
    intros q l' [->|Hq]%Hdone Hc; [by apply G3|]. by eapply Hmono, Hcl.
  - apply (filter_length_lt _ _ _ l); [|done|by unfold is_done; rewrite Hn|].
    + intros l' Hl' Hd. apply Hl'. unfold is_done in *.
      assert (l' <> l) as Hne by (intros ->; by rewrite Hn in Hd).
      rewrite <- (F3 l') in Hd by done.
      rewrite (proj1 G2 l'); [done|by apply is_done_marked].
    + intros Hd. apply Hd. unfold is_done.
      rewrite (proj1 G2 l); [done|by apply is_done_marked].
Qed.

Lemma revoke_pass_fold vs progress st :
  marking st -> closed st -> (forall v, v ∈ vs -> v.1 ∈ V) ->
  let r := foldl (revoke_visit spaces) (progress, st) vs in
  marking r.2 /\ closed r.2
  /\ (r = (progress, st) /\ (forall v, v ∈ vs -> ~ is_new st.(rs_mem) v.1)
      \/ r.1 = true /\ (undone r.2 < undone st)%nat).
Proof.
  revert progress st. induction vs as [|v vs IH]; cbn [foldl]; intros progress st Hm Hc Hvs.
  { split_and!; [done..|left]. split; [done|]. by intros v ?%not_elem_of_nil. }
  destruct (revoke_visit_spec progress st v) as (V1 & V2 & V3); [done..|apply Hvs; left|].
  destruct (revoke_visit spaces (progress, st) v) as [p1 st1] eqn:E; simpl in V1, V2, V3.
  destruct (IH p1 st1) as (I1 & I2 & I3); [done..|intros; apply Hvs; by right|].
  split_and!; [done..|].
  destruct V3 as [[[= -> ->] Hn]|[-> Hlt]], I3 as [[-> Hrest]|[-> ?]]; simpl in *.
  - left. split; [done|]. by intros w [->|?]%elem_of_cons; [|apply Hrest].
  - by right.
  - by right.
  - right. split; [done|lia].
Qed.

Lemma revoke_loop_spec fuel st :
  marking st -> closed st -> (undone st < fuel)%nat ->
  exists st', revoke_loop fuel spaces st = Some st' /\ marking st' /\ closed st'
    /\ (forall l, l ∈ V -> ~ is_new st'.(rs_mem) l).
Proof.
  revert st. induction fuel as [|fuel IH]; intros st Hm Hc Hf; [lia|]. simpl.
  destruct (revoke_pass_fold (visit spaces) false st) as (P1 & P2 & P3); [done..| |].
  { intros v Hv. apply list_elem_of_fmap. eauto. }
  fold (revoke_pass spaces st) in P1, P2, P3.
  destruct (revoke_pass spaces st) as [p st1]; simpl in *.
  destruct P3 as [[[= -> ->] Hn]|[-> Hlt]]; [|apply IH; [done..|lia]].
  exists st. split_and!; [done..|]. intros l (v & -> & Hv)%list_elem_of_fmap. by apply Hn.
Qed.

(** The state the marking starts from. *)
Lemma marking_init : marking (mk_rs m0 ciu0 tally0).
Proof.
  constructor; simpl; [by left| | |done].
  - intros l. unfold marked. by rewrite m0_unmarked.
  - exists []. split_and!; [constructor| |done]. intros l.
    unfold marked. rewrite m0_unmarked, elem_of_nil. naive_solver.
Qed.

Lemma marked_phase :
  let st1 := mark_children_of spaces ts (mk_rs m0 ciu0 tally0) in
  exists st', revoke_loop (S (length (visit spaces))) spaces st1 = Some st'
    /\ marking st' /\ (forall l, marked st'.(rs_mem) l <-> descendant m0 V ts l).
Proof.
  destruct (mark_children_of_spec ts (mk_rs m0 ciu0 tally0)) as (H1 & H2 & H3).
  { apply marking_init. }
  { intros l (? & ? & ?). by apply desc_child. }
  set (st1 := mark_children_of _ _ _) in *.
  destruct (revoke_loop_spec (S (length (visit spaces))) st1) as (st' & E & M & C & Hn).
  - done.
  - split; [done|]. intros p l Hd%H2. unfold is_done in Hd. simpl in Hd.
    pose proof (m0_unmarked p) as Hu. by rewrite Hd in Hu.
  - unfold undone. pose proof (length_filter (fun l => ~ is_done st1.(rs_mem) l) V) as Hle.
    unfold V in Hle |- *. rewrite length_fmap in Hle. lia.
  - exists st'. split_and!; [done..|]. intros l. split; [apply (mkg_desc _ M)|].
    induction 1 as [l ? ? ?|l p Hp IH ? ? ?]; [by apply C|].
    apply (proj2 C p l); [|done].
    apply is_mark_cases in IH as [Hnew|]; [|done].
    by destruct (Hn p); [apply descendant_live in Hp as [? _]|].
Qed.
End marking.

(** ** The sweep *)
Definition sweep_hit (by_object : bool) (root_serial root_object : Z) (c : capability) : bool :=
  negb (c.(ctype) =? CAP_NULL)
  && (is_mark c.(ctype)
      || (negb (root_serial =? 0) && (c.(serial) =? root_serial))
      || (by_object && negb (root_object =? 0) && (c.(object) =? root_object))).

Lemma sweep_hit_typed bo rs ro c : sweep_hit bo rs ro c = true -> c.(ctype) <> CAP_NULL.
Proof. unfold sweep_hit. by intros [?%negb_true_iff%Z.eqb_neq _]%andb_true_iff. Qed.

Lemma sweep_visit_hit bo rs ro st v :
  sweep_visit bo rs ro st v
  = if sweep_hit bo rs ro (cap_at st.(rs_mem) v.1)
    then mk_rs (nullify st.(rs_mem) v.1) (dec_ciu v.2 st.(rs_ciu))
               (note (cap_at st.(rs_mem) v.1) st.(rs_tally))
    else st.
Proof. unfold sweep_visit, sweep_hit. destruct v as [l p]; simpl. by destruct (_ =? CAP_NULL). Qed.

Lemma cap_at_nullify m l l' :
  cap_at (nullify m l) l' = if decide (l = l') then null_cap else cap_at m l'.
Proof.
  unfold nullify. rewrite cap_at_put. destruct (decide (l = l')) as [->|].
  - case_decide as H; [done|]. apply cap_at_not_ok. tauto.
  - rewrite decide_False; [done|tauto].
Qed.

(** The emptied slots are the visited hits, each noted once. *)
Lemma sweep_fold bo rs ro vs st :
  let st' := foldl (sweep_visit bo rs ro) st vs in
  let hit l := l ∈ vs.*1 /\ sweep_hit bo rs ro (cap_at st.(rs_mem) l) = true in
  (forall l, hit l -> cap_at st'.(rs_mem) l = null_cap)
  /\ (forall l, ~ hit l -> cap_at st'.(rs_mem) l = cap_at st.(rs_mem) l)
  /\ exists H, NoDup H /\ (forall l, l ∈ H <-> hit l)
       /\ st'.(rs_tally) = note_locs st.(rs_mem) H st.(rs_tally).
Proof.
  revert st. induction vs as [|v vs IH]; intros st; simpl.
  { split_and!; [by intros l [?%not_elem_of_nil _]|done|]. exists [].
    split_and!; [constructor| |done]. intros l. rewrite elem_of_nil. tauto. }
  rewrite sweep_visit_hit. destruct (sweep_hit _ _ _ _) eqn:E.
  2: { destruct (IH st) as (I1 & I2 & H & HN & HI & HT).
       assert (forall l, l ∈ v.1 :: vs.*1 /\ sweep_hit bo rs ro (cap_at st.(rs_mem) l) = true
                 <-> l ∈ vs.*1 /\ sweep_hit bo rs ro (cap_at st.(rs_mem) l) = true) as Heq.
       { intros l. rewrite elem_of_cons. naive_solver congruence. }
       split_and!; [intros l ?%Heq; by apply I1|intros l; rewrite Heq; apply I2|].
       exists H. split_and!; [done| |done]. intros l. by rewrite Heq. }
  set (st1 := mk_rs _ _ _). destruct (IH st1) as (I1 & I2 & H & HN & HI & HT).
  assert (forall l, sweep_hit bo rs ro (cap_at st1.(rs_mem) l) = true
            <-> l <> v.1 /\ sweep_hit bo rs ro (cap_at st.(rs_mem) l) = true) as Heq.
  { intros l. subst st1. simpl. rewrite cap_at_nullify. case_decide; naive_solver. }
  assert (forall l, l <> v.1 -> cap_at st1.(rs_mem) l = cap_at st.(rs_mem) l) as Hne.
  { intros l Hl. subst st1. simpl. rewrite cap_at_nullify. by rewrite decide_False. }
  assert (v.1 ∉ H) as HvH by (intros ?%HI; naive_solver).
  split_and!.
  - intros l [Hl Hh]. destruct (decide (l = v.1)) as [->|Hlv].
    + rewrite I2 by naive_solver. subst st1. simpl. rewrite cap_at_nullify. by rewrite decide_True.
    + apply I1. rewrite Heq. rewrite elem_of_cons in Hl. naive_solver.
  - intros l Hl. destruct (decide (l = v.1)) as [->|Hlv].
    { destruct Hl. split; [by left|done]. }
    rewrite I2; [by apply Hne|]. rewrite Heq. intros (? & _ & ?). apply Hl. split; [by right|done].
  - exists (v.1 :: H). split_and!; [by constructor| |].
    + intros l. rewrite !elem_of_cons, HI, Heq. destruct (decide (l = v.1)); naive_solver.
    + simpl. rewrite HT. apply note_locs_ext. intros l Hl. apply Hne. by intros ->.
Qed.

Lemma dec_ciu_bounds p ciu t :
  zget 0 (dec_ciu p ciu) t <= zget 0 ciu t
  /\ (0 <= zget 0 ciu t -> 0 <= zget 0 (dec_ciu p ciu) t)
  /\ zlen (dec_ciu p ciu) = zlen ciu.
Proof.
  destruct p as [q|]; simpl; [|lia]. destruct (Z.ltb_spec 0 (zget 0 ciu q)); [|lia].
  rewrite zlen_zset, zget_zset. case_bool_decide as Hb; [destruct Hb; subst; lia|lia].
Qed.

Lemma sweep_fold_ciu bo rs ro vs st t :
  let ciu' := (foldl (sweep_visit bo rs ro) st vs).(rs_ciu) in
  zget 0 ciu' t <= zget 0 st.(rs_ciu) t
  /\ (0 <= zget 0 st.(rs_ciu) t -> 0 <= zget 0 ciu' t)
  /\ zlen ciu' = zlen st.(rs_ciu).
Proof.
  revert st. induction vs as [|v vs IH]; intros st; simpl; [lia|].
  specialize (IH (sweep_visit bo rs ro st v)). simpl in IH.
  rewrite sweep_visit_hit in *. destruct (sweep_hit _ _ _ _); [|lia].
  simpl in IH. pose proof (dec_ciu_bounds v.2 st.(rs_ciu) t). lia.
Qed.

(** Sizes never change. *)
Lemma zlen_mark_children spaces ps st c :
  zlen (space (mark_children_of spaces ps st).(rs_mem) c) = zlen (space st.(rs_mem) c).
Proof.
  unfold mark_children_of. destruct (ps =? 0); [done|]. generalize (visit spaces) as vs.
  intros vs. revert st. induction vs as [|v vs IH]; intros st; simpl; [done|].
  rewrite IH. unfold mark_child. repeat case_match; simpl; by autorewrite with horus.
Qed.

Lemma zlen_revoke_pass spaces st c :
  zlen (space (revoke_pass spaces st).2.(rs_mem) c) = zlen (space st.(rs_mem) c).
Proof.
  unfold revoke_pass. generalize (visit spaces) as vs, false as b.
  intros vs. revert st. induction vs as [|v vs IH]; intros st b; cbn [foldl]; [done|].
  destruct (revoke_visit spaces (b, st) v) as [b1 st1] eqn:E. rewrite IH.
  unfold revoke_visit in E. repeat case_match; simplify_eq; try done.
  all: rewrite ?zlen_mark_children; simpl; by autorewrite with horus.
Qed.

Lemma zlen_revoke_loop fuel spaces st st' c :
  revoke_loop fuel spaces st = Some st' -> zlen (space st'.(rs_mem) c) = zlen (space st.(rs_mem) c).
Proof.
  revert st. induction fuel as [|fuel IH]; intros st; simpl; [done|].
  pose proof (zlen_revoke_pass spaces st c) as Hp.
  destruct (revoke_pass spaces st) as [[] st1]; simpl in *; [intros ->%IH|intros [= ->]]; done.
Qed.

Lemma zlen_sweep bo rs ro vs st c :
  zlen (space (foldl (sweep_visit bo rs ro) st vs).(rs_mem) c) = zlen (space st.(rs_mem) c).
Proof.
  revert st. induction vs as [|v vs IH]; intros st; simpl; [done|].
  rewrite IH, sweep_visit_hit. case_match; [|done]. simpl. unfold nullify. by autorewrite with horus.
Qed.

(** ** What one revocation does *)

(** The outcome of a sweep on a memory: the slots of [gone] are empty, every
    other slot is as it was, and the tally noted each emptied slot once. *)
Record swept (gone : loc -> Prop) (st st' : rstate) : Prop := {
  swept_gone : forall l, gone l -> cap_at st'.(rs_mem) l = null_cap;
  swept_kept : forall l, ~ gone l -> cap_at st'.(rs_mem) l = cap_at st.(rs_mem) l;
  swept_tally : exists N, NoDup N /\ (forall l, l ∈ N <-> gone l)
      /\ st'.(rs_tally) = note_locs st.(rs_mem) N st.(rs_tally);
  swept_ciu : forall t, zget 0 st'.(rs_ciu) t <= zget 0 st.(rs_ciu) t
      /\ (0 <= zget 0 st.(rs_ciu) t -> 0 <= zget 0 st'.(rs_ciu) t);
  swept_ciu_len : zlen st'.(rs_ciu) = zlen st.(rs_ciu);
  swept_size : forall c, zlen (space st'.(rs_mem) c) = zlen (space st.(rs_mem) c)
}.

(** The slots below a root serial, or carrying it. *)
Definition subtree (m : cmem) (V : list loc) (ts : Z) (l : loc) : Prop :=
  l ∈ V /\ (cap_at m l).(ctype) <> CAP_NULL
  /\ ((cap_at m l).(serial) = ts \/ descendant m V ts l).

Lemma note_locs_unmarked m m' H t :
  (forall l, ~ marked m' l -> cap_at m' l = cap_at m l) ->
  note_locs m' H t = note_locs m (filter (fun l => ~ marked m' l) H) t.
Proof.
  intros Hf. revert t. induction H as [|l H IH]; intros t; [done|].
  rewrite filter_cons. unfold note_locs; simpl. case_decide as Hm; simpl.
  - rewrite Hf by done. apply IH.
  - rewrite note_not_pipe; [apply IH|]. intros Hp. unfold marked in Hm. by rewrite Hp in Hm.
Qed.

Lemma revoke_subtree_spec spaces ts obj st :
  unmarked st.(rs_mem) -> ts <> 0 ->
  swept (subtree st.(rs_mem) (visit spaces).*1 ts) st (revoke_subtree spaces ts obj st).
Proof.
  intros Hu Hts. destruct st as [m0 ciu0 t0]; simpl in Hu.
  destruct (marked_phase spaces m0 ciu0 t0 ts Hu) as (st2 & HL & HM & Hmd).
  unfold revoke_subtree. rewrite (proj2 (Z.eqb_neq _ _) Hts). cbv zeta. rewrite HL.
  cbn [default from_option id].
  destruct (sweep_fold false ts obj (visit spaces) st2) as (S1 & S2 & H & HN & HI & HT).
  set (V := (visit spaces).*1) in *.
  assert (forall l, l ∈ V /\ sweep_hit false ts obj (cap_at st2.(rs_mem) l) = true
            <-> subtree m0 V ts l) as Hhit.
  { intros l. unfold subtree, sweep_hit. rewrite (proj2 (Z.eqb_neq _ _) Hts), <- Hmd.
    rewrite (marking_serial spaces m0 ciu0 t0 ts _ _ HM). simpl.
    rewrite orb_false_r, andb_true_iff, orb_true_iff, negb_true_iff, Z.eqb_neq, Z.eqb_eq.
    destruct (decide (marked st2.(rs_mem) l)) as [Hl|Hl].
    - pose proof (proj1 (Hmd l) Hl) as [? [? _]]%descendant_live.
      pose proof (proj1 (is_mark_cases _) Hl) as Hc.
      unfold marked in *. split; [by intros [? _]; auto|].
      intros (? & ? & ?). split_and!; auto. by destruct Hc as [->| ->].
    - rewrite (marking_unmarked spaces m0 ciu0 t0 ts _ _ HM Hl). unfold marked in Hl.
      rewrite <- (marking_unmarked spaces m0 ciu0 t0 ts _ _ HM Hl) at 2. tauto. }
  constructor; simpl.
  - intros l Hl. by apply S1, Hhit.
  - intros l Hl. rewrite S2 by (by rewrite Hhit).
    destruct (decide (marked st2.(rs_mem) l)) as [Hm|Hm].
    + apply Hmd in Hm. destruct Hl. pose proof Hm as [? [? _]]%descendant_live.
      by split_and!; [| |right].
    + by apply (marking_unmarked spaces m0 ciu0 t0 ts).
  - destruct (mkg_tally _ _ _ _ _ _ HM) as (N1 & N1d & N1m & N1t).
    exists (N1 ++ filter (fun l => ~ marked st2.(rs_mem) l) H). split_and!.
    + apply NoDup_app. split_and!; [done| |by apply NoDup_filter].
      intros l Hl%N1m [? _]%list_elem_of_filter. done.
    + intros l. rewrite elem_of_app, list_elem_of_filter, N1m, HI, Hhit.
      destruct (decide (marked st2.(rs_mem) l)) as [Hm|Hm]; [|tauto].
      split; [intros _|by left]. apply Hmd in Hm. pose proof Hm as [? [? _]]%descendant_live.
      by split_and!; [| |right].
    + rewrite HT, N1t, note_locs_app. apply note_locs_unmarked.
      intros l Hl. by apply (marking_unmarked spaces m0 ciu0 t0 ts).
  - intros t. destruct (sweep_fold_ciu false ts obj (visit spaces) st2 t) as (? & ? & _).
    by rewrite (mkg_ciu _ _ _ _ _ _ HM) in *.
  - destruct (sweep_fold_ciu false ts obj (visit spaces) st2 0) as (_ & _ & ->).
    by rewrite (mkg_ciu _ _ _ _ _ _ HM).
  - intros c. by rewrite zlen_sweep, (zlen_revoke_loop _ _ _ _ _ HL), zlen_mark_children.
Qed.

(** A target with no serial is revoked by its object. *)
Lemma revoke_subtree_by_object spaces obj st :
  unmarked st.(rs_mem) ->
  swept (fun l => l ∈ (visit spaces).*1 /\ (cap_at st.(rs_mem) l).(ctype) <> CAP_NULL
                  /\ obj <> 0 /\ (cap_at st.(rs_mem) l).(object) = obj)
        st (revoke_subtree spaces 0 obj st).
Proof.
  intros Hu. unfold revoke_subtree. simpl.
  destruct (sweep_fold true 0 obj (visit spaces) st) as (S1 & S2 & H & HN & HI & HT).
  assert (forall l, sweep_hit true 0 obj (cap_at st.(rs_mem) l) = true
            <-> (cap_at st.(rs_mem) l).(ctype) <> CAP_NULL /\ obj <> 0
                /\ (cap_at st.(rs_mem) l).(object) = obj) as Hhit.
  { intros l. unfold sweep_hit. rewrite (Hu l). simpl.
    by rewrite !andb_true_iff, !negb_true_iff, !Z.eqb_neq, Z.eqb_eq. }
  constructor.
  - intros l Hl. apply S1. by rewrite Hhit.
  - intros l Hl. apply S2. by rewrite Hhit.
  - exists H. split_and!; [done| |done]. intros l. by rewrite HI, Hhit.
  - intros t. by destruct (sweep_fold_ciu true 0 obj (visit spaces) st t) as (? & ? & _).
  - by destruct (sweep_fold_ciu true 0 obj (visit spaces) st 0) as (_ & _ & ->).
  - intros c. by rewrite zlen_sweep.
Qed.

(** Emptying the target first changes nothing below it. *)
Lemma descendant_nullify m V l0 l :
  (cap_at m l0).(serial) <> 0 ->
  descendant (nullify m l0) V (cap_at m l0).(serial) l
  <-> l <> l0 /\ descendant m V (cap_at m l0).(serial) l.
Proof.
  intros Hs. split.
  - induction 1 as [l Hl Hd Hb|l p Hp [Hpne IH] Hl Hd Hb];
      rewrite cap_at_nullify in Hd, Hb; case_decide; try (by destruct Hd).
    + split; [done|by apply desc_child].
    + split; [done|]. rewrite cap_at_nullify, decide_False in Hb by done. by eapply desc_step.
  - intros [Hne Hd]. revert Hne.
    induction Hd as [l Hl Hd Hb|l p Hp IH Hl Hd Hb]; intros Hne.
    + apply desc_child; [done|..]; by rewrite cap_at_nullify, decide_False.
    + destruct (decide (p = l0)) as [->|Hp0].
      * apply desc_child; [done|..]; by rewrite cap_at_nullify, decide_False.
      * eapply desc_step; [by apply IH|done|..]; by rewrite !cap_at_nullify, !decide_False.
Qed.

(** What a successful revocation of a live target empties. *)
Definition revoked_slots (m : cmem) (V : list loc) (l0 l : loc) : Prop :=
  l = l0 \/ subtree m V (cap_at m l0).(serial) l.

Lemma unmarked_nullify m l : unmarked m -> unmarked (nullify m l).
Proof. intros Hu l'. rewrite cap_at_nullify. by case_decide. Qed.

Lemma rust_cap_revoke_global_spec c size slot ciu spaces st :
  unmarked st.(rs_mem) -> slot_in size slot = true ->
  is_primordial_root st.(rs_mem) c slot = false ->
  (cap_at st.(rs_mem) (c, slot)).(ctype) <> CAP_NULL ->
  (cap_at st.(rs_mem) (c, slot)).(serial) <> 0 ->
  let r := rust_cap_revoke_global (Some c) size slot ciu spaces st in
  r.1 = true
  /\ swept (revoked_slots st.(rs_mem) (visit spaces).*1 (c, slot)) st r.2.
Proof.
  intros Hu Hs Hp Ht Hser. set (l0 := (c, slot)) in *. set (V := (visit spaces).*1).
  unfold rust_cap_revoke_global. rewrite Hs, Hp. fold l0.
  rewrite (proj2 (Z.eqb_neq _ _) Ht). cbn [negb fst snd]. split; [done|].
  set (m := st.(rs_mem)) in *. set (ts := (cap_at m l0).(serial)) in *.
  set (st1 := mk_rs _ _ _).
  destruct (revoke_subtree_spec spaces ts (cap_at m l0).(object) st1) as [G K T C CL Z].
  { by apply unmarked_nullify. } { done. }
  fold V in G, K, T.
  assert (forall l, subtree st1.(rs_mem) V ts l <-> l <> l0 /\ subtree m V ts l) as HS.
  { intros l. unfold subtree. subst st1; cbn [rs_mem].
    pose proof (descendant_nullify m V l0 l Hser) as HD. fold ts in HD. rewrite HD.
    rewrite cap_at_nullify. case_decide as H; [|naive_solver]. simpl. naive_solver. }
  constructor.
  - intros l [->|Hl].
    + rewrite K; [|by rewrite HS; intros [? _]].
      unfold st1; cbn [rs_mem]. by rewrite cap_at_nullify, decide_True.
    + destruct (decide (l = l0)) as [->|Hne]; [|by apply G, HS].
      rewrite K; [|by rewrite HS; intros [? _]].
      unfold st1; cbn [rs_mem]. by rewrite cap_at_nullify, decide_True.
  - intros l Hl. unfold revoked_slots in Hl. rewrite K by (rewrite HS; tauto).
    unfold st1; cbn [rs_mem]. rewrite cap_at_nullify, decide_False by naive_solver. done.
  - destruct T as (N & HN & HI & HT). exists (l0 :: N).
    assert (l0 ∉ N) as Hl0 by (rewrite HI, HS; naive_solver).
    split_and!; [by constructor| |].
    + intros l. rewrite elem_of_cons, HI, HS. unfold revoked_slots.
      destruct (decide (l = l0)); tauto.
    + rewrite HT. unfold st1; cbn [rs_mem rs_tally]. unfold note_locs; simpl. fold m.
      apply note_locs_ext. intros l Hl. rewrite cap_at_nullify, decide_False; [done|].
      by intros <-.
  - intros t. destruct (C t) as [C1 C2]. destruct (dec_ciu_bounds ciu st.(rs_ciu) t) as (D1 & D2 & _).
    cbn [rs_ciu st1] in C1, C2. split; [by etrans|by intros ?%D2%C2].
  - rewrite CL. unfold st1; cbn [rs_ciu]. by destruct (dec_ciu_bounds ciu st.(rs_ciu) 0) as (_ & _ & ->).
  - intros c'. rewrite Z. unfold st1; cbn [rs_mem]. unfold nullify. by autorewrite with horus.
Qed.

(** ** The tally counts upwards from nothing *)
Definition tally_ok (t : option (list Z)) : Prop := forall cells j, t = Some cells -> 0 <= zget 0 cells j.

Lemma zget_zset_nonneg l i x j : (forall j, 0 <= zget 0 l j) -> 0 <= x -> 0 <= zget 0 (zset l i x) j.
Proof. intros Hl Hx. rewrite zget_zset. by case_bool_decide. Qed.
Lemma note_ok c t : tally_ok t -> tally_ok (note c t).
Proof.
  intros Ht cells j. destruct t as [cs|]; [|done]. unfold note. destruct (negb _); [by apply Ht|].
  intros [= <-]. assert (forall i, 0 <= zget 0 cs i) as H0 by (intros i; by apply Ht).
  unfold pipe_tally_note. cbv zeta. destruct (_ <=? _); [done|]. set (b := _ + (if _ =? 0 then 0 else 1)).
  assert (forall i, 0 <= zget 0 (zset cs b (sat_add_u32 (zget 0 cs b))) i) as H1.
  { intros i. apply zget_zset_nonneg; [done|]. specialize (H0 b). unfold sat_add_u32, U32_MAX.
    destruct (_ <=? _); lia. }
  repeat case_match; try apply H1; (apply zget_zset_nonneg; [exact H1|]); [apply u32_range|done].
Qed.
Lemma note_locs_ok m N t : tally_ok t -> tally_ok (note_locs m N t).
Proof. revert t. induction N as [|l N IH]; intros t Ht; [done|]. by apply IH, note_ok. Qed.

(** ** Revocation in general

    Whatever the target, a revocation only empties slots and never raises a
    counter. *)
Record only_empties (st st' : rstate) : Prop := {
  oe_slot : forall l, cap_at st'.(rs_mem) l = cap_at st.(rs_mem) l \/ cap_at st'.(rs_mem) l = null_cap;
  oe_ciu : forall t, zget 0 st'.(rs_ciu) t <= zget 0 st.(rs_ciu) t
      /\ (0 <= zget 0 st.(rs_ciu) t -> 0 <= zget 0 st'.(rs_ciu) t);
  oe_ciu_len : zlen st'.(rs_ciu) = zlen st.(rs_ciu);
  oe_size : forall c, zlen (space st'.(rs_mem) c) = zlen (space st.(rs_mem) c);
  oe_tally : tally_ok st.(rs_tally) -> tally_ok st'.(rs_tally)
}.

#[global] Instance only_empties_preorder : PreOrder only_empties.
Proof.
  split; [intros st; by constructor; auto|]. intros a b c [] []. constructor; try congruence; [| |by auto].
  - intros l. destruct (oe_slot1 l) as [->| ->]; [apply oe_slot0|by right].
  - intros t. specialize (oe_ciu0 t). specialize (oe_ciu1 t). lia.
Qed.

Lemma swept_only_empties gone st st' : swept gone st st' -> only_empties st st'.
Proof.
  intros [G K (N & _ & HN & HT) C L Z]. constructor; try done; [|rewrite HT; apply note_locs_ok]. intros l.
  destruct (decide (l ∈ N)) as [Hl|Hl]; [right; by apply G, HN|left; apply K; by rewrite <- HN].
Qed.

Lemma revoke_subtree_empties spaces ts obj st :
  unmarked st.(rs_mem) -> only_empties st (revoke_subtree spaces ts obj st).
Proof.
  intros Hu. destruct (decide (ts = 0)) as [->|Hts].
  - by eapply swept_only_empties, revoke_subtree_by_object.
  - by eapply swept_only_empties, revoke_subtree_spec.
Qed.

Lemma only_empties_unmarked st st' : only_empties st st' -> unmarked st.(rs_mem) -> unmarked st'.(rs_mem).
Proof. intros [H _ _ _ _] Hu l. destruct (H l) as [->| ->]; [apply Hu|done]. Qed.

(** The target itself goes first. *)
Lemma nullify_only_empties st l p c :
  only_empties st (mk_rs (nullify st.(rs_mem) l) (dec_ciu p st.(rs_ciu)) (note c st.(rs_tally))).
Proof.
  constructor; simpl.
  - intros l'. rewrite cap_at_nullify. case_decide; auto.
  - intros x. destruct (dec_ciu_bounds p st.(rs_ciu) x) as (? & ? & _). done.
  - by destruct (dec_ciu_bounds p st.(rs_ciu) 0) as (_ & _ & ->).
  - intros c'. unfold nullify. by autorewrite with horus.
  - apply note_ok.
Qed.

Lemma rust_cap_revoke_global_empties cs size slot ciu spaces st :
  unmarked st.(rs_mem) -> only_empties st (rust_cap_revoke_global cs size slot ciu spaces st).2.
Proof.
  intros Hu. unfold rust_cap_revoke_global. repeat (case_match; [done|]).
  destruct cs as [c|]; [|done]. repeat (case_match; [done|]). simpl.
  etrans; [|apply revoke_subtree_empties; by apply unmarked_nullify]. apply nullify_only_empties.
Qed.

Lemma rust_cap_revoke_empties cs size slot st :
  unmarked st.(rs_mem) -> only_empties st (rust_cap_revoke cs size slot st).2.
Proof.
  intros Hu. unfold rust_cap_revoke. destruct cs as [c|]; [|done]. repeat (case_match; [done|]). simpl.
  etrans; [|apply revoke_subtree_empties; by apply unmarked_nullify].
  apply (nullify_only_empties st (c, slot) None).
Qed.

(** ** The scratch array of a dying cspace *)

(** A dying capability's parent is older than it. *)
Definition pair_ok (p : Z * Z) : Prop := 0 <= p.2 /\ (p.2 = 0 \/ p.2 < p.1).

Lemma insert_back_perm k l : insert_back k l ≡ₚ k :: l.
Proof.
  induction l as [|p l IH]; simpl; [done|]. case_match; [|done]. rewrite IH. by apply Permutation_swap.
Qed.
Lemma sort_pairs_perm l : sort_pairs l ≡ₚ l.
Proof.
  unfold sort_pairs. rewrite reverse_Permutation.
  enough (forall acc, foldl (fun acc k => insert_back k acc) acc l ≡ₚ l ++ acc) as H
    by (rewrite H; by rewrite app_nil_r).
  induction l as [|k l IH]; intros acc; simpl; [done|].
  rewrite IH, insert_back_perm. by rewrite Permutation_middle.
Qed.

Lemma find_pair_Some fuel scratch s lo hi i :
  find_pair fuel scratch s lo hi = Some i -> lo <= i < hi /\ (zget (0, 0) scratch i).1 = s.
Proof.
  revert lo hi. induction fuel as [|fuel IH]; intros lo hi; simpl; [done|].
  destruct (Z.ltb_spec lo hi) as [Hlt|]; [|done].
  assert (lo <= lo + (hi - lo) / 2 < hi) as Hm.
  { pose proof (Z.div_pos (hi - lo) 2). pose proof (Z.div_lt (hi - lo) 2). lia. }
  destruct (Z.eqb_spec (zget (0, 0) scratch (lo + (hi - lo) / 2)).1 s) as [E|].
  - intros [= <-]. done.
  - case_match; intros [? ?]%IH; split; lia.
Qed.

Lemma scratch_find_Some scratch s i :
  scratch_find scratch s = Some i ->
  0 <= i < zlen scratch /\ zget (0, 0) scratch i ∈ scratch /\ (zget (0, 0) scratch i).1 = s.
Proof. intros [? ?]%find_pair_Some. split_and!; [lia..|by apply zget_elem|done]. Qed.

Lemma chase_le fuel scratch parent steps :
  Forall pair_ok scratch -> 0 <= parent -> 0 <= (chase fuel scratch parent steps).1 <= parent.
Proof.
  intros Hs. revert parent steps. induction fuel as [|fuel IH]; intros parent steps Hp; simpl; [lia|].
  case_match eqn:Hc; [|simpl; lia]. destruct (scratch_find scratch parent) as [x|] eqn:E; [|simpl; lia].
  apply scratch_find_Some in E as (_ & Hx & E1).
  pose proof (proj1 (Forall_forall _ _) Hs _ Hx) as [H1 H2]. rewrite E1 in H2.
  specialize (IH (zget (0, 0) scratch x).2 (steps + 1) H1). lia.
Qed.

(** One slot: its parent, if dying, is replaced by an older one. *)
Lemma reparent_visit_slot scratch acc l l' :
  Forall pair_ok scratch ->
  0 <= (cap_at acc.1 l).(badge) ->
  let m' := (reparent_visit scratch acc l).1 in
  cap_at m' l' = cap_at acc.1 l'
  \/ exists b, cap_at m' l' = set_badge (cap_at acc.1 l') b /\ 0 <= b < (cap_at acc.1 l').(badge).
Proof.
  intros Hs Hb. destruct acc as [m n]. cbn [fst] in *. unfold reparent_visit.
  destruct (_ || _) eqn:E; [by left|].
  apply orb_false_iff in E as [_ E%Z.eqb_neq].
  destruct (scratch_find _ _) as [i|] eqn:F; [|by left].
  apply scratch_find_Some in F as (_ & Hx & E1).
  pose proof (proj1 (Forall_forall _ _) Hs _ Hx) as [H1 H2]. rewrite E1 in H2.
  pose proof (chase_le (S (length scratch)) scratch _ 1 Hs H1) as Hc.
  destruct (chase _ _ _ _) as [p st]. cbn [fst] in Hc. destruct (zlen scratch <? st); [by left|].
  cbn [fst]. rewrite cap_at_put. case_decide as Hd; [|by left]. destruct Hd as [<- _]. right. exists p. split; [done|lia].
Qed.
