(* ===== verification/CapReparent.v ===== *)
(** Re-parenting (rust_cap_reparent_dying): when a cspace dies, the children of
    its capabilities move up to the nearest ancestor that survives, so that
    what a later revocation reaches among the survivors is what it would have
    reached before the death. *)
From stdpp Require Import sorting.
From S2P Require Import Prelude KTypes CapCore CapRevoke.

(** ** Specification *)

(** One edge of the dying part of the derivation forest. *)
Definition up (scratch : list (Z * Z)) (s b : Z) : Prop := (s, b) ∈ scratch.

(** [b] is where [s] leads when every dying parent is skipped. *)
Definition anc (scratch : list (Z * Z)) (s b : Z) : Prop :=
  rtc (up scratch) s b /\ (forall b', ~ up scratch b b').

(** The dying pairs a sweep can rely on: no serial twice, none zero, parents
    older. *)
Record scratch_ok (scratch : list (Z * Z)) : Prop := {
  so_nodup : NoDup scratch.*1;
  so_pos : Forall (fun p => 0 < p.1) scratch;
  so_pair : Forall pair_ok scratch
}.

Definition desc_le (a b : Z * Z) : Prop := b.1 <= a.1.

(** ** Sorting and searching *)
Lemma strongly_sorted_lookup {A} (R : A -> A -> Prop) l i j x y :
  StronglySorted R l -> (i < j)%nat -> l !! i = Some x -> l !! j = Some y -> R x y.
Proof.
  intros H. revert i j. induction H as [|a l HS IH HF]; intros i j Hij Hx Hy; [done|].
  destruct j as [|j]; [lia|]. destruct i as [|i]; simpl in *.
  - injection Hx as <-. rewrite Forall_forall in HF. apply HF. by eapply list_elem_of_lookup_2.
  - apply (IH i j); [lia|done..].
Qed.

Lemma insert_back_sorted k l : StronglySorted desc_le l -> StronglySorted desc_le (insert_back k l).
Proof.
  induction 1 as [|p l HS IH HF]; simpl; [by repeat constructor|].
  destruct (Z.ltb_spec k.1 p.1) as [Hlt|Hge].
  - constructor; [done|]. rewrite insert_back_perm. constructor; [unfold desc_le; lia|done].
  - constructor; [by constructor|]. constructor; [done|].
    eapply Forall_impl; [exact HF|]. intros q Hq. unfold desc_le in *. lia.
Qed.

Lemma insert_fold_sorted l acc :
  StronglySorted desc_le acc -> StronglySorted desc_le (foldl (fun acc k => insert_back k acc) acc l).
Proof.
  revert acc. induction l as [|k l IH]; intros acc H; simpl; [done|]. by apply IH, insert_back_sorted.
Qed.

Lemma length_sort_pairs l : length (sort_pairs l) = length l.
Proof. by rewrite sort_pairs_perm. Qed.

Lemma sort_pairs_sorted l i j :
  0 <= i < j -> j < zlen l ->
  (zget (0, 0) (sort_pairs l) i).1 <= (zget (0, 0) (sort_pairs l) j).1.
Proof.
  intros Hij Hj. pose proof (length_sort_pairs l) as HL. unfold zlen in Hj.
  unfold sort_pairs in *. set (D := foldl _ [] l) in *.
  assert (StronglySorted desc_le D) as HD by (apply insert_fold_sorted; constructor).
  rewrite length_reverse in HL. rewrite !zget_lookup by lia.
  rewrite !reverse_lookup by lia.
  destruct (D !! (length D - S (Z.to_nat i))%nat) as [x|] eqn:Ex; [|apply lookup_ge_None in Ex; lia].
  destruct (D !! (length D - S (Z.to_nat j))%nat) as [y|] eqn:Ey; [|apply lookup_ge_None in Ey; lia].
  simpl. eapply (strongly_sorted_lookup desc_le D _ _ y x HD); [|exact Ey|exact Ex]. lia.
Qed.

(** The binary search finds every serial the sorted array holds. *)
Lemma find_pair_complete fuel scratch s lo hi i :
  (forall a b, 0 <= a < b -> b < zlen scratch -> (zget (0, 0) scratch a).1 <= (zget (0, 0) scratch b).1) ->
  0 <= lo -> hi <= zlen scratch -> lo <= i < hi -> (zget (0, 0) scratch i).1 = s ->
  hi - lo < Z.of_nat fuel -> is_Some (find_pair fuel scratch s lo hi).
Proof.
  intros Hsort. revert lo hi. induction fuel as [|fuel IH]; intros lo hi Hlo Hhi Hi Hs Hf; simpl; [lia|].
  destruct (Z.ltb_spec lo hi) as [Hlt|]; [|lia].
  assert (lo <= lo + (hi - lo) / 2 < hi) as Hm.
  { pose proof (Z.div_pos (hi - lo) 2). pose proof (Z.div_lt (hi - lo) 2). lia. }
  set (mid := lo + (hi - lo) / 2) in *. clearbody mid.
  destruct (Z.eqb_spec (zget (0, 0) scratch mid).1 s) as [E|E]; [by eexists|].
  destruct (Z.ltb_spec (zget (0, 0) scratch mid).1 s) as [L|L].
  - apply IH; [lia..| |done|lia]. destruct (decide (mid < i)); [lia|].
    destruct (decide (i = mid)) as [->|]; [done|]. specialize (Hsort i mid). lia.
  - apply IH; [lia..| |done|lia]. destruct (decide (i < mid)); [lia|].
    destruct (decide (i = mid)) as [->|]; [done|]. specialize (Hsort mid i). lia.
Qed.

Lemma sort_scratch_find l s : scratch_find (sort_pairs l) s = None -> forall b, (s, b) ∉ l.
Proof.
  intros Hn b Hb. rewrite <- (sort_pairs_perm l) in Hb.
  destruct (elem_zget (0, 0) _ _ Hb) as (i & Hi & Ei).
  destruct (find_pair_complete (S (length (sort_pairs l))) (sort_pairs l) s 0 (zlen (sort_pairs l)) i)
    as [x Hx]; try lia.
  - intros a c Hac Hc. apply sort_pairs_sorted; [lia|]. unfold zlen in *. by rewrite length_sort_pairs in Hc.
  - by rewrite Ei.
  - unfold zlen. lia.
  - unfold scratch_find in Hn. by rewrite Hx in Hn.
Qed.

(** ** The chase *)

(** The dying serials not above [x]: what a chase can still meet. *)
Definition below (scratch : list (Z * Z)) (x : Z) : nat := length (filter (fun p => p.1 <= x) scratch).

Lemma below_step scratch s b : scratch_ok scratch -> up scratch s b -> (below scratch b < below scratch s)%nat.
Proof.
  intros [_ Hpos Hpair] Hup. unfold below.
  pose proof (proj1 (Forall_forall _ _) Hpair _ Hup) as [H1 H2]. simpl in H1, H2.
  pose proof (proj1 (Forall_forall _ _) Hpos _ Hup) as H0. simpl in H0.
  unfold up in Hup. clear Hpair. induction scratch as [|p l IH]; [by apply not_elem_of_nil in Hup|].
  apply Forall_cons in Hpos as [Hp Hpos]. rewrite !filter_cons.
  assert ((length (filter (fun p => (p.1 <= b)%Z) l) <= length (filter (fun p => (p.1 <= s)%Z) l))%nat) as Hle.
  { clear -H1 H2 H0. induction l as [|q l IH]; simpl; [lia|]. rewrite !filter_cons.
    repeat case_decide; simpl; lia. }
  apply elem_of_cons in Hup as [<-|Hup].
  - simpl. rewrite decide_False by lia. rewrite decide_True by lia. simpl. lia.
  - specialize (IH Hpos Hup). repeat case_decide; simpl; lia.
Qed.

Lemma below_le scratch x : (below scratch x <= length scratch)%nat.
Proof. apply length_filter. Qed.

Section chase.
Context (l : list (Z * Z)).
Let P : list (Z * Z) := sort_pairs l.
Hypothesis ok : scratch_ok P.

Lemma find_up s x : scratch_find P s = Some x -> up P s (zget (0, 0) P x).2.
Proof.
  intros (_ & Hx & E)%scratch_find_Some. unfold up. rewrite <- E. by destruct (zget (0, 0) P x).
Qed.
Lemma find_none s : scratch_find P s = None -> forall b, ~ up P s b.
Proof. intros Hn b Hb. apply (sort_scratch_find l s Hn b). unfold up, P in Hb. by rewrite sort_pairs_perm in Hb. Qed.
Lemma up_pos s b : up P s b -> 0 < s /\ 0 <= b.
Proof.
  intros H. split; [exact (proj1 (Forall_forall _ _) (so_pos _ ok) _ H)|].
  by destruct (proj1 (Forall_forall _ _) (so_pair _ ok) _ H).
Qed.
Lemma up_functional s b b' : up P s b -> up P s b' -> b = b'.
Proof.
  unfold up. intros [i Hi]%list_elem_of_lookup [j Hj]%list_elem_of_lookup.
  assert (i = j) as <-; [|congruence].
  apply (NoDup_lookup P.*1 i j s); [apply ok|..]; rewrite list_lookup_fmap; [by rewrite Hi|by rewrite Hj].
Qed.

(** Where a serial leads is unique. *)
Lemma anc_functional s b b' : anc P s b -> anc P s b' -> b = b'.
Proof.
  intros [H1 T1] [H2 T2]. induction H1 as [s|s c b Hsc Hcb IH].
  - destruct H2 as [|s c b' Hc _]; [done|]. by destruct (T1 c).
  - destruct H2 as [|s c' b' Hc' H2]; [by destruct (T2 c)|].
    rewrite (up_functional _ _ _ Hsc Hc') in *. by apply IH.
Qed.
Lemma anc_step s c b : up P s c -> anc P c b -> anc P s b.
Proof. intros Hu [H T]. split; [by eapply rtc_l|done]. Qed.
Lemma anc_refl s : (forall b, ~ up P s b) -> anc P s s.
Proof. intros H. by split. Qed.

(** The chase ends at the first surviving ancestor, within as many steps as
    there are dying capabilities. *)
Lemma chase_anc fuel parent steps :
  (below P parent < fuel)%nat -> steps + Z.of_nat (below P parent) <= zlen P ->
  let '(p, st) := chase fuel P parent steps in anc P parent p /\ st <= zlen P.
Proof.
  revert parent steps. induction fuel as [|fuel IH]; intros parent steps Hf Hs; [lia|]. cbn [chase].
  destruct (negb (parent =? 0) && (steps <=? zlen P)) eqn:Hc.
  - destruct (scratch_find P parent) as [x|] eqn:E.
    + apply find_up in E. pose proof (below_step _ _ _ ok E).
      specialize (IH (zget (0, 0) P x).2 (steps + 1)).
      destruct (chase fuel P _ _) as [p st]. destruct IH as [IH1 IH2]; [lia..|].
      split; [by eapply anc_step|done].
    + split; [by apply anc_refl, find_none|lia].
  - split; [|lia]. apply anc_refl. intros b [? _]%up_pos.
    apply andb_false_iff in Hc as [Hc%negb_false_iff%Z.eqb_eq|Hc%Z.leb_gt]; lia.
Qed.

(** What re-parenting makes of a capability. *)
Definition moved (c c' : capability) : Prop :=
  if decide (c.(ctype) = CAP_NULL \/ c.(badge) = 0) then c' = c
  else exists b, anc P c.(badge) b /\ c' = set_badge c b.

Lemma reparent_visit_moved acc v :
  moved (cap_at acc.1 v) (cap_at (reparent_visit P acc v).1 v)
  /\ (forall l', l' <> v -> cap_at (reparent_visit P acc v).1 l' = cap_at acc.1 l').
Proof.
  destruct acc as [m n]. cbn [fst]. unfold reparent_visit, moved. set (c := cap_at m v).
  destruct (_ || _) eqn:E.
  { split; [|done]. apply orb_true_iff in E. rewrite !Z.eqb_eq in E. by rewrite decide_True. }
  apply orb_false_iff in E as [E1%Z.eqb_neq E2%Z.eqb_neq]. rewrite decide_False by tauto.
  destruct (scratch_find P c.(badge)) as [x|] eqn:F.
  - apply find_up in F. pose proof (below_step _ _ _ ok F) as HB. pose proof (below_le P c.(badge)).
    pose proof (chase_anc (S (length P)) (zget (0, 0) P x).2 1) as HC.
    destruct (chase _ _ _ _) as [p st]. unfold zlen in HC. destruct HC as [HA HS]; [lia..|].
    destruct (Z.ltb_spec (zlen P) st) as [Hlt|_]; [unfold zlen in Hlt; lia|]. cbn [fst]. split.
    + exists p. rewrite cap_at_put_eq by (apply typed_slot_ok; done).
      split; [by eapply anc_step|done].
    + intros l' Hl. by rewrite cap_at_put_ne.
  - split; [|done]. exists c.(badge). split; [by apply anc_refl, find_none|].
    symmetry. apply set_badge_id.
Qed.

Lemma reparent_dying_fold V acc :
  forall l', if decide (l' ∈ V) then moved (cap_at acc.1 l') (cap_at (foldl (reparent_visit P) acc V).1 l')
             else cap_at (foldl (reparent_visit P) acc V).1 l' = cap_at acc.1 l'.
Proof.
  revert acc. induction V as [|v V IH]; intros acc l'; simpl; [done|].
  specialize (IH (reparent_visit P acc v) l').
  destruct (reparent_visit_moved acc v) as [Hv Hne].
  destruct (decide (l' = v)) as [->|Hlv].
  - rewrite decide_True by (by left). case_decide as HV; [|by rewrite IH].
    revert Hv IH. unfold moved. case_decide as H1.
    + intros ->. by rewrite decide_True.
    + intros (b & [Hb T] & ->). case_decide as H2; [intros ->; by exists b|].
      intros (b' & Hb' & ->). simpl in *. exists b. split; [done|].
      rewrite (anc_functional b b' b Hb'); [done|by apply anc_refl].
  - rewrite Hne in IH by done. case_decide as HV; [rewrite decide_True by (by right)|]; [done|].
    rewrite decide_False; [done|]. rewrite elem_of_cons. tauto.
Qed.
End chase.

(** ** The dying capabilities *)
Definition dying_slots (D : cref) (size : Z) : list loc :=
  (fun i => (D, i)) <$> seqZ 0 (if CNODE_SIZE <? size then CNODE_SIZE else size).
Definition live (c : capability) : Prop := c.(ctype) <> CAP_NULL /\ c.(serial) <> 0.
#[global] Instance live_dec c : Decision (live c).
Proof. unfold live. apply _. Defined.

Definition pair_of (m : cmem) (l : loc) : option (Z * Z) :=
  let c := cap_at m l in
  if (c.(ctype) =? CAP_NULL) || (c.(serial) =? 0) then None else Some (c.(serial), c.(badge)).

Lemma dying_pairs_omap m D size n :
  (Z.to_nat CNODE_SIZE <= n)%nat -> dying_pairs m D size n = omap (pair_of m) (dying_slots D size).
Proof.
  intros Hn. unfold dying_pairs, dying_slots. set (L := seqZ _ _).
  assert (length L <= n)%nat as HL.
  { unfold L. rewrite length_seqZ. destruct (Z.ltb_spec CNODE_SIZE size); lia. }
  clearbody L. set (f := fun acc i => _).
  enough (forall acc, (length acc + length L <= n)%nat ->
            foldl f acc L = acc ++ omap (pair_of m) ((fun i => (D, i)) <$> L)) as H by (apply H; simpl; lia).
  clear HL. induction L as [|i L IH]; intros acc Hacc; [by rewrite app_nil_r|]. simpl in Hacc. cbn [foldl].
  unfold f at 2. rewrite decide_False by lia. cbn [fmap list_fmap omap list_omap]. unfold pair_of at 1.
  destruct (_ || _).
  - apply IH. lia.
  - rewrite IH by (rewrite length_app; simpl; lia). by rewrite <- app_assoc.
Qed.

Lemma pair_of_Some m l s b :
  pair_of m l = Some (s, b) <-> live (cap_at m l) /\ (cap_at m l).(serial) = s /\ (cap_at m l).(badge) = b.
Proof.
  unfold pair_of, live. destruct (_ || _) eqn:E.
  - apply orb_true_iff in E. rewrite !Z.eqb_eq in E. split; [done|tauto].
  - apply orb_false_iff in E as [E1%Z.eqb_neq E2%Z.eqb_neq]. split; [intros [= <- <-]; tauto|].
    by intros (_ & -> & ->).
Qed.

(** ** Ancestry among the survivors *)
Section ancestry.
Context (m : cmem) (D : cref) (size : Z) (n : nat) (V : list loc).
Hypothesis room : (Z.to_nat CNODE_SIZE <= n)%nat.
Hypothesis V_alive : forall l, l ∈ V -> l.1 <> D.
(** No dying serial is anywhere else, and parents are older. *)
Hypothesis unique : forall l l', l ∈ dying_slots D size -> l' ∈ V ++ dying_slots D size ->
  live (cap_at m l) -> live (cap_at m l') -> (cap_at m l).(serial) = (cap_at m l').(serial) -> l = l'.
Hypothesis older : forall l, l ∈ dying_slots D size -> live (cap_at m l) ->
  0 < (cap_at m l).(serial) /\ pair_ok ((cap_at m l).(serial), (cap_at m l).(badge)).

Let W := dying_slots D size.
Let P := sort_pairs (dying_pairs m D size n).

Lemma up_slot s b :
  up P s b <-> exists l, l ∈ W /\ live (cap_at m l) /\ (cap_at m l).(serial) = s /\ (cap_at m l).(badge) = b.
Proof.
  unfold up, P. rewrite sort_pairs_perm, dying_pairs_omap by done. rewrite list_elem_of_omap.
  setoid_rewrite pair_of_Some. done.
Qed.

Lemma NoDup_dying_slots : NoDup W.
Proof. unfold W, dying_slots. apply NoDup_fmap_2; [intros ? ? [= ?]; done|apply NoDup_seqZ]. Qed.

Lemma NoDup_dying_serials L :
  NoDup L -> (forall l, l ∈ L -> l ∈ dying_slots D size) -> NoDup (omap (pair_of m) L).*1.
Proof.
  intros HN HW. induction HN as [|l L Hl HN IH]; [constructor|]. cbn [omap list_omap].
  destruct (pair_of m l) as [[s b]|] eqn:E; [|apply IH; intros; apply HW; by right].
  cbn [fmap list_fmap]. constructor; [|apply IH; intros; apply HW; by right].
  intros ([s' b'] & Hs & (l' & Hl' & E')%list_elem_of_omap)%list_elem_of_fmap. simpl in Hs. subst s'.
  apply pair_of_Some in E as (A1 & A2 & _), E' as (B1 & B2 & _).
  destruct Hl. rewrite (unique l l'); [done|apply HW; by left| |done|done|congruence].
  apply elem_of_app; right. apply HW. by right.
Qed.

Lemma dying_scratch_ok : scratch_ok P.
Proof.
  constructor.
  - unfold P. rewrite sort_pairs_perm, dying_pairs_omap by done.
    by apply NoDup_dying_serials; [apply NoDup_dying_slots|].
  - apply Forall_forall. intros [s b] (l & Hl & HL & <- & _)%up_slot. by destruct (older l).
  - apply Forall_forall. intros [s b] (l & Hl & HL & <- & <-)%up_slot. by destruct (older l).
Qed.

Let anc_P := anc P.

Lemma no_up_zero b : ~ up P 0 b.
Proof. intros [? _]%(up_pos _ dying_scratch_ok). lia. Qed.

(** From the new forest to the old: a climb through dying parents. *)
Lemma climb ts s b :
  rtc (up P) s b -> b <> 0 ->
  (b = ts \/ exists p, descendant m (V ++ W) ts p /\ (cap_at m p).(serial) = b) ->
  forall l, (cap_at m l).(badge) = s -> l ∈ V ++ W -> derived_live (cap_at m l) ->
  descendant m (V ++ W) ts l.
Proof.
  induction 1 as [s|s c b Hsc Hcb IH]; intros Hb Hroot l Es Hl Hd.
  - destruct Hroot as [->|(p & Hp & E)]; [by apply desc_child|]. apply (desc_step m (V ++ W) ts l p); [done..|congruence].
  - pose proof Hsc as (q & Hq & HQ & E1 & E2)%up_slot.
    assert (c <> 0) as Hc0.
    { intros Hc. destruct Hcb as [|? ? ? H0 _]; [by destruct Hb|]. rewrite Hc in H0. by apply no_up_zero in H0. }
    apply (desc_step m (V ++ W) ts l q); [|done..|congruence].
    apply (IH Hb Hroot q E2); [apply elem_of_app; by right|].
    destruct HQ. unfold derived_live. split_and!; congruence.
Qed.

Context (m' : cmem).
Hypothesis moves : forall l, l ∈ V -> moved (dying_pairs m D size n) (cap_at m l) (cap_at m' l).

Lemma moved_fields c c' :
  moved (dying_pairs m D size n) c c' -> c'.(ctype) = c.(ctype) /\ c'.(serial) = c.(serial).
Proof. unfold moved. case_decide; [by intros ->|]. by intros (b & _ & ->). Qed.

(** A survivor that hangs somewhere in the new forest hangs, climbing from its
    old parent, in the old one. *)
Lemma moved_parent l :
  l ∈ V -> derived_live (cap_at m' l) ->
  derived_live (cap_at m l) /\ anc P (cap_at m l).(badge) (cap_at m' l).(badge).
Proof.
  intros Hl (H1 & H2 & H3). specialize (moves l Hl).
  destruct (moved_fields _ _ moves) as [E1 E2]. rewrite E1 in H1. rewrite E2 in H2.
  unfold moved in moves. case_decide as Hd.
  - rewrite moves in H3. destruct Hd; tauto.
  - destruct moves as (b & Hb & E). rewrite E. simpl. split; [|done]. unfold derived_live. tauto.
Qed.

Lemma ancestry_back ts l : ts <> 0 -> descendant m' V ts l -> descendant m (V ++ W) ts l.
Proof.
  intros Hts. induction 1 as [l Hl Hd Hb|l p Hp IH Hl Hd Hb];
    destruct (moved_parent l Hl Hd) as [Hd' [HA _]].
  - rewrite Hb in HA. apply (climb ts _ _ HA Hts); [by left|done|apply elem_of_app; by left|done].
  - assert (p ∈ V) as HpV by (by apply descendant_live in Hp as [? _]).
    destruct (moved_fields _ _ (moves p HpV)) as [_ Ep]. rewrite Hb, Ep in HA.
    apply (climb ts _ _ HA); [|right; by exists p|done|apply elem_of_app; by left|done].
    intros H0. apply Hd. by rewrite Hb, Ep.
Qed.

(** What a slot's serial leads to in the new forest. *)
Definition reaches (ts b : Z) : Prop :=
  b = ts \/ exists p, p ∈ V /\ descendant m' V ts p /\ (cap_at m' p).(serial) = b.

Lemma survivor_moves ts l b :
  ts <> 0 -> l ∈ V -> derived_live (cap_at m l) -> anc P (cap_at m l).(badge) b -> b <> 0 ->
  reaches ts b -> descendant m' V ts l.
Proof.
  intros Hts Hl (H1 & H2 & H3) HA Hb HR. specialize (moves l Hl).
  destruct (moved_fields _ _ moves) as [E1 E2]. unfold moved in moves. rewrite decide_False in moves by tauto.
  destruct moves as (b' & HA' & E).
  rewrite (anc_functional _ dying_scratch_ok _ _ _ HA HA') in Hb, HR.
  assert (derived_live (cap_at m' l)) as Hd by (rewrite E; unfold derived_live; simpl; tauto).
  destruct HR as [->|(p & Hp & Hpd & Es)].
  - apply desc_child; [done..|]. by rewrite E.
  - apply (desc_step m' V ts l p); [done..|]. rewrite E. simpl. done.
Qed.

Lemma ancestry_forth ts l :
  ts <> 0 -> (forall b, ~ up P ts b) -> descendant m (V ++ W) ts l ->
  (l ∈ V -> descendant m' V ts l)
  /\ (l ∈ W -> exists b, anc P (cap_at m l).(serial) b /\ b <> 0 /\ reaches ts b).
Proof.
  intros Hts Hsurv. induction 1 as [l Hl Hd Hb|l p Hp [IHV IHW] Hl Hd Hb].
  - assert (anc P (cap_at m l).(badge) ts) as HA by (rewrite Hb; by apply anc_refl). split; intros HL.
    + by apply (survivor_moves ts l ts); [..|left].
    + exists ts. split_and!; [|done|by left]. destruct Hd as (? & ? & _).
      apply (anc_step _ _ (cap_at m l).(badge)); [|done]. apply up_slot. by exists l.
  - assert (exists b, anc P (cap_at m l).(badge) b /\ b <> 0 /\ reaches ts b) as (b & HA & Hb0 & HR).
    { rewrite Hb. pose proof (descendant_live _ _ _ _ Hp) as [HpL (P1 & P2 & _)].
      apply elem_of_app in HpL as [HpV|HpW]; [|by apply IHW].
      specialize (IHV HpV). destruct (moved_fields _ _ (moves p HpV)) as [_ Es].
      exists (cap_at m p).(serial). split_and!; [|done|right; by exists p].
      apply anc_refl. intros b (q & Hq & HQ & E & _)%up_slot.
      assert (q = p) as -> by (apply unique; [done|apply elem_of_app; by left|done|done|done]).
      apply (V_alive p HpV). apply list_elem_of_fmap in Hq as (i & -> & _). done. }
    split; intros HL; [by apply (survivor_moves ts l b)|].
    exists b. split_and!; [|done..]. destruct Hd as (? & ? & _).
    apply (anc_step _ _ (cap_at m l).(badge)); [|done]. apply up_slot. by exists l.
Qed.
End ancestry.

(** ** The whole operation *)
Definition surviving_slots (D : cref) (spaces : list CSpaceDesc) : list loc :=
  (visit (filter (fun d => d.(d_caps) <> Some D) spaces)).*1.

Lemma surviving_not_dying D spaces l : l ∈ surviving_slots D spaces -> l.1 <> D.
Proof.
  unfold surviving_slots, visit. intros ([l0 p] & -> & Hv)%list_elem_of_fmap.
  apply list_elem_of_bind in Hv as (d & Hl & [Hd _]%list_elem_of_filter).
  unfold desc_locs in Hl. destruct (d_caps d) as [c|] eqn:E; [|by apply not_elem_of_nil in Hl].
  apply list_elem_of_fmap in Hl as (i & [= -> _] & _). simpl. congruence.
Qed.

Lemma reparent_moves m D size spaces len :
  let n := Z.to_nat (len / 2) in
  let m' := (rust_cap_reparent_dying m D size spaces len).1 in
  scratch_ok (sort_pairs (dying_pairs m D size n)) ->
  (forall l, l ∈ surviving_slots D spaces -> moved (dying_pairs m D size n) (cap_at m l) (cap_at m' l))
  /\ (forall l, l ∉ surviving_slots D spaces -> cap_at m' l = cap_at m l).
Proof.
  intros n m' Hok. unfold m', rust_cap_reparent_dying. fold n. case_bool_decide as Hp.
  - split; [|done]. intros l _. unfold moved. case_decide; [done|]. exists (cap_at m l).(badge).
    rewrite set_badge_id. split; [|done]. apply anc_refl. intros b. unfold up. rewrite Hp. apply not_elem_of_nil.
  - pose proof (reparent_dying_fold _ Hok (surviving_slots D spaces) (m, 0)) as HF. cbn [fst] in HF.
    split; intros l Hl; specialize (HF l).
    + by rewrite decide_True in HF.
    + by rewrite decide_False in HF.
Qed.

(** The hypotheses of a safe death: no dying serial is held by a survivor too,
    and every dying capability is younger than its parent. *)
Record death_ok (m : cmem) (D : cref) (size : Z) (V : list loc) : Prop := {
  do_unique : forall l l', l ∈ dying_slots D size -> l' ∈ V ++ dying_slots D size ->
    live (cap_at m l) -> live (cap_at m l') -> (cap_at m l).(serial) = (cap_at m l').(serial) -> l = l';
  do_older : forall l, l ∈ dying_slots D size -> live (cap_at m l) ->
    0 < (cap_at m l).(serial) /\ pair_ok ((cap_at m l).(serial), (cap_at m l).(badge))
}.

Lemma reparent_ancestry m D size spaces len ts l :
  2 * CNODE_SIZE <= len -> death_ok m D size (surviving_slots D spaces) ->
  ts <> 0 -> (forall p, p ∈ dying_slots D size -> live (cap_at m p) -> (cap_at m p).(serial) <> ts) ->
  l ∈ surviving_slots D spaces ->
  descendant (rust_cap_reparent_dying m D size spaces len).1 (surviving_slots D spaces) ts l
  <-> descendant m (surviving_slots D spaces ++ dying_slots D size) ts l.
Proof.
  intros Hlen [HU HO] Hts Hsurv Hl.
  assert (Z.to_nat CNODE_SIZE <= Z.to_nat (len / 2))%nat as Hroom.
  { apply Z2Nat.inj_le; [done|apply Z.div_pos; unfold CNODE_SIZE in *; lia|].
    apply Z.div_le_lower_bound; lia. }
  pose proof (dying_scratch_ok m D size _ _ Hroom HU HO) as Hok.
  destruct (reparent_moves m D size spaces len Hok) as [HM _]. split.
  - by apply (ancestry_back m D size _ _ Hroom HU HO _ HM).
  - intros Hd. eapply (ancestry_forth m D size _ _ Hroom (surviving_not_dying D spaces) HU HO _ HM);
      [done| |exact Hd|done].
    intros b (p & Hp & HL & E & _)%(up_slot m D size _ Hroom). by apply (Hsurv p).
Qed.
