(* ===== verification/Pipe.v ===== *)
(** The pipe table (src/src/kernel/pipe.c): allocation with a generation per
    use, the counts of live ends, the byte ring, and the release of the ends a
    revocation removed.  The ring refines a bounded byte queue. *)
From S2P Require Import Prelude KTypes CapCore CapRevoke.

Definition MAX_PIPES : Z := 32.
Definition PIPE_BUF_BYTES : Z := 4096.
Definition PIPE_IO_CHUNK : Z := 1024.

(** struct pipe *)
Record pipe := mk_pipe {
  in_use : bool;
  gen : Z;
  head : Z;
  count : Z;
  reader_ends : Z;
  writer_ends : Z;
  buf : list Z
}.
Definition pipe_zero : pipe :=
  mk_pipe false 0 0 0 0 0 (replicate (Z.to_nat PIPE_BUF_BYTES) 0).

(** PIPE_OBJ and its inverses. *)
Definition PIPE_OBJ (idx gen : Z) : Z := Z.lor (Z.shiftl (u32 gen) 32) (u32 idx).
Definition PIPE_OBJ_IDX (obj : Z) : Z := Z.land obj 0xFFFFFFFF.
Definition PIPE_OBJ_GEN (obj : Z) : Z := u32 (Z.shiftr obj 32).

Definition pipe_at (ps : list pipe) (i : Z) : pipe := zget pipe_zero ps i.

(** ** Allocation *)
Definition next_gen (g : Z) : Z :=
  let g := u32 (g + 1) in
  if (g =? 0) || (g =? PIPE_TALLY_GEN_MIXED) then 1 else g.

(** The object of the new pipe, or 0, and the table after. *)
Definition pipe_alloc (ps : list pipe) : Z * list pipe :=
  match find_index (fun i => negb (pipe_at ps i).(in_use)) 0 (Z.to_nat MAX_PIPES) with
  | None => (0, ps)
  | Some i =>
      let p := pipe_at ps i in
      let g := next_gen p.(gen) in
      (PIPE_OBJ i g, zset ps i (mk_pipe true g 0 0 0 0 p.(buf)))
  end.

(** The index of the pipe [obj] names, or None. *)
Definition pipe_of (ps : list pipe) (obj : Z) : option Z :=
  let idx := PIPE_OBJ_IDX obj in
  if MAX_PIPES <=? idx then None else
  let p := pipe_at ps idx in
  if negb p.(in_use) then None else
  if negb (p.(gen) =? PIPE_OBJ_GEN obj) then None else
  Some idx.

(** ** End counts *)
Definition set_ends (p : pipe) (r w : Z) : pipe :=
  mk_pipe p.(in_use) p.(gen) p.(head) p.(count) r w p.(buf).

Definition add_end (p : pipe) (is_writer : bool) : pipe :=
  if is_writer then set_ends p p.(reader_ends) (u32 (p.(writer_ends) + 1))
  else set_ends p (u32 (p.(reader_ends) + 1)) p.(writer_ends).

Definition pipe_end_ref (ps : list pipe) (obj : Z) (is_writer : bool) : bool * list pipe :=
  match pipe_of ps obj with
  | Some i => (true, zset ps i (add_end (pipe_at ps i) is_writer))
  | None => (false, ps)
  end.

Definition pipe_free_if_unheld (p : pipe) : pipe :=
  if (p.(reader_ends) =? 0) && (p.(writer_ends) =? 0)
  then mk_pipe false p.(gen) 0 0 p.(reader_ends) p.(writer_ends)
               (replicate (Z.to_nat PIPE_BUF_BYTES) 0)
  else p.

Definition dec_end (x : Z) : Z := if x =? 0 then x else x - 1.

Definition pipe_end_unref (ps : list pipe) (obj : Z) (is_writer : bool) : list pipe :=
  match pipe_of ps obj with
  | Some i =>
      let p := pipe_at ps i in
      let p := if is_writer then set_ends p p.(reader_ends) (dec_end p.(writer_ends))
               else set_ends p (dec_end p.(reader_ends)) p.(writer_ends) in
      zset ps i (pipe_free_if_unheld p)
  | None => ps
  end.

(** ** Ends removed by a revocation *)
Definition sub_ends (have n : Z) : Z := if have <? n then 0 else have - n.

Definition release_one (tally : list Z) (acc : bool * list pipe) (i : Z) : bool * list pipe :=
  let '(exact, ps) := acc in
  let readers := zget 0 tally (PIPE_TALLY_CELLS * i) in
  let writers := zget 0 tally (PIPE_TALLY_CELLS * i + 1) in
  let g := zget 0 tally (PIPE_TALLY_CELLS * i + 2) in
  if (readers =? 0) && (writers =? 0) then acc else
  match (if g =? PIPE_TALLY_GEN_MIXED then None else pipe_of ps (PIPE_OBJ i g)) with
  | None => (false, ps)
  | Some k =>
      let p := pipe_at ps k in
      (exact && negb ((p.(reader_ends) <? readers) || (p.(writer_ends) <? writers)),
       zset ps k (pipe_free_if_unheld
                    (set_ends p (sub_ends p.(reader_ends) readers)
                              (sub_ends p.(writer_ends) writers))))
  end.

Definition pipe_release_revoked_ends (ps : list pipe) (tally : option (list Z))
  : bool * list pipe :=
  match tally with
  | None => (true, ps)
  | Some t =>
      let n := zlen t / PIPE_TALLY_CELLS in
      let n := if MAX_PIPES <? n then MAX_PIPES else n in
      foldl (release_one t) (true, ps) (seqZ 0 n)
  end.

(** ** Moving bytes

    The result is the return value, the bytes copied out, and the table. *)
Definition ring_get (p : pipe) (i : Z) : Z := zget 0 p.(buf) ((p.(head) + i) mod PIPE_BUF_BYTES).

Definition pipe_read_bytes (ps : list pipe) (obj len : Z) : Z * list Z * list pipe :=
  match pipe_of ps obj with
  | None => (SYS_ERR_INVAL, [], ps)
  | Some k =>
      let p := pipe_at ps k in
      if p.(count) =? 0 then
        (if p.(writer_ends) =? 0 then 0 else SYS_ERR_AGAIN, [], ps)
      else
        let n := if p.(count) <? len then p.(count) else len in
        (n, ring_get p <$> seqZ 0 n,
         zset ps k (mk_pipe p.(in_use) p.(gen) ((p.(head) + n) mod PIPE_BUF_BYTES)
                            (p.(count) - n) p.(reader_ends) p.(writer_ends) p.(buf)))
  end.

Definition ring_put (b : list Z) (tail : Z) (src : list Z) (n : Z) : list Z :=
  foldl (fun b i => zset b ((tail + i) mod PIPE_BUF_BYTES) (zget 0 src i)) b (seqZ 0 n).

(** [len] is the length of [src]. *)
Definition pipe_write_bytes (ps : list pipe) (obj : Z) (src : list Z) : Z * list pipe :=
  match pipe_of ps obj with
  | None => (SYS_ERR_INVAL, ps)
  | Some k =>
      let p := pipe_at ps k in
      if p.(reader_ends) =? 0 then (SYS_ERR_PIPE, ps) else
      let space := PIPE_BUF_BYTES - p.(count) in
      if space =? 0 then (SYS_ERR_AGAIN, ps) else
      let len := zlen src in
      let n := if len <? space then len else space in
      let tail := (p.(head) + p.(count)) mod PIPE_BUF_BYTES in
      (n, zset ps k (mk_pipe p.(in_use) p.(gen) p.(head) (p.(count) + n)
                             p.(reader_ends) p.(writer_ends) (ring_put p.(buf) tail src n)))
  end.

(** ** Well-formedness

    Offsets stay in the ring, and a pipe that is not in use holds nothing of
    its last use. *)
Record pipe_wf (p : pipe) : Prop := {
  wf_head : 0 <= p.(head) < PIPE_BUF_BYTES;
  wf_count : 0 <= p.(count) <= PIPE_BUF_BYTES;
  wf_buf : zlen p.(buf) = PIPE_BUF_BYTES;
  wf_gen : 0 <= p.(gen) < PIPE_TALLY_GEN_MIXED;
  wf_ends : 0 <= p.(reader_ends) <= U32_MAX /\ 0 <= p.(writer_ends) <= U32_MAX;
  wf_free : p.(in_use) = false ->
    p.(count) = 0 /\ p.(buf) = replicate (Z.to_nat PIPE_BUF_BYTES) 0;
  wf_live : p.(in_use) = true -> p.(gen) <> 0
}.
Definition pipes_wf (ps : list pipe) : Prop :=
  zlen ps = MAX_PIPES /\ forall i, pipe_wf (pipe_at ps i).

(** The bytes buffered in a pipe, oldest first. *)
Definition contents (p : pipe) : list Z := ring_get p <$> seqZ 0 p.(count).

(** ** Object encoding *)
Lemma PIPE_OBJ_split i g :
  0 <= i <= U32_MAX -> 0 <= g <= U32_MAX ->
  PIPE_OBJ_IDX (PIPE_OBJ i g) = i /\ PIPE_OBJ_GEN (PIPE_OBJ i g) = g.
Proof.
  intros Hi Hg. unfold PIPE_OBJ_IDX, PIPE_OBJ_GEN, PIPE_OBJ. rewrite !u32_id by done.
  unfold U32_MAX in *.
  assert (Z.shiftr i 32 = 0) as Hs by (rewrite Z.shiftr_div_pow2 by lia; apply Z.div_small; lia).
  split.
  - rewrite Z.land_lor_distr_l. fold (u32 (Z.shiftl g 32)) (u32 i).
    rewrite (u32_id i), u32_mod, Z.shiftl_mul_pow2, Z_mod_mult by done. done.
  - rewrite Z.shiftr_lor, Hs, Z.lor_0_r, Z.shiftr_shiftl_l by lia. simpl. by apply u32_id.
Qed.

Lemma PIPE_OBJ_IDX_nonneg obj : 0 <= PIPE_OBJ_IDX obj.
Proof. apply u32_range. Qed.

Lemma pipe_of_Some ps obj k :
  pipe_of ps obj = Some k <->
  k = PIPE_OBJ_IDX obj /\ 0 <= k < MAX_PIPES
  /\ (pipe_at ps k).(in_use) = true /\ (pipe_at ps k).(gen) = PIPE_OBJ_GEN obj.
Proof.
  unfold pipe_of. pose proof (PIPE_OBJ_IDX_nonneg obj).
  destruct (Z.leb_spec MAX_PIPES (PIPE_OBJ_IDX obj)); [naive_solver lia|].
  destruct (in_use _) eqn:E1; simpl; [|naive_solver congruence].
  destruct (Z.eqb_spec (pipe_at ps (PIPE_OBJ_IDX obj)).(gen) (PIPE_OBJ_GEN obj)); simpl;
    naive_solver congruence.
Qed.

Lemma pipe_at_zset ps k p i :
  pipe_at (zset ps k p) i = if bool_decide (k = i /\ 0 <= k < zlen ps) then p else pipe_at ps i.
Proof. apply zget_zset. Qed.

Lemma pipes_wf_zset ps k p : pipes_wf ps -> pipe_wf p -> pipes_wf (zset ps k p).
Proof.
  intros [Hl Hw] Hp. split; [by rewrite zlen_zset|]. intros i. rewrite pipe_at_zset.
  case_bool_decide; [done|apply Hw].
Qed.

Lemma pipe_zero_wf : pipe_wf pipe_zero.
Proof. constructor; simpl; try done; autorewrite with horus; unfold PIPE_BUF_BYTES; lia. Qed.

(** ** The ring *)
Lemma ring_mod a : 0 <= a < 2 * PIPE_BUF_BYTES ->
  a mod PIPE_BUF_BYTES = if a <? PIPE_BUF_BYTES then a else a - PIPE_BUF_BYTES.
Proof.
  unfold PIPE_BUF_BYTES. intros H. destruct (Z.ltb_spec a 4096); [apply Z.mod_small; lia|].
  rewrite <- (Z_mod_plus_full a (-1)). apply Z.mod_small. lia.
Qed.

Lemma seqZ_snoc n : 0 <= n -> seqZ 0 (n + 1) = seqZ 0 n ++ [n].
Proof. intros. rewrite seqZ_app by lia. by rewrite Z.add_0_l. Qed.

Lemma zlen_ring_put b tail src n : zlen (ring_put b tail src n) = zlen b.
Proof.
  unfold ring_put. revert b. induction (seqZ 0 n) as [|i l IH]; intros b; simpl; [done|].
  by rewrite IH, zlen_zset.
Qed.

Lemma ring_put_get b tail src n :
  zlen b = PIPE_BUF_BYTES -> 0 <= tail < PIPE_BUF_BYTES -> 0 <= n <= PIPE_BUF_BYTES ->
  forall j, 0 <= j < PIPE_BUF_BYTES ->
  zget 0 (ring_put b tail src n) ((tail + j) mod PIPE_BUF_BYTES)
  = if j <? n then zget 0 src j else zget 0 b ((tail + j) mod PIPE_BUF_BYTES).
Proof.
  intros Hb Ht Hn j Hj. destruct Hn as [Hn0 Hn]. revert Hn.
  pattern n. apply natlike_ind; [|intros k Hk IH|done]; clear n Hn0; intros Hn.
  { destruct (Z.ltb_spec j 0); [lia|done]. }
  unfold ring_put. rewrite <- Z.add_1_r, seqZ_snoc, foldl_app by lia. simpl.
  fold (ring_put b tail src k). rewrite zget_zset, zlen_ring_put.
  case_bool_decide as Hc.
  - destruct Hc as [Hc _]. rewrite !ring_mod in Hc by lia.
    assert (k = j) as -> by (repeat case_match; lia).
    destruct (Z.ltb_spec j (j + 1)); [done|lia].
  - rewrite IH by lia. destruct (Z.ltb_spec j k), (Z.ltb_spec j (k + 1)); try done; [lia|].
    assert (k = j) as -> by lia. destruct Hc. split; [done|].
    rewrite Hb. apply Z.mod_pos_bound. by unfold PIPE_BUF_BYTES.
Qed.

Lemma fmap_zget_take (src : list Z) n :
  0 <= n <= zlen src -> zget 0 src <$> seqZ 0 n = take (Z.to_nat n) src.
Proof.
  unfold zlen. intros H. apply list_eq. intros i. rewrite list_lookup_fmap.
  destruct (decide (i < Z.to_nat n)%nat).
  - rewrite (proj2 (lookup_seqZ 0 n i (0 + Z.of_nat i))) by lia. simpl.
    rewrite lookup_take_lt, zget_lookup by lia. replace (Z.to_nat (0 + Z.of_nat i)) with i by lia.
    destruct (lookup_lt_is_Some_2 src i) as [x ->]; [lia|done].
  - rewrite lookup_take_ge by lia. rewrite lookup_seqZ_ge by lia. done.
Qed.

Lemma length_contents p : 0 <= p.(count) -> zlen (contents p) = p.(count).
Proof. intros. unfold zlen, contents. rewrite length_fmap, length_seqZ. lia. Qed.

(** ** The byte queue the ring implements *)
Definition after_read (p : pipe) (n : Z) : pipe :=
  mk_pipe p.(in_use) p.(gen) ((p.(head) + n) mod PIPE_BUF_BYTES) (p.(count) - n)
          p.(reader_ends) p.(writer_ends) p.(buf).
Definition after_write (p : pipe) (src : list Z) (n : Z) : pipe :=
  mk_pipe p.(in_use) p.(gen) p.(head) (p.(count) + n) p.(reader_ends) p.(writer_ends)
          (ring_put p.(buf) ((p.(head) + p.(count)) mod PIPE_BUF_BYTES) src n).

Lemma mod_ring a : 0 <= a mod PIPE_BUF_BYTES < PIPE_BUF_BYTES.
Proof. apply Z.mod_pos_bound. by unfold PIPE_BUF_BYTES. Qed.

Lemma after_read_wf p n :
  pipe_wf p -> p.(in_use) = true -> 0 <= n <= p.(count) -> pipe_wf (after_read p n).
Proof.
  intros [? ? ? ? ? ? ?] Hu Hn. constructor; simpl; try done; [apply mod_ring|lia|congruence].
Qed.

Lemma after_write_wf p src n :
  pipe_wf p -> p.(in_use) = true -> 0 <= n <= PIPE_BUF_BYTES - p.(count) ->
  pipe_wf (after_write p src n).
Proof.
  intros [? ? ? ? ? ? ?] Hu Hn.
  constructor; simpl; try done; [lia|by rewrite zlen_ring_put|congruence].
Qed.

(** Reading removes a prefix of the queue. *)
Lemma contents_after_read p n :
  0 <= n <= p.(count) ->
  contents p = (ring_get p <$> seqZ 0 n) ++ contents (after_read p n).
Proof.
  intros Hn. unfold contents; simpl.
  replace p.(count) with (n + (p.(count) - n)) at 1 by lia.
  rewrite seqZ_app, fmap_app by lia. f_equal. rewrite Z.add_0_l.
  rewrite <- (Z.add_0_r n) at 1. rewrite <- fmap_add_seqZ, <- list_fmap_compose.
  apply list_fmap_ext. intros _ i _. unfold ring_get; simpl.
  by rewrite Zplus_mod_idemp_l, <- Z.add_assoc.
Qed.

(** Writing appends what it accepts. *)
Lemma contents_after_write p src n :
  pipe_wf p -> 0 <= n <= zlen src -> n <= PIPE_BUF_BYTES - p.(count) ->
  contents (after_write p src n) = contents p ++ take (Z.to_nat n) src.
Proof.
  intros [Hh Hc Hb _ _ _ _] Hn Hs. unfold contents; simpl.
  rewrite seqZ_app, fmap_app, <- fmap_zget_take by lia. f_equal.
  - apply list_fmap_ext. intros k i Hk. apply lookup_seqZ in Hk as [-> Hk].
    unfold ring_get; simpl. rewrite Z.add_0_l. set (i := Z.of_nat k).
    set (tail := (p.(head) + p.(count)) mod PIPE_BUF_BYTES).
    (* the old bytes lie at offsets [n, ...) from the tail *)
    pose proof (mod_ring (p.(head) + p.(count))) as Ht. fold tail in Ht.
    set (j := PIPE_BUF_BYTES - p.(count) + i).
    assert ((tail + j) mod PIPE_BUF_BYTES = (p.(head) + i) mod PIPE_BUF_BYTES) as <-.
    { subst tail j. rewrite Zplus_mod_idemp_l.
      replace (p.(head) + p.(count) + (PIPE_BUF_BYTES - p.(count) + i))
        with (p.(head) + i + 1 * PIPE_BUF_BYTES) by lia. apply Z_mod_plus_full. }
    rewrite ring_put_get by lia. by destruct (Z.ltb_spec j n); [lia|].
  - rewrite <- (Z.add_0_r (0 + p.(count))), <- fmap_add_seqZ, <- list_fmap_compose.
    apply list_fmap_ext. intros k i Hk. apply lookup_seqZ in Hk as [-> Hk].
    unfold ring_get; simpl.
    replace (p.(head) + (0 + p.(count) + (0 + Z.of_nat k)))
      with (p.(head) + p.(count) + Z.of_nat k) by lia.
    rewrite <- (Zplus_mod_idemp_l (p.(head) + p.(count))), Z.add_0_l. rewrite ring_put_get by (first [apply mod_ring|lia]).
    by destruct (Z.ltb_spec (Z.of_nat k) n); [|lia].
Qed.

(** An abstract pipe: a queue of bytes and the number of live ends. *)
Record queue := mk_queue { q_bytes : list Z; q_readers : Z; q_writers : Z }.

Definition abs (p : pipe) : queue := mk_queue (contents p) p.(reader_ends) p.(writer_ends).

(** What SYS_PIPE_READ and SYS_PIPE_WRITE promise on the queue. *)
Definition queue_read (q : queue) (len : Z) : Z * list Z * queue :=
  match q.(q_bytes) with
  | [] => (if q.(q_writers) =? 0 then 0 else SYS_ERR_AGAIN, [], q)
  | _ => let out := take (Z.to_nat len) q.(q_bytes) in
         (zlen out, out, mk_queue (drop (Z.to_nat len) q.(q_bytes)) q.(q_readers) q.(q_writers))
  end.
Definition queue_write (q : queue) (src : list Z) : Z * queue :=
  if q.(q_readers) =? 0 then (SYS_ERR_PIPE, q) else
  if zlen q.(q_bytes) =? PIPE_BUF_BYTES then (SYS_ERR_AGAIN, q) else
  let acc := take (Z.to_nat (PIPE_BUF_BYTES - zlen q.(q_bytes))) src in
  (zlen acc, mk_queue (q.(q_bytes) ++ acc) q.(q_readers) q.(q_writers)).

Lemma zlen_take {A} n (l : list A) : zlen (take (Z.to_nat n) l) = Z.max 0 (Z.min n (zlen l)).
Proof. unfold zlen. rewrite length_take. lia. Qed.

Lemma pipe_read_abs p n :
  pipe_wf p -> 0 <= n ->
  let k := Z.min n p.(count) in
  queue_read (abs p) n
  = if p.(count) =? 0 then (if p.(writer_ends) =? 0 then 0 else SYS_ERR_AGAIN, [], abs p)
    else (k, ring_get p <$> seqZ 0 k, abs (after_read p k)).
Proof.
  intros [? Hc _ _ _ _ _] Hn k. pose proof (length_contents p) as HL.
  unfold queue_read. simpl. destruct (Z.eqb_spec p.(count) 0) as [Hz|Hz].
  { unfold contents. by rewrite Hz. }
  destruct (contents p) as [|x l] eqn:E; [unfold zlen in HL; simpl in HL; lia|]. rewrite <- E.
  pose proof (contents_after_read p k) as HR. rewrite E, <- E in HR.
  assert (Z.to_nat n = Z.to_nat k \/ (length (contents p) <= Z.to_nat n)%nat /\ k = p.(count)) as Hcase.
  { rewrite E in *. unfold zlen in HL. lia. }
  assert (take (Z.to_nat n) (contents p) = ring_get p <$> seqZ 0 k
          /\ drop (Z.to_nat n) (contents p) = contents (after_read p k)) as [-> ->].
  { rewrite HR by lia. rewrite take_app, drop_app.
    assert (length (ring_get p <$> seqZ 0 k) = Z.to_nat k) as HLk
      by (rewrite length_fmap, length_seqZ; lia).
    rewrite HLk. destruct Hcase as [Hk|[Hk ->]].
    - rewrite Hk, Nat.sub_diag, take_ge, drop_ge by lia. by rewrite take_0, app_nil_r.
    - assert (contents (after_read p p.(count)) = []) as ->.
      { unfold contents; simpl. by rewrite Z.sub_diag. }
      unfold zlen in HL. rewrite E in *. rewrite take_ge, drop_ge by lia.
      by rewrite take_nil, drop_nil, app_nil_r. }
  unfold abs; simpl. f_equal. f_equal. unfold zlen. rewrite length_fmap, length_seqZ. lia.
Qed.

Lemma pipe_write_abs p src :
  pipe_wf p -> p.(reader_ends) <> 0 -> p.(count) <> PIPE_BUF_BYTES ->
  let k := Z.min (zlen src) (PIPE_BUF_BYTES - p.(count)) in
  queue_write (abs p) src = (k, abs (after_write p src k)).
Proof.
  intros Hwf Hr Hf k. pose proof (zlen_nonneg src). pose proof (wf_count _ Hwf).
  unfold queue_write; simpl. rewrite (proj2 (Z.eqb_neq _ _) Hr), length_contents by lia.
  rewrite (proj2 (Z.eqb_neq _ _) Hf), zlen_take. unfold abs.
  rewrite contents_after_write by (done || lia). simpl. f_equal; [lia|]. f_equal. f_equal.
  unfold k, zlen. destruct (Z.min_spec (Z.of_nat (length src)) (PIPE_BUF_BYTES - p.(count)))
    as [[? ->]|[? ->]]; [|done].
  rewrite !take_ge by lia. done.
Qed.

(** ** The table operations on a well-formed table *)
Lemma pipe_at_pipe_of ps obj k :
  pipes_wf ps -> pipe_of ps obj = Some k ->
  0 <= k < zlen ps /\ pipe_wf (pipe_at ps k) /\ (pipe_at ps k).(in_use) = true.
Proof. intros [Hl Hw] (-> & ? & ? & ?)%pipe_of_Some. by rewrite Hl. Qed.

(** [pipe_read_bytes] on a live pipe, as one update. *)
Lemma pipe_read_bytes_eq ps obj len k :
  pipes_wf ps -> pipe_of ps obj = Some k -> 0 <= len ->
  let p := pipe_at ps k in let n := Z.min len p.(count) in
  pipe_read_bytes ps obj len
  = if p.(count) =? 0 then (if p.(writer_ends) =? 0 then 0 else SYS_ERR_AGAIN, [], ps)
    else (n, ring_get p <$> seqZ 0 n, zset ps k (after_read p n)).
Proof.
  intros Hw Hk Hlen p n. unfold pipe_read_bytes. rewrite Hk. fold p.
  assert ((if p.(count) <? len then p.(count) else len) = n) as ->.
  { subst n. destruct (Z.ltb_spec p.(count) len); lia. }
  done.
Qed.

Lemma pipe_write_bytes_eq ps obj src k :
  pipe_of ps obj = Some k ->
  let p := pipe_at ps k in let n := Z.min (zlen src) (PIPE_BUF_BYTES - p.(count)) in
  pipe_write_bytes ps obj src
  = if p.(reader_ends) =? 0 then (SYS_ERR_PIPE, ps) else
    if PIPE_BUF_BYTES - p.(count) =? 0 then (SYS_ERR_AGAIN, ps) else
    (n, zset ps k (after_write p src n)).
Proof.
  intros Hk p n. unfold pipe_write_bytes. rewrite Hk. fold p.
  assert ((if zlen src <? PIPE_BUF_BYTES - p.(count) then zlen src
           else PIPE_BUF_BYTES - p.(count)) = n) as ->.
  { subst n. destruct (Z.ltb_spec (zlen src) (PIPE_BUF_BYTES - p.(count))); lia. }
  done.
Qed.

Lemma pipe_read_bytes_wf ps obj len :
  pipes_wf ps -> 0 <= len -> pipes_wf (pipe_read_bytes ps obj len).2.
Proof.
  intros Hw Hlen. destruct (pipe_of ps obj) as [k|] eqn:Hk.
  2: { unfold pipe_read_bytes. by rewrite Hk. }
  rewrite (pipe_read_bytes_eq _ _ _ k) by done.
  destruct (pipe_at_pipe_of _ _ _ Hw Hk) as (? & Hp & ?).
  destruct (_ =? 0); [done|]. apply pipes_wf_zset, after_read_wf; try done.
  pose proof (wf_count _ Hp). lia.
Qed.

Lemma pipe_write_bytes_wf ps obj src : pipes_wf ps -> pipes_wf (pipe_write_bytes ps obj src).2.
Proof.
  intros Hw. destruct (pipe_of ps obj) as [k|] eqn:Hk.
  2: { unfold pipe_write_bytes. by rewrite Hk. }
  rewrite (pipe_write_bytes_eq _ _ _ k) by done.
  destruct (pipe_at_pipe_of _ _ _ Hw Hk) as (? & Hp & ?).
  destruct (_ =? 0); [done|]. destruct (_ =? 0); [done|].
  apply pipes_wf_zset, after_write_wf; try done.
  pose proof (wf_count _ Hp). pose proof (zlen_nonneg src). lia.
Qed.

(** Reads and writes keep every pipe's identity and ends. *)
Definition same_ends (ps ps' : list pipe) : Prop :=
  zlen ps' = zlen ps /\ forall i,
    (pipe_at ps' i).(in_use) = (pipe_at ps i).(in_use)
    /\ (pipe_at ps' i).(gen) = (pipe_at ps i).(gen)
    /\ (pipe_at ps' i).(reader_ends) = (pipe_at ps i).(reader_ends)
    /\ (pipe_at ps' i).(writer_ends) = (pipe_at ps i).(writer_ends).

Lemma same_ends_pipe_of ps ps' obj : same_ends ps ps' -> pipe_of ps' obj = pipe_of ps obj.
Proof.
  intros [_ H]. unfold pipe_of. by destruct (H (PIPE_OBJ_IDX obj)) as (-> & -> & _ & _).
Qed.

Lemma same_ends_zset ps k p :
  p.(in_use) = (pipe_at ps k).(in_use) -> p.(gen) = (pipe_at ps k).(gen) ->
  p.(reader_ends) = (pipe_at ps k).(reader_ends) ->
  p.(writer_ends) = (pipe_at ps k).(writer_ends) -> same_ends ps (zset ps k p).
Proof.
  intros. split; [apply zlen_zset|]. intros i. rewrite pipe_at_zset.
  case_bool_decide as Hb; [|done]. by destruct Hb as [<- _].
Qed.

Lemma pipe_read_same_ends ps obj len : same_ends ps (pipe_read_bytes ps obj len).2.
Proof.
  unfold pipe_read_bytes. repeat case_match; simpl; try by split.
  all: by apply same_ends_zset.
Qed.

Lemma pipe_write_same_ends ps obj src : same_ends ps (pipe_write_bytes ps obj src).2.
Proof.
  unfold pipe_write_bytes. repeat case_match; simpl; try by split.
  all: by apply same_ends_zset.
Qed.

(** ** Runs of reads and writes on one end pair *)
Inductive pipe_op := PRead (len : Z) | PWrite (src : list Z).

(** What the operations delivered and accepted, and the table after. *)
Fixpoint pipe_run (ps : list pipe) (obj : Z) (ops : list pipe_op) : list Z * list Z * list pipe :=
  match ops with
  | [] => ([], [], ps)
  | PRead len :: ops =>
      let '(_, out, ps) := pipe_read_bytes ps obj len in
      let '(outs, ins, ps) := pipe_run ps obj ops in (out ++ outs, ins, ps)
  | PWrite src :: ops =>
      let '(rc, ps) := pipe_write_bytes ps obj src in
      let '(outs, ins, ps) := pipe_run ps obj ops in
      (outs, (if 0 <? rc then take (Z.to_nat rc) src else []) ++ ins, ps)
  end.

Definition op_ok (op : pipe_op) : Prop := match op with PRead len => 0 <= len | PWrite _ => True end.

Lemma pipe_read_contents ps obj len k :
  pipes_wf ps -> pipe_of ps obj = Some k -> 0 <= len ->
  let '(_, out, ps') := pipe_read_bytes ps obj len in
  contents (pipe_at ps k) = out ++ contents (pipe_at ps' k).
Proof.
  intros Hw Hk Hl. rewrite (pipe_read_bytes_eq _ _ _ k) by done.
  destruct (pipe_at_pipe_of _ _ _ Hw Hk) as (? & Hp & ?). pose proof (wf_count _ Hp).
  destruct (_ =? 0); [done|]. rewrite pipe_at_zset, bool_decide_true by done.
  apply contents_after_read. lia.
Qed.

Lemma pipe_write_contents ps obj src k :
  pipes_wf ps -> pipe_of ps obj = Some k ->
  let '(rc, ps') := pipe_write_bytes ps obj src in
  contents (pipe_at ps' k)
  = contents (pipe_at ps k) ++ (if 0 <? rc then take (Z.to_nat rc) src else []).
Proof.
  intros Hw Hk. rewrite (pipe_write_bytes_eq _ _ _ k) by done.
  destruct (pipe_at_pipe_of _ _ _ Hw Hk) as (? & Hp & ?). pose proof (wf_count _ Hp).
  destruct (_ =? 0); [by rewrite app_nil_r|]. destruct (_ =? 0); [by rewrite app_nil_r|].
  pose proof (zlen_nonneg src).
  rewrite pipe_at_zset, bool_decide_true, contents_after_write by (done || lia). f_equal.
  destruct (Z.ltb_spec 0 (Z.min (zlen src) (PIPE_BUF_BYTES - (pipe_at ps k).(count)))); [done|].
  replace (Z.to_nat _) with O by lia. done.
Qed.

(** The bytes come out in the order they went in: nothing lost, nothing
    repeated, nothing made up. *)
Lemma pipe_run_fifo ps obj ops k :
  pipes_wf ps -> pipe_of ps obj = Some k -> Forall op_ok ops ->
  let '(outs, ins, ps') := pipe_run ps obj ops in
  contents (pipe_at ps k) ++ ins = outs ++ contents (pipe_at ps' k).
Proof.
  intros Hw Hk Hok. revert ps Hw Hk.
  induction Hok as [|op ops Hop _ IH]; intros ps Hw Hk; simpl; [by rewrite app_nil_r|].
  destruct op as [len|src]; simpl in Hop.
  - pose proof (pipe_read_contents ps obj len k Hw Hk Hop) as HC.
    pose proof (pipe_read_bytes_wf ps obj len Hw Hop) as HW.
    pose proof (same_ends_pipe_of _ _ obj (pipe_read_same_ends ps obj len)) as HO.
    destruct (pipe_read_bytes ps obj len) as [[rc out] ps1]; simpl in *.
    specialize (IH ps1 HW). rewrite HO in IH. specialize (IH Hk).
    destruct (pipe_run ps1 obj ops) as [[outs ins] ps2].
    by rewrite HC, <- !app_assoc, IH.
  - pose proof (pipe_write_contents ps obj src k Hw Hk) as HC.
    pose proof (pipe_write_bytes_wf ps obj src Hw) as HW.
    pose proof (same_ends_pipe_of _ _ obj (pipe_write_same_ends ps obj src)) as HO.
    destruct (pipe_write_bytes ps obj src) as [rc ps1]; simpl in *.
    specialize (IH ps1 HW). rewrite HO in IH. specialize (IH Hk).
    destruct (pipe_run ps1 obj ops) as [[outs ins] ps2].
    by rewrite <- IH, HC, <- !app_assoc.
Qed.

(** ** Allocation and the counts *)
Lemma next_gen_range g : 0 < next_gen g < PIPE_TALLY_GEN_MIXED.
Proof.
  unfold next_gen. pose proof (u32_range (g + 1)) as Hr.
  unfold PIPE_TALLY_GEN_MIXED, U32_MAX in *.
  destruct (Z.eqb_spec (u32 (g + 1)) 0), (Z.eqb_spec (u32 (g + 1)) 0xFFFFFFFF); simpl; lia.
Qed.

(** A slot's next use never has the generation of its last one. *)
Lemma next_gen_fresh g : 0 <= g < PIPE_TALLY_GEN_MIXED -> next_gen g <> g.
Proof.
  unfold PIPE_TALLY_GEN_MIXED, next_gen. intros Hg. rewrite u32_id by (unfold U32_MAX; lia).
  destruct (Z.eqb_spec (g + 1) 0), (Z.eqb_spec (g + 1) PIPE_TALLY_GEN_MIXED); simpl;
    unfold PIPE_TALLY_GEN_MIXED in *; lia.
Qed.

Lemma PIPE_OBJ_nonzero i g : 0 <= i <= U32_MAX -> 0 < g <= U32_MAX -> PIPE_OBJ i g <> 0.
Proof.
  intros Hi Hg E. destruct (PIPE_OBJ_split i g) as [_ H]; [lia..|]. rewrite E in H.
  vm_compute in H. lia.
Qed.

(** The pipe a successful allocation hands out. *)
Definition fresh_pipe (p : pipe) : pipe := mk_pipe true (next_gen p.(gen)) 0 0 0 0 p.(buf).

Lemma pipe_alloc_spec ps obj ps' :
  pipes_wf ps -> pipe_alloc ps = (obj, ps') ->
  (obj = 0 /\ ps' = ps /\ forall i, 0 <= i < MAX_PIPES -> (pipe_at ps i).(in_use) = true)
  \/ exists i, 0 <= i < MAX_PIPES /\ (pipe_at ps i).(in_use) = false
     /\ obj = PIPE_OBJ i (next_gen (pipe_at ps i).(gen)) /\ obj <> 0
     /\ ps' = zset ps i (fresh_pipe (pipe_at ps i)) /\ pipe_of ps' obj = Some i.
Proof.
  intros [Hl Hw]. unfold pipe_alloc. destruct (find_index _ _ _) as [i|] eqn:E; intros [= <- <-].
  - right. apply find_index_Some in E as (Hi & Hu%negb_true_iff & _).
    change (0 + Z.of_nat (Z.to_nat MAX_PIPES)) with MAX_PIPES in Hi.
    pose proof (next_gen_range (pipe_at ps i).(gen)) as Hg.
    unfold PIPE_TALLY_GEN_MIXED, MAX_PIPES in *.
    assert (0 <= i <= U32_MAX) as Hi32 by (unfold U32_MAX; lia).
    exists i. split_and!; [lia..|done|done|apply PIPE_OBJ_nonzero; unfold U32_MAX in *; lia|done|].
    apply pipe_of_Some. destruct (PIPE_OBJ_split i (next_gen (pipe_at ps i).(gen))) as [-> ->];
      [done|unfold U32_MAX; lia|].
    unfold MAX_PIPES. rewrite pipe_at_zset, bool_decide_true by lia.
    split_and!; [done|lia..|done|done].
  - left. split_and!; [done..|]. intros i Hi.
    apply negb_false_iff, (find_index_None _ _ _ E). unfold MAX_PIPES in *. lia.
Qed.

Lemma fresh_pipe_wf p : pipe_wf p -> pipe_wf (fresh_pipe p).
Proof.
  intros [? ? ? ? ? ? ?]. pose proof (next_gen_range p.(gen)).
  constructor; simpl; try done; unfold PIPE_BUF_BYTES, U32_MAX in *; try lia.
Qed.

Lemma pipe_alloc_wf ps : pipes_wf ps -> pipes_wf (pipe_alloc ps).2.
Proof.
  intros Hw. destruct (pipe_alloc ps) as [obj ps'] eqn:E.
  destruct (pipe_alloc_spec _ _ _ Hw E) as [(_ & -> & _)|(i & _ & _ & _ & _ & -> & _)]; [done|].
  apply pipes_wf_zset; [done|]. apply fresh_pipe_wf, Hw.
Qed.

Lemma set_ends_wf p r w :
  pipe_wf p -> 0 <= r <= U32_MAX -> 0 <= w <= U32_MAX -> pipe_wf (set_ends p r w).
Proof. by intros [? ? ? ? ? ? ?]; constructor. Qed.

Lemma add_end_wf p w : pipe_wf p -> pipe_wf (add_end p w).
Proof.
  intros Hp. pose proof (wf_ends _ Hp) as [? ?].
  destruct w; apply set_ends_wf; auto with horus.
Qed.

Lemma pipe_free_if_unheld_wf p : pipe_wf p -> pipe_wf (pipe_free_if_unheld p).
Proof.
  intros [? ? ? ? [? ?] ? ?]. unfold pipe_free_if_unheld. destruct (_ && _); [|by constructor].
  constructor; simpl; try done; autorewrite with horus; unfold PIPE_BUF_BYTES; lia.
Qed.

Lemma pipe_end_ref_wf ps obj w : pipes_wf ps -> pipes_wf (pipe_end_ref ps obj w).2.
Proof.
  intros Hw. unfold pipe_end_ref. destruct (pipe_of ps obj); [|done].
  apply pipes_wf_zset, add_end_wf, Hw; done.
Qed.

Lemma dec_end_range x : 0 <= x <= U32_MAX -> 0 <= dec_end x <= U32_MAX.
Proof. unfold dec_end. destruct (Z.eqb_spec x 0); lia. Qed.
Lemma sub_ends_range x n : 0 <= x <= U32_MAX -> 0 <= n -> 0 <= sub_ends x n <= U32_MAX.
Proof. unfold sub_ends. destruct (Z.ltb_spec x n); lia. Qed.

Lemma pipe_end_unref_wf ps obj w : pipes_wf ps -> pipes_wf (pipe_end_unref ps obj w).
Proof.
  intros Hw. unfold pipe_end_unref. destruct (pipe_of ps obj) as [k|]; [|done].
  pose proof (proj2 Hw k) as Hp. pose proof (wf_ends _ Hp) as [? ?].
  apply pipes_wf_zset, pipe_free_if_unheld_wf; [done|].
  destruct w; apply set_ends_wf; auto using dec_end_range.
Qed.

Lemma release_one_wf t acc i :
  (forall j, 0 <= zget 0 t j) -> pipes_wf acc.2 -> pipes_wf (release_one t acc i).2.
Proof.
  intros Ht Hw. destruct acc as [e ps]. unfold release_one. destruct (_ && _); [done|].
  destruct (if _ =? PIPE_TALLY_GEN_MIXED then _ else _) as [k|]; [|done].
  pose proof (proj2 Hw k) as Hp. pose proof (wf_ends _ Hp) as [? ?].
  apply pipes_wf_zset, pipe_free_if_unheld_wf; [done|].
  apply set_ends_wf; auto using sub_ends_range.
Qed.

Lemma pipe_release_revoked_ends_wf ps t :
  (forall cells j, t = Some cells -> 0 <= zget 0 cells j) -> pipes_wf ps ->
  pipes_wf (pipe_release_revoked_ends ps t).2.
Proof.
  intros Ht Hw. destruct t as [cells|]; [|done]. simpl.
  generalize (seqZ 0 (if MAX_PIPES <? zlen cells / PIPE_TALLY_CELLS then MAX_PIPES
                      else zlen cells / PIPE_TALLY_CELLS)), true.
  intros l b. change ps with (b, ps).2 in Hw. revert Hw. generalize (b, ps). clear b ps.
  induction l as [|i l IH]; intros acc Hw; simpl; [done|].
  apply IH, release_one_wf; [|done]. intros j. by apply Ht.
Qed.

(** ** What a pipe promises *)

(** A pipe of its own with one reader and one writer, for examples. *)
Definition demo_pipes : list pipe :=
  let '(obj, ps) := pipe_alloc (replicate (Z.to_nat MAX_PIPES) pipe_zero) in
  (pipe_end_ref (pipe_end_ref ps obj false).2 obj true).2.
Definition demo_obj : Z := PIPE_OBJ 0 1.

Lemma pipes_zero_wf : pipes_wf (replicate (Z.to_nat MAX_PIPES) pipe_zero).
Proof.
  split; [done|]. intros i. unfold pipe_at. destruct (decide (0 <= i < MAX_PIPES)).
  - rewrite zget_replicate by done. apply pipe_zero_wf.
  - rewrite zget_out; [apply pipe_zero_wf|]. change (zlen _) with MAX_PIPES. lia.
Qed.
Lemma demo_pipes_wf : pipes_wf demo_pipes.
Proof.
  unfold demo_pipes. pose proof (pipe_alloc_wf _ pipes_zero_wf) as H.
  destruct (pipe_alloc _) as [obj ps]. by do 2 apply pipe_end_ref_wf.
Qed.
Lemma demo_pipe_of : pipe_of demo_pipes demo_obj = Some 0.
Proof. vm_compute. reflexivity. Qed.

(** C38: on a live pipe the byte ring refines a bounded queue: a read returns the
    oldest bytes, end of file exactly when the queue is empty and no writer is
    left, and EAGAIN when it is empty otherwise; a write appends what fits,
    returns EPIPE when no reader is left and EAGAIN when the queue is full.  No
    other pipe changes and the table stays well-formed. *)
Theorem pipe_refines_queue ps obj k len src :
  pipes_wf ps -> pipe_of ps obj = Some k -> 0 <= len ->
  (let '(rc, out, ps') := pipe_read_bytes ps obj len in
   pipes_wf ps' /\ (rc, out, abs (pipe_at ps' k)) = queue_read (abs (pipe_at ps k)) len
   /\ forall j, j <> k -> pipe_at ps' j = pipe_at ps j)
  /\ (let '(rc, ps') := pipe_write_bytes ps obj src in
   pipes_wf ps' /\ (rc, abs (pipe_at ps' k)) = queue_write (abs (pipe_at ps k)) src
   /\ forall j, j <> k -> pipe_at ps' j = pipe_at ps j).
Proof.
  intros Hw Hk Hl. destruct (pipe_at_pipe_of _ _ _ Hw Hk) as (Hr & Hp & _). split.
  - pose proof (pipe_read_bytes_wf ps obj len Hw Hl) as HW. revert HW.
    rewrite (pipe_read_bytes_eq _ _ _ k), (pipe_read_abs _ _ Hp Hl) by done. cbv zeta.
    destruct (_ =? 0); [done|]. cbn [snd]. intros HW. split_and!; [done| |].
    + by rewrite pipe_at_zset, bool_decide_true.
    + intros j Hj. rewrite pipe_at_zset, bool_decide_false; [done|naive_solver].
  - pose proof (pipe_write_bytes_wf ps obj src Hw) as HW. revert HW.
    rewrite (pipe_write_bytes_eq _ _ _ k) by done. cbv zeta.
    destruct (Z.eqb_spec (pipe_at ps k).(reader_ends) 0) as [E|E].
    { unfold queue_write. simpl. rewrite E. done. }
    pose proof (wf_count _ Hp). destruct (Z.eqb_spec (PIPE_BUF_BYTES - (pipe_at ps k).(count)) 0) as [E2|E2].
    { unfold queue_write. simpl. rewrite (proj2 (Z.eqb_neq _ _) E), length_contents by lia.
      rewrite (proj2 (Z.eqb_eq _ _)) by lia. done. }
    cbn [snd]. intros HW. split_and!; [done| |].
    + rewrite pipe_at_zset, bool_decide_true by done. rewrite (pipe_write_abs _ _ Hp) by (done || lia). done.
    + intros j Hj. rewrite pipe_at_zset, bool_decide_false; [done|naive_solver].
Qed.

Lemma pipe_refines_queue_witness :
  let '(rc, ps') := pipe_write_bytes demo_pipes demo_obj [7; 8; 9] in
  pipes_wf ps' /\ (rc, abs (pipe_at ps' 0)) = queue_write (abs (pipe_at demo_pipes 0)) [7; 8; 9]
  /\ forall j, j <> 0 -> pipe_at ps' j = pipe_at demo_pipes j.
Proof.
  exact (proj2 (pipe_refines_queue demo_pipes demo_obj 0 0 [7; 8; 9] demo_pipes_wf demo_pipe_of (Z.le_refl 0))).
Defined.

(** Over any sequence of reads and writes on a pipe, the bytes that were in
    it and the bytes the writes accepted are, in order, the bytes the reads
    delivered followed by the bytes still in it: nothing is lost, repeated,
    reordered or made up. *)
Theorem pipe_fifo ps obj ops k :
  pipes_wf ps -> pipe_of ps obj = Some k -> Forall op_ok ops ->
  let '(outs, ins, ps') := pipe_run ps obj ops in
  contents (pipe_at ps k) ++ ins = outs ++ contents (pipe_at ps' k).
Proof. apply pipe_run_fifo. Qed.


(** When the last end of a pipe goes, its object names nothing any more, its
    bytes are wiped, and no later allocation of the slot returns the same
    object: a capability left over from the old pipe cannot reach the new one. *)
Theorem last_end_frees ps obj k (w : bool) :
  pipes_wf ps -> pipe_of ps obj = Some k ->
  (pipe_at ps k).(reader_ends) = (if w then 0 else 1) -> (pipe_at ps k).(writer_ends) = (if w then 1 else 0) ->
  let ps' := pipe_end_unref ps obj w in
  pipe_of ps' obj = None /\ contents (pipe_at ps' k) = []
  /\ (pipe_at ps' k).(buf) = replicate (Z.to_nat PIPE_BUF_BYTES) 0
  /\ forall obj' ps'', pipe_alloc ps' = (obj', ps'') -> obj' <> 0 -> pipe_of ps'' obj = None /\ pipe_of ps'' obj' <> None.
Proof.
  intros Hw Hk Hr Hwr ps'. destruct (pipe_at_pipe_of _ _ _ Hw Hk) as (Hrg & Hp & Hu).
  assert (pipes_wf ps') as Hw' by by apply pipe_end_unref_wf.
  apply pipe_of_Some in Hk as Hk'. destruct Hk' as (Ek & Hk1 & _ & Hg).
  assert (pipe_at ps' k = mk_pipe false (pipe_at ps k).(gen) 0 0 0 0 (replicate (Z.to_nat PIPE_BUF_BYTES) 0)) as E.
  { unfold ps', pipe_end_unref. rewrite Hk, pipe_at_zset, bool_decide_true by done.
    destruct w; unfold pipe_free_if_unheld, set_ends; simpl; by rewrite Hr, Hwr. }
  assert (forall x, pipe_of x obj <> None -> (pipe_at x k).(in_use) = true /\ (pipe_at x k).(gen) = (pipe_at ps k).(gen)) as HX.
  { intros x Hx. destruct (pipe_of x obj) as [j|] eqn:Ex; [|done].
    apply pipe_of_Some in Ex as (-> & _ & ? & ?). rewrite <- Ek in *. by rewrite Hg. }
  split_and!.
  - destruct (pipe_of ps' obj) as [j|] eqn:Ex; [|done]. destruct (HX ps') as [Hc _]; [by rewrite Ex|]. by rewrite E in Hc.
  - by rewrite E.
  - by rewrite E.
  - intros obj' ps'' Ha H0. destruct (pipe_alloc_spec _ _ _ Hw' Ha) as [[? _]|(i & Hi & Hf & Ho & _ & -> & Hof)]; [done|].
    split; [|by rewrite Hof]. destruct (pipe_of (zset _ _ _) obj) as [j|] eqn:Ex; [|done].
    destruct (HX (zset ps' i (fresh_pipe (pipe_at ps' i)))) as [Hc1 Hc2]; [by rewrite Ex|].
    rewrite pipe_at_zset in Hc1, Hc2. case_bool_decide as Hb; [|by rewrite E in Hc1].
    destruct Hb as [-> _]. rewrite E in Hc2. simpl in Hc2.
    by apply (next_gen_fresh (pipe_at ps k).(gen)) in Hc2; [|apply wf_gen].
Qed.

Lemma last_end_frees_witness :
  pipe_of (pipe_end_unref (pipe_end_unref demo_pipes demo_obj false) demo_obj true) demo_obj = None.
Proof.
  refine (proj1 (last_end_frees (pipe_end_unref demo_pipes demo_obj false) demo_obj 0 true _ _ _ _)).
  - apply pipe_end_unref_wf, demo_pipes_wf.
  - vm_compute. reflexivity.
  - vm_compute. reflexivity.
  - vm_compute. reflexivity.
Defined.
