(* ===== verification/SchedCtx.v ===== *)
(** Scheduling contexts: the share arithmetic of rust/src/sched.rs and the
    context operations of src/src/kernel/scheduler.c (carving, binding,
    destroying, refilling, charging).  A context holds a share of one CPU in
    parts per million; the theorems show that the shares of a CPU always add up
    to one CPU, and that a budget is charged only by the CPU it belongs to.

    Times are microseconds of a 64-bit clock; they are kept unbounded, because
    a 64-bit microsecond clock does not wrap and every product below is bounded
    by the checked periods. *)
From S2P Require Import Prelude KTypes.

Definition MAX_CPUS : Z := 8.
Definition SC_PPM_WHOLE : Z := 1000000.
Definition SC_MIN_PERIOD_US : Z := 10000.
Definition SC_MAX_PERIOD_US : Z := 10000000.
Definition SC_ROOT_PERIOD_US : Z := 100000.
Definition SC_FLAG_SLACK : Z := 1.
Definition SC_FLAG_ROOT : Z := 2.
Definition MAX_DYN_SCHED_CONTEXTS : Z := MAX_TASKS.
Definition SC_ROOT_BASE : Z := 1.
Definition DYN_SC_BASE : Z := SC_ROOT_BASE + MAX_CPUS.
Definition SC_INDEX_MAX : Z := DYN_SC_BASE + MAX_DYN_SCHED_CONTEXTS.

(** ** The arithmetic (sched.rs) *)
Definition SPLIT_INVAL : Z := -1.
Definition SPLIT_NO_SHARE : Z := -2.

Definition period_ok (period_us : Z) : bool :=
  (SC_MIN_PERIOD_US <=? period_us) && (period_us <=? SC_MAX_PERIOD_US).

Definition child_share (budget_us period_us : Z) : option Z :=
  if negb (period_ok period_us) then None else
  if (budget_us =? 0) || (period_us <? budget_us) then None else
  let share := (budget_us * SC_PPM_WHOLE + period_us - 1) / period_us in
  if share <=? U32_MAX then Some share else None.

(** [inl] of the parent's and the child's share, or [inr] of the error. *)
Definition split_with_share (parent_share budget_us period_us share : Z) : (Z * Z) + Z :=
  if (SC_PPM_WHOLE <? parent_share) || negb (period_ok period_us) then inr SPLIT_INVAL else
  if (budget_us =? 0) || (period_us <? budget_us) || (share =? 0) || (SC_PPM_WHOLE <? share)
  then inr SPLIT_INVAL else
  if share * period_us <? budget_us * SC_PPM_WHOLE then inr SPLIT_INVAL else
  if parent_share <? share then inr SPLIT_NO_SHARE else
  inl (parent_share - share, share).

Definition rust_sc_split (parent_share budget_us period_us : Z) : (Z * Z) + Z :=
  match child_share budget_us period_us with
  | None => inr SPLIT_INVAL
  | Some share => split_with_share parent_share budget_us period_us share
  end.

Definition rust_sc_reclaim (parent_share child_share : Z) : Z :=
  if parent_share + child_share <=? SC_PPM_WHOLE then parent_share + child_share
  else SC_PPM_WHOLE.

(** ** struct sched_context and the tables *)
Record sched_context := mk_sc {
  sc_live : bool;
  sc_cpu : Z;
  share_ppm : Z;
  sc_period_us : Z;
  sc_flags : Z;
  sc_parent : Z;
  remaining_us : Z;
  period_start_us : Z;
  consumed_us : Z;
  charged_cpu : Z
}.
Definition sc_zero : sched_context := mk_sc false 0 0 0 0 0 0 0 0 0.

Definition sc_budget_us (sc : sched_context) : Z := sc.(share_ppm) * sc.(sc_period_us) / SC_PPM_WHOLE.

(** The roots, the carved contexts' descriptors, the counts of live carved
    contexts, each CPU's accounting stamp, and each task's [sc_index]. *)
Record sched := mk_sched {
  sc_roots : list sched_context;
  dyn_scs : list (kobj_slot sched_context);
  sc_carved_live : list Z;
  sc_stamp_idx : list Z;
  sc_stamp_us : list Z;
  task_sc_index : list Z
}.

Definition sched_root_index (cpu : Z) : Z :=
  if in_range 0 MAX_CPUS cpu then SC_ROOT_BASE + cpu else 0.

Definition sc_dyn_by_index (s : sched) (idx : Z) : option sched_context :=
  if negb (in_range DYN_SC_BASE SC_INDEX_MAX idx) then None
  else ks_obj (zget kslot_zero s.(dyn_scs) (idx - DYN_SC_BASE)).

Definition sc_by_index (s : sched) (idx : Z) : option sched_context :=
  if in_range SC_ROOT_BASE (SC_ROOT_BASE + MAX_CPUS) idx
  then Some (zget sc_zero s.(sc_roots) (idx - SC_ROOT_BASE)) else
  if in_range DYN_SC_BASE SC_INDEX_MAX idx then sc_dyn_by_index s idx else None.

(** A store through the pointer [sc_by_index idx] returned. *)
Definition sc_store (s : sched) (idx : Z) (sc : sched_context) : sched :=
  if in_range SC_ROOT_BASE (SC_ROOT_BASE + MAX_CPUS) idx
  then mk_sched (zset s.(sc_roots) (idx - SC_ROOT_BASE) sc) s.(dyn_scs) s.(sc_carved_live)
                s.(sc_stamp_idx) s.(sc_stamp_us) s.(task_sc_index)
  else if in_range DYN_SC_BASE SC_INDEX_MAX idx
  then mk_sched s.(sc_roots)
         (zset s.(dyn_scs) (idx - DYN_SC_BASE)
               (ks_set_obj (zget kslot_zero s.(dyn_scs) (idx - DYN_SC_BASE)) sc))
         s.(sc_carved_live) s.(sc_stamp_idx) s.(sc_stamp_us) s.(task_sc_index)
  else s.

Definition set_carved (s : sched) (l : list Z) : sched :=
  mk_sched s.(sc_roots) s.(dyn_scs) l s.(sc_stamp_idx) s.(sc_stamp_us) s.(task_sc_index).
Definition set_stamps (s : sched) (idx us : list Z) : sched :=
  mk_sched s.(sc_roots) s.(dyn_scs) s.(sc_carved_live) idx us s.(task_sc_index).
Definition set_task_sc (s : sched) (l : list Z) : sched :=
  mk_sched s.(sc_roots) s.(dyn_scs) s.(sc_carved_live) s.(sc_stamp_idx) s.(sc_stamp_us) l.

(** ** Boot *)
Definition sc_root_init (c now : Z) : sched_context :=
  mk_sc true c SC_PPM_WHOLE SC_ROOT_PERIOD_US (Z.lor SC_FLAG_SLACK SC_FLAG_ROOT) 0
        SC_ROOT_PERIOD_US now 0 (-1).
Definition sched_contexts_init (s : sched) (now : Z) : sched :=
  mk_sched ((fun c => sc_root_init c now) <$> seqZ 0 MAX_CPUS) s.(dyn_scs) s.(sc_carved_live)
           (replicate (Z.to_nat MAX_CPUS) 0) s.(sc_stamp_us) s.(task_sc_index).

(** ** Carving and destroying *)
Definition has_flag (f m : Z) : bool := negb (Z.land f m =? 0).

(** [child] is the index of the fresh object; [now] is sched_clock_us(). *)
Definition sched_carve (s : sched) (parent_idx child budget_us period_us flags now : Z)
  : Z * sched :=
  match sc_by_index s child with
  | None => (SYS_ERR_INVAL, s)
  | Some ch =>
      if negb (Z.ldiff flags SC_FLAG_SLACK =? 0) then (SYS_ERR_INVAL, s) else
      match sc_by_index s parent_idx with
      | None => (SYS_ERR_INVAL, s)
      | Some p =>
          if negb p.(sc_live) then (SYS_ERR_INVAL, s) else
          if has_flag flags SC_FLAG_SLACK && negb (has_flag p.(sc_flags) SC_FLAG_SLACK)
          then (SYS_ERR_PERM, s) else
          match rust_sc_split p.(share_ppm) budget_us period_us with
          | inr rc => (if rc =? -2 then SYS_ERR_NOMEM else SYS_ERR_INVAL, s)
          | inl (np, nc) =>
              let p1 := mk_sc p.(sc_live) p.(sc_cpu) np p.(sc_period_us) p.(sc_flags)
                              p.(sc_parent) p.(remaining_us) p.(period_start_us)
                              p.(consumed_us) p.(charged_cpu) in
              let p2 := mk_sc p1.(sc_live) p1.(sc_cpu) np p1.(sc_period_us) p1.(sc_flags)
                              p1.(sc_parent)
                              (p1.(remaining_us) - (sc_budget_us p - sc_budget_us p1))
                              p1.(period_start_us) p1.(consumed_us) p1.(charged_cpu) in
              let s := sc_store s parent_idx p2 in
              let c := mk_sc true p.(sc_cpu) nc period_us (Z.land flags SC_FLAG_SLACK) parent_idx
                             (nc * period_us / SC_PPM_WHOLE) now 0 (-1) in
              let s := sc_store s child c in
              let live := s.(sc_carved_live) in
              (0, if in_range 0 MAX_CPUS p.(sc_cpu)
                  then set_carved s (zset live p.(sc_cpu) (u16 (zget 0 live p.(sc_cpu) + 1)))
                  else s)
          end
      end
  end.

Definition sc_set_live (sc : sched_context) (b : bool) : sched_context :=
  mk_sc b sc.(sc_cpu) sc.(share_ppm) sc.(sc_period_us) sc.(sc_flags) sc.(sc_parent)
        sc.(remaining_us) sc.(period_start_us) sc.(consumed_us) sc.(charged_cpu).
Definition sc_set_share (sc : sched_context) (x : Z) : sched_context :=
  mk_sc sc.(sc_live) sc.(sc_cpu) x sc.(sc_period_us) sc.(sc_flags) sc.(sc_parent)
        sc.(remaining_us) sc.(period_start_us) sc.(consumed_us) sc.(charged_cpu).
Definition sc_set_parent (sc : sched_context) (x : Z) : sched_context :=
  mk_sc sc.(sc_live) sc.(sc_cpu) sc.(share_ppm) sc.(sc_period_us) sc.(sc_flags) x
        sc.(remaining_us) sc.(period_start_us) sc.(consumed_us) sc.(charged_cpu).

(** The nearest living ancestor from [hidx] up: its index, or None. *)
Fixpoint find_heir (fuel : nat) (s : sched) (hidx : Z) : option Z :=
  match fuel with
  | O => None
  | S fuel =>
      if hidx =? 0 then None else
      match sc_by_index s hidx with
      | Some a => if a.(sc_live) then Some hidx else find_heir fuel s a.(sc_parent)
      | None => find_heir fuel s 0
      end
  end.

Definition reparent_sc (idx hidx : Z) (s : sched) (i : Z) : sched :=
  match sc_by_index s i with
  | Some k => if k.(sc_live) && (k.(sc_parent) =? idx) then sc_store s i (sc_set_parent k hidx) else s
  | None => s
  end.

(** The share goes to the nearest living ancestor, which also takes the
    children.  [fuel] bounds the walk up and [dyn] is the range of carved
    indices. *)
Definition reclaim_share (fuel : nat) (dyn : list Z) (idx : Z) (sc : sched_context) (s : sched)
  : sched :=
  match find_heir fuel s sc.(sc_parent) with
  | None => s
  | Some hidx =>
      let s := match sc_by_index s hidx with
               | Some heir => sc_store s hidx (sc_set_share heir
                                (rust_sc_reclaim heir.(share_ppm) sc.(share_ppm)))
               | None => s
               end in
      foldl (reparent_sc idx hidx) s dyn
  end.

(** Every task bound to the context and every stamp naming it let go of it. *)
Definition unbind_sc (idx : Z) (s : sched) : sched :=
  let s := set_task_sc s (imap (fun t x => if decide (0 < t)%nat then
                                          (if x =? idx then 0 else x) else x)
                               s.(task_sc_index)) in
  set_stamps s ((fun x => if x =? idx then 0 else x) <$> s.(sc_stamp_idx)) s.(sc_stamp_us).

Definition uncount_carved (cpu : Z) (s : sched) : sched :=
  if in_range 0 MAX_CPUS cpu && negb (zget 0 s.(sc_carved_live) cpu =? 0)
  then set_carved s (zset s.(sc_carved_live) cpu (zget 0 s.(sc_carved_live) cpu - 1))
  else s.

(** The pointer argument is the object at [idx]. *)
Definition sched_context_destroyed (s : sched) (idx : Z) : sched :=
  match sc_by_index s idx with
  | None => s
  | Some sc =>
      if negb sc.(sc_live) || has_flag sc.(sc_flags) SC_FLAG_ROOT then s else
      let s := sc_store s idx (sc_set_live sc false) in
      let s := uncount_carved sc.(sc_cpu) s in
      let s := reclaim_share (Z.to_nat SC_INDEX_MAX)
                             (seqZ DYN_SC_BASE MAX_DYN_SCHED_CONTEXTS) idx sc s in
      unbind_sc idx s
  end.

(** ** Binding: sched_bind's locked half, without the run-list placement. *)
Definition sched_bind (s : sched) (g_max_tasks : Z) (state : Z -> Z) (target idx : Z) : Z * sched :=
  if (target <=? 0) || (g_max_tasks <=? target) then (SYS_ERR_INVAL, s) else
  match sc_by_index s idx with
  | None => (SYS_ERR_INVAL, s)
  | Some sc =>
      if negb sc.(sc_live) || (state target =? TASK_DEAD) then (SYS_ERR_INVAL, s)
      else (0, set_task_sc s (zset s.(task_sc_index) target idx))
  end.

(** The context task [t] runs on: its index and contents, if live. *)
Definition task_sc (s : sched) (g_max_tasks t : Z) : option (Z * sched_context) :=
  if (t <=? 0) || (g_max_tasks <=? t) then None else
  let idx := zget 0 s.(task_sc_index) t in
  match sc_by_index s idx with
  | Some sc => if sc.(sc_live) then Some (idx, sc) else None
  | None => None
  end.

(** ** Refilling and charging *)

(** The projected remainder and the number of periods that have ended. *)
Definition sc_projected (sc : sched_context) (now : Z) : Z * Z :=
  let r := sc.(remaining_us) in
  if (now <? sc.(period_start_us)) || (sc.(sc_period_us) =? 0) then (r, 0) else
  let n := (now - sc.(period_start_us)) / sc.(sc_period_us) in
  if n =? 0 then (r, 0) else
  let budget := sc_budget_us sc in
  if budget <=? 0 then (if 0 <? r then 0 else r, n) else
  if (r <? 0) && (n <=? - r / budget) then (r + n * budget, n) else
  (budget, n).

Definition sc_set_time (sc : sched_context) (rem start : Z) : sched_context :=
  mk_sc sc.(sc_live) sc.(sc_cpu) sc.(share_ppm) sc.(sc_period_us) sc.(sc_flags) sc.(sc_parent)
        rem start sc.(consumed_us) sc.(charged_cpu).

Definition sc_refresh (sc : sched_context) (cpu now : Z) : sched_context :=
  if negb (sc.(sc_cpu) =? cpu) then sc else
  let '(r, n) := sc_projected sc now in
  if n =? 0 then sc
  else sc_set_time sc r (sc.(period_start_us) + n * sc.(sc_period_us)).

Definition sc_has_budget (sc : sched_context) (now : Z) : bool := 0 <? (sc_projected sc now).1.

Definition SC_RUN_NONE : Z := 0.
Definition SC_RUN_BUDGET : Z := 1.
Definition SC_RUN_SLACK : Z := 2.
Definition sc_eligible (s : sched) (g_max_tasks t cpu now : Z) : Z :=
  match task_sc s g_max_tasks t with
  | None => SC_RUN_NONE
  | Some (_, sc) =>
      if (sc.(sc_cpu) =? cpu) && sc_has_budget sc now then SC_RUN_BUDGET else
      if has_flag sc.(sc_flags) SC_FLAG_SLACK then SC_RUN_SLACK else SC_RUN_NONE
  end.

(** The context after a charge of the run [from, now) on [cpu]. *)
Definition charge_run (sc : sched_context) (cpu from now : Z) : sched_context :=
  let stop := sc.(period_start_us) + sc.(sc_period_us) in
  let '(sc1, from1) :=
    if negb (sc.(sc_period_us) =? 0) && (sc.(sc_cpu) =? cpu) && (from <? stop) && (stop <? now)
    then (sc_refresh (sc_set_time sc (sc.(remaining_us) - (stop - from)) sc.(period_start_us))
                     cpu now, stop)
    else (sc, from) in
  mk_sc sc1.(sc_live) sc1.(sc_cpu) sc1.(share_ppm) sc1.(sc_period_us) sc1.(sc_flags)
        sc1.(sc_parent) (sc1.(remaining_us) - (now - from1)) sc1.(period_start_us)
        (sc1.(consumed_us) + (now - from)) cpu.

Definition sc_charge (s : sched) (cpu now : Z) : sched :=
  let idx := zget 0 s.(sc_stamp_idx) cpu in
  let from := zget 0 s.(sc_stamp_us) cpu in
  let s := match sc_by_index s idx with
           | Some sc => if sc.(sc_live) && (from <? now)
                        then sc_store s idx (charge_run sc cpu from now) else s
           | None => s
           end in
  if from <? now then set_stamps s s.(sc_stamp_idx) (zset s.(sc_stamp_us) cpu now) else s.

(** [cur] is percpu_current_task[cpu]; [runs cur] says that it is runnable with
    no block pending.  The result is the stamped task (0 for none). *)
Definition sc_account_stamp (s : sched) (g_max_tasks cpu chosen cur : Z) (runs : Z -> bool) (now : Z)
  : Z * sched :=
  let s := sc_charge s cpu now in
  let s := set_stamps s (zset s.(sc_stamp_idx) cpu 0) (zset s.(sc_stamp_us) cpu now) in
  let chosen := if chosen <=? 0
                then (if (0 <? cur) && (cur <? g_max_tasks) && runs cur then cur else 0)
                else chosen in
  if chosen =? 0 then (0, s) else
  match task_sc s g_max_tasks chosen with
  | None => (0, s)
  | Some (idx, sc) =>
      if negb (sc.(sc_cpu) =? cpu) then (0, s) else
      let sc := sc_refresh sc cpu now in
      let s := sc_store s idx sc in
      if sc.(remaining_us) <=? 0 then (0, s)
      else (chosen, set_stamps s (zset s.(sc_stamp_idx) cpu (zget 0 s.(task_sc_index) chosen))
                               s.(sc_stamp_us))
  end.

(** ** Invariant *)
Definition tables_ok (s : sched) : Prop :=
  zlen s.(sc_roots) = MAX_CPUS /\ zlen s.(dyn_scs) = MAX_DYN_SCHED_CONTEXTS.

(** A context index a capability or a task can carry. *)
Definition is_root_idx (i : Z) : Prop := SC_ROOT_BASE <= i < SC_ROOT_BASE + MAX_CPUS.
Definition is_dyn_idx (i : Z) : Prop := DYN_SC_BASE <= i < SC_INDEX_MAX.
#[global] Instance is_dyn_idx_dec i : Decision (is_dyn_idx i).
Proof. unfold is_dyn_idx. apply _. Defined.
Definition sc_indices : list Z := seqZ SC_ROOT_BASE (MAX_CPUS + MAX_DYN_SCHED_CONTEXTS).

(** What the context at index [i] adds to the share handed out on CPU [c]. *)
Definition contrib (s : sched) (c i : Z) : Z :=
  match sc_by_index s i with
  | Some sc => if sc.(sc_live) && (sc.(sc_cpu) =? c) then sc.(share_ppm) else 0
  | None => 0
  end.
Definition cpu_total (s : sched) (c : Z) : Z := zsum (contrib s c) sc_indices.

(** A live context: its CPU exists, its share is no debt, and a carved one hangs
    under a live context of the same CPU that was there before it. *)
Definition live_ok (s : sched) (rank : Z -> nat) (i : Z) (sc : sched_context) : Prop :=
  0 <= sc.(sc_cpu) < MAX_CPUS /\ 0 <= sc.(share_ppm)
  /\ (is_root_idx i -> sc.(sc_cpu) = i - SC_ROOT_BASE)
  /\ (is_dyn_idx i -> has_flag sc.(sc_flags) SC_FLAG_ROOT = false
       /\ (rank sc.(sc_parent) < rank i)%nat
       /\ exists p, sc_by_index s sc.(sc_parent) = Some p /\ p.(sc_live) = true
                    /\ p.(sc_cpu) = sc.(sc_cpu)).

Record sched_inv (s : sched) : Prop := {
  si_tables : tables_ok s;
  si_roots : forall i, is_root_idx i -> exists r, sc_by_index s i = Some r
      /\ r.(sc_live) = true /\ has_flag r.(sc_flags) SC_FLAG_ROOT = true;
  si_live : exists rank, forall i sc, sc_by_index s i = Some sc -> sc.(sc_live) = true ->
      live_ok s rank i sc;
  si_total : forall c, 0 <= c < MAX_CPUS -> cpu_total s c = SC_PPM_WHOLE
}.

(** A stamped context belongs to the CPU whose stamp names it. *)
Definition stamps_inv (s : sched) : Prop :=
  forall c, 0 <= c < MAX_CPUS -> zget 0 s.(sc_stamp_idx) c <> 0 ->
  exists sc, sc_by_index s (zget 0 s.(sc_stamp_idx) c) = Some sc /\ sc.(sc_live) = true
             /\ sc.(sc_cpu) = c.

(** ** Lemmas *)
Lemma in_range_spec lo hi i : in_range lo hi i = true <-> lo <= i < hi.
Proof. unfold in_range. rewrite andb_true_iff, Z.leb_le, Z.ltb_lt. lia. Qed.
Lemma in_range_false lo hi i : in_range lo hi i = false <-> ~ (lo <= i < hi).
Proof. rewrite <- in_range_spec. by rewrite not_true_iff_false. Qed.

Lemma sc_by_index_valid s i sc : sc_by_index s i = Some sc -> is_root_idx i \/ is_dyn_idx i.
Proof.
  unfold sc_by_index. destruct (in_range SC_ROOT_BASE _ i) eqn:E1.
  { left. by apply in_range_spec. }
  destruct (in_range DYN_SC_BASE SC_INDEX_MAX i) eqn:E2; [|done].
  right. by apply in_range_spec.
Qed.

Lemma sc_by_index_zero s : sc_by_index s 0 = None.
Proof. done. Qed.

Lemma root_not_dyn i : is_root_idx i -> ~ is_dyn_idx i.
Proof. unfold is_root_idx, is_dyn_idx, DYN_SC_BASE. lia. Qed.

Lemma ks_obj_set {A} (k : kobj_slot A) x y : ks_obj k = Some y -> ks_obj (ks_set_obj k x) = Some x.
Proof. unfold ks_obj, ks_set_obj. destruct (ks_mem k) as [[? ?]|]; naive_solver. Qed.

Lemma sc_by_index_store s i sc y j :
  tables_ok s -> sc_by_index s i = Some y ->
  sc_by_index (sc_store s i sc) j = if decide (j = i) then Some sc else sc_by_index s j.
Proof.
  intros [Hr Hd] Hi. destruct (sc_by_index_valid _ _ _ Hi) as [Hv|Hv].
  - unfold sc_store. pose proof (root_not_dyn _ Hv) as Hnd.
    rewrite (proj2 (in_range_spec _ _ _) Hv).
    unfold sc_by_index, sc_dyn_by_index; simpl. unfold is_root_idx in Hv. case_decide as Hj.
    + subst j. rewrite (proj2 (in_range_spec _ _ _) Hv), zget_zset_eq; [done|].
      rewrite Hr. lia.
    + destruct (in_range SC_ROOT_BASE _ j); [|done]. rewrite zget_zset_ne; [done|lia].
  - assert (in_range SC_ROOT_BASE (SC_ROOT_BASE + MAX_CPUS) i = false) as Hnr.
    { apply in_range_false. intros H. by apply (root_not_dyn i). }
    unfold sc_store. rewrite Hnr. unfold sc_by_index, sc_dyn_by_index in *.
    rewrite Hnr, (proj2 (in_range_spec _ _ _) Hv) in Hi. simpl in Hi.
    rewrite (proj2 (in_range_spec _ _ _) Hv). simpl.
    pose proof Hv as Hv'. unfold is_dyn_idx, SC_INDEX_MAX in Hv'. case_decide as Hj.
    + subst j. rewrite Hnr, (proj2 (in_range_spec _ _ _) Hv). simpl.
      rewrite zget_zset_eq by (rewrite Hd; lia). by eapply ks_obj_set.
    + destruct (in_range SC_ROOT_BASE _ j); [done|].
      destruct (in_range DYN_SC_BASE _ j); [|done]. simpl. rewrite zget_zset_ne; [done|lia].
Qed.

Lemma sc_store_tables s i sc : tables_ok s -> tables_ok (sc_store s i sc).
Proof.
  intros [? ?]. unfold sc_store, tables_ok.
  repeat case_match; simpl; autorewrite with horus; done.
Qed.

Lemma sc_indices_elem i : i ∈ sc_indices <-> is_root_idx i \/ is_dyn_idx i.
Proof.
  unfold sc_indices, is_root_idx, is_dyn_idx, SC_INDEX_MAX, DYN_SC_BASE,
    SC_ROOT_BASE, MAX_CPUS, MAX_DYN_SCHED_CONTEXTS, MAX_TASKS. rewrite elem_of_seqZ. lia.
Qed.
Lemma sc_indices_NoDup : NoDup sc_indices.
Proof. apply NoDup_seqZ. Qed.

(** The share a context with contents [sc] contributes to CPU [c]. *)
Definition sc_contrib (c : Z) (sc : sched_context) : Z :=
  if sc.(sc_live) && (sc.(sc_cpu) =? c) then sc.(share_ppm) else 0.

Lemma contrib_Some s c i sc : sc_by_index s i = Some sc -> contrib s c i = sc_contrib c sc.
Proof. unfold contrib. by intros ->. Qed.

Lemma cpu_total_store s c i y sc :
  tables_ok s -> sc_by_index s i = Some y ->
  cpu_total (sc_store s i sc) c = cpu_total s c - sc_contrib c y + sc_contrib c sc.
Proof.
  intros Ht Hi. unfold cpu_total.
  rewrite (zsum_update (contrib s c) (contrib (sc_store s i sc) c) _ i sc_indices_NoDup).
  - rewrite (contrib_Some _ _ _ _ Hi). f_equal.
    apply contrib_Some. rewrite (sc_by_index_store _ _ _ y) by done. by rewrite decide_True.
  - apply sc_indices_elem. by eapply sc_by_index_valid.
  - intros j Hj. unfold contrib. rewrite (sc_by_index_store _ _ _ y) by done.
    by rewrite decide_False.
Qed.

Lemma contrib_nonneg s rank :
  (forall i sc, sc_by_index s i = Some sc -> sc.(sc_live) = true -> live_ok s rank i sc) ->
  forall c i, 0 <= contrib s c i.
Proof.
  intros H c i. unfold contrib. destruct (sc_by_index s i) as [sc|] eqn:E; [|lia].
  destruct (sc_live sc) eqn:El; simpl; [|lia]. destruct (_ =? _); [|lia].
  by destruct (H i sc E El) as (_ & ? & _).
Qed.

(** Any state that differs only in stamps, counts and task bindings. *)
Lemma sc_by_index_ext s s' i :
  s'.(sc_roots) = s.(sc_roots) -> s'.(dyn_scs) = s.(dyn_scs) -> sc_by_index s' i = sc_by_index s i.
Proof. unfold sc_by_index, sc_dyn_by_index. by intros -> ->. Qed.

Lemma sched_inv_ext s s' :
  s'.(sc_roots) = s.(sc_roots) -> s'.(dyn_scs) = s.(dyn_scs) -> sched_inv s -> sched_inv s'.
Proof.
  intros Hr Hd [T R [rank L] S].
  assert (forall i, sc_by_index s' i = sc_by_index s i) as E by (intros; by apply sc_by_index_ext).
  constructor.
  - unfold tables_ok. by rewrite Hr, Hd.
  - intros i Hi. rewrite E. by apply R.
  - exists rank. intros i sc Hi Hl. rewrite E in Hi. destruct (L i sc Hi Hl) as (? & ? & ? & HD).
    split_and!; try done; try lia. intros Hdy. rewrite E. by apply HD.
  - intros c Hc. rewrite <- (S c Hc). apply zsum_ext. intros i _. unfold contrib. by rewrite E.
Qed.

(** *** The arithmetic *)
Lemma period_ok_spec p : period_ok p = true <-> SC_MIN_PERIOD_US <= p <= SC_MAX_PERIOD_US.
Proof. unfold period_ok. rewrite andb_true_iff, !Z.leb_le. lia. Qed.

Lemma rust_sc_split_inl ps budget period np nc :
  rust_sc_split ps budget period = inl (np, nc) ->
  np + nc = ps /\ nc <> 0 /\ nc <= ps /\ ps <= SC_PPM_WHOLE
  /\ SC_MIN_PERIOD_US <= period <= SC_MAX_PERIOD_US
  /\ budget * SC_PPM_WHOLE <= nc * period.
Proof.
  unfold rust_sc_split. destruct (child_share budget period) as [sh|]; [|done].
  unfold split_with_share.
  destruct ((SC_PPM_WHOLE <? ps) || _) eqn:E1; [done|].
  destruct ((budget =? 0) || _ || _ || _) eqn:E2; [done|].
  destruct (Z.ltb_spec (sh * period) (budget * SC_PPM_WHOLE)); [done|].
  destruct (Z.ltb_spec ps sh); [done|]. intros [= <- <-].
  apply orb_false_iff in E1 as [?%Z.ltb_ge Hp%negb_false_iff%period_ok_spec].
  apply orb_false_iff in E2 as [[[_ _]%orb_false_iff ?%Z.eqb_neq]%orb_false_iff ?%Z.ltb_ge].
  lia.
Qed.

(** The share a well-formed request needs: the least that buys the budget. *)
Lemma child_share_spec budget period :
  SC_MIN_PERIOD_US <= period <= SC_MAX_PERIOD_US -> 0 < budget <= period ->
  exists sh, child_share budget period = Some sh /\ 0 < sh <= SC_PPM_WHOLE
    /\ budget * SC_PPM_WHOLE <= sh * period /\ (sh - 1) * period < budget * SC_PPM_WHOLE.
Proof.
  intros Hp Hb. unfold child_share. rewrite (proj2 (period_ok_spec _) Hp).
  unfold SC_MIN_PERIOD_US, SC_MAX_PERIOD_US, SC_PPM_WHOLE in *.
  destruct (Z.eqb_spec budget 0); [lia|]. destruct (Z.ltb_spec period budget); [lia|]. simpl.
  set (q := (budget * 1000000 + period - 1) / period).
  pose proof (Z.div_mod (budget * 1000000 + period - 1) period ltac:(lia)) as Hd.
  pose proof (Z.mod_pos_bound (budget * 1000000 + period - 1) period ltac:(lia)) as Hm.
  fold q in Hd.
  assert (q <= 1000000) as Hq by nia. assert (0 < q) as Hq0 by nia.
  destruct (Z.leb_spec q U32_MAX); [|unfold U32_MAX in *; lia].
  exists q. split_and!; [done|lia..|nia|nia].
Qed.

Lemma rust_sc_split_complete ps budget period :
  SC_MIN_PERIOD_US <= period <= SC_MAX_PERIOD_US -> 0 < budget <= period -> ps <= SC_PPM_WHOLE ->
  forall sh, child_share budget period = Some sh ->
  rust_sc_split ps budget period = if ps <? sh then inr SPLIT_NO_SHARE else inl (ps - sh, sh).
Proof.
  intros Hp Hb Hps sh Hsh. destruct (child_share_spec budget period Hp Hb) as (sh' & E & H1 & H2 & _).
  rewrite Hsh in E. injection E as <-. unfold rust_sc_split. rewrite Hsh. unfold split_with_share.
  rewrite (proj2 (period_ok_spec _) Hp). simpl. rewrite orb_false_r.
  destruct (Z.ltb_spec SC_PPM_WHOLE ps); [lia|].
  destruct (Z.eqb_spec budget 0); [lia|]. destruct (Z.ltb_spec period budget); [lia|].
  destruct (Z.eqb_spec sh 0); [lia|]. destruct (Z.ltb_spec SC_PPM_WHOLE sh); [lia|]. simpl.
  destruct (Z.ltb_spec (sh * period) (budget * SC_PPM_WHOLE)); [lia|]. done.
Qed.

(** *** Carving keeps the invariant *)
Lemma sched_carve_inv s parent child budget period flags now rc s' y :
  sched_inv s -> 0 <= budget -> is_dyn_idx child -> sc_by_index s child = Some y -> y.(sc_live) = false ->
  sched_carve s parent child budget period flags now = (rc, s') ->
  sched_inv s' /\ (rc <> 0 -> s' = s).
Proof.
  intros Hs Hbud Hch Hy Hyd. pose proof Hs as [T R [rank L] S]. unfold sched_carve. rewrite Hy.
  destruct (negb _); [intros [= <- <-]; split; done|].
  destruct (sc_by_index s parent) as [p|] eqn:Hp;
    [|intros [= <- <-]; split; done].
  destruct (sc_live p) eqn:Hpl; simpl; [|intros [= <- <-]; split; done].
  destruct (_ && _); [intros [= <- <-]; split; done|].
  destruct (rust_sc_split _ _ _) as [[np nc]|e] eqn:E;
    [|intros [= <- <-]; split; done].
  apply rust_sc_split_inl in E as (Hsum & Hnc & Hle & Hps & Hper & Hbuys).
  assert (0 <= nc) by (unfold SC_MIN_PERIOD_US, SC_PPM_WHOLE in *; nia).
  destruct (L parent p Hp Hpl) as (Hcpu & Hshare & Hroot & Hdyn).
  assert (parent <> child) as Hne by (intros ->; congruence).
  set (p2 := mk_sc _ _ np _ _ _ _ _ _ _). set (ch := mk_sc true _ nc _ _ _ _ _ _ _).
  set (s1 := sc_store s parent p2). set (s2 := sc_store s1 child ch).
  assert (tables_ok s1) as T1 by by apply sc_store_tables.
  assert (forall j, sc_by_index s1 j = if decide (j = parent) then Some p2 else sc_by_index s j) as E1.
  { intros j. by eapply sc_by_index_store. }
  assert (sc_by_index s1 child = Some y) as Hy1 by (rewrite E1; by rewrite decide_False).
  assert (forall j, sc_by_index s2 j = if decide (j = child) then Some ch else
                    if decide (j = parent) then Some p2 else sc_by_index s j) as E2.
  { intros j. unfold s2. rewrite (sc_by_index_store _ _ _ y) by done. by rewrite E1. }
  intros Heq. assert (sched_inv s2) as Hinv.
  2: { destruct (in_range 0 MAX_CPUS (sc_cpu p)); injection Heq as <- <-; (split; [|done]);
       [by eapply sched_inv_ext; [| |exact Hinv]|done]. }
  constructor.
  - by apply sc_store_tables.
  - intros i Hi. destruct (R i Hi) as (r & Hr & Hrl & Hrf).
    rewrite E2. rewrite decide_False by (intros ->; by eapply root_not_dyn).
    case_decide as Hip; [|by eauto]. subst i. rewrite Hp in Hr. injection Hr as <-.
    eexists. split; [done|]. done.
  - exists (fun i => if decide (i = child) then Datatypes.S (rank parent) else rank i).
    intros i sc Hi Hl. rewrite E2 in Hi. unfold live_ok.
    case_decide as Hic; [|case_decide as Hip].
    + injection Hi as <-. subst i. simpl. split_and!; try lia; [intros ?; by edestruct root_not_dyn|].
      intros _. rewrite (decide_False (P := parent = child)) by done. split_and!.
      * apply not_true_iff_false. unfold has_flag. intros HF%negb_true_iff%Z.eqb_neq. apply HF.
        rewrite <- Z.land_assoc. by rewrite Z.land_0_r.
      * lia.
      * exists p2. rewrite E2. rewrite decide_False, decide_True by done. done.
    + injection Hi as <-. subst i. simpl. split_and!; try lia; [done|].
      intros Hd. destruct (Hdyn Hd) as (? & Hrk & q & Hq & ? & ?). split_and!; [done| |].
      * rewrite decide_False; [done|]. intros Hx. rewrite Hx in Hq. congruence.
      * destruct (decide (sc_parent p = parent)) as [Hsp|]; [rewrite Hsp in Hrk; lia|].
        exists q. rewrite E2. rewrite decide_False by (intros Hx; rewrite Hx in Hq; congruence).
        by rewrite decide_False.
    + destruct (L i sc Hi Hl) as (? & ? & ? & HD). split_and!; try lia; [done|].
      intros Hd. destruct (HD Hd) as (? & ? & q & Hq & ? & ?).
      assert (sc_parent sc <> child) by (intros Hx; rewrite Hx in Hq; congruence).
      split_and!; [done|by rewrite !decide_False|]. rewrite E2, decide_False by done.
      case_decide as Hsp; [|by eauto]. exists p2. rewrite Hsp, Hp in Hq. injection Hq as <-. done.
  - intros c Hc. unfold s2. rewrite (cpu_total_store _ _ _ y) by done.
    unfold s1. rewrite (cpu_total_store _ _ _ p) by done. rewrite S by done.
    unfold sc_contrib; simpl. rewrite Hpl, Hyd. simpl. destruct (_ =? c); lia.
Qed.

(** *** Destroying keeps the invariant *)
Definition moved_up (idx hidx : Z) (k : sched_context) : sched_context :=
  if k.(sc_live) && (k.(sc_parent) =? idx) then sc_set_parent k hidx else k.

Lemma reparent_sc_spec idx hidx s i :
  tables_ok s ->
  tables_ok (reparent_sc idx hidx s i)
  /\ forall j, sc_by_index (reparent_sc idx hidx s i) j
      = if decide (j = i) then moved_up idx hidx <$> sc_by_index s j else sc_by_index s j.
Proof.
  intros T. unfold reparent_sc, moved_up. destruct (sc_by_index s i) as [k|] eqn:E.
  2: { split; [done|]. intros j. case_decide as Hj; [|done]. subst j. by rewrite E. }
  destruct (_ && _) eqn:Ec.
  - split; [by apply sc_store_tables|]. intros j. rewrite (sc_by_index_store _ _ _ k) by done.
    case_decide as Hj; [|done]. subst j. rewrite E. simpl. by rewrite Ec.
  - split; [done|]. intros j. case_decide as Hj; [|done]. subst j. rewrite E. simpl. by rewrite Ec.
Qed.

Lemma reparent_fold idx hidx l s :
  tables_ok s -> hidx <> idx ->
  let s' := foldl (reparent_sc idx hidx) s l in
  tables_ok s' /\ forall j, sc_by_index s' j
      = if decide (j ∈ l) then moved_up idx hidx <$> sc_by_index s j else sc_by_index s j.
Proof.
  intros T Hne. revert s T. induction l as [|i l IH]; intros s T; simpl.
  { by split. }
  destruct (reparent_sc_spec idx hidx s i T) as [T1 E1].
  destruct (IH _ T1) as [T2 E2]. split; [done|]. intros j. rewrite E2, E1.
  assert (forall k, moved_up idx hidx (moved_up idx hidx k) = moved_up idx hidx k) as Hidem.
  { intros k. unfold moved_up. destruct (sc_live k && (sc_parent k =? idx)) eqn:Ek;
      [|by rewrite Ek]. simpl. rewrite (proj2 (Z.eqb_neq hidx idx) Hne). by rewrite andb_false_r. }
  destruct (decide (j = i)) as [->|Hji].
  - rewrite (decide_True (P := i ∈ i :: l)) by left. case_decide; [|done].
    rewrite <- option_fmap_compose. destruct (sc_by_index s i); [|done]. simpl. by rewrite Hidem.
  - destruct (decide (j ∈ l)) as [Hl|Hl].
    + by rewrite (decide_True (P := j ∈ i :: l)) by (by right).
    + by rewrite (decide_False (P := j ∈ i :: l)) by (by apply not_elem_of_cons).
Qed.

(** The contexts after a carved context [idx] with contents [sc] is destroyed:
    it is dead, its parent has its share, and its children hang under its
    parent. *)
Definition destroyed_ctx (idx : Z) (sc heir : sched_context) (s : sched) (j : Z)
  : option sched_context :=
  let pre :=
    if decide (j = sc.(sc_parent))
    then Some (sc_set_share heir (rust_sc_reclaim heir.(share_ppm) sc.(share_ppm)))
    else if decide (j = idx) then Some (sc_set_live sc false) else sc_by_index s j in
  if decide (is_dyn_idx j) then moved_up idx sc.(sc_parent) <$> pre else pre.

Lemma find_heir_parent n s hidx h :
  (0 < n)%nat -> sc_by_index s hidx = Some h -> h.(sc_live) = true ->
  find_heir n s hidx = Some hidx.
Proof.
  intros Hn Hh Hl. destruct n as [|n]; [lia|]. simpl. destruct (Z.eqb_spec hidx 0) as [->|]; [done|]. by rewrite Hh, Hl.
Qed.

Lemma sc_stamp_idx_store s i sc : (sc_store s i sc).(sc_stamp_idx) = s.(sc_stamp_idx).
Proof. unfold sc_store. by repeat case_match. Qed.

Lemma sc_stamp_idx_reparent idx hidx l s :
  (foldl (reparent_sc idx hidx) s l).(sc_stamp_idx) = s.(sc_stamp_idx).
Proof.
  revert s. induction l as [|i l IH]; intros s; simpl; [done|]. rewrite IH. unfold reparent_sc.
  repeat case_match; by rewrite ?sc_stamp_idx_store.
Qed.

Lemma reclaim_share_spec fuel dyn s idx sc heir :
  (0 < fuel)%nat -> (forall j, j ∈ dyn <-> is_dyn_idx j) ->
  tables_ok s -> sc.(sc_parent) <> idx ->
  sc_by_index s sc.(sc_parent) = Some heir -> heir.(sc_live) = true ->
  let s' := reclaim_share fuel dyn idx sc s in
  let pre j := if decide (j = sc.(sc_parent))
               then Some (sc_set_share heir (rust_sc_reclaim heir.(share_ppm) sc.(share_ppm)))
               else sc_by_index s j in
  tables_ok s' /\ s'.(sc_stamp_idx) = s.(sc_stamp_idx)
  /\ forall j, sc_by_index s' j
       = if decide (is_dyn_idx j) then moved_up idx sc.(sc_parent) <$> pre j else pre j.
Proof.
  intros Hf Hdyn T Hp Hh Hhl. unfold reclaim_share. rewrite (find_heir_parent _ _ _ heir), Hh by done.
  set (s3 := sc_store s _ _). assert (tables_ok s3) as T3 by by apply sc_store_tables.
  destruct (reparent_fold idx sc.(sc_parent) dyn s3 T3 Hp) as [T4 E4].
  split_and!; [done|unfold s3; by rewrite sc_stamp_idx_reparent, sc_stamp_idx_store|].
  intros j. rewrite E4. unfold s3. rewrite (sc_by_index_store _ _ _ heir) by done.
  destruct (decide (is_dyn_idx j)) as [Hd|Hd]; rewrite <- Hdyn in Hd.
  - by rewrite (decide_True (P := j ∈ dyn)).
  - by rewrite (decide_False (P := j ∈ dyn)).
Qed.

Lemma uncount_carved_spec cpu s :
  (uncount_carved cpu s).(sc_roots) = s.(sc_roots) /\ (uncount_carved cpu s).(dyn_scs) = s.(dyn_scs)
  /\ (uncount_carved cpu s).(sc_stamp_idx) = s.(sc_stamp_idx).
Proof. unfold uncount_carved. by destruct (_ && _). Qed.

Lemma sched_context_destroyed_spec s idx sc heir :
  tables_ok s -> sc_by_index s idx = Some sc -> sc.(sc_live) = true ->
  has_flag sc.(sc_flags) SC_FLAG_ROOT = false ->
  sc.(sc_parent) <> idx -> sc_by_index s sc.(sc_parent) = Some heir -> heir.(sc_live) = true ->
  let s' := sched_context_destroyed s idx in
  tables_ok s' /\ (forall j, sc_by_index s' j = destroyed_ctx idx sc heir s j)
  /\ s'.(sc_stamp_idx) = ((fun x => if x =? idx then 0 else x) <$> s.(sc_stamp_idx)).
Proof.
  intros T Hi Hl Hf Hp Hh Hhl. unfold sched_context_destroyed. rewrite Hi, Hl, Hf. cbn [negb orb].
  set (s1 := sc_store s idx (sc_set_live sc false)).
  destruct (uncount_carved_spec sc.(sc_cpu) s1) as (U1 & U2 & U3).
  set (s2 := uncount_carved _ s1) in *.
  assert (forall j, sc_by_index s2 j
            = if decide (j = idx) then Some (sc_set_live sc false) else sc_by_index s j) as E1.
  { intros j. rewrite (sc_by_index_ext s1) by done. by eapply sc_by_index_store. }
  assert (tables_ok s2) as T2.
  { unfold tables_ok. rewrite U1, U2. by apply sc_store_tables. }
  destruct (reclaim_share_spec (Z.to_nat SC_INDEX_MAX) (seqZ DYN_SC_BASE MAX_DYN_SCHED_CONTEXTS)
              s2 idx sc heir) as (T3 & St3 & E3).
  { apply Nat.ltb_lt. vm_compute. reflexivity. }
  { intros j. rewrite elem_of_seqZ. reflexivity. }
  { done. } { done. } { rewrite E1. by rewrite decide_False. } { done. }
  revert T3 St3 E3. generalize (reclaim_share (Z.to_nat SC_INDEX_MAX)
    (seqZ DYN_SC_BASE MAX_DYN_SCHED_CONTEXTS) idx sc s2). intros s3 T3 St3 E3.
  split_and!; [done| |].
  - intros j. rewrite (sc_by_index_ext s3) by done. rewrite E3. unfold destroyed_ctx.
    destruct (decide (j = sc_parent sc)); [done|]. by rewrite E1.
  - simpl. rewrite St3, U3. unfold s1. by rewrite sc_stamp_idx_store.
Qed.

Lemma moved_up_fields idx hidx k :
  (moved_up idx hidx k).(sc_live) = k.(sc_live) /\ (moved_up idx hidx k).(sc_cpu) = k.(sc_cpu)
  /\ (moved_up idx hidx k).(share_ppm) = k.(share_ppm)
  /\ (moved_up idx hidx k).(sc_flags) = k.(sc_flags).
Proof. unfold moved_up. by destruct (_ && _). Qed.

Lemma sc_contrib_moved_up c idx hidx k : sc_contrib c (moved_up idx hidx k) = sc_contrib c k.
Proof. unfold sc_contrib. by destruct (moved_up_fields idx hidx k) as (-> & -> & -> & _). Qed.

(** Destroying a context moves its share to its parent: no CPU's total changes. *)
Lemma destroyed_total s s' idx sc heir c rank :
  (forall i k, sc_by_index s i = Some k -> k.(sc_live) = true -> live_ok s rank i k) ->
  cpu_total s c = SC_PPM_WHOLE ->
  sc_by_index s idx = Some sc -> sc.(sc_live) = true -> sc.(sc_parent) <> idx ->
  sc_by_index s sc.(sc_parent) = Some heir -> heir.(sc_live) = true ->
  heir.(sc_cpu) = sc.(sc_cpu) ->
  (forall j, sc_by_index s' j = destroyed_ctx idx sc heir s j) ->
  cpu_total s' c = SC_PPM_WHOLE.
Proof.
  intros L Htot Hi Hl Hne Hh Hhl Hcpu E. unfold cpu_total in *.
  set (f := contrib s c) in *. set (p := sc_parent sc) in *.
  pose proof (zsum_ge_two f sc_indices p idx sc_indices_NoDup
    (fun k _ => contrib_nonneg s rank L c k)
    (proj2 (sc_indices_elem _) (sc_by_index_valid _ _ _ Hh))
    (proj2 (sc_indices_elem _) (sc_by_index_valid _ _ _ Hi)) Hne) as Hge.
  assert (f p = sc_contrib c heir) as Hfp by by apply contrib_Some.
  assert (f idx = sc_contrib c sc) as Hfi by by apply contrib_Some.
  assert (contrib s' c p = sc_contrib c (sc_set_share heir
            (rust_sc_reclaim (share_ppm heir) (share_ppm sc)))) as Hnew.
  { unfold contrib. rewrite E. unfold destroyed_ctx.
    rewrite (decide_True (P := p = sc_parent sc)) by done.
    case_decide; simpl; [apply (sc_contrib_moved_up c idx p)|done]. }
  set (f1 := fun j => if decide (j = idx) then 0 else f j).
  rewrite (zsum_update f1 (contrib s' c) sc_indices p sc_indices_NoDup).
  - rewrite (zsum_update f f1 sc_indices idx sc_indices_NoDup).
    + rewrite Hnew, Hfp, Hfi in *. rewrite Htot in *. unfold f1.
      rewrite (decide_False (P := p = idx)), (decide_True (P := idx = idx)), Hfp by done.
      unfold sc_contrib in *; simpl in *. rewrite Hl, Hhl, Hcpu in *. simpl in *.
      destruct (sc_cpu sc =? c); [|lia]. unfold rust_sc_reclaim.
      destruct (Z.leb_spec (share_ppm heir + share_ppm sc) SC_PPM_WHOLE); lia.
    + apply sc_indices_elem. by eapply sc_by_index_valid.
    + intros j Hj. unfold f1. by rewrite decide_False.
  - apply sc_indices_elem. by eapply sc_by_index_valid.
  - intros j Hj. unfold contrib, f1, f. rewrite E. unfold destroyed_ctx.
    rewrite (decide_False (P := j = sc_parent sc)) by done.
    destruct (decide (j = idx)) as [Hji|Hji].
    + case_decide; simpl; [|done]. unfold moved_up; simpl. done.
    + unfold contrib. case_decide; [|done]. destruct (sc_by_index s j) as [k|]; [|done]. simpl.
      apply (sc_contrib_moved_up c idx p k).
Qed.

Lemma destroyed_live s s' idx sc heir rank :
  (forall i k, sc_by_index s i = Some k -> k.(sc_live) = true -> live_ok s rank i k) ->
  is_dyn_idx idx -> sc_by_index s idx = Some sc -> sc.(sc_live) = true ->
  sc_by_index s sc.(sc_parent) = Some heir -> heir.(sc_live) = true ->
  (forall j, sc_by_index s' j = destroyed_ctx idx sc heir s j) ->
  forall i k, sc_by_index s' i = Some k -> k.(sc_live) = true -> live_ok s' rank i k.
Proof.
  intros L Hdy Hi Hl Hh Hhl E i k' Hk' Hl'. set (p := sc_parent sc) in *.
  destruct (L idx sc Hi Hl) as (Hcpu & Hsh & _ & Hdyn).
  destruct (Hdyn Hdy) as (_ & Hrk & h & Hh' & _ & Hhc). fold p in Hrk, Hh'.
  rewrite Hh in Hh'. injection Hh' as <-.
  destruct (L p heir Hh Hhl) as (_ & Hhs & _ & _).
  (* every live context keeps its CPU; only its share and its parent can move *)
  assert (forall j a, sc_by_index s j = Some a -> a.(sc_live) = true -> j <> idx ->
            exists b, sc_by_index s' j = Some b /\ b.(sc_live) = true /\ b.(sc_cpu) = a.(sc_cpu)) as Hkeep.
  { intros j a Ha Hla Hj. rewrite E. unfold destroyed_ctx. fold p.
    rewrite (decide_False (P := j = idx)) by done. destruct (decide (j = p)) as [Hjp|Hjp].
    - rewrite Hjp, Hh in Ha. injection Ha as <-.
      case_decide; eexists; (split; [done|]); [|done].
      destruct (moved_up_fields idx p (sc_set_share heir
        (rust_sc_reclaim heir.(share_ppm) sc.(share_ppm)))) as (-> & -> & _ & _). done.
    - rewrite Ha. case_decide; eexists; (split; [done|]); [|done].
      destruct (moved_up_fields idx p a) as (-> & -> & _ & _). done. }
  assert (exists k x, sc_by_index s i = Some k /\ k.(sc_live) = true /\ i <> idx /\ 0 <= x
            /\ k' = (if decide (is_dyn_idx i) then moved_up idx p (sc_set_share k x)
                     else sc_set_share k x)) as (k & x & Hk & Hkl & Hii & Hx & ->).
  { rewrite E in Hk'. unfold destroyed_ctx in Hk'. fold p in Hk'.
    destruct (decide (i = p)) as [->|Hip].
    - exists heir, (rust_sc_reclaim heir.(share_ppm) sc.(share_ppm)).
      split_and!; [done|done|intros ->; lia| |].
      + unfold rust_sc_reclaim, SC_PPM_WHOLE. destruct (Z.leb_spec (share_ppm heir + share_ppm sc) 1000000); lia.
      + case_decide; naive_solver.
    - destruct (decide (i = idx)) as [->|Hii].
      { rewrite decide_True in Hk' by done. simpl in Hk'. injection Hk' as <-. done. }
      destruct (sc_by_index s i) as [a|] eqn:Ha; [|by case_decide].
      assert (sc_live a = true) as Hla.
      { case_decide; simpl in Hk'; injection Hk' as <-; [|done].
        by destruct (moved_up_fields idx p a) as (<- & _). }
      exists a, a.(share_ppm). split_and!; [done..|by destruct (L i a Ha Hla) as (_ & ? & _)|].
      assert (sc_set_share a a.(share_ppm) = a) as -> by by destruct a.
      case_decide; naive_solver. }
  destruct (L i k Hk Hkl) as (Kc & _ & Kr & Kd). unfold live_ok.
  destruct (decide (is_dyn_idx i)) as [Hdi|Hdi].
  2: { simpl. split_and!; try lia; [done|]. tauto. }
  destruct (moved_up_fields idx p (sc_set_share k x)) as (_ & -> & -> & ->). simpl.
  split_and!; try lia; [done|]. intros _. destruct (Kd Hdi) as (Kf & Krk & a & Ha & Hal & Hac).
  split; [done|]. unfold moved_up; simpl. rewrite Hkl. simpl.
  destruct (Z.eqb_spec (sc_parent k) idx) as [Hpk|Hpk]; simpl.
  - rewrite Hpk in *. split; [lia|]. rewrite Hi in Ha. injection Ha as <-.
    destruct (Hkeep p heir Hh Hhl) as (b & ? & ? & ?); [intros ->; lia|]. exists b. split_and!; congruence.
  - split; [done|]. destruct (Hkeep _ a Ha Hal Hpk) as (b & ? & ? & ?). exists b.
    split_and!; congruence.
Qed.

Lemma sched_context_destroyed_inv s idx :
  sched_inv s -> is_dyn_idx idx -> sched_inv (sched_context_destroyed s idx).
Proof.
  intros Hs Hdy. pose proof Hs as [T R [rank L] S].
  destruct (sc_by_index s idx) as [sc|] eqn:Hi.
  2: { unfold sched_context_destroyed. by rewrite Hi. }
  destruct (sc_live sc) eqn:Hl.
  2: { unfold sched_context_destroyed. by rewrite Hi, Hl. }
  destruct (L idx sc Hi Hl) as (_ & _ & _ & HD).
  destruct (HD Hdy) as (Hf & Hrk & heir & Hh & Hhl & Hhc).
  assert (sc_parent sc <> idx) as Hne by (intros Hx; rewrite Hx in Hrk; lia).
  destruct (sched_context_destroyed_spec s idx sc heir T Hi Hl Hf Hne Hh Hhl) as (T' & E & _).
  constructor.
  - done.
  - intros i Hri. destruct (R i Hri) as (r & Hr & Hrl & Hrf). rewrite E. unfold destroyed_ctx.
    rewrite (decide_False (P := is_dyn_idx i)) by (by apply root_not_dyn).
    destruct (decide (i = sc_parent sc)) as [->|Hip];
      [|rewrite decide_False by (intros ->; by eapply root_not_dyn); by eauto].
    eexists. split; [done|]. rewrite Hh in Hr. injection Hr as <-. done.
  - exists rank. by eapply destroyed_live.
  - intros c Hc. apply (destroyed_total s _ idx sc heir c rank); auto.
Qed.

(** *** Boot *)
Lemma sched_contexts_init_inv s now :
  zlen s.(dyn_scs) = MAX_DYN_SCHED_CONTEXTS ->
  (forall i, is_dyn_idx i -> sc_by_index s i = None) ->
  sched_inv (sched_contexts_init s now).
Proof.
  intros Hd Hnone.
  assert (forall i, is_root_idx i ->
            sc_by_index (sched_contexts_init s now) i = Some (sc_root_init (i - SC_ROOT_BASE) now)) as Hr.
  { intros i Hi. unfold sc_by_index. rewrite (proj2 (in_range_spec _ _ _) Hi). f_equal.
    unfold is_root_idx in Hi. unfold sched_contexts_init. cbn [sc_roots].
    rewrite zget_lookup by lia. rewrite list_lookup_fmap.
    rewrite (proj2 (lookup_seqZ 0 MAX_CPUS _ (i - SC_ROOT_BASE))) by lia. done. }
  assert (forall i, ~ is_root_idx i -> sc_by_index (sched_contexts_init s now) i = None) as Hn.
  { intros i Hi. destruct (sc_by_index _ i) as [x|] eqn:E; [|done].
    destruct (sc_by_index_valid _ _ _ E) as [?|Hdy]; [done|].
    assert (sc_by_index s i = None) as Hs by by apply Hnone.
    unfold sc_by_index in *. rewrite (proj2 (in_range_false _ _ _) Hi) in *. by rewrite <- Hs, <- E. }
  constructor.
  - split; [done|done].
  - intros i Hi. eexists. split; [by apply Hr|]. done.
  - exists (fun _ => O). intros i sc Hi Hl.
    assert (is_root_idx i) as Hri.
    { destruct (decide (SC_ROOT_BASE <= i < SC_ROOT_BASE + MAX_CPUS)); [done|].
      by rewrite Hn in Hi. }
    rewrite Hr in Hi by done. injection Hi as <-. unfold live_ok, is_root_idx in *. simpl.
    split_and!; try lia; [unfold SC_PPM_WHOLE; lia|]. intros ?. by edestruct root_not_dyn.
  - intros c Hc. unfold cpu_total.
    set (f := fun i => if decide (i = c + SC_ROOT_BASE) then SC_PPM_WHOLE else 0).
    rewrite (zsum_ext _ f).
    + rewrite (zsum_update (fun _ => 0) f sc_indices (c + SC_ROOT_BASE) sc_indices_NoDup).
      * unfold f. rewrite decide_True by done.
        assert (forall l, zsum (fun _ => 0) l = 0) as -> by (induction l; simpl; lia). lia.
      * apply sc_indices_elem. left. unfold is_root_idx. lia.
      * intros j Hj. unfold f. by rewrite decide_False.
    + intros i _. unfold contrib, f.
      destruct (decide (SC_ROOT_BASE <= i < SC_ROOT_BASE + MAX_CPUS)) as [Hi|Hi].
      * rewrite Hr by done. simpl. destruct (Z.eqb_spec (i - SC_ROOT_BASE) c); case_decide; lia.
      * rewrite Hn by done. rewrite decide_False; [done|]. lia.
Qed.

(** *** Refilling *)

(** A refill never leaves more than one budget. *)
Lemma sc_projected_le_budget sc now :
  0 <= sc_budget_us sc -> sc.(remaining_us) <= sc_budget_us sc ->
  (sc_projected sc now).1 <= sc_budget_us sc.
Proof.
  intros Hb Hr. unfold sc_projected. destruct (_ || _); [done|]. destruct (_ =? 0); [done|].
  destruct (Z.leb_spec (sc_budget_us sc) 0); [destruct (Z.ltb_spec 0 sc.(remaining_us)); simpl; lia|].
  destruct (Z.ltb_spec sc.(remaining_us) 0) as [Hr0|]; simpl; [|lia].
  destruct (Z.leb_spec ((now - sc.(period_start_us)) / sc.(sc_period_us)) (- sc.(remaining_us) / sc_budget_us sc))
    as [Hn|]; simpl; [|lia].
  pose proof (Z.mul_div_le (- sc.(remaining_us)) (sc_budget_us sc)). nia.
Qed.

(** After a refresh the clock is inside the context's period. *)
Lemma sc_refresh_period sc cpu now :
  sc.(sc_cpu) = cpu -> 0 < sc.(sc_period_us) -> sc.(period_start_us) <= now ->
  let sc' := sc_refresh sc cpu now in
  sc'.(period_start_us) <= now < sc'.(period_start_us) + sc'.(sc_period_us).
Proof.
  intros <- Hp Hs. unfold sc_refresh. rewrite Z.eqb_refl. simpl.
  destruct (sc_projected sc now) as [r n] eqn:E.
  assert (n = (now - sc.(period_start_us)) / sc.(sc_period_us)) as Hn.
  { revert E. unfold sc_projected. destruct (Z.ltb_spec now sc.(period_start_us)); [lia|].
    destruct (Z.eqb_spec sc.(sc_period_us) 0); [lia|]. simpl.
    destruct (Z.eqb_spec ((now - sc.(period_start_us)) / sc.(sc_period_us)) 0) as [->|];
      [intros [= <- <-]; done|]. repeat case_match; by intros [= <- <-]. }
  pose proof (Z.div_mod (now - sc.(period_start_us)) sc.(sc_period_us) ltac:(lia)) as Hd.
  pose proof (Z.mod_pos_bound (now - sc.(period_start_us)) sc.(sc_period_us) Hp) as Hm.
  rewrite <- Hn in Hd. destruct (Z.eqb_spec n 0); simpl; nia.
Qed.

(** *** Charging *)
Lemma sc_refresh_fields sc cpu now :
  (sc_refresh sc cpu now).(sc_live) = sc.(sc_live) /\ (sc_refresh sc cpu now).(sc_cpu) = sc.(sc_cpu)
  /\ (sc_refresh sc cpu now).(share_ppm) = sc.(share_ppm)
  /\ (sc_refresh sc cpu now).(sc_flags) = sc.(sc_flags)
  /\ (sc_refresh sc cpu now).(sc_parent) = sc.(sc_parent).
Proof. unfold sc_refresh. repeat case_match; done. Qed.

(** Updates that keep a context's place in the tree and its share. *)
Definition same_tree (a b : sched_context) : Prop :=
  b.(sc_live) = a.(sc_live) /\ b.(sc_cpu) = a.(sc_cpu) /\ b.(share_ppm) = a.(share_ppm)
  /\ b.(sc_flags) = a.(sc_flags) /\ b.(sc_parent) = a.(sc_parent).

Lemma charge_run_same_tree sc cpu from now : same_tree sc (charge_run sc cpu from now).
Proof.
  unfold charge_run. destruct (_ && _); simpl; [|done].
  set (x := sc_set_time _ _ _). pose proof (sc_refresh_fields x cpu now) as (? & ? & ? & ? & ?).
  unfold same_tree; simpl. split_and!; done.
Qed.

Lemma sched_inv_store s i a b :
  sched_inv s -> sc_by_index s i = Some a -> same_tree a b -> sched_inv (sc_store s i b).
Proof.
  intros [T R [rank L] S] Hi (Hl & Hc & Hs & Hf & Hp).
  assert (forall j, sc_by_index (sc_store s i b) j = if decide (j = i) then Some b else sc_by_index s j) as E.
  { intros j. by eapply sc_by_index_store. }
  constructor.
  - by apply sc_store_tables.
  - intros j Hj. destruct (R j Hj) as (r & Hr & ? & ?). rewrite E. case_decide as Hji; [|eauto].
    subst j. rewrite Hi in Hr. injection Hr as <-. exists b. split; [done|]. by rewrite Hl, Hf.
  - exists rank. intros j sc Hj Hlj.
    assert (exists sc0, sc_by_index s j = Some sc0 /\ same_tree sc0 sc) as (sc0 & H0 & Hst).
    { rewrite E in Hj. case_decide as Hji; [|by exists sc]. subst j. injection Hj as <-. by exists a. }
    destruct Hst as (Kl & Kc & Ks & Kf & Kp). rewrite Kl in Hlj.
    destruct (L j sc0 H0 Hlj) as (? & ? & ? & HD). unfold live_ok. rewrite Kc, Ks, Kf, Kp.
    split_and!; [lia..|done|]. intros Hd. destruct (HD Hd) as (? & ? & q & Hq & ? & ?).
    split_and!; [done..|]. rewrite E. case_decide as Hqi; [|eauto].
    exists b. rewrite Hqi, Hi in Hq. injection Hq as <-. by rewrite Hl, Hc.
  - intros c Hcr. rewrite (cpu_total_store _ _ _ a) by done. rewrite S by done.
    unfold sc_contrib. rewrite Hl, Hc, Hs. lia.
Qed.

Lemma sched_inv_charge s cpu now : sched_inv s -> sched_inv (sc_charge s cpu now).
Proof.
  intros Hs. unfold sc_charge.
  destruct (sc_by_index s _) as [sc|] eqn:E.
  2: { destruct (_ <? now); [|done]. by eapply sched_inv_ext; [| |exact Hs]. }
  destruct (_ && _).
  - pose proof (sched_inv_store _ _ _ _ Hs E
      (charge_run_same_tree sc cpu (zget 0 s.(sc_stamp_us) cpu) now)) as H1.
    destruct (_ <? now); [by eapply sched_inv_ext; [| |exact H1]|done].
  - destruct (_ <? now); [|done]. by eapply sched_inv_ext; [| |exact Hs].
Qed.

Lemma sc_store_stamps s i sc :
  (sc_store s i sc).(sc_stamp_idx) = s.(sc_stamp_idx)
  /\ (sc_store s i sc).(sc_stamp_us) = s.(sc_stamp_us)
  /\ (sc_store s i sc).(task_sc_index) = s.(task_sc_index).
Proof. unfold sc_store. by repeat case_match. Qed.

Lemma sc_charge_stamps s cpu now : (sc_charge s cpu now).(sc_stamp_idx) = s.(sc_stamp_idx).
Proof.
  unfold sc_charge. repeat case_match; simpl; try done; by destruct (sc_store_stamps s
    (zget 0 (sc_stamp_idx s) cpu) (charge_run s0 cpu (zget 0 (sc_stamp_us s) cpu) now)) as (-> & _).
Qed.

(** What a charge writes: only the stamped context, by [charge_run]. *)
Lemma sc_charge_by_index s cpu now j :
  tables_ok s ->
  sc_by_index (sc_charge s cpu now) j
  = match sc_by_index s j with
    | Some sc => if bool_decide (j = zget 0 s.(sc_stamp_idx) cpu) && sc.(sc_live)
                    && (zget 0 s.(sc_stamp_us) cpu <? now)
                 then Some (charge_run sc cpu (zget 0 s.(sc_stamp_us) cpu) now) else Some sc
    | None => None
    end.
Proof.
  intros T. unfold sc_charge. set (idx := zget 0 (sc_stamp_idx s) cpu).
  set (from := zget 0 (sc_stamp_us s) cpu).
  assert (forall s1, sc_by_index (if from <? now then set_stamps s1 s1.(sc_stamp_idx)
            (zset s1.(sc_stamp_us) cpu now) else s1) j = sc_by_index s1 j) as ->.
  { intros s1. by destruct (from <? now). }
  destruct (sc_by_index s idx) as [sc|] eqn:E.
  - destruct (sc_live sc && (from <? now)) eqn:Ec.
    + rewrite (sc_by_index_store _ _ _ sc) by done. destruct (decide (j = idx)) as [->|Hj].
      * rewrite E, bool_decide_true by done. by rewrite andb_true_l, Ec.
      * rewrite bool_decide_false by done. simpl. by destruct (sc_by_index s j).
    + destruct (sc_by_index s j) as [x|] eqn:Ej; [|done].
      case_bool_decide as Hj; [|done]. subst j. rewrite E in Ej. injection Ej as <-.
      by rewrite andb_true_l, Ec.
  - destruct (sc_by_index s j) as [x|] eqn:Ej; [|done].
    case_bool_decide as Hj; [|done]. subst j. congruence.
Qed.

Lemma stamps_inv_charge s cpu now :
  tables_ok s -> stamps_inv s -> stamps_inv (sc_charge s cpu now).
Proof.
  intros T Hs c Hc. rewrite sc_charge_stamps. intros Hn. destruct (Hs c Hc Hn) as (sc & E & Hl & Hcpu).
  rewrite sc_charge_by_index by done. rewrite E. destruct (_ && _); [|eauto].
  eexists. split; [done|]. destruct (charge_run_same_tree sc cpu (zget 0 s.(sc_stamp_us) cpu) now)
    as (-> & -> & _). done.
Qed.

Lemma stamps_inv_store s i a b :
  tables_ok s -> stamps_inv s -> sc_by_index s i = Some a -> same_tree a b ->
  stamps_inv (sc_store s i b).
Proof.
  intros T Hs Hi (Hl & Hc & _) c Hcr. destruct (sc_store_stamps s i b) as (-> & _).
  intros Hn. destruct (Hs c Hcr Hn) as (sc & E & ? & ?).
  rewrite (sc_by_index_store _ _ _ a) by done. case_decide as Hj; [|eauto].
  exists b. rewrite Hj, Hi in E. injection E as <-. by rewrite Hl, Hc.
Qed.

(** Writing a stamp: zero, or a live context of that CPU. *)
Lemma stamps_inv_stamp s cpu idx us :
  stamps_inv s ->
  (idx <> 0 -> exists sc, sc_by_index s idx = Some sc /\ sc.(sc_live) = true /\ sc.(sc_cpu) = cpu) ->
  stamps_inv (set_stamps s (zset s.(sc_stamp_idx) cpu idx) us).
Proof.
  intros Hs Hi c Hc. cbn [sc_stamp_idx set_stamps]. rewrite zget_zset. case_bool_decide as Hb.
  - destruct Hb as [-> _]. intros (sc & ? & ? & ?)%Hi. eauto.
  - intros Hn. destruct (Hs c Hc Hn) as (sc & ? & ? & ?). eauto.
Qed.

Lemma sc_account_stamp_inv s g cpu chosen cur runs now :
  sched_inv s -> stamps_inv s ->
  let s' := (sc_account_stamp s g cpu chosen cur runs now).2 in sched_inv s' /\ stamps_inv s'.
Proof.
  intros Hs Hst. unfold sc_account_stamp.
  pose proof (sched_inv_charge s cpu now Hs) as H1.
  pose proof (stamps_inv_charge s cpu now (si_tables _ Hs) Hst) as H2.
  set (s1 := sc_charge s cpu now) in *. set (s2 := set_stamps s1 _ _).
  assert (sched_inv s2) as K1 by (by eapply sched_inv_ext; [| |exact H1]).
  assert (stamps_inv s2) as K2 by (by apply stamps_inv_stamp).
  set (ch := if chosen <=? 0 then _ else _). destruct (ch =? 0); [done|].
  destruct (task_sc s2 g ch) as [[idx sc]|] eqn:E; [|done].
  assert (idx = zget 0 s2.(task_sc_index) ch /\ sc_by_index s2 idx = Some sc /\ sc.(sc_live) = true)
    as (Hidx & Hsc & Hl).
  { revert E. unfold task_sc. destruct (_ || _); [done|].
    destruct (sc_by_index s2 _) eqn:E1; [|done]. destruct (sc_live _) eqn:E2; [|done].
    intros [= <- <-]. done. }
  destruct (Z.eqb_spec sc.(sc_cpu) cpu) as [Hcpu|]; [|done]. simpl.
  assert (same_tree sc (sc_refresh sc cpu now)) as Hsame by apply sc_refresh_fields.
  set (s3 := sc_store s2 idx (sc_refresh sc cpu now)).
  assert (sched_inv s3) as M1 by by eapply sched_inv_store.
  assert (stamps_inv s3) as M2 by (eapply stamps_inv_store; eauto using si_tables).
  destruct (remaining_us (sc_refresh sc cpu now) <=? 0); [done|].
  cbn [snd]. split; [by eapply sched_inv_ext; [| |exact M1]|].
  apply stamps_inv_stamp; [done|]. intros _.
  assert (s3.(task_sc_index) = s2.(task_sc_index)) as -> by apply sc_store_stamps.
  rewrite <- Hidx. exists (sc_refresh sc cpu now). destruct Hsame as (-> & -> & _).
  split_and!; [|done|done]. unfold s3. rewrite (sc_by_index_store _ _ _ sc); [|apply K1|done].
  by rewrite decide_True.
Qed.

(** A context that is live keeps its CPU across a carve. *)
Lemma sched_carve_stamps s parent child budget period flags now rc s' y :
  sched_inv s -> stamps_inv s -> is_dyn_idx child -> sc_by_index s child = Some y ->
  y.(sc_live) = false ->
  sched_carve s parent child budget period flags now = (rc, s') -> stamps_inv s'.
Proof.
  intros Hs Hst Hch Hy Hyd. pose proof (si_tables _ Hs) as T. unfold sched_carve. rewrite Hy.
  destruct (negb _); [by intros [= <- <-]|].
  destruct (sc_by_index s parent) as [p|] eqn:Hp; [|by intros [= <- <-]].
  destruct (sc_live p) eqn:Hpl; simpl; [|by intros [= <- <-]].
  destruct (_ && _); [by intros [= <- <-]|].
  destruct (rust_sc_split _ _ _) as [[np nc]|e]; [|by intros [= <- <-]].
  set (p2 := mk_sc _ _ np _ _ _ _ _ _ _). set (ch := mk_sc true _ nc _ _ _ _ _ _ _).
  set (s1 := sc_store s parent p2). set (s2 := sc_store s1 child ch). intros Heq.
  assert (stamps_inv s2) as H2; [|destruct (in_range _ _ _); by injection Heq as <- <-].
  intros c Hc. unfold s2, s1. rewrite !sc_stamp_idx_store. intros Hn.
  destruct (Hst c Hc Hn) as (sc & E & Hl & Hcpu).
  assert (parent <> child) as Hne by (intros ->; congruence).
  rewrite (sc_by_index_store _ _ _ y);
    [|by apply sc_store_tables|rewrite (sc_by_index_store _ _ _ p) by done; by rewrite decide_False].
  rewrite decide_False by (intros Hx; rewrite Hx in E; congruence).
  rewrite (sc_by_index_store _ _ _ p) by done. case_decide as Hx; [|eauto].
  exists p2. rewrite Hx, Hp in E. injection E as <-. done.
Qed.

Lemma sched_context_destroyed_stamps s idx :
  sched_inv s -> stamps_inv s -> is_dyn_idx idx -> stamps_inv (sched_context_destroyed s idx).
Proof.
  intros Hs Hst Hdy. pose proof Hs as [T R [rank L] S].
  destruct (sc_by_index s idx) as [sc|] eqn:Hi.
  2: { unfold sched_context_destroyed. by rewrite Hi. }
  destruct (sc_live sc) eqn:Hl.
  2: { unfold sched_context_destroyed. by rewrite Hi, Hl. }
  destruct (L idx sc Hi Hl) as (_ & _ & _ & HD).
  destruct (HD Hdy) as (Hf & Hrk & heir & Hh & Hhl & Hhc).
  assert (sc_parent sc <> idx) as Hne by (intros Hx; rewrite Hx in Hrk; lia).
  destruct (sched_context_destroyed_spec s idx sc heir T Hi Hl Hf Hne Hh Hhl) as (T' & E & St).
  intros c Hc. rewrite St.
  assert (zget 0 ((fun x => if x =? idx then 0 else x) <$> s.(sc_stamp_idx)) c
          = let x := zget 0 s.(sc_stamp_idx) c in if x =? idx then 0 else x) as ->.
  { rewrite !zget_lookup by lia. rewrite list_lookup_fmap.
    destruct (s.(sc_stamp_idx) !! Z.to_nat c); simpl; [done|].
    by destruct idx. }
  cbv zeta. set (x := zget 0 (sc_stamp_idx s) c). destruct (Z.eqb_spec x idx) as [|Hx]; [done|].
  intros Hn. destruct (Hst c Hc Hn) as (a & Ha & Hal & Hac). fold x in Ha. rewrite E.
  unfold destroyed_ctx. rewrite (decide_False (P := x = idx)) by done.
  destruct (decide (x = sc_parent sc)) as [Hxp|Hxp].
  - rewrite Hxp, Hh in Ha. injection Ha as <-. case_decide; eexists; (split; [done|]); [|done].
    match goal with |- sc_live (moved_up ?i ?h ?k) = _ /\ _ =>
      destruct (moved_up_fields i h k) as (-> & -> & _) end. done.
  - rewrite Ha. case_decide; eexists; (split; [done|]); [|done].
    destruct (moved_up_fields idx (sc_parent sc) a) as (-> & -> & _). done.
Qed.

(** ** The operations as steps *)

(** A descriptor of the collector or the allocator: an index without a live
    context gets a zeroed one, or none. *)
Definition set_dyn_slot (s : sched) (i : Z) (k : kobj_slot sched_context) : sched :=
  mk_sched s.(sc_roots) (zset s.(dyn_scs) (i - DYN_SC_BASE) k) s.(sc_carved_live)
           s.(sc_stamp_idx) s.(sc_stamp_us) s.(task_sc_index).

Definition not_live (o : option sched_context) : Prop :=
  match o with Some sc => sc.(sc_live) = false | None => True end.

Inductive sched_step : sched -> sched -> Prop :=
| ss_object s i k :
    is_dyn_idx i -> not_live (sc_by_index s i) -> (ks_obj k = None \/ ks_obj k = Some sc_zero) ->
    sched_step s (set_dyn_slot s i k)
| ss_carve s parent child budget period flags now y :
    0 <= budget -> is_dyn_idx child -> sc_by_index s child = Some y -> y.(sc_live) = false ->
    sched_step s (sched_carve s parent child budget period flags now).2
| ss_destroy s idx :
    is_dyn_idx idx -> sched_step s (sched_context_destroyed s idx)
| ss_bind s g state target idx :
    sched_step s (sched_bind s g state target idx).2
| ss_account s g cpu chosen cur runs now :
    sched_step s (sc_account_stamp s g cpu chosen cur runs now).2.

(** The states reachable from boot. *)
Inductive sched_reach : sched -> Prop :=
| sr_boot s now :
    zlen s.(dyn_scs) = MAX_DYN_SCHED_CONTEXTS ->
    (forall i, is_dyn_idx i -> sc_by_index s i = None) ->
    sched_reach (sched_contexts_init s now)
| sr_step s s' : sched_reach s -> sched_step s s' -> sched_reach s'.

Lemma set_dyn_slot_by_index s i k j :
  tables_ok s -> is_dyn_idx i ->
  sc_by_index (set_dyn_slot s i k) j = if decide (j = i) then ks_obj k else sc_by_index s j.
Proof.
  intros [_ Hd] Hi. unfold sc_by_index, sc_dyn_by_index; simpl.
  pose proof Hi as Hi'. unfold is_dyn_idx, SC_INDEX_MAX in Hi'. case_decide as Hj.
  - subst j. rewrite (proj2 (in_range_spec _ _ _) Hi).
    rewrite (proj2 (in_range_false _ _ i)); [|intros H; by apply (root_not_dyn i)]. simpl.
    by rewrite zget_zset_eq by (rewrite Hd; lia).
  - destruct (in_range SC_ROOT_BASE _ j); [done|]. destruct (in_range DYN_SC_BASE _ j); [|done].
    simpl. rewrite zget_zset_ne; [done|lia].
Qed.

Lemma set_dyn_slot_inv s i k :
  sched_inv s -> stamps_inv s -> is_dyn_idx i -> not_live (sc_by_index s i) ->
  (ks_obj k = None \/ ks_obj k = Some sc_zero) ->
  sched_inv (set_dyn_slot s i k) /\ stamps_inv (set_dyn_slot s i k).
Proof.
  intros [T R [rank L] S] Hst Hi Hn Hk.
  assert (forall j, sc_by_index (set_dyn_slot s i k) j = if decide (j = i) then ks_obj k else sc_by_index s j)
    as E by (intros; by apply set_dyn_slot_by_index).
  assert (forall j sc, sc_by_index s j = Some sc -> sc.(sc_live) = true ->
            sc_by_index (set_dyn_slot s i k) j = Some sc) as Hkeep.
  { intros j sc Hj Hl. rewrite E, decide_False; [done|]. intros ->. rewrite Hj in Hn. simpl in Hn. congruence. }
  assert (forall j sc, sc_by_index (set_dyn_slot s i k) j = Some sc -> sc.(sc_live) = true ->
            sc_by_index s j = Some sc) as Hback.
  { intros j sc. rewrite E. case_decide; [|done]. destruct Hk as [-> | ->]; [done|].
    intros [= <-]. done. }
  split; [constructor|].
  - destruct T as [T1 T2]. split; [done|]. simpl. by rewrite zlen_zset.
  - intros j Hj. destruct (R j Hj) as (r & Hr & ? & ?). exists r. split_and!; [by apply Hkeep|done..].
  - exists rank. intros j sc Hj Hl. apply Hback in Hj; [|done].
    destruct (L j sc Hj Hl) as (? & ? & ? & HD). split_and!; [lia..|done|].
    intros Hd. destruct (HD Hd) as (? & ? & q & ? & ? & ?). split_and!; [done..|].
    exists q. split_and!; [by apply Hkeep|done..].
  - intros c Hc. rewrite <- (S c Hc). apply zsum_ext. intros j _. unfold contrib. rewrite E.
    case_decide as Hj; [|done]. subst j. destruct (sc_by_index s i) as [y|]; simpl in Hn.
    + rewrite Hn. by destruct Hk as [-> | ->].
    + by destruct Hk as [-> | ->].
  - intros c Hc Hz. destruct (Hst c Hc Hz) as (sc & ? & ? & ?). exists sc.
    split_and!; [by apply Hkeep|done..].
Qed.

Lemma sched_step_inv s s' :
  sched_inv s -> stamps_inv s -> sched_step s s' -> sched_inv s' /\ stamps_inv s'.
Proof.
  intros Hs Hst Hstep. destruct Hstep.
  - by apply set_dyn_slot_inv.
  - destruct (sched_carve _ _ _ _ _ _ _) as [rc s'] eqn:E. simpl.
    split; [by eapply sched_carve_inv|by eapply sched_carve_stamps].
  - split; [by apply sched_context_destroyed_inv|by apply sched_context_destroyed_stamps].
  - unfold sched_bind. repeat case_match; simpl; try done.
    split; [by eapply sched_inv_ext; [| |exact Hs]|done].
  - by apply sc_account_stamp_inv.
Qed.

Lemma sched_reach_inv s : sched_reach s -> sched_inv s /\ stamps_inv s.
Proof.
  induction 1 as [s now Hd Hn|s s' _ [IH1 IH2] Hstep]; [|by eapply sched_step_inv].
  split; [by apply sched_contexts_init_inv|].
  intros c Hc Hz. destruct Hz. cbn [sched_contexts_init sc_stamp_idx].
  apply zget_replicate. unfold MAX_CPUS in *. lia.
Qed.

(** ** Theorems *)

(** C29: in every state reachable from boot by carving, destroying, binding,
    refilling and charging, the shares of the live contexts of each CPU add up
    to exactly one CPU, and no context holds more: splitting and destroying
    move CPU time, and nothing makes any (S152). *)
Theorem sched_share_conserved s c :
  sched_reach s -> 0 <= c < MAX_CPUS ->
  cpu_total s c = SC_PPM_WHOLE
  /\ (forall i sc, sc_by_index s i = Some sc -> sc.(sc_live) = true -> sc.(sc_cpu) = c ->
       0 <= sc.(share_ppm) <= SC_PPM_WHOLE).
Proof.
  intros Hr Hc. destruct (sched_reach_inv s Hr) as [[T R [rank L] S] _].
  split; [by apply S|]. intros i sc Hi Hl Hcpu.
  destruct (L i sc Hi Hl) as (_ & ? & _). split; [done|]. rewrite <- (S c Hc).
  assert (contrib s c i = share_ppm sc) as <-.
  { rewrite (contrib_Some _ _ _ _ Hi). unfold sc_contrib. rewrite Hl, Hcpu. by rewrite Z.eqb_refl. }
  apply zsum_ge_one; [intros; by eapply contrib_nonneg|].
  apply sc_indices_elem. by eapply sc_by_index_valid.
Qed.

(** A boot state and what one split of it looks like. *)
Definition sched_empty : sched :=
  mk_sched [] (replicate (Z.to_nat MAX_DYN_SCHED_CONTEXTS) kslot_zero)
           (replicate (Z.to_nat MAX_CPUS) 0) (replicate (Z.to_nat MAX_CPUS) 0)
           (replicate (Z.to_nat MAX_CPUS) 0) (replicate (Z.to_nat MAX_TASKS) 0).
Definition sched_example : sched :=
  (sched_carve (set_dyn_slot (sched_contexts_init sched_empty 0) DYN_SC_BASE
                  (mk_kslot (Some (64, sc_zero)) 1 true 0))
               1 DYN_SC_BASE 20000 100000 0 5).2.

Lemma sched_empty_dyn i : is_dyn_idx i -> sc_by_index sched_empty i = None.
Proof.
  intros Hi. unfold sc_by_index, sc_dyn_by_index.
  rewrite (proj2 (in_range_spec _ _ _) Hi).
  rewrite (proj2 (in_range_false _ _ i)); [|intros H; by apply (root_not_dyn i)].
  unfold sched_empty. cbn [dyn_scs negb]. rewrite zget_replicate; [done|].
  unfold is_dyn_idx, SC_INDEX_MAX, MAX_DYN_SCHED_CONTEXTS, MAX_TASKS in *. lia.
Qed.

Lemma sched_example_reach : sched_reach sched_example.
Proof.
  eapply sr_step.
  - eapply sr_step; [apply (sr_boot sched_empty 0); [done|apply sched_empty_dyn]|].
    apply (ss_object _ DYN_SC_BASE (mk_kslot (Some (64, sc_zero)) 1 true 0)); [done| |by right].
    by vm_compute.
  - apply (ss_carve _ 1 DYN_SC_BASE 20000 100000 0 5 sc_zero); [done|done|by vm_compute|done].
Qed.

Lemma sched_share_conserved_witness :
  cpu_total sched_example 0 = SC_PPM_WHOLE
  /\ option_map share_ppm (sc_by_index sched_example DYN_SC_BASE) = Some 200000.
Proof.
  split; [|by vm_compute].
  apply (sched_share_conserved sched_example 0); [apply sched_example_reach|by unfold MAX_CPUS].
Defined.

(** In every reachable state a CPU that charges for the time it ran changes
    no context of another CPU: a budget is charged only by the CPU it belongs
    to, whatever tasks moved between CPUs in the meantime (S152). *)
Theorem charge_own_cpu s cpu now j sc :
  sched_reach s -> 0 <= cpu < MAX_CPUS -> sc_by_index s j = Some sc -> sc.(sc_cpu) <> cpu ->
  sc_by_index (sc_charge s cpu now) j = Some sc.
Proof.
  intros Hr Hcpu Hj Hne. destruct (sched_reach_inv s Hr) as [[T _ _ _] St].
  rewrite sc_charge_by_index, Hj by done. case_bool_decide as Hx; [|done]. simpl.
  destruct (decide (zget 0 s.(sc_stamp_idx) cpu = 0)) as [Hz|Hz].
  { rewrite Hx, Hz in Hj. done. }
  destruct (St cpu Hcpu Hz) as (a & Ha & _ & Hac). rewrite <- Hx, Hj in Ha.
  injection Ha as <-. done.
Qed.


(** A well-formed split request is granted exactly when the parent holds the
    least share that buys the budget, which is what the child gets and the
    parent loses; otherwise it is refused for want of share. *)
Theorem rust_sc_split_exact ps budget period :
  SC_MIN_PERIOD_US <= period <= SC_MAX_PERIOD_US -> 0 < budget <= period ->
  0 <= ps <= SC_PPM_WHOLE ->
  exists sh, budget * SC_PPM_WHOLE <= sh * period /\ (sh - 1) * period < budget * SC_PPM_WHOLE
    /\ 0 < sh <= SC_PPM_WHOLE
    /\ rust_sc_split ps budget period = if ps <? sh then inr SPLIT_NO_SHARE else inl (ps - sh, sh).
Proof.
  intros Hp Hb Hps. destruct (child_share_spec budget period Hp Hb) as (sh & E & H1 & H2 & H3).
  exists sh. split_and!; [lia..|]. apply rust_sc_split_complete; [done..|lia|done].
Qed.


(** A refill that ends at least one period gives back the whole budget
    whenever the debt was smaller than one budget, so an overrun shorter than a
    budget is never paid back, although the comments of sc_projected and
    struct sched_context say a debt is paid first and carried into the next
    period. *)
Theorem sc_projected_forgives_debt sc now :
  0 < sc.(sc_period_us) -> sc.(period_start_us) + sc.(sc_period_us) <= now ->
  - sc_budget_us sc < sc.(remaining_us) < 0 ->
  (sc_projected sc now).1 = sc_budget_us sc.
Proof.
  intros Hp Hn Hr. unfold sc_projected.
  destruct (Z.ltb_spec now sc.(period_start_us)); [lia|].
  destruct (Z.eqb_spec sc.(sc_period_us) 0); [lia|]. simpl.
  pose proof (Z.div_le_lower_bound (now - sc.(period_start_us)) sc.(sc_period_us) 1 ltac:(lia) ltac:(lia)).
  destruct (Z.eqb_spec ((now - sc.(period_start_us)) / sc.(sc_period_us)) 0); [lia|].
  destruct (Z.leb_spec (sc_budget_us sc) 0); [lia|].
  rewrite (Z.div_small (- sc.(remaining_us))) by lia.
  destruct (Z.leb_spec ((now - sc.(period_start_us)) / sc.(sc_period_us)) 0); [lia|].
  by rewrite andb_false_r.
Qed.

(** 20 ms every 100 ms, overrun by 19 ms: the next period still gets 20 ms. *)
Lemma sc_projected_forgives_debt_witness :
  (sc_projected (mk_sc true 0 200000 100000 0 1 (-19000) 0 39000 0) 100000).1 = 20000.
Proof.
  rewrite (sc_projected_forgives_debt (mk_sc true 0 200000 100000 0 1 (-19000) 0 39000 0) 100000);
    by vm_compute.
Defined.
