(* ===== verification/KState.v ===== *)
(** The kernel's state: one record holding the tables the modelled components
    share.  A field of [tcb_t] that only one component uses is kept with the
    others in [task], except [caps_in_use], which the revocation sweep reaches
    through a pointer and which is therefore an array of its own. *)
From S2P Require Import Prelude KTypes CapCore CapRevoke Pipe SchedCtx.

(** ** Kernel objects (kernel.h) *)
Definition EP_QUEUE_SLOTS : Z := 4.
Definition IPC_MSG_MAX : Z := 256.

(** struct ipc_invoker, without the field that is always 0. *)
Record ipc_invoker := mk_invoker {
  inv_token : Z; inv_rights : Z; inv_carried : Z; inv_carry_token : Z; inv_carry_rights : Z
}.
Record ep_msg := mk_msg {
  msg_len : Z; msg_sender : Z; msg_sender_gen : Z; msg_inv : ipc_invoker; msg_data : list Z
}.
Record endpoint := mk_ep {
  ep_q : list ep_msg;
  ep_head : Z;
  ep_count : Z;
  ep_last_sender : Z;
  ep_last_sender_gen : Z;
  ep_blocked_waiter : Z;
  ep_last_invoker : ipc_invoker
}.
Record notification := mk_notif { nt_pending_badge : Z; nt_blocked_waiter : Z }.

Definition invoker_zero : ipc_invoker := mk_invoker 0 0 0 0 0.
Definition msg_zero : ep_msg := mk_msg 0 0 0 invoker_zero (replicate (Z.to_nat IPC_MSG_MAX) 0).
(** What kobj_alloc leaves in a fresh endpoint: zeroed, then no sender and no
    waiter. *)
Definition ep_fresh : endpoint :=
  mk_ep (replicate (Z.to_nat EP_QUEUE_SLOTS)
           (mk_msg 0 (-1) 0 invoker_zero (replicate (Z.to_nat IPC_MSG_MAX) 0)))
        0 0 (-1) 0 (-1) invoker_zero.
Definition notif_fresh : notification := mk_notif 0 (-1).

(** sizeof, on the x86-64 ABI. *)
Definition SIZEOF_ENDPOINT : Z := 1280.
Definition SIZEOF_NOTIFICATION : Z := 8.
Definition SIZEOF_SCHED_CONTEXT : Z := 56.
Definition SIZEOF_TCB : Z := 1184.
Definition SIZEOF_CSPACE_DESC : Z := 24.

(** struct untyped *)
Record untyped := mk_untyped {
  u_base : Z; u_size : Z; u_watermark : Z; u_objects : Z; u_in_use : bool
}.
Definition untyped_zero : untyped := mk_untyped 0 0 0 0 false.

(** A revocation set (capability.c). *)
Record rev_set := mk_revset { rv_target_slot : Z; rv_badge : Z; rv_valid : bool }.

(** How a task died (struct task_exit_info); [xi_name] is a 32-byte array. *)
Record exit_info := mk_xinfo {
  xi_tid : Z; xi_reason : Z; xi_detail : Z; xi_err : Z; xi_rip : Z; xi_addr : Z; xi_name : list Z
}.
Definition TASK_NAME_BYTES : Z := 32.
Definition xinfo_zero : exit_info :=
  mk_xinfo 0 0 0 0 0 0 (replicate (Z.to_nat TASK_NAME_BYTES) 0).

(** The part of [tcb_t] the modelled code uses, in groups: who the task runs
    for, its signals, who waits for it and how it died, its image and its
    pending IPC.  [ip_frame] is the trap frame [saved_ksp] points at, of which
    the modelled code reads and writes only rax and rbx; [None] for 0. *)
Record task_ids := mk_ids { id_uid : Z; id_gid : Z }.
(** The registers of a user trap frame the signal code reads or writes; the
    rest of the frame is saved and restored with them. *)
Record uframe := mk_uframe {
  uf_rip : Z; uf_cs : Z; uf_rflags : Z; uf_rsp : Z; uf_rax : Z; uf_rbx : Z; uf_rcx : Z
}.
Definition uframe_zero : uframe := mk_uframe 0 0 0 0 0 0 0.
Record sig_state := mk_sig {
  sg_handler : Z; sg_in_signal : Z; sg_pending : Z; sg_mask : Z;
  sg_alt_sp : Z; sg_alt_size : Z; sg_on_stack : Z; sg_frame : uframe
}.
Record wait_state := mk_wait {
  w_waiter : Z; w_blocked_on_gen : Z; w_exit_info : exit_info; w_wait_exit_info : exit_info
}.
Record image_state := mk_image {
  im_base : Z; im_end : Z; im_premap_pages : Z; im_esp : Z; im_eip : Z;
  im_heap_start : Z; im_heap_current : Z; im_heap_end : Z;
  im_spawn_arg : Z; im_argc : Z; im_argv_ptr : Z
}.
Record ipc_state := mk_ipc {
  ip_pending_block : Z; ip_cap_recv_slot : Z; ip_inv_slot : Z; ip_inv_serial : Z;
  ip_reply_buf : Z; ip_recv_block : Z; ip_recv_max : Z;
  ip_frame : option (Z * Z)
}.
Record task := mk_task {
  t_state : Z;
  t_cspace : option cref;
  t_cspace_size : Z;
  t_slot_gen : Z;
  t_runnable_ctx : Z;
  t_blocked_on : Z;
  t_blocked_on_notif : Z;
  t_stdio_flags : Z;
  t_priority : Z;
  t_max_priority : Z;
  t_name : list Z;
  t_ids : task_ids;
  t_sig : sig_state;
  t_wait : wait_state;
  t_image : image_state;
  t_ipc : ipc_state
}.
Definition sig_zero : sig_state := mk_sig 0 0 0 0 0 0 0 uframe_zero.
Definition wait_zero : wait_state := mk_wait 0 0 xinfo_zero xinfo_zero.
Definition image_zero : image_state := mk_image 0 0 0 0 0 0 0 0 0 0 0.
Definition ipc_zero : ipc_state := mk_ipc 0 0 0 0 0 0 0 None.
Definition task_zero : task :=
  mk_task TASK_DEAD None 0 0 0 0 0 0 0 0 (replicate (Z.to_nat TASK_NAME_BYTES) 0) (mk_ids 0 0)
          sig_zero wait_zero image_zero ipc_zero.

Definition SCHED_PRIO_MAX : Z := 255.
Definition IPC_NO_CAP : Z := 0xFFFFFFFF.

(** A slot of the task table and the static tables as scheduler_init leaves
    them. *)
Definition task_boot : task :=
  mk_task TASK_DEAD None 0 0 0 (-1) (-1) 0 SCHED_PRIO_MAX SCHED_PRIO_MAX
          (replicate (Z.to_nat TASK_NAME_BYTES) 0) (mk_ids 0 0) sig_zero
          (mk_wait (-1) 0 xinfo_zero xinfo_zero) image_zero (mk_ipc 0 IPC_NO_CAP 0 0 0 0 0 None).

Definition t_set_state (t : task) (x : Z) : task :=
  mk_task x t.(t_cspace) t.(t_cspace_size) t.(t_slot_gen) t.(t_runnable_ctx) t.(t_blocked_on)
          t.(t_blocked_on_notif) t.(t_stdio_flags) t.(t_priority) t.(t_max_priority) t.(t_name) t.(t_ids)
          t.(t_sig) t.(t_wait) t.(t_image) t.(t_ipc).
Definition t_set_slot_gen (t : task) (x : Z) : task :=
  mk_task t.(t_state) t.(t_cspace) t.(t_cspace_size) x t.(t_runnable_ctx) t.(t_blocked_on)
          t.(t_blocked_on_notif) t.(t_stdio_flags) t.(t_priority) t.(t_max_priority) t.(t_name) t.(t_ids)
          t.(t_sig) t.(t_wait) t.(t_image) t.(t_ipc).
Definition t_set_runnable_ctx (t : task) (x : Z) : task :=
  mk_task t.(t_state) t.(t_cspace) t.(t_cspace_size) t.(t_slot_gen) x t.(t_blocked_on)
          t.(t_blocked_on_notif) t.(t_stdio_flags) t.(t_priority) t.(t_max_priority) t.(t_name) t.(t_ids)
          t.(t_sig) t.(t_wait) t.(t_image) t.(t_ipc).
Definition t_set_blocked_on (t : task) (x : Z) : task :=
  mk_task t.(t_state) t.(t_cspace) t.(t_cspace_size) t.(t_slot_gen) t.(t_runnable_ctx) x
          t.(t_blocked_on_notif) t.(t_stdio_flags) t.(t_priority) t.(t_max_priority) t.(t_name) t.(t_ids)
          t.(t_sig) t.(t_wait) t.(t_image) t.(t_ipc).
Definition t_set_blocked_on_notif (t : task) (x : Z) : task :=
  mk_task t.(t_state) t.(t_cspace) t.(t_cspace_size) t.(t_slot_gen) t.(t_runnable_ctx)
          t.(t_blocked_on) x t.(t_stdio_flags) t.(t_priority) t.(t_max_priority) t.(t_name) t.(t_ids)
          t.(t_sig) t.(t_wait) t.(t_image) t.(t_ipc).
Definition t_set_stdio_flags (t : task) (x : Z) : task :=
  mk_task t.(t_state) t.(t_cspace) t.(t_cspace_size) t.(t_slot_gen) t.(t_runnable_ctx)
          t.(t_blocked_on) t.(t_blocked_on_notif) x t.(t_priority) t.(t_max_priority) t.(t_name) t.(t_ids)
          t.(t_sig) t.(t_wait) t.(t_image) t.(t_ipc).
Definition t_set_priority (t : task) (x : Z) : task :=
  mk_task t.(t_state) t.(t_cspace) t.(t_cspace_size) t.(t_slot_gen) t.(t_runnable_ctx)
          t.(t_blocked_on) t.(t_blocked_on_notif) t.(t_stdio_flags) x t.(t_max_priority) t.(t_name)
          t.(t_ids) t.(t_sig) t.(t_wait) t.(t_image) t.(t_ipc).
Definition t_set_max_priority (t : task) (x : Z) : task :=
  mk_task t.(t_state) t.(t_cspace) t.(t_cspace_size) t.(t_slot_gen) t.(t_runnable_ctx)
          t.(t_blocked_on) t.(t_blocked_on_notif) t.(t_stdio_flags) t.(t_priority) x t.(t_name) t.(t_ids)
          t.(t_sig) t.(t_wait) t.(t_image) t.(t_ipc).
Definition t_set_name (t : task) (x : list Z) : task :=
  mk_task t.(t_state) t.(t_cspace) t.(t_cspace_size) t.(t_slot_gen) t.(t_runnable_ctx)
          t.(t_blocked_on) t.(t_blocked_on_notif) t.(t_stdio_flags) t.(t_priority) t.(t_max_priority) x
          t.(t_ids) t.(t_sig) t.(t_wait) t.(t_image) t.(t_ipc).
Definition t_set_ids (t : task) (x : task_ids) : task :=
  mk_task t.(t_state) t.(t_cspace) t.(t_cspace_size) t.(t_slot_gen) t.(t_runnable_ctx)
          t.(t_blocked_on) t.(t_blocked_on_notif) t.(t_stdio_flags) t.(t_priority) t.(t_max_priority)
          t.(t_name) x t.(t_sig) t.(t_wait) t.(t_image) t.(t_ipc).
Definition t_set_sig (t : task) (x : sig_state) : task :=
  mk_task t.(t_state) t.(t_cspace) t.(t_cspace_size) t.(t_slot_gen) t.(t_runnable_ctx)
          t.(t_blocked_on) t.(t_blocked_on_notif) t.(t_stdio_flags) t.(t_priority) t.(t_max_priority)
          t.(t_name) t.(t_ids) x t.(t_wait) t.(t_image) t.(t_ipc).
Definition t_set_wait (t : task) (x : wait_state) : task :=
  mk_task t.(t_state) t.(t_cspace) t.(t_cspace_size) t.(t_slot_gen) t.(t_runnable_ctx)
          t.(t_blocked_on) t.(t_blocked_on_notif) t.(t_stdio_flags) t.(t_priority) t.(t_max_priority)
          t.(t_name) t.(t_ids) t.(t_sig) x t.(t_image) t.(t_ipc).
Definition t_set_image (t : task) (x : image_state) : task :=
  mk_task t.(t_state) t.(t_cspace) t.(t_cspace_size) t.(t_slot_gen) t.(t_runnable_ctx)
          t.(t_blocked_on) t.(t_blocked_on_notif) t.(t_stdio_flags) t.(t_priority) t.(t_max_priority)
          t.(t_name) t.(t_ids) t.(t_sig) t.(t_wait) x t.(t_ipc).
Definition t_set_ipc (t : task) (x : ipc_state) : task :=
  mk_task t.(t_state) t.(t_cspace) t.(t_cspace_size) t.(t_slot_gen) t.(t_runnable_ctx)
          t.(t_blocked_on) t.(t_blocked_on_notif) t.(t_stdio_flags) t.(t_priority) t.(t_max_priority)
          t.(t_name) t.(t_ids) t.(t_sig) t.(t_wait) t.(t_image) x.
Definition t_set_frame (t : task) (f : option (Z * Z)) : task :=
  let ip := t.(t_ipc) in
  t_set_ipc t (mk_ipc ip.(ip_pending_block) ip.(ip_cap_recv_slot) ip.(ip_inv_slot) ip.(ip_inv_serial)
                      ip.(ip_reply_buf) ip.(ip_recv_block) ip.(ip_recv_max) f).
Definition t_set_cspace (t : task) (x : option cref) (sz : Z) : task :=
  mk_task t.(t_state) x sz t.(t_slot_gen) t.(t_runnable_ctx) t.(t_blocked_on)
          t.(t_blocked_on_notif) t.(t_stdio_flags) t.(t_priority) t.(t_max_priority) t.(t_name) t.(t_ids)
          t.(t_sig) t.(t_wait) t.(t_image) t.(t_ipc).

Record kstate := mk_ks {
  cur : Z;
  tasks : list task;
  caps_in_use : list Z;
  mem : cmem;
  cap_next_serial : Z;
  rev_sets : list rev_set;
  pipes : list pipe;
  g_untyped_arena : Z;
  untypeds : list untyped;
  dyn_eps : list (kobj_slot endpoint);
  dyn_notifs : list (kobj_slot notification);
  dyn_frames : list (kobj_slot unit);
  ksched : sched;
  page_refcounts : list Z;
  shlib_frames : list Z;
  iommu_unmaps : list (Z * Z);
  endpoints : list endpoint;
  notifications : list notification
}.

Definition g_max_tasks (k : kstate) : Z := zlen k.(tasks).
Definition task_at (k : kstate) (t : Z) : task := zget task_zero k.(tasks) t.
Definition ciu_at (k : kstate) (t : Z) : Z := zget 0 k.(caps_in_use) t.

(** ** Updates of one field *)
Definition set_tasks (k : kstate) x : kstate :=
  mk_ks k.(cur) x k.(caps_in_use) k.(mem) k.(cap_next_serial) k.(rev_sets) k.(pipes)
        k.(g_untyped_arena) k.(untypeds) k.(dyn_eps) k.(dyn_notifs) k.(dyn_frames) k.(ksched)
        k.(page_refcounts) k.(shlib_frames) k.(iommu_unmaps)
        k.(endpoints) k.(notifications).
Definition set_ciu (k : kstate) x : kstate :=
  mk_ks k.(cur) k.(tasks) x k.(mem) k.(cap_next_serial) k.(rev_sets) k.(pipes)
        k.(g_untyped_arena) k.(untypeds) k.(dyn_eps) k.(dyn_notifs) k.(dyn_frames) k.(ksched)
        k.(page_refcounts) k.(shlib_frames) k.(iommu_unmaps)
        k.(endpoints) k.(notifications).
Definition set_mem (k : kstate) x : kstate :=
  mk_ks k.(cur) k.(tasks) k.(caps_in_use) x k.(cap_next_serial) k.(rev_sets) k.(pipes)
        k.(g_untyped_arena) k.(untypeds) k.(dyn_eps) k.(dyn_notifs) k.(dyn_frames) k.(ksched)
        k.(page_refcounts) k.(shlib_frames) k.(iommu_unmaps)
        k.(endpoints) k.(notifications).
Definition set_serial (k : kstate) x : kstate :=
  mk_ks k.(cur) k.(tasks) k.(caps_in_use) k.(mem) x k.(rev_sets) k.(pipes)
        k.(g_untyped_arena) k.(untypeds) k.(dyn_eps) k.(dyn_notifs) k.(dyn_frames) k.(ksched)
        k.(page_refcounts) k.(shlib_frames) k.(iommu_unmaps)
        k.(endpoints) k.(notifications).
Definition set_rev_sets (k : kstate) x : kstate :=
  mk_ks k.(cur) k.(tasks) k.(caps_in_use) k.(mem) k.(cap_next_serial) x k.(pipes)
        k.(g_untyped_arena) k.(untypeds) k.(dyn_eps) k.(dyn_notifs) k.(dyn_frames) k.(ksched)
        k.(page_refcounts) k.(shlib_frames) k.(iommu_unmaps)
        k.(endpoints) k.(notifications).
Definition set_pipes (k : kstate) x : kstate :=
  mk_ks k.(cur) k.(tasks) k.(caps_in_use) k.(mem) k.(cap_next_serial) k.(rev_sets) x
        k.(g_untyped_arena) k.(untypeds) k.(dyn_eps) k.(dyn_notifs) k.(dyn_frames) k.(ksched)
        k.(page_refcounts) k.(shlib_frames) k.(iommu_unmaps)
        k.(endpoints) k.(notifications).
Definition set_untypeds (k : kstate) x : kstate :=
  mk_ks k.(cur) k.(tasks) k.(caps_in_use) k.(mem) k.(cap_next_serial) k.(rev_sets) k.(pipes)
        k.(g_untyped_arena) x k.(dyn_eps) k.(dyn_notifs) k.(dyn_frames) k.(ksched)
        k.(page_refcounts) k.(shlib_frames) k.(iommu_unmaps)
        k.(endpoints) k.(notifications).
Definition set_dyn_eps (k : kstate) x : kstate :=
  mk_ks k.(cur) k.(tasks) k.(caps_in_use) k.(mem) k.(cap_next_serial) k.(rev_sets) k.(pipes)
        k.(g_untyped_arena) k.(untypeds) x k.(dyn_notifs) k.(dyn_frames) k.(ksched)
        k.(page_refcounts) k.(shlib_frames) k.(iommu_unmaps)
        k.(endpoints) k.(notifications).
Definition set_dyn_notifs (k : kstate) x : kstate :=
  mk_ks k.(cur) k.(tasks) k.(caps_in_use) k.(mem) k.(cap_next_serial) k.(rev_sets) k.(pipes)
        k.(g_untyped_arena) k.(untypeds) k.(dyn_eps) x k.(dyn_frames) k.(ksched)
        k.(page_refcounts) k.(shlib_frames) k.(iommu_unmaps)
        k.(endpoints) k.(notifications).
Definition set_dyn_frames (k : kstate) x : kstate :=
  mk_ks k.(cur) k.(tasks) k.(caps_in_use) k.(mem) k.(cap_next_serial) k.(rev_sets) k.(pipes)
        k.(g_untyped_arena) k.(untypeds) k.(dyn_eps) k.(dyn_notifs) x k.(ksched)
        k.(page_refcounts) k.(shlib_frames) k.(iommu_unmaps)
        k.(endpoints) k.(notifications).
Definition set_sched (k : kstate) x : kstate :=
  mk_ks k.(cur) k.(tasks) k.(caps_in_use) k.(mem) k.(cap_next_serial) k.(rev_sets) k.(pipes)
        k.(g_untyped_arena) k.(untypeds) k.(dyn_eps) k.(dyn_notifs) k.(dyn_frames) x
        k.(page_refcounts) k.(shlib_frames) k.(iommu_unmaps)
        k.(endpoints) k.(notifications).
Definition set_page_refs (k : kstate) x : kstate :=
  mk_ks k.(cur) k.(tasks) k.(caps_in_use) k.(mem) k.(cap_next_serial) k.(rev_sets) k.(pipes)
        k.(g_untyped_arena) k.(untypeds) k.(dyn_eps) k.(dyn_notifs) k.(dyn_frames) k.(ksched)
        x k.(shlib_frames) k.(iommu_unmaps)
        k.(endpoints) k.(notifications).
Definition set_iommu (k : kstate) x : kstate :=
  mk_ks k.(cur) k.(tasks) k.(caps_in_use) k.(mem) k.(cap_next_serial) k.(rev_sets) k.(pipes)
        k.(g_untyped_arena) k.(untypeds) k.(dyn_eps) k.(dyn_notifs) k.(dyn_frames) k.(ksched)
        k.(page_refcounts) k.(shlib_frames) x
        k.(endpoints) k.(notifications).

Definition set_endpoints (k : kstate) x : kstate :=
  mk_ks k.(cur) k.(tasks) k.(caps_in_use) k.(mem) k.(cap_next_serial) k.(rev_sets) k.(pipes)
        k.(g_untyped_arena) k.(untypeds) k.(dyn_eps) k.(dyn_notifs) k.(dyn_frames) k.(ksched)
        k.(page_refcounts) k.(shlib_frames) k.(iommu_unmaps) x k.(notifications).
Definition set_notifications (k : kstate) x : kstate :=
  mk_ks k.(cur) k.(tasks) k.(caps_in_use) k.(mem) k.(cap_next_serial) k.(rev_sets) k.(pipes)
        k.(g_untyped_arena) k.(untypeds) k.(dyn_eps) k.(dyn_notifs) k.(dyn_frames) k.(ksched)
        k.(page_refcounts) k.(shlib_frames) k.(iommu_unmaps) k.(endpoints) x.
Definition set_cur (k : kstate) x : kstate :=
  mk_ks x k.(tasks) k.(caps_in_use) k.(mem) k.(cap_next_serial) k.(rev_sets) k.(pipes)
        k.(g_untyped_arena) k.(untypeds) k.(dyn_eps) k.(dyn_notifs) k.(dyn_frames) k.(ksched)
        k.(page_refcounts) k.(shlib_frames) k.(iommu_unmaps)
        k.(endpoints) k.(notifications).

Definition set_task (k : kstate) (t : Z) (x : task) : kstate := set_tasks k (zset k.(tasks) t x).
Definition put_cap (k : kstate) (l : loc) (c : capability) : kstate := set_mem k (cap_put k.(mem) l c).
Definition inc_ciu (k : kstate) (t : Z) : kstate :=
  set_ciu k (zset k.(caps_in_use) t (u32 (ciu_at k t + 1))).
