(* ===== verification/Endpoint.v ===== *)
(** Endpoint queues (src/src/kernel/syscall_ipc.c): the ring of four message
    slots of one endpoint, and its refinement to a bounded queue of messages. *)
From S2P Require Import Prelude KTypes SchedCtx KState.

(** ** Operations *)
Definition ep_full (e : endpoint) : bool := EP_QUEUE_SLOTS <=? e.(ep_count).
Definition ep_empty (e : endpoint) : bool := e.(ep_count) =? 0.

Definition ipc_no_invoker : ipc_invoker := invoker_zero.

(** [src] is the kernel buffer the payload was copied to. *)
Definition clamp_msg_len (len : Z) : Z :=
  let len := if len <? 0 then 0 else len in
  if IPC_MSG_MAX <? len then IPC_MSG_MAX else len.
Definition ep_enqueue (k : kstate) (e : endpoint) (src : list Z) (len sender : Z)
    (inv : option ipc_invoker) : endpoint :=
  let slot := u32 (e.(ep_head) + e.(ep_count)) mod EP_QUEUE_SLOTS in
  let m := zget msg_zero e.(ep_q) slot in
  let len := clamp_msg_len len in
  let gen := if (0 <? sender) && (sender <? g_max_tasks k) then (task_at k sender).(t_slot_gen) else 0 in
  let m := mk_msg len sender gen (default ipc_no_invoker inv)
             (take (Z.to_nat len) src ++ drop (Z.to_nat len) m.(msg_data)) in
  mk_ep (zset e.(ep_q) slot m) e.(ep_head) (u32 (e.(ep_count) + 1)) e.(ep_last_sender)
        e.(ep_last_sender_gen) e.(ep_blocked_waiter) e.(ep_last_invoker).

(** What [ep_dequeue] hands back: the length, which is the caller's [max] when
    the message is longer and so is negative when [max] is, the bytes copied,
    and the message's origin. *)
Record dequeued := mk_deq {
  dq_len : Z; dq_data : list Z; dq_sender : Z; dq_sender_gen : Z; dq_inv : ipc_invoker
}.
Definition msg_scrubbed : ep_msg :=
  mk_msg 0 (-1) 0 ipc_no_invoker (replicate (Z.to_nat IPC_MSG_MAX) 0).
Definition deq_len (m : ep_msg) (max : Z) : Z :=
  let len := if m.(msg_len) <? 0 then 0 else m.(msg_len) in
  if max <? len then max else len.
Definition ep_dequeue (e : endpoint) (max : Z) : dequeued * endpoint :=
  let m := zget msg_zero e.(ep_q) e.(ep_head) in
  let len := deq_len m max in
  (mk_deq len (take (Z.to_nat len) m.(msg_data)) m.(msg_sender) m.(msg_sender_gen) m.(msg_inv),
   mk_ep (zset e.(ep_q) e.(ep_head) msg_scrubbed) (u32 (e.(ep_head) + 1) mod EP_QUEUE_SLOTS)
         (u32 (e.(ep_count) - 1)) e.(ep_last_sender) e.(ep_last_sender_gen)
         e.(ep_blocked_waiter) e.(ep_last_invoker)).

(** Updates of the other fields of an endpoint. *)
Definition ep_set_waiter (e : endpoint) (w : Z) : endpoint :=
  mk_ep e.(ep_q) e.(ep_head) e.(ep_count) e.(ep_last_sender) e.(ep_last_sender_gen) w
        e.(ep_last_invoker).
Definition ep_set_last (e : endpoint) (sender gen : Z) (inv : ipc_invoker) : endpoint :=
  mk_ep e.(ep_q) e.(ep_head) e.(ep_count) sender gen e.(ep_blocked_waiter) inv.

(** ** Well-formedness

    A message carries between 0 and 256 bytes in a 256-byte array; the ring
    has four slots, and the slots outside the queue are scrubbed of payload,
    length and identity. *)
Record msg_wf (m : ep_msg) : Prop := {
  mw_len : 0 <= m.(msg_len) <= IPC_MSG_MAX;
  mw_data : zlen m.(msg_data) = IPC_MSG_MAX
}.
Definition ep_slot (e : endpoint) (i : Z) : Z := (e.(ep_head) + i) mod EP_QUEUE_SLOTS.
Definition ep_msg_at (e : endpoint) (i : Z) : ep_msg := zget msg_zero e.(ep_q) (ep_slot e i).
Record ep_wf (e : endpoint) : Prop := {
  ew_slots : zlen e.(ep_q) = EP_QUEUE_SLOTS;
  ew_head : 0 <= e.(ep_head) < EP_QUEUE_SLOTS;
  ew_count : 0 <= e.(ep_count) <= EP_QUEUE_SLOTS;
  ew_queued : forall i, 0 <= i < e.(ep_count) -> msg_wf (ep_msg_at e i);
  ew_clean : forall i, e.(ep_count) <= i < EP_QUEUE_SLOTS -> ep_msg_at e i = msg_scrubbed
}.

(** ** The abstract queue

    The messages waiting, oldest first, each as its sender deposited it. *)
Record amsg := mk_amsg { am_bytes : list Z; am_sender : Z; am_gen : Z; am_inv : ipc_invoker }.
Definition msg_abs (m : ep_msg) : amsg :=
  mk_amsg (take (Z.to_nat m.(msg_len)) m.(msg_data)) m.(msg_sender) m.(msg_sender_gen) m.(msg_inv).
Definition ep_abs (e : endpoint) : list amsg :=
  (fun i => msg_abs (ep_msg_at e i)) <$> seqZ 0 e.(ep_count).

(** ** Lemmas *)
Lemma ep_slot_range e i : 0 <= ep_slot e i < EP_QUEUE_SLOTS.
Proof. unfold ep_slot, EP_QUEUE_SLOTS. apply Z.mod_pos_bound. lia. Qed.

Lemma ep_slot_inj e i j :
  0 <= i < EP_QUEUE_SLOTS -> 0 <= j < EP_QUEUE_SLOTS -> ep_slot e i = ep_slot e j -> i = j.
Proof. unfold ep_slot, EP_QUEUE_SLOTS. intros. Z.div_mod_to_equations. lia. Qed.

Lemma clamp_msg_len_range len : 0 <= clamp_msg_len len <= IPC_MSG_MAX.
Proof. unfold clamp_msg_len, IPC_MSG_MAX. repeat case_match; lia. Qed.
Lemma clamp_msg_len_id len : 0 <= len <= IPC_MSG_MAX -> clamp_msg_len len = len.
Proof. unfold clamp_msg_len, IPC_MSG_MAX. intros. repeat case_match; lia. Qed.

Lemma ep_abs_length e : ep_wf e -> zlen (ep_abs e) = e.(ep_count).
Proof. intros [_ _ Hc _ _]. unfold ep_abs, zlen. rewrite length_fmap, length_seqZ. lia. Qed.

Lemma ep_empty_abs e : ep_wf e -> ep_empty e = true <-> ep_abs e = [].
Proof.
  intros Hw. pose proof (ep_abs_length e Hw) as Hl. unfold ep_empty. rewrite Z.eqb_eq.
  split; intros H; [|rewrite H in Hl; by rewrite <- Hl].
  rewrite H in Hl. destruct (ep_abs e); [done|]. unfold zlen in Hl. simpl in Hl. lia.
Qed.

Lemma ep_enqueue_slot e :
  0 <= ep_head e < EP_QUEUE_SLOTS -> 0 <= ep_count e <= EP_QUEUE_SLOTS ->
  u32 (e.(ep_head) + e.(ep_count)) mod EP_QUEUE_SLOTS = ep_slot e e.(ep_count).
Proof. intros. unfold ep_slot, EP_QUEUE_SLOTS in *. rewrite u32_id; [done|unfold U32_MAX; lia]. Qed.

(** Writing the slot of one queue position leaves every other position. *)
Lemma ep_q_put e e' i j m :
  zlen e.(ep_q) = EP_QUEUE_SLOTS -> e'.(ep_q) = zset e.(ep_q) (ep_slot e i) m ->
  e'.(ep_head) = e.(ep_head) -> 0 <= i < EP_QUEUE_SLOTS -> 0 <= j < EP_QUEUE_SLOTS ->
  ep_msg_at e' j = if decide (i = j) then m else ep_msg_at e j.
Proof.
  intros Hl Hq Hh Hi Hj. unfold ep_msg_at. rewrite Hq.
  assert (ep_slot e' j = ep_slot e j) as -> by (unfold ep_slot; by rewrite Hh).
  pose proof (ep_slot_range e i). case_decide as Hij; [subst; apply zget_zset_eq; lia|].
  apply zget_zset_ne. intros He. by apply Hij, (ep_slot_inj e).
Qed.

Definition enqueued_msg (k : kstate) (e : endpoint) (src : list Z) (len sender : Z)
    (inv : option ipc_invoker) : ep_msg :=
  mk_msg (clamp_msg_len len) sender
    (if (0 <? sender) && (sender <? g_max_tasks k) then (task_at k sender).(t_slot_gen) else 0)
    (default ipc_no_invoker inv)
    (take (Z.to_nat (clamp_msg_len len)) src
       ++ drop (Z.to_nat (clamp_msg_len len)) (ep_msg_at e e.(ep_count)).(msg_data)).

Section enqueue.
Context (k : kstate) (e : endpoint) (src : list Z) (len sender : Z) (inv : option ipc_invoker).
Context (Hw : ep_wf e) (Hroom : ep_full e = false) (Hsrc : clamp_msg_len len <= zlen src).
Let e' := ep_enqueue k e src len sender inv.

Lemma ep_room : e.(ep_count) < EP_QUEUE_SLOTS.
Proof using Hroom. unfold ep_full in Hroom. by apply Z.leb_gt in Hroom. Qed.

Lemma ep_enqueue_count : e'.(ep_count) = e.(ep_count) + 1.
Proof using Hw Hroom.
  pose proof ep_room. destruct Hw as [_ _ Hc _ _]. simpl. unfold EP_QUEUE_SLOTS in *.
  rewrite u32_id; unfold U32_MAX; lia.
Qed.

Lemma ep_enqueue_at j :
  0 <= j < EP_QUEUE_SLOTS ->
  ep_msg_at e' j = if decide (e.(ep_count) = j) then enqueued_msg k e src len sender inv else ep_msg_at e j.
Proof using Hw Hroom.
  intros Hj. pose proof ep_room. destruct Hw as [Hl Hh Hc _ _].
  apply ep_q_put; try done; [|lia]. unfold e', ep_enqueue. cbn [ep_q]. by rewrite ep_enqueue_slot.
Qed.

Lemma enqueued_msg_wf : msg_wf (enqueued_msg k e src len sender inv).
Proof using Hw Hroom Hsrc.
  pose proof ep_room. pose proof (clamp_msg_len_range len) as Hr. split; [done|]. unfold enqueued_msg. cbn [msg_data].
  destruct Hw as [_ _ Hc _ Hcl]. rewrite Hcl by lia. unfold zlen, msg_scrubbed in *. cbn [msg_data].
  rewrite length_app, length_take, length_drop, length_replicate.
  unfold IPC_MSG_MAX in *. lia.
Qed.

Lemma ep_enqueue_wf : ep_wf e'.
Proof using Hw Hroom Hsrc.
  pose proof ep_room. destruct Hw as [Hl Hh Hc Hq Hcl]. split.
  - unfold e', ep_enqueue. cbn [ep_q]. by rewrite zlen_zset.
  - done.
  - rewrite ep_enqueue_count. lia.
  - intros i Hi. rewrite ep_enqueue_count in Hi. rewrite ep_enqueue_at by lia.
    case_decide; [apply enqueued_msg_wf|apply Hq; lia].
  - intros i Hi. rewrite ep_enqueue_count in Hi. rewrite ep_enqueue_at by lia.
    rewrite decide_False by lia. apply Hcl. lia.
Qed.

Lemma ep_enqueue_abs :
  ep_abs e' = ep_abs e ++ [msg_abs (enqueued_msg k e src len sender inv)].
Proof using Hw Hroom.
  pose proof ep_room. destruct Hw as [Hl Hh Hc Hq Hcl]. unfold ep_abs. rewrite ep_enqueue_count.
  rewrite seqZ_app by lia. rewrite fmap_app. f_equal.
  - apply list_fmap_ext. intros i x Hx. apply lookup_seqZ in Hx as [-> ?].
    rewrite ep_enqueue_at by lia. by rewrite decide_False by lia.
  - assert (seqZ (0 + e.(ep_count)) 1 = [e.(ep_count)]) as -> by done. rewrite list_fmap_singleton.
    rewrite ep_enqueue_at by lia. by rewrite decide_True by lia.
Qed.
End enqueue.

Lemma enqueued_bytes k e src len sender inv :
  0 <= len <= IPC_MSG_MAX -> zlen src = len ->
  (msg_abs (enqueued_msg k e src len sender inv)).(am_bytes) = src.
Proof.
  intros Hl Hs. simpl. rewrite clamp_msg_len_id by done. unfold zlen in Hs.
  rewrite take_app_le by (rewrite length_take; lia). rewrite take_take, Nat.min_id.
  apply take_ge. lia.
Qed.

Section dequeue.
Context (e : endpoint) (max : Z) (Hw : ep_wf e) (Hne : ep_empty e = false).
Let d := (ep_dequeue e max).1.
Let e' := (ep_dequeue e max).2.

Lemma ep_some : 0 < e.(ep_count).
Proof using Hw Hne. destruct Hw as [_ _ Hc _ _]. unfold ep_empty in Hne. apply Z.eqb_neq in Hne. lia. Qed.

Lemma ep_dequeue_count : e'.(ep_count) = e.(ep_count) - 1.
Proof using Hw Hne.
  pose proof ep_some. destruct Hw as [_ _ Hc _ _]. simpl. unfold EP_QUEUE_SLOTS in *.
  rewrite u32_id; unfold U32_MAX; lia.
Qed.

Lemma ep_head_slot : ep_slot e 0 = e.(ep_head).
Proof using Hw. destruct Hw as [_ Hh _ _ _]. unfold ep_slot. rewrite Z.add_0_r. by apply Z.mod_small. Qed.

Lemma ep_dequeue_at j :
  0 <= j < EP_QUEUE_SLOTS ->
  ep_msg_at e' j = if decide (j = EP_QUEUE_SLOTS - 1) then msg_scrubbed else ep_msg_at e (j + 1).
Proof using Hw.
  intros Hj. destruct Hw as [Hl Hh Hc _ _]. unfold ep_msg_at.
  assert (ep_slot e' j = ep_slot e (j + 1)) as ->.
  { unfold ep_slot. simpl. rewrite u32_id by (unfold EP_QUEUE_SLOTS, U32_MAX in *; lia).
    rewrite Zplus_mod_idemp_l. f_equal. lia. }
  change e'.(ep_q) with (zset e.(ep_q) e.(ep_head) msg_scrubbed). case_decide as H.
  - assert (ep_slot e (j + 1) = e.(ep_head)) as ->.
    { rewrite H. unfold ep_slot, EP_QUEUE_SLOTS in *. Z.div_mod_to_equations. lia. }
    apply zget_zset_eq. lia.
  - apply zget_zset_ne. rewrite <- ep_head_slot. intros He. apply ep_slot_inj in He; lia.
Qed.

Lemma ep_dequeue_wf : ep_wf e'.
Proof using Hw Hne.
  pose proof ep_some. destruct Hw as [Hl Hh Hc Hq Hcl]. split.
  - unfold e', ep_dequeue. cbn [snd ep_q]. by rewrite zlen_zset.
  - simpl. unfold EP_QUEUE_SLOTS. apply Z.mod_pos_bound. lia.
  - rewrite ep_dequeue_count. lia.
  - intros i Hi. rewrite ep_dequeue_count in Hi. rewrite ep_dequeue_at by lia.
    rewrite decide_False by lia. apply Hq. lia.
  - intros i Hi. rewrite ep_dequeue_count in Hi. rewrite ep_dequeue_at by lia.
    case_decide; [done|]. apply Hcl. lia.
Qed.

Lemma ep_dequeue_abs : ep_abs e = msg_abs (ep_msg_at e 0) :: ep_abs e'.
Proof using Hw Hne.
  pose proof ep_some. pose proof ep_dequeue_count as Hn. destruct Hw as [Hl Hh Hc Hq Hcl].
  unfold ep_abs. rewrite Hn. rewrite seqZ_cons by lia. cbn [fmap list_fmap]. f_equal.
  replace (seqZ (Z.succ 0) (Z.pred e.(ep_count))) with (Z.add 1 <$> seqZ 0 (e.(ep_count) - 1))
    by (rewrite fmap_add_seqZ; f_equal; lia). rewrite <- list_fmap_compose.
  apply list_fmap_ext. intros i x Hx. apply lookup_seqZ in Hx as [-> ?]. simpl.
  rewrite ep_dequeue_at by lia. rewrite decide_False by lia. do 2 f_equal. lia.
Qed.

(** With room for the whole message the caller gets all of it. *)
Lemma ep_dequeue_whole :
  (ep_msg_at e 0).(msg_len) <= max ->
  mk_amsg d.(dq_data) d.(dq_sender) d.(dq_sender_gen) d.(dq_inv) = msg_abs (ep_msg_at e 0)
  /\ d.(dq_len) = zlen d.(dq_data).
Proof using Hw Hne.
  intros Hm. pose proof ep_some. destruct Hw as [Hl Hh Hc Hq _].
  destruct (Hq 0 ltac:(lia)) as [HL HD]. unfold d, ep_dequeue. cbn [fst dq_data dq_len dq_sender dq_sender_gen dq_inv].
  rewrite <- ep_head_slot. fold (ep_msg_at e 0). unfold deq_len.
  destruct (Z.ltb_spec (ep_msg_at e 0).(msg_len) 0); [lia|]. destruct (Z.ltb_spec max (ep_msg_at e 0).(msg_len)); [lia|].
  split; [done|]. unfold zlen, IPC_MSG_MAX in *. rewrite length_take. lia.
Qed.
End dequeue.

Lemma ep_fresh_wf : ep_wf ep_fresh.
Proof.
  split; try done; [intros i Hi; simpl in Hi; lia|].
  intros i _. unfold ep_msg_at. pose proof (ep_slot_range ep_fresh i). by apply (zget_replicate _ 4).
Qed.

(** ** Refinement

    An endpoint under any sequence of deposits and receives, as the code
    guards them, against a bounded queue. *)
Inductive ep_op :=
| EPut (bytes : list Z) (sender : Z) (inv : option ipc_invoker)
| EGet (max : Z).
Inductive ep_res := EAgain | EDone | EGot (d : dequeued).
Definition ep_step (k : kstate) (o : ep_op) (e : endpoint) : ep_res * endpoint :=
  match o with
  | EPut bytes s inv => if ep_full e then (EAgain, e) else (EDone, ep_enqueue k e bytes (zlen bytes) s inv)
  | EGet max => if ep_empty e then (EAgain, e) else let '(d, e) := ep_dequeue e max in (EGot d, e)
  end.

(** The queue: at most four messages; a receive cuts a message to [max]. *)
Definition sender_gen (k : kstate) (s : Z) : Z :=
  if (0 <? s) && (s <? g_max_tasks k) then (task_at k s).(t_slot_gen) else 0.
Definition cut (m : amsg) (max : Z) : dequeued :=
  let n := Z.min max (zlen m.(am_bytes)) in
  mk_deq n (take (Z.to_nat n) m.(am_bytes)) m.(am_sender) m.(am_gen) m.(am_inv).
Definition q_step (k : kstate) (o : ep_op) (q : list amsg) : ep_res * list amsg :=
  match o, q with
  | EPut bytes s inv, _ =>
      if 4 <=? zlen q then (EAgain, q)
      else (EDone, q ++ [mk_amsg bytes s (sender_gen k s) (default ipc_no_invoker inv)])
  | EGet _, [] => (EAgain, [])
  | EGet max, m :: q => (EGot (cut m max), q)
  end.
Fixpoint ep_run {S} (step : ep_op -> S -> ep_res * S) (ops : list ep_op) (s : S) : list ep_res * S :=
  match ops with
  | [] => ([], s)
  | o :: ops => let '(r, s) := step o s in let '(rs, s) := ep_run step ops s in (r :: rs, s)
  end.
(** A deposit holds at most 256 bytes; both senders cut their length first. *)
Definition op_fits (o : ep_op) : Prop :=
  match o with EPut bytes _ _ => zlen bytes <= IPC_MSG_MAX | EGet _ => True end.

Lemma ep_dequeue_cut e max :
  ep_wf e -> ep_empty e = false -> (ep_dequeue e max).1 = cut (msg_abs (ep_msg_at e 0)) max.
Proof.
  intros Hw He. pose proof (ep_some e Hw He). pose proof (ep_head_slot e Hw) as Hs.
  destruct Hw as [_ _ _ Hq _]. destruct (Hq 0 ltac:(lia)) as [HL HD].
  unfold ep_dequeue, cut, deq_len. cbn [fst msg_abs am_bytes am_sender am_gen am_inv].
  rewrite <- Hs. fold (ep_msg_at e 0). set (m := ep_msg_at e 0) in *. clearbody m.
  assert (zlen (take (Z.to_nat m.(msg_len)) m.(msg_data)) = m.(msg_len)) as ->.
  { unfold zlen in *. rewrite length_take. unfold IPC_MSG_MAX in *. lia. }
  destruct (Z.ltb_spec m.(msg_len) 0); [lia|]. rewrite take_take.
  destruct (Z.ltb_spec max m.(msg_len)).
  - rewrite Z.min_l, Nat.min_l by lia. done.
  - rewrite Z.min_r, Nat.min_id by lia. done.
Qed.

Lemma ep_step_refines k o e :
  ep_wf e -> op_fits o ->
  let '(r, e') := ep_step k o e in q_step k o (ep_abs e) = (r, ep_abs e') /\ ep_wf e'.
Proof.
  intros Hw Ho. destruct o as [bytes s inv|max]; cbn [ep_step q_step].
  - rewrite (ep_abs_length e Hw). unfold ep_full. fold EP_QUEUE_SLOTS.
    destruct (EP_QUEUE_SLOTS <=? e.(ep_count)) eqn:EF; [done|].
    assert (clamp_msg_len (zlen bytes) = zlen bytes) as Hc by (apply clamp_msg_len_id; split; [unfold zlen; lia|done]).
    split; [|apply ep_enqueue_wf; [done|done|lia]].
    rewrite ep_enqueue_abs by done. do 3 f_equal. unfold msg_abs, enqueued_msg.
    cbn [msg_len msg_data msg_sender msg_sender_gen msg_inv]. f_equal. symmetry.
    apply (enqueued_bytes k e bytes (zlen bytes) s inv); [split; [unfold zlen; lia|done]|done].
  - destruct (ep_empty e) eqn:EE.
    + pose proof EE as EA. apply ep_empty_abs in EA; [|done]. by rewrite EA.
    + pose proof (ep_dequeue_abs e max Hw EE) as HA. pose proof (ep_dequeue_cut e max Hw EE) as HC.
      pose proof (ep_dequeue_wf e max Hw EE) as HW. destruct (ep_dequeue e max) as [d e']. cbn [fst snd] in *.
      rewrite HA, HC. done.
Qed.

(** C23: an endpoint refines a bounded queue.  Under any sequence of deposits and
    receives it answers exactly as a queue of at most four messages does:
    messages leave in the order they came, each with the bytes, the sender, its
    generation and the invoker record it was deposited with, cut to the
    receiver's limit; a deposit to a full queue and a receive from an empty one
    are refused and change nothing. *)
Theorem endpoint_refines_queue k ops e :
  ep_wf e -> Forall op_fits ops ->
  (ep_run (ep_step k) ops e).1 = (ep_run (q_step k) ops (ep_abs e)).1
  /\ ep_abs (ep_run (ep_step k) ops e).2 = (ep_run (q_step k) ops (ep_abs e)).2
  /\ ep_wf (ep_run (ep_step k) ops e).2.
Proof.
  intros Hw Ho. revert e Hw. induction Ho as [|o ops Ho _ IH]; intros e Hw; [done|]. cbn [ep_run].
  pose proof (ep_step_refines k o e Hw Ho) as HS. destruct (ep_step k o e) as [r e']. destruct HS as [-> Hw'].
  destruct (IH e' Hw') as (H1 & H2 & H3). destruct (ep_run (ep_step k) ops e') as [rs e2].
  destruct (ep_run (q_step k) ops (ep_abs e')) as [rs2 q2]. cbn [fst snd] in *. by rewrite H1.
Qed.
Definition ep_demo_state : kstate :=
  mk_ks 1 [task_boot; task_boot] [0; 0] ∅ 0 [] [] 0 [] [] [] [] sched_empty [] [] [] [] [].
Definition ep_demo_ops : list ep_op :=
  [EGet 8; EPut [1; 2; 3] 1 None; EPut [4] 1 None; EPut [5] 1 None; EPut [] 1 None; EPut [9] 1 None; EGet 2; EGet (-1)].
Lemma endpoint_refines_queue_witness :
  (ep_run (ep_step ep_demo_state) ep_demo_ops ep_fresh).1
  = [EAgain; EDone; EDone; EDone; EDone; EAgain;
     EGot (mk_deq 2 [1; 2] 1 0 ipc_no_invoker); EGot (mk_deq (-1) [] 1 0 ipc_no_invoker)].
Proof.
  refine (eq_trans (proj1 (endpoint_refines_queue ep_demo_state ep_demo_ops ep_fresh ep_fresh_wf _)) _).
  - repeat constructor; vm_compute; discriminate.
  - vm_compute. reflexivity.
Defined.
