(* ===== verification/Untyped.v ===== *)
(** Kernel-object memory (src/src/kernel/untyped.c): untyped regions and their
    bump allocator, the descriptor tables of retyped objects, allocation, pins,
    and the collector that destroys objects no capability names. *)
From S2P Require Import Prelude KTypes CapCore CapRevoke Pipe SchedCtx KState.

Definition KOBJ_CNODE : Z := 1.
Definition KOBJ_ENDPOINT : Z := 2.
Definition KOBJ_NOTIFICATION : Z := 3.
Definition KOBJ_FRAME : Z := 4.
Definition KOBJ_TASKTABLE : Z := 5.
Definition KOBJ_REVOKE_SPACES : Z := 6.
Definition KOBJ_TASK_RUNNING_CPU : Z := 7.
Definition KOBJ_KSTACK_INFLIGHT : Z := 8.
Definition KOBJ_SCHED_CONTEXT : Z := 9.
Definition KOBJ_ALIGN : Z := 64.
Definition MAX_FRAME_PAGES : Z := 64.
Definition DYN_FRAME_BASE : Z := 1.
Definition TCB_BYTES_RESERVED : Z := 2048.
Definition UNTYPED_KERNEL_BYTES : Z :=
  MAX_TASKS * (Z.ldiff (CNODE_SIZE * CAP_BYTES + 63) 63 + TCB_BYTES_RESERVED).
Definition UNTYPED_USER_BYTES : Z := 3 * 1024 * 1024 + 512 * 1024.
Definition UNTYPED_ARENA_BYTES : Z := UNTYPED_KERNEL_BYTES + UNTYPED_USER_BYTES.
Definition UNTYPED_ARENA_PAGES : Z := UNTYPED_ARENA_BYTES / PAGE_SIZE.
Definition MAX_DYN_FRAMES : Z := UNTYPED_ARENA_PAGES.
Definition FRAME_INDEX_MAX : Z := DYN_FRAME_BASE + MAX_DYN_FRAMES.
Definition PHYS_KVA_BASE : Z := 0xFFFFFF8080000000.
Definition USER_PHYS_BASE : Z := 0x01000000.

(** ** Sizes and the bump allocator *)
Definition kobj_size (kobj_type pages : Z) : Z :=
  if kobj_type =? KOBJ_CNODE then CNODE_SIZE * CAP_BYTES
  else if kobj_type =? KOBJ_ENDPOINT then SIZEOF_ENDPOINT
  else if kobj_type =? KOBJ_NOTIFICATION then SIZEOF_NOTIFICATION
  else if kobj_type =? KOBJ_SCHED_CONTEXT then SIZEOF_SCHED_CONTEXT
  else if kobj_type =? KOBJ_FRAME then
    (if (pages =? 0) || (MAX_FRAME_PAGES <? pages) then 0 else pages * PAGE_SIZE)
  else if kobj_type =? KOBJ_TASKTABLE then MAX_TASKS * SIZEOF_TCB
  else if kobj_type =? KOBJ_REVOKE_SPACES then (MAX_TASKS + 1) * SIZEOF_CSPACE_DESC
  else if kobj_type =? KOBJ_TASK_RUNNING_CPU then MAX_TASKS * 4
  else if kobj_type =? KOBJ_KSTACK_INFLIGHT then (MAX_TASKS + 63) / 64 * 8
  else 0.

Definition kobj_align (kobj_type : Z) : Z :=
  if kobj_type =? KOBJ_FRAME then PAGE_SIZE else KOBJ_ALIGN.

(** On uint64_t: the sum wraps. *)
Definition align_up (v a : Z) : Z := Z.ldiff (u64 (v + a - 1)) (a - 1).

Definition u_set_watermark (u : untyped) (w : Z) : untyped :=
  mk_untyped u.(u_base) u.(u_size) w u.(u_objects) u.(u_in_use).
Definition u_set_objects (u : untyped) (n : Z) : untyped :=
  mk_untyped u.(u_base) u.(u_size) u.(u_watermark) n u.(u_in_use).

(** The address of the block, or None for NULL, and the region after. *)
Definition untyped_bump (arena : Z) (u : untyped) (bytes align : Z) : option (Z * untyped) :=
  if negb u.(u_in_use) || (arena =? 0) then None else
  if (align =? 0) || negb (Z.land align (align - 1) =? 0) then None else
  let abs_base := arena + u.(u_base) in
  let start := u.(u_watermark) in
  if u.(u_size) <=? start then None else
  let room := u.(u_size) - start in
  let pad := Z.land (align - Z.land (abs_base + start) (align - 1)) (align - 1) in
  if room <? pad then None else
  let start := start + pad in
  let room := room - pad in
  if room <? bytes then None else
  Some (arena + u.(u_base) + start, u_set_watermark u (start + bytes)).

(** ** Index tables *)
Definition untyped_at (k : kstate) (i : Z) : untyped := zget untyped_zero k.(untypeds) i.
Definition kslot_at {A} (t : list (kobj_slot A)) (i : Z) : kobj_slot A := zget kslot_zero t i.
Definition has_mem {A} (s : kobj_slot A) : bool := bool_decide (s.(ks_mem) <> None).

Definition dyn_alloc_index {A} (t : list (kobj_slot A)) (n : Z) : option Z :=
  find_index (fun i => negb (has_mem (kslot_at t i))) 0 (Z.to_nat n).
Definition dyn_ep_alloc_index (k : kstate) : option Z :=
  dyn_alloc_index k.(dyn_eps) MAX_DYN_ENDPOINTS.
Definition dyn_notif_alloc_index (k : kstate) : option Z :=
  dyn_alloc_index k.(dyn_notifs) MAX_DYN_NOTIFICATIONS.
Definition dyn_frame_alloc_index (k : kstate) : option Z :=
  dyn_alloc_index k.(dyn_frames) MAX_DYN_FRAMES.
Definition dyn_sc_alloc_index (k : kstate) : option Z :=
  dyn_alloc_index k.(ksched).(dyn_scs) MAX_DYN_SCHED_CONTEXTS.

(** The address of frame [idx], or None. *)
Definition frame_by_index (k : kstate) (idx : Z) : option Z :=
  if negb (in_range DYN_FRAME_BASE FRAME_INDEX_MAX idx) then None
  else fst <$> (kslot_at k.(dyn_frames) (idx - DYN_FRAME_BASE)).(ks_mem).

Definition frame_pages_by_index (k : kstate) (idx : Z) : Z :=
  if negb (in_range DYN_FRAME_BASE FRAME_INDEX_MAX idx) then 0 else
  let s := kslot_at k.(dyn_frames) (idx - DYN_FRAME_BASE) in
  if negb (has_mem s) then 0 else if s.(ks_pages) =? 0 then 1 else s.(ks_pages).

Definition frame_phys_by_index (k : kstate) (idx : Z) : Z :=
  match frame_by_index k idx with None => 0 | Some p => p - PHYS_KVA_BASE end.

Definition phys_in_untyped_arena (k : kstate) (phys : Z) : bool :=
  if k.(g_untyped_arena) =? 0 then false else
  let base := k.(g_untyped_arena) - PHYS_KVA_BASE in
  (base <=? phys) && (phys <? base + UNTYPED_ARENA_BYTES).

(** ** Page references of frames (paging.c) *)
Definition s32 (x : Z) : Z := let y := u32 x in if y <? 0x80000000 then y else y - 0x100000000.
Definition frame_ref_index (phys : Z) : Z := s32 (u64 (phys - USER_PHYS_BASE) / PAGE_SIZE).

Definition frame_pin_refcount (refs : list Z) (phys : Z) : list Z :=
  let idx := frame_ref_index phys in
  if (0 <=? idx) && (idx <? zlen refs) && (zget 0 refs idx =? 0) then zset refs idx 1 else refs.
Definition frame_unpin_refcount (refs : list Z) (phys : Z) : list Z :=
  let idx := frame_ref_index phys in
  if (0 <=? idx) && (idx <? zlen refs) && (zget 0 refs idx =? 1) then zset refs idx 0 else refs.
Definition frame_map_refcount (refs : list Z) (phys : Z) : Z :=
  if phys <? USER_PHYS_BASE then 0 else
  let idx := (phys - USER_PHYS_BASE) / PAGE_SIZE in
  if zlen refs <=? idx then 0 else zget 0 refs idx.

(** The pages [0, pages) of a frame at [phys]. *)
Definition page_phys (phys pg : Z) : Z := phys + pg * PAGE_SIZE.

(** ** Allocating an object

    [Some (mem, out_index, state)], or [None] for NULL, when nothing has
    changed. *)
Definition bump_region (k : kstate) (u bytes align : Z) : option (Z * kstate) :=
  match untyped_bump k.(g_untyped_arena) (untyped_at k u) bytes align with
  | None => None
  | Some (p, r) => Some (p, set_untypeds k (zset k.(untypeds) u r))
  end.

Definition count_object (k : kstate) (u : Z) : kstate :=
  set_untypeds k (zset k.(untypeds) u
    (u_set_objects (untyped_at k u) (u32 ((untyped_at k u).(u_objects) + 1)))).

Definition pin_frame_pages (refs : list Z) (phys pages : Z) : list Z :=
  foldl (fun refs pg => frame_pin_refcount refs (page_phys phys pg)) refs (seqZ 0 pages).

(** The four classes with an index table: reserve an index, then the bytes. *)
Definition kobj_alloc (k : kstate) (untyped_index kobj_type pages : Z) : option (Z * Z * kstate) :=
  if MAX_UNTYPED <=? untyped_index then None else
  let pages := if negb (kobj_type =? KOBJ_FRAME) then 1 else if pages =? 0 then 1 else pages in
  let need := kobj_size kobj_type pages in
  if need =? 0 then None else
  let bump := bump_region k untyped_index need (kobj_align kobj_type) in
  let done '(mem, idx, k) := Some (mem, idx, count_object k untyped_index) in
  if kobj_type =? KOBJ_ENDPOINT then
    match dyn_ep_alloc_index k, bump with
    | Some i, Some (p, k) =>
        done (p, DYN_EP_BASE + i,
              set_dyn_eps k (zset k.(dyn_eps) i
                (mk_kslot (Some (p, ep_fresh)) (u16 untyped_index) true
                          (kslot_at k.(dyn_eps) i).(ks_pages))))
    | _, _ => None
    end
  else if kobj_type =? KOBJ_NOTIFICATION then
    match dyn_notif_alloc_index k, bump with
    | Some i, Some (p, k) =>
        done (p, DYN_NOTIF_BASE + i,
              set_dyn_notifs k (zset k.(dyn_notifs) i
                (mk_kslot (Some (p, notif_fresh)) (u16 untyped_index) true
                          (kslot_at k.(dyn_notifs) i).(ks_pages))))
    | _, _ => None
    end
  else if kobj_type =? KOBJ_FRAME then
    match dyn_frame_alloc_index k, bump with
    | Some i, Some (p, k) =>
        let k := set_page_refs k (pin_frame_pages k.(page_refcounts) (p - PHYS_KVA_BASE) pages) in
        done (p, DYN_FRAME_BASE + i,
              set_dyn_frames k (zset k.(dyn_frames) i
                (mk_kslot (Some (p, tt)) (u16 untyped_index) true pages)))
    | _, _ => None
    end
  else if kobj_type =? KOBJ_SCHED_CONTEXT then
    match dyn_sc_alloc_index k, bump with
    | Some i, Some (p, k) =>
        done (p, DYN_SC_BASE + i,
              set_sched k (set_dyn_slot k.(ksched) (DYN_SC_BASE + i)
                (mk_kslot (Some (p, sc_zero)) (u16 untyped_index) true
                          (kslot_at k.(ksched).(dyn_scs) i).(ks_pages))))
    | _, _ => None
    end
  else
    match bump with
    | Some (p, k) => done (p, 0, k)
    | None => None
    end.

(** ** Pins: an object is named before it can be collected *)
Definition unpin_kslot {A} (s : kobj_slot A) : kobj_slot A :=
  mk_kslot s.(ks_mem) s.(ks_untyped) false s.(ks_pages).
Definition unpin_slot {A} (t : list (kobj_slot A)) (n base idx : Z) : list (kobj_slot A) :=
  if in_range base (base + n) idx
  then zset t (idx - base) (unpin_kslot (kslot_at t (idx - base))) else t.

Definition kobj_unpin (k : kstate) (kobj_type idx : Z) : kstate :=
  if kobj_type =? KOBJ_ENDPOINT then
    set_dyn_eps k (unpin_slot k.(dyn_eps) MAX_DYN_ENDPOINTS DYN_EP_BASE idx)
  else if kobj_type =? KOBJ_NOTIFICATION then
    set_dyn_notifs k (unpin_slot k.(dyn_notifs) MAX_DYN_NOTIFICATIONS DYN_NOTIF_BASE idx)
  else if kobj_type =? KOBJ_FRAME then
    set_dyn_frames k (unpin_slot k.(dyn_frames) MAX_DYN_FRAMES DYN_FRAME_BASE idx)
  else if kobj_type =? KOBJ_SCHED_CONTEXT then
    let s := k.(ksched) in
    set_sched k (mk_sched s.(sc_roots)
      (unpin_slot s.(dyn_scs) MAX_DYN_SCHED_CONTEXTS DYN_SC_BASE idx)
      s.(sc_carved_live) s.(sc_stamp_idx) s.(sc_stamp_us) s.(task_sc_index))
  else k.

Definition kobj_of_cap (cap_type : Z) : Z :=
  if cap_type =? CAP_ENDPOINT then KOBJ_ENDPOINT
  else if cap_type =? CAP_NOTIFICATION then KOBJ_NOTIFICATION
  else if cap_type =? CAP_FRAME then KOBJ_FRAME
  else if cap_type =? CAP_SCHED_CONTEXT then KOBJ_SCHED_CONTEXT else 0.

Definition kobj_note_named (k : kstate) (cap_type obj : Z) : kstate :=
  if 0xFFFFFFFF <? obj then k else
  let kt := kobj_of_cap cap_type in
  if kt =? 0 then k else kobj_unpin k kt (u32 obj).

(** ** The collector *)

(** The slots of every live task's cspace and of the root cnode, in the order
    the collector and the revocation read them. *)
Definition cspace_slots (c : cref) (size : Z) : list loc :=
  (fun i => (c, i)) <$> seqZ 0 (if CNODE_SIZE <? size then CNODE_SIZE else size).
Definition task_size (t : task) : Z := if t.(t_cspace_size) =? 0 then CNODE_SIZE else t.(t_cspace_size).
Definition task_slots (t : task) : list loc :=
  if t.(t_state) =? TASK_DEAD then [] else
  match t.(t_cspace) with None => [] | Some c => cspace_slots c (task_size t) end.
Definition live_slots (k : kstate) : list loc :=
  (k.(tasks) ≫= task_slots) ++ cspace_slots CRoot CNODE_SIZE.

Record marks := mk_marks {
  m_ep : list bool; m_nt : list bool; m_fr : list bool; m_sc : list bool
}.
Definition mark_one (l : list bool) (base limit obj : Z) : list bool :=
  if in_range base limit obj then zset l (obj - base) true else l.

Definition mark_cap (c : capability) (x : marks) : marks :=
  if c.(serial) =? 0 then x else
  if c.(ctype) =? CAP_ENDPOINT then
    mk_marks (mark_one x.(m_ep) DYN_EP_BASE EP_INDEX_MAX c.(object)) x.(m_nt) x.(m_fr) x.(m_sc)
  else if c.(ctype) =? CAP_NOTIFICATION then
    mk_marks x.(m_ep) (mark_one x.(m_nt) DYN_NOTIF_BASE NOTIF_INDEX_MAX c.(object)) x.(m_fr) x.(m_sc)
  else if c.(ctype) =? CAP_FRAME then
    mk_marks x.(m_ep) x.(m_nt) (mark_one x.(m_fr) DYN_FRAME_BASE FRAME_INDEX_MAX c.(object)) x.(m_sc)
  else if c.(ctype) =? CAP_SCHED_CONTEXT then
    mk_marks x.(m_ep) x.(m_nt) x.(m_fr) (mark_one x.(m_sc) DYN_SC_BASE SC_INDEX_MAX c.(object))
  else x.

Definition no_marks : marks :=
  mk_marks (replicate (Z.to_nat MAX_DYN_ENDPOINTS) false)
           (replicate (Z.to_nat MAX_DYN_NOTIFICATIONS) false)
           (replicate (Z.to_nat MAX_DYN_FRAMES) false)
           (replicate (Z.to_nat MAX_DYN_SCHED_CONTEXTS) false).

Definition mark_reachable (k : kstate) : marks :=
  let x := foldl (fun x l => mark_cap (cap_at k.(mem) l) x) no_marks (live_slots k) in
  mk_marks x.(m_ep) x.(m_nt)
           (foldl (fun l idx => mark_one l DYN_FRAME_BASE FRAME_INDEX_MAX idx) x.(m_fr)
                  k.(shlib_frames)) x.(m_sc).

Definition uncount_object (k : kstate) (u : Z) : kstate :=
  if (u <? MAX_UNTYPED) && (0 <? (untyped_at k u).(u_objects))
  then set_untypeds k (zset k.(untypeds) u
         (u_set_objects (untyped_at k u) ((untyped_at k u).(u_objects) - 1)))
  else k.
Definition free_kslot {A} (s : kobj_slot A) : kobj_slot A :=
  mk_kslot None s.(ks_untyped) false s.(ks_pages).

(** [state = TASK_RUNNABLE; runnable_ctx = 1]. *)
Definition t_wake (t : task) : task := t_set_runnable_ctx (t_set_state t TASK_RUNNABLE) 1.

Definition destroy_dyn_endpoint (k : kstate) (i : Z) : kstate :=
  let s := kslot_at k.(dyn_eps) i in
  match s.(ks_mem) with
  | None => k
  | Some (_, e) =>
      let w := e.(ep_blocked_waiter) in
      let k := if (0 <? w) && (w <? g_max_tasks k) && negb ((task_at k w).(t_state) =? TASK_DEAD)
               then set_task k w (t_set_blocked_on (t_wake (task_at k w)) (-1))
               else k in
      let k := uncount_object k s.(ks_untyped) in
      set_dyn_eps k (zset k.(dyn_eps) i (free_kslot s))
  end.

Definition destroy_dyn_notification (k : kstate) (i : Z) : kstate :=
  let s := kslot_at k.(dyn_notifs) i in
  match s.(ks_mem) with
  | None => k
  | Some (_, n) =>
      let w := n.(nt_blocked_waiter) in
      let k := if (0 <? w) && (w <? g_max_tasks k) && negb ((task_at k w).(t_state) =? TASK_DEAD)
               then set_task k w (t_set_blocked_on_notif (t_wake (task_at k w)) (-1))
               else k in
      let k := uncount_object k s.(ks_untyped) in
      set_dyn_notifs k (zset k.(dyn_notifs) i (free_kslot s))
  end.

(** A frame somebody still maps is kept. *)
Definition destroy_dyn_frame (k : kstate) (i : Z) : kstate :=
  let s := kslot_at k.(dyn_frames) i in
  match s.(ks_mem) with
  | None => k
  | Some (p, _) =>
      let phys := p - PHYS_KVA_BASE in
      let pages := if s.(ks_pages) =? 0 then 1 else s.(ks_pages) in
      if existsb (fun j => 1 <? frame_map_refcount k.(page_refcounts) (page_phys phys j))
                 (seqZ 0 pages) then k else
      let k := set_iommu k (k.(iommu_unmaps) ++ [(phys, pages)]) in
      let k := set_page_refs k
        (foldl (fun refs j => frame_unpin_refcount refs (page_phys phys j)) k.(page_refcounts)
               (seqZ 0 pages)) in
      let k := uncount_object k s.(ks_untyped) in
      set_dyn_frames k (zset k.(dyn_frames) i (mk_kslot None s.(ks_untyped) false 0))
  end.

Definition destroy_dyn_sc (k : kstate) (i : Z) : kstate :=
  let s := kslot_at k.(ksched).(dyn_scs) i in
  match s.(ks_mem) with
  | None => k
  | Some _ =>
      let k := set_sched k (sched_context_destroyed k.(ksched) (DYN_SC_BASE + i)) in
      let k := uncount_object k s.(ks_untyped) in
      set_sched k (set_dyn_slot k.(ksched) (DYN_SC_BASE + i)
                     (free_kslot (kslot_at k.(ksched).(dyn_scs) i)))
  end.

(** [mem && !pinned && !mark] *)
Definition collectable {A} (s : kobj_slot A) (marked : bool) : bool :=
  has_mem s && negb s.(ks_pinned) && negb marked.

Definition gc_eps_pass (mk : list bool) (l : list Z) (k : kstate) : kstate :=
  foldl (fun k i => if collectable (kslot_at k.(dyn_eps) i) (zget false mk i)
                    then destroy_dyn_endpoint k i else k) k l.
Definition gc_notifs_pass (mk : list bool) (l : list Z) (k : kstate) : kstate :=
  foldl (fun k i => if collectable (kslot_at k.(dyn_notifs) i) (zget false mk i)
                    then destroy_dyn_notification k i else k) k l.
Definition gc_frames_pass (mk : list bool) (l : list Z) (k : kstate) : kstate :=
  foldl (fun k i => if collectable (kslot_at k.(dyn_frames) i) (zget false mk i)
                    then destroy_dyn_frame k i else k) k l.
Definition gc_scs_pass (mk : list bool) (l : list Z) (k : kstate) : kstate :=
  foldl (fun k i => if collectable (kslot_at k.(ksched).(dyn_scs) i) (zget false mk i)
                    then destroy_dyn_sc k i else k) k l.

Definition kobj_gc_locked (k : kstate) : kstate :=
  let x := mark_reachable k in
  let k := gc_eps_pass x.(m_ep) (seqZ 0 MAX_DYN_ENDPOINTS) k in
  let k := gc_notifs_pass x.(m_nt) (seqZ 0 MAX_DYN_NOTIFICATIONS) k in
  let k := gc_frames_pass x.(m_fr) (seqZ 0 MAX_DYN_FRAMES) k in
  gc_scs_pass x.(m_sc) (seqZ 0 MAX_DYN_SCHED_CONTEXTS) k.

(** ** Boot and splitting *)
Definition untyped_init : list untyped :=
  let kernel_half := align_up UNTYPED_KERNEL_BYTES PAGE_SIZE in
  let us := replicate (Z.to_nat MAX_UNTYPED) untyped_zero in
  let us := zset us UNTYPED_KERNEL (mk_untyped 0 kernel_half 0 0 true) in
  zset us UNTYPED_ROOT (mk_untyped kernel_half (UNTYPED_ARENA_BYTES - kernel_half) 0 0 true).

Definition untyped_reserve_task_capacity (us : list untyped) : Z :=
  let u := zget untyped_zero us UNTYPED_KERNEL in
  if negb u.(u_in_use) || (u.(u_size) <=? u.(u_watermark)) then 0 else
  let per_task := align_up (kobj_size KOBJ_CNODE 1) KOBJ_ALIGN in
  if per_task =? 0 then 0 else
  let n := (u.(u_size) - u.(u_watermark)) / per_task in
  if MAX_TASKS <? n then MAX_TASKS else n.

(** The part of untyped_split under the untyped lock: [inr] of the child's
    index and the regions, or [inl] of the error. *)
Definition split_region (us : list untyped) (parent bytes : Z) : Z + (Z * list untyped) :=
  let pu := zget untyped_zero us parent in
  let start := align_up pu.(u_watermark) PAGE_SIZE in
  let take := align_up bytes PAGE_SIZE in
  if (take <? bytes) || (u64 (start + take) <? start) then inl SYS_ERR_INVAL else
  if pu.(u_size) <? u64 (start + take) then inl SYS_ERR_NOMEM else
  match find_index (fun i => negb (zget untyped_zero us i).(u_in_use)) 0 (Z.to_nat MAX_UNTYPED) with
  | None => inl SYS_ERR_NOMEM
  | Some child =>
      let us := zset us parent (u_set_watermark pu (start + take)) in
      inr (child, zset us child (mk_untyped (pu.(u_base) + start) take 0 0 true))
  end.

(** The undo when the capability for the child could not be installed. *)
Definition unsplit_region (us : list untyped) (child : Z) : list untyped :=
  let u := zget untyped_zero us child in
  zset us child (mk_untyped 0 0 0 u.(u_objects) false).

(** The tables as the kernel finds them before any task exists: everything
    zero but the sentinels scheduler_init writes, the arena split into its two
    halves, the root contexts set up. *)
Definition boot_state (arena ntasks pages : Z) : kstate :=
  mk_ks 0 (replicate (Z.to_nat ntasks) task_boot) (replicate (Z.to_nat ntasks) 0)
        {[ CRoot := replicate (Z.to_nat CNODE_SIZE) null_cap ]} 0
        (replicate (Z.to_nat MAX_REV_SETS) (mk_revset 0 0 false))
        (replicate (Z.to_nat MAX_PIPES) pipe_zero) arena untyped_init
        (replicate (Z.to_nat MAX_DYN_ENDPOINTS) kslot_zero)
        (replicate (Z.to_nat MAX_DYN_NOTIFICATIONS) kslot_zero)
        (replicate (Z.to_nat MAX_DYN_FRAMES) kslot_zero)
        (sched_contexts_init sched_empty 0) (replicate (Z.to_nat pages) 0) [] []
        (replicate (Z.to_nat MAX_ENDPOINTS) ep_fresh)
        (replicate (Z.to_nat MAX_NOTIFICATIONS) notif_fresh).

(** ** Region invariant

    A block is an (offset, length) of the arena.  The unspent parts of the
    regions and the blocks handed out never overlap. *)
Definition disj (a b : Z * Z) : Prop := a.1 + a.2 <= b.1 \/ b.1 + b.2 <= a.1.
Definition unspent (u : untyped) : Z * Z :=
  (u.(u_base) + u.(u_watermark), u.(u_size) - u.(u_watermark)).

Record region_ok (u : untyped) : Prop := {
  ro_base : 0 <= u.(u_base) /\ u.(u_base) mod PAGE_SIZE = 0;
  ro_mark : 0 <= u.(u_watermark) <= u.(u_size);
  ro_arena : u.(u_base) + u.(u_size) <= UNTYPED_ARENA_BYTES
}.

Definition ut (us : list untyped) (i : Z) : untyped := zget untyped_zero us i.

Record regions_inv (us : list untyped) (blocks : list (Z * Z)) : Prop := {
  ri_len : zlen us = MAX_UNTYPED;
  ri_ok : forall i, (ut us i).(u_in_use) = true -> region_ok (ut us i);
  ri_disj : forall i j, i <> j -> (ut us i).(u_in_use) = true -> (ut us j).(u_in_use) = true ->
      disj (unspent (ut us i)) (unspent (ut us j));
  ri_blocks : forall b, b ∈ blocks -> 0 <= b.1 /\ 0 < b.2 /\ b.1 + b.2 <= UNTYPED_ARENA_BYTES;
  ri_spent : forall b i, b ∈ blocks -> (ut us i).(u_in_use) = true -> disj b (unspent (ut us i));
  ri_apart : forall n m a b, n <> m -> blocks !! n = Some a -> blocks !! m = Some b -> disj a b
}.

(** ** Arithmetic of alignment *)
Lemma pow2_land x n : 0 <= n -> Z.land x (2 ^ n - 1) = x mod 2 ^ n.
Proof. apply land_ones_mod. Qed.

Lemma ldiff_ones_mod x n : 0 <= n -> Z.ldiff x (2 ^ n - 1) = x - x mod 2 ^ n.
Proof.
  intros Hn. rewrite Z.sub_1_r, <- Z.ones_equiv.
  rewrite Z.ldiff_ones_r, Z.shiftl_mul_pow2, Z.shiftr_div_pow2 by lia.
  pose proof (Z.div_mod x (2 ^ n) ltac:(lia)). lia.
Qed.

Lemma align_up_page v :
  0 <= v -> v + 4095 <= U64_MAX ->
  let a := align_up v PAGE_SIZE in v <= a < v + PAGE_SIZE /\ a mod PAGE_SIZE = 0.
Proof.
  unfold align_up, PAGE_SIZE, U64_MAX. intros Hv Hm.
  rewrite u64_mod, Z.mod_small by lia. replace (4096 - 1) with (2 ^ 12 - 1) by lia.
  rewrite ldiff_ones_mod by lia. change (2 ^ 12) with 4096.
  pose proof (Z.div_mod (v + 4096 - 1) 4096 ltac:(lia)) as Hd.
  pose proof (Z.mod_pos_bound (v + 4096 - 1) 4096 ltac:(lia)).
  split; [lia|].
  replace (v + 4096 - 1 - (v + 4096 - 1) mod 4096) with ((v + 4096 - 1) / 4096 * 4096) by lia.
  apply Z_mod_mult.
Qed.

(** A bump gives a block of the region's unspent part, aligned. *)
Lemma untyped_bump_spec arena u bytes align n p u' :
  align = 2 ^ n -> 0 <= n -> 0 <= u.(u_watermark) ->
  untyped_bump arena u bytes align = Some (p, u') -> 0 <= bytes ->
  u.(u_in_use) = true /\ arena <> 0
  /\ exists start, p = arena + u.(u_base) + start /\ p mod align = 0
     /\ u.(u_watermark) <= start < u.(u_watermark) + align
     /\ start + bytes <= u.(u_size) /\ u' = u_set_watermark u (start + bytes).
Proof.
  intros -> Hn Hw. unfold untyped_bump. destruct (u_in_use u) eqn:E; simpl; [|done].
  destruct (Z.eqb_spec arena 0); [done|]. simpl.
  destruct (_ || _); [done|]. destruct (Z.leb_spec (u_size u) (u_watermark u)); [done|].
  rewrite !pow2_land by done. set (a := arena + u_base u + u_watermark u).
  set (pad := (2 ^ n - a mod 2 ^ n) mod 2 ^ n).
  destruct (Z.ltb_spec (u_size u - u_watermark u) pad); [done|].
  destruct (Z.ltb_spec (u_size u - u_watermark u - pad) bytes); [done|].
  intros [= <- <-] Hb. split_and!; [done..|]. exists (u_watermark u + pad).
  pose proof (Z.mod_pos_bound (2 ^ n - a mod 2 ^ n) (2 ^ n) ltac:(lia)) as Hp. fold pad in Hp.
  split_and!; try lia; try done.
  replace (arena + u_base u + (u_watermark u + pad)) with (a + pad) by lia.
  unfold pad. rewrite Zplus_mod_idemp_r.
  replace (a + (2 ^ n - a mod 2 ^ n)) with (2 ^ n + (a - a mod 2 ^ n)) by lia.
  pose proof (Z.div_mod a (2 ^ n) ltac:(lia)).
  replace (2 ^ n + (a - a mod 2 ^ n)) with ((1 + a / 2 ^ n) * 2 ^ n) by lia. apply Z_mod_mult.
Qed.

(** ** Preservation of the region invariant *)
Lemma ut_zset us i u j :
  ut (zset us i u) j = if bool_decide (i = j /\ 0 <= i < zlen us) then u else ut us j.
Proof. apply zget_zset. Qed.

Lemma in_use_range us i : (ut us i).(u_in_use) = true -> 0 <= i < zlen us.
Proof.
  intros H. destruct (decide (0 <= i < zlen us)); [done|].
  unfold ut in H. by rewrite zget_out in H by lia.
Qed.

(** Handing out a block from the front of a region. *)
Lemma regions_inv_spend us bl i u' off len :
  regions_inv us bl -> (ut us i).(u_in_use) = true ->
  u'.(u_in_use) = true -> u'.(u_base) = (ut us i).(u_base) -> u'.(u_size) = (ut us i).(u_size) ->
  (ut us i).(u_base) + (ut us i).(u_watermark) <= off -> 0 < len ->
  off + len <= u'.(u_base) + u'.(u_watermark) -> u'.(u_watermark) <= u'.(u_size) ->
  regions_inv (zset us i u') ((off, len) :: bl).
Proof.
  intros [Hl Hok Hd Hb Hs Ha] Hi Hu Hbase Hsize Hoff Hlen Hend Hmark.
  pose proof (Hok i Hi) as [Ob Om Oa]. pose proof (in_use_range us i Hi) as Hri.
  assert (forall j, (ut (zset us i u') j).(u_in_use) = true <-> (ut us j).(u_in_use) = true) as Huse.
  { intros j. rewrite ut_zset. case_bool_decide as Hj; [|done]. destruct Hj as [<- _]. by rewrite Hu. }
  assert (forall b j, disj b (unspent (ut us j)) -> disj b (unspent (ut (zset us i u') j))) as Hsub.
  { intros b j. rewrite ut_zset. case_bool_decide as Hj; [|done]. destruct Hj as [<- _].
    unfold disj, unspent; simpl. rewrite Hbase, Hsize. lia. }
  assert (forall j, (ut us j).(u_in_use) = true -> j <> i -> disj (off, len) (unspent (ut us j))) as Hnew.
  { intros j Hj Hji. specialize (Hd i j (not_eq_sym Hji) Hi Hj). unfold disj, unspent in *. simpl in *.
    rewrite Hbase, Hsize in *. pose proof (Hok j Hj) as [? ? ?]. lia. }
  constructor.
  - by rewrite zlen_zset.
  - intros j Hj%Huse. rewrite ut_zset. case_bool_decide as Hij; [|by apply Hok].
    destruct Hij as [<- _]. constructor; rewrite ?Hbase, ?Hsize; [done|lia|done].
  - intros j k Hjk Hj%Huse Hk%Huse. specialize (Hd j k Hjk Hj Hk). apply Hsub.
    rewrite ut_zset. case_bool_decide as Hij; [|done]. destruct Hij as [<- _].
    unfold disj, unspent in *; simpl in *. rewrite Hbase, Hsize. lia.
  - intros b [->|Hin]%elem_of_cons; [simpl; rewrite Hbase, Hsize in *; lia|by apply Hb].
  - intros b j [->|Hin]%elem_of_cons Hj%Huse; [|by apply Hsub, Hs].
    destruct (decide (j = i)) as [->|Hji]; [|by apply Hsub, Hnew].
    rewrite ut_zset, bool_decide_true by done. unfold disj, unspent; simpl. lia.
  - assert (forall b, b ∈ bl -> disj (off, len) b) as Hold.
    { intros b Hin. specialize (Hs b i Hin Hi). pose proof (Hb b Hin).
      unfold disj, unspent in *; simpl in *. rewrite Hbase, Hsize in *. lia. }
    intros [|n] [|m] a b Hnm Hn Hm; simpl in *; simplify_eq.
    + apply Hold. by eapply list_elem_of_lookup_2.
    + assert (disj (off, len) a) as [?|?] by (apply Hold; by eapply list_elem_of_lookup_2);
        [by right|by left].
    + eapply (Ha n m); eauto.
Qed.

(** A block that is handed to a new region becomes that region's unspent part. *)
Lemma regions_inv_new us bl c off len objs :
  regions_inv us ((off, len) :: bl) -> 0 <= c < MAX_UNTYPED -> (ut us c).(u_in_use) = false ->
  off mod PAGE_SIZE = 0 ->
  regions_inv (zset us c (mk_untyped off len 0 objs true)) bl.
Proof.
  intros [Hl Hok Hd Hb Hs Ha] Hc Hfree Hal. destruct (Hb (off, len) (list_elem_of_here _ _)) as (B1 & B2 & B3).
  simpl in *. set (u := mk_untyped off len 0 objs true).
  assert (forall j, ut (zset us c u) j = if decide (j = c) then u else ut us j) as E.
  { intros j. rewrite ut_zset, Hl. repeat case_bool_decide; repeat case_decide; naive_solver. }
  assert (forall j, j <> c -> (ut us j).(u_in_use) = true -> disj (off, len) (unspent (ut us j))) as Hnew.
  { intros j _ Hj. apply Hs; [left|done]. }
  assert (unspent u = (off, len)) as Hun by (unfold unspent; simpl; f_equal; lia).
  constructor.
  - by rewrite zlen_zset.
  - intros j. rewrite E. case_decide; [|apply Hok]. intros _. constructor; simpl; lia.
  - intros i j Hij. rewrite !E. repeat case_decide; try congruence.
    + intros _ Hj. rewrite Hun. by apply Hnew.
    + intros Hi _. rewrite Hun. specialize (Hnew i ltac:(done) Hi). unfold disj in *; simpl in *. lia.
    + by apply Hd.
  - intros b Hin. apply Hb. by right.
  - intros b j Hin. rewrite E. case_decide; [|apply Hs; by right]. intros _. rewrite Hun.
    apply list_elem_of_lookup in Hin as [n Hn]. apply (Ha (S n) O); [lia|done|done].
  - intros n m a b Hnm Hn Hm. by apply (Ha (S n) (S m)); [lia| |].
Qed.

Lemma regions_inv_drop us bl c b s w o :
  regions_inv us bl -> regions_inv (zset us c (mk_untyped b s w o false)) bl.
Proof.
  intros [Hl Hok Hd Hb Hs Ha].
  assert (forall j, (ut (zset us c (mk_untyped b s w o false)) j).(u_in_use) = true ->
            ut (zset us c (mk_untyped b s w o false)) j = ut us j) as E.
  { intros j. rewrite ut_zset. by case_bool_decide. }
  constructor; [by rewrite zlen_zset| | |done| |done].
  - intros i Hi. pose proof (E i Hi) as Ei. rewrite Ei in Hi |- *. by apply Hok.
  - intros i j Hij Hi Hj. pose proof (E i Hi) as Ei. pose proof (E j Hj) as Ej.
    rewrite Ei in Hi |- *. rewrite Ej in Hj |- *. by apply Hd.
  - intros x i Hx Hi. pose proof (E i Hi) as Ei. rewrite Ei in Hi |- *. by apply Hs.
Qed.

Lemma regions_inv_objects us bl i n :
  regions_inv us bl -> regions_inv (zset us i (u_set_objects (ut us i) n)) bl.
Proof.
  intros [Hl Hok Hd Hb Hs Ha].
  assert (forall j, let u := ut (zset us i (u_set_objects (ut us i) n)) j in
            u.(u_in_use) = (ut us j).(u_in_use) /\ unspent u = unspent (ut us j)
            /\ (region_ok (ut us j) -> region_ok u)) as E.
  { intros j. rewrite ut_zset. case_bool_decide as Hj; [|done]. destruct Hj as [<- _].
    split_and!; [done..|]. intros []. by constructor. }
  constructor; [by rewrite zlen_zset| | |done| |done].
  - intros j. destruct (E j) as (-> & _ & H). intros Hj. by apply H, Hok.
  - intros j k Hjk. destruct (E j) as (-> & -> & _), (E k) as (-> & -> & _). by apply Hd.
  - intros x j Hx. destruct (E j) as (-> & -> & _). by apply Hs.
Qed.

Lemma split_region_inv us bl parent bytes child us' :
  regions_inv us bl -> (ut us parent).(u_in_use) = true -> 0 < bytes <= U64_MAX ->
  split_region us parent bytes = inr (child, us') ->
  child <> parent /\ 0 <= child < MAX_UNTYPED /\ (ut us child).(u_in_use) = false
  /\ regions_inv us' bl
  /\ exists start take, (ut us parent).(u_watermark) <= start /\ bytes <= take
     /\ start + take <= (ut us parent).(u_size)
     /\ us' = zset (zset us parent (u_set_watermark (ut us parent) (start + take))) child
                   (mk_untyped ((ut us parent).(u_base) + start) take 0 0 true).
Proof.
  intros Hinv Hpar Hby. unfold split_region. fold (ut us parent). set (pu := ut us parent) in *.
  pose proof (ri_ok _ _ Hinv parent Hpar) as [[Pb Pm] Pw Pa]. fold pu in Pb, Pm, Pw, Pa.
  assert (UNTYPED_ARENA_BYTES = 6815744) as HA by by vm_compute.
  destruct (align_up_page pu.(u_watermark)) as [Hs1 Hs2]; [lia|unfold U64_MAX; lia|].
  set (start := align_up pu.(u_watermark) PAGE_SIZE) in *. set (take := align_up bytes PAGE_SIZE).
  destruct (Z.ltb_spec take bytes) as [|Hge]; [done|]. simpl.
  assert (bytes + 4095 <= U64_MAX) as Hby2.
  { destruct (decide (bytes + 4095 <= U64_MAX)) as [|Hbig]; [done|exfalso].
    assert (take < bytes); [|lia]. unfold take, align_up, PAGE_SIZE, U64_MAX in *.
    rewrite u64_mod. rewrite <- (Z_mod_plus_full (bytes + 4096 - 1) (-1)).
    rewrite Z.mod_small by lia. replace (4096 - 1) with (2 ^ 12 - 1) by lia.
    rewrite ldiff_ones_mod by lia.
    pose proof (Z.mod_pos_bound (bytes + 4096 - 1 + -1 * 2 ^ 64) (2 ^ 12) ltac:(lia)). lia. }
  destruct (align_up_page bytes ltac:(lia) Hby2) as [Ht1 Ht2]. fold take in Ht1, Ht2.
  destruct (Z.ltb_spec (u64 (start + take)) start) as [|Hnw]; [done|].
  destruct (Z.ltb_spec pu.(u_size) (u64 (start + take))) as [|Hfit]; [done|].
  assert (u64 (start + take) = start + take) as Hu.
  { unfold U64_MAX, PAGE_SIZE in *. rewrite u64_mod in *.
    destruct (decide (start + take < 2 ^ 64)); [apply Z.mod_small; lia|].
    rewrite <- (Z_mod_plus_full (start + take) (-1)) in Hnw.
    rewrite Z.mod_small in Hnw by lia. lia. }
  rewrite Hu in Hfit. destruct (find_index _ _ _) as [c|] eqn:Ec; [|done]. intros [= <- <-].
  apply find_index_Some in Ec as (Hc & Hfree%negb_true_iff & _). fold (ut us c) in Hfree.
  change (0 + Z.of_nat (Z.to_nat MAX_UNTYPED)) with MAX_UNTYPED in Hc.
  assert (c <> parent) as Hcp by (intros ->; unfold pu in *; congruence).
  split_and!; [done|lia..|done| |exists start, take; split_and!; [lia..|done]].
  apply regions_inv_new; [|done| |].
  - apply regions_inv_spend; try done; simpl; fold pu; lia.
  - rewrite ut_zset, bool_decide_false by naive_solver. done.
  - rewrite Z.add_mod, Pm, Hs2 by (unfold PAGE_SIZE; lia). done.
Qed.

(** The whole life of the arena: boot, then bumps, splits and failed splits. *)
Inductive arena_reach (arena : Z) : list untyped -> list (Z * Z) -> Prop :=
| ar_init : arena_reach arena untyped_init []
| ar_bump us bl u bytes align n p u' :
    arena_reach arena us bl -> align = 2 ^ n -> 0 <= n -> 0 < bytes ->
    untyped_bump arena (ut us u) bytes align = Some (p, u') ->
    arena_reach arena (zset us u u') ((p - arena, bytes) :: bl)
| ar_objects us bl u n :
    arena_reach arena us bl -> arena_reach arena (zset us u (u_set_objects (ut us u) n)) bl
| ar_split us bl parent bytes child us' :
    arena_reach arena us bl -> (ut us parent).(u_in_use) = true -> parent <> UNTYPED_KERNEL ->
    0 < bytes <= U64_MAX -> split_region us parent bytes = inr (child, us') ->
    arena_reach arena us' bl
| ar_unsplit us bl child :
    arena_reach arena us bl -> child <> UNTYPED_KERNEL -> arena_reach arena (unsplit_region us child) bl.

Definition KERNEL_HALF : Z := align_up UNTYPED_KERNEL_BYTES PAGE_SIZE.

(** Region 0 is the kernel's own and spends only the kernel half; every other
    region lies above it. *)
Definition halves_ok (us : list untyped) : Prop :=
  (forall i, i <> UNTYPED_KERNEL -> (ut us i).(u_in_use) = true -> KERNEL_HALF <= (ut us i).(u_base))
  /\ (ut us UNTYPED_KERNEL).(u_base) = 0 /\ (ut us UNTYPED_KERNEL).(u_size) = KERNEL_HALF
  /\ (ut us UNTYPED_KERNEL).(u_in_use) = true.

Lemma halves_ok_zset us i u :
  halves_ok us -> u.(u_base) = (ut us i).(u_base) -> u.(u_size) = (ut us i).(u_size) ->
  u.(u_in_use) = (ut us i).(u_in_use) -> halves_ok (zset us i u).
Proof.
  intros (H1 & H2 & H3 & H4) Hb Hs Hu. unfold halves_ok.
  assert (forall j, (ut (zset us i u) j).(u_base) = (ut us j).(u_base)
            /\ (ut (zset us i u) j).(u_size) = (ut us j).(u_size)
            /\ (ut (zset us i u) j).(u_in_use) = (ut us j).(u_in_use)) as E.
  { intros j. rewrite ut_zset. case_bool_decide as Hj; [|done]. by destruct Hj as [<- _]. }
  destruct (E UNTYPED_KERNEL) as (-> & -> & ->). split_and!; try done.
  intros j. destruct (E j) as (-> & _ & ->). apply H1.
Qed.

Lemma ut_init i :
  ut untyped_init i = if decide (i = UNTYPED_ROOT)
                      then mk_untyped KERNEL_HALF (UNTYPED_ARENA_BYTES - KERNEL_HALF) 0 0 true
                      else if decide (i = UNTYPED_KERNEL) then mk_untyped 0 KERNEL_HALF 0 0 true
                      else untyped_zero.
Proof.
  unfold untyped_init. fold KERNEL_HALF. unfold ut. rewrite !zget_zset, !zlen_zset, zlen_replicate.
  unfold UNTYPED_ROOT, UNTYPED_KERNEL, MAX_UNTYPED.
  repeat case_bool_decide; repeat case_decide; try (exfalso; lia); try done.
  destruct (decide (0 <= i < Z.of_nat (Z.to_nat 64))); [by apply zget_replicate|].
  apply zget_out. rewrite zlen_replicate. lia.
Qed.

Lemma untyped_init_inv : regions_inv untyped_init [] /\ halves_ok untyped_init.
Proof.
  assert (KERNEL_HALF = 3145728) as HK by by vm_compute.
  assert (UNTYPED_ARENA_BYTES = 6815744) as HA by by vm_compute.
  split; [constructor|].
  - done.
  - intros i. rewrite ut_init. repeat case_decide; [| |done]; intros _; constructor; simpl;
      rewrite ?HK, ?HA; try lia; split; done || lia.
  - intros i j Hij. rewrite !ut_init. repeat case_decide; simplify_eq; try done; intros _ _;
      unfold disj, unspent; simpl; rewrite ?HK, ?HA; lia.
  - by intros b ?%not_elem_of_nil.
  - by intros b i ?%not_elem_of_nil.
  - by intros n m a b _ ?.
  - split_and!; [|by rewrite ut_init..]. intros i Hi. rewrite ut_init. by repeat case_decide.
Qed.

Lemma arena_reach_inv arena us bl : arena_reach arena us bl -> regions_inv us bl /\ halves_ok us.
Proof.
  induction 1 as [|us bl u bytes align n p u' _ [I1 I2] Hal Hn Hb Hbump|us bl u n _ [I1 I2]
                  |us bl parent bytes child us' _ [I1 I2] Hp Hk Hb Hsplit|us bl child _ [I1 I2] Hc].
  - apply untyped_init_inv.
  - assert ((ut us u).(u_in_use) = true) as Hu.
    { revert Hbump. unfold untyped_bump. by destruct (u_in_use (ut us u)). }
    pose proof (ri_ok _ _ I1 u Hu) as [Ob Om Oa].
    destruct (untyped_bump_spec _ _ _ _ _ _ _ Hal Hn (proj1 Om) Hbump ltac:(lia))
      as (_ & _ & start & -> & _ & Hs & Hfit & ->).
    split.
    + apply regions_inv_spend; try done; simpl; lia.
    + by apply halves_ok_zset.
  - split; [by apply regions_inv_objects|by apply halves_ok_zset].
  - destruct (split_region_inv us bl parent bytes child us' I1 Hp Hb Hsplit)
      as (Hcp & Hcr & Hcf & Hinv & start & take & Hst & _ & Hfit & ->).
    split; [done|].
    pose proof (halves_ok_zset us parent (u_set_watermark (ut us parent) (start + take))
                  I2 eq_refl eq_refl eq_refl) as (J1 & J2 & J3 & J4).
    destruct I2 as (K1 & K2 & K3 & K4). pose proof (ri_ok _ _ I1 parent Hp) as [_ Om _].
    assert (child <> UNTYPED_KERNEL) as Hck by (intros ->; congruence).
    unfold halves_ok. rewrite (ut_zset _ child _ UNTYPED_KERNEL), bool_decide_false by naive_solver.
    split_and!; try done. intros i Hi. rewrite (ut_zset _ child). case_bool_decide; [|by apply J1].
    intros _. simpl. specialize (K1 parent Hk Hp). lia.
  - split; [by apply regions_inv_drop|]. destruct I2 as (K1 & K2 & K3 & K4).
    unfold halves_ok, unsplit_region. rewrite (ut_zset _ child _ UNTYPED_KERNEL), bool_decide_false
      by naive_solver.
    split_and!; try done. intros i Hi. rewrite (ut_zset _ child). case_bool_decide; [done|by apply K1].
Qed.

(** ** Theorems about regions *)

(** C27: whatever is carved, split off or given back, the blocks handed out of
    the untyped arena never overlap, lie inside the arena, and lie outside
    everything the regions may still hand out: no two kernel objects share a
    byte, and a child region is memory its parent gave up. *)
Theorem arena_blocks_disjoint arena us bl :
  arena_reach arena us bl ->
  (forall n m a b, n <> m -> bl !! n = Some a -> bl !! m = Some b -> disj a b)
  /\ (forall b, b ∈ bl -> 0 <= b.1 /\ 0 < b.2 /\ b.1 + b.2 <= UNTYPED_ARENA_BYTES)
  /\ (forall b i, b ∈ bl -> (ut us i).(u_in_use) = true -> disj b (unspent (ut us i)))
  /\ (forall i j, i <> j -> (ut us i).(u_in_use) = true -> (ut us j).(u_in_use) = true ->
       disj (unspent (ut us i)) (unspent (ut us j))).
Proof. intros H. destruct (arena_reach_inv _ _ _ H) as [[? ? ? ? ? ?] _]. by split_and!. Qed.

(** A split of the user region, then a block from the child and one from the
    parent. *)
Lemma arena_blocks_disjoint_witness :
  disj (3145728, 4096) (3153920, 1280).
Proof.
  set (arena := PHYS_KVA_BASE + USER_PHYS_BASE).
  destruct (split_region untyped_init 1 8000) as [?|[c us1]] eqn:E1; [by vm_compute in E1|].
  destruct (untyped_bump arena (ut us1 2) 4096 4096) as [[p2 u2]|] eqn:E2;
    [|by vm_compute in E1; injection E1 as <- <-; vm_compute in E2].
  destruct (untyped_bump arena (ut (zset us1 2 u2) 1) 1280 64) as [[p1 u1]|] eqn:E3;
    [|by vm_compute in E1; injection E1 as <- <-; vm_compute in E2; injection E2 as <- <-;
      vm_compute in E3].
  assert (p2 = arena + 3145728 /\ p1 = arena + 3153920) as [-> ->].
  { vm_compute in E1. injection E1 as <- <-. vm_compute in E2. injection E2 as <- <-.
    vm_compute in E3. injection E3 as <- <-. by vm_compute. }
  destruct (arena_blocks_disjoint arena (zset (zset us1 2 u2) 1 u1)
              [(arena + 3153920 - arena, 1280); (arena + 3145728 - arena, 4096)]) as [H _].
  - apply (ar_bump _ _ _ 1 1280 64 6); [|done|done|done|done].
    apply (ar_bump _ _ _ 2 4096 4096 12); [|done|done|done|done].
    apply (ar_split _ untyped_init [] 1 8000 c); [apply ar_init|done|done|done|done].
  - destruct (H 1%nat 0%nat (arena + 3145728 - arena, 4096) (arena + 3153920 - arena, 1280));
      [done|done|done|left; done|right; done].
Defined.

(** No operation on a region other than the kernel's own ever touches the
    kernel's half of the arena: every such region, at boot or after any number
    of splits, lies above it, and the kernel's region keeps its extent. *)
Theorem kernel_half_reserved arena us bl :
  arena_reach arena us bl ->
  (forall i, i <> UNTYPED_KERNEL -> (ut us i).(u_in_use) = true -> KERNEL_HALF <= (ut us i).(u_base))
  /\ (ut us UNTYPED_KERNEL).(u_base) = 0 /\ (ut us UNTYPED_KERNEL).(u_size) = KERNEL_HALF.
Proof. intros H. destruct (arena_reach_inv _ _ _ H) as [_ (? & ? & ? & ?)]. by split_and!. Qed.

Lemma kernel_half_reserved_witness :
  exists us c, split_region untyped_init 1 8000 = inr (c, us) /\ KERNEL_HALF <= (ut us c).(u_base).
Proof.
  destruct (split_region untyped_init 1 8000) as [?|[c us]] eqn:E; [by vm_compute in E|].
  exists us, c. split; [done|].
  apply (kernel_half_reserved (PHYS_KVA_BASE + USER_PHYS_BASE) us []).
  - apply (ar_split _ untyped_init [] 1 8000 c); [apply ar_init|done|done|done|done].
  - vm_compute in E. injection E as <- _. done.
  - vm_compute in E. injection E as <- <-. by vm_compute.
Defined.

(** ** What the collector leaves alone

    [same_caps k k']: the capability state, and which tasks live with which
    cspace, are the same. *)
Definition same_space (a b : task) : Prop :=
  b.(t_cspace) = a.(t_cspace) /\ b.(t_cspace_size) = a.(t_cspace_size)
  /\ b.(t_slot_gen) = a.(t_slot_gen) /\ (b.(t_state) = TASK_DEAD <-> a.(t_state) = TASK_DEAD).

Record same_caps (k k' : kstate) : Prop := {
  sc_mem : k'.(mem) = k.(mem);
  sc_serial : k'.(cap_next_serial) = k.(cap_next_serial);
  sc_ciu : k'.(caps_in_use) = k.(caps_in_use);
  sc_pipes : k'.(pipes) = k.(pipes);
  sc_cur : k'.(cur) = k.(cur);
  sc_arena : k'.(g_untyped_arena) = k.(g_untyped_arena);
  sc_tasks : Forall2 same_space k.(tasks) k'.(tasks)
}.

#[global] Instance same_space_preorder : PreOrder same_space.
Proof.
  split; [by intros a; split_and!|]. unfold same_space.
  intros a b c (? & ? & ? & ?) (? & ? & ? & ?). split_and!; try congruence. tauto.
Qed.
#[global] Instance same_caps_preorder : PreOrder same_caps.
Proof.
  split; [by intros k; constructor|]. intros a b c [] []. constructor; try congruence. by etrans.
Qed.

(** The updates the collector makes. *)
Lemma same_caps_fields k k' :
  k'.(mem) = k.(mem) -> k'.(cap_next_serial) = k.(cap_next_serial) ->
  k'.(caps_in_use) = k.(caps_in_use) -> k'.(pipes) = k.(pipes) -> k'.(cur) = k.(cur) ->
  k'.(g_untyped_arena) = k.(g_untyped_arena) -> k'.(tasks) = k.(tasks) -> same_caps k k'.
Proof.
  intros ? ? ? ? ? ? Ht. constructor; try done. by rewrite Ht.
Qed.

Lemma Forall2_zset_l {A} (R : A -> A -> Prop) d l i x :
  (forall a, R a a) -> (0 <= i < zlen l -> R (zget d l i) x) -> Forall2 R l (zset l i x).
Proof.
  intros Hr Hx. apply Forall2_same_length_lookup_2.
  - unfold zset. case_match; [done|]. by rewrite length_insert.
  - intros n a b Ha Hb. pose proof (lookup_lt_Some _ _ _ Ha) as Hn.
    assert (a = zget d l (Z.of_nat n)) as -> by (rewrite zget_lookup by lia; by rewrite Nat2Z.id, Ha).
    assert (b = zget d (zset l i x) (Z.of_nat n)) as ->
      by (rewrite zget_lookup by lia; by rewrite Nat2Z.id, Hb).
    rewrite zget_zset. case_bool_decide as Hi; [|apply Hr]. destruct Hi as [<- Hi]. by apply Hx.
Qed.

(** Waking a waiter changes neither its cspace nor whether it lives. *)
Lemma same_caps_set_task k w t :
  same_space (task_at k w) t -> same_caps k (set_task k w t).
Proof.
  intros Hs. constructor; try done. simpl. by apply (Forall2_zset_l _ task_zero).
Qed.
Lemma same_caps_wake k w f :
  (task_at k w).(t_state) <> TASK_DEAD -> (forall t, same_space t (f t)) ->
  same_caps k (set_task k w (f (t_wake (task_at k w)))).
Proof.
  intros Hs Hf. apply same_caps_set_task. etrans; [|apply Hf].
  split_and!; [done..|]. unfold TASK_RUNNABLE. simpl. split; intros; [done|tauto].
Qed.

Lemma uncount_object_same_caps k u : same_caps k (uncount_object k u).
Proof. unfold uncount_object. destruct (_ && _); by apply same_caps_fields. Qed.

(** The tail every destructor has: the region's count, then the descriptor. *)
Ltac via_uncount :=
  match goal with
  | |- same_caps _ (_ (uncount_object ?x ?u) _) =>
      trans x; [|trans (uncount_object x u); [apply uncount_object_same_caps|by apply same_caps_fields]]
  end.

Lemma destroy_dyn_endpoint_same_caps k i : same_caps k (destroy_dyn_endpoint k i).
Proof.
  unfold destroy_dyn_endpoint. destruct (ks_mem _) as [[p e]|]; [|done]. via_uncount.
  destruct (_ && _) eqn:E; [|done].
  apply andb_true_iff in E as [_ Hs%negb_true_iff%Z.eqb_neq].
  by apply (same_caps_wake _ _ (fun t => t_set_blocked_on t (-1))).
Qed.

Lemma destroy_dyn_notification_same_caps k i : same_caps k (destroy_dyn_notification k i).
Proof.
  unfold destroy_dyn_notification. destruct (ks_mem _) as [[p e]|]; [|done]. via_uncount.
  destruct (_ && _) eqn:E; [|done].
  apply andb_true_iff in E as [_ Hs%negb_true_iff%Z.eqb_neq].
  by apply (same_caps_wake _ _ (fun t => t_set_blocked_on_notif t (-1))).
Qed.

Lemma destroy_dyn_frame_same_caps k i : same_caps k (destroy_dyn_frame k i).
Proof.
  unfold destroy_dyn_frame. destruct (ks_mem _) as [[p e]|]; [|done].
  destruct (existsb _ _); [done|]. via_uncount. by apply same_caps_fields.
Qed.

Lemma destroy_dyn_sc_same_caps k i : same_caps k (destroy_dyn_sc k i).
Proof.
  unfold destroy_dyn_sc. destruct (ks_mem _) as [[p e]|]; [|done].
  via_uncount. by apply same_caps_fields.
Qed.

Lemma foldl_same_caps (f : kstate -> Z -> kstate) (c : kstate -> Z -> bool) l k :
  (forall k i, same_caps k (f k i)) ->
  same_caps k (foldl (fun k i => if c k i then f k i else k) k l).
Proof.
  intros Hf. revert k. induction l as [|i l IH]; intros k; simpl; [done|].
  etrans; [|apply IH]. destruct (c k i); [apply Hf|done].
Qed.

Lemma kobj_gc_locked_same_caps k : same_caps k (kobj_gc_locked k).
Proof.
  unfold kobj_gc_locked. cbv zeta. unfold gc_scs_pass.
  etrans; [|apply foldl_same_caps, destroy_dyn_sc_same_caps]. unfold gc_frames_pass.
  etrans; [|apply foldl_same_caps, destroy_dyn_frame_same_caps]. unfold gc_notifs_pass.
  etrans; [|apply foldl_same_caps, destroy_dyn_notification_same_caps].
  apply foldl_same_caps, destroy_dyn_endpoint_same_caps.
Qed.

Lemma same_caps_live_slots k k' : same_caps k k' -> live_slots k' = live_slots k.
Proof.
  intros [_ _ _ _ _ _ H]. unfold live_slots. f_equal. induction H as [|a b l l' Hab _ IH]; [done|].
  rewrite !bind_cons, IH. f_equal. destruct Hab as (Hc & Hs & _ & Hd). unfold task_slots, task_size.
  rewrite Hc, Hs. destruct (Z.eqb_spec (t_state a) TASK_DEAD), (Z.eqb_spec (t_state b) TASK_DEAD); tauto.
Qed.

(** ** What the collector marks and destroys *)

(** Capability [c] names object [i] of the class with capability type [ty] and
    index range [base, limit). *)
Definition names (ty base limit i : Z) (c : capability) : Prop :=
  c.(serial) <> 0 /\ c.(ctype) = ty /\ base <= c.(object) < limit /\ c.(object) = base + i.
Definition named (k : kstate) (ty base limit i : Z) : Prop :=
  exists l, l ∈ live_slots k /\ names ty base limit i (cap_at k.(mem) l).

Lemma zlen_mark_one l base limit obj : zlen (mark_one l base limit obj) = zlen l.
Proof. unfold mark_one. case_match; by autorewrite with horus. Qed.

Lemma mark_one_true l base limit obj i :
  zlen l = limit - base ->
  zget false (mark_one l base limit obj) i = true
  <-> zget false l i = true \/ (base <= obj < limit /\ obj = base + i).
Proof.
  intros Hl. unfold mark_one. destruct (in_range base limit obj) eqn:E.
  - apply in_range_spec in E. rewrite zget_zset. case_bool_decide as Hi.
    + destruct Hi as [<- _]. split; [intros _; right; lia|done].
    + split; [by left|]. intros [?|[_ ->]]; [done|]. destruct Hi. lia.
  - apply in_range_false in E. split; [by left|]. intros [?|[? _]]; [done|lia].
Qed.

Section marks.
Context (sel : marks -> list bool) (ty base limit : Z).
Hypothesis sel_mark : forall c x, sel (mark_cap c x)
  = if negb (c.(serial) =? 0) && (c.(ctype) =? ty) then mark_one (sel x) base limit c.(object) else sel x.

Lemma mark_fold m L x i :
  zlen (sel x) = limit - base ->
  let x' := foldl (fun x l => mark_cap (cap_at m l) x) x L in
  zlen (sel x') = limit - base
  /\ (zget false (sel x') i = true
      <-> zget false (sel x) i = true \/ exists l, l ∈ L /\ names ty base limit i (cap_at m l)).
Proof.
  revert x. induction L as [|l L IH]; intros x Hx; simpl.
  { split; [done|]. split; [by left|]. intros [?|(l & Hl & _)]; [done|].
    by apply not_elem_of_nil in Hl. }
  assert (zlen (sel (mark_cap (cap_at m l) x)) = limit - base) as Hx1.
  { rewrite sel_mark. case_match; by rewrite ?zlen_mark_one. }
  destruct (IH _ Hx1) as [H1 H2]. split; [done|]. rewrite H2, sel_mark.
  assert (zget false (if negb (serial (cap_at m l) =? 0) && (ctype (cap_at m l) =? ty)
            then mark_one (sel x) base limit (object (cap_at m l)) else sel x) i = true
          <-> zget false (sel x) i = true \/ names ty base limit i (cap_at m l)) as ->.
  { unfold names. destruct (Z.eqb_spec (serial (cap_at m l)) 0), (Z.eqb_spec (ctype (cap_at m l)) ty); simpl.
    all: try rewrite (mark_one_true _ _ _ _ _ Hx); tauto. }
  split.
  - intros [[?|?]|(l' & ? & ?)]; [by left|right; exists l; split; [left|done]|].
    right. exists l'. split; [by right|done].
  - intros [?|(l' & [->|?]%elem_of_cons & ?)]; [tauto|tauto|]. right. eauto.
Qed.
End marks.

Lemma mark_shlib_fold l fr i :
  zlen fr = FRAME_INDEX_MAX - DYN_FRAME_BASE ->
  zget false (foldl (fun l idx => mark_one l DYN_FRAME_BASE FRAME_INDEX_MAX idx) fr l) i = true
  <-> zget false fr i = true \/ (DYN_FRAME_BASE + i ∈ l /\ DYN_FRAME_BASE <= DYN_FRAME_BASE + i < FRAME_INDEX_MAX).
Proof.
  revert fr. induction l as [|x l IH]; intros fr Hf; simpl.
  { split; [by left|]. intros [?|[Hl _]]; [done|]. by apply not_elem_of_nil in Hl. }
  rewrite IH by (by rewrite zlen_mark_one). rewrite mark_one_true by done.
  rewrite elem_of_cons. naive_solver.
Qed.

(** Each table is marked by the capabilities of its own type only. *)
Ltac mark_cap_cases :=
  intros c x; unfold mark_cap; destruct (serial c =? 0); [done|]; cbn [negb andb];
  destruct (Z.eqb_spec (ctype c) CAP_ENDPOINT) as [E|_]; [by rewrite ?E|];
  destruct (Z.eqb_spec (ctype c) CAP_NOTIFICATION) as [E|_]; [by rewrite ?E|];
  destruct (Z.eqb_spec (ctype c) CAP_FRAME) as [E|_]; [by rewrite ?E|];
  destruct (Z.eqb_spec (ctype c) CAP_SCHED_CONTEXT) as [E|_]; [by rewrite ?E|]; done.

Lemma no_marks_none i :
  zget false no_marks.(m_ep) i <> true /\ zget false no_marks.(m_nt) i <> true
  /\ zget false no_marks.(m_fr) i <> true /\ zget false no_marks.(m_sc) i <> true.
Proof.
  assert (forall n, zget false (replicate n false) i <> true) as Hnone.
  { intros n. destruct (decide (0 <= i < Z.of_nat n)); [by rewrite zget_replicate|].
    rewrite zget_out; [done|]. rewrite zlen_replicate. lia. }
  unfold no_marks. cbn [m_ep m_nt m_fr m_sc]. split_and!; apply Hnone.
Qed.

Lemma no_marks_len :
  zlen no_marks.(m_ep) = EP_INDEX_MAX - DYN_EP_BASE
  /\ zlen no_marks.(m_nt) = NOTIF_INDEX_MAX - DYN_NOTIF_BASE
  /\ zlen no_marks.(m_fr) = FRAME_INDEX_MAX - DYN_FRAME_BASE
  /\ zlen no_marks.(m_sc) = SC_INDEX_MAX - DYN_SC_BASE.
Proof.
  unfold no_marks. cbn [m_ep m_nt m_fr m_sc]. rewrite !zlen_replicate. by vm_compute.
Qed.

(** The marks at the end of mark_reachable. *)
Lemma mark_reachable_spec k i :
  (zget false (mark_reachable k).(m_ep) i = true <-> named k CAP_ENDPOINT DYN_EP_BASE EP_INDEX_MAX i)
  /\ (zget false (mark_reachable k).(m_nt) i = true
      <-> named k CAP_NOTIFICATION DYN_NOTIF_BASE NOTIF_INDEX_MAX i)
  /\ (zget false (mark_reachable k).(m_fr) i = true
      <-> named k CAP_FRAME DYN_FRAME_BASE FRAME_INDEX_MAX i
          \/ (DYN_FRAME_BASE + i ∈ k.(shlib_frames)
              /\ DYN_FRAME_BASE <= DYN_FRAME_BASE + i < FRAME_INDEX_MAX))
  /\ (zget false (mark_reachable k).(m_sc) i = true
      <-> named k CAP_SCHED_CONTEXT DYN_SC_BASE SC_INDEX_MAX i).
Proof.
  destruct (no_marks_none i) as (N1 & N2 & N3 & N4). destruct no_marks_len as (L1 & L2 & L3 & L4).
  unfold mark_reachable. cbn [m_ep m_nt m_fr m_sc]. unfold named.
  pose proof (mark_fold m_ep CAP_ENDPOINT DYN_EP_BASE EP_INDEX_MAX ltac:(mark_cap_cases)
                k.(mem) (live_slots k) no_marks i L1) as [_ E1].
  pose proof (mark_fold m_nt CAP_NOTIFICATION DYN_NOTIF_BASE NOTIF_INDEX_MAX ltac:(mark_cap_cases)
                k.(mem) (live_slots k) no_marks i L2) as [_ E2].
  pose proof (mark_fold m_fr CAP_FRAME DYN_FRAME_BASE FRAME_INDEX_MAX ltac:(mark_cap_cases)
                k.(mem) (live_slots k) no_marks i L3) as [F3 E3].
  pose proof (mark_fold m_sc CAP_SCHED_CONTEXT DYN_SC_BASE SC_INDEX_MAX ltac:(mark_cap_cases)
                k.(mem) (live_slots k) no_marks i L4) as [_ E4].
  assert (forall P Q : Prop, ~ P -> (P \/ Q <-> Q)) as D by tauto.
  by rewrite (mark_shlib_fold _ _ _ F3), E1, E2, E3, E4, (D _ _ N1), (D _ _ N2), (D _ _ N3), (D _ _ N4).
Qed.

(** A destructor run over a table frees exactly the collectable descriptors. *)
Section collect.
Context {A : Type} (tbl : kstate -> list (kobj_slot A)) (destroy : kstate -> Z -> kstate) (mk : Z -> bool).

Let pass (k : kstate) (l : list Z) : kstate :=
  foldl (fun k i => if collectable (kslot_at (tbl k) i) (mk i) then destroy k i else k) k l.

(** It touches no descriptor but its own. *)
Lemma collect_keeps k l i :
  (forall k j, j <> i -> kslot_at (tbl (destroy k j)) i = kslot_at (tbl k) i) ->
  collectable (kslot_at (tbl k) i) (mk i) = false ->
  kslot_at (tbl (pass k l)) i = kslot_at (tbl k) i.
Proof.
  intros Hd. revert k. induction l as [|j l IH]; intros k Hc; simpl; [done|].
  destruct (collectable (kslot_at (tbl k) j) (mk j)) eqn:E; [|by apply IH].
  assert (j <> i) as Hji by (intros ->; congruence).
  fold (pass (destroy k j) l). rewrite IH; rewrite Hd by done; done.
Qed.

Lemma collect_frees (P : kstate -> Prop) k l i :
  (forall k j, j <> i -> kslot_at (tbl (destroy k j)) i = kslot_at (tbl k) i) ->
  (forall k j, j <> i -> P k -> P (destroy k j)) ->
  (forall k, P k -> has_mem (kslot_at (tbl k) i) = true ->
     has_mem (kslot_at (tbl (destroy k i)) i) = false) ->
  P k -> i ∈ l -> collectable (kslot_at (tbl k) i) (mk i) = true ->
  has_mem (kslot_at (tbl (pass k l)) i) = false.
Proof.
  intros Hd HP Hf. revert k. induction l as [|j l IH]; intros k Hk Hi Hc; [by apply not_elem_of_nil in Hi|].
  simpl. destruct (decide (j = i)) as [->|Hji].
  - rewrite Hc. fold (pass (destroy k i) l).
    assert (has_mem (kslot_at (tbl (destroy k i)) i) = false) as Hgone.
    { apply Hf; [done|]. by apply andb_true_iff in Hc as [[? _]%andb_true_iff _]. }
    rewrite collect_keeps; [done|done|]. unfold collectable. by rewrite Hgone.
  - apply elem_of_cons in Hi as [->|Hi]; [done|].
    destruct (collectable (kslot_at (tbl k) j) (mk j)); [|by apply IH].
    apply IH; [by apply HP|done|]. by rewrite Hd.
Qed.

End collect.

(** A pass over one table keeps whatever its destructor keeps. *)
Lemma collect_other {B C} (f : kstate -> C) (tbl : kstate -> list (kobj_slot B)) (mk : Z -> bool)
    (destroy : kstate -> Z -> kstate) k l :
  (forall k j, f (destroy k j) = f k) ->
  f (foldl (fun k i => if collectable (kslot_at (tbl k) i) (mk i) then destroy k i else k) k l) = f k.
Proof.
  intros Hd. revert k. induction l as [|j l IH]; intros k; simpl; [done|].
  rewrite IH. case_match; [apply Hd|done].
Qed.

Lemma uncount_object_tables k u :
  let k' := uncount_object k u in
  k'.(dyn_eps) = k.(dyn_eps) /\ k'.(dyn_notifs) = k.(dyn_notifs)
  /\ k'.(dyn_frames) = k.(dyn_frames) /\ k'.(ksched) = k.(ksched)
  /\ k'.(page_refcounts) = k.(page_refcounts).
Proof. unfold uncount_object. by destruct (_ && _). Qed.

Lemma kslot_at_zset {A} (t : list (kobj_slot A)) i s j :
  kslot_at (zset t i s) j = if bool_decide (i = j /\ 0 <= i < zlen t) then s else kslot_at t j.
Proof. apply zget_zset. Qed.

Lemma kslot_at_zset_ne {A} (t : list (kobj_slot A)) i s j :
  i <> j -> kslot_at (zset t i s) j = kslot_at t j.
Proof. apply zget_zset_ne. Qed.

Lemma has_mem_range {A} (t : list (kobj_slot A)) i : has_mem (kslot_at t i) = true -> 0 <= i < zlen t.
Proof.
  intros H. destruct (decide (0 <= i < zlen t)); [done|].
  unfold kslot_at in H. by rewrite zget_out in H by lia.
Qed.

(** What each destructor does to the tables. *)
Lemma destroy_dyn_endpoint_tables k i :
  let k' := destroy_dyn_endpoint k i in
  k'.(dyn_eps) = (if has_mem (kslot_at k.(dyn_eps) i)
                  then zset k.(dyn_eps) i (free_kslot (kslot_at k.(dyn_eps) i)) else k.(dyn_eps))
  /\ k'.(dyn_notifs) = k.(dyn_notifs) /\ k'.(dyn_frames) = k.(dyn_frames)
  /\ k'.(ksched) = k.(ksched) /\ k'.(page_refcounts) = k.(page_refcounts).
Proof.
  unfold destroy_dyn_endpoint, has_mem. destruct (ks_mem _) as [[p e]|] eqn:E; [|done]. simpl.
  match goal with |- context [uncount_object ?x ?u] => destruct (uncount_object_tables x u) as (-> & -> & -> & -> & ->) end.
  by destruct (_ && _).
Qed.

Lemma destroy_dyn_notification_tables k i :
  let k' := destroy_dyn_notification k i in
  k'.(dyn_notifs) = (if has_mem (kslot_at k.(dyn_notifs) i)
                  then zset k.(dyn_notifs) i (free_kslot (kslot_at k.(dyn_notifs) i)) else k.(dyn_notifs))
  /\ k'.(dyn_eps) = k.(dyn_eps) /\ k'.(dyn_frames) = k.(dyn_frames)
  /\ k'.(ksched) = k.(ksched) /\ k'.(page_refcounts) = k.(page_refcounts).
Proof.
  unfold destroy_dyn_notification, has_mem. destruct (ks_mem _) as [[p e]|] eqn:E; [|done]. simpl.
  match goal with |- context [uncount_object ?x ?u] => destruct (uncount_object_tables x u) as (-> & -> & -> & -> & ->) end.
  by destruct (_ && _).
Qed.

(** Some page of the frame is mapped: more than the region's own reference. *)
Definition frame_mapped (k : kstate) (i : Z) : bool :=
  match (kslot_at k.(dyn_frames) i).(ks_mem) with
  | None => false
  | Some (p, _) =>
      let s := kslot_at k.(dyn_frames) i in
      existsb (fun j => 1 <? frame_map_refcount k.(page_refcounts) (page_phys (p - PHYS_KVA_BASE) j))
              (seqZ 0 (if s.(ks_pages) =? 0 then 1 else s.(ks_pages)))
  end.

Lemma frame_unpin_le refs phys j :
  zget 0 (frame_unpin_refcount refs phys) j <= zget 0 refs j
  /\ zlen (frame_unpin_refcount refs phys) = zlen refs.
Proof.
  unfold frame_unpin_refcount. destruct (_ && _) eqn:E; [|done].
  apply andb_true_iff in E as [_ E%Z.eqb_eq]. rewrite zlen_zset, zget_zset.
  case_bool_decide as Hb; [destruct Hb as [<- _]; lia|lia].
Qed.

Lemma frame_unpin_fold_le refs phys l j :
  let refs' := foldl (fun refs j => frame_unpin_refcount refs (page_phys phys j)) refs l in
  zget 0 refs' j <= zget 0 refs j /\ zlen refs' = zlen refs.
Proof.
  revert refs. induction l as [|x l IH]; intros refs; simpl; [done|].
  destruct (IH (frame_unpin_refcount refs (page_phys phys x))) as [H1 H2].
  destruct (frame_unpin_le refs (page_phys phys x) j) as [H3 H4]. split; [lia|congruence].
Qed.

Lemma frame_map_refcount_le refs refs' phys :
  (forall j, zget 0 refs' j <= zget 0 refs j) -> zlen refs' = zlen refs ->
  frame_map_refcount refs' phys <= frame_map_refcount refs phys.
Proof. intros H Hl. unfold frame_map_refcount. rewrite Hl. repeat case_match; [done..|apply H]. Qed.

Lemma destroy_dyn_frame_tables k i :
  let k' := destroy_dyn_frame k i in
  k'.(dyn_frames) = (if has_mem (kslot_at k.(dyn_frames) i) && negb (frame_mapped k i)
                     then zset k.(dyn_frames) i
                            (mk_kslot None (kslot_at k.(dyn_frames) i).(ks_untyped) false 0)
                     else k.(dyn_frames))
  /\ k'.(dyn_eps) = k.(dyn_eps) /\ k'.(dyn_notifs) = k.(dyn_notifs) /\ k'.(ksched) = k.(ksched)
  /\ (forall j, zget 0 k'.(page_refcounts) j <= zget 0 k.(page_refcounts) j)
  /\ zlen k'.(page_refcounts) = zlen k.(page_refcounts).
Proof.
  unfold destroy_dyn_frame, has_mem, frame_mapped. destruct (ks_mem _) as [[p e]|] eqn:E; [|done].
  rewrite bool_decide_true by done. simpl. destruct (existsb _ _); simpl; [done|].
  match goal with |- context [uncount_object ?x ?u] =>
    destruct (uncount_object_tables x u) as (-> & -> & -> & -> & ->) end. simpl.
  split_and!; try done; [|by apply frame_unpin_fold_le with (j := 0)].
  intros j. apply frame_unpin_fold_le.
Qed.

Lemma frame_mapped_mono k k' i :
  kslot_at k'.(dyn_frames) i = kslot_at k.(dyn_frames) i ->
  (forall j, zget 0 k'.(page_refcounts) j <= zget 0 k.(page_refcounts) j) ->
  zlen k'.(page_refcounts) = zlen k.(page_refcounts) ->
  frame_mapped k i = false -> frame_mapped k' i = false.
Proof.
  unfold frame_mapped. intros -> Hle Hl. destruct (ks_mem _) as [[p e]|]; [|done].
  rewrite <- !not_true_iff_false, !existsb_exists. intros H (x & Hx & Hm%Z.ltb_lt). apply H.
  exists x. split; [done|]. apply Z.ltb_lt.
  pose proof (frame_map_refcount_le _ _ (page_phys (p - PHYS_KVA_BASE) x) Hle Hl). lia.
Qed.

(** A page with more than one reference keeps them all, so a mapped frame stays mapped. *)
Lemma frame_unpin_shared refs phys l j :
  let refs' := foldl (fun refs j => frame_unpin_refcount refs (page_phys phys j)) refs l in
  1 < zget 0 refs j -> zget 0 refs' j = zget 0 refs j.
Proof.
  revert refs. induction l as [|x l IH]; intros refs; cbv zeta; intros H; simpl; [done|].
  assert (zget 0 (frame_unpin_refcount refs (page_phys phys x)) j = zget 0 refs j) as E; [|by rewrite IH; rewrite E].
  unfold frame_unpin_refcount. destruct (_ && _) eqn:Eb; [|done]. apply andb_true_iff in Eb as [_ Eb%Z.eqb_eq].
  rewrite zget_zset. case_bool_decide as Hb; [destruct Hb as [Hb _]; rewrite Hb in Eb; lia|done].
Qed.
Lemma destroy_dyn_frame_mapped k i j :
  frame_mapped k i = true ->
  let k' := destroy_dyn_frame k j in
  kslot_at k'.(dyn_frames) i = kslot_at k.(dyn_frames) i /\ frame_mapped k' i = true.
Proof.
  intros Hm k'. assert (kslot_at k'.(dyn_frames) i = kslot_at k.(dyn_frames) i) as Es.
  { unfold k'. destruct (destroy_dyn_frame_tables k j) as (-> & _). destruct (decide (j = i)) as [->|Hne]; [by rewrite Hm, andb_false_r|].
    case_match; [by apply kslot_at_zset_ne|done]. }
  split; [done|]. destruct (destroy_dyn_frame_tables k j) as (_ & _ & _ & _ & _ & Hlen). fold k' in Hlen. revert Hm. unfold frame_mapped. rewrite Es.
  destruct (ks_mem _) as [[p e]|]; [|done]. rewrite !existsb_exists. intros (x & Hx & Hc%Z.ltb_lt). exists x. split; [done|]. apply Z.ltb_lt.
  revert Hc. unfold frame_map_refcount. rewrite Hlen. destruct (_ <? USER_PHYS_BASE); [done|]. destruct (_ <=? _); [done|]. intros Hc.
  assert (forall y, 1 < zget 0 k.(page_refcounts) y -> zget 0 k'.(page_refcounts) y = zget 0 k.(page_refcounts) y) as Hk; [|by rewrite Hk].
  intros y Hy. unfold k', destroy_dyn_frame. destruct (ks_mem _) as [[p' e']|]; [|done]. cbv zeta. destruct (existsb _ _); [done|].
  match goal with |- context [uncount_object ?x ?u] => destruct (uncount_object_tables x u) as (_ & _ & _ & _ & E) end.
  cbn [page_refcounts set_dyn_frames]. rewrite E. by apply frame_unpin_shared.
Qed.

(** A descriptor without its object: what the collector compares. *)
Definition strip {A} (s : kobj_slot A) : kobj_slot unit :=
  mk_kslot ((fun ma => (ma.1, tt)) <$> s.(ks_mem)) s.(ks_untyped) s.(ks_pinned) s.(ks_pages).

Lemma strip_at {A} (t : list (kobj_slot A)) i : kslot_at (strip <$> t) i = strip (kslot_at t i).
Proof.
  unfold kslot_at, zget. destruct (i <? 0); [done|]. rewrite list_lookup_fmap.
  by destruct (t !! Z.to_nat i).
Qed.
Lemma strip_collectable {A} (s : kobj_slot A) b : collectable (strip s) b = collectable s b.
Proof. unfold collectable, has_mem, strip. simpl. by destruct (ks_mem s). Qed.
Lemma strip_zset {A} (t : list (kobj_slot A)) i s : strip <$> zset t i s = zset (strip <$> t) i (strip s).
Proof. unfold zset. destruct (i <? 0); [done|]. apply list_fmap_insert. Qed.

Lemma zset_zget {A} (d : A) l i : zset l i (zget d l i) = l.
Proof.
  apply (list_eq_zget d); [by rewrite zlen_zset|]. intros j Hj. rewrite zget_zset.
  case_bool_decide as Hb; [by destruct Hb as [<- _]|done].
Qed.

Lemma strip_store s i sc : strip <$> (sc_store s i sc).(dyn_scs) = strip <$> s.(dyn_scs).
Proof.
  unfold sc_store. repeat case_match; simpl; try done. rewrite strip_zset.
  assert (strip (ks_set_obj (zget kslot_zero (dyn_scs s) (i - DYN_SC_BASE)) sc)
          = zget kslot_zero (strip <$> dyn_scs s) (i - DYN_SC_BASE)) as ->.
  { fold (kslot_at (strip <$> dyn_scs s) (i - DYN_SC_BASE)). rewrite strip_at.
    unfold strip, ks_set_obj; simpl. fold (kslot_at (dyn_scs s) (i - DYN_SC_BASE)).
    by destruct (ks_mem _). }
  apply zset_zget.
Qed.

Lemma strip_reparent idx hidx l s :
  strip <$> (foldl (reparent_sc idx hidx) s l).(dyn_scs) = strip <$> s.(dyn_scs).
Proof.
  revert s. induction l as [|i l IH]; intros s; simpl; [done|]. rewrite IH. unfold reparent_sc.
  repeat case_match; by rewrite ?strip_store.
Qed.

Lemma strip_destroyed s idx :
  strip <$> (sched_context_destroyed s idx).(dyn_scs) = strip <$> s.(dyn_scs).
Proof.
  unfold sched_context_destroyed. destruct (sc_by_index s idx) as [sc|]; [|done].
  destruct (_ || _); [done|]. cbv zeta. cbn [unbind_sc set_stamps set_task_sc dyn_scs].
  unfold reclaim_share.
  match goal with |- context [find_heir _ ?x _] =>
    assert (strip <$> x.(dyn_scs) = strip <$> s.(dyn_scs)) as Hx;
    [destruct (uncount_carved_spec (sc_cpu sc) (sc_store s idx (sc_set_live sc false))) as (_ & -> & _);
     apply strip_store|] end.
  destruct (find_heir _ _ _); [|done]. rewrite strip_reparent.
  destruct (sc_by_index _ _); by rewrite ?strip_store.
Qed.

Definition sc_table (k : kstate) : list (kobj_slot unit) := strip <$> k.(ksched).(dyn_scs).

Lemma destroy_dyn_sc_tables k i :
  let k' := destroy_dyn_sc k i in
  sc_table k' = (if has_mem (kslot_at k.(ksched).(dyn_scs) i)
                 then zset (sc_table k) i (free_kslot (kslot_at (sc_table k) i)) else sc_table k)
  /\ k'.(dyn_eps) = k.(dyn_eps) /\ k'.(dyn_notifs) = k.(dyn_notifs)
  /\ k'.(dyn_frames) = k.(dyn_frames) /\ k'.(page_refcounts) = k.(page_refcounts).
Proof.
  unfold destroy_dyn_sc, has_mem. destruct (ks_mem _) as [[p e]|] eqn:E; [|done].
  rewrite bool_decide_true by done. cbv zeta. unfold sc_table.
  set (k1 := set_sched k (sched_context_destroyed k.(ksched) (DYN_SC_BASE + i))).
  destruct (uncount_object_tables k1 (ks_untyped (kslot_at (dyn_scs (ksched k)) i)))
    as (E1 & E2 & E3 & E4 & E5).
  cbn [set_sched ksched dyn_eps dyn_notifs dyn_frames page_refcounts] in *.
  rewrite E1, E2, E3, E4, E5. split_and!; try done.
  unfold k1, set_dyn_slot. cbn [set_sched ksched dyn_scs].
  replace (DYN_SC_BASE + i - DYN_SC_BASE) with i by lia.
  rewrite strip_zset, strip_destroyed. f_equal.
  rewrite strip_at. unfold free_kslot, strip; simpl.
  pose proof (strip_destroyed k.(ksched) (DYN_SC_BASE + i)) as HS.
  apply (f_equal (fun t => kslot_at t i)) in HS. rewrite !strip_at in HS.
  unfold strip in HS. by injection HS as _ -> _ ->.
Qed.

(** The descriptor tables have their C sizes. *)
Record kobj_tables_ok (k : kstate) : Prop := {
  kt_eps : zlen k.(dyn_eps) = MAX_DYN_ENDPOINTS;
  kt_notifs : zlen k.(dyn_notifs) = MAX_DYN_NOTIFICATIONS;
  kt_frames : zlen k.(dyn_frames) = MAX_DYN_FRAMES;
  kt_scs : zlen k.(ksched).(dyn_scs) = MAX_DYN_SCHED_CONTEXTS
}.

Lemma collectable_index {A} (t : list (kobj_slot A)) n i b :
  zlen t = n -> collectable (kslot_at t i) b = true -> i ∈ seqZ 0 n.
Proof.
  intros Hl [[Hm _]%andb_true_iff _]%andb_true_iff. apply elem_of_seqZ.
  apply has_mem_range in Hm. lia.
Qed.

(** The passes, one table at a time. *)
Lemma gc_eps_pass_other mk l k :
  let k' := gc_eps_pass mk l k in
  k'.(dyn_notifs) = k.(dyn_notifs) /\ k'.(dyn_frames) = k.(dyn_frames)
  /\ k'.(ksched) = k.(ksched) /\ k'.(page_refcounts) = k.(page_refcounts).
Proof.
  unfold gc_eps_pass. split_and!.
  - apply (collect_other dyn_notifs). intros. apply destroy_dyn_endpoint_tables.
  - apply (collect_other dyn_frames). intros. apply destroy_dyn_endpoint_tables.
  - apply (collect_other ksched). intros. apply destroy_dyn_endpoint_tables.
  - apply (collect_other page_refcounts). intros. apply destroy_dyn_endpoint_tables.
Qed.

Lemma gc_notifs_pass_other mk l k :
  let k' := gc_notifs_pass mk l k in
  k'.(dyn_eps) = k.(dyn_eps) /\ k'.(dyn_frames) = k.(dyn_frames)
  /\ k'.(ksched) = k.(ksched) /\ k'.(page_refcounts) = k.(page_refcounts).
Proof.
  unfold gc_notifs_pass. split_and!.
  - apply (collect_other dyn_eps). intros. apply destroy_dyn_notification_tables.
  - apply (collect_other dyn_frames). intros. apply destroy_dyn_notification_tables.
  - apply (collect_other ksched). intros. apply destroy_dyn_notification_tables.
  - apply (collect_other page_refcounts). intros. apply destroy_dyn_notification_tables.
Qed.

Lemma gc_frames_pass_other mk l k :
  let k' := gc_frames_pass mk l k in
  k'.(dyn_eps) = k.(dyn_eps) /\ k'.(dyn_notifs) = k.(dyn_notifs) /\ k'.(ksched) = k.(ksched).
Proof.
  unfold gc_frames_pass. split_and!.
  - apply (collect_other dyn_eps). intros. apply destroy_dyn_frame_tables.
  - apply (collect_other dyn_notifs). intros. apply destroy_dyn_frame_tables.
  - apply (collect_other ksched). intros. apply destroy_dyn_frame_tables.
Qed.

Lemma gc_scs_pass_other mk l k :
  let k' := gc_scs_pass mk l k in
  k'.(dyn_eps) = k.(dyn_eps) /\ k'.(dyn_notifs) = k.(dyn_notifs) /\ k'.(dyn_frames) = k.(dyn_frames).
Proof.
  unfold gc_scs_pass. split_and!.
  - apply (collect_other dyn_eps). intros. apply destroy_dyn_sc_tables.
  - apply (collect_other dyn_notifs). intros. apply destroy_dyn_sc_tables.
  - apply (collect_other dyn_frames). intros. apply destroy_dyn_sc_tables.
Qed.

(** Kept and freed descriptors of a pass over its own table. *)
Lemma gc_eps_pass_own mk l k i :
  let c := collectable (kslot_at k.(dyn_eps) i) (zget false mk i) in
  let s' := kslot_at (gc_eps_pass mk l k).(dyn_eps) i in
  (c = false -> s' = kslot_at k.(dyn_eps) i) /\ (c = true -> i ∈ l -> has_mem s' = false).
Proof.
  intros c s'. unfold s', gc_eps_pass.
  assert (forall k j, j <> i -> kslot_at (destroy_dyn_endpoint k j).(dyn_eps) i = kslot_at k.(dyn_eps) i) as Hne.
  { intros k0 j Hj. destruct (destroy_dyn_endpoint_tables k0 j) as (-> & _).
    case_match; [by apply kslot_at_zset_ne|done]. }
  split; intros Hc; [by apply (collect_keeps dyn_eps destroy_dyn_endpoint)|]. intros Hi.
  apply (collect_frees dyn_eps destroy_dyn_endpoint _ (fun _ => True)); try done.
  intros k0 _ Hm. destruct (destroy_dyn_endpoint_tables k0 i) as (-> & _). rewrite Hm.
  rewrite kslot_at_zset, bool_decide_true; [done|]. split; [done|by apply has_mem_range].
Qed.

Lemma gc_notifs_pass_own mk l k i :
  let c := collectable (kslot_at k.(dyn_notifs) i) (zget false mk i) in
  let s' := kslot_at (gc_notifs_pass mk l k).(dyn_notifs) i in
  (c = false -> s' = kslot_at k.(dyn_notifs) i) /\ (c = true -> i ∈ l -> has_mem s' = false).
Proof.
  intros c s'. unfold s', gc_notifs_pass.
  assert (forall k j, j <> i -> kslot_at (destroy_dyn_notification k j).(dyn_notifs) i
            = kslot_at k.(dyn_notifs) i) as Hne.
  { intros k0 j Hj. destruct (destroy_dyn_notification_tables k0 j) as (-> & _).
    case_match; [by apply kslot_at_zset_ne|done]. }
  split; intros Hc; [by apply (collect_keeps dyn_notifs destroy_dyn_notification)|]. intros Hi.
  apply (collect_frees dyn_notifs destroy_dyn_notification _ (fun _ => True)); try done.
  intros k0 _ Hm. destruct (destroy_dyn_notification_tables k0 i) as (-> & _). rewrite Hm.
  rewrite kslot_at_zset, bool_decide_true; [done|]. split; [done|by apply has_mem_range].
Qed.

Lemma gc_frames_pass_own mk l k i :
  let c := collectable (kslot_at k.(dyn_frames) i) (zget false mk i) in
  let s' := kslot_at (gc_frames_pass mk l k).(dyn_frames) i in
  (c = false -> s' = kslot_at k.(dyn_frames) i)
  /\ (c = true -> frame_mapped k i = false -> i ∈ l -> has_mem s' = false).
Proof.
  intros c s'. unfold s', gc_frames_pass.
  assert (forall k j, j <> i -> kslot_at (destroy_dyn_frame k j).(dyn_frames) i
            = kslot_at k.(dyn_frames) i) as Hne.
  { intros k0 j Hj. destruct (destroy_dyn_frame_tables k0 j) as (-> & _).
    case_match; [by apply kslot_at_zset_ne|done]. }
  split; intros Hc; [by apply (collect_keeps dyn_frames destroy_dyn_frame)|]. intros Hmap Hi.
  apply (collect_frees dyn_frames destroy_dyn_frame _ (fun k => frame_mapped k i = false)); try done.
  - intros k0 j Hj Hm0. destruct (destroy_dyn_frame_tables k0 j) as (_ & _ & _ & _ & ? & ?).
    by eapply (frame_mapped_mono k0); [apply Hne| | |].
  - intros k0 Hm0 Hm. destruct (destroy_dyn_frame_tables k0 i) as (-> & _). rewrite Hm, Hm0. simpl.
    rewrite kslot_at_zset, bool_decide_true; [done|]. split; [done|by apply has_mem_range].
Qed.

Lemma gc_frames_pass_mapped mk l k i :
  frame_mapped k i = true -> kslot_at (gc_frames_pass mk l k).(dyn_frames) i = kslot_at k.(dyn_frames) i.
Proof.
  unfold gc_frames_pass. revert k. induction l as [|j l IH]; intros k Hm; simpl; [done|]. case_match; [|by apply IH].
  destruct (destroy_dyn_frame_mapped k i j Hm) as [E1 E2]. by rewrite IH.
Qed.

Lemma sc_table_at k i : kslot_at (sc_table k) i = strip (kslot_at k.(ksched).(dyn_scs) i).
Proof. apply strip_at. Qed.
Lemma has_mem_strip {A} (s : kobj_slot A) : has_mem (strip s) = has_mem s.
Proof. unfold has_mem, strip; simpl. by destruct (ks_mem s). Qed.

Lemma gc_scs_pass_strip mk l k :
  gc_scs_pass mk l k
  = foldl (fun k i => if collectable (kslot_at (sc_table k) i) (zget false mk i)
                      then destroy_dyn_sc k i else k) k l.
Proof.
  unfold gc_scs_pass. revert k. induction l as [|j l IH]; intros k; simpl; [done|].
  rewrite sc_table_at, strip_collectable. by rewrite IH.
Qed.

Lemma gc_scs_pass_own mk l k i :
  let c := collectable (kslot_at k.(ksched).(dyn_scs) i) (zget false mk i) in
  let s' := kslot_at (gc_scs_pass mk l k).(ksched).(dyn_scs) i in
  (c = false -> strip s' = strip (kslot_at k.(ksched).(dyn_scs) i))
  /\ (c = true -> i ∈ l -> has_mem s' = false).
Proof.
  intros c s'. unfold s', c. rewrite gc_scs_pass_strip.
  assert (forall k j, j <> i -> kslot_at (sc_table (destroy_dyn_sc k j)) i = kslot_at (sc_table k) i) as Hne.
  { intros k0 j Hj. destruct (destroy_dyn_sc_tables k0 j) as (-> & _).
    case_match; [by apply kslot_at_zset_ne|done]. }
  rewrite <- strip_collectable, <- has_mem_strip, <- !sc_table_at.
  split; intros Hc; [by apply (collect_keeps sc_table destroy_dyn_sc)|]. intros Hi.
  apply (collect_frees sc_table destroy_dyn_sc _ (fun _ => True)); try done.
  intros k0 _ Hm. destruct (destroy_dyn_sc_tables k0 i) as (-> & _).
  pose proof Hm as Hm'. rewrite sc_table_at, has_mem_strip in Hm'. rewrite Hm'.
  rewrite kslot_at_zset, bool_decide_true; [done|]. split; [done|by apply has_mem_range].
Qed.

(** The collector, class by class. *)
Lemma gc_eps k i :
  kobj_tables_ok k ->
  let c := collectable (kslot_at k.(dyn_eps) i) (zget false (mark_reachable k).(m_ep) i) in
  let s' := kslot_at (kobj_gc_locked k).(dyn_eps) i in
  (c = false -> s' = kslot_at k.(dyn_eps) i) /\ (c = true -> has_mem s' = false).
Proof.
  intros [Hl _ _ _] c s'. unfold s', kobj_gc_locked. cbv zeta.
  rewrite (proj1 (gc_scs_pass_other _ _ _)), (proj1 (gc_frames_pass_other _ _ _)),
    (proj1 (gc_notifs_pass_other _ _ _)).
  destruct (gc_eps_pass_own (mark_reachable k).(m_ep) (seqZ 0 MAX_DYN_ENDPOINTS) k i) as [G1 G2].
  split; [exact G1|]. intros Hc. apply (G2 Hc). by eapply collectable_index.
Qed.

Lemma gc_notifs k i :
  kobj_tables_ok k ->
  let c := collectable (kslot_at k.(dyn_notifs) i) (zget false (mark_reachable k).(m_nt) i) in
  let s' := kslot_at (kobj_gc_locked k).(dyn_notifs) i in
  (c = false -> s' = kslot_at k.(dyn_notifs) i) /\ (c = true -> has_mem s' = false).
Proof.
  intros [_ Hl _ _] c s'. unfold s', kobj_gc_locked. cbv zeta.
  rewrite (proj1 (proj2 (gc_scs_pass_other _ _ _))), (proj1 (proj2 (gc_frames_pass_other _ _ _))).
  set (k1 := gc_eps_pass _ _ k). assert (k1.(dyn_notifs) = k.(dyn_notifs)) as E1 by apply gc_eps_pass_other.
  destruct (gc_notifs_pass_own (mark_reachable k).(m_nt) (seqZ 0 MAX_DYN_NOTIFICATIONS) k1 i) as [G1 G2].
  rewrite E1 in G1, G2. split; [exact G1|]. intros Hc. apply (G2 Hc). by eapply collectable_index.
Qed.

Lemma gc_frames k i :
  kobj_tables_ok k ->
  let c := collectable (kslot_at k.(dyn_frames) i) (zget false (mark_reachable k).(m_fr) i) in
  let s' := kslot_at (kobj_gc_locked k).(dyn_frames) i in
  (c = false \/ frame_mapped k i = true -> s' = kslot_at k.(dyn_frames) i)
  /\ (c = true -> frame_mapped k i = false -> has_mem s' = false).
Proof.
  intros [_ _ Hl _] c s'. unfold s', kobj_gc_locked. cbv zeta.
  rewrite (proj2 (proj2 (gc_scs_pass_other _ _ _))).
  set (k1 := gc_eps_pass _ _ k). set (k2 := gc_notifs_pass _ _ k1).
  assert (k2.(dyn_frames) = k.(dyn_frames) /\ k2.(page_refcounts) = k.(page_refcounts)) as [E1 E2].
  { unfold k2. destruct (gc_notifs_pass_other (mark_reachable k).(m_nt) (seqZ 0 MAX_DYN_NOTIFICATIONS) k1)
      as (_ & -> & _ & ->). unfold k1. destruct (gc_eps_pass_other (mark_reachable k).(m_ep)
      (seqZ 0 MAX_DYN_ENDPOINTS) k) as (_ & -> & _ & ->). done. }
  assert (frame_mapped k2 i = frame_mapped k i) as Hm2 by (unfold frame_mapped; by rewrite E1, E2).
  destruct (gc_frames_pass_own (mark_reachable k).(m_fr) (seqZ 0 MAX_DYN_FRAMES) k2 i) as [G1 G2].
  rewrite E1 in G1, G2. rewrite Hm2 in G2.
  split; [intros [Hc|Hm]; [by apply G1|by rewrite gc_frames_pass_mapped, E1; [|rewrite Hm2]]|]. intros Hc Hm. apply (G2 Hc Hm). by eapply collectable_index.
Qed.

Lemma gc_scs k i :
  kobj_tables_ok k ->
  let c := collectable (kslot_at k.(ksched).(dyn_scs) i) (zget false (mark_reachable k).(m_sc) i) in
  let s' := kslot_at (kobj_gc_locked k).(ksched).(dyn_scs) i in
  (c = false -> strip s' = strip (kslot_at k.(ksched).(dyn_scs) i)) /\ (c = true -> has_mem s' = false).
Proof.
  intros [_ _ _ Hl] c s'. unfold s', kobj_gc_locked. cbv zeta.
  set (k1 := gc_eps_pass _ _ k). set (k2 := gc_notifs_pass _ _ k1). set (k3 := gc_frames_pass _ _ k2).
  assert (k3.(ksched) = k.(ksched)) as E1.
  { unfold k3. destruct (gc_frames_pass_other (mark_reachable k).(m_fr) (seqZ 0 MAX_DYN_FRAMES) k2) as (_ & _ & ->).
    unfold k2. destruct (gc_notifs_pass_other (mark_reachable k).(m_nt) (seqZ 0 MAX_DYN_NOTIFICATIONS) k1)
      as (_ & _ & -> & _). unfold k1. by destruct (gc_eps_pass_other (mark_reachable k).(m_ep)
      (seqZ 0 MAX_DYN_ENDPOINTS) k) as (_ & _ & -> & _). }
  destruct (gc_scs_pass_own (mark_reachable k).(m_sc) (seqZ 0 MAX_DYN_SCHED_CONTEXTS) k3 i) as [G1 G2].
  rewrite E1 in G1, G2. split; [exact G1|]. intros Hc. apply (G2 Hc). by eapply collectable_index.
Qed.

(** ** Theorems about the collector *)

(** Object [i] of a class is held: its creator has not named it yet, or some
    live capability names it, or (frames) the shared library is made of it. *)
Definition held {A} (k : kstate) (t : list (kobj_slot A)) (ty base limit i : Z) : Prop :=
  (kslot_at t i).(ks_pinned) = true \/ named k ty base limit i
  \/ (ty = CAP_FRAME /\ base + i ∈ k.(shlib_frames) /\ base <= base + i < limit).

Lemma held_not_collectable {A} k (t : list (kobj_slot A)) ty base limit i (m : bool) :
  (m = true <-> named k ty base limit i \/ (ty = CAP_FRAME /\ base + i ∈ k.(shlib_frames)
                                            /\ base <= base + i < limit)) ->
  (held k t ty base limit i -> collectable (kslot_at t i) m = false)
  /\ (has_mem (kslot_at t i) = true -> ~ held k t ty base limit i ->
      collectable (kslot_at t i) m = true).
Proof.
  intros Hm. unfold held, collectable. split.
  - intros [Hp|H]; [rewrite Hp; by rewrite andb_false_r|].
    rewrite (proj2 Hm) by tauto. by rewrite andb_false_r.
  - intros -> Hn. destruct (ks_pinned _); [tauto|]. destruct m; [tauto|done].
Qed.

(** C28: the collector never destroys an object that is held: an endpoint,
    notification or frame that is pinned or named by a live capability keeps
    its descriptor and contents, and a scheduling context keeps its descriptor
    (S151).  So does a frame that some address space still maps, held or not: one of
    its pages has more references than its region's own. *)
Theorem gc_keeps_held k i :
  kobj_tables_ok k ->
  let k' := kobj_gc_locked k in
  (held k k.(dyn_eps) CAP_ENDPOINT DYN_EP_BASE EP_INDEX_MAX i ->
     kslot_at k'.(dyn_eps) i = kslot_at k.(dyn_eps) i)
  /\ (held k k.(dyn_notifs) CAP_NOTIFICATION DYN_NOTIF_BASE NOTIF_INDEX_MAX i ->
     kslot_at k'.(dyn_notifs) i = kslot_at k.(dyn_notifs) i)
  /\ (held k k.(dyn_frames) CAP_FRAME DYN_FRAME_BASE FRAME_INDEX_MAX i \/ frame_mapped k i = true ->
     kslot_at k'.(dyn_frames) i = kslot_at k.(dyn_frames) i)
  /\ (held k k.(ksched).(dyn_scs) CAP_SCHED_CONTEXT DYN_SC_BASE SC_INDEX_MAX i ->
     strip (kslot_at k'.(ksched).(dyn_scs) i) = strip (kslot_at k.(ksched).(dyn_scs) i)).
Proof.
  intros Hk. destruct (mark_reachable_spec k i) as (M1 & M2 & M3 & M4).
  split_and!; intros H.
  - apply (gc_eps k i Hk). revert H. apply held_not_collectable. rewrite M1.
    split; [by left|]. by intros [?|[? _]].
  - apply (gc_notifs k i Hk). revert H. apply held_not_collectable. rewrite M2.
    split; [by left|]. by intros [?|[? _]].
  - apply (gc_frames k i Hk). destruct H as [H|H]; [left|by right]. revert H. apply held_not_collectable. rewrite M3.
    split; [intros [?|[? ?]]; [by left|by right]|intros [?|(_ & ? & ?)]; [by left|by right]].
  - apply (gc_scs k i Hk). revert H. apply held_not_collectable. rewrite M4.
    split; [by left|]. by intros [?|[? _]].
Qed.

(** The collector destroys every object that is not held: an endpoint,
    notification or scheduling context nothing names loses its memory, and so
    does a frame unless some address space still maps one of its pages. *)
Theorem gc_frees_unheld k i :
  kobj_tables_ok k ->
  let k' := kobj_gc_locked k in
  (~ held k k.(dyn_eps) CAP_ENDPOINT DYN_EP_BASE EP_INDEX_MAX i ->
     has_mem (kslot_at k'.(dyn_eps) i) = false)
  /\ (~ held k k.(dyn_notifs) CAP_NOTIFICATION DYN_NOTIF_BASE NOTIF_INDEX_MAX i ->
     has_mem (kslot_at k'.(dyn_notifs) i) = false)
  /\ (~ held k k.(dyn_frames) CAP_FRAME DYN_FRAME_BASE FRAME_INDEX_MAX i ->
     frame_mapped k i = false -> has_mem (kslot_at k'.(dyn_frames) i) = false)
  /\ (~ held k k.(ksched).(dyn_scs) CAP_SCHED_CONTEXT DYN_SC_BASE SC_INDEX_MAX i ->
     has_mem (kslot_at k'.(ksched).(dyn_scs) i) = false).
Proof.
  intros Hk. destruct (mark_reachable_spec k i) as (M1 & M2 & M3 & M4).
  split_and!; intros H.
  - destruct (gc_eps k i Hk) as [G1 G2]. destruct (has_mem (kslot_at k.(dyn_eps) i)) eqn:E.
    + apply G2. revert E H. apply held_not_collectable. rewrite M1.
      split; [by left|]. by intros [?|[? _]].
    + rewrite G1; [done|]. unfold collectable. by rewrite E.
  - destruct (gc_notifs k i Hk) as [G1 G2]. destruct (has_mem (kslot_at k.(dyn_notifs) i)) eqn:E.
    + apply G2. revert E H. apply held_not_collectable. rewrite M2.
      split; [by left|]. by intros [?|[? _]].
    + rewrite G1; [done|]. unfold collectable. by rewrite E.
  - intros Hmap. destruct (gc_frames k i Hk) as [G1 G2].
    destruct (has_mem (kslot_at k.(dyn_frames) i)) eqn:E.
    + apply G2; [|done]. revert E H. apply held_not_collectable. rewrite M3.
      split; [intros [?|[? ?]]; [by left|by right]|intros [?|(_ & ? & ?)]; [by left|by right]].
    + rewrite G1; [done|]. left. unfold collectable. by rewrite E.
  - destruct (gc_scs k i Hk) as [G1 G2].
    destruct (has_mem (kslot_at k.(ksched).(dyn_scs) i)) eqn:E.
    + apply G2. revert E H. apply held_not_collectable. rewrite M4.
      split; [by left|]. by intros [?|[? _]].
    + rewrite <- has_mem_strip, G1, has_mem_strip; [done|]. unfold collectable. by rewrite E.
Qed.

(** A boot state in which two endpoints and a frame were retyped out of the
    user's region, the first endpoint is still pinned, the second was named and
    its name is gone. *)
Definition gc_example : kstate :=
  let k := boot_state (PHYS_KVA_BASE + USER_PHYS_BASE) 4 16 in
  match kobj_alloc k UNTYPED_ROOT KOBJ_ENDPOINT 1 with
  | Some (_, _, k) =>
      match kobj_alloc k UNTYPED_ROOT KOBJ_ENDPOINT 1 with
      | Some (_, _, k) =>
          match kobj_alloc k UNTYPED_ROOT KOBJ_FRAME 2 with
          | Some (_, i, k) => kobj_unpin k KOBJ_ENDPOINT (DYN_EP_BASE + 1)
          | None => k
          end
      | None => k
      end
  | None => k
  end.

Lemma gc_keeps_held_witness :
  has_mem (kslot_at gc_example.(dyn_eps) 0) = true
  /\ kslot_at (kobj_gc_locked gc_example).(dyn_eps) 0 = kslot_at gc_example.(dyn_eps) 0.
Proof.
  assert (kobj_tables_ok gc_example) as Hk by (split; vm_compute; reflexivity).
  split; [vm_compute; reflexivity|]. refine (proj1 (gc_keeps_held gc_example 0 Hk) _).
  left. vm_compute. reflexivity.
Defined.

Lemma gc_frees_unheld_witness :
  has_mem (kslot_at gc_example.(dyn_eps) 1) = true
  /\ has_mem (kslot_at (kobj_gc_locked gc_example).(dyn_eps) 1) = false.
Proof.
  assert (kobj_tables_ok gc_example) as Hk by (split; vm_compute; reflexivity).
  assert (Forall (fun l => (cap_at gc_example.(mem) l).(ctype) <> CAP_ENDPOINT) (live_slots gc_example)) as HF.
  { apply (bool_decide_unpack _). vm_compute. exact I. }
  split; [vm_compute; reflexivity|]. refine (proj1 (gc_frees_unheld gc_example 1 Hk) _).
  intros [H|[H|[H _]]]; [vm_compute in H; discriminate H| |vm_compute in H; discriminate H].
  destruct H as (l & Hl & Hn). rewrite Forall_forall in HF. apply (HF l Hl). apply Hn.
Defined.
