(* ===== verification/CSpace.v ===== *)
(** Capability spaces (src/src/kernel/capability.c): the root cnode, the
    operations that install, derive, consume and revoke capabilities in a
    task's cspace, and the release of a dying task's cspace.  Every section of
    code under [cap_lock] is one atomic step.  A function that returns [bool]
    or [int] returns it with the state after. *)
From S2P Require Import Prelude KTypes CapCore CapRevoke Pipe SchedCtx KState Untyped.

(** ** Names of tasks in capabilities (kernel.h) *)
Definition TCB_OBJ_TID_BITS : Z := 16.
Definition TCB_OBJ_TID_MASK : Z := 0xFFFF.
Definition reply_object (id gen : Z) : Z :=
  Z.lor (u64 (Z.shiftl gen TCB_OBJ_TID_BITS)) (Z.land (u64 id) TCB_OBJ_TID_MASK).
Definition tcb_object (k : kstate) (id : Z) : Z := reply_object id (task_at k id).(t_slot_gen).
(** -1 for "no reply endpoint". *)
Definition reply_ep_for_task (tid : Z) : Z :=
  if (tid <=? 0) || (MAX_TASKS <=? tid) then -1 else
  if MAX_ENDPOINTS <=? REPLY_EP_BASE + tid then -1 else REPLY_EP_BASE + tid.

(** ** Boot: the root cnode *)
Definition root_cap (ty rts obj ser : Z) : capability := mk_cap ty rts obj 0 ser 0.

(** [nic] is iodev_first_of_class(IODEV_CLASS_NETWORK), [None] for IODEV_NONE. *)
Definition root_caps (nic : option Z) : list (Z * capability) :=
  let R := CAP_RIGHT_READ in let W := CAP_RIGHT_WRITE in let G := CAP_RIGHT_GRANT in
  let M := CAP_RIGHT_MINT in let V := CAP_RIGHT_REVOKE in
  [ (0, root_cap CAP_TCB CAP_RIGHT_ALL 0 0xC0DE0001);
    (1, root_cap CAP_NOTIFICATION (R + W) 0 0xC0DE0002);
    (2, root_cap CAP_ENDPOINT (R + W + G) 0 0xC0DE0003);
    (3, root_cap CAP_FRAME (R + W + CAP_RIGHT_EXEC) USER_VIRT_BASE 0xC0DE0004);
    (6, root_cap CAP_USER CAP_RIGHT_ALL 0 0xC0DE0006);
    (7, root_cap CAP_AUDIT (R + CAP_RIGHT_AUDIT_WRITE) 0 0xC0DE0007);
    (8, root_cap CAP_CONSOLE CAP_RIGHT_ALL 0 0xC0DE0008);
    (9, root_cap CAP_ENCRYPTED_STORAGE CAP_RIGHT_ALL 0 0xC0DE0009);
    (10, root_cap CAP_IO_DEVICE CAP_RIGHT_ALL IODEV_PLATFORM 0xC0DE000A);
    (11, root_cap CAP_ENDPOINT (R + W) CON_EP_REQ 0xC0DE000B);
    (12, root_cap CAP_ENDPOINT W CON_EP_REQ 0xC0DE000C);
    (13, root_cap CAP_ENDPOINT (R + W + M + G + V + Z.shiftl 0xFF 10) FS_EP_REQ 0xC0DE000D);
    (15, root_cap CAP_KERNEL_LOG (R + M + V) 0 0xC0DE000F);
    (16, root_cap CAP_BOOT_MODULE R 0 0xC0DE0010);
    (14, root_cap CAP_NOTIFICATION (R + W) NOTIF_FS_READY 0xC0DE000E);
    (17, root_cap CAP_UNTYPED (R + W + G + M + V) UNTYPED_ROOT 0xC0DE0011);
    (18, root_cap CAP_DEBUG (R + M + V) 0 0xC0DE0012) ]
  ++ (match nic with
      | Some n => [(19, root_cap CAP_IO_DEVICE CAP_RIGHT_ALL n 0xC0DE0013)]
      | None => []
      end)
  ++ [ (20, root_cap CAP_FRAME (R + CAP_RIGHT_EXEC) 0 0xC0DE0014);
       (21, root_cap CAP_FRAME (R + W) 0 0xC0DE0015);
       (22, root_cap CAP_STORAGE_FORMAT (R + W) 0 0xC0DE0016);
       (23, root_cap CAP_ENDPOINT (W + M + G + V) CON_EP_REQ 0xC0DE0017);
       (24, root_cap CAP_SCHED_CONTEXT (R + W + G + M + V) 0 0xC0DE0018) ].

Definition root_cnode (nic : option Z) : list capability :=
  foldl (fun l e => zset l e.1 e.2) (replicate (Z.to_nat CNODE_SIZE) null_cap) (root_caps nic).

Definition cap_init (k : kstate) (nic : option Z) : kstate :=
  set_rev_sets (set_mem k (<[CRoot := root_cnode nic]> k.(mem)))
    ((fun r => mk_revset r.(rv_target_slot) r.(rv_badge) false) <$> k.(rev_sets)).

(** ** The caller *)
Definition cur_task (k : kstate) : task := task_at k k.(cur).
Definition caller_has_authority (k : kstate) : bool :=
  (k.(cur) =? 0) || bool_decide ((cur_task k).(t_cspace) <> None).

(** [tasks[cur].cspace ? tasks[cur].cspace : root_cnode] and its size. *)
Definition cur_array (k : kstate) : cref := default CRoot (cur_task k).(t_cspace).
Definition cur_size (k : kstate) : Z := task_size (cur_task k).

Definition cap_alloc_fresh_serial (k : kstate) : Z * kstate :=
  let '(s, ns) := rust_cap_alloc_serial k.(cap_next_serial) in (s, set_serial k ns).

(** ** Lookup *)
Definition cap_current_cspace (k : kstate) (slot : Z) : option (cref * Z) :=
  if CNODE_SIZE <=? slot then None else
  let size := cur_size k in
  match (cur_task k).(t_cspace) with
  | None =>
      if negb (k.(cur) =? 0) then None else
      if CNODE_SIZE <=? slot then None else Some (CRoot, CNODE_SIZE)
  | Some c => if size <=? slot then None else Some (c, size)
  end.

Definition cap_lookup (k : kstate) (slot expected_type required_rights : Z) : option loc :=
  match cap_current_cspace k slot with
  | None => None
  | Some (c, size) => rust_cap_lookup_typed k.(mem) (Some c) size slot expected_type required_rights
  end.

Definition cap_lookup_ipc_object (k : kstate) (slot expected_type need_rights index_max : Z)
  : option Z :=
  match cap_current_cspace k slot with
  | None => None
  | Some (c, size) =>
      rust_ipc_object_from_slot k.(mem) (Some c) size slot expected_type need_rights index_max
  end.

Definition kcap_lookup (k : kstate) (slot r : Z) : option loc := cap_lookup k slot CAP_ANYTYPE r.

Record cap_snapshot_t := mk_snap { sn_serial : Z; sn_object : Z; sn_valid : bool }.
Definition cap_snapshot (c : option capability) : cap_snapshot_t :=
  match c with
  | Some c => mk_snap c.(serial) c.(object) (negb (c.(ctype) =? CAP_NULL))
  | None => mk_snap 0 0 false
  end.
Definition cap_revalidate (k : kstate) (slot required_rights : Z) (snap : cap_snapshot_t) : option loc :=
  if negb snap.(sn_valid) then None else
  match cap_lookup k slot CAP_ANYTYPE required_rights with
  | None => None
  | Some p =>
      let c := cap_at k.(mem) p in
      if negb (c.(serial) =? snap.(sn_serial)) || negb (c.(object) =? snap.(sn_object))
      then None else Some p
  end.

(** ** Installing an object *)

(** A write to slot [l] of task [t]'s cspace, counted when the slot was empty. *)
Definition slot_null (k : kstate) (l : loc) : bool := (cap_at k.(mem) l).(ctype) =? CAP_NULL.
Definition over_quota (k : kstate) (t : Z) : bool := MAX_CAPS_PER_TASK <=? ciu_at k t.
Definition install_at (k : kstate) (t : Z) (l : loc) (c : capability) : kstate :=
  let k1 := put_cap k l c in
  if slot_null k l then inc_ciu k1 t else k1.

(** 0, or -1 with nothing installed. *)
Definition cap_install_from_root (k : kstate) (pid slot root_slot obj : Z) : Z * kstate :=
  if (pid <? 0) || (g_max_tasks k <=? pid) || (CNODE_SIZE <=? slot) || (CNODE_SIZE <=? root_slot)
  then (-1, k) else
  match (task_at k pid).(t_cspace) with
  | None => (-1, k)
  | Some c =>
      let root := cap_at k.(mem) (CRoot, root_slot) in
      let is_tcb := root.(ctype) =? CAP_TCB in
      if is_tcb && ((s32 obj <=? 0) || (g_max_tasks k <=? s32 obj)) then (-1, k) else
      let o := if is_tcb then tcb_object k (s32 obj) else obj in
      let '(ser, k) := cap_alloc_fresh_serial k in
      if ser =? 0 then (-1, k) else
      let k := put_cap k (c, slot) (mk_cap root.(ctype) root.(rights) o 0 ser 0) in
      (0, kobj_note_named k root.(ctype) o)
  end.

Definition cap_install_object (k : kstate) (dest_slot type obj rts bdg : Z) : bool * kstate :=
  let '(ser, k) := cap_alloc_fresh_serial k in
  if ser =? 0 then (false, k) else
  if negb (caller_has_authority k) then (false, k) else
  match (cur_task k).(t_cspace) with
  | None => (false, k)
  | Some c =>
      if (dest_slot <? KERNEL_RESERVED_CAPS) || (cur_size k <=? dest_slot) then (false, k) else
      if slot_null k (c, dest_slot) && over_quota k k.(cur) then (false, k) else
      let k := install_at k k.(cur) (c, dest_slot) (mk_cap type rts obj bdg ser 0) in
      (true, kobj_note_named k type obj)
  end.

Definition cap_install_derived_object (k : kstate)
    (dest_slot src_slot src_serial src_type obj rts : Z) : bool * kstate :=
  let '(ser, k) := cap_alloc_fresh_serial k in
  if ser =? 0 then (false, k) else
  if negb (caller_has_authority k) then (false, k) else
  match (cur_task k).(t_cspace) with
  | None => (false, k)
  | Some c =>
      let src := cap_at k.(mem) (c, src_slot) in
      if (dest_slot <? KERNEL_RESERVED_CAPS) || (cur_size k <=? dest_slot)
         || (cur_size k <=? src_slot) || (dest_slot =? src_slot) || (src_serial =? 0)
         || negb (src.(serial) =? src_serial) || negb (src.(ctype) =? src_type)
      then (false, k) else
      if slot_null k (c, dest_slot) && over_quota k k.(cur) then (false, k) else
      let k := install_at k k.(cur) (c, dest_slot)
                 (mk_cap src_type (Z.land rts src.(rights)) obj src_serial ser 0) in
      (true, kobj_note_named k src_type obj)
  end.

(** The slot the scan finds, or None. *)
Definition first_free_slot (m : cmem) (c : cref) (min_slot size : Z) : option Z :=
  find_index (fun s => negb (in_range LIBC_SLOT_FIRST (LIBC_SLOT_FIRST + SHLIB_MAX_PAGES) s)
                       && ((cap_at m (c, s)).(ctype) =? CAP_NULL))
             min_slot (Z.to_nat (size - min_slot)).

Definition cap_install_object_first_free (k : kstate) (min_slot type obj rts bdg : Z)
  : option Z * kstate :=
  let '(ser, k) := cap_alloc_fresh_serial k in
  if ser =? 0 then (None, k) else
  if negb (caller_has_authority k) then (None, k) else
  match (cur_task k).(t_cspace) with
  | None => (None, k)
  | Some c =>
      if (min_slot <? KERNEL_RESERVED_CAPS) || (cur_size k <=? min_slot) then (None, k) else
      if over_quota k k.(cur) then (None, k) else
      match first_free_slot k.(mem) c min_slot (cur_size k) with
      | None => (None, k)
      | Some s =>
          let k := inc_ciu (put_cap k (c, s) (mk_cap type rts obj bdg ser 0)) k.(cur) in
          (Some s, kobj_note_named k type obj)
      end
  end.

Definition cap_install_reply_for (k : kstate) (pid sender sender_gen : Z) : bool * kstate :=
  if (pid <=? 0) || (g_max_tasks k <=? pid) then (false, k) else
  if (sender <=? 0) || (g_max_tasks k <=? sender) then (false, k) else
  let '(ser, k) := cap_alloc_fresh_serial k in
  if ser =? 0 then (false, k) else
  match (task_at k pid).(t_cspace) with
  | None => (false, k)
  | Some c =>
      if task_size (task_at k pid) <=? CAPSLOT_REPLY then (false, k) else
      if slot_null k (c, CAPSLOT_REPLY) && over_quota k pid then (false, k) else
      (true, install_at k pid (c, CAPSLOT_REPLY)
               (mk_cap CAP_REPLY CAP_RIGHT_WRITE (reply_object sender sender_gen) 0 ser 0))
  end.

(** ** Consuming a slot *)
Definition dec_ciu_of (k : kstate) (t : Z) : kstate := set_ciu k (dec_ciu (Some t) k.(caps_in_use)).

Definition cap_consume_slot (k : kstate) (dest_slot : Z) : bool * kstate :=
  match (cur_task k).(t_cspace) with
  | None => (false, k)
  | Some c =>
      if (dest_slot <? KERNEL_RESERVED_CAPS) || (cur_size k <=? dest_slot) then (false, k) else
      (true, if slot_null k (c, dest_slot) then k
             else dec_ciu_of (put_cap k (c, dest_slot) null_cap) k.(cur))
  end.

(** The boolean, the capability handed back through [out_prev], the state. *)
Definition cap_consume_slot_of (k : kstate) (pid slot : Z) : bool * capability * kstate :=
  if (pid <=? 0) || (g_max_tasks k <=? pid) then (false, null_cap, k) else
  match (task_at k pid).(t_cspace) with
  | None => (false, null_cap, k)
  | Some c =>
      if task_size (task_at k pid) <=? slot then (false, null_cap, k) else
      if slot_null k (c, slot) then (true, null_cap, k) else
      (true, cap_at k.(mem) (c, slot), dec_ciu_of (put_cap k (c, slot) null_cap) pid)
  end.

(** ** The standard streams of a spawned child *)
Definition cap_install_child_pipe_end (k : kstate) (child dest_slot spawner src_slot rts : Z)
  : bool * kstate :=
  if (child <=? 0) || (g_max_tasks k <=? child) then (false, k) else
  if (spawner <=? 0) || (g_max_tasks k <=? spawner) then (false, k) else
  if negb (dest_slot =? STDIN_PIPE_SLOT) && negb (dest_slot =? STDOUT_PIPE_SLOT) then (false, k) else
  if CNODE_SIZE <=? src_slot then (false, k) else
  let '(ser, k) := cap_alloc_fresh_serial k in
  if ser =? 0 then (false, k) else
  match (task_at k spawner).(t_cspace), (task_at k child).(t_cspace) with
  | Some pcs, Some ccs =>
      if task_size (task_at k child) <=? dest_slot then (false, k) else
      match rust_cap_lookup k.(mem) (Some pcs) (task_size (task_at k spawner)) src_slot 0 with
      | None => (false, k)
      | Some l =>
          let src := cap_at k.(mem) l in
          if negb (src.(ctype) =? CAP_PIPE) then (false, k) else
          if negb (has_bits src.(rights) rts) then (false, k) else
          if slot_null k (ccs, dest_slot) && over_quota k child then (false, k) else
          if negb (slot_null k (ccs, dest_slot)) then (false, k) else
          let '(ok, ps) := pipe_end_ref k.(pipes) src.(object) (negb (Z.land rts CAP_RIGHT_WRITE =? 0)) in
          if negb ok then (false, k) else
          (true, inc_ciu (put_cap (set_pipes k ps) (ccs, dest_slot)
                            (mk_cap CAP_PIPE rts src.(object) src.(serial) ser 0)) child)
      end
  | _, _ => (false, k)
  end.

(** ** Deriving *)

(** What follows a successful derivation: the memory and counter it left, and
    the count of a slot that was empty. *)
Definition derived (k : kstate) (t : Z) (was_null : bool) (r : option (cmem * Z)) : bool * kstate :=
  match r with
  | None => (false, k)
  | Some (m, ns) =>
      let k := set_serial (set_mem k m) ns in
      (true, if was_null then inc_ciu k t else k)
  end.

Definition cap_mint (k : kstate) (dest_slot src_slot new_rights : Z) : bool * kstate :=
  if negb (caller_has_authority k) then (false, k) else
  match kcap_lookup k src_slot CAP_RIGHT_MINT with
  | None => (false, k)
  | Some _ =>
      if CNODE_SIZE <=? dest_slot then (false, k) else
      if dest_slot <? KERNEL_RESERVED_CAPS then (false, k) else
      let was_null := slot_null k (cur_array k, dest_slot) in
      if was_null && over_quota k k.(cur) then (false, k) else
      derived k k.(cur) was_null
        (rust_cap_mint k.(mem) k.(cap_next_serial) (Some (cur_array k)) (cur_size k)
                       dest_slot src_slot new_rights)
  end.

Definition cap_mint_token (k : kstate) (dest_slot src_slot new_rights tok : Z) : bool * kstate :=
  if negb (caller_has_authority k) then (false, k) else
  match kcap_lookup k src_slot CAP_RIGHT_MINT with
  | None => (false, k)
  | Some _ =>
      if (CNODE_SIZE <=? dest_slot) || (dest_slot <? KERNEL_RESERVED_CAPS) then (false, k) else
      let was_null := slot_null k (cur_array k, dest_slot) in
      if was_null && over_quota k k.(cur) then (false, k) else
      derived k k.(cur) was_null
        (rust_cap_mint_token k.(mem) k.(cap_next_serial) (Some (cur_array k)) (cur_size k)
                             dest_slot src_slot new_rights tok)
  end.

Definition cap_reply_mint_into (k : kstate)
    (pid inv_slot inv_serial ep_index dest_slot new_rights tok : Z) : bool * kstate :=
  if (pid <=? 0) || (g_max_tasks k <=? pid) then (false, k) else
  match (task_at k pid).(t_cspace) with
  | None => (false, k)
  | Some c =>
      let size := task_size (task_at k pid) in
      if (size <=? inv_slot) || (size <=? dest_slot) then (false, k) else
      let inv := cap_at k.(mem) (c, inv_slot) in
      if negb (inv.(ctype) =? CAP_ENDPOINT) || (inv.(serial) =? 0)
         || negb (inv.(serial) =? inv_serial) || negb (inv.(object) =? ep_index)
      then (false, k) else
      if over_quota k pid then (false, k) else
      derived k pid true
        (rust_cap_reply_mint k.(mem) k.(cap_next_serial) (Some inv) (Some c) size
                             dest_slot new_rights tok)
  end.

Definition cap_mint_untyped_child (k : kstate) (src_slot dest_slot child_index : Z) : Z * kstate :=
  let '(ser, k) := cap_alloc_fresh_serial k in
  if ser =? 0 then (-1, k) else
  if negb (caller_has_authority k) then (-1, k) else
  match kcap_lookup k src_slot CAP_RIGHT_WRITE with
  | None => (-1, k)
  | Some l =>
      let src := cap_at k.(mem) l in
      if negb (src.(ctype) =? CAP_UNTYPED) then (-1, k) else
      if (CNODE_SIZE <=? dest_slot) || (dest_slot <? KERNEL_RESERVED_CAPS) then (-1, k) else
      match (cur_task k).(t_cspace) with
      | None => (-1, k)
      | Some c =>
          if cur_size k <=? dest_slot then (-1, k) else
          if slot_null k (c, dest_slot) && over_quota k k.(cur) then (-1, k) else
          (0, install_at k k.(cur) (c, dest_slot)
                (mk_cap CAP_UNTYPED src.(rights) child_index src.(serial) ser 0))
      end
  end.

Definition cap_transfer (k : kstate) (dest_slot src_slot : Z) : bool * kstate :=
  if negb (caller_has_authority k) then (false, k) else
  match kcap_lookup k src_slot CAP_RIGHT_MINT with
  | None => (false, k)
  | Some _ =>
      if CNODE_SIZE <=? dest_slot then (false, k) else
      if dest_slot <? KERNEL_RESERVED_CAPS then (false, k) else
      let was_null := slot_null k (cur_array k, dest_slot) in
      if was_null && over_quota k k.(cur) then (false, k) else
      derived k k.(cur) was_null
        (rust_cap_transfer k.(mem) k.(cap_next_serial) (Some (cur_array k)) (cur_size k)
                           dest_slot src_slot)
  end.

Definition cap_grant_common (k : kstate) (target_pid dest_slot src_slot new_rights : Z)
    (from_user : bool) : bool * kstate :=
  if (target_pid <=? 0) || (g_max_tasks k <=? target_pid) then (false, k) else
  if (CNODE_SIZE <=? src_slot) || (CNODE_SIZE <=? dest_slot) then (false, k) else
  if negb (caller_has_authority k) then (false, k) else
  match (cur_task k).(t_cspace), (task_at k target_pid).(t_cspace) with
  | Some src_cspace, Some dst_cspace =>
      let dst_sz := task_size (task_at k target_pid) in
      match rust_cap_lookup k.(mem) (Some src_cspace) (cur_size k) src_slot 0 with
      | None => (false, k)
      | Some l =>
          let src := cap_at k.(mem) l in
          let was_null := (dest_slot <? dst_sz) && slot_null k (dst_cspace, dest_slot) in
          if was_null && over_quota k target_pid then (false, k) else
          derived k target_pid was_null
            ((if from_user then rust_cap_grant_from_user else rust_cap_grant_into)
               k.(mem) k.(cap_next_serial) (Some src) (Some dst_cspace) dst_sz dest_slot new_rights)
      end
  | _, _ => (false, k)
  end.
Definition cap_grant_into (k : kstate) (target_pid dest_slot src_slot new_rights : Z) :=
  cap_grant_common k target_pid dest_slot src_slot new_rights false.
Definition cap_grant_from_user (k : kstate) (target_pid dest_slot src_slot new_rights : Z) :=
  cap_grant_common k target_pid dest_slot src_slot new_rights true.

(** ** Fork: the child's copies *)
Definition pipe_end_live (c : capability) : bool :=
  (c.(ctype) =? CAP_PIPE) && negb (c.(serial) =? 0).

Definition pipe_count_forked_ends (k : kstate) (child : Z) : bool * kstate :=
  if (child <=? 0) || (g_max_tasks k <=? child) then (false, k) else
  match (task_at k child).(t_cspace) with
  | None => (false, k)
  | Some c =>
      let sz := task_size (task_at k child) in
      let sz := if CNODE_SIZE <? sz then CNODE_SIZE else sz in
      let ends := filter (fun s => pipe_end_live (cap_at k.(mem) (c, s)) = true) (seqZ 0 sz) in
      if negb (forallb (fun s => bool_decide (pipe_of k.(pipes) (cap_at k.(mem) (c, s)).(object) <> None)) ends)
      then (false, k)
      else (true, set_pipes k (foldl (fun ps s =>
              let e := cap_at k.(mem) (c, s) in
              (pipe_end_ref ps e.(object) (negb (Z.land e.(rights) CAP_RIGHT_WRITE =? 0))).2)
              k.(pipes) ends))
  end.

(** The copying loop over the slots [ss]: the number copied, [None] when the
    child's quota is spent. *)
Fixpoint clone_slots (k : kstate) (pc cc : cref) (csz child copied : Z) (ss : list Z)
  : option Z * kstate :=
  match ss with
  | [] => (Some copied, k)
  | s :: ss =>
      let src := cap_at k.(mem) (pc, s) in
      if (s =? CAPSLOT_REPLY_EP) || (src.(ctype) =? CAP_NULL) || (src.(ctype) =? CAP_REPLY)
         || (src.(serial) =? 0)
      then clone_slots k pc cc csz child copied ss
      else if over_quota k child then (None, k)
      else
        let '(ok, k) := derived k child (slot_null k (cc, s))
          (rust_cap_grant_into k.(mem) k.(cap_next_serial) (Some src) (Some cc) csz s CAP_RIGHT_ALL) in
        clone_slots k pc cc csz child (if ok then copied + 1 else copied) ss
  end.

Definition cap_clone_cspace (k : kstate) (parent child : Z) : Z * kstate :=
  if (parent <=? 0) || (g_max_tasks k <=? parent) then (-1, k) else
  if (child <=? 0) || (g_max_tasks k <=? child) then (-1, k) else
  if parent =? child then (-1, k) else
  match (task_at k parent).(t_cspace), (task_at k child).(t_cspace) with
  | Some pc, Some cc =>
      let psz := task_size (task_at k parent) in
      let csz := task_size (task_at k child) in
      let lim := if psz <? csz then psz else csz in
      let lim := if CNODE_SIZE <? lim then CNODE_SIZE else lim in
      match clone_slots k pc cc csz child 0 (seqZ KERNEL_RESERVED_CAPS (lim - KERNEL_RESERVED_CAPS)) with
      | (None, k) => (-2, k)
      | (Some copied, k) =>
          let '(ok, k) := pipe_count_forked_ends k child in
          if ok then (copied, k) else (-3, k)
      end
  | _, _ => (-1, k)
  end.

(** ** Revoking *)

(** The live cspaces, as the descriptors handed to the sweep: every task
    accepted by [p], then the root cnode. *)
Definition task_desc (k : kstate) (t : Z) : list CSpaceDesc :=
  match (task_at k t).(t_cspace) with
  | Some c => if (task_at k t).(t_state) =? TASK_DEAD then []
              else [mk_desc (Some c) (task_size (task_at k t)) (Some t)]
  | None => []
  end.
Definition root_desc : CSpaceDesc := mk_desc (Some CRoot) CNODE_SIZE None.
Definition revoke_spaces (k : kstate) : list CSpaceDesc :=
  (seqZ 0 (g_max_tasks k) ≫= task_desc k) ++ [root_desc].

Definition empty_tally : list Z := replicate (Z.to_nat (PIPE_TALLY_CELLS * MAX_PIPES)) 0.

Definition rev_set_dies (target_badge slot target_serial : Z) (r : rev_set) : bool :=
  r.(rv_valid) && ((r.(rv_badge) =? target_badge) || (r.(rv_badge) =? slot)
                   || (negb (target_serial =? 0) && (r.(rv_badge) =? target_serial))).
Definition expire_rev_sets (target_badge slot target_serial : Z) (l : list rev_set) : list rev_set :=
  (fun r => if rev_set_dies target_badge slot target_serial r
            then mk_revset r.(rv_target_slot) r.(rv_badge) false else r) <$> l.

(** The result, [pipes_exact], and the state. *)
Definition cap_revoke_exact (k : kstate) (slot : Z) : bool * bool * kstate :=
  if CNODE_SIZE <=? slot then (false, true, k) else
  if negb (caller_has_authority k) then (false, true, k) else
  let c := cur_array k in
  let size := cur_size k in
  if (slot <? KERNEL_RESERVED_CAPS) && bool_decide (c = CRoot) then (false, true, k) else
  let cap := cap_at k.(mem) (c, slot) in
  if (Z.land cap.(rights) CAP_RIGHT_REVOKE =? 0) && negb (bool_decide (c = CRoot))
  then (false, true, k) else
  let st := mk_rs k.(mem) k.(caps_in_use) (Some empty_tally) in
  let '(st, slot) :=
    if (cap.(ctype) =? CAP_REVOCATION) && (cap.(object) <? CNODE_SIZE)
    then ((rust_cap_revoke (Some c) size slot st).2, cap.(object)) else (st, slot) in
  let target := cap_at st.(rs_mem) (c, slot) in
  let target_ciu := if bool_decide (c = CRoot) then None else Some k.(cur) in
  let '(ok, st) := rust_cap_revoke_global (Some c) size slot target_ciu (revoke_spaces k) st in
  let '(exact, ps) := pipe_release_revoked_ends k.(pipes) st.(rs_tally) in
  let k := set_pipes (set_ciu (set_mem k st.(rs_mem)) st.(rs_ciu)) ps in
  let k := set_rev_sets k (expire_rev_sets target.(badge) slot target.(serial) k.(rev_sets)) in
  (ok, exact, kobj_gc_locked k).
Definition cap_revoke (k : kstate) (slot : Z) : bool * kstate :=
  let '(ok, _, k) := cap_revoke_exact k slot in (ok, k).

Definition cap_move (k : kstate) (dest_slot src_slot : Z) : bool * kstate :=
  let '(ok, k) := cap_transfer k dest_slot src_slot in
  if ok then cap_revoke k src_slot else (false, k).

Definition cap_create_revocation_set (k : kstate) (target_slot rev_slot : Z) : bool * kstate :=
  let '(ser, k) := cap_alloc_fresh_serial k in
  if ser =? 0 then (false, k) else
  if negb (caller_has_authority k) then (false, k) else
  if (CNODE_SIZE <=? target_slot) || (CNODE_SIZE <=? rev_slot) || (target_slot <? 4) then (false, k) else
  let c := cur_array k in
  if slot_null k (c, target_slot) then (false, k) else
  (true, put_cap k (c, rev_slot) (mk_cap CAP_REVOCATION CAP_RIGHT_REVOKE target_slot 0xDEAD0000 ser 0)).

(** ** Releasing a dying task's cspace *)
Definition SCRATCH_LEN : Z := 2 * CNODE_SIZE.
Definition reparent_spaces (k : kstate) (id : Z) : list CSpaceDesc :=
  (filter (fun t => t <> id) (seqZ 0 (g_max_tasks k)) ≫= task_desc k) ++ [root_desc].
Definition reparent_dying_locked (k : kstate) (id : Z) (cs : cref) (sz : Z) : kstate :=
  set_mem k (rust_cap_reparent_dying k.(mem) cs sz (reparent_spaces k id) SCRATCH_LEN).1.

Definition clear_slots (m : cmem) (cs : cref) (sz : Z) : cmem :=
  foldl (fun m s => nullify m (cs, s)) m (seqZ 0 sz).

Definition release_cspace (k : kstate) (id : Z) (collect : bool) : kstate :=
  let valid := (0 <? id) && (id <? g_max_tasks k) in
  let k :=
    if valid then
      match (task_at k id).(t_cspace) with
      | Some cs =>
          let sz := task_size (task_at k id) in
          let sz := if CNODE_SIZE <? sz then CNODE_SIZE else sz in
          let k := reparent_dying_locked k id cs sz in
          set_mem k (clear_slots k.(mem) cs sz)
      | None => k
      end
    else k in
  let k := if valid then set_ciu k (zset k.(caps_in_use) id 0) else k in
  if collect then kobj_gc_locked k else k.
Definition cap_release_cspace (k : kstate) (id : Z) : kstate := release_cspace k id false.
Definition cap_release_cspace_and_collect (k : kstate) (id : Z) : kstate := release_cspace k id true.
