(* ===== verification/PipeSys.v ===== *)
(** The pipe system calls (src/src/kernel/pipe.c): creating a pipe, reading and
    writing through a capability slot, closing an end, and closing every end a
    dying task holds. *)
From S2P Require Import Prelude KTypes CapCore CapRevoke Pipe SchedCtx KState Untyped CSpace.

(** [(uint64_t)(uint32_t)n]: how a handler returns an int in rax. *)
Definition rax32 (n : Z) : Z := u32 n.

Definition end_is_writer (c : capability) : bool := negb (Z.land c.(rights) CAP_RIGHT_WRITE =? 0).

(** Reads return the bytes with the count; a write is given its bytes. *)
Definition pipe_io_read (k : kstate) (slot len : Z) : Z * list Z * kstate :=
  match cap_lookup k slot CAP_PIPE CAP_RIGHT_READ with
  | None => (SYS_ERR_PERM, [], k)
  | Some l =>
      let '(rc, bytes, ps) := pipe_read_bytes k.(pipes) (cap_at k.(mem) l).(object) len in
      (rc, bytes, set_pipes k ps)
  end.
Definition pipe_io_write (k : kstate) (slot : Z) (src : list Z) : Z * kstate :=
  match cap_lookup k slot CAP_PIPE CAP_RIGHT_WRITE with
  | None => (SYS_ERR_PERM, k)
  | Some l =>
      let '(rc, ps) := pipe_write_bytes k.(pipes) (cap_at k.(mem) l).(object) src in
      (rc, set_pipes k ps)
  end.

Definition pipe_end_held (k : kstate) (slot right : Z) : bool :=
  bool_decide (cap_lookup k slot CAP_PIPE right <> None).

(** ** Closing a task's ends *)

(** One pass: find the first pipe end, consume it and drop its count.  [None]
    when the loop returns. *)
Definition close_pass (k : kstate) (task_id sz : Z) : option kstate :=
  match (task_at k task_id).(t_cspace) with
  | None => None
  | Some cs =>
      match find_index (fun s => (cap_at k.(mem) (cs, s)).(ctype) =? CAP_PIPE) 0 (Z.to_nat sz) with
      | None => None
      | Some found =>
          let '(ok, prev, k) := cap_consume_slot_of k task_id found in
          if negb ok then None else
          if negb (prev.(ctype) =? CAP_PIPE) then Some k else
          Some (set_pipes k (pipe_end_unref k.(pipes) prev.(object) (end_is_writer prev)))
      end
  end.
Fixpoint close_passes (n : nat) (k : kstate) (task_id sz : Z) : kstate :=
  match n with
  | O => k
  | S n => match close_pass k task_id sz with
           | None => k
           | Some k => close_passes n k task_id sz
           end
  end.
Definition pipe_close_task_ends (k : kstate) (task_id : Z) : kstate :=
  if (task_id <=? 0) || (g_max_tasks k <=? task_id) then k else
  let sz := task_size (task_at k task_id) in
  match (task_at k task_id).(t_cspace) with
  | None => k
  | Some _ => close_passes (Z.to_nat sz) k task_id sz
  end.

(** ** Handlers: rax and the state after *)
Definition h_pipe (k : kstate) : Z * kstate :=
  match (cur_task k).(t_cspace) with
  | None => (rax32 SYS_ERR_PERM, k)
  | Some _ =>
      let '(obj, ps) := pipe_alloc k.(pipes) in
      let k := set_pipes k ps in
      if obj =? 0 then (rax32 SYS_ERR_NOMEM, k) else
      let k := set_pipes k (pipe_end_ref k.(pipes) obj false).2 in
      let k := set_pipes k (pipe_end_ref k.(pipes) obj true).2 in
      let unref2 k := set_pipes k (pipe_end_unref (pipe_end_unref k.(pipes) obj false) obj true) in
      match cap_install_object_first_free k CAP_DYNAMIC_FLOOR CAP_PIPE obj
              (CAP_RIGHT_READ + CAP_RIGHT_REVOKE) 0 with
      | (None, k) => (rax32 SYS_ERR_NOMEM, unref2 k)
      | (Some rslot, k) =>
          match cap_install_object_first_free k CAP_DYNAMIC_FLOOR CAP_PIPE obj
                  (CAP_RIGHT_WRITE + CAP_RIGHT_REVOKE) 0 with
          | (None, k) =>
              let '(_, _, k) := cap_consume_slot_of k k.(cur) rslot in
              (rax32 SYS_ERR_NOMEM, unref2 k)
          | (Some wslot, k) => (Z.lor (Z.shiftl rslot 16) wslot, k)
          end
      end
  end.

(** The arguments are the registers of the call.  [copied] says whether
    copy_to_user or copy_from_user succeeded. *)
Definition h_pipe_read (k : kstate) (rbx rdx : Z) (copied : bool) : Z * list Z * kstate :=
  let slot := u32 rbx in
  let len := u32 rdx in
  let len := if PIPE_IO_CHUNK <? len then PIPE_IO_CHUNK else len in
  let '(n, bytes, k) := pipe_io_read k slot len in
  if (0 <? n) && negb copied then (rax32 SYS_ERR_FAULT, [], k) else (rax32 n, bytes, k).

(** [user i] is byte [i] of the caller's buffer. *)
Definition h_pipe_write (k : kstate) (rbx rdx : Z) (user : Z -> Z) (copied : bool) : Z * kstate :=
  let slot := u32 rbx in
  let len := u32 rdx in
  if negb (pipe_end_held k slot CAP_RIGHT_WRITE) then (rax32 SYS_ERR_PERM, k) else
  let len := if PIPE_IO_CHUNK <? len then PIPE_IO_CHUNK else len in
  if negb copied then (rax32 SYS_ERR_FAULT, k) else
  let '(rc, k) := pipe_io_write k slot (user <$> seqZ 0 len) in (rax32 rc, k).

Definition h_pipe_close (k : kstate) (rbx : Z) : Z * kstate :=
  let '(ok, prev, k) := cap_consume_slot_of k k.(cur) (u32 rbx) in
  if negb ok || negb (prev.(ctype) =? CAP_PIPE) then (rax32 SYS_ERR_INVAL, k) else
  (0, set_pipes k (pipe_end_unref k.(pipes) prev.(object) (end_is_writer prev))).

Definition h_stdio_info (k : kstate) : Z := (cur_task k).(t_stdio_flags).
