(* ===== verification/Retype.v ===== *)
(** The untyped and scheduling system calls that make objects (src/src/kernel/
    untyped.c: untyped_from_slot, untyped_split, untyped_retype, untyped_info,
    sched_split). *)
From S2P Require Import Prelude KTypes CapCore CapRevoke Pipe SchedCtx KState Untyped CSpace.

Definition untyped_from_slot (k : kstate) (slot need_rights : Z) : option Z :=
  match cap_lookup k slot CAP_UNTYPED need_rights with
  | None => None
  | Some l =>
      let o := (cap_at k.(mem) l).(object) in
      if MAX_UNTYPED <=? o then None else
      if negb (untyped_at k o).(u_in_use) then None else
      if o =? UNTYPED_KERNEL then None else Some o
  end.

Definition untyped_split (k : kstate) (src_slot dest_slot bytes : Z) : Z * kstate :=
  if bytes =? 0 then (SYS_ERR_INVAL, k) else
  if CNODE_SIZE <=? dest_slot then (SYS_ERR_INVAL, k) else
  if dest_slot <? KERNEL_RESERVED_CAPS then (SYS_ERR_PERM, k) else
  match untyped_from_slot k src_slot CAP_RIGHT_WRITE with
  | None => (SYS_ERR_PERM, k)
  | Some parent =>
      match split_region k.(untypeds) parent bytes with
      | inl e => (e, k)
      | inr (child, us) =>
          let '(rc, k) := cap_mint_untyped_child (set_untypeds k us) src_slot dest_slot child in
          if negb (rc =? 0) then (SYS_ERR_PERM, set_untypeds k (unsplit_region k.(untypeds) child))
          else (0, k)
      end
  end.

Definition cap_of_kobj (kobj_type : Z) : Z :=
  if kobj_type =? KOBJ_ENDPOINT then CAP_ENDPOINT
  else if kobj_type =? KOBJ_NOTIFICATION then CAP_NOTIFICATION else CAP_FRAME.
Definition RETYPE_RIGHTS : Z :=
  CAP_RIGHT_READ + CAP_RIGHT_WRITE + CAP_RIGHT_GRANT + CAP_RIGHT_MINT + CAP_RIGHT_REVOKE.

(** The undo when the capability for a fresh object could not be installed. *)
Definition destroy_new (k : kstate) (kobj_type obj_index : Z) : kstate :=
  if kobj_type =? KOBJ_ENDPOINT then destroy_dyn_endpoint k (obj_index - DYN_EP_BASE)
  else if kobj_type =? KOBJ_NOTIFICATION then destroy_dyn_notification k (obj_index - DYN_NOTIF_BASE)
  else destroy_dyn_frame k (obj_index - DYN_FRAME_BASE).

(** The loop [for i in 0..count] over the destination slots [ds]. *)
Fixpoint retype_slots (k : kstate) (u kobj_type pages created : Z) (ds : list Z) : Z * kstate :=
  match ds with
  | [] => (created, k)
  | d :: ds =>
      match kobj_alloc k u kobj_type pages with
      | None => (created, k)
      | Some (_, obj_index, k) =>
          match cap_install_object k d (cap_of_kobj kobj_type) obj_index RETYPE_RIGHTS 0 with
          | (false, k) => (created, destroy_new k kobj_type obj_index)
          | (true, k) => retype_slots k u kobj_type pages (created + 1) ds
          end
      end
  end.

Definition untyped_retype (k : kstate) (untyped_slot kobj_type count pages dest_slot : Z) : Z * kstate :=
  match untyped_from_slot k untyped_slot CAP_RIGHT_WRITE with
  | None => (SYS_ERR_PERM, k)
  | Some u =>
      if negb (kobj_type =? KOBJ_ENDPOINT) && negb (kobj_type =? KOBJ_NOTIFICATION)
         && negb (kobj_type =? KOBJ_FRAME) then (SYS_ERR_INVAL, k) else
      if count =? 0 then (SYS_ERR_INVAL, k) else
      if negb (kobj_type =? KOBJ_FRAME) && negb (pages =? 0) then (SYS_ERR_INVAL, k) else
      let pages := if (kobj_type =? KOBJ_FRAME) && (pages =? 0) then 1 else pages in
      if (kobj_type =? KOBJ_FRAME) && (MAX_FRAME_PAGES <? pages) then (SYS_ERR_RANGE, k) else
      if dest_slot <? KERNEL_RESERVED_CAPS then (SYS_ERR_PERM, k) else
      if CNODE_SIZE <? count then (SYS_ERR_RANGE, k) else
      if CNODE_SIZE - count <? dest_slot then (SYS_ERR_RANGE, k) else
      let '(created, k) := retype_slots k u kobj_type pages 0 (seqZ dest_slot count) in
      (if created =? 0 then SYS_ERR_NOMEM else created, k)
  end.

(** struct untyped_info, without its reserved field. *)
Record untyped_info_t := mk_uinfo { ui_size : Z; ui_watermark : Z; ui_free : Z; ui_objects : Z }.
Definition untyped_info (k : kstate) (untyped_slot : Z) : Z + untyped_info_t :=
  match untyped_from_slot k untyped_slot CAP_RIGHT_READ with
  | None => inl SYS_ERR_PERM
  | Some u =>
      let r := untyped_at k u in
      inr (mk_uinfo r.(u_size) r.(u_watermark)
             (if r.(u_watermark) <? r.(u_size) then r.(u_size) - r.(u_watermark) else 0)
             r.(u_objects))
  end.

(** [now] is sched_clock_us() inside sched_carve. *)
Definition sched_split (k : kstate)
    (parent_slot untyped_slot dest_slot budget_us period_us flags now : Z) : Z * kstate :=
  match cap_lookup k parent_slot CAP_SCHED_CONTEXT CAP_RIGHT_WRITE with
  | None => (SYS_ERR_PERM, k)
  | Some l =>
      let pc := cap_at k.(mem) l in
      if (pc.(object) =? 0) || (SC_INDEX_MAX <=? pc.(object)) then (SYS_ERR_INVAL, k) else
      match untyped_from_slot k untyped_slot CAP_RIGHT_WRITE with
      | None => (SYS_ERR_PERM, k)
      | Some u =>
          match kobj_alloc k u KOBJ_SCHED_CONTEXT 0 with
          | None => (SYS_ERR_NOMEM, k)
          | Some (_, idx, k) =>
              let '(rc, s) := sched_carve k.(ksched) pc.(object) idx budget_us period_us flags now in
              let k := set_sched k s in
              let '(rc, k) :=
                if negb (rc =? 0) then (rc, k) else
                let '(ok, k) := cap_install_derived_object k dest_slot parent_slot pc.(serial)
                                  CAP_SCHED_CONTEXT idx pc.(rights) in
                (if ok then 0 else SYS_ERR_PERM, k) in
              (rc, if negb (rc =? 0) then destroy_dyn_sc k (idx - DYN_SC_BASE) else k)
          end
      end
  end.
