(* ===== verification/TaskLife.v ===== *)
(** The capability side of a task's life (src/src/kernel/scheduler.c and
    kspawn.c): the cspace a task is born with, what a spawner or a forking
    parent puts into it, and what teardown takes away.  Address spaces, register
    frames, device and interrupt ownership are not part of it. *)
From S2P Require Import Prelude KTypes CapCore CapRevoke Pipe SchedCtx KState Untyped CSpace PipeSys.

Definition CAPSLOT_USER : Z := 6.
Definition CAPSLOT_UNTYPED : Z := 18.
Definition STDIO_STDIN_PIPE : Z := 1.
Definition STDIO_STDOUT_PIPE : Z := 2.
Definition TASK_EXIT_NONE : Z := 0.
Definition TASK_EXIT_KILLED : Z := 2.

Definition upd_task (k : kstate) (t : Z) (f : task -> task) : kstate := set_task k t (f (task_at k t)).

(** ** Choosing a slot

    [on_stack i]: some CPU is still on slot [i]'s kernel stack. *)
Definition sched_slot_reusable (k : kstate) (on_stack : Z -> bool) (id : Z) : bool :=
  if (id <=? 0) || (g_max_tasks k <=? id) then false else
  if negb ((task_at k id).(t_state) =? TASK_DEAD) then false else negb (on_stack id).
Definition sched_pick_free_slot (k : kstate) (on_stack : Z -> bool) : option Z :=
  find_index (sched_slot_reusable k on_stack) 1 (Z.to_nat (g_max_tasks k - 1)).

(** ** Birth *)

(** The child runs on its creator's context and at its creator's priority; the
    kernel's own tasks run on the boot CPU's root. *)
Definition bind_creator_context (k : kstate) (id : Z) : kstate :=
  let creator := k.(cur) in
  let by_task := (0 <? creator) && (creator <? g_max_tasks k) in
  let idx := if by_task
             then match task_sc k.(ksched) (g_max_tasks k) creator with
                  | Some _ => zget 0 k.(ksched).(task_sc_index) creator
                  | None => 0
                  end
             else sched_root_index 0 in
  let k := set_sched k (set_task_sc k.(ksched) (zset k.(ksched).(task_sc_index) id idx)) in
  let c := task_at k creator in
  upd_task k id (fun t =>
    t_set_max_priority (t_set_priority t (if by_task then c.(t_priority) else SCHED_PRIO_MAX))
                       (if by_task then c.(t_max_priority) else SCHED_PRIO_MAX)).

(** A new incarnation: the next generation, alive, with no resumable context,
    no signal state and no exit record of its predecessor's. *)
Definition t_reborn (entry stack_top image_base premap_pages : Z) (t : task) : task :=
  let base := if image_base =? 0 then USER_AREA_BASE else image_base in
  let im := t.(t_image) in
  let ip := t.(t_ipc) in
  let t := t_set_image t (mk_image base base premap_pages
             (if stack_top =? 0 then 0 else u64 (stack_top - 256)) entry
             im.(im_heap_start) im.(im_heap_current) im.(im_heap_end) 0 0 0) in
  let t := t_set_state (t_set_slot_gen t (u64 (t.(t_slot_gen) + 1))) TASK_RUNNABLE in
  let t := t_set_runnable_ctx t 0 in
  let t := t_set_ipc t (mk_ipc 0 IPC_NO_CAP ip.(ip_inv_slot) ip.(ip_inv_serial) ip.(ip_reply_buf)
                               ip.(ip_recv_block) ip.(ip_recv_max) None) in
  let t := t_set_sig t (mk_sig 0 0 0 0 0 0 0 t.(t_sig).(sg_frame)) in
  t_set_wait t (mk_wait t.(t_wait).(w_waiter) t.(t_wait).(w_blocked_on_gen) xinfo_zero xinfo_zero).

(** A cspace of its own, with every slot empty.  [inl] of the state when the
    region has no room for it, [inl None] when the kernel's reserve has none
    and the machine halts. *)
Definition birth_cspace (k : kstate) (id untyped_index : Z) : option kstate + kstate :=
  let want_fresh := negb (untyped_index =? UNTYPED_KERNEL) in
  let finish c k :=
    let k := upd_task k id (fun t => t_set_cspace t (Some c) CNODE_SIZE) in
    inr (set_mem k (clear_slots k.(mem) c CNODE_SIZE)) in
  match (task_at k id).(t_cspace), want_fresh with
  | Some c, false => finish c k
  | _, _ =>
      match kobj_alloc k untyped_index KOBJ_CNODE 0 with
      | None => if want_fresh then inl (Some (upd_task k id (fun t => t_set_state t TASK_DEAD)))
                else inl None
      | Some (p, _, k) =>
          finish (CAddr p)
            (set_mem k (<[CAddr p := replicate (Z.to_nat CNODE_SIZE) null_cap]> k.(mem)))
      end
  end.

(** Slots 0, 3 and 4 of every task. *)
Definition birth_own_caps (k : kstate) (id : Z) (c : cref) : kstate :=
  let '(birth0, k) := cap_alloc_fresh_serial k in
  let '(birth3, k) := cap_alloc_fresh_serial k in
  let '(birth4, k) := cap_alloc_fresh_serial k in
  let k := put_cap k (c, 0) (mk_cap CAP_TCB CAP_RIGHT_ALL (tcb_object k id) 0 birth0 0) in
  let k := put_cap k (c, 3)
             (mk_cap CAP_FRAME (CAP_RIGHT_READ + CAP_RIGHT_WRITE + CAP_RIGHT_EXEC)
                     USER_AREA_BASE 0 birth3 0) in
  let rep := reply_ep_for_task id in
  if 0 <=? rep
  then put_cap k (c, 4) (mk_cap CAP_ENDPOINT (CAP_RIGHT_READ + CAP_RIGHT_WRITE) rep 0 birth4 0)
  else k.

(** Task 0 also has the console and the storage. *)
Definition birth_boot_caps (k : kstate) (c : cref) : kstate :=
  let k := put_cap k (c, 8) (mk_cap CAP_CONSOLE CAP_RIGHT_ALL 0 0 0xC0DE0008 0) in
  put_cap k (c, 9) (mk_cap CAP_ENCRYPTED_STORAGE CAP_RIGHT_ALL 0 0 0xC0DE0009 0).

Definition birth_caps (k : kstate) (id : Z) : kstate :=
  match (task_at k id).(t_cspace) with
  | None => k
  | Some c =>
      let k := birth_own_caps k id c in
      if id =? 0 then birth_boot_caps k c else k
  end.

(** [None]: the machine halted because the kernel's reserve is exhausted. *)
Definition create_task (k : kstate) (on_stack : Z -> bool)
    (id entry stack_top image_base premap_pages untyped_index : Z) : option kstate :=
  if g_max_tasks k <=? id then Some k else
  if MAX_UNTYPED <=? untyped_index then Some k else
  if (0 <? id) && negb (sched_slot_reusable k on_stack id) && ((task_at k id).(t_state) =? TASK_DEAD)
  then Some k else
  let k := if 0 <? id then bind_creator_context k id else k in
  let k := upd_task k id (t_reborn entry stack_top image_base premap_pages) in
  match birth_cspace k id untyped_index with
  | inl r => r
  | inr k => Some (birth_caps k id)
  end.

(** ** Spawning *)

(** The creator's administrative capability, passed down as a child of it. *)
Definition spawn_admin_cap (k : kstate) (new_id : Z) : kstate :=
  match cap_lookup k CAPSLOT_USER CAP_USER CAP_RIGHT_ALL with
  | None => k
  | Some l =>
      let '(ser, k) := cap_alloc_fresh_serial k in
      let admin := cap_at k.(mem) l in
      match (task_at k new_id).(t_cspace) with
      | Some c =>
          if admin.(ctype) =? CAP_USER
          then put_cap k (c, 6)
                 (mk_cap CAP_USER CAP_RIGHT_ALL 0
                    (if admin.(serial) =? 0 then 0xC0DE0006 else admin.(serial)) ser 0)
          else k
      | None => k
      end
  end.

Definition wire_end (k : kstate) (child caller psz slot dest right flag : Z) : kstate :=
  if negb (slot =? 0) && (slot <? psz) then
    let '(ok, k) := cap_install_child_pipe_end k child dest caller slot right in
    if ok then upd_task k child (fun t => t_set_stdio_flags t (Z.lor t.(t_stdio_flags) flag)) else k
  else k.
Definition wire_child_stdio (k : kstate) (child caller spec : Z) : kstate :=
  let k := upd_task k child (fun t => t_set_stdio_flags t 0) in
  if spec =? 0 then k else
  if (caller <=? 0) || (g_max_tasks k <=? caller) then k else
  match (task_at k caller).(t_cspace), (task_at k child).(t_cspace) with
  | Some _, Some _ =>
      let psz := task_size (task_at k caller) in
      let in_slot := Z.land spec 0xFFFF in
      let out_slot := Z.land (Z.shiftr spec 16) 0xFFFF in
      let k := wire_end k child caller psz in_slot STDIN_PIPE_SLOT CAP_RIGHT_READ STDIO_STDIN_PIPE in
      wire_end k child caller psz out_slot STDOUT_PIPE_SLOT CAP_RIGHT_WRITE STDIO_STDOUT_PIPE
  | _, _ => k
  end.

Definition grant_child_tcb_cap (k : kstate) (spawner pid : Z) : kstate :=
  if (spawner <=? 0) || (g_max_tasks k <=? spawner) || (pid <=? 0) || (g_max_tasks k <=? pid) then k else
  if negb (spawner =? k.(cur)) then k else
  (cap_install_object_first_free k CAP_DYNAMIC_FLOOR CAP_TCB (tcb_object k pid)
     (CAP_RIGHT_READ + CAP_RIGHT_WRITE + CAP_RIGHT_MINT + CAP_RIGHT_PRIORITY) 0).2.

(** The region a child's cspace comes out of. *)
Definition spawn_untyped_region (k : kstate) : option Z :=
  match cap_lookup k CAPSLOT_UNTYPED CAP_UNTYPED CAP_RIGHT_WRITE with
  | None => None
  | Some l => let o := (cap_at k.(mem) l).(object) in
              if MAX_UNTYPED <=? o then None else Some o
  end.

(** What the loader contributes to a spawn: whether a program is armed, its
    entry, placement and span, and load_staged_image_into's result. *)
Record staged := mk_staged {
  sg_armed : bool; sg_entry : Z; sg_load_base : Z; sg_stack_top : Z; sg_span_pages : Z; sg_load_rc : Z
}.

(** The first frame: every general register 0.  The child is made runnable by
    a later SYS_TASK_RESUME, not here. *)
Definition sched_fabricate_user_frame (k : kstate) (id : Z) : kstate :=
  if (id <? 0) || (g_max_tasks k <=? id) then k else upd_task k id (fun t => t_set_frame t (Some (0, 0))).
Definition sched_spawn_finish (k : kstate) (id : Z) : kstate :=
  if (id <=? 0) || (g_max_tasks k <=? id) then k else upd_task k id (fun t => t_set_runnable_ctx t 0).

(** The new task's slot, or the negative code; [None] when the machine halts. *)
Definition do_spawn_inner (k : kstate) (on_stack : Z -> bool) (img : staged)
    (caller stdio_spec untyped_index : Z) : option (Z * kstate) :=
  if negb img.(sg_armed) then Some (-1, k) else
  match sched_pick_free_slot k on_stack with
  | None => Some (-2, k)
  | Some new_id =>
      match create_task k on_stack new_id (u64 (img.(sg_load_base) + img.(sg_entry)))
              img.(sg_stack_top) img.(sg_load_base) img.(sg_span_pages) untyped_index with
      | None => None
      | Some k =>
          if (task_at k new_id).(t_state) =? TASK_DEAD then Some (-2, k) else
          if negb (img.(sg_load_rc) =? 0)
          then Some (-3, upd_task k new_id (fun t => t_set_state t TASK_DEAD)) else
          let k := spawn_admin_cap k new_id in
          let k := wire_child_stdio k new_id caller stdio_spec in
          Some (new_id, sched_spawn_finish (sched_fabricate_user_frame k new_id) new_id)
      end
  end.

(** ** Forking *)
Definition fork_copy (p c : task) : task :=
  let im := p.(t_image) in
  let c := t_set_ids c p.(t_ids) in
  let c := t_set_image c (mk_image im.(im_base) im.(im_end) im.(im_premap_pages)
             c.(t_image).(im_esp) c.(t_image).(im_eip) im.(im_heap_start) im.(im_heap_current)
             im.(im_heap_end) im.(im_spawn_arg) im.(im_argc) im.(im_argv_ptr)) in
  let sg := c.(t_sig) in
  let c := t_set_sig c (mk_sig p.(t_sig).(sg_handler) sg.(sg_in_signal) sg.(sg_pending)
             p.(t_sig).(sg_mask) p.(t_sig).(sg_alt_sp) p.(t_sig).(sg_alt_size) sg.(sg_on_stack) sg.(sg_frame)) in
  t_set_name c p.(t_name).

(** [has_aspace]: the parent has an address space; [aspace_rc] is
    clone_user_aspace's result; the child starts on a copy of the caller's
    frame, [rbx] of it here, with rax 0. *)
Definition h_fork (k : kstate) (on_stack : Z -> bool) (has_aspace : bool) (aspace_rc rbx : Z)
  : option (Z * kstate) :=
  let parent := k.(cur) in
  if (parent <=? 0) || (g_max_tasks k <=? parent) then Some (rax32 SYS_ERR_INVAL, k) else
  if negb has_aspace then Some (rax32 SYS_ERR_INVAL, k) else
  match spawn_untyped_region k with
  | None => Some (rax32 SYS_ERR_PERM, k)
  | Some untyped_index =>
      match sched_pick_free_slot k on_stack with
      | None => Some (rax32 SYS_ERR_NOMEM, k)
      | Some child =>
          let im := (task_at k parent).(t_image) in
          match create_task k on_stack child im.(im_eip) 0 im.(im_base) im.(im_premap_pages)
                  untyped_index with
          | None => None
          | Some k =>
              if (task_at k child).(t_state) =? TASK_DEAD then Some (rax32 SYS_ERR_NOMEM, k) else
              let die k := upd_task k child (fun t => t_set_state t TASK_DEAD) in
              if negb (aspace_rc =? 0)
              then Some (rax32 (if aspace_rc =? -2 then SYS_ERR_NOMEM else SYS_ERR_INVAL), die k) else
              let k := upd_task k child (fork_copy (task_at k parent)) in
              let '(rc, k) := cap_clone_cspace k parent child in
              if rc <? 0 then Some (rax32 SYS_ERR_NOMEM, die k) else
              let k := grant_child_tcb_cap k parent child in
              Some (child, upd_task k child (fun t => t_set_runnable_ctx (t_set_frame t (Some (0, rbx))) 1))
          end
      end
  end.

(** ** Death *)
Record exit_cause := mk_cause { ec_reason : Z; ec_detail : Z; ec_err : Z; ec_rip : Z; ec_addr : Z }.

(** The name up to its first zero, at most 31 bytes, padded with zeros. *)
Definition exit_name (name : list Z) : list Z :=
  let s := c_string 31 name in
  s ++ replicate (Z.to_nat TASK_NAME_BYTES - length s) 0.

Definition exit_record (id : Z) (cause : option exit_cause) (name : list Z) : exit_info :=
  match cause with
  | Some c => mk_xinfo id c.(ec_reason) c.(ec_detail) c.(ec_err) c.(ec_rip) c.(ec_addr) (exit_name name)
  | None => mk_xinfo id TASK_EXIT_NONE 0 0 0 0 (exit_name name)
  end.

(** The wake owed to the task waiting for this one: the waiter, the generation
    it waited on, the record. *)
Definition teardown_wake : Type := option (Z * Z * exit_info).

Definition task_teardown_body (k : kstate) (id : Z) (cause : option exit_cause)
  : teardown_wake * kstate :=
  if (task_at k id).(t_state) =? TASK_DEAD then (None, k) else
  let rec := exit_record id cause (task_at k id).(t_name) in
  let k := upd_task k id (fun t => t_set_wait t
             (mk_wait t.(t_wait).(w_waiter) t.(t_wait).(w_blocked_on_gen) rec
                      t.(t_wait).(w_wait_exit_info))) in
  let k := pipe_close_task_ends k id in
  let w := (task_at k id).(t_wait).(w_waiter) in
  let owed := (0 <=? w) && (w <? g_max_tasks k) in
  let wake := if owed then Some (w, (task_at k id).(t_slot_gen), rec) else None in
  let k := if owed
           then upd_task k id (fun t => t_set_wait t
                  (mk_wait (-1) t.(t_wait).(w_blocked_on_gen) t.(t_wait).(w_exit_info)
                           t.(t_wait).(w_wait_exit_info)))
           else k in
  let k := upd_task k id (fun t => t_set_sig t
             (mk_sig 0 0 t.(t_sig).(sg_pending) t.(t_sig).(sg_mask) 0 0 0 t.(t_sig).(sg_frame))) in
  let k := upd_task k id (fun t => t_set_frame (t_set_runnable_ctx (t_set_state t TASK_DEAD) 0) None) in
  (wake, cap_release_cspace_and_collect k id).

Definition task_teardown (k : kstate) (id : Z) (cause : option exit_cause) : kstate :=
  if (id <=? 0) || (g_max_tasks k <=? id) then k else
  match task_teardown_body k id cause with
  | (None, k) => k
  | (Some (w, gen, rec), k) =>
      let t := task_at k w in
      if (t.(t_state) =? TASK_BLOCKED_WAIT) && (t.(t_blocked_on) =? id)
         && (t.(t_wait).(w_blocked_on_gen) =? gen)
      then upd_task k w (fun t => t_wake (t_set_wait t
             (mk_wait t.(t_wait).(w_waiter) t.(t_wait).(w_blocked_on_gen)
                      t.(t_wait).(w_exit_info) rec)))
      else k
  end.
