(* ===== verification/CapSys.v ===== *)
(** The capability system calls (src/src/kernel/syscall.c: h_cap_mint,
    h_cap_mint_token, h_cap_transfer, h_cap_move, h_cap_revoke, h_cap_grant,
    h_kill and the check that authorises acting on another task).  The audit log they write is not
    modelled. *)
From S2P Require Import Prelude KTypes CapCore CapRevoke Pipe SchedCtx KState Untyped CSpace PipeSys Retype TaskLife.

(** The handlers' two ways of reporting a refusal: -1 in the 64-bit rax, or an
    error code in its low half. *)
Definition RAX_FAIL : Z := U64_MAX.

Definition h_cap_mint (k : kstate) (rbx rcx rdx : Z) : Z * kstate :=
  let '(ok, k) := cap_mint k (u32 rbx) (u32 rcx) (u32 rdx) in (if ok then 0 else RAX_FAIL, k).
Definition h_cap_mint_token (k : kstate) (rbx rcx rdx rsi : Z) : Z * kstate :=
  let '(ok, k) := cap_mint_token k (u32 rbx) (u32 rcx) (u32 rdx) rsi in
  (if ok then 0 else rax32 SYS_ERR_PERM, k).
Definition h_cap_transfer (k : kstate) (rbx rcx : Z) : Z * kstate :=
  let '(ok, k) := cap_transfer k (u32 rbx) (u32 rcx) in (if ok then 0 else RAX_FAIL, k).
Definition h_cap_move (k : kstate) (rbx rcx : Z) : Z * kstate :=
  let '(ok, k) := cap_move k (u32 rbx) (u32 rcx) in (if ok then 0 else RAX_FAIL, k).
Definition h_cap_revoke (k : kstate) (rbx : Z) : Z * kstate :=
  let '(ok, k) := cap_revoke k (u32 rbx) in (if ok then 0 else RAX_FAIL, k).

(** ** Authority over another task

    The handlers run under the spawn lock, so the check and the act see one
    incarnation of the target. *)
Definition task_tcb_held (k : kstate) (target need : Z) : bool :=
  let c := k.(cur) in
  if (c <=? 0) || (g_max_tasks k <=? c) then false else
  if (target <? 0) || (g_max_tasks k <=? target) then false else
  match (cur_task k).(t_cspace) with
  | None => false
  | Some cs =>
      let want := tcb_object k target in
      existsb (fun s => let x := cap_at k.(mem) (cs, s) in
                 (x.(ctype) =? CAP_TCB) && has_bits x.(rights) need && (x.(object) =? want))
              (seqZ 0 (cur_task k).(t_cspace_size))
  end.

Definition task_kill_authorized (k : kstate) (target : Z) : bool :=
  let c := k.(cur) in
  if (c <=? 0) || (g_max_tasks k <=? c) then false else
  match cap_lookup k CAPSLOT_USER CAP_USER CAP_RIGHT_ALL with
  | Some _ => true
  | None => task_tcb_held k target CAP_RIGHT_WRITE
  end.

Definition h_kill_locked (k : kstate) (rbx : Z) : Z * kstate :=
  let target := s32 rbx in
  if (target <=? 0) || (g_max_tasks k <=? target) || ((task_at k target).(t_state) =? TASK_DEAD)
  then (rax32 SYS_ERR_INVAL, k) else
  if negb (task_kill_authorized k target) then (rax32 SYS_ERR_PERM, k) else
  (0, task_teardown k target (Some (mk_cause TASK_EXIT_KILLED (u32 k.(cur)) 0 0 0))).

Definition h_cap_grant_locked (k : kstate) (rbx rcx rdx : Z) : Z * kstate :=
  let target := s32 rbx in
  let src_slot := u32 rcx in
  let dest_slot := u32 rdx in
  if (target <=? 0) || (g_max_tasks k <=? target) || (target =? k.(cur))
     || ((task_at k target).(t_state) =? TASK_DEAD) then (rax32 SYS_ERR_INVAL, k) else
  if (CNODE_SIZE <=? src_slot) || (CNODE_SIZE <=? dest_slot) then (rax32 SYS_ERR_INVAL, k) else
  match (cur_task k).(t_cspace), (task_at k target).(t_cspace) with
  | Some _, Some _ =>
      if negb (task_kill_authorized k target) then (rax32 SYS_ERR_PERM, k) else
      match cap_lookup k src_slot CAP_ANYTYPE 0 with
      | None => (rax32 SYS_ERR_NOENT, k)
      | Some l =>
          if (cap_at k.(mem) l).(ctype) =? CAP_NULL then (rax32 SYS_ERR_NOENT, k) else
          let '(ok, k) := cap_grant_from_user k target dest_slot src_slot CAP_RIGHT_ALL in
          (if ok then 0 else rax32 SYS_ERR_PERM, k)
      end
  | _, _ => (rax32 SYS_ERR_INVAL, k)
  end.
