(* ===== verification/Ipc.v ===== *)
(** Inter-process communication (src/src/kernel/syscall_ipc.c): sending to and
    receiving from an endpoint, call and reply, notifications, and the step
    that turns an intention to block into a published waiter.  Every section
    under the endpoint lock is part of one step of the handler that takes it.

    User memory is outside the state.  A handler is given what copy_from_user
    finds and whether each copy succeeds, and returns the copies it makes into
    tasks' memory. *)
From S2P Require Import Prelude KTypes CapCore CapRevoke Pipe SchedCtx KState Endpoint Untyped CSpace PipeSys Retype TaskLife CapSys.

Definition IPC_AGAIN : Z := -2.
Definition rax64 (n : Z) : Z := u64 n.

(** ** User memory *)
Record uenv := mk_uenv { ue_src : Z -> Z; ue_in : bool; ue_out : bool }.
Record ucopy := mk_copy { cp_task : Z; cp_addr : Z; cp_bytes : list Z }.
Definition from_user (u : uenv) (len : Z) : list Z := u.(ue_src) <$> seqZ 0 len.

(** ** Fields of a task's pending IPC *)
Definition ip_set_pending (ip : ipc_state) x := mk_ipc x ip.(ip_cap_recv_slot) ip.(ip_inv_slot)
  ip.(ip_inv_serial) ip.(ip_reply_buf) ip.(ip_recv_block) ip.(ip_recv_max) ip.(ip_frame).
Definition ip_set_mint (ip : ipc_state) slot inv ser := mk_ipc ip.(ip_pending_block) slot inv
  ser ip.(ip_reply_buf) ip.(ip_recv_block) ip.(ip_recv_max) ip.(ip_frame).
Definition ip_set_recv_slot (ip : ipc_state) x := ip_set_mint ip x ip.(ip_inv_slot) ip.(ip_inv_serial).
Definition ip_set_reply_buf (ip : ipc_state) x := mk_ipc ip.(ip_pending_block) ip.(ip_cap_recv_slot)
  ip.(ip_inv_slot) ip.(ip_inv_serial) x ip.(ip_recv_block) ip.(ip_recv_max) ip.(ip_frame).
Definition ip_set_recv_block (ip : ipc_state) x := mk_ipc ip.(ip_pending_block) ip.(ip_cap_recv_slot)
  ip.(ip_inv_slot) ip.(ip_inv_serial) ip.(ip_reply_buf) x ip.(ip_recv_max) ip.(ip_frame).
Definition ip_set_recv_max (ip : ipc_state) x := mk_ipc ip.(ip_pending_block) ip.(ip_cap_recv_slot)
  ip.(ip_inv_slot) ip.(ip_inv_serial) ip.(ip_reply_buf) ip.(ip_recv_block) x ip.(ip_frame).
Definition upd_ipc (k : kstate) (t : Z) (f : ipc_state -> ipc_state) : kstate :=
  upd_task k t (fun x => t_set_ipc x (f x.(t_ipc))).
(** A write to rax of the saved frame, which exists. *)
Definition set_frame_rax (k : kstate) (t rax : Z) : kstate :=
  upd_task k t (fun x => t_set_frame x ((fun f => (rax, f.2)) <$> x.(t_ipc).(ip_frame))).
Definition wake (k : kstate) (t : Z) : kstate := upd_task k t t_wake.
Definition wake_unblock (k : kstate) (t : Z) : kstate :=
  upd_task k t (fun x => t_set_blocked_on (t_wake x) (-1)).

(** ** Objects by index (untyped.c) *)
Definition endpoint_by_index (k : kstate) (idx : Z) : option endpoint :=
  if idx <? MAX_ENDPOINTS then Some (zget ep_fresh k.(endpoints) idx) else
  if EP_INDEX_MAX <=? idx then None else
  ks_obj (zget kslot_zero k.(dyn_eps) (idx - DYN_EP_BASE)).
Definition notification_by_index (k : kstate) (idx : Z) : option notification :=
  if idx <? MAX_NOTIFICATIONS then Some (zget notif_fresh k.(notifications) idx) else
  if NOTIF_INDEX_MAX <=? idx then None else
  ks_obj (zget kslot_zero k.(dyn_notifs) (idx - DYN_NOTIF_BASE)).

(** A write through the pointer the lookup returned. *)
Definition put_endpoint (k : kstate) (idx : Z) (e : endpoint) : kstate :=
  if idx <? MAX_ENDPOINTS then set_endpoints k (zset k.(endpoints) idx e) else
  let i := idx - DYN_EP_BASE in
  set_dyn_eps k (zset k.(dyn_eps) i (ks_set_obj (zget kslot_zero k.(dyn_eps) i) e)).
Definition put_notification (k : kstate) (idx : Z) (n : notification) : kstate :=
  if idx <? MAX_NOTIFICATIONS then set_notifications k (zset k.(notifications) idx n) else
  let i := idx - DYN_NOTIF_BASE in
  set_dyn_notifs k (zset k.(dyn_notifs) i (ks_set_obj (zget kslot_zero k.(dyn_notifs) i) n)).

(** The object a signed index names, none for a negative one. *)
Definition endpoint_or_none (k : kstate) (i : Z) : option endpoint :=
  if i <? 0 then None else endpoint_by_index k (u32 i).
Definition notification_or_none (k : kstate) (i : Z) : option notification :=
  if i <? 0 then None else notification_by_index k (u32 i).

(** ** Capabilities to objects *)
Definition ipc_ep_from_slot (k : kstate) (slot need_rights : Z) : option Z :=
  match cap_lookup_ipc_object k slot CAP_ENDPOINT need_rights EP_INDEX_MAX with
  | None => None
  | Some ep => match endpoint_by_index k ep with None => None | Some _ => Some ep end
  end.
Definition ipc_notif_from_slot (k : kstate) (slot need_rights : Z) : option Z :=
  match cap_lookup_ipc_object k slot CAP_NOTIFICATION need_rights NOTIF_INDEX_MAX with
  | None => None
  | Some n => match notification_by_index k n with None => None | Some _ => Some n end
  end.

(** The endpoint, what it is invoked through, and the serial of the capability. *)
Definition ipc_ep_and_invoker (k : kstate) (slot need_rights : Z) : option (Z * ipc_invoker * Z) :=
  match cap_lookup k slot CAP_ENDPOINT need_rights with
  | None => None
  | Some l =>
      let c := cap_at k.(mem) l in
      if EP_INDEX_MAX <=? c.(object) then None else
      let ep := u32 c.(object) in
      match endpoint_by_index k ep with
      | None => None
      | Some _ => Some (ep, mk_invoker c.(token) c.(rights) 0 0 0, c.(serial))
      end
  end.

(** ** Sending *)

(** The snapshot both directions take of the caller's slot 3 before the lock. *)
Definition ipc_auth (k : kstate) (right : Z) : cap_snapshot_t :=
  cap_snapshot ((fun l => cap_at k.(mem) l) <$> cap_lookup k 3 CAP_ANYTYPE right).
Definition auth_stale (k : kstate) (auth : cap_snapshot_t) (right : Z) : bool :=
  auth.(sn_valid) && bool_decide (cap_revalidate k 3 right auth = None).

(** The copy into a blocked task's buffer. *)
Definition reply_copy (k : kstate) (t : Z) (bytes : list Z) : list ucopy :=
  let buf := (task_at k t).(t_ipc).(ip_reply_buf) in
  if bool_decide (bytes <> []) && negb (buf =? 0) then [mk_copy t buf bytes] else [].

(** Hand a message straight to the task waiting on the endpoint. *)
Definition ipc_send_to_waiter (k : kstate) (ep : Z) (e : endpoint) (waiter : Z) (u : uenv) (len : Z)
    (inv : option ipc_invoker) : Z * list ucopy * kstate :=
  let ip := (task_at k waiter).(t_ipc) in
  let recv_wait := negb (ip.(ip_recv_block) =? 0) in
  let len := if recv_wait && (ip.(ip_recv_max) <? len) then ip.(ip_recv_max) else len in
  if (0 <? len) && negb u.(ue_in) then (-1, [], k) else
  let kbuf := from_user u len in
  let copies := reply_copy k waiter kbuf in
  match ip.(ip_frame) with
  | None => (-1, copies, k)
  | Some _ =>
      let k := set_frame_rax k waiter (u32 len) in
      let finish k e :=
        (0, copies, wake_unblock (put_endpoint k ep (ep_set_waiter e (-1))) waiter) in
      if recv_wait then
        let s := k.(cur) in
        let gen := (task_at k s).(t_slot_gen) in
        let e := ep_set_last e s gen (default ipc_no_invoker inv) in
        let k := upd_ipc (put_endpoint k ep e) waiter (fun ip => ip_set_recv_block ip 0) in
        let '(ok, k) := cap_install_reply_for k waiter s gen in
        if ok then finish k e else (-1, copies, k)
      else finish k e
  end.

Definition sys_ipc_send_locked (k : kstate) (auth : cap_snapshot_t) (ep : Z) (e : endpoint) (u : uenv)
    (len : Z) (inv : option ipc_invoker) : Z * list ucopy * kstate :=
  let waiter := e.(ep_blocked_waiter) in
  if (0 <? waiter) && (waiter <? g_max_tasks k)
     && ((task_at k waiter).(t_state) =? TASK_BLOCKED_IPC) && ep_empty e
  then if auth_stale k auth CAP_RIGHT_WRITE then (-1, [], k)
       else ipc_send_to_waiter k ep e waiter u len inv
  else
  if ep_full e then (-2, [], k) else
  if auth_stale k auth CAP_RIGHT_WRITE then (-1, [], k) else
  if (0 <? len) && negb u.(ue_in) then (-1, [], k) else
  (0, [], put_endpoint k ep (ep_enqueue k e (from_user u len) len k.(cur) inv)).

Definition sys_ipc_send (k : kstate) (ep : Z) (u : uenv) (len : Z) (inv : option ipc_invoker)
  : Z * list ucopy * kstate :=
  match endpoint_by_index k ep with
  | None => (-1, [], k)
  | Some e =>
      let len := if IPC_MSG_MAX <? len then IPC_MSG_MAX else len in
      sys_ipc_send_locked k (ipc_auth k CAP_RIGHT_WRITE) ep e u len inv
  end.
Definition sys_ipc_reply (k : kstate) (ep : Z) (u : uenv) (len : Z) := sys_ipc_send k ep u len None.

(** ** Receiving *)
Definition sys_ipc_recv (k : kstate) (ep : Z) (u : uenv) (msg max_len : Z) : Z * list ucopy * kstate :=
  match endpoint_by_index k ep with
  | None => (-1, [], k)
  | Some e =>
      let auth := ipc_auth k CAP_RIGHT_READ in
      if ep_empty e then (-2, [], k) else
      if auth_stale k auth CAP_RIGHT_READ then (-1, [], k) else
      let '(d, e) := ep_dequeue e (s32 max_len) in
      if (0 <? d.(dq_len)) && negb u.(ue_out) then (-1, [], put_endpoint k ep e) else
      let copies := if 0 <? d.(dq_len) then [mk_copy k.(cur) msg d.(dq_data)] else [] in
      let k := put_endpoint k ep (ep_set_last e d.(dq_sender) d.(dq_sender_gen) d.(dq_inv)) in
      let s := d.(dq_sender) in
      let k := if (0 <? s) && (s <? g_max_tasks k)
               then (cap_install_object k CAPSLOT_REPLY CAP_REPLY (reply_object s d.(dq_sender_gen))
                       CAP_RIGHT_WRITE 0).2
               else k in
      (d.(dq_len), copies, k)
  end.

(** ** The handlers

    The arguments are the registers of the call; a result is rax, the copies
    and the state. *)
Definition h_ipc_send (k : kstate) (rbx rdx : Z) (u : uenv) : Z * list ucopy * kstate :=
  match ipc_ep_and_invoker k (u32 rbx) CAP_RIGHT_WRITE with
  | None => (rax32 SYS_ERR_PERM, [], k)
  | Some (ep, inv, _) => let '(rc, cs, k) := sys_ipc_send k ep u (u64 rdx) (Some inv) in (rax64 rc, cs, k)
  end.

(** The checks of a call: the endpoint with the record sent, and the serial of
    the capability it goes through; or the error. *)
Definition ipc_call_check (k : kstate) (send_slot recv_slot carry_slot : Z)
  : Z + (Z * ipc_invoker * Z) :=
  match ipc_ep_and_invoker k send_slot CAP_RIGHT_WRITE with
  | None => inl SYS_ERR_PERM
  | Some (send_ep, inv, ser) =>
      let carried :=
        if carry_slot =? IPC_NO_CAP then Some inv else
        match ipc_ep_and_invoker k carry_slot 0 with
        | Some (carry_ep, cinv, _) =>
            if negb (carry_ep =? send_ep) then None
            else Some (mk_invoker inv.(inv_token) inv.(inv_rights) 1 cinv.(inv_token) cinv.(inv_rights))
        | None => None
        end in
      match carried with
      | None => inl SYS_ERR_PERM
      | Some inv =>
          if negb (recv_slot =? IPC_NO_CAP)
             && ((recv_slot <? KERNEL_RESERVED_CAPS) || (cur_size k <=? recv_slot)
                 || (recv_slot =? CAPSLOT_REPLY))
          then inl SYS_ERR_INVAL
          else if reply_ep_for_task k.(cur) <? 0 then inl (-1)
          else inr (send_ep, inv, ser)
      end
  end.

Definition ipc_call_common (k : kstate) (send_slot : Z) (u : uenv) (send_len reply_buf recv_slot carry_slot : Z)
  : Z * list ucopy * kstate :=
  match ipc_call_check k send_slot recv_slot carry_slot with
  | inl err => (rax32 err, [], k)
  | inr (send_ep, inv, ser) =>
      let c := k.(cur) in
      let k := upd_task k c (fun t => t_set_blocked_on (t_set_ipc t
                 (ip_set_pending (ip_set_reply_buf (ip_set_mint t.(t_ipc) recv_slot send_slot ser)
                    reply_buf) TASK_BLOCKED_IPC)) (reply_ep_for_task c)) in
      let '(rc, cs, k) := sys_ipc_send k send_ep u send_len (Some inv) in
      if rc <? 0 then
        (rax32 rc, cs, upd_task k c (fun t => t_set_blocked_on (t_set_ipc t
           (ip_set_recv_slot (ip_set_reply_buf (ip_set_pending t.(t_ipc) 0) 0) IPC_NO_CAP)) (-1)))
      else (0, cs, k)
  end.
Definition h_ipc_call (k : kstate) (rbx rsi rdi : Z) (u : uenv) : Z * list ucopy * kstate :=
  ipc_call_common k (u32 rbx) u (u64 rsi) (u64 rdi) IPC_NO_CAP IPC_NO_CAP.
Definition h_ipc_call_cap (k : kstate) (rbx rcx rsi rdi r8 : Z) (u : uenv) : Z * list ucopy * kstate :=
  ipc_call_common k (u32 rbx) u (u64 rsi) (u64 rdi) (u32 rcx) (u32 r8).

Definition h_ipc_recv (k : kstate) (rbx rcx rdx : Z) (u : uenv) : Z * list ucopy * kstate :=
  match ipc_ep_from_slot k (u32 rbx) CAP_RIGHT_READ with
  | None => (rax32 SYS_ERR_PERM, [], k)
  | Some ep => let '(rc, cs, k) := sys_ipc_recv k ep u (u64 rcx) rdx in (rax64 rc, cs, k)
  end.

(** The receive loop goes round again when the queue was emptied under it.
    [None] is out of fuel. *)
Fixpoint recv_block_loop (fuel : nat) (k : kstate) (ep rcx rdx : Z) (u : uenv) (acc : list ucopy)
  : option (Z * list ucopy * kstate) :=
  match fuel, endpoint_by_index k ep with
  | O, _ | _, None => None
  | S fuel, Some e =>
      if negb (ep_empty e) then
        let '(rc, cs, k) := sys_ipc_recv k ep u (u64 rcx) rdx in
        if rc =? -2 then recv_block_loop fuel k ep rcx rdx u (acc ++ cs)
        else Some (rax32 rc, acc ++ cs, k)
      else
        Some (0, acc, upd_task k k.(cur) (fun t => t_set_blocked_on (t_set_ipc t
               (ip_set_pending (ip_set_recv_block (ip_set_recv_max (ip_set_reply_buf t.(t_ipc) (u64 rcx))
                  (u32 rdx)) 1) TASK_BLOCKED_IPC)) (s32 ep)))
  end.
Definition RECV_BLOCK_FUEL : nat := 5.
Definition h_ipc_recv_block (k : kstate) (rbx rcx rdx : Z) (u : uenv) : option (Z * list ucopy * kstate) :=
  match ipc_ep_from_slot k (u32 rbx) CAP_RIGHT_READ with
  | None => Some (rax32 SYS_ERR_PERM, [], k)
  | Some ep =>
      if (k.(cur) <=? 0) || (g_max_tasks k <=? k.(cur)) then Some (rax32 (-1), [], k) else
      recv_block_loop RECV_BLOCK_FUEL k ep rcx rdx u []
  end.

Definition h_ipc_reply (k : kstate) (rbx rdx : Z) (u : uenv) : Z * list ucopy * kstate :=
  match ipc_ep_from_slot k (u32 rbx) CAP_RIGHT_WRITE with
  | None => (rax32 SYS_ERR_PERM, [], k)
  | Some ep => let '(rc, cs, k) := sys_ipc_reply k ep u (u64 rdx) in (rax64 rc, cs, k)
  end.

(** Who sent the message being serviced: the copies of the gid and the pid,
    each 4 bytes and each with its own outcome. *)
Definition le32 (x : Z) : list Z :=
  (fun i => Z.land (Z.shiftr x (8 * i)) 0xFF) <$> [0; 1; 2; 3].
Definition h_ipc_sender (k : kstate) (rbx rcx rdx : Z) (gid_ok pid_ok : bool) : Z * list ucopy :=
  let fail := rax32 (-1) in
  match ipc_ep_from_slot k (u32 rbx) CAP_RIGHT_READ with
  | None => (fail, [])
  | Some ep =>
      match endpoint_by_index k ep with
      | None => (fail, [])
      | Some e =>
          let t := e.(ep_last_sender) in
          if (t <=? 0) || (g_max_tasks k <=? t) || ((task_at k t).(t_state) =? TASK_DEAD)
          then (fail, []) else
          if negb ((task_at k t).(t_slot_gen) =? e.(ep_last_sender_gen)) then (fail, []) else
          let gid := (task_at k t).(t_ids).(id_gid) in
          if negb (rcx =? 0) && negb gid_ok then (fail, []) else
          let cs := if rcx =? 0 then [] else [mk_copy k.(cur) rcx (le32 gid)] in
          if negb (rdx =? 0) && negb pid_ok then (fail, cs) else
          let cs := if rdx =? 0 then cs else cs ++ [mk_copy k.(cur) rdx (le32 (u32 t))] in
          ((task_at k t).(t_ids).(id_uid), cs)
      end
  end.

(** The invoker record copied out, when it is. *)
Definition h_ipc_invoker (k : kstate) (rbx : Z) (copied : bool) : Z * option ipc_invoker :=
  match ipc_ep_from_slot k (u32 rbx) CAP_RIGHT_READ with
  | None => (rax32 SYS_ERR_PERM, None)
  | Some ep =>
      match endpoint_by_index k ep with
      | None => (rax32 SYS_ERR_PERM, None)
      | Some e => if negb copied then (rax32 SYS_ERR_FAULT, None) else (0, Some e.(ep_last_invoker))
      end
  end.

(** ** Replying *)

(** Wake the blocked caller [t] with the reply in hand. *)
Definition reply_deliver (k : kstate) (t : Z) (kbuf : list Z) : Z * list ucopy * kstate :=
  let copies := reply_copy k t kbuf in
  match (task_at k t).(t_ipc).(ip_frame) with
  | None => (rax32 (-1), copies, k)
  | Some _ =>
      let k := set_frame_rax k t (u32 (zlen kbuf)) in
      let rep := (task_at k t).(t_blocked_on) in
      let k := match endpoint_or_none k rep with
               | Some e => if e.(ep_blocked_waiter) =? t
                           then put_endpoint k (u32 rep) (ep_set_waiter e (-1)) else k
               | None => k
               end in
      let k := wake_unblock k t in
      (0, copies, (cap_consume_slot k CAPSLOT_REPLY).2)
  end.

(** [mint] is the rights and the token of a capability minted with the reply. *)
Definition ipc_reply_common (k : kstate) (rbx rdx : Z) (u : uenv) (mint : option (Z * Z))
  : Z * list ucopy * kstate :=
  match ipc_ep_from_slot k (u32 rbx) CAP_RIGHT_READ with
  | None => (rax32 SYS_ERR_PERM, [], k)
  | Some req_ep =>
      let len := if IPC_MSG_MAX <? u64 rdx then IPC_MSG_MAX else u64 rdx in
      match cap_lookup k CAPSLOT_REPLY CAP_REPLY CAP_RIGHT_WRITE with
      | None => (rax32 SYS_ERR_PERM, [], k)
      | Some l =>
          let obj := (cap_at k.(mem) l).(object) in
          let t := Z.land obj TCB_OBJ_TID_MASK in
          let t_gen := Z.shiftr obj TCB_OBJ_TID_BITS in
          let drop_reply := (0, [], (cap_consume_slot k CAPSLOT_REPLY).2) in
          let tk := task_at k t in
          let ip := tk.(t_ipc) in
          if (t <=? 0) || (g_max_tasks k <=? t) || (tk.(t_state) =? TASK_DEAD)
             || negb (tk.(t_slot_gen) =? t_gen) then drop_reply else
          if negb (tk.(t_state) =? TASK_BLOCKED_IPC) || negb (ip.(ip_recv_block) =? 0) then
            if (ip.(ip_pending_block) =? TASK_BLOCKED_IPC) && (ip.(ip_recv_block) =? 0)
            then (rax32 IPC_AGAIN, [], k) else drop_reply
          else
          if (0 <? len) && negb u.(ue_in) then (rax32 (-1), [], k) else
          let kbuf := from_user u len in
          match mint with
          | None => reply_deliver k t kbuf
          | Some (rts, tok) =>
              if ip.(ip_cap_recv_slot) =? IPC_NO_CAP then (rax32 SYS_ERR_PERM, [], k) else
              let '(ok, k) := cap_reply_mint_into k t ip.(ip_inv_slot) ip.(ip_inv_serial) req_ep
                                ip.(ip_cap_recv_slot) rts tok in
              if ok then reply_deliver k t kbuf else (rax32 SYS_ERR_PERM, [], k)
          end
      end
  end.
Definition h_ipc_reply_to (k : kstate) (rbx rdx : Z) (u : uenv) : Z * list ucopy * kstate :=
  ipc_reply_common k rbx rdx u None.
Definition h_ipc_reply_cap (k : kstate) (rbx rdx rsi rdi : Z) (u : uenv) : Z * list ucopy * kstate :=
  ipc_reply_common k rbx rdx u (Some (u32 rsi, u64 rdi)).

(** ** Notifications *)
Definition sys_notify (k : kstate) (idx badge : Z) : Z * kstate :=
  match notification_by_index k idx with
  | None => (-1, k)
  | Some n =>
      let b := Z.lor n.(nt_pending_badge) (u32 badge) in
      let waiter := n.(nt_blocked_waiter) in
      if (0 <? waiter) && (waiter <? g_max_tasks k)
         && ((task_at k waiter).(t_state) =? TASK_BLOCKED_NOTIF)
      then
        let k := put_notification k idx (mk_notif 0 (-1)) in
        let k := upd_task k waiter (fun t => t_set_frame t ((fun _ => (0, b)) <$> t.(t_ipc).(ip_frame))) in
        (0, wake k waiter)
      else (0, put_notification k idx (mk_notif b waiter))
  end.

(** rax, the badge, the state. *)
Definition sys_wait_notify (k : kstate) (idx : Z) : Z * Z * kstate :=
  match notification_by_index k idx with
  | None => (-1, 0, k)
  | Some n =>
      if negb (n.(nt_pending_badge) =? 0)
      then (0, n.(nt_pending_badge), put_notification k idx (mk_notif 0 n.(nt_blocked_waiter)))
      else (0, 0, upd_task k k.(cur) (fun t => t_set_blocked_on_notif
              (t_set_ipc t (ip_set_pending t.(t_ipc) TASK_BLOCKED_NOTIF)) (s32 idx)))
  end.
Definition sys_poll_notify (k : kstate) (idx : Z) : Z * Z * kstate :=
  match notification_by_index k idx with
  | None => (-1, 0, k)
  | Some n =>
      if negb (n.(nt_pending_badge) =? 0)
      then (0, n.(nt_pending_badge), put_notification k idx (mk_notif 0 n.(nt_blocked_waiter)))
      else (IPC_AGAIN, 0, k)
  end.

Definition h_notify (k : kstate) (rbx rcx : Z) : Z * kstate :=
  match ipc_notif_from_slot k (u32 rbx) CAP_RIGHT_WRITE with
  | None => (rax32 SYS_ERR_PERM, k)
  | Some ns => let '(rc, k) := sys_notify k ns rcx in (rax64 rc, k)
  end.
Definition h_wait_notify (k : kstate) (rbx : Z) : Z * Z * kstate :=
  match ipc_notif_from_slot k (u32 rbx) CAP_RIGHT_READ with
  | None => (rax32 SYS_ERR_PERM, 0, k)
  | Some ns => let '(rc, b, k) := sys_wait_notify k ns in (rax64 rc, b, k)
  end.
Definition h_poll_notify (k : kstate) (rbx : Z) : Z * Z * kstate :=
  match ipc_notif_from_slot k (u32 rbx) CAP_RIGHT_READ with
  | None => (rax32 SYS_ERR_PERM, 0, k)
  | Some ns => let '(rc, b, k) := sys_poll_notify k ns in (rax32 rc, b, k)
  end.

(** ** Blocking

    [true]: the task is off the CPU until a waker finds it.  A receiver that
    finds a message after all takes it here. *)
Definition give_up_block (k : kstate) (c : Z) : kstate :=
  wake (upd_ipc k c (fun ip => ip_set_recv_block (ip_set_pending ip 0) 0)) c.
Definition publish_ipc (k : kstate) (c : Z) : bool * list ucopy * kstate :=
  let reply_ep := (task_at k c).(t_blocked_on) in
  match endpoint_or_none k reply_ep with
  | None => (false, [], give_up_block k c)
  | Some e =>
      let ep := u32 reply_ep in
      let k := upd_ipc k c (fun ip => ip_set_pending ip 0) in
      let ip := (task_at k c).(t_ipc) in
      if negb (ep_empty e) then
        let recv_wait := negb (ip.(ip_recv_block) =? 0) in
        let '(d, e) := ep_dequeue e (if recv_wait then s32 ip.(ip_recv_max) else IPC_MSG_MAX) in
        let copies := reply_copy k c d.(dq_data) in
        let s := d.(dq_sender) in
        let k := put_endpoint k ep (ep_set_last e s d.(dq_sender_gen) d.(dq_inv)) in
        let k := set_frame_rax k c (u32 d.(dq_len)) in
        let k := if recv_wait && (0 <? s) && (s <? g_max_tasks k)
                 then (cap_install_reply_for k c s d.(dq_sender_gen)).2 else k in
        (false, copies, upd_ipc (wake_unblock k c) c (fun ip => ip_set_recv_block ip 0))
      else
        let k := put_endpoint k ep (ep_set_waiter e c) in
        (true, [], upd_task k c (fun t => t_set_runnable_ctx (t_set_state t TASK_BLOCKED_IPC) 0))
  end.
Definition publish_wait (k : kstate) (c : Z) : bool * kstate :=
  let tk := task_at k c in
  let tid := tk.(t_blocked_on) in
  let k1 := upd_ipc k c (fun ip => ip_set_pending ip 0) in
  if (tid <? 0) || (g_max_tasks k <=? tid) || ((task_at k tid).(t_state) =? TASK_DEAD)
     || negb ((task_at k tid).(t_slot_gen) =? tk.(t_wait).(w_blocked_on_gen))
  then (false, wake_unblock (set_frame_rax k1 c 0) c)
  else
    let k2 := upd_task k1 tid (fun t => t_set_wait t
                (mk_wait c t.(t_wait).(w_blocked_on_gen) t.(t_wait).(w_exit_info)
                         t.(t_wait).(w_wait_exit_info))) in
    (true, upd_task k2 c (fun t => t_set_runnable_ctx (t_set_state t TASK_BLOCKED_WAIT) 0)).
Definition publish_notif (k : kstate) (c : Z) : bool * kstate :=
  let slot := (task_at k c).(t_blocked_on_notif) in
  match notification_or_none k slot with
  | None => (false, give_up_block k c)
  | Some n =>
      let k := upd_ipc k c (fun ip => ip_set_pending ip 0) in
      if negb (n.(nt_pending_badge) =? 0) then
        let k := put_notification k (u32 slot) (mk_notif 0 n.(nt_blocked_waiter)) in
        let k := upd_task k c (fun t => t_set_frame t ((fun _ => (0, n.(nt_pending_badge))) <$> t.(t_ipc).(ip_frame))) in
        (false, wake k c)
      else
        let k := put_notification k (u32 slot) (mk_notif n.(nt_pending_badge) c) in
        (true, upd_task k c (fun t => t_set_runnable_ctx (t_set_state t TASK_BLOCKED_NOTIF) 0))
  end.

Definition ipc_publish_pending_block (k : kstate) (c : Z) : bool * list ucopy * kstate :=
  if (c <=? 0) || (g_max_tasks k <=? c) then (false, [], k) else
  let kind := (task_at k c).(t_ipc).(ip_pending_block) in
  if kind =? 0 then (false, [], k) else
  match (task_at k c).(t_ipc).(ip_frame) with
  | None => (false, [], give_up_block k c)
  | Some _ =>
      if kind =? TASK_BLOCKED_IPC then publish_ipc k c else
      if kind =? TASK_BLOCKED_WAIT then let '(b, k) := publish_wait k c in (b, [], k) else
      if kind =? TASK_BLOCKED_NOTIF then let '(b, k) := publish_notif k c in (b, [], k) else
      (false, [], wake (upd_ipc k c (fun ip => ip_set_pending ip 0)) c)
  end.

(** The end of a system call that leaves its caller blocked: the frame is
    saved before the block is published.  Choosing the next task is the
    scheduler's. *)
Definition ipc_block_switch (k : kstate) (c rax rbx : Z) : bool * list ucopy * kstate :=
  if (c <=? 0) || (g_max_tasks k <=? c) then (false, [], k) else
  let k := upd_task k c (fun t => t_set_frame t (Some (rax, rbx))) in
  if negb ((task_at k c).(t_ipc).(ip_pending_block) =? 0) then ipc_publish_pending_block k c
  else (true, [], upd_task k c (fun t => t_set_runnable_ctx t 0)).

(** What interrupt_handler64 does when a system call returns (idt.c). *)
Definition syscall_exit_blocks (k : kstate) (c : Z) : bool :=
  (0 <? c) && (c <? g_max_tasks k)
  && (let t := task_at k c in
      negb (t.(t_ipc).(ip_pending_block) =? 0) || (t.(t_state) =? TASK_BLOCKED_IPC)
      || (t.(t_state) =? TASK_BLOCKED_NOTIF) || (t.(t_state) =? TASK_BLOCKED_WAIT)).
Definition syscall_exit (k : kstate) (rax rbx : Z) : list ucopy * kstate :=
  if syscall_exit_blocks k k.(cur)
  then let '(_, cs, k) := ipc_block_switch k k.(cur) rax rbx in (cs, k)
  else ([], k).
