(* ===== verification/TaskSys.v ===== *)
(** The task system calls (src/src/kernel/syscall.c): signals, waiting,
    resuming, the heap, priorities, inspection of tasks and capabilities, and
    the dispatch table that gates every call; with signal delivery
    (src/src/kernel/idt.c, scheduler.c). *)
From S2P Require Import Prelude KTypes CapCore CapRevoke Pipe SchedCtx KState Endpoint Untyped CSpace PipeSys Retype TaskLife CapSys Ipc.

Definition SYS_ERR_INTR : Z := -4.
Definition SYS_ERR_NOSYS : Z := -38.
Definition SIG_KILL : Z := 9.
Definition SIG_MAX : Z := 31.
Definition SIG_SETMASK : Z := 0.
Definition SIG_BLOCK : Z := 1.
Definition SIG_UNBLOCK : Z := 2.
Definition SIG_ALTSTACK_MIN : Z := 2048.
Definition USER_MAX_VADDR : Z := 0x0000800000000000.
Definition USER_HEAP_MAX_SIZE : Z := 64 * 1024 * 1024.
Definition TASK_EXIT_NORMAL : Z := 1.
Definition TASK_EXIT_SIGNAL : Z := 3.
Definition CAPSLOT_AUDIT : Z := 7.
Definition CAPSLOT_KERNEL_LOG : Z := 16.
Definition CAPSLOT_BOOT_MODULE : Z := 17.
Definition CAPSLOT_DEBUG : Z := 19.
Definition CAPSLOT_STORAGE_FORMAT : Z := 23.

(** [1u << n] for a bit number below 32, and clearing it. *)
Definition bit32 (n : Z) : Z := u32 (Z.shiftl 1 n).
Definition clear_bits (x m : Z) : Z := Z.land x (Z.lxor (u32 m) U32_MAX).

(** ** Fields of a task's signal state *)
Definition sg_set_pending (s : sig_state) x := mk_sig s.(sg_handler) s.(sg_in_signal) x s.(sg_mask)
  s.(sg_alt_sp) s.(sg_alt_size) s.(sg_on_stack) s.(sg_frame).
Definition sg_set_mask (s : sig_state) x := mk_sig s.(sg_handler) s.(sg_in_signal) s.(sg_pending) x
  s.(sg_alt_sp) s.(sg_alt_size) s.(sg_on_stack) s.(sg_frame).
Definition sg_set_handler (s : sig_state) h in_sig := mk_sig h in_sig s.(sg_pending) s.(sg_mask)
  s.(sg_alt_sp) s.(sg_alt_size) s.(sg_on_stack) s.(sg_frame).
Definition sg_set_alt (s : sig_state) sp size := mk_sig s.(sg_handler) s.(sg_in_signal) s.(sg_pending)
  s.(sg_mask) sp size s.(sg_on_stack) s.(sg_frame).
Definition sg_enter (s : sig_state) on_stack f := mk_sig s.(sg_handler) 1 s.(sg_pending) s.(sg_mask)
  s.(sg_alt_sp) s.(sg_alt_size) on_stack f.
Definition sg_leave (s : sig_state) := mk_sig s.(sg_handler) 0 s.(sg_pending) s.(sg_mask)
  s.(sg_alt_sp) s.(sg_alt_size) 0 s.(sg_frame).
Definition upd_sig (k : kstate) (t : Z) (f : sig_state -> sig_state) : kstate :=
  upd_task k t (fun x => t_set_sig x (f x.(t_sig))).
Definition w_set_waiter (w : wait_state) x :=
  mk_wait x w.(w_blocked_on_gen) w.(w_exit_info) w.(w_wait_exit_info).
Definition valid_task (k : kstate) (t : Z) : bool := (0 <? t) && (t <? g_max_tasks k).

(** ** Sending a signal *)

(** A wait is cut short: the waiter leaves with EINTR, and the first task that
    has it down as its waiter forgets it. *)
Definition signal_interrupt_wait (k : kstate) (t : Z) : kstate :=
  match (task_at k t).(t_ipc).(ip_frame) with
  | None => k
  | Some _ =>
      let k := set_frame_rax k t (u32 SYS_ERR_INTR) in
      let k := match find_index (fun w => (task_at k w).(t_wait).(w_waiter) =? t) 1
                       (Z.to_nat (g_max_tasks k - 1)) with
               | Some w => upd_task k w (fun x => t_set_wait x (w_set_waiter x.(t_wait) (-1)))
               | None => k
               end in
      wake k t
  end.

Definition h_signal_locked (k : kstate) (rbx rcx : Z) : Z * kstate :=
  let target := s32 rbx in
  let signum := u32 rcx in
  if (target <=? 0) || (g_max_tasks k <=? target) || ((task_at k target).(t_state) =? TASK_DEAD)
  then (rax32 SYS_ERR_INVAL, k) else
  if (signum =? 0) || (SIG_MAX <? signum) then (rax32 SYS_ERR_INVAL, k) else
  if negb (task_kill_authorized k target) then (rax32 SYS_ERR_PERM, k) else
  if (signum =? SIG_KILL) || ((task_at k target).(t_sig).(sg_handler) =? 0)
  then (0, task_teardown k target (Some (mk_cause TASK_EXIT_SIGNAL signum 0 0 0)))
  else
    let k := upd_sig k target (fun s => sg_set_pending s (Z.lor s.(sg_pending) (bit32 signum))) in
    let t := task_at k target in
    (0, if (t.(t_state) =? TASK_BLOCKED_WAIT) && (Z.land t.(t_sig).(sg_mask) (bit32 signum) =? 0)
        then signal_interrupt_wait k target else k).

(** ** Handling a signal *)
Definition rust_signal_handler_addr_ok (vaddr image_base image_end : Z) : bool :=
  if (image_base =? 0) || (image_end <=? image_base) then false else
  (vaddr <? USER_MAX_VADDR) && (image_base <=? vaddr) && (vaddr <? image_end).

Definition h_sigaction (k : kstate) (rbx : Z) : Z * kstate :=
  let c := k.(cur) in
  if negb (valid_task k c) then (rax32 SYS_ERR_PERM, k) else
  let im := (task_at k c).(t_image) in
  if negb (rbx =? 0) && negb (rust_signal_handler_addr_ok rbx im.(im_base) im.(im_end))
  then (rax32 SYS_ERR_INVAL, k) else
  (0, upd_sig k c (fun s => sg_set_handler s rbx 0)).

Definition h_sigmask (k : kstate) (rbx rcx : Z) : Z * kstate :=
  let c := k.(cur) in
  if negb (valid_task k c) then (rax32 SYS_ERR_PERM, k) else
  let how := u32 rbx in
  let mask := u32 rcx in
  let old := (task_at k c).(t_sig).(sg_mask) in
  let nm := if how =? SIG_BLOCK then Z.lor old mask
            else if how =? SIG_UNBLOCK then clear_bits old mask else mask in
  (old, upd_sig k c (fun s => sg_set_mask s (clear_bits nm (bit32 SIG_KILL)))).

Definition h_sigaltstack (k : kstate) (rbx rcx : Z) : Z * kstate :=
  let c := k.(cur) in
  if negb (valid_task k c) then (rax32 SYS_ERR_PERM, k) else
  let sp := rbx in
  let size := u32 rcx in
  if negb ((task_at k c).(t_sig).(sg_on_stack) =? 0) then (rax32 SYS_ERR_PERM, k) else
  if size =? 0 then (0, upd_sig k c (fun s => sg_set_alt s 0 0)) else
  if size <? SIG_ALTSTACK_MIN then (rax32 SYS_ERR_INVAL, k) else
  if sp <? USER_AREA_BASE then (rax32 SYS_ERR_INVAL, k) else
  if USER_MAX_VADDR <? u64 (sp + size) then (rax32 SYS_ERR_INVAL, k) else
  (0, upd_sig k c (fun s => sg_set_alt s sp size)).

(** Enter the task's handler on the frame about to be resumed; [None] when the
    signal cannot be delivered. *)
Definition try_deliver_fault_signal (k : kstate) (f : uframe) (c signum fault_addr : Z)
  : option (uframe * kstate) :=
  if negb (valid_task k c) then None else
  if Z.land f.(uf_cs) 3 =? 0 then None else
  let t := task_at k c in
  let s := t.(t_sig) in
  if negb (s.(sg_in_signal) =? 0) then None else
  let h := s.(sg_handler) in
  if (h =? 0) || negb (rust_signal_handler_addr_ok h t.(t_image).(im_base) t.(t_image).(im_end))
  then None else
  let alt := negb (s.(sg_alt_size) =? 0) && (s.(sg_on_stack) =? 0) in
  let hrsp := if alt then u64 (Z.land (u64 (s.(sg_alt_sp) + s.(sg_alt_size))) 0xFFFFFFFFFFFFFFF0 - 8)
              else f.(uf_rsp) in
  Some (mk_uframe h f.(uf_cs) (Z.lor f.(uf_rflags) 0x200) hrsp f.(uf_rax) signum fault_addr,
        upd_sig k c (fun s => sg_enter s (if alt then 1 else s.(sg_on_stack)) f)).

(** The lowest bit set of a 32-bit word that has one. *)
Definition ctz32 (x : Z) : Z := default 0 (find_index (Z.testbit x) 0 32).
Definition deliver_pending_signal (k : kstate) (f : uframe) (tid : Z) : uframe * kstate :=
  if negb (valid_task k tid) then (f, k) else
  let s := (task_at k tid).(t_sig) in
  let deliverable := clear_bits s.(sg_pending) s.(sg_mask) in
  if deliverable =? 0 then (f, k) else
  if negb (Z.land f.(uf_cs) 3 =? 3) then (f, k) else
  let sig := ctz32 deliverable in
  match try_deliver_fault_signal k f tid sig 0 with
  | Some (f, k) => (f, upd_sig k tid (fun s => sg_set_pending s (clear_bits s.(sg_pending) (bit32 sig))))
  | None => (f, k)
  end.

(** SYS_SIGRETURN, handled before the dispatch: the frame is put back whole. *)
Definition sigreturn (k : kstate) (f : uframe) : option (uframe * kstate) :=
  let c := k.(cur) in
  if valid_task k c && negb ((task_at k c).(t_sig).(sg_in_signal) =? 0)
  then Some ((task_at k c).(t_sig).(sg_frame), upd_sig k c sg_leave) else None.

(** ** Waiting, resuming, leaving *)
Definition h_task_resume_locked (k : kstate) (rbx : Z) : Z * kstate :=
  let target := s32 rbx in
  if (target <=? 0) || (g_max_tasks k <=? target) || ((task_at k target).(t_state) =? TASK_DEAD)
  then (rax32 SYS_ERR_INVAL, k) else
  if negb (task_kill_authorized k target) then (rax32 SYS_ERR_PERM, k) else
  match (task_at k target).(t_ipc).(ip_frame) with
  | None => (rax32 SYS_ERR_INVAL, k)
  | Some _ => (0, upd_task k target (fun t => t_set_runnable_ctx t 1))
  end.

Definition h_wait_locked (k : kstate) (rbx : Z) : Z * kstate :=
  let c := k.(cur) in
  let tid := s32 rbx in
  if (tid <? 0) || (g_max_tasks k <=? tid) || (tid =? c) then (rax32 (-1), k) else
  if negb (task_tcb_held k tid CAP_RIGHT_READ) then (rax32 SYS_ERR_PERM, k) else
  let t := task_at k tid in
  if t.(t_state) =? TASK_DEAD
  then (0, upd_task k c (fun x => t_set_wait x (mk_wait x.(t_wait).(w_waiter) x.(t_wait).(w_blocked_on_gen)
              x.(t_wait).(w_exit_info) t.(t_wait).(w_exit_info))))
  else (0, upd_task k c (fun x => t_set_blocked_on (t_set_ipc (t_set_wait x
              (mk_wait x.(t_wait).(w_waiter) t.(t_slot_gen) x.(t_wait).(w_exit_info)
                       x.(t_wait).(w_wait_exit_info)))
              (ip_set_pending x.(t_ipc) TASK_BLOCKED_WAIT)) tid)).

Definition h_exit (k : kstate) : Z * kstate :=
  (0, task_teardown k k.(cur) (Some (mk_cause TASK_EXIT_NORMAL 0 0 0 0))).
Definition h_task_exit_info (k : kstate) (copied : bool) : Z * option exit_info :=
  if negb (valid_task k k.(cur)) then (rax32 SYS_ERR_INVAL, None) else
  if negb copied then (rax32 SYS_ERR_FAULT, None) else
  (0, Some (task_at k k.(cur)).(t_wait).(w_wait_exit_info)).

(** ** The heap *)
Definition page_up (x : Z) : Z := Z.land (u64 (x + 0xFFF)) 0xFFFFFFFFFFFFF000.
Definition im_set_heap (im : image_state) (current end_ : Z) : image_state :=
  mk_image im.(im_base) im.(im_end) im.(im_premap_pages) im.(im_esp) im.(im_eip) im.(im_heap_start)
           current end_ im.(im_spawn_arg) im.(im_argc) im.(im_argv_ptr).
Definition s64 (x : Z) : Z := let y := u64 x in if y <? 2 ^ 63 then y else y - 2 ^ 64.
Definition heap_max (im : image_state) : Z := u64 (im.(im_heap_start) + USER_HEAP_MAX_SIZE).
(** The page-rounded end of a heap that reaches [x]. *)
Definition heap_round (im : image_state) (x : Z) : Z :=
  let a := page_up x in
  let a := if a <? x then heap_max im else a in
  if heap_max im <? a then heap_max im else a.

Definition h_sbrk (k : kstate) (rbx : Z) : Z * kstate :=
  let c := k.(cur) in
  let im := (task_at k c).(t_image) in
  let increment := s64 rbx in
  let cur_brk := im.(im_heap_current) in
  if increment =? 0 then (cur_brk, k) else
  let target :=
    if 0 <? increment then if U64_MAX - cur_brk <? increment then None else Some (cur_brk + increment)
    else if cur_brk <? - increment then None else Some (cur_brk + increment) in
  match target with
  | None => (U64_MAX, k)
  | Some new =>
      if (new <? im.(im_heap_start)) || (heap_max im <? new) then (U64_MAX, k) else
      let e := if im.(im_heap_end) <? new then heap_round im new else im.(im_heap_end) in
      (cur_brk, upd_task k c (fun t => t_set_image t (im_set_heap t.(t_image) new e)))
  end.

Definition h_brk (k : kstate) (rbx : Z) : Z * kstate :=
  let c := k.(cur) in
  let im := (task_at k c).(t_image) in
  if rbx =? 0 then (im.(im_heap_current), k) else
  if (rbx <? im.(im_heap_start)) || (heap_max im <? rbx) then (im.(im_heap_current), k) else
  let a := heap_round im rbx in
  (a, upd_task k c (fun t => t_set_image t (im_set_heap t.(t_image) a a))).

(** ** Priorities and scheduling contexts *)
Definition sched_set_priority (k : kstate) (caller target prio max : Z) : Z * kstate :=
  if (caller <=? 0) || (g_max_tasks k <=? caller) || (target <=? 0) || (g_max_tasks k <=? target)
  then (SYS_ERR_INVAL, k) else
  let ceiling := (task_at k caller).(t_max_priority) in
  if (ceiling <? prio) || (ceiling <? max) then (SYS_ERR_PERM, k) else
  if (task_at k target).(t_state) =? TASK_DEAD then (SYS_ERR_INVAL, k) else
  (0, upd_task k target (fun t => t_set_max_priority (t_set_priority t prio) max)).
Definition sched_get_priority (k : kstate) (target : Z) : Z :=
  if (target <=? 0) || (g_max_tasks k <=? target) then SYS_ERR_INVAL else
  let t := task_at k target in
  if t.(t_state) =? TASK_DEAD then SYS_ERR_INVAL else
  Z.lor (Z.shiftl (Z.land t.(t_max_priority) 0xFF) 8) (Z.land t.(t_priority) 0xFF).

Definition h_sched_set_priority_locked (k : kstate) (rbx rcx rdx : Z) : Z * kstate :=
  let target := s32 rbx in
  if (target <=? 0) || (g_max_tasks k <=? target) || negb (task_tcb_held k target CAP_RIGHT_PRIORITY)
  then (rax32 SYS_ERR_PERM, k) else
  if (SCHED_PRIO_MAX <? rcx) || (SCHED_PRIO_MAX <? rdx) then (rax32 SYS_ERR_INVAL, k) else
  let '(rc, k) := sched_set_priority k k.(cur) target (u32 rcx) (u32 rdx) in (rax32 rc, k).
Definition h_sched_get_priority_locked (k : kstate) (rbx : Z) : Z :=
  let target := s32 rbx in
  if (target <=? 0) || (g_max_tasks k <=? target) || negb (task_tcb_held k target CAP_RIGHT_READ)
  then rax32 SYS_ERR_PERM else rax32 (sched_get_priority k target).
Definition h_sched_bind_locked (k : kstate) (rbx rcx : Z) : Z * kstate :=
  let target := s32 rbx in
  if (target <=? 0) || (g_max_tasks k <=? target) || negb (task_tcb_held k target CAP_RIGHT_WRITE)
  then (rax32 SYS_ERR_PERM, k) else
  match cap_lookup k (u32 rcx) CAP_SCHED_CONTEXT CAP_RIGHT_WRITE with
  | None => (rax32 SYS_ERR_PERM, k)
  | Some l =>
      let idx := (cap_at k.(mem) l).(object) in
      if (idx =? 0) || (SC_INDEX_MAX <=? idx) then (rax32 SYS_ERR_INVAL, k) else
      let '(rc, s) := sched_bind k.(ksched) (g_max_tasks k) (fun t => (task_at k t).(t_state)) target (u32 idx) in
      (rax32 rc, set_sched k s)
  end.

(** ** Inspection *)
Record task_info := mk_tinfo {
  ti_id : Z; ti_state : Z; ti_uid : Z; ti_gid : Z; ti_cr3 : Z; ti_eip : Z; ti_heap_used : Z;
  ti_caps_in_use : Z; ti_blocked_on : Z; ti_blocked_on_notif : Z; ti_name : list Z
}.
(** The name is the task's up to its first zero, in a 32-byte zeroed array. *)
Definition h_task_info (k : kstate) (rbx : Z) (copied : bool) : Z * option task_info :=
  let tid := s32 rbx in
  if (tid <? 0) || (g_max_tasks k <=? tid) then (U64_MAX, None) else
  let privileged := bool_decide (cap_lookup k CAPSLOT_DEBUG CAP_DEBUG CAP_RIGHT_READ <> None) in
  if negb privileged && negb (tid =? k.(cur)) then (u64 (-3), None) else
  let t := task_at k tid in
  let info := mk_tinfo tid t.(t_state) t.(t_ids).(id_uid) t.(t_ids).(id_gid) 0
                (if tid =? k.(cur) then u32 t.(t_image).(im_eip) else 0)
                (u32 (t.(t_image).(im_heap_current) - t.(t_image).(im_heap_start)))
                (ciu_at k tid) t.(t_blocked_on) t.(t_blocked_on_notif) (exit_name t.(t_name)) in
  if copied then (0, Some info) else (rax32 SYS_ERR_FAULT, None).

Record cap_info := mk_cinfo {
  ci_slot : Z; ci_occupied : Z; ci_type : Z; ci_rights : Z; ci_serial : Z; ci_badge : Z
}.
Definition h_cap_enumerate (k : kstate) (rbx rcx : Z) (copied : bool) : Z * option cap_info :=
  let tid := s32 rbx in
  let slot := u32 rcx in
  if (tid <? 0) || (g_max_tasks k <=? tid) || (CNODE_SIZE <=? slot) then (rax32 SYS_ERR_INVAL, None) else
  let info :=
    match (task_at k tid).(t_cspace) with
    | Some cs =>
        let c := cap_at k.(mem) (cs, slot) in
        if negb ((task_at k tid).(t_state) =? TASK_DEAD) && negb (c.(ctype) =? CAP_NULL)
        then mk_cinfo slot 1 c.(ctype) c.(rights) c.(serial) c.(badge)
        else mk_cinfo slot 0 0 0 0 0
    | None => mk_cinfo slot 0 0 0 0 0
    end in
  if copied then (0, Some info) else (rax32 SYS_ERR_FAULT, None).

(** Seconds and nanoseconds from the tick counter. *)
Definition PIT_TICK_HZ : Z := 100.
Definition HORUS_CLOCK_MONOTONIC : Z := 1.
Definition h_clock_gettime (ticks rbx : Z) (copied : bool) : Z * option (Z * Z) :=
  if negb (u32 rbx =? HORUS_CLOCK_MONOTONIC) then (rax32 SYS_ERR_INVAL, None) else
  if copied then (0, Some (ticks / PIT_TICK_HZ, u32 ((ticks mod PIT_TICK_HZ) * (1000000000 / PIT_TICK_HZ))))
  else (rax32 SYS_ERR_FAULT, None).

Definition h_getuid (k : kstate) : Z := (cur_task k).(t_ids).(id_uid).
Definition h_getpid (k : kstate) : Z := u32 k.(cur).

(** ** Dispatch

    The table of the shipped build: a call is absent, checks its own authority
    in its handler, or needs a capability of one type in one slot. *)
Inductive gate := GHandler | GSlot (slot need ty : Z).
Definition storage_rw : gate := GSlot CAPSLOT_AUDIT (CAP_RIGHT_READ + CAP_RIGHT_WRITE) CAP_ENCRYPTED_STORAGE.
Definition gated_calls : list (Z * gate) :=
  [ (37 (* READ_AUDIT *), GSlot 7 CAP_RIGHT_READ CAP_AUDIT);
    (52 (* AUDIT_DIGEST *), GSlot 7 CAP_RIGHT_READ CAP_AUDIT);
    (47 (* BLOCK_READ *), storage_rw); (48 (* BLOCK_WRITE *), storage_rw);
    (56 (* FS_INODE_ALLOC *), storage_rw); (57 (* FS_INODE_FREE *), storage_rw);
    (76 (* FS_INODE_LINK *), storage_rw); (58 (* FBLOCK_READ *), storage_rw);
    (59 (* FBLOCK_WRITE *), storage_rw); (60 (* FS_STAT *), storage_rw);
    (61 (* FS_SET_SIZE *), storage_rw);
    (122 (* FS_STORE_KIND *), GSlot CAPSLOT_AUDIT CAP_RIGHT_READ CAP_ENCRYPTED_STORAGE);
    (110 (* STORAGE_INFO *), GSlot CAPSLOT_STORAGE_FORMAT CAP_RIGHT_READ CAP_STORAGE_FORMAT);
    (113 (* STORAGE_DEVICE *), GSlot CAPSLOT_STORAGE_FORMAT CAP_RIGHT_READ CAP_STORAGE_FORMAT);
    (111 (* STORAGE_FORMAT *), GSlot CAPSLOT_STORAGE_FORMAT CAP_RIGHT_WRITE CAP_STORAGE_FORMAT);
    (77 (* BOOT_MODULE_INFO *), GSlot CAPSLOT_BOOT_MODULE CAP_RIGHT_READ CAP_BOOT_MODULE);
    (78 (* BOOT_MODULE_READ *), GSlot CAPSLOT_BOOT_MODULE CAP_RIGHT_READ CAP_BOOT_MODULE);
    (88 (* DMESG *), GSlot CAPSLOT_KERNEL_LOG CAP_RIGHT_READ CAP_KERNEL_LOG);
    (97 (* CAP_ENUMERATE *), GSlot CAPSLOT_DEBUG CAP_RIGHT_READ CAP_DEBUG) ].
Definition absent_calls : list Z :=
  [1; 5; 6; 7; 13; 14; 15; 16; 19; 27; 38; 39; 40; 41; 42; 43; 44; 45; 53; 92].
Definition SYSCALL_TABLE_SIZE : Z := 128.
Definition syscall_table (num : Z) : option gate :=
  if SYSCALL_TABLE_SIZE <=? num then None else
  if bool_decide (num ∈ absent_calls) then None else
  Some (default GHandler (snd <$> List.find (fun e => e.1 =? num) gated_calls)).

(** The error the caller gets, or the gate is passed and the handler runs. *)
Definition syscall_gate (k : kstate) (rax : Z) : option Z :=
  match syscall_table (u32 rax) with
  | None => Some (rax32 SYS_ERR_NOSYS)
  | Some GHandler => None
  | Some (GSlot slot need ty) =>
      match cap_lookup k slot ty need with None => Some (rax32 SYS_ERR_PERM) | Some _ => None end
  end.
Definition syscall_handler {A} (k : kstate) (rax : Z) (fn : kstate -> Z * A * kstate) (none : A)
  : Z * A * kstate :=
  match syscall_gate k rax with
  | Some err => (err, none, k)
  | None => fn k
  end.
