(* ===== verification/CapInv.v ===== *)
(** What the capability operations may do to the capability memory, as a small
    transition system, and the invariants every transition keeps.

    A state is the memory with the serial counter.  A step weakens slots
    (empties them, or moves them up to an older parent), writes a capability
    derived from a live one, or writes a capability to something new.  What an
    operation may do is its power: a user's copy never copies a pipe end, the
    kernel's may; a copy keeps a token, a reply may set it; and only creation
    names new objects.  [CapOp p f] is the interface between
    the operations of the kernel and the theorems below: [f] changes the memory
    by steps of power [p] only. *)
From S2P Require Import Prelude KTypes CapCore CapRevoke Pipe SchedCtx KState Untyped CSpace.

Definition mstate : Type := cmem * Z.
Definition ms (k : kstate) : mstate := (k.(mem), k.(cap_next_serial)).

(** [weaker c' c]: the slot is as it was, empty, or hangs under an older
    parent. *)
Definition weaker (c' c : capability) : Prop :=
  c' = c \/ c' = null_cap \/ exists b, c' = set_badge c b /\ 0 <= b < c.(badge).

Inductive power := PUser | PCopy | PReply | PCreate.
Definition may_copy_pipe (p : power) : bool := match p with PUser => false | _ => true end.
Definition may_retoken (p : power) : bool := match p with PUser | PCopy => false | _ => true end.
Definition may_create (p : power) : bool := match p with PCreate => true | _ => false end.

(** [derives p c' c]: [c'] names what [c] names with no more rights, as a child
    of [c]; a token is kept, or given to an endpoint capability that can then
    no longer receive, and that had none unless a reply gives it. *)
Record derives (p : power) (c' c : capability) : Prop := {
  dv_live : c.(ctype) <> CAP_NULL /\ c.(serial) <> 0;
  dv_type : c'.(ctype) = c.(ctype);
  dv_object : c'.(object) = c.(object);
  dv_rights : c'.(rights) ⊑b c.(rights);
  dv_badge : c'.(badge) = c.(serial);
  dv_pipe : c.(ctype) = CAP_PIPE -> may_copy_pipe p = true;
  dv_token : c'.(token) = c.(token)
             \/ c.(ctype) = CAP_ENDPOINT /\ Z.land c'.(rights) CAP_RIGHT_READ = 0
                /\ (c.(token) = 0 \/ may_retoken p = true)
}.

(** The serial is above every serial handed out before it. *)
Definition fresh_serial (ns s : Z) : Prop := MIN_DERIVED_SERIAL < s /\ ns < s.

Inductive mstep (p : power) : mstate -> mstate -> Prop :=
| ms_weaken m m' ns ns' :
    ns <= ns' -> (forall l, weaker (cap_at m' l) (cap_at m l)) -> mstep p (m, ns) (m', ns')
| ms_derive m ns l src c :
    derives p c (cap_at m src) -> fresh_serial ns c.(serial) ->
    mstep p (m, ns) (cap_put m l c, c.(serial))
| ms_create m ns l c :
    may_create p = true -> is_mark c.(ctype) = false -> c.(token) = 0 -> 0 <= c.(badge) < c.(serial) ->
    fresh_serial ns c.(serial) -> mstep p (m, ns) (cap_put m l c, c.(serial))
| ms_dead m ns l c :
    may_create p = true -> is_mark c.(ctype) = false -> c.(token) = 0 -> 0 <= c.(badge) -> c.(serial) = 0 ->
    mstep p (m, ns) (cap_put m l c, ns).

(** ** The invariant *)
Record minv (x : mstate) : Prop := {
  mi_serial : forall l, 0 <= (cap_at x.1 l).(serial)
              /\ ((cap_at x.1 l).(serial) <= MIN_DERIVED_SERIAL \/ (cap_at x.1 l).(serial) <= x.2);
  mi_unique : forall l1 l2, MIN_DERIVED_SERIAL < (cap_at x.1 l1).(serial) ->
              (cap_at x.1 l1).(serial) = (cap_at x.1 l2).(serial) -> l1 = l2;
  mi_badge : forall l, 0 <= (cap_at x.1 l).(badge)
             /\ ((cap_at x.1 l).(serial) = 0 \/ (cap_at x.1 l).(badge) = 0
                 \/ (cap_at x.1 l).(badge) < (cap_at x.1 l).(serial));
  mi_unmarked : unmarked x.1;
  mi_token : forall l, (cap_at x.1 l).(token) <> 0 ->
             (cap_at x.1 l).(ctype) = CAP_ENDPOINT /\ Z.land (cap_at x.1 l).(rights) CAP_RIGHT_READ = 0
}.

Class CapOp (p : power) (f : kstate -> kstate) : Prop :=
  cap_op k : minv (ms k) -> rtc (mstep p) (ms k) (ms (f k)).
#[global] Hint Mode CapOp - ! : typeclass_instances.

(** ** Steps keep the invariant *)
Lemma weaker_serial c' c : weaker c' c -> c'.(serial) = c.(serial) \/ c' = null_cap.
Proof. intros [->|[->|(b & -> & _)]]; [by left|by right|by left]. Qed.

Lemma minv_weaken m m' ns ns' :
  ns <= ns' -> (forall l, weaker (cap_at m' l) (cap_at m l)) -> minv (m, ns) -> minv (m', ns').
Proof.
  intros Hn Hw [S U B M T]; simpl in *. constructor; simpl.
  - intros l. destruct (weaker_serial _ _ (Hw l)) as [-> | ->];
      [specialize (S l); lia|by split; [|left]].
  - intros l1 l2 H1 He.
    destruct (weaker_serial _ _ (Hw l1)) as [E1|E1]; [|rewrite E1 in H1; by vm_compute in H1].
    destruct (weaker_serial _ _ (Hw l2)) as [E2|E2];
      [|rewrite He, E2 in H1; by vm_compute in H1].
    rewrite E1 in H1. apply U; [done|congruence].
  - intros l. destruct (Hw l) as [->|[->|(b & -> & Hb)]]; [done|simpl; lia|].
    specialize (B l). simpl. lia.
  - intros l. destruct (Hw l) as [->|[->|(b & -> & _)]]; [apply (M l)|done|apply (M l)].
  - intros l. destruct (Hw l) as [->|[->|(b & -> & _)]]; [apply (T l)|done|apply (T l)].
Qed.

(** A written slot: the invariant asks of the new capability what it asks of
    every slot. *)
Lemma minv_put m ns l c ns' :
  minv (m, ns) -> ns <= ns' ->
  0 <= c.(serial) -> (c.(serial) <= MIN_DERIVED_SERIAL \/ c.(serial) <= ns') ->
  (c.(serial) <= MIN_DERIVED_SERIAL \/ fresh_serial ns c.(serial)) ->
  0 <= c.(badge) -> (c.(serial) = 0 \/ c.(badge) = 0 \/ c.(badge) < c.(serial)) ->
  is_mark c.(ctype) = false ->
  (c.(token) <> 0 -> c.(ctype) = CAP_ENDPOINT /\ Z.land c.(rights) CAP_RIGHT_READ = 0) ->
  minv (cap_put m l c, ns').
Proof.
  intros [S U B M T] Hn H0 H1 Hf H2 H3 H4 H5; simpl in *.
  assert (forall l', (cap_at m l').(serial) = c.(serial) -> c.(serial) <= MIN_DERIVED_SERIAL) as Hn'.
  { intros l' E. destruct Hf as [?|[F1 F2]]; [done|]. specialize (S l'). rewrite E in S. lia. }
  constructor; simpl.
  - intros l'. rewrite cap_at_put. case_decide; [done|]. specialize (S l'). lia.
  - intros l1 l2. rewrite !cap_at_put. repeat case_decide; intros Hs He.
    + by destruct H as [-> _], H6 as [-> _].
    + specialize (Hn' l2). lia.
    + specialize (Hn' l1). lia.
    + by apply U.
  - intros l'. rewrite cap_at_put. case_decide; [done|apply B].
  - intros l'. rewrite cap_at_put. case_decide; [done|apply M].
  - intros l'. rewrite cap_at_put. case_decide; [done|apply T].
Qed.

Lemma subset_bits_land_0 a b c : subset_bits a b -> Z.land b c = 0 -> Z.land a c = 0.
Proof.
  unfold subset_bits. intros <- H. by rewrite <- Z.land_assoc, H, Z.land_0_r.
Qed.

Lemma mstep_minv p x y : mstep p x y -> minv x -> minv y.
Proof.
  destruct 1 as [m m' ns ns' Hn Hw|m ns l src c Hd Hf|m ns l c _ Hm Ht Hb Hf|m ns l c _ Hm Ht Hb Hs];
    intros Hi.
  - by eapply minv_weaken.
  - pose proof Hf as [F1 F2]. destruct Hd as [[L1 L2] Hty Ho Hr Hb _ Ht].
    pose proof (mi_serial _ Hi src) as [S0 S1]. pose proof (mi_token _ Hi src) as T0. simpl in *.
    apply (minv_put m ns); [done|lia| |lia|by right|lia|rewrite Hb; lia| |].
    + unfold MIN_DERIVED_SERIAL in F1. lia.
    + rewrite Hty. apply (mi_unmarked _ Hi src).
    + intros Htk. rewrite Hty. destruct Ht as [Ht|(? & ? & _)]; [|done].
      rewrite Ht in Htk. destruct (T0 Htk). split; [done|]. by eapply subset_bits_land_0.
  - pose proof Hf as [F1 F2]. unfold MIN_DERIVED_SERIAL in *.
    apply (minv_put m ns); unfold MIN_DERIVED_SERIAL; try done; try lia. by right.
  - apply (minv_put m ns); unfold MIN_DERIVED_SERIAL; try done; try lia.
Qed.

Lemma msteps_minv p x y : rtc (mstep p) x y -> minv x -> minv y.
Proof. induction 1; [done|]. eauto using mstep_minv. Qed.

(** ** Composing operations *)
Lemma cap_op_minv p f k : CapOp p f -> minv (ms k) -> minv (ms (f k)).
Proof. intros Hf Hk. eapply msteps_minv; [by apply Hf|done]. Qed.

Definition power_le (p q : power) : Prop :=
  (may_retoken p = true -> may_retoken q = true) /\ (may_create p = true -> may_create q = true)
  /\ (may_copy_pipe p = true -> may_copy_pipe q = true).

Lemma mstep_mono p q x y : power_le p q -> mstep p x y -> mstep q x y.
Proof.
  intros (Hr & Hc & Hp). destruct 1 as [|m ns l src c [] Hf| |];
    [by apply ms_weaken| |by apply ms_create; auto|by apply ms_dead; auto].
  eapply ms_derive; [|done]. split; try done; naive_solver.
Qed.

#[global] Instance cap_op_id p : CapOp p (fun k => k).
Proof. intros k _. apply rtc_refl. Qed.
Lemma cap_op_comp p f g : CapOp p f -> CapOp p g -> CapOp p (fun k => g (f k)).
Proof. intros Hf Hg k Hk. etrans; [by apply Hf|]. apply Hg. by apply (cap_op_minv p). Qed.
Lemma cap_op_mono p q f : power_le p q -> CapOp p f -> CapOp q f.
Proof.
  intros Hpq Hf k Hk. eapply rtc_subrel; [|by apply Hf]. intros x y. by apply mstep_mono.
Qed.
(** An operation that touches neither memory nor counter. *)
Lemma cap_op_frame p f : (forall k, ms (f k) = ms k) -> CapOp p f.
Proof. intros H k _. rewrite H. apply rtc_refl. Qed.

(** ** A serial names one capability for ever

    Across any number of steps a slot keeps its capability (under some parent),
    is empty, or holds a serial handed out since. *)
Definition slot_evolves (x y : mstate) (l : loc) : Prop :=
  (exists b, cap_at y.1 l = set_badge (cap_at x.1 l) b)
  \/ (cap_at y.1 l).(serial) = 0 \/ fresh_serial x.2 (cap_at y.1 l).(serial).

Lemma msteps_evolve p x y :
  rtc (mstep p) x y -> x.2 <= y.2 /\ forall l, slot_evolves x y l.
Proof.
  intros Hxy0. revert y Hxy0.
  apply (rtc_ind_r (fun y => x.2 <= y.2 /\ forall l, slot_evolves x y l)); [|intros y z Hxy Hyz [IHn IH]].
  { split; [done|]. intros l. left. eexists. symmetry. apply set_badge_id. }
  assert (forall l (c : capability), fresh_serial y.2 c.(serial) \/ c.(serial) = 0 ->
    slot_ok y.1 l -> slot_evolves x (cap_put y.1 l c, z.2) l) as Hput.
  { intros l c Hc Hok. right. simpl. rewrite cap_at_put_eq by done.
    destruct Hc as [[? ?]|?]; [right; split; [done|lia]|by left]. }
  destruct Hyz as [m m' ns ns' Hn Hw|m ns l0 src c Hd Hf|m ns l0 c _ _ _ _ Hf|m ns l0 c _ _ _ _ Hs];
    simpl in *.
  - split; [lia|]. intros l. specialize (IH l). unfold slot_evolves in *; simpl in *.
    destruct (Hw l) as [->|[->|(b & -> & _)]]; [done|by right; left|].
    destruct IH as [[b' ->]|?]; [by left; exists b|by right].
  - split; [destruct Hf; lia|]. intros l. destruct (decide (l0 = l /\ slot_ok m l0)) as [[<- ?]|Hne].
    + apply Hput; [by left|done].
    + specialize (IH l). unfold slot_evolves in *; simpl in *. by rewrite cap_at_put, decide_False.
  - split; [destruct Hf; lia|]. intros l. destruct (decide (l0 = l /\ slot_ok m l0)) as [[<- ?]|Hne].
    + apply Hput; [by left|done].
    + specialize (IH l). unfold slot_evolves in *; simpl in *. by rewrite cap_at_put, decide_False.
  - split; [done|]. intros l. destruct (decide (l0 = l /\ slot_ok m l0)) as [[<- ?]|Hne].
    + apply Hput; [by right|done].
    + specialize (IH l). unfold slot_evolves in *; simpl in *. by rewrite cap_at_put, decide_False.
Qed.

(** A derived serial seen before and after is in the same slot, on the same
    capability. *)
Lemma serial_identity p x y l l' :
  minv x -> rtc (mstep p) x y ->
  MIN_DERIVED_SERIAL < (cap_at x.1 l).(serial) ->
  (cap_at y.1 l').(serial) = (cap_at x.1 l).(serial) ->
  l' = l /\ exists b, cap_at y.1 l' = set_badge (cap_at x.1 l) b.
Proof.
  intros Hi Hxy Hm He. pose proof (mi_serial _ Hi l) as [_ Hb].
  destruct (proj2 (msteps_evolve _ _ _ Hxy) l') as [[b Eb]|[E0|[_ F]]].
  - assert (l = l') as ->; [|by split; [|exists b]].
    apply (mi_unique _ Hi); [done|]. rewrite <- He, Eb. done.
  - unfold MIN_DERIVED_SERIAL in Hm. lia.
  - lia.
Qed.

(** ** Authority only shrinks without creation *)
Definition typed (c : capability) : Prop := c.(ctype) <> CAP_NULL.

(** [covers p c c']: whatever [c'] allows, [c] allows; at the power of copying
    a token is not replaced either. *)
Record covers (p : power) (c c' : capability) : Prop := {
  cv_type : c'.(ctype) = c.(ctype);
  cv_object : c'.(object) = c.(object);
  cv_rights : c'.(rights) ⊑b c.(rights);
  cv_token : c'.(token) = c.(token) \/ c.(token) = 0 \/ may_retoken p = true
}.
#[global] Instance covers_preorder p : PreOrder (covers p).
Proof.
  split; [intros c; split; auto with horus|].
  intros a b c [] []. split; [congruence..| |]; [by eapply subset_bits_trans|].
  destruct cv_token0 as [?|[?|?]], cv_token1 as [?|[?|?]]; auto; [left|right; left]; congruence.
Qed.

Lemma derives_covers p c' c : derives p c' c -> covers p c c'.
Proof. intros [? ? ? ? ? _ Ht]. split; [done..|]. destruct Ht as [?|(_ & _ & ?)]; auto. Qed.

Lemma weaker_covers p c' c : weaker c' c -> typed c' -> covers p c c'.
Proof.
  intros [->|[->|(b & -> & _)]] Ht; [done|by destruct Ht|].
  split; [done..|apply subset_bits_refl|by left].
Qed.

Lemma msteps_covered p x y l' :
  may_create p = false -> rtc (mstep p) x y -> typed (cap_at y.1 l') ->
  exists l, typed (cap_at x.1 l) /\ covers p (cap_at x.1 l) (cap_at y.1 l').
Proof.
  intros Hp H. revert y H l'.
  apply (rtc_ind_r (fun y => forall l', typed (cap_at y.1 l') ->
           exists l, typed (cap_at x.1 l) /\ covers p (cap_at x.1 l) (cap_at y.1 l')));
    [intros l' Ht; by exists l'|intros y z Hxy Hyz IH l' Ht].
  assert (exists l, typed (cap_at y.1 l) /\ covers p (cap_at y.1 l) (cap_at z.1 l')) as (l1 & T1 & C1).
  { destruct Hyz as [m m' ns ns' _ Hw|m ns l0 src c Hd Hf|m ns l0 c ? _ _ _ _|m ns l0 c ? _ _ _ _];
      simpl in *; [| |congruence|congruence].
    - exists l'. pose proof (weaker_covers p _ _ (Hw l') Ht) as Hc. split; [|done].
      destruct Hc as [Hc _ _ _]. unfold typed in *. by rewrite <- Hc.
    - rewrite cap_at_put in Ht |- *. case_decide; [|by exists l'].
      exists src. split; [apply Hd|by apply derives_covers]. }
  destruct (IH l1 T1) as (l & T & C). exists l. split; [done|]. by etrans.
Qed.

(** ** A user's copies and pipe ends

    Without the power to copy a pipe end, a slot that holds one after any number
    of steps held the same one before. *)
Lemma weaker_typed_trans a b c :
  typed a -> weaker a b -> (weaker b c) -> weaker a c.
Proof.
  intros Ht [->|[->|(x & -> & Hx)]]; [done|by destruct Ht|]. intros [->|[->|(y & -> & Hy)]].
  - right; right. by exists x.
  - by destruct Ht.
  - right; right. exists x. simpl in *. split; [done|lia].
Qed.

Lemma msteps_pipe_kept x y l :
  rtc (mstep PUser) x y -> (cap_at y.1 l).(ctype) = CAP_PIPE -> weaker (cap_at y.1 l) (cap_at x.1 l).
Proof.
  intros H. revert y H l.
  apply (rtc_ind_r (fun y => forall l, (cap_at y.1 l).(ctype) = CAP_PIPE -> weaker (cap_at y.1 l) (cap_at x.1 l)));
    [intros l _; by left|intros y z Hxy Hyz IH l Ht].
  assert (weaker (cap_at z.1 l) (cap_at y.1 l) /\ (cap_at y.1 l).(ctype) = CAP_PIPE) as [HW HT].
  { destruct Hyz as [m m' ns ns' _ Hw|m ns l0 src c Hd Hf|m ns l0 c ? _ _ _ _|m ns l0 c ? _ _ _ _];
      simpl in *; [| |done|done].
    - split; [done|]. destruct (Hw l) as [<-|[E|(b & E & _)]]; [done|by rewrite E in Ht|by rewrite E in Ht].
    - rewrite cap_at_put in Ht |- *. case_decide; [|by split; [left|]].
      destruct Hd as [_ Hty _ _ _ Hp _]. rewrite Hty in Ht. by apply Hp in Ht. }
  apply (weaker_typed_trans _ _ _ ltac:(unfold typed; by rewrite Ht) HW). by apply IH.
Qed.
