(* ===== verification/CapOps.v ===== *)
(** Every operation on cspaces is an operation of the transition system of
    CapInv: the derivations derive, the installs create, and the rest weakens. *)
From S2P Require Import Prelude KTypes CapCore CapRevoke Pipe SchedCtx KState Untyped CSpace PipeSys Retype TaskLife CapSys CapInv.

(** ** The algebra of CapCore *)
Lemma assign_fresh_serial_cases ns :
  let '(s, ns') := assign_fresh_serial ns in
  (s = 0 /\ ns' = ns) \/ (fresh_serial ns s /\ ns' = s).
Proof.
  unfold assign_fresh_serial, fresh_serial, MIN_DERIVED_SERIAL, U64_MAX.
  cbv zeta. destruct (Z.ltb_spec ns 0x100000000);
    match goal with |- context [?a <=? ?b] => destruct (Z.leb_spec a b) end; [right; lia|by left| |].
  { right; lia. } { by left. }
Qed.

Lemma derived_cap p c r s tok :
  c.(ctype) <> CAP_NULL -> c.(serial) <> 0 -> subset_bits r c.(rights) ->
  (c.(ctype) = CAP_PIPE -> may_copy_pipe p = true) ->
  (tok = c.(token) \/ c.(ctype) = CAP_ENDPOINT /\ Z.land r CAP_RIGHT_READ = 0
                       /\ (c.(token) = 0 \/ may_retoken p = true)) ->
  derives p (mk_cap c.(ctype) r c.(object) c.(serial) s tok) c.
Proof. intros. by split. Qed.

(** The tail of every derivation: a fresh serial, then the write. *)
Lemma derive_tail p m ns l src r tok m' ns' :
  (let '(fresh, n) := assign_fresh_serial ns in
   if fresh =? 0 then None else
   Some (cap_put m l (mk_cap (cap_at m src).(ctype) r (cap_at m src).(object)
                             (cap_at m src).(serial) fresh tok), n)) = Some (m', ns') ->
  (forall s, derives p (mk_cap (cap_at m src).(ctype) r (cap_at m src).(object)
                             (cap_at m src).(serial) s tok) (cap_at m src)) ->
  mstep p (m, ns) (m', ns').
Proof.
  pose proof (assign_fresh_serial_cases ns) as Hf. destruct (assign_fresh_serial ns) as [s n].
  case_match eqn:E; [done|]. intros [= <- <-] Hd. apply Z.eqb_neq in E.
  destruct Hf as [[? _]|[Hf ->]]; [done|]. by eapply (ms_derive _ _ _ _ src (mk_cap _ _ _ _ s _)).
Qed.

Ltac boolc :=
  repeat match goal with
  | H : (_ || _) = false |- _ => apply orb_false_iff in H as [? ?]
  | H : (_ && _) = true |- _ => apply andb_true_iff in H as [? ?]
  | H : negb _ = false |- _ => apply negb_false_iff in H
  | H : negb _ = true |- _ => apply negb_true_iff in H
  | H : (_ =? _) = true |- _ => apply Z.eqb_eq in H
  | H : (_ =? _) = false |- _ => apply Z.eqb_neq in H
  | H : (_ <=? _) = true |- _ => apply Z.leb_le in H
  | H : (_ <=? _) = false |- _ => apply Z.leb_gt in H
  | H : (_ <? _) = true |- _ => apply Z.ltb_lt in H
  | H : (_ <? _) = false |- _ => apply Z.ltb_ge in H
  end.

Lemma ldiff_land_read a b : Z.land (Z.ldiff (Z.land a b) TOKEN_STRIPPED_RIGHTS) CAP_RIGHT_READ = 0.
Proof.
  apply Z.bits_inj'. intros i Hi. unfold TOKEN_STRIPPED_RIGHTS.
  rewrite Z.land_spec, Z.ldiff_spec, Z.bits_0. by destruct (Z.testbit _ i), (Z.testbit CAP_RIGHT_READ i).
Qed.
Lemma ldiff_land_subset a b c : subset_bits (Z.ldiff (Z.land a b) c) b.
Proof. eapply subset_bits_trans; [apply subset_bits_ldiff|apply subset_bits_land_r]. Qed.
#[export] Hint Resolve ldiff_land_read ldiff_land_subset : horus.

Lemma not_pipe_copyable ty (b : bool) : copyable_from_ring3 ty = true -> ty = CAP_PIPE -> b = true.
Proof. by intros H ->. Qed.

Lemma mint_step p m ns c size d s r m' ns' :
  rust_cap_mint m ns c size d s r = Some (m', ns') -> mstep p (m, ns) (m', ns').
Proof.
  unfold rust_cap_mint. destruct c as [c|]; [|done]. do 6 (case_match; [done|]). intros HR.
  eapply derive_tail; [exact HR|]. intros fresh. boolc.
  apply derived_cap; auto with horus; by apply not_pipe_copyable.
Qed.

Lemma mint_token_step p m ns c size d s r tok m' ns' :
  rust_cap_mint_token m ns c size d s r tok = Some (m', ns') -> mstep p (m, ns) (m', ns').
Proof.
  unfold rust_cap_mint_token. destruct c as [c|]; [|done]. do 5 (case_match; [done|]). intros HR.
  boolc. match goal with H' : _ = CAP_ENDPOINT |- _ => pose proof H' as Ht; rewrite <- H' in HR end.
  eapply derive_tail; [exact HR|]. intros fresh. apply derived_cap; auto with horus; by rewrite Ht.
Qed.

Lemma grant_step p m ns src d size slot r m' ns' :
  ((cap_at m src).(ctype) = CAP_PIPE -> may_copy_pipe p = true) ->
  rust_cap_grant_into m ns (Some (cap_at m src)) d size slot r = Some (m', ns') ->
  mstep p (m, ns) (m', ns').
Proof.
  intros Hp. unfold rust_cap_grant_into. destruct d as [d|]; [|done]. do 2 (case_match; [done|]). intros HR.
  eapply derive_tail; [exact HR|]. intros fresh. boolc. apply derived_cap; auto with horus.
Qed.

Lemma grant_user_step p m ns src d size slot r m' ns' :
  rust_cap_grant_from_user m ns (Some (cap_at m src)) d size slot r = Some (m', ns') ->
  mstep p (m, ns) (m', ns').
Proof.
  unfold rust_cap_grant_from_user. case_match eqn:E; [done|]. boolc. apply grant_step. by apply not_pipe_copyable.
Qed.

Lemma reply_mint_step m ns src d size slot r tok m' ns' :
  rust_cap_reply_mint m ns (Some (cap_at m src)) d size slot r tok = Some (m', ns') ->
  mstep PReply (m, ns) (m', ns').
Proof.
  unfold rust_cap_reply_mint. destruct d as [d|]; [|done].
  do 4 (case_match; [done|]). intros HR. boolc.
  match goal with H' : _ = CAP_ENDPOINT |- _ => pose proof H' as Ht; rewrite <- H' in HR end.
  eapply derive_tail; [exact HR|]. intros fresh. apply derived_cap; auto with horus; by rewrite Ht.
Qed.

(** What a lookup has found. *)
Lemma rust_cap_lookup_live m c size s r l :
  rust_cap_lookup m c size s r = Some l ->
  (cap_at m l).(ctype) <> CAP_NULL /\ (cap_at m l).(serial) <> 0 /\ subset_bits r (cap_at m l).(rights)
  /\ exists cs, c = Some cs /\ l = (cs, s) /\ slot_in size s = true.
Proof.
  unfold rust_cap_lookup. destruct c as [cs|]; [|done]. do 4 (case_match; [done|]). intros [= <-]. boolc.
  split_and!; try done; [by apply has_bits_subset|by exists cs].
Qed.

Lemma slot_in_spec size s : slot_in size s = true <-> 0 <= s < size /\ s < CNODE_SIZE.
Proof. unfold slot_in. rewrite !andb_true_iff, Z.leb_le, !Z.ltb_lt. lia. Qed.

Lemma lookup_typed_live m c size s ty r p :
  rust_cap_lookup_typed m (Some c) size s ty r = Some p ->
  p = (c, s) /\ ((cap_at m p).(ctype) <> CAP_NULL /\ (cap_at m p).(serial) <> 0)
  /\ (ty = CAP_ANYTYPE \/ (cap_at m p).(ctype) = ty) /\ subset_bits r (cap_at m p).(rights).
Proof.
  unfold rust_cap_lookup_typed. destruct (rust_cap_lookup _ _ _ _ _) as [q|] eqn:E; [|done].
  destruct (_ && _) eqn:E2; [done|]. intros [= <-].
  apply rust_cap_lookup_live in E as (? & ? & ? & cs & [= <-] & -> & _).
  split_and!; try done. apply andb_false_iff in E2.
  rewrite !negb_false_iff, !Z.eqb_eq in E2. tauto.
Qed.
Lemma lookup_typed_intro m c size s ty r :
  0 <= s < size -> s < CNODE_SIZE ->
  (cap_at m (c, s)).(ctype) <> CAP_NULL -> (cap_at m (c, s)).(serial) <> 0 ->
  (ty = CAP_ANYTYPE \/ (cap_at m (c, s)).(ctype) = ty) -> subset_bits r (cap_at m (c, s)).(rights) ->
  rust_cap_lookup_typed m (Some c) size s ty r = Some (c, s).
Proof.
  intros H1 H2 H3 H4 H5 H6. unfold rust_cap_lookup_typed, rust_cap_lookup.
  rewrite (proj2 (slot_in_spec _ _)) by done. cbn [negb].
  rewrite (proj2 (Z.eqb_neq _ _) H3), (proj2 (has_bits_subset _ _) H6), (proj2 (Z.eqb_neq _ _) H4).
  cbn [negb]. destruct H5 as [->| <-]; [done|]. by rewrite Z.eqb_refl, andb_false_r.
Qed.

(** ** Pieces the operations share *)
Lemma set_serial_id k : set_serial k k.(cap_next_serial) = k.
Proof. by destruct k. Qed.

Lemma alloc_cases k :
  let '(s, k1) := cap_alloc_fresh_serial k in
  (s = 0 /\ k1 = k) \/ (s <> 0 /\ fresh_serial k.(cap_next_serial) s /\ k1 = set_serial k s).
Proof.
  unfold cap_alloc_fresh_serial, rust_cap_alloc_serial.
  pose proof (assign_fresh_serial_cases k.(cap_next_serial)) as H.
  destruct (assign_fresh_serial _) as [s ns]. destruct H as [[-> ->]|[Hf ->]].
  - left. split; [done|apply set_serial_id].
  - right. split_and!; [|done|done]. destruct Hf. unfold MIN_DERIVED_SERIAL in *. lia.
Qed.

(** A serial handed out and not used. *)
Lemma serial_step p m ns s : fresh_serial ns s -> rtc (mstep p) (m, ns) (m, s).
Proof. intros [? ?]. apply rtc_once, ms_weaken; [lia|]. intros l. by left. Qed.

Lemma create_step m ns l c :
  is_mark c.(ctype) = false -> c.(token) = 0 -> 0 <= c.(badge) < c.(serial) ->
  fresh_serial ns c.(serial) -> rtc (mstep PCreate) (m, ns) (cap_put m l c, c.(serial)).
Proof. intros. by apply rtc_once, ms_create. Qed.

(** A new root: no parent. *)
Lemma create_root_step m ns l ty r o s :
  is_mark ty = false -> fresh_serial ns s ->
  rtc (mstep PCreate) (m, ns) (cap_put m l (mk_cap ty r o 0 s 0), s).
Proof.
  intros Hm Hf. apply (create_step m ns l (mk_cap ty r o 0 s 0)); [done..| |done].
  destruct Hf. unfold MIN_DERIVED_SERIAL in *. simpl. lia.
Qed.

Lemma weaken_step p m m' ns :
  (forall l, weaker (cap_at m' l) (cap_at m l)) -> rtc (mstep p) (m, ns) (m', ns).
Proof. intros. by apply rtc_once, ms_weaken. Qed.

Lemma weaker_refl c : weaker c c.
Proof. by left. Qed.
Lemma weaker_null c : weaker null_cap c.
Proof. by right; left. Qed.
#[export] Hint Resolve weaker_refl weaker_null : horus.

Lemma empty_step p m ns l : rtc (mstep p) (m, ns) (cap_put m l null_cap, ns).
Proof. apply weaken_step. intros l'. rewrite cap_at_put. case_decide; auto with horus. Qed.

Lemma ms_note_named k ty o : ms (kobj_note_named k ty o) = ms k.
Proof. unfold kobj_note_named, kobj_unpin. by repeat case_match. Qed.
Lemma ms_install k t l c : ms (install_at k t l c) = (cap_put k.(mem) l c, k.(cap_next_serial)).
Proof. unfold install_at. by case_match. Qed.
Lemma ms_dec_ciu k t : ms (dec_ciu_of k t) = ms k.
Proof. done. Qed.
#[export] Hint Rewrite ms_note_named ms_install : horus.

Lemma derived_op p k t wn r :
  (forall m ns, r = Some (m, ns) -> mstep p (ms k) (m, ns)) ->
  rtc (mstep p) (ms k) (ms (derived k t wn r).2).
Proof.
  intros H. unfold derived. destruct r as [[m ns]|]; [|apply rtc_refl].
  apply rtc_once. destruct wn; by apply H.
Qed.

(** Unfold an operation's guards; what a refusal leaves is the state it found. *)
Ltac guards := repeat (case_match; cbn [fst snd]; try apply rtc_refl).

(** ** Derivations *)
#[global] Instance cap_mint_op {p} d s r : CapOp p (fun k => (cap_mint k d s r).2).
Proof.
  intros k _. unfold cap_mint. guards. apply derived_op. intros m ns. apply mint_step.
Qed.
#[global] Instance cap_transfer_op {p} d s : CapOp p (fun k => (cap_transfer k d s).2).
Proof.
  intros k _. unfold cap_transfer. guards. apply derived_op. intros m ns. apply mint_step.
Qed.
#[global] Instance cap_mint_token_op {p} d s r tok : CapOp p (fun k => (cap_mint_token k d s r tok).2).
Proof.
  intros k _. unfold cap_mint_token. guards. apply derived_op. intros m ns. apply mint_token_step.
Qed.
#[global] Instance cap_grant_op t d s r fu : CapOp PCopy (fun k => (cap_grant_common k t d s r fu).2).
Proof.
  intros k _. unfold cap_grant_common. guards; apply derived_op; intros m ns;
    [apply grant_user_step|by apply grant_step].
Qed.
#[global] Instance cap_grant_user_op {p} t d s r : CapOp p (fun k => (cap_grant_common k t d s r true).2).
Proof. intros k _. unfold cap_grant_common. guards. apply derived_op; intros m ns. apply grant_user_step. Qed.
#[global] Instance cap_reply_mint_op pid i ser ep d r tok :
  CapOp PReply (fun k => (cap_reply_mint_into k pid i ser ep d r tok).2).
Proof.
  intros k _. unfold cap_reply_mint_into. guards. apply derived_op. intros m ns. apply reply_mint_step.
Qed.

(** ** Weakening *)
Lemma weaker_trans a b c : weaker a b -> weaker b c -> weaker a c.
Proof.
  intros [->|[->|(x & -> & Hx)]]; [done|auto with horus|]. intros [->|[->|(y & -> & Hy)]].
  - right; right. by exists x.
  - simpl in Hx. lia.
  - right; right. exists x. simpl in *. split; [done|lia].
Qed.
#[global] Instance weaker_preorder : PreOrder weaker.
Proof. split; [intros c; auto with horus|]. intros a b c ? ?. by eapply weaker_trans. Qed.

Lemma dying_pairs_ok m cs size n :
  (forall l, 0 <= (cap_at m l).(badge)
     /\ ((cap_at m l).(serial) = 0 \/ (cap_at m l).(badge) = 0
         \/ (cap_at m l).(badge) < (cap_at m l).(serial))) ->
  Forall pair_ok (dying_pairs m cs size n).
Proof.
  intros H. unfold dying_pairs. set (f := fun acc i => _). set (L := seqZ _ _). clearbody L.
  enough (forall acc, Forall pair_ok acc -> Forall pair_ok (foldl f acc L)) as G by by apply G.
  induction L as [|i L IH]; intros acc Hacc; [done|]. simpl. unfold f at 2.
  apply IH. case_decide; [done|]. destruct (_ || _) eqn:E; [done|]. boolc.
  apply Forall_app; split; [done|]. apply Forall_singleton. specialize (H (cs, i)).
  unfold pair_ok; simpl. lia.
Qed.

Lemma reparent_weaker m cs size spaces len :
  (forall l, 0 <= (cap_at m l).(badge)
     /\ ((cap_at m l).(serial) = 0 \/ (cap_at m l).(badge) = 0
         \/ (cap_at m l).(badge) < (cap_at m l).(serial))) ->
  forall l, weaker (cap_at (rust_cap_reparent_dying m cs size spaces len).1 l) (cap_at m l).
Proof.
  intros H. unfold rust_cap_reparent_dying. case_bool_decide; [auto with horus|].
  set (P := sort_pairs _). assert (Forall pair_ok P) as HP.
  { unfold P. rewrite sort_pairs_perm. by apply dying_pairs_ok. } clearbody P.
  generalize ((visit (filter (fun d => d.(d_caps) <> Some cs) spaces)).*1). intros V.
  assert (forall acc, (forall l, weaker (cap_at acc.1 l) (cap_at m l)) ->
    forall l, weaker (cap_at (foldl (reparent_visit P) acc V).1 l) (cap_at m l)) as G.
  { induction V as [|v V IH]; intros acc Hacc; simpl; [done|]. apply IH. intros l.
    assert (0 <= (cap_at acc.1 v).(badge)) as Hb.
    { destruct (Hacc v) as [->|[->|(b & -> & Hb)]]; [apply H|done|simpl; lia]. }
    etrans; [|apply Hacc]. destruct (reparent_visit_slot P acc v l HP Hb) as [->|(b & -> & ?)];
      [auto with horus|right; right; by exists b]. }
  apply G. auto with horus.
Qed.

Lemma clear_slots_cases m cs sz l : cap_at (clear_slots m cs sz) l = cap_at m l \/ cap_at (clear_slots m cs sz) l = null_cap.
Proof.
  unfold clear_slots. generalize (seqZ 0 sz). intros L. revert m.
  induction L as [|i L IH]; intros m; simpl; [by left|].
  destruct (IH (nullify m (cs, i))) as [->| ->]; [|by right].
  rewrite cap_at_nullify. case_decide; auto.
Qed.
Lemma clear_slots_weaker m cs sz l : weaker (cap_at (clear_slots m cs sz) l) (cap_at m l).
Proof. destruct (clear_slots_cases m cs sz l) as [->| ->]; auto with horus. Qed.

Lemma ms_gc k : ms (kobj_gc_locked k) = ms k.
Proof. destruct (kobj_gc_locked_same_caps k) as [H1 H2 _ _ _ _ _]. unfold ms. by rewrite H1, H2. Qed.

#[global] Instance release_op {p} id collect : CapOp p (fun k => release_cspace k id collect).
Proof.
  intros k [_ _ HB _ _]. unfold release_cspace. cbv zeta.
  destruct ((0 <? id) && _).
  2: { destruct collect; [rewrite ms_gc|]; apply rtc_refl. }
  destruct (t_cspace _) as [cs|].
  2: { destruct collect; [rewrite ms_gc|]; apply rtc_refl. }
  trans (ms (set_mem k (clear_slots (reparent_dying_locked k id cs
     (if CNODE_SIZE <? task_size (task_at k id) then CNODE_SIZE else task_size (task_at k id))).(mem) cs
     (if CNODE_SIZE <? task_size (task_at k id) then CNODE_SIZE else task_size (task_at k id))))).
  - apply weaken_step. intros l. simpl. etrans; [apply clear_slots_weaker|]. by apply reparent_weaker.
  - destruct collect; [rewrite ms_gc|]; apply rtc_refl.
Qed.

#[global] Instance cap_revoke_exact_op {p} slot : CapOp p (fun k => (cap_revoke_exact k slot).2).
Proof.
  intros k Hk. unfold cap_revoke_exact. do 4 (case_match; [apply rtc_refl|]).
  set (st0 := mk_rs k.(mem) k.(caps_in_use) (Some empty_tally)).
  set (r := if (_ =? CAP_REVOCATION) && _ then _ else _).
  assert (only_empties st0 r.1) as HA.
  { unfold r. case_match; [|done]. apply rust_cap_revoke_empties. apply Hk. }
  destruct r as [st1 slot1]. cbn [fst] in HA.
  pose proof (rust_cap_revoke_global_empties (Some (cur_array k)) (cur_size k) slot1
    (if bool_decide (cur_array k = CRoot) then None else Some k.(cur)) (revoke_spaces k) st1
    (only_empties_unmarked _ _ HA (mi_unmarked _ Hk))) as HB.
  destruct (rust_cap_revoke_global _ _ _ _ _ _) as [ok st2]. cbn [snd] in HB.
  destruct (pipe_release_revoked_ends _ _) as [exact ps]. cbn [snd]. rewrite ms_gc.
  apply weaken_step. intros l. change (weaker (cap_at st2.(rs_mem) l) (cap_at st0.(rs_mem) l)).
  destruct (oe_slot _ _ (transitivity HA HB) l) as [->| ->]; auto with horus.
Qed.

#[global] Instance cap_revoke_op {p} slot : CapOp p (fun k => (cap_revoke k slot).2).
Proof.
  intros k Hk. unfold cap_revoke. pose proof (cap_revoke_exact_op (p:=p) slot k Hk) as H. cbv beta in H.
  destruct (cap_revoke_exact k slot) as [[? ?] ?]. exact H.
Qed.
#[global] Instance cap_move_op {p} d s : CapOp p (fun k => (cap_move k d s).2).
Proof.
  intros k Hk. unfold cap_move. pose proof (cap_transfer_op (p:=p) d s k Hk) as H. cbv beta in H.
  destruct (cap_transfer k d s) as [ok k1]. cbn [snd] in H. destruct ok; [|done].
  etrans; [exact H|]. apply cap_revoke_op. by eapply msteps_minv.
Qed.

#[global] Instance cap_consume_op {p} d : CapOp p (fun k => (cap_consume_slot k d).2).
Proof. intros k _. unfold cap_consume_slot. guards. apply empty_step. Qed.
#[global] Instance cap_consume_of_op {p} pid s : CapOp p (fun k => (cap_consume_slot_of k pid s).2).
Proof. intros k _. unfold cap_consume_slot_of. guards. apply empty_step. Qed.

(** ** Installing *)

(** Open the serial allocation at the head of an install. *)
Ltac alloc k :=
  let H := fresh "Halloc" in
  pose proof (alloc_cases k) as H;
  destruct (cap_alloc_fresh_serial k) as [ser k1];
  destruct H as [[-> ->]|(Hser & Hfresh & ->)]; [apply rtc_refl|];
  rewrite (proj2 (Z.eqb_neq _ _) Hser).
(** A refusal after the allocation has used the serial up. *)
Ltac refused := cbn [fst snd]; by apply serial_step.
Ltac iguards := repeat (case_match; try refused).

Lemma cap_install_object_op d ty o r :
  is_mark ty = false -> CapOp PCreate (fun k => (cap_install_object k d ty o r 0).2).
Proof.
  intros Hm k _. unfold cap_install_object. alloc k. iguards.
  cbn [snd]. autorewrite with horus. by apply create_root_step.
Qed.

Lemma cap_install_first_free_op d ty o r :
  is_mark ty = false -> CapOp PCreate (fun k => (cap_install_object_first_free k d ty o r 0).2).
Proof.
  intros Hm k _. unfold cap_install_object_first_free. alloc k. iguards.
  cbn [snd]. autorewrite with horus. by apply create_root_step.
Qed.

Lemma cap_install_derived_op d s ss ty o r :
  CapOp PCreate (fun k => (cap_install_derived_object k d s ss ty o r).2).
Proof.
  intros k Hk. unfold cap_install_derived_object. alloc k. iguards.
  cbn [snd]. autorewrite with horus. boolc. cbn [mem set_serial] in *. subst ss ty.
  apply (create_step _ _ _ (mk_cap _ _ _ _ ser _)); [apply Hk|done| |done]. simpl.
  pose proof (mi_serial _ Hk (c, s)). destruct Hfresh. simpl in *. lia.
Qed.

#[global] Instance cap_install_reply_op pid s g : CapOp PCreate (fun k => (cap_install_reply_for k pid s g).2).
Proof.
  intros k _. unfold cap_install_reply_for. do 2 (case_match; [apply rtc_refl|]). alloc k. iguards.
  cbn [snd]. autorewrite with horus. by apply create_root_step.
Qed.

Lemma cap_install_from_root_op pid s rs o :
  CapOp PCreate (fun k => (cap_install_from_root k pid s rs o).2).
Proof.
  intros k Hk. unfold cap_install_from_root. case_match; [apply rtc_refl|].
  destruct (t_cspace _) as [c|]; [|apply rtc_refl]. destruct (_ && _); [apply rtc_refl|].
  alloc k. cbn [snd]. autorewrite with horus. apply create_root_step; [apply Hk|done].
Qed.

#[global] Instance cap_mint_untyped_op s d i : CapOp PCreate (fun k => (cap_mint_untyped_child k s d i).2).
Proof.
  intros k Hk. unfold cap_mint_untyped_child. alloc k. iguards.
  cbn [snd]. autorewrite with horus. cbn [mem set_serial].
  apply (create_step _ _ _ (mk_cap _ _ _ _ ser _)); [done|done| |done]. simpl.
  pose proof (mi_serial _ Hk l). destruct Hfresh. simpl in *. lia.
Qed.

#[global] Instance cap_child_pipe_op c d sp s r :
  CapOp PCopy (fun k => (cap_install_child_pipe_end k c d sp s r).2).
Proof.
  intros k Hk. unfold cap_install_child_pipe_end. do 4 (case_match; [apply rtc_refl|]).
  alloc k. iguards. cbn [snd]. cbn [mem set_serial] in *. boolc.
  match goal with H : rust_cap_lookup _ _ _ _ _ = Some ?l |- _ => rename l into ls; pose proof H as HL end.
  apply rust_cap_lookup_live in HL as (HT & HS & _).
  assert ((cap_at k.(mem) ls).(token) = 0) as Ht0.
  { destruct (decide ((cap_at k.(mem) ls).(token) = 0)) as [|Ht]; [done|].
    apply (mi_token _ Hk) in Ht as [Ht _]. simpl in Ht.
    by match goal with H : ctype _ = CAP_PIPE |- _ => rewrite H in Ht end. }
  eapply rtc_once, (ms_derive PCopy k.(mem) _ _ ls (mk_cap _ _ _ _ ser _)); [|done].
  split; simpl; try done; [by apply has_bits_subset|by left].
Qed.

(** ** Fork *)
Lemma clone_slots_op pc cc csz child copied ss :
  CapOp PCopy (fun k => (clone_slots k pc cc csz child copied ss).2).
Proof.
  revert copied. induction ss as [|s ss IH]; intros copied k Hk; [apply rtc_refl|].
  cbn [clone_slots]. destruct (_ || _); [by apply IH|]. destruct (over_quota _ _); [apply rtc_refl|].
  set (r := rust_cap_grant_into _ _ _ _ _ _ _).
  assert (rtc (mstep PCopy) (ms k) (ms (derived k child (slot_null k (cc, s)) r).2)) as H.
  { apply derived_op. intros m ns. by apply grant_step. }
  destruct (derived _ _ _ _) as [ok k1]. cbn [snd] in H. etrans; [exact H|].
  apply IH. by eapply msteps_minv.
Qed.

Lemma ms_count_forked k c : ms (pipe_count_forked_ends k c).2 = ms k.
Proof. unfold pipe_count_forked_ends. by repeat case_match. Qed.

#[global] Instance cap_clone_op p c : CapOp PCopy (fun k => (cap_clone_cspace k p c).2).
Proof.
  intros k Hk. unfold cap_clone_cspace. do 3 (case_match; [apply rtc_refl|]).
  destruct (t_cspace (task_at k p)) as [pc|]; [|apply rtc_refl].
  destruct (t_cspace (task_at k c)) as [cc|]; [|apply rtc_refl]. cbv zeta.
  set (ss := seqZ _ _). clearbody ss.
  pose proof (clone_slots_op pc cc (task_size (task_at k c)) c 0 ss k Hk) as HC. cbv beta in HC.
  destruct (clone_slots _ _ _ _ _ _ _) as [[n|] k1]; [|exact HC].
  pose proof (ms_count_forked k1 c) as HF. destruct (pipe_count_forked_ends k1 c) as [ok k2].
  cbn [snd] in HC, HF. destruct ok; cbn [snd]; by rewrite HF.
Qed.

(** ** Pipes *)
Lemma close_passes_op {p} n t sz : CapOp p (fun k => close_passes n k t sz).
Proof.
  induction n as [|n IH]; intros k Hk; [apply rtc_refl|]. cbn [close_passes].
  destruct (close_pass k t sz) as [k1|] eqn:E; [|apply rtc_refl].
  assert (rtc (mstep p) (ms k) (ms k1)) as H.
  { revert E. unfold close_pass. destruct (t_cspace _) as [c|]; [|done].
    destruct (find_index _ _ _) as [s|]; [|done].
    pose proof (cap_consume_of_op (p:=p) t s k Hk) as HC. cbv beta in HC.
    destruct (cap_consume_slot_of k t s) as [[ok prev] k2]. cbn [snd] in HC.
    do 2 (case_match; [try done; by intros [= <-]|]). by intros [= <-]. }
  etrans; [exact H|]. apply IH. by eapply msteps_minv.
Qed.
#[global] Instance pipe_close_task_op {p} t : CapOp p (fun k => pipe_close_task_ends k t).
Proof.
  intros k Hk. unfold pipe_close_task_ends. case_match; [apply rtc_refl|]. case_match; [|apply rtc_refl].
  by apply close_passes_op.
Qed.
#[global] Instance h_pipe_close_op {p} s : CapOp p (fun k => (h_pipe_close k s).2).
Proof.
  intros k Hk. unfold h_pipe_close. pose proof (cap_consume_of_op (p:=p) k.(cur) (u32 s) k Hk) as HC. cbv beta in HC.
  destruct (cap_consume_slot_of _ _ _) as [[ok prev] k2]. cbn [snd] in HC. by case_match.
Qed.
#[global] Instance h_pipe_op : CapOp PCreate (fun k => (h_pipe k).2).
Proof.
  intros k Hk. unfold h_pipe. destruct (t_cspace _) as [c|]; [|apply rtc_refl].
  destruct (pipe_alloc _) as [obj ps]. cbv zeta. case_match; [apply rtc_refl|].
  set (k1 := set_pipes (set_pipes _ _) _). change (ms k) with (ms k1). change (minv (ms k1)) in Hk.
  clearbody k1.
  pose proof (cap_install_first_free_op CAP_DYNAMIC_FLOOR CAP_PIPE obj
                (CAP_RIGHT_READ + CAP_RIGHT_REVOKE) eq_refl k1 Hk) as H1. cbv beta in H1.
  destruct (cap_install_object_first_free k1 _ _ _ _ _) as [[rs|] k2]; cbn [snd] in H1; [|exact H1].
  assert (minv (ms k2)) as Hk2 by by eapply msteps_minv.
  pose proof (cap_install_first_free_op CAP_DYNAMIC_FLOOR CAP_PIPE obj
                (CAP_RIGHT_WRITE + CAP_RIGHT_REVOKE) eq_refl k2 Hk2) as H2. cbv beta in H2.
  destruct (cap_install_object_first_free k2 _ _ _ _ _) as [[wsl|] k3]; cbn [snd] in H2;
    [by etrans|].
  assert (minv (ms k3)) as Hk3 by by eapply msteps_minv.
  pose proof (cap_op_mono PCopy PCreate _ ltac:(done) (cap_consume_of_op k3.(cur) rs) k3 Hk3) as H3.
  cbv beta in H3. destruct (cap_consume_slot_of _ _ _) as [[ok prev] k4]. cbn [snd] in *.
  etrans; [exact H1|]. etrans; [exact H2|]. exact H3.
Qed.
#[global] Instance h_pipe_read_op {p} s len cp : CapOp p (fun k => (h_pipe_read k s len cp).2).
Proof.
  intros k _. unfold h_pipe_read, pipe_io_read. destruct (cap_lookup _ _ _ _) as [l|]; simpl.
  - destruct (pipe_read_bytes _ _ _) as [[rc bytes] ps]. case_match; apply rtc_refl.
  - apply rtc_refl.
Qed.
#[global] Instance h_pipe_write_op {p} s len u cp : CapOp p (fun k => (h_pipe_write k s len u cp).2).
Proof.
  intros k _. unfold h_pipe_write, pipe_io_write. do 2 (case_match; [apply rtc_refl|]).
  destruct (cap_lookup _ _ _ _) as [l0|]; [|apply rtc_refl].
  destruct (pipe_write_bytes _ _ _) as [rc ps]. apply rtc_refl.
Qed.

(** ** Making objects *)
Lemma ms_kobj_alloc k u ty pages p i k' : kobj_alloc k u ty pages = Some (p, i, k') -> ms k' = ms k.
Proof.
  unfold kobj_alloc, bump_region. intros H.
  repeat (case_match; simplify_eq; try done).
Qed.

Lemma ms_same_caps k k' : same_caps k k' -> ms k' = ms k.
Proof. intros [H1 H2 _ _ _ _ _]. unfold ms. by rewrite H1, H2. Qed.
Lemma ms_destroy_new k ty i : ms (destroy_new k ty i) = ms k.
Proof.
  unfold destroy_new. apply ms_same_caps.
  case_match; [apply destroy_dyn_endpoint_same_caps|].
  case_match; [apply destroy_dyn_notification_same_caps|apply destroy_dyn_frame_same_caps].
Qed.

Lemma cap_of_kobj_unmarked ty : is_mark (cap_of_kobj ty) = false.
Proof. unfold cap_of_kobj. by repeat case_match. Qed.

Lemma retype_slots_op u ty pages n ds : CapOp PCreate (fun k => (retype_slots k u ty pages n ds).2).
Proof.
  revert n. induction ds as [|d ds IH]; intros n k Hk; [apply rtc_refl|]. cbn [retype_slots].
  destruct (kobj_alloc k u ty pages) as [[[p i] k1]|] eqn:E; [|apply rtc_refl].
  apply ms_kobj_alloc in E. rewrite <- E in Hk |- *.
  pose proof (cap_install_object_op d (cap_of_kobj ty) i RETYPE_RIGHTS (cap_of_kobj_unmarked ty) k1 Hk) as HI.
  cbv beta in HI. destruct (cap_install_object k1 _ _ _ _ _) as [[] k2]; cbn [snd] in *.
  - etrans; [exact HI|]. apply IH. by eapply msteps_minv.
  - by rewrite ms_destroy_new.
Qed.

#[global] Instance untyped_retype_op us ty c pg d : CapOp PCreate (fun k => (untyped_retype k us ty c pg d).2).
Proof.
  intros k Hk. unfold untyped_retype. destruct (untyped_from_slot _ _ _) as [u|]; [|apply rtc_refl].
  do 3 (case_match; [apply rtc_refl|]). cbv zeta. set (pages := if _ && _ then 1 else _). clearbody pages.
  do 4 (case_match; [apply rtc_refl|]). set (ds := seqZ _ _). clearbody ds.
  pose proof (retype_slots_op u ty pages 0 ds k Hk) as HR. cbv beta in HR.
  destruct (retype_slots _ _ _ _ _ _) as [n k1]. exact HR.
Qed.

#[global] Instance untyped_split_op s d b : CapOp PCreate (fun k => (untyped_split k s d b).2).
Proof.
  intros k Hk. unfold untyped_split. do 3 (case_match; [apply rtc_refl|]).
  destruct (untyped_from_slot _ _ _) as [u|]; [|apply rtc_refl].
  destruct (split_region _ _ _) as [e|[c us]]; [apply rtc_refl|].
  pose proof (cap_mint_untyped_op s d c (set_untypeds k us) Hk) as HM. cbv beta in HM.
  destruct (cap_mint_untyped_child _ _ _ _) as [rc k1]. cbn [snd] in HM. case_match; exact HM.
Qed.

#[global] Instance sched_split_op ps us d b pe f now : CapOp PCreate (fun k => (sched_split k ps us d b pe f now).2).
Proof.
  intros k Hk. unfold sched_split. destruct (cap_lookup _ _ _ _) as [l|]; [|apply rtc_refl].
  case_match; [apply rtc_refl|]. destruct (untyped_from_slot _ _ _) as [u|]; [|apply rtc_refl].
  destruct (kobj_alloc k u KOBJ_SCHED_CONTEXT 0) as [[[p i] k1]|] eqn:E; [|apply rtc_refl].
  apply ms_kobj_alloc in E. destruct (sched_carve _ _ _ _ _ _ _) as [rc s]. cbv zeta.
  set (k2 := set_sched k1 s). assert (ms k2 = ms k) as E2 by done. clearbody k2.
  rewrite <- E2 in Hk |- *.
  set (r := if negb (rc =? 0) then _ else _).
  assert (rtc (mstep PCreate) (ms k2) (ms r.2)) as HR.
  { unfold r. case_match; [apply rtc_refl|].
    pose proof (cap_install_derived_op d ps (cap_at k.(mem) l).(serial) CAP_SCHED_CONTEXT i
                  (cap_at k.(mem) l).(rights) k2 Hk) as HI. cbv beta in HI.
    destruct (cap_install_derived_object _ _ _ _ _ _ _) as [ok k3]. exact HI. }
  destruct r as [rc' k3]. cbn [snd] in *. case_match; [|exact HR].
  by rewrite (ms_same_caps _ _ (destroy_dyn_sc_same_caps _ _)).
Qed.

(** ** Birth and death of tasks *)
Lemma space_insert_eq (m : cmem) r l : space (<[r := l]> m) r = l.
Proof. unfold space. by rewrite lookup_insert_eq. Qed.
Lemma space_insert_ne (m : cmem) r r' l : r <> r' -> space (<[r := l]> m) r' = space m r'.
Proof. intros. unfold space. by rewrite lookup_insert_ne. Qed.
Lemma cap_at_new_space (m : cmem) r n l : 
  cap_at (<[r := replicate n null_cap]> m) l = if decide (l.1 = r) then null_cap else cap_at m l.
Proof.
  unfold cap_at. case_decide as H.
  - subst r. rewrite space_insert_eq. unfold zget. case_match; [done|].
    destruct (_ !! _) eqn:E; [|done]. by apply lookup_replicate in E as [-> _].
  - by rewrite space_insert_ne.
Qed.

Lemma birth_cspace_op k id ut :
  match birth_cspace k id ut with
  | inl (Some k') => ms k' = ms k
  | inl None => True
  | inr k' => rtc (mstep PCreate) (ms k) (ms k')
  end.
Proof.
  unfold birth_cspace. cbv zeta.
  assert (forall c k1, (forall l, weaker (cap_at k1.(mem) l) (cap_at k.(mem) l)) ->
    k1.(cap_next_serial) = k.(cap_next_serial) ->
    rtc (mstep PCreate) (ms k)
      (ms (set_mem (upd_task k1 id (fun t => t_set_cspace t (Some c) CNODE_SIZE))
             (clear_slots (mem (upd_task k1 id (fun t => t_set_cspace t (Some c) CNODE_SIZE))) c CNODE_SIZE)))) as HF.
  { intros c k1 Hw Hn. unfold ms. cbn [mem set_mem upd_task set_task set_tasks cap_next_serial].
    rewrite Hn. apply weaken_step. intros l. etrans; [apply clear_slots_weaker|apply Hw]. }
  assert (forall p k1, ms k1 = ms k -> forall l,
    weaker (cap_at (<[CAddr p := replicate (Z.to_nat CNODE_SIZE) null_cap]> k1.(mem)) l) (cap_at k.(mem) l)) as HN.
  { intros p k1 [= -> _] l. rewrite cap_at_new_space. case_decide; auto with horus. }
  destruct (t_cspace _) as [c|], (negb _); try (apply HF; [intros; apply weaker_refl|done]);
    (destruct (kobj_alloc _ _ _ _) as [[[p i] k1]|] eqn:E;
      [apply ms_kobj_alloc in E; apply HF; [by apply HN|by injection E]|done]).
Qed.

(** A birth capability: a new root, or a dead slot when the serials have run
    out. *)
Lemma birth_put m ns l ty r o :
  is_mark ty = false ->
  rtc (mstep PCreate) (m, ns)
      (cap_put m l (mk_cap ty r o 0 (assign_fresh_serial ns).1 0), (assign_fresh_serial ns).2).
Proof.
  intros Hm. pose proof (assign_fresh_serial_cases ns) as Hf.
  destruct (assign_fresh_serial ns) as [s n]. simpl. destruct Hf as [[-> ->]|[Hf ->]].
  - by apply rtc_once, ms_dead.
  - by apply create_root_step.
Qed.
Lemma serial_any_step p m ns : rtc (mstep p) (m, ns) (m, (assign_fresh_serial ns).2).
Proof.
  pose proof (assign_fresh_serial_cases ns) as Hf. destruct (assign_fresh_serial ns) as [s n].
  destruct Hf as [[-> ->]|[Hf ->]]; [apply rtc_refl|by apply serial_step].
Qed.

#[global] Instance birth_own_op id c : CapOp PCreate (fun k => birth_own_caps k id c).
Proof.
  intros k _. unfold birth_own_caps.
  unfold cap_alloc_fresh_serial, rust_cap_alloc_serial.
  destruct (assign_fresh_serial k.(cap_next_serial)) as [b0 n1] eqn:E1. cbn [cap_next_serial set_serial].
  destruct (assign_fresh_serial n1) as [b3 n2] eqn:E2. cbn [cap_next_serial set_serial].
  destruct (assign_fresh_serial n2) as [b4 n3] eqn:E3. cbv zeta.
  etrans. { apply (birth_put k.(mem) k.(cap_next_serial) (c, 0) CAP_TCB CAP_RIGHT_ALL (tcb_object k id)). done. }
  rewrite E1; cbn [fst snd]. etrans. { apply (birth_put _ n1 (c, 3) CAP_FRAME). done. }
  rewrite E2; cbn [fst snd]. case_match.
  - etrans. { apply (birth_put _ n2 (c, 4) CAP_ENDPOINT). done. } rewrite E3. apply rtc_refl.
  - etrans; [apply (serial_any_step _ _ n2)|]. rewrite E3. apply rtc_refl.
Qed.

Lemma birth_caps_op id : id <> 0 -> CapOp PCreate (fun k => birth_caps k id).
Proof.
  intros Hid k Hk. unfold birth_caps. destruct (t_cspace _) as [c|]; [|apply rtc_refl].
  rewrite (proj2 (Z.eqb_neq _ _) Hid). by apply birth_own_op.
Qed.

(** Task 0's capabilities repeat primordial serials, which the invariant
    allows. *)
Lemma birth_caps_minv k id : minv (ms k) -> minv (ms (birth_caps k id)).
Proof.
  intros Hk. unfold birth_caps. destruct (t_cspace _) as [c|]; [|done]. cbv zeta.
  assert (minv (ms (birth_own_caps k id c))) as H1 by (eapply msteps_minv; [by apply birth_own_op|done]).
  case_match; [|done]. unfold birth_boot_caps, ms. cbn [put_cap set_mem mem cap_next_serial].
  apply (minv_put _ (birth_own_caps k id c).(cap_next_serial)); try done;
    [|by left|by left|by right; left].
  apply (minv_put _ (birth_own_caps k id c).(cap_next_serial)); try done; [by left|by left|by right; left].
Qed.

Lemma ms_bind_creator k id : ms (bind_creator_context k id) = ms k.
Proof. done. Qed.

(** What [create_task] leaves, when the machine did not halt. *)
Lemma create_task_op k os id e st ib pp ut k' :
  id <> 0 -> minv (ms k) -> create_task k os id e st ib pp ut = Some k' ->
  rtc (mstep PCreate) (ms k) (ms k').
Proof.
  intros Hid Hk. unfold create_task. do 3 (case_match; [by intros [= <-]|]). cbv zeta.
  set (k1 := upd_task _ _ _). assert (ms k1 = ms k) as E1 by (unfold k1; by case_match). clearbody k1.
  pose proof (birth_cspace_op k1 id ut) as HB. destruct (birth_cspace k1 id ut) as [[k2|]|k2].
  - intros [= <-]. by rewrite HB, E1.
  - done.
  - intros [= <-]. rewrite E1 in HB. etrans; [exact HB|]. apply birth_caps_op; [done|].
    by eapply msteps_minv.
Qed.

#[global] Instance spawn_admin_op id : CapOp PCreate (fun k => spawn_admin_cap k id).
Proof.
  intros k Hk. unfold spawn_admin_cap. destruct (cap_lookup _ _ _ _) as [l|]; [|apply rtc_refl].
  pose proof (alloc_cases k) as HA. destruct (cap_alloc_fresh_serial k) as [s k1].
  assert (0 <= (cap_at k.(mem) l).(serial)) as H0 by apply (mi_serial _ Hk l).
  destruct HA as [[-> ->]|(_ & Hf & ->)].
  - destruct (t_cspace _) as [c|]; [|apply rtc_refl]. case_match; [|apply rtc_refl].
    apply rtc_once, ms_dead; try done. simpl. case_match; lia.
  - destruct (t_cspace _) as [c|]; [|by apply serial_step]. case_match; [|by apply serial_step].
    eapply (create_step _ _ _ (mk_cap _ _ _ _ s _)); [done|done| |done]. simpl.
    pose proof (mi_serial _ Hk l). destruct Hf. unfold MIN_DERIVED_SERIAL in *. simpl in *. case_match; lia.
Qed.

#[global] Instance wire_end_op c ca ps s d r f : CapOp PCopy (fun k => wire_end k c ca ps s d r f).
Proof.
  intros k Hk. unfold wire_end. case_match; [|apply rtc_refl].
  pose proof (cap_child_pipe_op c d ca s r k Hk) as HC. cbv beta in HC.
  destruct (cap_install_child_pipe_end _ _ _ _ _ _) as [[] k1]; exact HC.
Qed.
#[global] Instance wire_stdio_op c ca sp : CapOp PCopy (fun k => wire_child_stdio k c ca sp).
Proof.
  intros k Hk. unfold wire_child_stdio. set (k1 := upd_task k c _). change (ms k) with (ms k1).
  change (minv (ms k1)) in Hk. clearbody k1. cbv zeta. do 2 (case_match; [apply rtc_refl|]).
  destruct (t_cspace _); [|apply rtc_refl]. destruct (t_cspace _); [|apply rtc_refl].
  etrans; [by apply wire_end_op|]. apply wire_end_op.
  eapply msteps_minv; [by apply wire_end_op|done].
Qed.
#[global] Instance grant_tcb_op s p : CapOp PCreate (fun k => grant_child_tcb_cap k s p).
Proof.
  intros k Hk. unfold grant_child_tcb_cap. do 2 (case_match; [apply rtc_refl|]).
  by apply cap_install_first_free_op.
Qed.

#[global] Instance teardown_body_op {p} id c : CapOp p (fun k => (task_teardown_body k id c).2).
Proof.
  intros k Hk. unfold task_teardown_body. case_match; [apply rtc_refl|]. cbv zeta. cbn [snd].
  set (k1 := upd_task k id _). change (ms k) with (ms k1). change (minv (ms k1)) in Hk. clearbody k1.
  pose proof (pipe_close_task_op (p:=p) id k1 Hk) as HP. cbv beta in HP.
  etrans; [exact HP|]. set (k2 := pipe_close_task_ends k1 id) in *.
  assert (minv (ms k2)) as Hk2 by by eapply msteps_minv. clearbody k2.
  set (k3 := if _ && _ then _ else k2). assert (ms k3 = ms k2) as E3 by (unfold k3; by case_match).
  clearbody k3. unfold cap_release_cspace_and_collect.
  match goal with |- rtc _ _ (ms (release_cspace ?x _ _)) => set (k4 := x) end.
  assert (ms k4 = ms k2) as E4 by (rewrite <- E3; reflexivity). clearbody k4. rewrite <- E4 in Hk2 |- *.
  by apply release_op.
Qed.
#[global] Instance teardown_op {p} id c : CapOp p (fun k => task_teardown k id c).
Proof.
  intros k Hk. unfold task_teardown. case_match; [apply rtc_refl|].
  pose proof (teardown_body_op (p:=p) id c k Hk) as HT. cbv beta in HT.
  destruct (task_teardown_body k id c) as [[[[w g] rec]|] k1]; [|exact HT]. by case_match.
Qed.
