(* ===== verification/IpcOps.v ===== *)
(** What IPC and the task system calls do to the capability memory: each is a
    path of quiet steps, which leave it and the quotas alone, and of at most a
    few capability operations.  The paths make every handler an operation of
    the transition system of CapInv. *)
From S2P Require Import Prelude KTypes CapCore CapRevoke Pipe SchedCtx KState Endpoint Untyped CSpace PipeSys Retype TaskLife CapSys Ipc TaskSys CapInv CapOps.

(** ** Quiet steps *)
Record quiet (k k' : kstate) : Prop := {
  qt_mem : k'.(mem) = k.(mem);
  qt_serial : k'.(cap_next_serial) = k.(cap_next_serial);
  qt_ciu : k'.(caps_in_use) = k.(caps_in_use);
  qt_pipes : k'.(pipes) = k.(pipes)
}.
#[global] Instance quiet_preorder : PreOrder quiet.
Proof. split; [by constructor|]. intros a b c [] []. constructor; congruence. Qed.

Lemma quiet_upd_task k t f : quiet k (upd_task k t f).
Proof. done. Qed.
Lemma quiet_put_endpoint k i e : quiet k (put_endpoint k i e).
Proof. unfold put_endpoint. by case_match. Qed.
Lemma quiet_put_notification k i n : quiet k (put_notification k i n).
Proof. unfold put_notification. by case_match. Qed.
Lemma quiet_wake k t : quiet k (wake k t).
Proof. done. Qed.
#[export] Hint Resolve quiet_upd_task quiet_put_endpoint quiet_put_notification quiet_wake : horus.

(** ** Paths *)
Inductive ipath (p : power) : kstate -> kstate -> Prop :=
| ip_quiet k k' : quiet k k' -> ipath p k k'
| ip_reply k pid s g : may_create p = true -> ipath p k (cap_install_reply_for k pid s g).2
| ip_object k o : may_create p = true ->
    ipath p k (cap_install_object k CAPSLOT_REPLY CAP_REPLY o CAP_RIGHT_WRITE 0).2
| ip_mint k pid i ser ep d r tok : may_retoken p = true ->
    ipath p k (cap_reply_mint_into k pid i ser ep d r tok).2
| ip_consume k d : ipath p k (cap_consume_slot k d).2
| ip_kill k id c : ipath p k (task_teardown k id c)
| ip_trans k1 k2 k3 : ipath p k1 k2 -> ipath p k2 k3 -> ipath p k1 k3.
#[global] Instance ipath_preorder p : PreOrder (ipath p).
Proof. split; [intros k; by apply ip_quiet|]. intros a b c. apply ip_trans. Qed.

Lemma ipath_ms p k k' : ipath p k k' -> minv (ms k) -> rtc (mstep p) (ms k) (ms k').
Proof.
  induction 1 as [k k' [Hm Hs _ _]|k pid s g Hp|k o Hp|k pid i ser ep d r tok Hp|k d|k id c|k1 k2 k3 _ IH1 _ IH2];
    intros Hk.
  - unfold ms. rewrite Hm, Hs. apply rtc_refl.
  - refine (cap_op_mono PCreate p _ _ (cap_install_reply_op pid s g) k Hk). by destruct p.
  - refine (cap_op_mono PCreate p _ _ (cap_install_object_op CAPSLOT_REPLY CAP_REPLY o CAP_RIGHT_WRITE eq_refl) k Hk). by destruct p.
  - refine (cap_op_mono PReply p _ _ (cap_reply_mint_op pid i ser ep d r tok) k Hk). by destruct p.
  - by apply cap_consume_op.
  - by apply teardown_op.
  - etrans; [by apply IH1|]. apply IH2. by eapply msteps_minv; [apply IH1|].
Qed.

Lemma quiet_path p k k' : quiet k k' -> ipath p k k'.
Proof. apply ip_quiet. Qed.
Lemma path_then_quiet p k k1 k2 : ipath p k k1 -> quiet k1 k2 -> ipath p k k2.
Proof. intros H1 H2. eapply ip_trans; [exact H1|]. by apply ip_quiet. Qed.
#[export] Hint Resolve quiet_path : horus.

(** Peel quiet updates off the result. *)
Ltac quiet_tail :=
  repeat (first [ eapply path_then_quiet; [|apply quiet_upd_task]
                | eapply path_then_quiet; [|apply quiet_put_endpoint]
                | eapply path_then_quiet; [|apply quiet_put_notification] ]).

(** ** The handlers as paths *)
Section paths.
Context (p : power).

Lemma send_to_waiter_path k ep e w u len inv :
  may_create p = true -> ipath p k (ipc_send_to_waiter k ep e w u len inv).2.
Proof.
  intros Hp. unfold ipc_send_to_waiter. cbv zeta.
  set (len' := if _ && _ then _ else len). clearbody len'. case_match; [done|]. case_match; [|done].
  case_match; [|cbn [snd]; unfold wake_unblock, set_frame_rax; quiet_tail; done].
  match goal with |- context [cap_install_reply_for ?k1 w ?s ?g] =>
    pose proof (ip_reply p k1 w s g Hp) as HR;
    destruct (cap_install_reply_for k1 w s g) as [ok k2]
  end.
  assert (ipath p k k2) as H2.
  { eapply ip_trans; [|exact HR]. unfold upd_ipc, set_frame_rax. quiet_tail. done. }
  destruct ok; cbn [fst snd]; unfold wake_unblock; quiet_tail; exact H2.
Qed.

Lemma sys_ipc_send_path k ep u len inv : may_create p = true -> ipath p k (sys_ipc_send k ep u len inv).2.
Proof.
  intros Hp. unfold sys_ipc_send, sys_ipc_send_locked. case_match; [|done]. cbv zeta.
  repeat case_match; cbn [fst snd]; first [done|by apply send_to_waiter_path|quiet_tail; done].
Qed.

Lemma sys_ipc_recv_path k ep u msg max : may_create p = true -> ipath p k (sys_ipc_recv k ep u msg max).2.
Proof.
  intros Hp. unfold sys_ipc_recv. case_match; [|done]. cbv zeta. case_match; [done|]. case_match; [done|].
  destruct (ep_dequeue _ _) as [d e']. case_match; cbn [fst snd]; [quiet_tail; done|].
  case_match; cbn [fst snd]; [|quiet_tail; done]. eapply ip_trans; [|by apply ip_object]. quiet_tail. done.
Qed.

Lemma recv_block_path fuel k ep rcx rdx u acc r :
  may_create p = true -> recv_block_loop fuel k ep rcx rdx u acc = Some r -> ipath p k r.2.
Proof.
  intros Hp. revert k acc. induction fuel as [|n IH]; intros k acc; simpl; [done|].
  case_match; [|done]. case_match; [|intros [= <-]; cbn [snd]; quiet_tail; done].
  pose proof (sys_ipc_recv_path k ep u (u64 rcx) rdx Hp) as HR1. destruct (sys_ipc_recv _ _ _ _ _) as [[rc cs] k1].
  case_match; [|by intros [= <-]]. intros HR2%IH. by eapply ip_trans.
Qed.

Lemma call_common_path k s u len rb rs cs :
  may_create p = true -> ipath p k (ipc_call_common k s u len rb rs cs).2.
Proof.
  intros Hp. unfold ipc_call_common. case_match; [done|]. repeat case_match; subst; cbn [fst snd];
  match goal with H : sys_ipc_send ?k1 ?ep ?u ?l ?i = _ |- _ =>
    pose proof (sys_ipc_send_path k1 ep u l i Hp) as HS; rewrite H in HS; cbn [snd] in HS end;
  quiet_tail; (eapply ip_trans; [|exact HS]); quiet_tail; done.
Qed.

Lemma reply_deliver_path k t kbuf : ipath p k (reply_deliver k t kbuf).2.
Proof.
  unfold reply_deliver. case_match; [|done]. cbn [snd]. eapply ip_trans; [|apply ip_consume].
  quiet_tail. repeat case_match; quiet_tail; done.
Qed.

Lemma reply_common_path k rbx rdx u m :
  (m = None \/ may_retoken p = true) -> ipath p k (ipc_reply_common k rbx rdx u m).2.
Proof.
  intros Hp. unfold ipc_reply_common. case_match; [|done]. cbv zeta.
  set (len := if IPC_MSG_MAX <? u64 rdx then _ else _). clearbody len. case_match; [|done].
  case_match; [apply ip_consume|]. case_match; [case_match; [done|apply ip_consume]|].
  case_match; [done|]. destruct m as [[rts tok]|]; [|apply reply_deliver_path].
  destruct Hp as [|Hp]; [done|]. case_match; [done|].
  match goal with |- context [cap_reply_mint_into ?k ?a ?b ?c ?d ?e ?f ?g] =>
    pose proof (ip_mint p k a b c d e f g Hp) as HM; destruct (cap_reply_mint_into k a b c d e f g) as [ok k1] end.
  case_match; [|done]. eapply ip_trans; [exact HM|]. apply reply_deliver_path.
Qed.

Lemma publish_path k c : may_create p = true -> ipath p k (ipc_publish_pending_block k c).2.
Proof.
  intros Hp. unfold ipc_publish_pending_block. do 2 (case_match; [done|]).
  case_match; [|unfold give_up_block, upd_ipc; quiet_tail; done].
  case_match; [|repeat case_match; unfold publish_wait, publish_notif, give_up_block, wake_unblock, set_frame_rax, upd_ipc in *;
    repeat case_match; simplify_eq; cbn [fst snd]; quiet_tail; done].
  unfold publish_ipc. case_match; [|unfold give_up_block, upd_ipc; quiet_tail; done].
  cbv zeta. case_match; [|cbn [snd]; quiet_tail; unfold upd_ipc; quiet_tail; done].
  destruct (ep_dequeue _ _) as [d e']. cbn [fst snd]. unfold wake_unblock, upd_ipc at 1. quiet_tail.
  case_match; [eapply ip_trans; [|by apply ip_reply]|]; unfold set_frame_rax, upd_ipc; quiet_tail; done.
Qed.

Lemma syscall_exit_path k rax rbx : may_create p = true -> ipath p k (syscall_exit k rax rbx).2.
Proof.
  intros Hp. unfold syscall_exit. case_match; [|done]. unfold ipc_block_switch.
  repeat case_match; simplify_eq; cbn [fst snd]; try done; [|quiet_tail; done].
  match goal with H : ipc_publish_pending_block ?k1 ?c = _ |- _ =>
    pose proof (publish_path k1 c Hp) as HP; rewrite H in HP; cbn [snd] in HP end.
  eapply ip_trans; [|exact HP]. quiet_tail. done.
Qed.
End paths.

(** ** Handlers that are quiet, or kill *)
Ltac quiet_cases := repeat case_match; simplify_eq; cbn [fst snd]; try done;
  repeat (etrans; [|first [apply quiet_upd_task|apply quiet_put_notification]]); try done.

Lemma sys_notify_quiet k i b : quiet k (sys_notify k i b).2.
Proof. unfold sys_notify, wake. quiet_cases. Qed.
Lemma h_notify_quiet k rbx rcx : quiet k (h_notify k rbx rcx).2.
Proof.
  unfold h_notify. case_match; [|done]. match goal with |- context [sys_notify ?k ?i ?b] =>
    pose proof (sys_notify_quiet k i b) as HQ; by destruct (sys_notify k i b) end.
Qed.
Lemma h_wait_notify_quiet k rbx : quiet k (h_wait_notify k rbx).2.
Proof. unfold h_wait_notify, sys_wait_notify. quiet_cases. Qed.
Lemma h_poll_notify_quiet k rbx : quiet k (h_poll_notify k rbx).2.
Proof. unfold h_poll_notify, sys_poll_notify. quiet_cases. Qed.
Lemma interrupt_wait_quiet k t : quiet k (signal_interrupt_wait k t).
Proof. unfold signal_interrupt_wait, set_frame_rax, wake. quiet_cases. Qed.
Lemma h_signal_path p k rbx rcx : ipath p k (h_signal_locked k rbx rcx).2.
Proof.
  unfold h_signal_locked. cbv zeta. do 3 (case_match; [done|]). case_match; [apply ip_kill|]. cbn [snd].
  apply ip_quiet. unfold upd_sig. case_match; [|done]. etrans; [|apply interrupt_wait_quiet]. apply quiet_upd_task.
Qed.
Lemma h_task_resume_quiet k rbx : quiet k (h_task_resume_locked k rbx).2.
Proof. unfold h_task_resume_locked. quiet_cases. Qed.
Lemma h_wait_quiet k rbx : quiet k (h_wait_locked k rbx).2.
Proof. unfold h_wait_locked. quiet_cases. Qed.
Lemma h_sigaction_quiet k rbx : quiet k (h_sigaction k rbx).2.
Proof. unfold h_sigaction, upd_sig. quiet_cases. Qed.
Lemma h_sigmask_quiet k rbx rcx : quiet k (h_sigmask k rbx rcx).2.
Proof. unfold h_sigmask, upd_sig. case_match; [done|]. apply quiet_upd_task. Qed.
Lemma h_sigaltstack_quiet k rbx rcx : quiet k (h_sigaltstack k rbx rcx).2.
Proof. unfold h_sigaltstack, upd_sig. quiet_cases. Qed.
Lemma try_deliver_quiet k f c s a f' k' : try_deliver_fault_signal k f c s a = Some (f', k') -> quiet k k'.
Proof. unfold try_deliver_fault_signal, upd_sig. intros. repeat case_match; simplify_eq; apply quiet_upd_task. Qed.
Lemma deliver_pending_quiet k f t : quiet k (deliver_pending_signal k f t).2.
Proof.
  unfold deliver_pending_signal. do 3 (case_match; [done|]). case_match; [|done].
  case_match; simplify_eq. cbn [snd]. etrans; [by eapply try_deliver_quiet|]. apply quiet_upd_task.
Qed.
Lemma h_sbrk_quiet k rbx : quiet k (h_sbrk k rbx).2.
Proof. unfold h_sbrk. quiet_cases. Qed.
Lemma h_brk_quiet k rbx : quiet k (h_brk k rbx).2.
Proof. unfold h_brk. quiet_cases. Qed.
Lemma set_priority_quiet k c t x m : quiet k (sched_set_priority k c t x m).2.
Proof. unfold sched_set_priority. quiet_cases. Qed.
Lemma h_set_priority_quiet k rbx rcx rdx : quiet k (h_sched_set_priority_locked k rbx rcx rdx).2.
Proof.
  unfold h_sched_set_priority_locked. do 2 (case_match; [done|]).
  match goal with |- context [sched_set_priority ?k ?c ?t ?x ?m] =>
    pose proof (set_priority_quiet k c t x m) as HQ; by destruct (sched_set_priority k c t x m) end.
Qed.
Lemma h_sched_bind_quiet k rbx rcx : quiet k (h_sched_bind_locked k rbx rcx).2.
Proof. unfold h_sched_bind_locked. quiet_cases. Qed.

(** ** IPC and task calls as operations *)
Inductive ipc_op :=
| ISend (rbx rdx : Z) (u : uenv)
| ICall (rbx rsi rdi : Z) (u : uenv)
| ICallCap (rbx rcx rsi rdi r8 : Z) (u : uenv)
| IRecv (rbx rcx rdx : Z) (u : uenv)
| IRecvBlock (rbx rcx rdx : Z) (u : uenv)
| IReply (rbx rdx : Z) (u : uenv)
| IReplyTo (rbx rdx : Z) (u : uenv)
| IReplyCap (rbx rdx rsi rdi : Z) (u : uenv)
| INotify (rbx rcx : Z)
| IWaitNotify (rbx : Z)
| IPollNotify (rbx : Z)
| ISyscallExit (rax rbx : Z).
Definition ipc_run (o : ipc_op) (k : kstate) : kstate :=
  match o with
  | ISend rbx rdx u => (h_ipc_send k rbx rdx u).2
  | ICall rbx rsi rdi u => (h_ipc_call k rbx rsi rdi u).2
  | ICallCap rbx rcx rsi rdi r8 u => (h_ipc_call_cap k rbx rcx rsi rdi r8 u).2
  | IRecv rbx rcx rdx u => (h_ipc_recv k rbx rcx rdx u).2
  | IRecvBlock rbx rcx rdx u => default k (snd <$> h_ipc_recv_block k rbx rcx rdx u)
  | IReply rbx rdx u => (h_ipc_reply k rbx rdx u).2
  | IReplyTo rbx rdx u => (h_ipc_reply_to k rbx rdx u).2
  | IReplyCap rbx rdx rsi rdi u => (h_ipc_reply_cap k rbx rdx rsi rdi u).2
  | INotify rbx rcx => (h_notify k rbx rcx).2
  | IWaitNotify rbx => (h_wait_notify k rbx).2
  | IPollNotify rbx => (h_poll_notify k rbx).2
  | ISyscallExit rax rbx => (syscall_exit k rax rbx).2
  end.
Definition ipc_power (o : ipc_op) : power :=
  match o with
  | IReplyTo _ _ _ | INotify _ _ | IWaitNotify _ | IPollNotify _ => PUser
  | IReplyCap _ _ _ _ _ => PReply
  | _ => PCreate
  end.

Lemma ipc_run_path o k : ipath (ipc_power o) k (ipc_run o k).
Proof.
  destruct o; cbn [ipc_run ipc_power].
  - unfold h_ipc_send. destruct (ipc_ep_and_invoker _ _ _) as [[[ep inv] ser]|]; [|done].
    pose proof (sys_ipc_send_path PCreate k ep u (u64 rdx) (Some inv) eq_refl) as HP. by destruct (sys_ipc_send _ _ _ _ _) as [[??]?].
  - by apply call_common_path.
  - by apply call_common_path.
  - unfold h_ipc_recv. destruct (ipc_ep_from_slot _ _ _) as [ep|]; [|done].
    pose proof (sys_ipc_recv_path PCreate k ep u (u64 rcx) rdx eq_refl) as HP. by destruct (sys_ipc_recv _ _ _ _ _) as [[??]?].
  - unfold h_ipc_recv_block. repeat case_match; try done. destruct (recv_block_loop _ _ _ _ _ _ _) as [r|] eqn:E; [|done].
    by eapply recv_block_path.
  - unfold h_ipc_reply, sys_ipc_reply. destruct (ipc_ep_from_slot _ _ _) as [ep|]; [|done].
    pose proof (sys_ipc_send_path PCreate k ep u (u64 rdx) None eq_refl) as HP. by destruct (sys_ipc_send _ _ _ _ _) as [[??]?].
  - apply reply_common_path. by left.
  - apply reply_common_path. by right.
  - apply ip_quiet, h_notify_quiet.
  - apply ip_quiet, h_wait_notify_quiet.
  - apply ip_quiet, h_poll_notify_quiet.
  - by apply syscall_exit_path.
Qed.
#[global] Instance ipc_run_op o : CapOp (ipc_power o) (ipc_run o).
Proof. intros k Hk. apply ipath_ms; [apply ipc_run_path|done]. Qed.

Inductive task_op :=
| TSignal (rbx rcx : Z)
| TResume (rbx : Z)
| TWait (rbx : Z)
| TSigaction (rbx : Z)
| TSigmask (rbx rcx : Z)
| TSigaltstack (rbx rcx : Z)
| TDeliver (f : uframe) (tid : Z)
| TSigreturn (f : uframe)
| TSbrk (rbx : Z)
| TBrk (rbx : Z)
| TSetPriority (rbx rcx rdx : Z)
| TSchedBind (rbx rcx : Z).
Definition task_run (o : task_op) (k : kstate) : kstate :=
  match o with
  | TSignal rbx rcx => (h_signal_locked k rbx rcx).2
  | TResume rbx => (h_task_resume_locked k rbx).2
  | TWait rbx => (h_wait_locked k rbx).2
  | TSigaction rbx => (h_sigaction k rbx).2
  | TSigmask rbx rcx => (h_sigmask k rbx rcx).2
  | TSigaltstack rbx rcx => (h_sigaltstack k rbx rcx).2
  | TDeliver f tid => (deliver_pending_signal k f tid).2
  | TSigreturn f => default k (snd <$> sigreturn k f)
  | TSbrk rbx => (h_sbrk k rbx).2
  | TBrk rbx => (h_brk k rbx).2
  | TSetPriority rbx rcx rdx => (h_sched_set_priority_locked k rbx rcx rdx).2
  | TSchedBind rbx rcx => (h_sched_bind_locked k rbx rcx).2
  end.
Lemma task_run_path p o k : ipath p k (task_run o k).
Proof.
  destruct o; cbn [task_run].
  - apply h_signal_path.
  - apply ip_quiet, h_task_resume_quiet.
  - apply ip_quiet, h_wait_quiet.
  - apply ip_quiet, h_sigaction_quiet.
  - apply ip_quiet, h_sigmask_quiet.
  - apply ip_quiet, h_sigaltstack_quiet.
  - apply ip_quiet, deliver_pending_quiet.
  - unfold sigreturn. case_match; [|done]. apply ip_quiet, quiet_upd_task.
  - apply ip_quiet, h_sbrk_quiet.
  - apply ip_quiet, h_brk_quiet.
  - apply ip_quiet, h_set_priority_quiet.
  - apply ip_quiet, h_sched_bind_quiet.
Qed.
#[global] Instance task_run_op {p} o : CapOp p (task_run o).
Proof. intros k Hk. apply ipath_ms; [apply task_run_path|done]. Qed.
