(* ===== verification/Kernel.v ===== *)
(** The kernel as a machine that executes operations: every modelled system
    call and kernel-internal operation as one constructor, an executable
    interpreter, and the invariants of the capability memory over whole runs
    from boot. *)
From S2P Require Import Prelude KTypes CapCore CapRevoke Pipe SchedCtx KState Endpoint Untyped CSpace PipeSys Retype TaskLife CapSys Ipc TaskSys CapInv CapOps IpcOps.

(** ** Operations

    [OSwitch] is the scheduler choosing another task.  Operations of the
    environment carry what they read from outside the model: user memory, the
    CPUs' stacks, the clock, the loader's and the pager's results. *)
Inductive kop :=
| OSwitch (t : Z)
| OMint (dest src rts : Z)
| OMintToken (dest src rts tok : Z)
| OTransfer (dest src : Z)
| OMove (dest src : Z)
| ORevoke (slot : Z)
| OGrant (target src dest : Z)
| OIpc (o : ipc_op)
| OTask (o : task_op)
| OConsume (slot : Z)
| OInstallRoot (pid slot root_slot obj : Z)
| ORetype (ut ty count pages dest : Z)
| OSplit (src dest bytes : Z)
| OSchedSplit (parent ut dest budget period flags now : Z)
| OPipe
| OPipeRead (slot len : Z) (copied : bool)
| OPipeWrite (slot len : Z) (user : Z -> Z) (copied : bool)
| OPipeClose (slot : Z)
| OSpawn (on_stack : Z -> bool) (img : staged) (caller spec ut : Z)
| OGrantTcb (spawner pid : Z)
| OFork (on_stack : Z -> bool) (has_aspace : bool) (rc rbx : Z)
| OKill (target : Z)
| OExit (id : Z) (cause : option exit_cause).

(** What the operation does.  A halted machine stays where it was. *)
Definition kdo (o : kop) (k : kstate) : kstate :=
  match o with
  | OSwitch t => set_cur k t
  | OMint d s r => (h_cap_mint k d s r).2
  | OMintToken d s r tok => (h_cap_mint_token k d s r tok).2
  | OTransfer d s => (h_cap_transfer k d s).2
  | OMove d s => (h_cap_move k d s).2
  | ORevoke s => (h_cap_revoke k s).2
  | OGrant t s d => (h_cap_grant_locked k t s d).2
  | OIpc o => ipc_run o k
  | OTask o => task_run o k
  | OConsume s => (cap_consume_slot k s).2
  | OInstallRoot pid s rs o => (cap_install_from_root k pid s rs o).2
  | ORetype u ty c pg d => (untyped_retype k u ty c pg d).2
  | OSplit s d b => (untyped_split k s d b).2
  | OSchedSplit p u d b pe f now => (sched_split k p u d b pe f now).2
  | OPipe => (h_pipe k).2
  | OPipeRead s len c => (h_pipe_read k s len c).2
  | OPipeWrite s len u c => (h_pipe_write k s len u c).2
  | OPipeClose s => (h_pipe_close k s).2
  | OSpawn os img ca sp ut => default k (snd <$> do_spawn_inner k os img ca sp ut)
  | OGrantTcb s p => grant_child_tcb_cap k s p
  | OFork os ha rc rbx => default k (snd <$> h_fork k os ha rc rbx)
  | OKill t => (h_kill_locked k t).2
  | OExit id c => task_teardown k id c
  end.
(** The caller of a system call is runnable and has no block to publish: a task
    leaves the CPU before it is either, and a dead one is not served
    (interrupt_handler64, idt.c).  [OSwitch] and what the kernel does on its
    own account need no caller. *)
Definition caller_runs (k : kstate) : bool :=
  ((cur_task k).(t_state) =? TASK_RUNNABLE) && ((cur_task k).(t_ipc).(ip_pending_block) =? 0).
Definition op_enabled (o : kop) (k : kstate) : bool :=
  match o with
  | OSwitch t => in_range 0 (g_max_tasks k) t && ((task_at k t).(t_state) =? TASK_RUNNABLE)
  | OInstallRoot _ _ _ _ | OExit _ _ | OIpc (ISyscallExit _ _) | OTask (TDeliver _ _) => true
  | _ => caller_runs k
  end.
Definition krun (o : kop) (k : kstate) : kstate := if op_enabled o k then kdo o k else k.
Definition kexec (ops : list kop) (k : kstate) : kstate := foldl (fun k o => krun o k) k ops.

(** The power an operation has over the capability memory. *)
Definition op_power (o : kop) : power :=
  match o with
  | OIpc o => ipc_power o
  | OInstallRoot _ _ _ _ | ORetype _ _ _ _ _ | OSplit _ _ _
  | OSchedSplit _ _ _ _ _ _ _ | OPipe | OSpawn _ _ _ _ _ | OGrantTcb _ _ | OFork _ _ _ _ => PCreate
  | _ => PUser
  end.

(** The kernel once cap_init and create_task(0) have run; [nic] as for
    [cap_init]. *)
Definition boot_kernel (arena ntasks pages : Z) (nic : option Z) : kstate :=
  let k := cap_init (boot_state arena ntasks pages) nic in
  default k (create_task k (fun _ => false) 0 0 0 0 0 UNTYPED_KERNEL).

(** ** Every operation is one of the transition system *)
Lemma ms_spawn_tail k id : ms (sched_spawn_finish (sched_fabricate_user_frame k id) id) = ms k.
Proof. unfold sched_spawn_finish, sched_fabricate_user_frame. by repeat case_match. Qed.

#[global] Instance do_spawn_op os img ca sp ut :
  CapOp PCreate (fun k => default k (snd <$> do_spawn_inner k os img ca sp ut)).
Proof.
  intros k Hk. unfold do_spawn_inner. case_match; [apply rtc_refl|].
  destruct (sched_pick_free_slot _ _) as [id|] eqn:Eid; [|apply rtc_refl].
  assert (id <> 0) as Hid by (apply find_index_Some in Eid; lia).
  destruct (create_task _ _ _ _ _ _ _ _) as [k1|] eqn:EC; [|apply rtc_refl].
  apply create_task_op in EC; [|done|done]. assert (minv (ms k1)) as Hk1 by by eapply msteps_minv.
  case_match; [exact EC|]. case_match; [exact EC|]. cbv zeta. simpl.
  etrans; [exact EC|]. pose proof (spawn_admin_op id k1 Hk1) as HA. cbv beta in HA.
  etrans; [exact HA|]. rewrite ms_spawn_tail. apply (cap_op_mono PCopy PCreate _ ltac:(done) (wire_stdio_op id ca sp)).
  by eapply msteps_minv.
Qed.

#[global] Instance h_fork_op os ha rc rbx : CapOp PCreate (fun k => default k (snd <$> h_fork k os ha rc rbx)).
Proof.
  intros k Hk. unfold h_fork. do 2 (case_match; [apply rtc_refl|]).
  destruct (spawn_untyped_region k) as [ut|]; [|apply rtc_refl].
  destruct (sched_pick_free_slot _ _) as [id|] eqn:Eid; [|apply rtc_refl].
  assert (id <> 0) as Hid by (apply find_index_Some in Eid; lia).
  destruct (create_task _ _ _ _ _ _ _ _) as [k1|] eqn:EC; [|apply rtc_refl].
  apply create_task_op in EC; [|done|done]. assert (minv (ms k1)) as Hk1 by by eapply msteps_minv.
  case_match; [exact EC|]. cbv zeta. case_match; [exact EC|].
  set (k2 := upd_task k1 id _). change (ms k1) with (ms k2) in EC. change (minv (ms k2)) in Hk1. clearbody k2.
  pose proof (cap_op_mono PCopy PCreate _ ltac:(done) (cap_clone_op k.(cur) id) k2 Hk1) as HC. cbv beta in HC.
  destruct (cap_clone_cspace _ _ _) as [n k3]. cbn [snd] in HC.
  assert (minv (ms k3)) as Hk3 by by eapply msteps_minv.
  case_match; [by etrans|]. simpl. etrans; [exact EC|]. etrans; [exact HC|]. by apply grant_tcb_op.
Qed.

#[global] Instance h_cap_grant_op {p} t s d : CapOp p (fun k => (h_cap_grant_locked k t s d).2).
Proof.
  intros k Hk. unfold h_cap_grant_locked. guards.
  unfold cap_grant_from_user in *.
  match goal with H : cap_grant_common k ?t ?d ?s ?r ?fu = _ |- _ =>
    pose proof (cap_grant_user_op (p:=p) t d s r k Hk) as HG; cbv beta in HG; rewrite H in HG end. exact HG.
Qed.
#[global] Instance h_kill_op {p} t : CapOp p (fun k => (h_kill_locked k t).2).
Proof. intros k Hk. unfold h_kill_locked. guards. by apply teardown_op. Qed.

Lemma kdo_op o : CapOp (op_power o) (kdo o).
Proof.
  destruct o; simpl; try apply _.
  - by apply cap_op_frame.
  - intros k Hk. unfold kdo, h_cap_mint. pose proof (cap_mint_op (p:=PUser) (u32 dest) (u32 src) (u32 rts) k Hk) as H.
    cbv beta in H. destruct (cap_mint _ _ _ _). exact H.
  - intros k Hk. unfold kdo, h_cap_mint_token.
    pose proof (cap_mint_token_op (p:=PUser) (u32 dest) (u32 src) (u32 rts) tok k Hk) as H.
    cbv beta in H. destruct (cap_mint_token _ _ _ _ _). exact H.
  - intros k Hk. unfold kdo, h_cap_transfer. pose proof (cap_transfer_op (p:=PUser) (u32 dest) (u32 src) k Hk) as H.
    cbv beta in H. destruct (cap_transfer _ _ _). exact H.
  - intros k Hk. unfold kdo, h_cap_move. pose proof (cap_move_op (p:=PUser) (u32 dest) (u32 src) k Hk) as H.
    cbv beta in H. destruct (cap_move _ _ _). exact H.
  - intros k Hk. unfold kdo, h_cap_revoke. pose proof (cap_revoke_op (p:=PUser) (u32 slot) k Hk) as H.
    cbv beta in H. destruct (cap_revoke _ _). exact H.
  - apply cap_install_from_root_op.
Qed.

Lemma krun_op o : CapOp (op_power o) (krun o).
Proof. intros k Hk. unfold krun. case_match; [by apply kdo_op|apply rtc_refl]. Qed.

Lemma kexec_op p ops k :
  Forall (fun o => power_le (op_power o) p) ops -> minv (ms k) -> rtc (mstep p) (ms k) (ms (kexec ops k)).
Proof.
  intros Hp. revert k. induction Hp as [|o ops Ho _ IH]; intros k Hk; [apply rtc_refl|].
  assert (rtc (mstep p) (ms k) (ms (krun o k))) as H1 by by apply (cap_op_mono _ _ _ Ho (krun_op o)).
  etrans; [exact H1|]. apply IH. by eapply msteps_minv.
Qed.

(** ** The invariant holds at boot *)
Definition primordial (c : capability) : Prop :=
  0 <= c.(serial) <= MIN_DERIVED_SERIAL /\ c.(badge) = 0 /\ c.(token) = 0 /\ is_mark c.(ctype) = false.

Lemma minv_primordial m ns : (forall l, primordial (cap_at m l)) -> minv (m, ns).
Proof.
  intros H. constructor; simpl.
  - intros l. destruct (H l). lia.
  - intros l1 l2 Hl. destruct (H l1). lia.
  - intros l. destruct (H l) as (_ & -> & _). lia.
  - intros l. apply H.
  - intros l Hl. by destruct (H l) as (_ & _ & ? & _).
Qed.

Lemma root_cnode_primordial nic : Forall primordial (root_cnode nic).
Proof.
  unfold root_cnode.
  assert (Forall (fun e => primordial e.2) (root_caps nic)) as HF.
  { unfold root_caps, MIN_DERIVED_SERIAL. destruct nic; repeat constructor; done. }
  assert (Forall primordial (replicate (Z.to_nat CNODE_SIZE) null_cap)) as H0.
  { apply Forall_replicate. by repeat split. }
  revert H0. generalize (replicate (Z.to_nat CNODE_SIZE) null_cap).
  induction HF as [|e L He _ IH]; intros acc Hacc; simpl; [done|]. apply IH.
  unfold zset. case_match; [done|]. by apply Forall_insert.
Qed.

Lemma boot_minv arena ntasks pages nic : minv (ms (boot_kernel arena ntasks pages nic)).
Proof.
  unfold boot_kernel. set (k0 := cap_init _ nic).
  assert (minv (ms k0)) as H0.
  { apply minv_primordial. intros [c i]. unfold cap_at, k0. simpl.
    destruct (decide (c = CRoot)) as [->|Hc].
    - rewrite space_insert_eq. unfold zget. case_match; [by repeat split|].
      destruct (_ !! _) as [x|] eqn:E; [|by repeat split].
      exact (proj1 (Forall_lookup _ _) (root_cnode_primordial nic) _ _ E).
    - rewrite space_insert_ne by done. unfold space. rewrite lookup_singleton_ne by done.
      unfold zget. by case_match; repeat split. }
  destruct (create_task _ _ _ _ _ _ _ _) as [k1|] eqn:E; [|done]. simpl. revert E.
  unfold create_task. do 3 (case_match; [by intros [= <-]|]). cbv zeta.
  set (k2 := upd_task _ _ _). assert (ms k2 = ms k0) as E2 by done. clearbody k2.
  pose proof (birth_cspace_op k2 0 UNTYPED_KERNEL) as HB. destruct (birth_cspace _ _ _) as [[k3|]|k3].
  - intros [= <-]. by rewrite HB, E2.
  - done.
  - intros [= <-]. apply birth_caps_minv. rewrite E2 in HB. by eapply msteps_minv.
Qed.

(** ** A small run

    A kernel of four tasks that has spawned task 1, given it the file
    service's endpoint with the rights to mint and revoke in slot 10, and
    switched to it. *)
Definition demo_image : staged := mk_staged true 0 USER_AREA_BASE 0 1 0.
Definition demo_ops : list kop :=
  [OSpawn (fun _ => false) demo_image 0 0 UNTYPED_KERNEL; OInstallRoot 1 10 13 FS_EP_REQ; OSwitch 1].
Definition demo_boot : kstate := boot_kernel (PHYS_KVA_BASE + USER_PHYS_BASE) 4 16 None.
Definition demo : kstate := kexec demo_ops demo_boot.
Definition demo_cs : cref := default CRoot (task_at demo 1).(t_cspace).
