(* ===== verification/Calm.v ===== *)
(** Operations that are calm for IPC: they put nobody to sleep on an endpoint or
    a notification and change no queue or badge; they may wake a task, free an
    object, or make a fresh one.  Every operation but those of IPC itself is
    calm.  [Calm f] is the interface between those operations and the
    invariants of IpcInv. *)
From S2P Require Import Prelude KTypes CapCore CapRevoke Pipe SchedCtx KState Endpoint Untyped CSpace PipeSys Retype TaskLife CapSys Ipc TaskSys CapInv CapOps IpcOps Kernel.

Definition asleep (t : task) : Prop := t.(t_state) = TASK_BLOCKED_IPC \/ t.(t_state) = TASK_BLOCKED_NOTIF.
(** A task asleep on an object afterwards was asleep on it before; a negative
    index names no object. *)
Record calm_task (t t' : task) : Prop := {
  ct_ipc : t'.(t_state) = TASK_BLOCKED_IPC -> 0 <= t'.(t_blocked_on) ->
    t.(t_state) = TASK_BLOCKED_IPC /\ t'.(t_blocked_on) = t.(t_blocked_on);
  ct_notif : t'.(t_state) = TASK_BLOCKED_NOTIF -> 0 <= t'.(t_blocked_on_notif) ->
    t.(t_state) = TASK_BLOCKED_NOTIF /\ t'.(t_blocked_on_notif) = t.(t_blocked_on_notif);
  ct_frame : asleep t' -> asleep t /\ (t.(t_ipc).(ip_frame) <> None -> t'.(t_ipc).(ip_frame) <> None)
}.
Definition ks_kept {A} (fresh : A) (l l' : list (kobj_slot A)) : Prop :=
  forall i x, ks_obj (kslot_at l' i) = Some x -> ks_obj (kslot_at l i) = Some x \/ x = fresh.
Record calm (k k' : kstate) : Prop := {
  cl_eps : k'.(endpoints) = k.(endpoints);
  cl_nts : k'.(notifications) = k.(notifications);
  cl_deps : ks_kept ep_fresh k.(dyn_eps) k'.(dyn_eps);
  cl_dnts : ks_kept notif_fresh k.(dyn_notifs) k'.(dyn_notifs);
  cl_max : g_max_tasks k' = g_max_tasks k;
  cl_tasks : forall t, calm_task (task_at k t) (task_at k' t)
}.

#[global] Instance calm_task_preorder : PreOrder calm_task.
Proof.
  split; [by split|]. intros a b c [H1 H2 F1] [H3 H4 F2]. split.
  - intros H Hn. destruct (H3 H Hn) as [Hb E]. rewrite E in *. by apply H1.
  - intros H Hn. destruct (H4 H Hn) as [Hb E]. rewrite E in *. by apply H2.
  - intros H. destruct (F2 H) as [Hb Fb]. destruct (F1 Hb) as [Ha Fa]. auto.
Qed.
#[global] Instance ks_kept_preorder {A} (x : A) : PreOrder (ks_kept x).
Proof. split; [by left|]. intros a b c H1 H2 i y [H| ->]%H2; [by apply H1|by right]. Qed.
#[global] Instance calm_preorder : PreOrder calm.
Proof.
  split.
  - intros k. by constructor; try reflexivity.
  - intros a b c [] []. constructor; try congruence; try (etrans; eassumption). intros t. etrans; eauto.
Qed.

Class Calm (f : kstate -> kstate) : Prop := calms k : calm k (f k).
#[global] Hint Mode Calm ! : typeclass_instances.

(** ** The steps operations are made of *)
Lemma calm_same k k' :
  k'.(tasks) = k.(tasks) -> k'.(endpoints) = k.(endpoints) -> k'.(notifications) = k.(notifications) ->
  ks_kept ep_fresh k.(dyn_eps) k'.(dyn_eps) -> ks_kept notif_fresh k.(dyn_notifs) k'.(dyn_notifs) -> calm k k'.
Proof.
  intros Ht He Hn Hde Hdn. constructor; try done.
  - unfold g_max_tasks. by rewrite Ht.
  - intros t. unfold task_at. by rewrite Ht.
Qed.
Ltac still := apply calm_same; reflexivity.

Lemma calm_set_task k t x : calm_task (task_at k t) x -> calm k (set_task k t x).
Proof.
  intros Hx. constructor; try reflexivity; [unfold g_max_tasks; apply zlen_zset|].
  intros t'. unfold task_at, set_task. cbn [tasks set_tasks]. rewrite zget_zset.
  case_bool_decide as H; [|reflexivity]. destruct H as [-> _]. exact Hx.
Qed.
Lemma calm_upd_task k t f : calm_task (task_at k t) (f (task_at k t)) -> calm k (upd_task k t f).
Proof. apply calm_set_task. Qed.
(** The states a task is in when it is awake or dead. *)
Lemma calm_awake t t' : t'.(t_state) <> TASK_BLOCKED_IPC -> t'.(t_state) <> TASK_BLOCKED_NOTIF -> calm_task t t'.
Proof. intros H1 H2. split; try done. by intros []. Qed.

Lemma ks_kept_zset {A} (fresh : A) l i s :
  (forall x, ks_obj s = Some x -> ks_obj (kslot_at l i) = Some x \/ x = fresh) -> ks_kept fresh l (zset l i s).
Proof.
  intros H j x. unfold kslot_at. rewrite zget_zset. case_bool_decide as Hj; [|by left].
  destruct Hj as [-> _]. apply H.
Qed.
Lemma calm_dyn_eps k l : ks_kept ep_fresh k.(dyn_eps) l -> calm k (set_dyn_eps k l).
Proof. intros H. by apply calm_same. Qed.
Lemma calm_dyn_notifs k l : ks_kept notif_fresh k.(dyn_notifs) l -> calm k (set_dyn_notifs k l).
Proof. intros H. by apply calm_same. Qed.
Lemma ks_kept_unpin {A} (fresh : A) l n b i : ks_kept fresh l (unpin_slot l n b i).
Proof. unfold unpin_slot. case_match; [|reflexivity]. apply ks_kept_zset. by left. Qed.

Lemma calm_unpin k ty i : calm k (kobj_unpin k ty i).
Proof.
  unfold kobj_unpin. case_match; [apply calm_dyn_eps, ks_kept_unpin|].
  case_match; [apply calm_dyn_notifs, ks_kept_unpin|]. case_match; [still|]. case_match; still.
Qed.
Lemma calm_note k ty o : calm k (kobj_note_named k ty o).
Proof. unfold kobj_note_named. repeat case_match; try done. apply calm_unpin. Qed.

Lemma calm_alloc k u ty pages p i k' : kobj_alloc k u ty pages = Some (p, i, k') -> calm k k'.
Proof.
  unfold kobj_alloc, bump_region, count_object. intros H. repeat case_match; simplify_eq;
    apply calm_same; try reflexivity; apply ks_kept_zset; intros x [= <-]; by right.
Qed.

(** ** Freeing objects *)
Lemma calm_uncount k u : calm k (uncount_object k u).
Proof. unfold uncount_object. case_match; [still|reflexivity]. Qed.
Lemma calm_wake_on k w f :
  (forall t, (f (t_wake t)).(t_state) = TASK_RUNNABLE) -> calm k (set_task k w (f (t_wake (task_at k w)))).
Proof. intros Hf. apply calm_set_task, calm_awake; by rewrite Hf. Qed.
Lemma ks_kept_free {A} (fresh : A) l i s : ks_kept fresh l (zset l i (free_kslot s)).
Proof. by apply ks_kept_zset. Qed.

Lemma calm_destroy_ep k i : calm k (destroy_dyn_endpoint k i).
Proof.
  unfold destroy_dyn_endpoint. destruct (ks_mem _) as [[p e]|]; [|reflexivity]. cbv zeta.
  set (k1 := if _ && _ then _ else k). assert (calm k k1) as H1.
  { unfold k1. case_match; [|reflexivity]. by apply (calm_wake_on k _ (fun t => t_set_blocked_on t (-1))). }
  etrans; [exact H1|]. etrans; [apply calm_uncount|]. apply calm_dyn_eps, ks_kept_free.
Qed.
Lemma calm_destroy_nt k i : calm k (destroy_dyn_notification k i).
Proof.
  unfold destroy_dyn_notification. destruct (ks_mem _) as [[p e]|]; [|reflexivity]. cbv zeta.
  set (k1 := if _ && _ then _ else k). assert (calm k k1) as H1.
  { unfold k1. case_match; [|reflexivity]. by apply (calm_wake_on k _ (fun t => t_set_blocked_on_notif t (-1))). }
  etrans; [exact H1|]. etrans; [apply calm_uncount|]. apply calm_dyn_notifs, ks_kept_free.
Qed.
Lemma calm_destroy_frame k i : calm k (destroy_dyn_frame k i).
Proof.
  unfold destroy_dyn_frame. destruct (ks_mem _) as [[p e]|]; [|reflexivity]. cbv zeta.
  case_match; [reflexivity|]. etrans; [|etrans; [apply calm_uncount|still]]. still.
Qed.
Lemma calm_destroy_sc k i : calm k (destroy_dyn_sc k i).
Proof.
  unfold destroy_dyn_sc. destruct (ks_mem _) as [[p e]|]; [|reflexivity]. cbv zeta.
  etrans; [|etrans; [apply calm_uncount|still]]. still.
Qed.
Lemma calm_fold {A} (f : kstate -> A -> kstate) l k : (forall k x, calm k (f k x)) -> calm k (foldl f k l).
Proof. intros H. revert k. induction l as [|x l IH]; intros k; [reflexivity|]. simpl. etrans; [apply H|apply IH]. Qed.
Ltac calm_pass H := apply calm_fold; intros k' i; case_match; [apply H|reflexivity].
Lemma calm_eps_pass mk l k : calm k (gc_eps_pass mk l k).
Proof. calm_pass calm_destroy_ep. Qed.
Lemma calm_notifs_pass mk l k : calm k (gc_notifs_pass mk l k).
Proof. calm_pass calm_destroy_nt. Qed.
Lemma calm_frames_pass mk l k : calm k (gc_frames_pass mk l k).
Proof. calm_pass calm_destroy_frame. Qed.
Lemma calm_scs_pass mk l k : calm k (gc_scs_pass mk l k).
Proof. calm_pass calm_destroy_sc. Qed.
Lemma calm_gc k : calm k (kobj_gc_locked k).
Proof.
  unfold kobj_gc_locked. cbv zeta. etrans; [apply calm_eps_pass|]. etrans; [apply calm_notifs_pass|].
  etrans; [apply calm_frames_pass|apply calm_scs_pass].
Qed.
#[export] Hint Resolve calm_note calm_gc calm_uncount : horus.

(** ** Capability operations *)
Lemma calm_serial k : calm k (cap_alloc_fresh_serial k).2.
Proof. unfold cap_alloc_fresh_serial. destruct (rust_cap_alloc_serial _). still. Qed.
Lemma calm_install k t l c : calm k (install_at k t l c).
Proof. unfold install_at. case_match; still. Qed.
Lemma calm_derived k t b r : calm k (derived k t b r).2.
Proof. unfold derived. repeat case_match; still. Qed.
(** Open the allocation at the head of an install, then the guards. *)
Ltac calm_serial_open k :=
  let H := fresh "HS" in
  pose proof (calm_serial k) as H; destruct (cap_alloc_fresh_serial k) as [ser k1]; cbn [snd] in H.
Ltac calm_refuse H := repeat (case_match; [exact H|]).

#[global] Instance cap_install_from_root_calm pid s rs o : Calm (fun k => (cap_install_from_root k pid s rs o).2).
Proof.
  intros k. unfold cap_install_from_root. case_match; [reflexivity|]. destruct (t_cspace _); [|reflexivity].
  cbv zeta. case_match; [reflexivity|]. calm_serial_open k. case_match; [exact HS|]. cbn [snd].
  etrans; [exact HS|]. etrans; [|apply calm_note]. still.
Qed.
#[global] Instance cap_install_object_calm d ty o r b : Calm (fun k => (cap_install_object k d ty o r b).2).
Proof.
  intros k. unfold cap_install_object. calm_serial_open k. do 2 (case_match; [exact HS|]).
  destruct (t_cspace _); [|exact HS]. do 2 (case_match; [exact HS|]). cbn [snd].
  etrans; [exact HS|]. etrans; [apply calm_install|apply calm_note].
Qed.
#[global] Instance cap_install_derived_calm d s ss ty o r : Calm (fun k => (cap_install_derived_object k d s ss ty o r).2).
Proof.
  intros k. unfold cap_install_derived_object. calm_serial_open k. do 2 (case_match; [exact HS|]).
  destruct (t_cspace _); [|exact HS]. do 2 (case_match; [exact HS|]). cbn [snd].
  etrans; [exact HS|]. etrans; [apply calm_install|apply calm_note].
Qed.
#[global] Instance cap_install_first_free_calm d ty o r b :
  Calm (fun k => (cap_install_object_first_free k d ty o r b).2).
Proof.
  intros k. unfold cap_install_object_first_free. calm_serial_open k. do 2 (case_match; [exact HS|]).
  destruct (t_cspace _); [|exact HS]. do 2 (case_match; [exact HS|]). case_match; [|exact HS]. cbn [snd].
  etrans; [exact HS|]. etrans; [|apply calm_note]. still.
Qed.
#[global] Instance cap_install_reply_calm pid s g : Calm (fun k => (cap_install_reply_for k pid s g).2).
Proof.
  intros k. unfold cap_install_reply_for. do 2 (case_match; [reflexivity|]). calm_serial_open k.
  case_match; [exact HS|]. destruct (t_cspace _); [|exact HS]. do 2 (case_match; [exact HS|]). cbn [snd].
  etrans; [exact HS|]. apply calm_install.
Qed.
#[global] Instance cap_consume_calm d : Calm (fun k => (cap_consume_slot k d).2).
Proof. intros k. unfold cap_consume_slot. repeat case_match; still. Qed.
#[global] Instance cap_consume_of_calm pid s : Calm (fun k => (cap_consume_slot_of k pid s).2).
Proof. intros k. unfold cap_consume_slot_of. repeat case_match; still. Qed.
#[global] Instance cap_child_pipe_calm c d sp s r : Calm (fun k => (cap_install_child_pipe_end k c d sp s r).2).
Proof.
  intros k. unfold cap_install_child_pipe_end. do 4 (case_match; [reflexivity|]). calm_serial_open k.
  repeat case_match; try exact HS. cbn [snd]. etrans; [exact HS|]. still.
Qed.
#[global] Instance cap_mint_calm d s r : Calm (fun k => (cap_mint k d s r).2).
Proof. intros k. unfold cap_mint. repeat (case_match; try reflexivity). apply calm_derived. Qed.
#[global] Instance cap_mint_token_calm d s r t : Calm (fun k => (cap_mint_token k d s r t).2).
Proof. intros k. unfold cap_mint_token. repeat (case_match; try reflexivity). apply calm_derived. Qed.
#[global] Instance cap_transfer_calm d s : Calm (fun k => (cap_transfer k d s).2).
Proof. intros k. unfold cap_transfer. repeat (case_match; try reflexivity). apply calm_derived. Qed.
#[global] Instance cap_grant_calm t d s r fu : Calm (fun k => (cap_grant_common k t d s r fu).2).
Proof.
  intros k. unfold cap_grant_common. do 3 (case_match; [reflexivity|]). do 3 (case_match; [|reflexivity]).
  cbv zeta. set (b := (_ <? _) && _). case_match; [reflexivity|apply calm_derived].
Qed.
#[global] Instance cap_reply_mint_calm pid i ser ep d r tok :
  Calm (fun k => (cap_reply_mint_into k pid i ser ep d r tok).2).
Proof. intros k. unfold cap_reply_mint_into. repeat (case_match; try reflexivity). apply calm_derived. Qed.
#[global] Instance cap_mint_untyped_calm s d i : Calm (fun k => (cap_mint_untyped_child k s d i).2).
Proof.
  intros k. unfold cap_mint_untyped_child. calm_serial_open k. repeat case_match; try exact HS. cbn [snd].
  etrans; [exact HS|apply calm_install].
Qed.
#[global] Instance cap_revoke_calm slot : Calm (fun k => (cap_revoke k slot).2).
Proof.
  intros k. unfold cap_revoke. assert (calm k (cap_revoke_exact k slot).2) as H.
  { unfold cap_revoke_exact. do 2 (case_match; [reflexivity|]). cbv zeta. do 2 (case_match; [reflexivity|]).
    destruct (if _ && _ then _ else _) as [st s]. destruct (rust_cap_revoke_global _ _ _ _ _ _) as [ok st2].
    destruct (pipe_release_revoked_ends _ _) as [ex ps]. cbn [snd]. etrans; [|apply calm_gc]. still. }
  by destruct (cap_revoke_exact k slot) as [[ok ex] k1].
Qed.
#[global] Instance cap_move_calm d s : Calm (fun k => (cap_move k d s).2).
Proof.
  intros k. unfold cap_move. pose proof (cap_transfer_calm d s k) as H1. cbv beta in H1.
  destruct (cap_transfer k d s) as [[] k1]; [|exact H1]. etrans; [exact H1|]. apply cap_revoke_calm.
Qed.

(** ** Pipes *)
Lemma close_pass_calm k t sz k' : close_pass k t sz = Some k' -> calm k k'.
Proof.
  unfold close_pass. destruct (t_cspace _); [|done]. destruct (find_index _ _ _) as [s|]; [|done].
  pose proof (cap_consume_of_calm t s k) as HC. cbv beta in HC. destruct (cap_consume_slot_of k t s) as [[ok prev] k1].
  do 2 (case_match; [by try intros [= <-]|]). intros [= <-]. etrans; [exact HC|still].
Qed.
#[global] Instance close_ends_calm t : Calm (fun k => pipe_close_task_ends k t).
Proof.
  intros k. unfold pipe_close_task_ends. case_match; [reflexivity|]. destruct (t_cspace _); [|reflexivity].
  enough (forall n sz k, calm k (close_passes n k t sz)) as HP by apply HP. intros n sz.
  induction n as [|n IH]; intros k1; [reflexivity|]. simpl.
  destruct (close_pass k1 t sz) as [k2|] eqn:E; [|reflexivity]. etrans; [by eapply close_pass_calm|apply IH].
Qed.
#[global] Instance h_pipe_close_calm s : Calm (fun k => (h_pipe_close k s).2).
Proof.
  intros k. unfold h_pipe_close. pose proof (cap_consume_of_calm k.(cur) (u32 s) k) as HC. cbv beta in HC.
  destruct (cap_consume_slot_of _ _ _) as [[ok prev] k1]. case_match; [exact HC|]. etrans; [exact HC|]. still.
Qed.
#[global] Instance h_pipe_read_calm s l c : Calm (fun k => (h_pipe_read k s l c).2).
Proof. intros k. unfold h_pipe_read, pipe_io_read. repeat case_match; simplify_eq; still. Qed.
#[global] Instance h_pipe_write_calm s l u c : Calm (fun k => (h_pipe_write k s l u c).2).
Proof. intros k. unfold h_pipe_write, pipe_io_write. repeat case_match; simplify_eq; still. Qed.
#[global] Instance h_pipe_calm : Calm (fun k => (h_pipe k).2).
Proof.
  intros k. unfold h_pipe. destruct (t_cspace _); [|reflexivity]. destruct (pipe_alloc _) as [obj ps]. cbv zeta.
  case_match; [still|]. set (k1 := set_pipes (set_pipes _ _) _). assert (calm k k1) as H1 by still. clearbody k1.
  pose proof (cap_install_first_free_calm CAP_DYNAMIC_FLOOR CAP_PIPE obj (CAP_RIGHT_READ + CAP_RIGHT_REVOKE) 0 k1) as H2.
  cbv beta in H2. destruct (cap_install_object_first_free k1 _ _ _ _ _) as [[rs|] k2]; [|etrans; [exact H1|]; etrans; [exact H2|still]].
  pose proof (cap_install_first_free_calm CAP_DYNAMIC_FLOOR CAP_PIPE obj (CAP_RIGHT_WRITE + CAP_RIGHT_REVOKE) 0 k2) as H3.
  cbv beta in H3. destruct (cap_install_object_first_free k2 _ _ _ _ _) as [[ws|] k3].
  { etrans; [exact H1|]. by etrans. }
  pose proof (cap_consume_of_calm k3.(cur) rs k3) as H4. cbv beta in H4.
  destruct (cap_consume_slot_of _ _ _) as [[ok prev] k4]. cbn [snd] in *.
  etrans; [exact H1|]. etrans; [exact H2|]. etrans; [exact H3|]. etrans; [exact H4|still].
Qed.

(** ** Making objects *)
Lemma calm_destroy_new k ty i : calm k (destroy_new k ty i).
Proof.
  unfold destroy_new. case_match; [apply calm_destroy_ep|]. case_match; [apply calm_destroy_nt|apply calm_destroy_frame].
Qed.
Lemma retype_slots_calm u ty pages n ds k : calm k (retype_slots k u ty pages n ds).2.
Proof.
  revert n k. induction ds as [|d ds IH]; intros n k; [reflexivity|]. cbn [retype_slots].
  destruct (kobj_alloc k u ty pages) as [[[p i] k1]|] eqn:E; [|reflexivity]. apply calm_alloc in E.
  pose proof (cap_install_object_calm d (cap_of_kobj ty) i RETYPE_RIGHTS 0 k1) as H2. cbv beta in H2.
  destruct (cap_install_object k1 _ _ _ _ _) as [[] k2]; cbn [snd] in *; (etrans; [exact E|]); (etrans; [exact H2|]);
    [apply IH|apply calm_destroy_new].
Qed.
#[global] Instance untyped_retype_calm us ty c pg d : Calm (fun k => (untyped_retype k us ty c pg d).2).
Proof.
  intros k. unfold untyped_retype. destruct (untyped_from_slot _ _ _) as [u|]; [|reflexivity].
  do 3 (case_match; [reflexivity|]). cbv zeta. set (pages := if _ && _ then 1 else _). clearbody pages.
  do 4 (case_match; [reflexivity|]). set (ds := seqZ _ _). clearbody ds.
  pose proof (retype_slots_calm u ty pages 0 ds k) as HR. by destruct (retype_slots _ _ _ _ _ _).
Qed.
#[global] Instance untyped_split_calm s d b : Calm (fun k => (untyped_split k s d b).2).
Proof.
  intros k. unfold untyped_split. do 3 (case_match; [reflexivity|]).
  destruct (untyped_from_slot _ _ _); [|reflexivity]. destruct (split_region _ _ _) as [e|[c us]]; [reflexivity|].
  pose proof (cap_mint_untyped_calm s d c (set_untypeds k us)) as HM. cbv beta in HM.
  destruct (cap_mint_untyped_child _ _ _ _) as [rc k1]. cbn [snd] in HM.
  assert (calm k k1) as HK by (etrans; [|exact HM]; still). case_match; [etrans; [exact HK|still]|exact HK].
Qed.
#[global] Instance sched_split_calm ps us d b pe f now : Calm (fun k => (sched_split k ps us d b pe f now).2).
Proof.
  intros k. unfold sched_split. destruct (cap_lookup _ _ _ _) as [l|]; [|reflexivity].
  case_match; [reflexivity|]. destruct (untyped_from_slot _ _ _) as [u|]; [|reflexivity].
  destruct (kobj_alloc k u KOBJ_SCHED_CONTEXT 0) as [[[p i] k1]|] eqn:E; [|reflexivity]. apply calm_alloc in E.
  destruct (sched_carve _ _ _ _ _ _ _) as [rc s]. cbv zeta. set (r := if negb (rc =? 0) then _ else _).
  assert (calm k r.2) as HR.
  { etrans; [exact E|]. etrans; [instantiate (1 := set_sched k1 s); still|]. unfold r. case_match; [reflexivity|].
    pose proof (cap_install_derived_calm d ps (cap_at k.(mem) l).(serial) CAP_SCHED_CONTEXT i
                  (cap_at k.(mem) l).(rights) (set_sched k1 s)) as HI. cbv beta in HI.
    by destruct (cap_install_derived_object _ _ _ _ _ _ _). }
  destruct r as [rc' k3]. cbn [snd] in *. case_match; [|exact HR]. etrans; [exact HR|apply calm_destroy_sc].
Qed.

(** ** Birth and death of tasks *)
Lemma calm_task_same t t' :
  t'.(t_state) = t.(t_state) -> t'.(t_blocked_on) = t.(t_blocked_on) ->
  t'.(t_blocked_on_notif) = t.(t_blocked_on_notif) ->
  (t.(t_ipc).(ip_frame) <> None -> t'.(t_ipc).(ip_frame) <> None) -> calm_task t t'.
Proof. intros Hs Hb Hn Hf. by split; unfold asleep; rewrite Hs, ?Hb, ?Hn. Qed.
Lemma calm_set_mem k k' m : calm k k' -> calm k (set_mem k' m).
Proof. intros H. etrans; [exact H|still]. Qed.
(** A frame the task has is kept, with other registers at most. *)
Lemma frame_fmap (f : Z * Z -> Z * Z) (o : option (Z * Z)) : o <> None -> f <$> o <> None.
Proof. by destruct o. Qed.
Ltac calm_field :=
  apply calm_upd_task, calm_task_same; [reflexivity..|first [exact (fun H => H)|apply frame_fmap|done]].
Ltac calm_wakes := apply calm_upd_task, calm_awake; done.

Lemma calm_bind_creator k id : calm k (bind_creator_context k id).
Proof.
  unfold bind_creator_context. cbv zeta. etrans; [|calm_field]. still.
Qed.
Lemma calm_birth_cspace k id ut :
  match birth_cspace k id ut with
  | inl (Some k') | inr k' => calm k k'
  | inl None => True
  end.
Proof.
  unfold birth_cspace. cbv zeta.
  assert (forall k1 c, calm k1 (set_mem (upd_task k1 id (fun t => t_set_cspace t (Some c) CNODE_SIZE))
    (clear_slots (upd_task k1 id (fun t => t_set_cspace t (Some c) CNODE_SIZE)).(mem) c CNODE_SIZE))) as HF.
  { intros k1 c. apply calm_set_mem. calm_field. }
  destruct (t_cspace _) as [c|], (negb _); try apply HF;
    (destruct (kobj_alloc _ _ _ _) as [[[p i] k1]|] eqn:E; [apply calm_alloc in E; etrans; [exact E|]; etrans; [|apply HF]; still|]);
    try done; calm_wakes.
Qed.
Lemma calm_birth_caps k id : calm k (birth_caps k id).
Proof.
  unfold birth_caps. destruct (t_cspace _) as [c|]; [|reflexivity]. cbv zeta.
  assert (calm k (birth_own_caps k id c)) as H1.
  { unfold birth_own_caps. pose proof (calm_serial k) as S1. destruct (cap_alloc_fresh_serial k) as [b0 k1].
    pose proof (calm_serial k1) as S2. destruct (cap_alloc_fresh_serial k1) as [b3 k2].
    pose proof (calm_serial k2) as S3. destruct (cap_alloc_fresh_serial k2) as [b4 k3]. cbn [snd] in *.
    etrans; [exact S1|]. etrans; [exact S2|]. etrans; [exact S3|]. cbv zeta. case_match; still. }
  case_match; [|exact H1]. etrans; [exact H1|still].
Qed.
Lemma calm_create k os id a b c d ut k' : create_task k os id a b c d ut = Some k' -> calm k k'.
Proof.
  unfold create_task. do 3 (case_match; [by intros [= <-]|]). cbv zeta.
  set (k1 := if 0 <? id then _ else k). assert (calm k k1) as HA.
  { unfold k1. case_match; [apply calm_bind_creator|reflexivity]. } clearbody k1.
  set (k2 := upd_task k1 id _). assert (calm k1 k2) as HB by calm_wakes. clearbody k2.
  pose proof (calm_birth_cspace k2 id ut) as HC. destruct (birth_cspace _ _ _) as [[k3|]|k3]; intros [= <-].
  - etrans; [exact HA|]. by etrans.
  - etrans; [exact HA|]. etrans; [exact HB|]. etrans; [exact HC|apply calm_birth_caps].
Qed.
Lemma calm_spawn_admin k id : calm k (spawn_admin_cap k id).
Proof.
  unfold spawn_admin_cap. destruct (cap_lookup _ _ _ _); [|reflexivity]. calm_serial_open k. cbv zeta.
  destruct (t_cspace _); [|exact HS]. case_match; [|exact HS]. etrans; [exact HS|still].
Qed.
Lemma calm_wire_end k c ca psz s d r f : calm k (wire_end k c ca psz s d r f).
Proof.
  unfold wire_end. case_match; [|reflexivity]. pose proof (cap_child_pipe_calm c d ca s r k) as HC. cbv beta in HC.
  destruct (cap_install_child_pipe_end _ _ _ _ _ _) as [ok k1]. case_match; [|exact HC]. etrans; [exact HC|calm_field].
Qed.
Lemma calm_wire_stdio k c ca sp : calm k (wire_child_stdio k c ca sp).
Proof.
  unfold wire_child_stdio. cbv zeta. set (k1 := upd_task k c _). assert (calm k k1) as HA by calm_field. clearbody k1.
  do 2 (case_match; [exact HA|]). do 2 (destruct (t_cspace _); [|exact HA]).
  etrans; [exact HA|]. etrans; apply calm_wire_end.
Qed.
Lemma calm_spawn_tail k id : calm k (sched_spawn_finish (sched_fabricate_user_frame k id) id).
Proof.
  unfold sched_spawn_finish, sched_fabricate_user_frame. set (k1 := if (id <? 0) || _ then k else _).
  assert (calm k k1) as HA by (unfold k1; case_match; [reflexivity|calm_field]). clearbody k1.
  etrans; [exact HA|]. case_match; [reflexivity|calm_field].
Qed.
#[global] Instance grant_tcb_calm s p : Calm (fun k => grant_child_tcb_cap k s p).
Proof.
  intros k. unfold grant_child_tcb_cap. do 2 (case_match; [reflexivity|]). apply cap_install_first_free_calm.
Qed.
#[global] Instance do_spawn_calm os img ca sp ut :
  Calm (fun k => default k (snd <$> do_spawn_inner k os img ca sp ut)).
Proof.
  intros k. unfold do_spawn_inner. case_match; [reflexivity|].
  destruct (sched_pick_free_slot _ _) as [id|]; [|reflexivity].
  destruct (create_task _ _ _ _ _ _ _ _) as [k1|] eqn:EC; [|reflexivity]. apply calm_create in EC.
  case_match; [exact EC|]. case_match; [etrans; [exact EC|calm_wakes]|].
  cbn [fmap option_fmap option_map default snd]. cbv zeta. etrans; [exact EC|]. etrans; [apply calm_spawn_admin|].
  etrans; [apply calm_wire_stdio|apply calm_spawn_tail].
Qed.
Lemma clone_slots_calm k pc cc csz child n ss : calm k (clone_slots k pc cc csz child n ss).2.
Proof.
  revert k n. induction ss as [|s ss IH]; intros k n; [reflexivity|]. cbn [clone_slots].
  case_match; [apply IH|]. case_match; [reflexivity|].
  match goal with |- context [derived k child ?b ?r] =>
    pose proof (calm_derived k child b r) as HD; destruct (derived k child b r) as [ok k1] end.
  etrans; [exact HD|apply IH].
Qed.
#[global] Instance cap_clone_calm p c : Calm (fun k => (cap_clone_cspace k p c).2).
Proof.
  intros k. unfold cap_clone_cspace. do 3 (case_match; [reflexivity|]). do 2 (destruct (t_cspace _); [|reflexivity]).
  cbv zeta. set (ss := seqZ _ _). clearbody ss.
  match goal with |- context [clone_slots k ?a ?b ?c ?d ?e ?f] =>
    pose proof (clone_slots_calm k a b c d e f) as HC; destruct (clone_slots k a b c d e f) as [[n|] k1] end;
    [|exact HC]. cbn [snd] in HC.
  assert (calm k1 (pipe_count_forked_ends k1 c).2) as HP
    by (unfold pipe_count_forked_ends; repeat case_match; still).
  destruct (pipe_count_forked_ends k1 c) as [ok k2]. case_match; by etrans.
Qed.
#[global] Instance h_fork_calm os ha rc rbx : Calm (fun k => default k (snd <$> h_fork k os ha rc rbx)).
Proof.
  intros k. unfold h_fork. do 2 (case_match; [reflexivity|]).
  destruct (spawn_untyped_region k) as [ut|]; [|reflexivity].
  destruct (sched_pick_free_slot _ _) as [id|]; [|reflexivity].
  destruct (create_task _ _ _ _ _ _ _ _) as [k1|] eqn:EC; [|reflexivity]. apply calm_create in EC.
  case_match; [exact EC|]. cbv zeta. case_match; [etrans; [exact EC|calm_wakes]|].
  set (k2 := upd_task k1 id _). assert (calm k k2) as HB by (etrans; [exact EC|calm_field]). clearbody k2.
  pose proof (cap_clone_calm k.(cur) id k2) as HC. cbv beta in HC.
  destruct (cap_clone_cspace _ _ _) as [n k3]. cbn [snd] in HC.
  case_match; (etrans; [exact HB|]); (etrans; [exact HC|]); [calm_wakes|].
  cbn [fmap option_fmap option_map default snd]. etrans; [apply (grant_tcb_calm k.(cur) id)|]. calm_field.
Qed.

Lemma release_calm k id b : calm k (release_cspace k id b).
Proof.
  enough (calm k (release_cspace k id false)) as HA
    by (destruct b; [etrans; [exact HA|apply (calm_gc (release_cspace k id false))]|exact HA]).
  unfold release_cspace. cbv zeta. destruct (_ && _); [|reflexivity]. destruct (t_cspace _); still.
Qed.
Lemma teardown_body_calm k id c : calm k (task_teardown_body k id c).2.
Proof.
  unfold task_teardown_body. case_match; [reflexivity|]. cbv zeta. cbn [snd].
  set (k1 := upd_task k id _). assert (calm k k1) as HA by calm_field. clearbody k1.
  pose proof (close_ends_calm id k1) as HB. cbv beta in HB. set (k2 := pipe_close_task_ends k1 id) in *. clearbody k2.
  set (k3 := if _ && _ then upd_task k2 id _ else k2).
  assert (calm k2 k3) as HC by (unfold k3; case_match; [calm_field|reflexivity]). clearbody k3.
  etrans; [exact HA|]. etrans; [exact HB|]. etrans; [exact HC|].
  etrans; [|apply release_calm]. etrans; [|calm_wakes]. calm_field.
Qed.
#[global] Instance teardown_calm id c : Calm (fun k => task_teardown k id c).
Proof.
  intros k. unfold task_teardown. case_match; [reflexivity|]. pose proof (teardown_body_calm k id c) as HB.
  destruct (task_teardown_body k id c) as [[[[w g] rec]|] k1]; [|exact HB]. cbn [snd] in HB. cbv zeta.
  case_match; [|exact HB]. etrans; [exact HB|calm_wakes].
Qed.

(** ** Handlers *)
#[global] Instance h_cap_grant_calm t s d : Calm (fun k => (h_cap_grant_locked k t s d).2).
Proof.
  intros k. unfold h_cap_grant_locked, cap_grant_from_user. repeat (case_match; try reflexivity); cbn [snd];
    match goal with H : cap_grant_common k ?t ?d ?s ?r ?fu = _ |- _ =>
      pose proof (cap_grant_calm t d s r fu k) as HG; cbv beta in HG; rewrite H in HG end; exact HG.
Qed.
#[global] Instance h_kill_calm t : Calm (fun k => (h_kill_locked k t).2).
Proof. intros k. unfold h_kill_locked. repeat (case_match; try reflexivity). apply teardown_calm. Qed.

Lemma interrupt_wait_calm k t : calm k (signal_interrupt_wait k t).
Proof.
  unfold signal_interrupt_wait, set_frame_rax, wake. case_match; [|reflexivity]. cbv zeta.
  etrans; [|calm_wakes]. case_match; [|calm_field]. etrans; [|calm_field]. calm_field.
Qed.
Lemma h_signal_calm rbx rcx : Calm (fun k => (h_signal_locked k rbx rcx).2).
Proof.
  intros k. unfold h_signal_locked. cbv zeta. do 3 (case_match; [reflexivity|]). case_match; [apply teardown_calm|].
  cbn [snd]. case_match; [|unfold upd_sig; calm_field]. etrans; [|apply interrupt_wait_calm]. unfold upd_sig. calm_field.
Qed.
Lemma try_deliver_calm k f c s a f' k' : try_deliver_fault_signal k f c s a = Some (f', k') -> calm k k'.
Proof. unfold try_deliver_fault_signal, upd_sig. intros. repeat case_match; simplify_eq; calm_field. Qed.

Ltac calm_cases := repeat (case_match; try reflexivity); simplify_eq; try reflexivity; try calm_field.
(** The caller of a system call is awake, so it may change what it waits for. *)
Lemma caller_awake k : caller_runs k = true -> (task_at k k.(cur)).(t_state) = TASK_RUNNABLE.
Proof. unfold caller_runs, cur_task. rewrite andb_true_iff, Z.eqb_eq. tauto. Qed.

Lemma task_run_calm o k : caller_runs k = true \/ (exists f t, o = TDeliver f t) -> calm k (task_run o k).
Proof.
  intros Hc. destruct o; cbn [task_run].
  - apply h_signal_calm.
  - unfold h_task_resume_locked. calm_cases.
  - destruct Hc as [Hc|(f & t & [=])]. apply caller_awake in Hc. unfold h_wait_locked. cbv zeta.
    do 3 (case_match; [reflexivity || calm_field|]). apply calm_upd_task, calm_awake; cbn; by rewrite Hc.
  - unfold h_sigaction, upd_sig. calm_cases.
  - unfold h_sigmask, upd_sig. case_match; [reflexivity|calm_field].
  - unfold h_sigaltstack, upd_sig. calm_cases.
  - unfold deliver_pending_signal. do 3 (case_match; [reflexivity|]). case_match; [|reflexivity].
    case_match; simplify_eq. cbn [snd]. etrans; [by eapply try_deliver_calm|]. unfold upd_sig. calm_field.
  - unfold sigreturn, upd_sig. calm_cases.
  - unfold h_sbrk. cbv zeta. case_match; [reflexivity|].
    match goal with |- calm _ (match ?x with _ => _ end).2 => destruct x as [new|] end; [|reflexivity].
    destruct (_ || _); [reflexivity|]. calm_field.
  - unfold h_brk. calm_cases.
  - unfold h_sched_set_priority_locked, sched_set_priority. calm_cases.
  - unfold h_sched_bind_locked. repeat (case_match; try reflexivity). still.
Qed.

(** Everything the kernel does but IPC is calm. *)
Lemma kdo_calm o k : op_enabled o k = true -> (forall i, o <> OIpc i) -> calm k (kdo o k).
Proof.
  intros He Hi. destruct o; cbn [kdo].
  - still.
  - unfold h_cap_mint. pose proof (cap_mint_calm (u32 dest) (u32 src) (u32 rts) k) as H. cbv beta in H. by destruct (cap_mint _ _ _ _).
  - unfold h_cap_mint_token. pose proof (cap_mint_token_calm (u32 dest) (u32 src) (u32 rts) tok k) as H. cbv beta in H.
    by destruct (cap_mint_token _ _ _ _ _).
  - unfold h_cap_transfer. pose proof (cap_transfer_calm (u32 dest) (u32 src) k) as H. cbv beta in H. by destruct (cap_transfer _ _ _).
  - unfold h_cap_move. pose proof (cap_move_calm (u32 dest) (u32 src) k) as H. cbv beta in H. by destruct (cap_move _ _ _).
  - unfold h_cap_revoke. pose proof (cap_revoke_calm (u32 slot) k) as H. cbv beta in H. by destruct (cap_revoke _ _).
  - apply h_cap_grant_calm.
  - by destruct (Hi o).
  - apply task_run_calm. destruct o; try by left. right. eauto.
  - apply cap_consume_calm.
  - apply cap_install_from_root_calm.
  - apply untyped_retype_calm.
  - apply untyped_split_calm.
  - apply sched_split_calm.
  - apply h_pipe_calm.
  - apply h_pipe_read_calm.
  - apply h_pipe_write_calm.
  - apply h_pipe_close_calm.
  - apply do_spawn_calm.
  - apply grant_tcb_calm.
  - apply h_fork_calm.
  - apply h_kill_calm.
  - apply teardown_calm.
Qed.
