(* ===== verification/Security.v ===== *)
(** What the capability system promises: theorems about the operations of
    CSpace, TaskLife and CapSys over every state the kernel can reach. *)
From S2P Require Import Prelude KTypes CapCore CapRevoke CapReparent Pipe SchedCtx KState Untyped CSpace PipeSys Retype TaskLife CapSys CapInv CapOps Kernel.

(** A state the kernel can be in: boot, then any operations. *)
Definition reachable (k : kstate) : Prop :=
  exists arena ntasks pages nic ops, k = kexec ops (boot_kernel arena ntasks pages nic).

(** The slots a revocation by the current task looks at. *)
Definition revoke_view (k : kstate) : list loc := (visit (revoke_spaces k)).*1.

(** The guards of cap_lookup, as a predicate on the slot. *)
Record resolves (k : kstate) (slot ty r : Z) (p : loc) : Prop := {
  rv_slot : p.2 = slot /\ 0 <= slot < CNODE_SIZE;
  rv_space : (cur_task k).(t_cspace) = Some p.1 /\ slot < cur_size k
             \/ (cur_task k).(t_cspace) = None /\ k.(cur) = 0 /\ p.1 = CRoot;
  rv_live : live (cap_at k.(mem) p);
  rv_type : ty = CAP_ANYTYPE \/ (cap_at k.(mem) p).(ctype) = ty;
  rv_rights : r ⊑b (cap_at k.(mem) p).(rights)
}.


(** ** Reachable states keep the invariant *)
Lemma power_le_create p : power_le p PCreate.
Proof. by split. Qed.

Lemma reachable_minv k : reachable k -> minv (ms k).
Proof.
  intros (a & n & p & nic & ops & ->). pose proof (boot_minv a n p nic) as HB.
  eapply msteps_minv; [|exact HB]. apply (kexec_op PCreate); [|done].
  apply Forall_forall. intros o _. apply power_le_create.
Qed.
Lemma reachable_run k ops : reachable k -> reachable (kexec ops k).
Proof.
  intros (a & n & p & nic & ops0 & ->). exists a, n, p, nic, (ops0 ++ ops). unfold kexec. by rewrite foldl_app.
Qed.
Lemma reachable_steps k ops : reachable k -> rtc (mstep PCreate) (ms k) (ms (kexec ops k)).
Proof.
  intros Hk. apply kexec_op; [|by apply reachable_minv]. apply Forall_forall. intros o _. apply power_le_create.
Qed.

Lemma demo_reachable : reachable demo.
Proof. by exists (PHYS_KVA_BASE + USER_PHYS_BASE), 4, 16, None, demo_ops. Qed.

(** C9: in every state the kernel reaches from boot, by any sequence of system
    calls and kernel operations: no two slots hold the same derived serial, every
    serial in use has been handed out, every capability is younger than its
    parent, no slot carries a revocation mark, and a capability with a token is
    an endpoint capability that cannot receive. *)
Theorem kernel_serial_discipline arena ntasks pages nic ops :
  minv (ms (kexec ops (boot_kernel arena ntasks pages nic))).
Proof. apply reachable_minv. by exists arena, ntasks, pages, nic, ops. Qed.

(** C1: no sequence of mint, token mint, transfer, move, grant, revoke, consume,
    pipe I/O, close, kill and exit makes authority: whatever type, object,
    rights and token a capability has afterwards, some capability held before
    had the same type and object, at least those rights, and that token or
    none. *)
Theorem no_amplification k ops l :
  reachable k -> Forall (fun o => op_power o = PUser) ops ->
  typed (cap_at (kexec ops k).(mem) l) ->
  exists l0, typed (cap_at k.(mem) l0) /\ covers PUser (cap_at k.(mem) l0) (cap_at (kexec ops k).(mem) l).
Proof.
  intros Hk Ho Ht. apply (msteps_covered PUser (ms k) (ms (kexec ops k)) l); [done| |done].
  apply kexec_op; [|by apply reachable_minv]. eapply Forall_impl; [exact Ho|]. by intros o ->.
Qed.

Lemma no_amplification_witness :
  exists l0, typed (cap_at demo.(mem) l0)
  /\ covers PUser (cap_at demo.(mem) l0)
       (cap_at (kexec [OMint 64 10 3; OMintToken 65 10 3 7; OMove 66 64] demo).(mem) (demo_cs, 65)).
Proof.
  apply (no_amplification demo [OMint 64 10 3; OMintToken 65 10 3 7; OMove 66 64] (demo_cs, 65)).
  - exact demo_reachable.
  - repeat constructor.
  - vm_compute. discriminate.
Defined.

(** C30: a snapshot that revalidates still names the same capability: if the
    capability in slot [l] had a derived serial when the snapshot was taken (the serials
    fixed at boot are shared by several tables) and
    the revalidation finds one in slot [p] any number of operations later, then
    [p] is [l] and type, rights, object and token are what they were. *)
Theorem revalidate_sound k ops l slot r p :
  reachable k -> MIN_DERIVED_SERIAL < (cap_at k.(mem) l).(serial) ->
  cap_revalidate (kexec ops k) slot r (cap_snapshot (Some (cap_at k.(mem) l))) = Some p ->
  p = l /\ exists b, cap_at (kexec ops k).(mem) p = set_badge (cap_at k.(mem) l) b.
Proof.
  intros Hk Hs. unfold cap_revalidate, cap_snapshot. cbn [sn_valid sn_serial sn_object].
  case_match; [done|]. destruct (cap_lookup _ _ _ _) as [q|]; [|done].
  case_match eqn:E; [done|]. intros [= <-]. boolc.
  apply (serial_identity PCreate (ms k) (ms (kexec ops k)) l q); [by apply reachable_minv|
    by apply reachable_steps|done|done].
Qed.

Lemma revalidate_sound_witness :
  exists p, cap_revalidate (kexec [OMint 64 10 3] demo) 10 CAP_RIGHT_MINT
              (cap_snapshot (Some (cap_at demo.(mem) (demo_cs, 10)))) = Some p
  /\ p = (demo_cs, 10).
Proof.
  exists (demo_cs, 10).
  assert (cap_revalidate (kexec [OMint 64 10 3] demo) 10 CAP_RIGHT_MINT
            (cap_snapshot (Some (cap_at demo.(mem) (demo_cs, 10)))) = Some (demo_cs, 10)) as H
    by (vm_compute; reflexivity).
  split; [exact H|].
  refine (proj1 (revalidate_sound demo [OMint 64 10 3] (demo_cs, 10) 10 CAP_RIGHT_MINT (demo_cs, 10)
                   demo_reachable _ H)).
  vm_compute. reflexivity.
Defined.

(** ** Lookup *)

Lemma cap_lookup_resolves k slot ty r p :
  0 <= slot -> cap_lookup k slot ty r = Some p <-> resolves k slot ty r p.
Proof.
  intros H0. unfold cap_lookup, cap_current_cspace. split.
  - destruct (Z.leb_spec CNODE_SIZE slot); [done|].
    destruct (t_cspace _) as [c|] eqn:Ec.
    + destruct (Z.leb_spec (cur_size k) slot); [done|]. intros Hl.
      apply lookup_typed_live in Hl as (-> & HL & HT & HR). by constructor; auto.
    + destruct (Z.eqb_spec (cur k) 0); [|done]. cbn [negb]. intros Hl.
      apply lookup_typed_live in Hl as (-> & HL & HT & HR). by constructor; auto.
  - intros [[E1 E2] HS HL HT HR]. destruct p as [c s]; simpl in *; subst s.
    rewrite (proj2 (Z.leb_gt CNODE_SIZE slot)) by lia.
    destruct HS as [[-> Hs]|(-> & -> & ->)].
    + rewrite (proj2 (Z.leb_gt _ _)) by done. destruct HL. apply lookup_typed_intro; [lia|lia|done..].
    + destruct HL. apply lookup_typed_intro; [lia|lia|done..].
Qed.

(** cap_lookup resolves a slot number exactly when the slot lies in the
    caller's own cspace (the root cnode for task 0 without one), holds a
    capability with a serial, of the expected type, with all the required
    rights; it never falls back to another cspace. *)
Theorem cap_lookup_exact k slot ty r p :
  0 <= slot -> cap_lookup k slot ty r = Some p <-> resolves k slot ty r p.
Proof. apply cap_lookup_resolves. Qed.

Lemma cap_lookup_exact_witness : resolves demo 10 CAP_ENDPOINT CAP_RIGHT_MINT (demo_cs, 10).
Proof.
  apply (cap_lookup_exact demo 10 CAP_ENDPOINT CAP_RIGHT_MINT (demo_cs, 10)); [lia|].
  vm_compute. reflexivity.
Defined.

(** ** Revocation *)

(** The authority to revoke slot [slot] of the caller's own cspace, as
    cap_revoke asks for it; the target is no revocation-set indirection. *)
Record may_revoke (k : kstate) (slot : Z) : Prop := {
  mr_resolves : resolves k slot CAP_ANYTYPE CAP_RIGHT_REVOKE (cur_array k, slot);
  mr_caller : caller_has_authority k = true;
  mr_size : slot < cur_size k;
  mr_root : slot < KERNEL_RESERVED_CAPS -> cur_array k <> CRoot;
  mr_primordial : is_primordial_root k.(mem) (cur_array k) slot = false;
  mr_direct : (cap_at k.(mem) (cur_array k, slot)).(ctype) <> CAP_REVOCATION
}.

Lemma subset_revoke_bit r : subset_bits CAP_RIGHT_REVOKE r -> (Z.land r CAP_RIGHT_REVOKE =? 0) = false.
Proof. unfold subset_bits. rewrite Z.land_comm. by intros ->. Qed.

Lemma cap_revoke_swept k slot :
  unmarked k.(mem) -> may_revoke k slot ->
  exists st', swept (revoked_slots k.(mem) (revoke_view k) (cur_array k, slot))
                    (mk_rs k.(mem) k.(caps_in_use) (Some empty_tally)) st'
  /\ (cap_revoke k slot).1 = true /\ (cap_revoke k slot).2.(mem) = st'.(rs_mem)
  /\ (cap_revoke k slot).2.(caps_in_use) = st'.(rs_ciu).
Proof.
  intros Hu [[[_ Hs] _ [Ht Hser] _ Hr] Hc Hsz Hroot Hp Hd]. unfold cap_revoke, cap_revoke_exact.
  rewrite (proj2 (Z.leb_gt CNODE_SIZE slot)) by lia. rewrite Hc. cbn [negb].
  rewrite (subset_revoke_bit _ Hr). cbn [andb].
  assert ((slot <? KERNEL_RESERVED_CAPS) && bool_decide (cur_array k = CRoot) = false) as ->.
  { destruct (Z.ltb_spec slot KERNEL_RESERVED_CAPS); [|done]. apply bool_decide_eq_false. auto. }
  rewrite (proj2 (Z.eqb_neq _ _) Hd). cbn [andb].
  set (ciu := if bool_decide _ then _ else _).
  pose proof (rust_cap_revoke_global_spec (cur_array k) (cur_size k) slot ciu (revoke_spaces k)
    (mk_rs k.(mem) k.(caps_in_use) (Some empty_tally)) Hu
    (proj2 (slot_in_spec _ _) (conj (conj (proj1 Hs) Hsz) (proj2 Hs))) Hp Ht Hser) as [H1 H2].
  destruct (rust_cap_revoke_global _ _ _ _ _ _) as [ok st']. cbn [fst snd] in H1, H2. subst ok.
  destruct (pipe_release_revoked_ends _ _) as [ex ps]. exists st'. split; [exact H2|].
  match goal with |- context [kobj_gc_locked ?x] =>
    destruct (kobj_gc_locked_same_caps x) as [E1 _ E2 _ _ _ _] end.
  split_and!; [done|exact E1|exact E2].
Qed.

(** C2: a revocation empties exactly the target slot and the slots below it in
    the derivation tree, in every live cspace and the root cnode, and changes
    no other slot of any cspace. *)
Theorem cap_revoke_exactly_subtree k slot :
  reachable k -> may_revoke k slot ->
  let k' := (cap_revoke k slot).2 in
  (cap_revoke k slot).1 = true
  /\ (forall l, revoked_slots k.(mem) (revoke_view k) (cur_array k, slot) l -> cap_at k'.(mem) l = null_cap)
  /\ (forall l, ~ revoked_slots k.(mem) (revoke_view k) (cur_array k, slot) l ->
        cap_at k'.(mem) l = cap_at k.(mem) l).
Proof.
  intros Hk Hm. destruct (cap_revoke_swept k slot (mi_unmarked _ (reachable_minv k Hk)) Hm)
    as (st' & [G K _ _ _ _] & H1 & H2 & _).
  cbv zeta. rewrite H2. by split_and!.
Qed.

Lemma cap_revoke_exactly_subtree_witness :
  cap_at (cap_revoke (kexec [OMint 64 10 0xFFFF; OMint 65 64 3] demo) 10).2.(mem) (demo_cs, 65) = null_cap.
Proof.
  refine (proj1 (proj2 (cap_revoke_exactly_subtree (kexec [OMint 64 10 0xFFFF; OMint 65 64 3] demo) 10
    (reachable_run _ _ demo_reachable) _)) (demo_cs, 65) _).
  - constructor; [constructor|..]; vm_compute; try done; try (split; done); left; done.
  - right. split; [by_vm|split; [vm_compute; discriminate|right]].
    apply (desc_step _ _ _ _ (demo_cs, 64)); [apply desc_child; [by_vm|..]|by_vm|..];
      vm_compute; repeat split; discriminate.
Defined.

(** The marking loop of a revocation ends within one pass per slot it
    visits and one more, whatever the derivation forest looks like, and has
    then marked exactly the slots below the revoked serial. *)
Theorem revoke_marking_terminates k ts :
  reachable k ->
  let st := mark_children_of (revoke_spaces k) ts (mk_rs k.(mem) k.(caps_in_use) (Some empty_tally)) in
  exists st', revoke_loop (S (length (visit (revoke_spaces k)))) (revoke_spaces k) st = Some st'
  /\ forall l, marked st'.(rs_mem) l <-> descendant k.(mem) (revoke_view k) ts l.
Proof.
  intros Hk. destruct (marked_phase (revoke_spaces k) k.(mem) k.(caps_in_use) (Some empty_tally) ts
    (mi_unmarked _ (reachable_minv k Hk))) as (st' & H1 & _ & H2). by exists st'.
Qed.

Lemma revoke_marking_terminates_witness :
  exists st', revoke_loop (S (length (visit (revoke_spaces demo)))) (revoke_spaces demo)
    (mark_children_of (revoke_spaces demo) 0xC0DE000D (mk_rs demo.(mem) demo.(caps_in_use) (Some empty_tally)))
  = Some st'.
Proof.
  destruct (revoke_marking_terminates demo 0xC0DE000D demo_reachable) as (st' & H & _).
  exists st'. exact H.
Defined.

(** ** Minting *)

(** When a mint is granted: the source is held with the mint right and is not a
    pipe end, the destination is a slot of the caller's outside the reserved
    ones, a new slot fits the quota, and serials are left. *)
Record may_mint (k : kstate) (d s : Z) : Prop := {
  mm_source : resolves k s CAP_ANYTYPE CAP_RIGHT_MINT (cur_array k, s);
  mm_source_in : s < cur_size k;
  mm_dest : KERNEL_RESERVED_CAPS <= d < CNODE_SIZE /\ d < cur_size k;
  mm_copyable : (cap_at k.(mem) (cur_array k, s)).(ctype) <> CAP_PIPE;
  mm_quota : (cap_at k.(mem) (cur_array k, d)).(ctype) = CAP_NULL -> ciu_at k k.(cur) < MAX_CAPS_PER_TASK;
  mm_serials : k.(cap_next_serial) < U64_MAX
}.

(** What a granted mint leaves. *)
Definition minted (k : kstate) (d s r : Z) : kstate :=
  let src := cap_at k.(mem) (cur_array k, s) in
  let fresh := Z.max k.(cap_next_serial) MIN_DERIVED_SERIAL + 1 in
  let child := mk_cap src.(ctype) (Z.land r src.(rights)) src.(object) src.(serial) fresh src.(token) in
  let k1 := set_serial (set_mem k (cap_put k.(mem) (cur_array k, d) child)) fresh in
  if (cap_at k.(mem) (cur_array k, d)).(ctype) =? CAP_NULL then inc_ciu k1 k.(cur) else k1.

Lemma kcap_lookup_cur k s r p : 0 <= s -> kcap_lookup k s r = Some p ->
  p = (cur_array k, s) /\ resolves k s CAP_ANYTYPE r p.
Proof.
  intros H0 H. apply cap_lookup_resolves in H; [|done]. split; [|done].
  destruct H as [[H1 _] HS _ _ _]. destruct p as [c x]; simpl in *; subst x. unfold cur_array.
  destruct HS as [[-> _]|(-> & _ & ->)]; done.
Qed.

Lemma assign_fresh_eq ns :
  assign_fresh_serial ns = if ns <? U64_MAX then (Z.max ns MIN_DERIVED_SERIAL + 1, Z.max ns MIN_DERIVED_SERIAL + 1)
                           else (0, ns).
Proof.
  unfold assign_fresh_serial, MIN_DERIVED_SERIAL, U64_MAX. repeat case_match; boolc; try lia; f_equal; lia.
Qed.

Lemma resolves_caller k s ty r p : resolves k s ty r p -> caller_has_authority k = true.
Proof.
  intros [_ HS _ _ _]. unfold caller_has_authority. apply orb_true_iff.
  destruct HS as [[H _]|(_ & -> & _)]; [right; apply bool_decide_eq_true; by rewrite H|by left].
Qed.

Lemma rust_mint_eq k d s r :
  live (cap_at k.(mem) (cur_array k, s)) -> 0 <= s < CNODE_SIZE -> KERNEL_RESERVED_CAPS <= d < CNODE_SIZE ->
  rust_cap_mint k.(mem) k.(cap_next_serial) (Some (cur_array k)) (cur_size k) d s r
  = let src := cap_at k.(mem) (cur_array k, s) in
    let fresh := Z.max k.(cap_next_serial) MIN_DERIVED_SERIAL + 1 in
    if (d <? cur_size k) && (s <? cur_size k) && negb (src.(ctype) =? CAP_PIPE)
       && (k.(cap_next_serial) <? U64_MAX)
    then Some (cap_put k.(mem) (cur_array k, d)
           (mk_cap src.(ctype) (Z.land r src.(rights)) src.(object) src.(serial) fresh src.(token)), fresh)
    else None.
Proof.
  intros [L1 L2] Hs Hd. unfold rust_cap_mint, slot_in, copyable_from_ring3. rewrite assign_fresh_eq.
  rewrite (proj2 (Z.eqb_neq _ _) L1), (proj2 (Z.eqb_neq _ _) L2).
  assert (0 <= KERNEL_RESERVED_CAPS) as HK by done.
  rewrite (proj2 (Z.leb_le 0 d)), (proj2 (Z.leb_le 0 s)), (proj2 (Z.ltb_lt d CNODE_SIZE)),
    (proj2 (Z.ltb_lt s CNODE_SIZE)), (proj2 (Z.ltb_ge d KERNEL_RESERVED_CAPS)) by lia.
  cbn [andb]. rewrite !andb_true_r. destruct (d <? cur_size k), (s <? cur_size k); try done.
  destruct (_ =? CAP_PIPE); [done|]. cbn [negb andb].
  destruct (_ <? U64_MAX); [|done].
  by rewrite (proj2 (Z.eqb_neq (Z.max _ _ + 1) 0)) by (unfold MIN_DERIVED_SERIAL; lia).
Qed.

Lemma cap_mint_cases k d s r :
  0 <= d -> 0 <= s ->
  may_mint k d s /\ cap_mint k d s r = (true, minted k d s r)
  \/ ~ may_mint k d s /\ cap_mint k d s r = (false, k).
Proof.
  intros Hd0 Hs0. unfold cap_mint.
  destruct (kcap_lookup k s CAP_RIGHT_MINT) as [p|] eqn:EL.
  2: { right. split; [|by destruct (negb _)]. intros [HR _ _ _ _ _].
       apply cap_lookup_resolves in HR; [|done]. unfold kcap_lookup in EL. congruence. }
  destruct (kcap_lookup_cur _ _ _ _ Hs0 EL) as [-> HR]. rewrite (resolves_caller _ _ _ _ _ HR). cbn [negb].
  destruct (Z.leb_spec CNODE_SIZE d); [right; split; [intros []; lia|done]|].
  destruct (Z.ltb_spec d KERNEL_RESERVED_CAPS); [right; split; [intros []; lia|done]|].
  destruct (slot_null k _ && over_quota k _) eqn:EQ.
  { right. split; [|done]. intros [_ _ _ _ HQ _]. unfold slot_null, over_quota in EQ. boolc.
    by apply HQ in H1; lia. }
  pose proof HR as [[_ HS] _ HL _ _]. rewrite rust_mint_eq by (done || lia). cbv zeta.
  destruct (_ && negb _ && _) eqn:EG; unfold derived.
  - left. boolc. split; [|done]. constructor; try done. intros HN. unfold slot_null, over_quota in EQ.
    rewrite HN in EQ. simpl in EQ. by apply Z.leb_gt in EQ.
  - right. split; [|done]. intros [_ H1 [_ H2] H3 _ H4].
    rewrite (proj2 (Z.ltb_lt _ _) H1), (proj2 (Z.ltb_lt _ _) H2), (proj2 (Z.eqb_neq _ _) H3),
      (proj2 (Z.ltb_lt _ _) H4) in EG. done.
Qed.

(** C31: cap_mint succeeds exactly when [may_mint] holds, and then writes one
    child of the source to the destination, with the rights asked for cut down
    to the source's, a fresh serial, the source's serial as parent and the
    source's token, counting the slot if it was empty; otherwise it returns
    false and changes nothing. *)
Theorem cap_mint_exact k d s r :
  0 <= d -> 0 <= s ->
  may_mint k d s /\ cap_mint k d s r = (true, minted k d s r)
  \/ ~ may_mint k d s /\ cap_mint k d s r = (false, k).
Proof. apply cap_mint_cases. Qed.

Lemma cap_mint_exact_witness :
  may_mint demo 64 10 /\ cap_mint demo 64 10 3 = (true, minted demo 64 10 3).
Proof.
  destruct (cap_mint_exact demo 64 10 3 ltac:(lia) ltac:(lia)) as [H|[_ H]]; [exact H|].
  exfalso. apply (f_equal fst) in H. vm_compute in H. discriminate.
Defined.

(** ** Moving *)
Definition running (k : kstate) : Prop :=
  0 <= k.(cur) < g_max_tasks k /\ (cur_task k).(t_state) <> TASK_DEAD.

(** Every slot of the caller's own cspace is visited by its revocations. *)
Lemma own_slot_in_view k d :
  running k -> 0 <= d < CNODE_SIZE -> d < cur_size k -> (cur_array k, d) ∈ revoke_view k.
Proof.
  intros [Hc Hs] Hd Hsz. unfold revoke_view, visit, revoke_spaces, cur_array.
  rewrite list_elem_of_fmap. rewrite bind_app. setoid_rewrite elem_of_app.
  destruct (t_cspace (cur_task k)) as [c|] eqn:E; cbn [default from_option id].
  - exists ((c, d), Some k.(cur)). split; [done|]. left. apply list_elem_of_bind.
    exists (mk_desc (Some c) (cur_size k) (Some k.(cur))). split.
    + unfold desc_locs. simpl. apply list_elem_of_fmap. exists d. split; [done|].
      apply elem_of_seqZ. destruct (Z.ltb_spec CNODE_SIZE (cur_size k)); lia.
    + apply list_elem_of_bind. exists k.(cur). split; [|by apply elem_of_seqZ].
      unfold task_desc. fold (cur_task k). rewrite E, (proj2 (Z.eqb_neq _ _) Hs). by apply list_elem_of_singleton.
  - exists ((CRoot, d), None). split; [done|]. right. apply list_elem_of_bind. exists root_desc.
    split; [|by apply list_elem_of_singleton]. apply list_elem_of_fmap. exists d. split; [done|]. by apply elem_of_seqZ.
Qed.

Lemma minted_view k d s r : revoke_view (minted k d s r) = revoke_view k.
Proof. unfold minted. cbv zeta. by destruct (_ =? CAP_NULL). Qed.
Lemma minted_mem k d s r :
  (minted k d s r).(mem) = cap_put k.(mem) (cur_array k, d)
     (let src := cap_at k.(mem) (cur_array k, s) in
      mk_cap src.(ctype) (Z.land r src.(rights)) src.(object) src.(serial)
             (Z.max k.(cap_next_serial) MIN_DERIVED_SERIAL + 1) src.(token)).
Proof. unfold minted. cbv zeta. by destruct (_ =? CAP_NULL). Qed.
Lemma minted_cur k d s r :
  cur_array (minted k d s r) = cur_array k /\ cur_size (minted k d s r) = cur_size k
  /\ cur_task (minted k d s r) = cur_task k /\ (minted k d s r).(cur) = k.(cur).
Proof. unfold minted. cbv zeta. by destruct (_ =? CAP_NULL). Qed.

(** The new capability hangs below its source. *)
Lemma minted_below k d s r :
  running k -> live (cap_at k.(mem) (cur_array k, s)) -> slot_ok k.(mem) (cur_array k, d) ->
  0 <= d < CNODE_SIZE -> d < cur_size k ->
  subtree (minted k d s r).(mem) (revoke_view k) (cap_at k.(mem) (cur_array k, s)).(serial) (cur_array k, d).
Proof.
  intros Hrun [L1 L2] Hok Hd Hsz. unfold subtree. rewrite minted_mem.
  set (child := mk_cap _ _ _ _ _ _).
  assert (cap_at (cap_put k.(mem) (cur_array k, d) child) (cur_array k, d) = child) as E by by apply cap_at_put_eq.
  rewrite E. split; [by apply own_slot_in_view|]. split; [done|]. right.
  apply desc_child; [by apply own_slot_in_view| |by rewrite E].
  rewrite E. split_and!; [done| |done]. unfold child, MIN_DERIVED_SERIAL. simpl. lia.
Qed.

Lemma may_revoke_minted k d s r : d <> s -> may_revoke k s -> may_revoke (minted k d s r) s.
Proof.
  intros Hd [[H1 H2 H3 H4 H5] H6 H7 H8 H9 H10]. destruct (minted_cur k d s r) as (E1 & E2 & E3 & E4).
  assert (cap_at (minted k d s r).(mem) (cur_array k, s) = cap_at k.(mem) (cur_array k, s)) as E.
  { rewrite minted_mem. apply cap_at_put_ne. congruence. }
  constructor; [constructor|..]; rewrite ?E1, ?E2, ?E3, ?E4, ?E; try done.
  - unfold caller_has_authority. by rewrite E3, E4.
  - unfold is_primordial_root. by rewrite E.
Qed.

(** [cap_move] does not move: it copies the source to the destination as a
    child of the source and then revokes the source with everything below it,
    so that after a successful move both slots are empty. *)
Theorem cap_move_empties_both k d s :
  reachable k -> running k -> may_mint k d s -> may_revoke k s -> d <> s ->
  (cap_move k d s).1 = true
  /\ cap_at (cap_move k d s).2.(mem) (cur_array k, d) = null_cap
  /\ cap_at (cap_move k d s).2.(mem) (cur_array k, s) = null_cap.
Proof.
  intros Hk Hrun Hm Hr Hne. unfold cap_move. change (cap_transfer k d s) with (cap_mint k d s U32_MAX).
  pose proof Hr as [[[_ HS] _ [HL1 HL2] _ _] _ _ _ _ _]. pose proof Hm as [_ _ [HD1 HD2] _ _ _].
  assert (0 <= KERNEL_RESERVED_CAPS) by done.
  destruct (cap_mint_cases k d s U32_MAX ltac:(lia) ltac:(lia)) as [[_ E]|[? _]]; [|done]. rewrite E.
  pose proof (may_revoke_minted k d s U32_MAX Hne Hr) as Hr'.
  set (k1 := minted k d s U32_MAX) in *.
  assert (minv (ms k1)) as HI.
  { eapply msteps_minv; [|by apply reachable_minv, Hk].
    pose proof (cap_mint_op (p:=PUser) d s U32_MAX k (reachable_minv k Hk)) as HO. cbv beta in HO. by rewrite E in HO. }
  destruct (cap_revoke_swept k1 s (mi_unmarked _ HI) Hr') as (st' & [G K _ _ _ _] & H1 & H2 & _).
  destruct (minted_cur k d s U32_MAX) as (E1 & _). fold k1 in E1.
  rewrite H1, H2. split; [done|]. rewrite <- E1. split; [|by apply G; left].
  assert (revoke_view k1 = revoke_view k) as EV by apply minted_view.
  destruct (decide (slot_ok k.(mem) (cur_array k, d))) as [Hok|Hok].
  - apply G. right. rewrite E1, EV. unfold k1.
    rewrite minted_mem at 2. rewrite cap_at_put_ne by congruence. apply minted_below; [done..|lia|done].
  - assert (cap_at k1.(mem) (cur_array k1, d) = null_cap) as Ed.
    { rewrite E1. unfold k1. rewrite minted_mem, cap_at_put, decide_False by naive_solver. by apply cap_at_not_ok. }
    rewrite K; [exact Ed|]. intros [[= <-]|(_ & HT & _)]; [done|]. by rewrite Ed in HT.
Qed.

Lemma cap_move_empties_both_witness :
  cap_at (cap_move demo 64 10).2.(mem) (cur_array demo, 64) = null_cap.
Proof.
  refine (proj1 (proj2 (cap_move_empties_both demo 64 10 demo_reachable _ _ _ _))).
  - split; [vm_compute; split; [discriminate|reflexivity]|vm_compute; discriminate].
  - constructor; [constructor|..]; vm_compute; try done; try (split; done); left; done.
  - constructor; [constructor|..]; vm_compute; try done; try (split; done); left; done.
  - lia.
Defined.

(** ** Pipe ends *)

(** C15: no sequence of mint, token mint, transfer, move, grant, revoke, consume,
    pipe I/O, close, kill and exit copies a pipe end: a slot that holds one
    afterwards held the same end before, so the counts of live readers and
    writers cannot be outrun by a copy. *)
Theorem user_never_copies_pipe_end k ops l :
  reachable k -> Forall (fun o => op_power o = PUser) ops ->
  (cap_at (kexec ops k).(mem) l).(ctype) = CAP_PIPE ->
  weaker (cap_at (kexec ops k).(mem) l) (cap_at k.(mem) l).
Proof.
  intros Hk Ho Ht. apply (msteps_pipe_kept (ms k) (ms (kexec ops k)) l); [|done].
  apply kexec_op; [|by apply reachable_minv]. eapply Forall_impl; [exact Ho|]. by intros o ->.
Qed.

Lemma user_never_copies_pipe_end_witness :
  weaker (cap_at (kexec [OTransfer 70 64; OMint 71 64 3] (kexec [OPipe] demo)).(mem) (demo_cs, 64))
         (cap_at (kexec [OPipe] demo).(mem) (demo_cs, 64)).
Proof.
  apply (user_never_copies_pipe_end (kexec [OPipe] demo) [OTransfer 70 64; OMint 71 64 3] (demo_cs, 64)).
  - apply reachable_run, demo_reachable.
  - repeat constructor.
  - vm_compute. reflexivity.
Defined.

(** SYS_PIPE_CLOSE on a slot that holds some other capability of the caller
    answers that the argument is invalid, and has destroyed the capability: the
    slot is empty afterwards. *)
Theorem pipe_close_destroys_any_capability k rbx cs :
  0 < k.(cur) < g_max_tasks k -> (cur_task k).(t_cspace) = Some cs -> u32 rbx < cur_size k ->
  slot_ok k.(mem) (cs, u32 rbx) ->
  (cap_at k.(mem) (cs, u32 rbx)).(ctype) <> CAP_NULL -> (cap_at k.(mem) (cs, u32 rbx)).(ctype) <> CAP_PIPE ->
  (h_pipe_close k rbx).1 = rax32 SYS_ERR_INVAL
  /\ cap_at (h_pipe_close k rbx).2.(mem) (cs, u32 rbx) = null_cap.
Proof.
  intros Hc Hcs Hsz Hok Hn Hp. unfold h_pipe_close, cap_consume_slot_of.
  destruct ((cur k <=? 0) || (g_max_tasks k <=? cur k)) eqn:E.
  { apply orb_true_iff in E. rewrite !Z.leb_le in E. lia. }
  unfold cur_task in Hcs. rewrite Hcs.
  destruct (Z.leb_spec (task_size (task_at k (cur k))) (u32 rbx)); [unfold cur_size, cur_task in Hsz; lia|].
  unfold slot_null. rewrite (proj2 (Z.eqb_neq _ _) Hn). cbn [negb orb].
  rewrite (proj2 (Z.eqb_neq _ _) Hp). cbn [negb fst snd]. split; [done|].
  unfold dec_ciu_of, put_cap. cbn [mem set_ciu set_mem]. by apply cap_at_put_eq.
Qed.

Lemma pipe_close_destroys_any_capability_witness :
  cap_at (h_pipe_close demo 10).2.(mem) (demo_cs, u32 10) = null_cap.
Proof.
  refine (proj2 (pipe_close_destroys_any_capability demo 10 demo_cs _ _ _ _ _ _));
    vm_compute; try reflexivity; try discriminate; split; reflexivity || discriminate.
Defined.
