(* ===== verification/IpcInv.v ===== *)
(** The invariants of IPC in every reachable state: endpoint rings and
    notification words are well-formed, and nobody sleeps on an endpoint that
    holds a message for it or on a notification that has been signalled. *)
From S2P Require Import Prelude KTypes CapCore CapRevoke Pipe SchedCtx KState Endpoint Untyped CSpace PipeSys Retype TaskLife CapSys Ipc TaskSys CapInv CapOps IpcOps Kernel Calm Security.

(** ** The invariant *)
Definition asleep_on_ep (k : kstate) (w idx : Z) : Prop :=
  0 < w /\ (task_at k w).(t_state) = TASK_BLOCKED_IPC
  /\ 0 <= (task_at k w).(t_blocked_on) /\ u32 (task_at k w).(t_blocked_on) = idx.
Definition asleep_on_notif (k : kstate) (w idx : Z) : Prop :=
  0 < w /\ (task_at k w).(t_state) = TASK_BLOCKED_NOTIF
  /\ 0 <= (task_at k w).(t_blocked_on_notif) /\ u32 (task_at k w).(t_blocked_on_notif) = idx.

Record ipc_inv (k : kstate) : Prop := {
  ii_eps : zlen k.(endpoints) = MAX_ENDPOINTS;
  ii_nts : zlen k.(notifications) = MAX_NOTIFICATIONS;
  ii_ep_wf : forall i e, 0 <= i -> endpoint_by_index k i = Some e -> ep_wf e;
  ii_nt_wf : forall i n, 0 <= i -> notification_by_index k i = Some n -> 0 <= n.(nt_pending_badge) <= U32_MAX;
  ii_ep_awake : forall i e, 0 <= i -> endpoint_by_index k i = Some e ->
    asleep_on_ep k e.(ep_blocked_waiter) i -> ep_empty e = true;
  ii_nt_awake : forall i n, 0 <= i -> notification_by_index k i = Some n ->
    asleep_on_notif k n.(nt_blocked_waiter) i -> n.(nt_pending_badge) = 0;
  ii_frame : forall t, asleep (task_at k t) -> (task_at k t).(t_ipc).(ip_frame) <> None
}.

Lemma asleep_calm_ep k k' w i : calm k k' -> asleep_on_ep k' w i -> asleep_on_ep k w i.
Proof.
  intros Hc (H0 & H1 & H2 & H3). destruct (ct_ipc _ _ (cl_tasks _ _ Hc w) H1 H2) as [Hs Hb].
  by rewrite Hb in *.
Qed.
Lemma asleep_calm_notif k k' w i : calm k k' -> asleep_on_notif k' w i -> asleep_on_notif k w i.
Proof.
  intros Hc (H0 & H1 & H2 & H3). destruct (ct_notif _ _ (cl_tasks _ _ Hc w) H1 H2) as [Hs Hb].
  by rewrite Hb in *.
Qed.

Lemma endpoint_calm k k' i e :
  calm k k' -> endpoint_by_index k' i = Some e -> endpoint_by_index k i = Some e \/ e = ep_fresh.
Proof.
  intros [He _ Hd _ _ _]. unfold endpoint_by_index. rewrite He. case_match; [by left|].
  case_match; [done|]. apply Hd.
Qed.
Lemma notification_calm k k' i n :
  calm k k' -> notification_by_index k' i = Some n -> notification_by_index k i = Some n \/ n = notif_fresh.
Proof.
  intros [_ Hn _ Hd _ _]. unfold notification_by_index. rewrite Hn. case_match; [by left|].
  case_match; [done|]. apply Hd.
Qed.

Lemma ipc_inv_calm k k' : calm k k' -> ipc_inv k -> ipc_inv k'.
Proof.
  intros Hc [I1 I2 I3 I4 I5 I6 I7]. constructor.
  - by rewrite (cl_eps _ _ Hc).
  - by rewrite (cl_nts _ _ Hc).
  - intros i e Hi [H| ->]%(endpoint_calm _ _ _ _ Hc); [by eapply I3|apply ep_fresh_wf].
  - intros i n Hi [H| ->]%(notification_calm _ _ _ _ Hc); [by eapply I4|done].
  - intros i e Hi [H| ->]%(endpoint_calm _ _ _ _ Hc) Ha; [|done]. eapply I5; [done..|]. by eapply asleep_calm_ep.
  - intros i n Hi [H| ->]%(notification_calm _ _ _ _ Hc) Ha; [|done]. eapply I6; [done..|]. by eapply asleep_calm_notif.
  - intros t Ht. destruct (ct_frame _ _ (cl_tasks _ _ Hc t) Ht) as [Hb Hf]. by apply Hf, I7.
Qed.

(** ** One object changes *)
Lemma zget_dyn {A} (l : list (kobj_slot A)) i j (x : A) :
  ks_obj (zget kslot_zero (zset l i (ks_set_obj (zget kslot_zero l i) x)) j)
  = if decide (i = j) then (fun _ => x) <$> ks_obj (zget kslot_zero l i) else ks_obj (zget kslot_zero l j).
Proof.
  rewrite zget_zset. case_bool_decide as H.
  - destruct H as [-> H]. rewrite decide_True by done. unfold ks_obj, ks_set_obj. simpl.
    by destruct (ks_mem _) as [[]|].
  - case_decide; [|done]. subst j. rewrite zget_out by lia. done.
Qed.

Lemma endpoint_put k idx e i :
  0 <= idx -> 0 <= i -> zlen k.(endpoints) = MAX_ENDPOINTS ->
  endpoint_by_index (put_endpoint k idx e) i
  = if decide (idx = i) then (fun _ => e) <$> endpoint_by_index k i else endpoint_by_index k i.
Proof.
  intros H0 Hi Hl. unfold put_endpoint, endpoint_by_index.
  destruct (Z.ltb_spec idx MAX_ENDPOINTS); cbn [endpoints dyn_eps set_endpoints set_dyn_eps].
  - destruct (Z.ltb_spec i MAX_ENDPOINTS); [|by rewrite decide_False by lia]. case_decide.
    + subst i. rewrite zget_zset_eq by lia. done.
    + by rewrite zget_zset_ne.
  - destruct (Z.ltb_spec i MAX_ENDPOINTS); [by rewrite decide_False by lia|].
    destruct (EP_INDEX_MAX <=? i); [by case_decide|]. rewrite zget_dyn.
    destruct (decide (idx = i)); [subst; by rewrite decide_True|by rewrite decide_False by lia].
Qed.
Lemma notification_put k idx n i :
  0 <= idx -> 0 <= i -> zlen k.(notifications) = MAX_NOTIFICATIONS ->
  notification_by_index (put_notification k idx n) i
  = if decide (idx = i) then (fun _ => n) <$> notification_by_index k i else notification_by_index k i.
Proof.
  intros H0 Hi Hl. unfold put_notification, notification_by_index.
  destruct (Z.ltb_spec idx MAX_NOTIFICATIONS); cbn [notifications dyn_notifs set_notifications set_dyn_notifs].
  - destruct (Z.ltb_spec i MAX_NOTIFICATIONS); [|by rewrite decide_False by lia]. case_decide.
    + subst i. rewrite zget_zset_eq by lia. done.
    + by rewrite zget_zset_ne.
  - destruct (Z.ltb_spec i MAX_NOTIFICATIONS); [by rewrite decide_False by lia|].
    destruct (NOTIF_INDEX_MAX <=? i); [by case_decide|]. rewrite zget_dyn.
    destruct (decide (idx = i)); [subst; by rewrite decide_True|by rewrite decide_False by lia].
Qed.

(** What a write to one table leaves of the rest. *)
Lemma put_endpoint_rest k idx e :
  (put_endpoint k idx e).(tasks) = k.(tasks) /\ (put_endpoint k idx e).(notifications) = k.(notifications)
  /\ (put_endpoint k idx e).(dyn_notifs) = k.(dyn_notifs) /\ zlen (put_endpoint k idx e).(endpoints) = zlen k.(endpoints)
  /\ (put_endpoint k idx e).(cur) = k.(cur).
Proof. unfold put_endpoint. case_match; [|done]. split_and!; try done. apply zlen_zset. Qed.
Lemma put_notification_rest k idx n :
  (put_notification k idx n).(tasks) = k.(tasks) /\ (put_notification k idx n).(endpoints) = k.(endpoints)
  /\ (put_notification k idx n).(dyn_eps) = k.(dyn_eps)
  /\ zlen (put_notification k idx n).(notifications) = zlen k.(notifications)
  /\ (put_notification k idx n).(cur) = k.(cur).
Proof. unfold put_notification. case_match; [|done]. split_and!; try done. apply zlen_zset. Qed.
Lemma task_at_put_endpoint k idx e t : task_at (put_endpoint k idx e) t = task_at k t.
Proof. unfold task_at. by rewrite (proj1 (put_endpoint_rest k idx e)). Qed.
Lemma task_at_put_notification k idx n t : task_at (put_notification k idx n) t = task_at k t.
Proof. unfold task_at. by rewrite (proj1 (put_notification_rest k idx n)). Qed.

Lemma ipc_inv_put_ep k idx e :
  0 <= idx -> ipc_inv k -> ep_wf e ->
  (asleep_on_ep k e.(ep_blocked_waiter) idx -> ep_empty e = true) -> ipc_inv (put_endpoint k idx e).
Proof.
  intros H0 [I1 I2 I3 I4 I5 I6 I7] Hw He.
  destruct (put_endpoint_rest k idx e) as (Ht & Hn & Hdn & Hl & _).
  assert (forall i n, notification_by_index (put_endpoint k idx e) i = Some n -> notification_by_index k i = Some n) as HN
    by (unfold notification_by_index; rewrite Hn, Hdn; done).
  constructor; [by rewrite Hl|by rewrite Hn| | | | |intros t; rewrite task_at_put_endpoint; apply I7].
  - intros i x Hi. rewrite endpoint_put by done. case_decide; [|by apply I3]. by intros (? & _ & ->)%fmap_Some.
  - intros i n Hi H%HN. by eapply I4.
  - intros i x Hi. rewrite endpoint_put by done. unfold asleep_on_ep. rewrite task_at_put_endpoint. case_decide; [|by apply I5].
    subst i. by intros (? & _ & ->)%fmap_Some.
  - intros i n Hi H%HN. unfold asleep_on_notif. rewrite task_at_put_endpoint. by eapply I6.
Qed.
Lemma ipc_inv_put_nt k idx n :
  0 <= idx -> ipc_inv k -> 0 <= n.(nt_pending_badge) <= U32_MAX ->
  (asleep_on_notif k n.(nt_blocked_waiter) idx -> n.(nt_pending_badge) = 0) -> ipc_inv (put_notification k idx n).
Proof.
  intros H0 [I1 I2 I3 I4 I5 I6 I7] Hw He.
  destruct (put_notification_rest k idx n) as (Ht & Hn & Hdn & Hl & _).
  assert (forall i e, endpoint_by_index (put_notification k idx n) i = Some e -> endpoint_by_index k i = Some e) as HN
    by (unfold endpoint_by_index; rewrite Hn, Hdn; done).
  constructor; [by rewrite Hn|by rewrite Hl| | | | |intros t; rewrite task_at_put_notification; apply I7].
  - intros i x Hi H%HN. by eapply I3.
  - intros i x Hi. rewrite notification_put by done. case_decide; [|by apply I4]. by intros (? & _ & ->)%fmap_Some.
  - intros i x Hi H%HN. unfold asleep_on_ep. rewrite task_at_put_notification. by eapply I5.
  - intros i x Hi. rewrite notification_put by done. unfold asleep_on_notif. rewrite task_at_put_notification.
    case_decide; [|by apply I6]. subst i. by intros (? & _ & ->)%fmap_Some.
Qed.

(** ** The operations keep the invariant *)
Lemma task_in_range k t : (task_at k t).(t_state) <> TASK_DEAD -> 0 <= t < g_max_tasks k.
Proof.
  intros H. destruct (decide (0 <= t < g_max_tasks k)); [done|]. exfalso. apply H. unfold task_at.
  rewrite zget_out; [done|]. unfold g_max_tasks in *. lia.
Qed.
Lemma u32_nonneg x : 0 <= u32 x.
Proof. apply u32_range. Qed.
Lemma zlen_from_user u len : 0 <= len -> zlen (from_user u len) = len.
Proof. intros. unfold from_user, zlen. rewrite length_fmap, length_seqZ. lia. Qed.
#[local] Hint Resolve u32_nonneg : horus.

Lemma upd_ipc_calm k t f :
  (forall ip, (f ip).(ip_frame) = ip.(ip_frame)) -> calm k (upd_ipc k t f).
Proof.
  intros Hf. unfold upd_ipc. apply calm_upd_task, calm_task_same; [reflexivity..|]. cbn. by rewrite Hf.
Qed.
Lemma set_frame_calm k t r : calm k (set_frame_rax k t r).
Proof. unfold set_frame_rax. calm_field. Qed.
Lemma wake_calm k t : calm k (wake k t).
Proof. unfold wake. calm_wakes. Qed.
Lemma wake_unblock_calm k t : calm k (wake_unblock k t).
Proof. unfold wake_unblock. calm_wakes. Qed.

Section ops.
Context (k : kstate) (HI : ipc_inv k).

Lemma send_to_waiter_inv ep e u len inv :
  0 <= ep -> endpoint_by_index k ep = Some e -> ep_empty e = true ->
  ipc_inv (ipc_send_to_waiter k ep e e.(ep_blocked_waiter) u len inv).2.
Proof using HI.
  intros H0 He Hempty. pose proof (ii_ep_wf _ HI _ _ H0 He) as Hw. set (w := e.(ep_blocked_waiter)).
  unfold ipc_send_to_waiter. cbv zeta. set (len' := if _ && _ then _ else len). clearbody len'.
  case_match; [exact HI|]. case_match; [|exact HI].
  set (k1 := set_frame_rax k w (u32 len')).
  assert (ipc_inv k1) as I1 by by apply (ipc_inv_calm k); [apply set_frame_calm|]. clearbody k1.
  assert (forall k2 e2, ipc_inv k2 -> ep_wf e2 -> ep_empty e2 = true ->
    ipc_inv (wake_unblock (put_endpoint k2 ep (ep_set_waiter e2 (-1))) w)) as HF.
  { intros k2 e2 I2 [W1 W2 W3 W4 W5] E2. eapply ipc_inv_calm; [apply wake_unblock_calm|]. by apply ipc_inv_put_ep. }
  case_match; [|by apply HF]. set (e2 := ep_set_last e _ _ _).
  assert (ep_wf e2) as W2 by by destruct Hw. set (k2 := upd_ipc (put_endpoint k1 ep e2) w _).
  assert (ipc_inv k2) as I2.
  { eapply ipc_inv_calm; [by apply upd_ipc_calm|]. by apply ipc_inv_put_ep. } clearbody k2.
  match goal with |- context [cap_install_reply_for k2 ?a ?b ?c] =>
    pose proof (cap_install_reply_calm a b c k2) as HC; cbv beta in HC; destruct (cap_install_reply_for k2 a b c) as [ok k3] end.
  assert (ipc_inv k3) as I3 by by eapply ipc_inv_calm. destruct ok; [by apply HF|exact I3].
Qed.

Lemma sys_ipc_send_inv ep u len inv : 0 <= ep -> 0 <= len -> ipc_inv (sys_ipc_send k ep u len inv).2.
Proof using HI.
  intros H0 Hlen. unfold sys_ipc_send. destruct (endpoint_by_index k ep) as [e|] eqn:He; [|exact HI].
  cbv zeta. set (len' := if IPC_MSG_MAX <? len then _ else len).
  assert (0 <= len' <= IPC_MSG_MAX) as Hlen' by (unfold len', IPC_MSG_MAX in *; case_match; lia). clearbody len'.
  unfold sys_ipc_send_locked. cbv zeta.
  destruct ((0 <? ep_blocked_waiter e) && _ && _ && ep_empty e) eqn:EG.
  { case_match; [exact HI|]. apply send_to_waiter_inv; try done. by apply andb_true_iff in EG as [_ ?]. }
  destruct (ep_full e) eqn:EF; [exact HI|]. case_match; [exact HI|]. case_match; [exact HI|]. cbn [snd].
  pose proof (ii_ep_wf _ HI _ _ H0 He) as Hw. apply ipc_inv_put_ep; [done..| |].
  - apply ep_enqueue_wf; [done..|]. rewrite clamp_msg_len_id, zlen_from_user by lia. done.
  - change (ep_blocked_waiter (ep_enqueue k e (from_user u len') len' k.(cur) inv)) with (ep_blocked_waiter e).
    intros Hs. pose proof (ii_ep_awake _ HI _ _ H0 He Hs) as Hempty. exfalso. destruct Hs as (Hw0 & Hst & _).
    destruct (task_in_range k e.(ep_blocked_waiter)) as [_ Hr]; [by rewrite Hst|].
    rewrite Hempty, Hst, (proj2 (Z.ltb_lt _ _) Hw0), (proj2 (Z.ltb_lt _ _) Hr) in EG. discriminate.
Qed.

Lemma sys_ipc_recv_inv ep u msg max : 0 <= ep -> ipc_inv (sys_ipc_recv k ep u msg max).2.
Proof using HI.
  intros H0. unfold sys_ipc_recv. destruct (endpoint_by_index k ep) as [e|] eqn:He; [|exact HI].
  cbv zeta. destruct (ep_empty e) eqn:EE; [exact HI|]. case_match; [exact HI|].
  pose proof (ii_ep_wf _ HI _ _ H0 He) as Hw. pose proof (ep_dequeue_wf e (s32 max) Hw EE) as Hw'.
  assert (asleep_on_ep k (ep_blocked_waiter (ep_dequeue e (s32 max)).2) ep -> ep_empty (ep_dequeue e (s32 max)).2 = true) as Ha.
  { intros Hs. by rewrite (ii_ep_awake _ HI _ _ H0 He Hs) in EE. }
  destruct (ep_dequeue e (s32 max)) as [d e']. cbn [snd] in *. case_match; [by apply ipc_inv_put_ep|].
  cbn [snd]. set (k1 := put_endpoint k ep _).
  assert (ipc_inv k1) as I1 by (apply ipc_inv_put_ep; [done..| |done]; by destruct Hw'). clearbody k1.
  case_match; [|exact I1]. eapply ipc_inv_calm; [|exact I1]. apply cap_install_object_calm.
Qed.

Lemma notify_inv i b : 0 <= i -> ipc_inv (sys_notify k i b).2.
Proof using HI.
  intros H0. unfold sys_notify. destruct (notification_by_index k i) as [n|] eqn:Hn; [|exact HI]. cbv zeta.
  pose proof (ii_nt_wf _ HI _ _ H0 Hn) as Hb.
  assert (0 <= Z.lor n.(nt_pending_badge) (u32 b) <= U32_MAX) as HL by by apply lor_u32.
  destruct ((0 <? _) && _ && _) eqn:EG; cbn [snd].
  - eapply ipc_inv_calm; [apply wake_calm|]. eapply ipc_inv_calm; [calm_field|]. by apply ipc_inv_put_nt.
  - apply ipc_inv_put_nt; [done..|]. intros Hs. exfalso. destruct Hs as (Hw0 & Hst & _). cbn in Hw0, Hst.
    destruct (task_in_range k n.(nt_blocked_waiter)) as [_ Hr]; [by rewrite Hst|].
    rewrite Hst, (proj2 (Z.ltb_lt _ _) Hw0), (proj2 (Z.ltb_lt _ _) Hr) in EG. discriminate.
Qed.
Lemma take_badge_inv i n :
  0 <= i -> notification_by_index k i = Some n -> ipc_inv (put_notification k i (mk_notif 0 n.(nt_blocked_waiter))).
Proof using HI. intros H0 Hn. by apply ipc_inv_put_nt. Qed.
End ops.

(** Receiving changes no task. *)
Lemma tasks_note k ty o : (kobj_note_named k ty o).(tasks) = k.(tasks).
Proof. unfold kobj_note_named, kobj_unpin. by repeat case_match. Qed.
Lemma tasks_install_object k d ty o r b : (cap_install_object k d ty o r b).2.(tasks) = k.(tasks).
Proof.
  unfold cap_install_object, cap_alloc_fresh_serial, install_at.
  repeat case_match; simplify_eq; cbn [snd]; rewrite ?tasks_note; done.
Qed.
Lemma tasks_recv k ep u msg max : (sys_ipc_recv k ep u msg max).2.(tasks) = k.(tasks).
Proof.
  unfold sys_ipc_recv. case_match; [|done]. cbv zeta. do 2 (case_match; [done|]).
  destruct (ep_dequeue _ _) as [d e']. case_match; cbn [snd]; [apply put_endpoint_rest|].
  case_match; rewrite ?tasks_install_object; apply put_endpoint_rest.
Qed.
Lemma cur_recv k ep u msg max : (sys_ipc_recv k ep u msg max).2.(cur) = k.(cur).
Proof.
  unfold sys_ipc_recv, cap_install_object, cap_alloc_fresh_serial, install_at, kobj_note_named, kobj_unpin, put_endpoint.
  repeat case_match; simplify_eq; done.
Qed.

Lemma u64_nonneg x : 0 <= u64 x.
Proof. rewrite u64_mod. apply Z.mod_pos_bound. lia. Qed.
Lemma ep_from_slot_nonneg k s r ep : ipc_ep_from_slot k s r = Some ep -> 0 <= ep.
Proof.
  unfold ipc_ep_from_slot, cap_lookup_ipc_object, rust_ipc_object_from_slot. intros.
  repeat case_match; simplify_eq; apply u32_nonneg.
Qed.
Lemma notif_from_slot_nonneg k s r i : ipc_notif_from_slot k s r = Some i -> 0 <= i.
Proof.
  unfold ipc_notif_from_slot, cap_lookup_ipc_object, rust_ipc_object_from_slot. intros.
  repeat case_match; simplify_eq; apply u32_nonneg.
Qed.

Section handlers.
Context (k : kstate) (HI : ipc_inv k) (Hcur : (task_at k k.(cur)).(t_state) = TASK_RUNNABLE).

Lemma call_inv s u len rb rs cs : 0 <= len -> ipc_inv (ipc_call_common k s u len rb rs cs).2.
Proof using HI Hcur.
  intros Hl. unfold ipc_call_common. destruct (ipc_call_check _ _ _ _) as [err|[[ep inv] ser]] eqn:E; [exact HI|].
  assert (0 <= ep) as H0.
  { unfold ipc_call_check, ipc_ep_and_invoker in E. repeat case_match; simplify_eq; apply u32_nonneg. }
  set (k1 := upd_task k _ _). assert (ipc_inv k1) as I1.
  { eapply ipc_inv_calm; [|exact HI]. apply calm_upd_task, calm_awake; cbn; by rewrite Hcur. } clearbody k1.
  pose proof (sys_ipc_send_inv k1 I1 ep u len (Some inv) H0 Hl) as I2.
  destruct (sys_ipc_send _ _ _ _ _) as [[rc cs'] k2]. cbn [snd] in I2. case_match; [|exact I2]. cbn [snd].
  eapply ipc_inv_calm; [|exact I2]. apply calm_upd_task. split; cbn; [lia|done|done].
Qed.

Lemma recv_block_inv fuel ep rcx rdx u acc r :
  0 <= ep -> recv_block_loop fuel k ep rcx rdx u acc = Some r -> ipc_inv r.2.
Proof using HI Hcur.
  intros H0. revert k HI Hcur acc. induction fuel as [|n IH]; intros k0 I0 Hc acc; simpl; [done|].
  case_match; [|done]. case_match.
  - pose proof (sys_ipc_recv_inv k0 I0 ep u (u64 rcx) rdx H0) as I1. pose proof (tasks_recv k0 ep u (u64 rcx) rdx) as T1.
    pose proof (cur_recv k0 ep u (u64 rcx) rdx) as C1.
    destruct (sys_ipc_recv _ _ _ _ _) as [[rc cs] k1]. cbn [snd] in *. case_match; [|by intros [= <-]].
    apply IH; [exact I1|]. unfold task_at. by rewrite T1, C1.
  - intros [= <-]. cbn [snd]. eapply ipc_inv_calm; [|exact I0]. apply calm_upd_task, calm_awake; cbn; by rewrite Hc.
Qed.
End handlers.

Lemma reply_deliver_inv k t kbuf : ipc_inv k -> ipc_inv (reply_deliver k t kbuf).2.
Proof.
  intros HI. unfold reply_deliver. case_match; [|exact HI]. cbv zeta. cbn [snd].
  set (k1 := set_frame_rax k t _). assert (ipc_inv k1) as I1 by by apply (ipc_inv_calm k); [apply set_frame_calm|]. clearbody k1.
  eapply ipc_inv_calm; [apply cap_consume_calm|]. eapply ipc_inv_calm; [apply wake_unblock_calm|].
  destruct (endpoint_or_none k1 (task_at k1 t).(t_blocked_on)) as [e|] eqn:E; [|exact I1].
  case_match; [|exact I1]. unfold endpoint_or_none in E. case_match; [done|].
  pose proof (ii_ep_wf _ I1 _ _ (u32_nonneg _) E) as Hw. apply ipc_inv_put_ep; [apply u32_nonneg|done| |].
  - by destruct Hw.
  - intros (Hneg & _). cbn in Hneg. lia.
Qed.
Lemma reply_common_inv k rbx rdx u m : ipc_inv k -> ipc_inv (ipc_reply_common k rbx rdx u m).2.
Proof.
  intros HI. assert (ipc_inv (cap_consume_slot k CAPSLOT_REPLY).2) as HD by (eapply ipc_inv_calm; [apply cap_consume_calm|done]).
  unfold ipc_reply_common. case_match; [|exact HI]. cbv zeta.
  set (len := if IPC_MSG_MAX <? u64 rdx then _ else _). clearbody len. case_match; [|exact HI].
  case_match; [exact HD|]. case_match; [case_match; [exact HI|exact HD]|].
  case_match; [exact HI|]. destruct m as [[rts tok]|]; [|by apply reply_deliver_inv]. case_match; [exact HI|].
  match goal with |- context [cap_reply_mint_into ?k ?a ?b ?c ?d ?e ?f ?g] =>
    pose proof (cap_reply_mint_calm a b c d e f g k) as HM; cbv beta in HM; destruct (cap_reply_mint_into k a b c d e f g) as [ok k1] end.
  assert (ipc_inv k1) as I1 by by eapply ipc_inv_calm. case_match; [by apply reply_deliver_inv|exact I1].
Qed.

(** ** Going to sleep *)
Lemma task_at_upd_task k t f t' :
  task_at (upd_task k t f) t' = if bool_decide (t = t' /\ 0 <= t < g_max_tasks k) then f (task_at k t) else task_at k t'.
Proof. apply zget_zset. Qed.

Lemma sleep_on_ep_inv k c i e f :
  ipc_inv k -> 0 <= i -> endpoint_by_index k i = Some e -> ep_empty e = true ->
  (f (task_at k c)).(t_state) = TASK_BLOCKED_IPC -> (f (task_at k c)).(t_blocked_on) = (task_at k c).(t_blocked_on) ->
  (task_at k c).(t_ipc).(ip_frame) <> None -> (f (task_at k c)).(t_ipc) = (task_at k c).(t_ipc) ->
  u32 (task_at k c).(t_blocked_on) = i -> ipc_inv (upd_task k c f).
Proof.
  intros [I1 I2 I3 I4 I5 I6 I7] Hi He Hempty Hs Hb Hf Hip Hbi. constructor; try done.
  - intros j e' Hj He' (H0 & H1 & H2 & H3). rewrite task_at_upd_task in *. case_bool_decide as Hc; [|by eapply (I5 j e' Hj He')].
    rewrite Hb in *. change (endpoint_by_index k j = Some e') in He'.
    assert (j = i) as -> by congruence. congruence.
  - intros j n Hj Hn (H0 & H1 & H2 & H3). rewrite task_at_upd_task in *. case_bool_decide as Hc; [|by eapply (I6 j n Hj Hn)].
    rewrite Hs in H1. discriminate.
  - intros t. rewrite task_at_upd_task. case_bool_decide; [|apply I7]. by rewrite Hip.
Qed.
Lemma sleep_on_notif_inv k c i n f :
  ipc_inv k -> 0 <= i -> notification_by_index k i = Some n -> n.(nt_pending_badge) = 0 ->
  (f (task_at k c)).(t_state) = TASK_BLOCKED_NOTIF ->
  (f (task_at k c)).(t_blocked_on_notif) = (task_at k c).(t_blocked_on_notif) ->
  (task_at k c).(t_ipc).(ip_frame) <> None -> (f (task_at k c)).(t_ipc) = (task_at k c).(t_ipc) ->
  u32 (task_at k c).(t_blocked_on_notif) = i -> ipc_inv (upd_task k c f).
Proof.
  intros [I1 I2 I3 I4 I5 I6 I7] Hi He Hempty Hs Hb Hf Hip Hbi. constructor; try done.
  - intros j e' Hj He' (H0 & H1 & H2 & H3). rewrite task_at_upd_task in *. case_bool_decide as Hc; [|by eapply (I5 j e' Hj He')].
    rewrite Hs in H1. discriminate.
  - intros j n' Hj Hn (H0 & H1 & H2 & H3). rewrite task_at_upd_task in *. case_bool_decide as Hc; [|by eapply (I6 j n' Hj Hn)].
    rewrite Hb in *. change (notification_by_index k j = Some n') in Hn.
    assert (j = i) as -> by congruence. congruence.
  - intros t. rewrite task_at_upd_task. case_bool_decide; [|apply I7]. by rewrite Hip.
Qed.

Lemma give_up_calm k c : calm k (give_up_block k c).
Proof. unfold give_up_block. etrans; [eapply upd_ipc_calm|apply wake_calm]; done. Qed.
Lemma blocked_on_upd_ipc k c f t : (task_at (upd_ipc k c f) t).(t_blocked_on) = (task_at k t).(t_blocked_on).
Proof. unfold upd_ipc. rewrite task_at_upd_task. case_bool_decide as H; [|done]. by destruct H as [-> _]. Qed.
Lemma blocked_on_notif_upd_ipc k c f t : (task_at (upd_ipc k c f) t).(t_blocked_on_notif) = (task_at k t).(t_blocked_on_notif).
Proof. unfold upd_ipc. rewrite task_at_upd_task. case_bool_decide as H; [|done]. by destruct H as [-> _]. Qed.

Lemma frame_upd_ipc k c f t :
  (forall ip, (f ip).(ip_frame) = ip.(ip_frame)) -> (task_at (upd_ipc k c f) t).(t_ipc).(ip_frame) = (task_at k t).(t_ipc).(ip_frame).
Proof. intros Hf. unfold upd_ipc. rewrite task_at_upd_task. case_bool_decide as H; [|done]. destruct H as [-> _]. apply Hf. Qed.

Lemma publish_ipc_inv k c :
  ipc_inv k -> (task_at k c).(t_ipc).(ip_frame) <> None -> ipc_inv (publish_ipc k c).2.
Proof.
  intros HI HF. unfold publish_ipc. set (rep := (task_at k c).(t_blocked_on)).
  destruct (endpoint_or_none k rep) as [e|] eqn:E; [|eapply ipc_inv_calm; [apply give_up_calm|done]].
  unfold endpoint_or_none in E. case_match; [done|]. cbv zeta. set (k1 := upd_ipc k c _).
  assert (ipc_inv k1) as I1 by (eapply ipc_inv_calm; [by apply upd_ipc_calm|done]).
  assert (endpoint_by_index k1 (u32 rep) = Some e) as E1 by exact E.
  assert ((task_at k1 c).(t_blocked_on) = rep) as HB by apply blocked_on_upd_ipc.
  assert ((task_at k1 c).(t_ipc).(ip_frame) <> None) as HF1 by by unfold k1; rewrite frame_upd_ipc. clearbody k1.
  pose proof (ii_ep_wf _ I1 _ _ (u32_nonneg _) E1) as Hw. destruct (ep_empty e) eqn:EE; cbn [negb].
  - cbn [snd]. set (k2 := put_endpoint k1 _ _).
    assert (ipc_inv k2) as I2 by (apply ipc_inv_put_ep; [apply u32_nonneg|done|by destruct Hw|done]).
    eapply (sleep_on_ep_inv k2 c (u32 rep) (ep_set_waiter e c)); try done; [apply u32_nonneg| | |].
    + unfold k2. rewrite endpoint_put; [|apply u32_nonneg..|apply I1]. by rewrite decide_True, E1.
    + unfold k2. by rewrite task_at_put_endpoint.
    + unfold k2. by rewrite task_at_put_endpoint, HB.
  - set (mx := if negb _ then _ else _). clearbody mx. pose proof (ep_dequeue_wf e mx Hw EE) as Hw'.
    assert (asleep_on_ep k1 (ep_blocked_waiter (ep_dequeue e mx).2) (u32 rep) -> ep_empty (ep_dequeue e mx).2 = true) as Ha.
    { intros Hs. by rewrite (ii_ep_awake _ I1 _ _ (u32_nonneg _) E1 Hs) in EE. }
    destruct (ep_dequeue e mx) as [d e']. cbn [snd] in *.
    set (k2 := put_endpoint k1 _ _).
    assert (ipc_inv k2) as I2 by (apply ipc_inv_put_ep; [apply u32_nonneg|done|by destruct Hw'|done]). clearbody k2.
    set (k3 := set_frame_rax k2 c _). assert (ipc_inv k3) as I3 by by apply (ipc_inv_calm k2); [apply set_frame_calm|].
    clearbody k3. eapply ipc_inv_calm; [by apply upd_ipc_calm|]. eapply ipc_inv_calm; [apply wake_unblock_calm|].
    case_match; [|exact I3]. eapply ipc_inv_calm; [apply cap_install_reply_calm|exact I3].
Qed.

Lemma publish_notif_inv k c :
  ipc_inv k -> (task_at k c).(t_ipc).(ip_frame) <> None -> ipc_inv (publish_notif k c).2.
Proof.
  intros HI HF. unfold publish_notif. set (s := (task_at k c).(t_blocked_on_notif)).
  destruct (notification_or_none k s) as [n|] eqn:E; [|eapply ipc_inv_calm; [apply give_up_calm|done]].
  unfold notification_or_none in E. case_match; [done|]. cbv zeta. set (k1 := upd_ipc k c _).
  assert (ipc_inv k1) as I1 by (eapply ipc_inv_calm; [by apply upd_ipc_calm|done]).
  assert (notification_by_index k1 (u32 s) = Some n) as E1 by exact E.
  assert ((task_at k1 c).(t_blocked_on_notif) = s) as HB by apply blocked_on_notif_upd_ipc.
  assert ((task_at k1 c).(t_ipc).(ip_frame) <> None) as HF1 by by unfold k1; rewrite frame_upd_ipc. clearbody k1.
  destruct (Z.eqb_spec n.(nt_pending_badge) 0) as [Hz|Hz]; cbn [negb].
  - cbn [snd]. set (k2 := put_notification k1 _ _).
    assert (ipc_inv k2) as I2 by (apply ipc_inv_put_nt; [apply u32_nonneg|done|by rewrite Hz|done]).
    eapply (sleep_on_notif_inv k2 c (u32 s) (mk_notif n.(nt_pending_badge) c)); try done; [apply u32_nonneg| | |].
    + unfold k2. rewrite notification_put; [|apply u32_nonneg..|apply I1]. by rewrite decide_True, E1.
    + unfold k2. by rewrite task_at_put_notification.
    + unfold k2. by rewrite task_at_put_notification, HB.
  - cbn [snd]. eapply ipc_inv_calm; [apply wake_calm|]. eapply ipc_inv_calm; [calm_field|].
    apply take_badge_inv; [done|apply u32_nonneg|done].
Qed.

(** Who goes to sleep on an object is its registered waiter, and found nothing there. *)
Lemma publish_ipc_registers k c :
  ipc_inv k -> (publish_ipc k c).1.1 = true ->
  exists e, endpoint_by_index (publish_ipc k c).2 (u32 (task_at k c).(t_blocked_on)) = Some e /\ e.(ep_blocked_waiter) = c /\ ep_empty e = true.
Proof.
  intros HI. unfold publish_ipc. set (rep := (task_at k c).(t_blocked_on)). destruct (endpoint_or_none k rep) as [e|] eqn:E; [|done].
  unfold endpoint_or_none in E. case_match; [done|]. cbv zeta. destruct (ep_empty e) eqn:EE; cbn [negb]; [|by destruct (ep_dequeue _ _)].
  intros _. exists (ep_set_waiter e c). split; [|done]. cbn [snd]. set (k1 := upd_ipc k c _).
  change (endpoint_by_index (put_endpoint k1 (u32 rep) (ep_set_waiter e c)) (u32 rep) = Some (ep_set_waiter e c)).
  rewrite endpoint_put; [|apply u32_nonneg..|apply HI]. rewrite decide_True by done. change (endpoint_by_index k1 (u32 rep)) with (endpoint_by_index k (u32 rep)). by rewrite E.
Qed.
Lemma publish_notif_registers k c :
  ipc_inv k -> (publish_notif k c).1 = true ->
  exists n, notification_by_index (publish_notif k c).2 (u32 (task_at k c).(t_blocked_on_notif)) = Some n /\ n.(nt_blocked_waiter) = c /\ n.(nt_pending_badge) = 0.
Proof.
  intros HI. unfold publish_notif. set (s := (task_at k c).(t_blocked_on_notif)). destruct (notification_or_none k s) as [n|] eqn:E; [|done].
  unfold notification_or_none in E. case_match; [done|]. cbv zeta. destruct (Z.eqb_spec n.(nt_pending_badge) 0) as [Hz|]; cbn [negb]; [|done].
  intros _. exists (mk_notif n.(nt_pending_badge) c). split; [|done]. cbn [snd]. set (k1 := upd_ipc k c _).
  change (notification_by_index (put_notification k1 (u32 s) (mk_notif n.(nt_pending_badge) c)) (u32 s) = Some (mk_notif n.(nt_pending_badge) c)).
  rewrite notification_put; [|apply u32_nonneg..|apply HI]. rewrite decide_True by done. change (notification_by_index k1 (u32 s)) with (notification_by_index k (u32 s)). by rewrite E.
Qed.

Lemma publish_wait_calm k c : calm k (publish_wait k c).2.
Proof.
  unfold publish_wait. cbv zeta. case_match; cbn [snd].
  - etrans; [eapply upd_ipc_calm|etrans; [apply set_frame_calm|apply wake_unblock_calm]]; done.
  - etrans; [eapply upd_ipc_calm|etrans; [|calm_wakes]; calm_field]; done.
Qed.
Lemma publish_inv k c : ipc_inv k -> ipc_inv (ipc_publish_pending_block k c).2.
Proof.
  intros HI. unfold ipc_publish_pending_block. do 2 (case_match; [exact HI|]).
  destruct (ip_frame _) as [fr|] eqn:EF; [|eapply ipc_inv_calm; [apply give_up_calm|done]].
  assert ((task_at k c).(t_ipc).(ip_frame) <> None) as HF by by rewrite EF. case_match; [by apply publish_ipc_inv|].
  case_match; [pose proof (publish_wait_calm k c) as HC; destruct (publish_wait k c); cbn [snd] in *; by eapply ipc_inv_calm|].
  case_match; [pose proof (publish_notif_inv k c HI HF) as HN; by destruct (publish_notif k c)|].
  cbn [snd]. eapply ipc_inv_calm; [apply wake_calm|]. eapply ipc_inv_calm; [by apply upd_ipc_calm|done].
Qed.
Lemma syscall_exit_inv k rax rbx : ipc_inv k -> ipc_inv (syscall_exit k rax rbx).2.
Proof.
  intros HI. unfold syscall_exit. case_match; [|exact HI]. unfold ipc_block_switch. cbv zeta.
  destruct (_ || _); [exact HI|]. set (k1 := upd_task k k.(cur) _).
  assert (ipc_inv k1) as I1 by (apply (ipc_inv_calm k); [unfold k1; calm_field|done]). clearbody k1.
  pose proof (publish_inv k1 k.(cur) I1) as HP.
  destruct (negb _); [by destruct (ipc_publish_pending_block k1 k.(cur)) as [[??]?]|].
  eapply ipc_inv_calm; [|exact I1]. calm_field.
Qed.

Lemma ipc_run_inv o k :
  ipc_inv k -> caller_runs k = true \/ (exists a b, o = ISyscallExit a b) -> ipc_inv (ipc_run o k).
Proof.
  intros HI Hc. destruct o; try (destruct Hc as [Hc|(?&?&[=])]; apply caller_awake in Hc); cbn [ipc_run].
  - unfold h_ipc_send. destruct (ipc_ep_and_invoker _ _ _) as [[[ep inv] ser]|] eqn:E; [|done].
    assert (0 <= ep) as H0 by (unfold ipc_ep_and_invoker in E; repeat case_match; simplify_eq; apply u32_nonneg).
    pose proof (sys_ipc_send_inv k HI ep u (u64 rdx) (Some inv) H0 (u64_nonneg _)) as HS.
    by destruct (sys_ipc_send _ _ _ _ _) as [[??]?].
  - apply call_inv; [done..|apply u64_nonneg].
  - apply call_inv; [done..|apply u64_nonneg].
  - unfold h_ipc_recv. destruct (ipc_ep_from_slot _ _ _) as [ep|] eqn:E; [|done].
    pose proof (sys_ipc_recv_inv k HI ep u (u64 rcx) rdx (ep_from_slot_nonneg _ _ _ _ E)) as HS.
    by destruct (sys_ipc_recv _ _ _ _ _) as [[??]?].
  - unfold h_ipc_recv_block. destruct (ipc_ep_from_slot _ _ _) as [ep|] eqn:E; [|done]. case_match; [done|].
    destruct (recv_block_loop _ _ _ _ _ _ _) as [r|] eqn:ER; [|done].
    by eapply (recv_block_inv k HI Hc); [eapply ep_from_slot_nonneg|].
  - unfold h_ipc_reply, sys_ipc_reply. destruct (ipc_ep_from_slot _ _ _) as [ep|] eqn:E; [|done].
    pose proof (sys_ipc_send_inv k HI ep u (u64 rdx) None (ep_from_slot_nonneg _ _ _ _ E) (u64_nonneg _)) as HS.
    by destruct (sys_ipc_send _ _ _ _ _) as [[??]?].
  - by apply reply_common_inv.
  - by apply reply_common_inv.
  - unfold h_notify. destruct (ipc_notif_from_slot _ _ _) as [i|] eqn:E; [|done].
    pose proof (notify_inv k HI i rcx (notif_from_slot_nonneg _ _ _ _ E)) as HS. by destruct (sys_notify _ _ _).
  - unfold h_wait_notify, sys_wait_notify. destruct (ipc_notif_from_slot _ _ _) as [i|] eqn:E; [|done].
    destruct (notification_by_index k i) as [n|] eqn:En; [|done].
    destruct (negb _); cbn [fst snd]; [apply take_badge_inv; [done|by eapply notif_from_slot_nonneg|done]|].
    eapply ipc_inv_calm; [|exact HI]. apply calm_upd_task, calm_awake; cbn; by rewrite Hc.
  - unfold h_poll_notify, sys_poll_notify. destruct (ipc_notif_from_slot _ _ _) as [i|] eqn:E; [|done].
    destruct (notification_by_index k i) as [n|] eqn:En; [|done].
    destruct (negb _); cbn [fst snd]; [apply take_badge_inv; [done|by eapply notif_from_slot_nonneg|done]|done].
  - by apply syscall_exit_inv.
Qed.

Lemma krun_ipc_inv o k : ipc_inv k -> ipc_inv (krun o k).
Proof.
  intros HI. unfold krun. destruct (op_enabled o k) eqn:E; [|done].
  destruct o; try (eapply ipc_inv_calm; [by apply kdo_calm|done]). apply ipc_run_inv; [done|].
  destruct o; try (by left). right. eauto.
Qed.

(** ** Reachable states *)
Lemma lookup_replicate_zget {A} (x d : A) n i : zget d (replicate n x) i = x \/ zget d (replicate n x) i = d.
Proof.
  unfold zget. case_match; [by right|]. destruct (_ !! _) eqn:E; [left|by right].
  by apply lookup_replicate in E as [-> _].
Qed.
Lemma boot_task arena n p nic t : (task_at (cap_init (boot_state arena n p) nic) t).(t_state) = TASK_DEAD.
Proof.
  change (task_at _ t) with (zget task_zero (replicate (Z.to_nat n) task_boot) t).
  by destruct (lookup_replicate_zget task_boot task_zero (Z.to_nat n) t) as [-> | ->].
Qed.
Lemma fresh_endpoint k n m i e :
  k.(endpoints) = replicate n ep_fresh -> k.(dyn_eps) = replicate m kslot_zero -> endpoint_by_index k i = Some e -> e = ep_fresh.
Proof.
  intros H1 H2. unfold endpoint_by_index, kslot_at. rewrite H1, H2. case_match.
  - intros [= <-]. by destruct (lookup_replicate_zget ep_fresh ep_fresh n i) as [-> | ->].
  - case_match; [done|]. by destruct (lookup_replicate_zget (@kslot_zero endpoint) kslot_zero m (i - DYN_EP_BASE)) as [-> | ->].
Qed.
Lemma fresh_notification k n m i x :
  k.(notifications) = replicate n notif_fresh -> k.(dyn_notifs) = replicate m kslot_zero ->
  notification_by_index k i = Some x -> x = notif_fresh.
Proof.
  intros H1 H2. unfold notification_by_index, kslot_at. rewrite H1, H2. case_match.
  - intros [= <-]. by destruct (lookup_replicate_zget notif_fresh notif_fresh n i) as [-> | ->].
  - case_match; [done|].
    by destruct (lookup_replicate_zget (@kslot_zero notification) kslot_zero m (i - DYN_NOTIF_BASE)) as [-> | ->].
Qed.
Lemma boot_ipc_inv arena n p nic : ipc_inv (boot_kernel arena n p nic).
Proof.
  assert (ipc_inv (cap_init (boot_state arena n p) nic)) as H0.
  { set (k0 := cap_init _ _).
    assert (forall i e, endpoint_by_index k0 i = Some e -> e = ep_fresh) as HE.
    { intros i e. by apply (fresh_endpoint k0 (Z.to_nat MAX_ENDPOINTS) (Z.to_nat MAX_DYN_ENDPOINTS)). }
    assert (forall i x, notification_by_index k0 i = Some x -> x = notif_fresh) as HN.
    { intros i x. by apply (fresh_notification k0 (Z.to_nat MAX_NOTIFICATIONS) (Z.to_nat MAX_DYN_NOTIFICATIONS)). }
    constructor.
    - reflexivity.
    - reflexivity.
    - intros i e _ ->%HE. apply ep_fresh_wf.
    - by intros i e _ ->%HN.
    - by intros i e _ ->%HE _.
    - by intros i e _ ->%HN _.
    - intros t [H|H]; by rewrite (boot_task arena n p nic) in H. }
  unfold boot_kernel. destruct (create_task _ _ _ _ _ _ _ _) as [k1|] eqn:E; [|exact H0].
  cbn [default]. eapply ipc_inv_calm; [by eapply calm_create|exact H0].
Qed.
Lemma reachable_ipc_inv k : reachable k -> ipc_inv k.
Proof.
  intros (a & n & p & nic & ops & ->). generalize (boot_ipc_inv a n p nic). generalize (boot_kernel a n p nic).
  unfold kexec. induction ops as [|o ops IH]; intros k Hk; [done|]. simpl. by apply IH, krun_ipc_inv.
Qed.

(** ** A small exchange

    Tasks 1 and 2 both hold the file service's endpoint in slot 10 and the
    notification of slot 1; task 1 serves and task 2 calls. *)
Definition pair_ops : list kop :=
  [OSpawn (fun _ => false) demo_image 0 0 UNTYPED_KERNEL; OSpawn (fun _ => false) demo_image 0 0 UNTYPED_KERNEL;
   OInstallRoot 1 10 13 FS_EP_REQ; OInstallRoot 2 10 13 FS_EP_REQ;
   OInstallRoot 1 11 1 0; OInstallRoot 2 11 1 0; OSwitch 1].
Definition pair : kstate := kexec pair_ops demo_boot.
Definition user_mem : uenv := mk_uenv (fun i => (7 * i + 1) mod 256) true true.
(** The server waits for a request of up to 64 bytes at 0x500000. *)
Definition server_waits : list kop := [OIpc (IRecvBlock 10 0x500000 64 user_mem); OIpc (ISyscallExit 0 0)].
Definition waiting : kstate := kexec server_waits pair.
Lemma pair_reachable : reachable pair.
Proof. by exists (PHYS_KVA_BASE + USER_PHYS_BASE), 4, 16, None, pair_ops. Qed.
Lemma waiting_reachable : reachable waiting.
Proof. apply reachable_run, pair_reachable. Qed.

(** C8: no wakeup of a registered waiter is lost.  In every state the kernel reaches, an
    endpoint whose registered waiter is asleep on it has no message queued, and a
    notification whose registered waiter is asleep on it has no badge pending.  A task
    whose block is published goes to sleep only as the registered waiter of an object
    with nothing in it.  An endpoint has one such field: a second sleeper takes it over,
    and what is said here of the first ends there, see [displaced_sleeper_is_left]. *)
Theorem no_lost_wakeup k :
  reachable k ->
  (forall i e, 0 <= i -> endpoint_by_index k i = Some e ->
     asleep_on_ep k e.(ep_blocked_waiter) i -> ep_abs e = [])
  /\ (forall i n, 0 <= i -> notification_by_index k i = Some n ->
     asleep_on_notif k n.(nt_blocked_waiter) i -> n.(nt_pending_badge) = 0)
  /\ (forall c, (publish_ipc k c).1.1 = true ->
     exists e, endpoint_by_index (publish_ipc k c).2 (u32 (task_at k c).(t_blocked_on)) = Some e /\ e.(ep_blocked_waiter) = c /\ ep_empty e = true)
  /\ (forall c, (publish_notif k c).1 = true ->
     exists n, notification_by_index (publish_notif k c).2 (u32 (task_at k c).(t_blocked_on_notif)) = Some n
       /\ n.(nt_blocked_waiter) = c /\ n.(nt_pending_badge) = 0).
Proof.
  intros Hk%reachable_ipc_inv. split; [|split; [apply Hk|split; intros c; [by apply publish_ipc_registers|by apply publish_notif_registers]]].
  intros i e Hi He Hs. apply ep_empty_abs; [by eapply ii_ep_wf|]. by eapply ii_ep_awake.
Qed.
Lemma no_lost_wakeup_witness :
  asleep_on_ep waiting 1 FS_EP_REQ /\ ep_abs (default ep_fresh (endpoint_by_index waiting FS_EP_REQ)) = [].
Proof.
  assert (asleep_on_ep waiting 1 FS_EP_REQ) as Hs
    by (refine (conj _ (conj _ (conj _ _))); vm_compute; first [reflexivity|discriminate]).
  split; [exact Hs|].
  refine (proj1 (no_lost_wakeup waiting waiting_reachable) FS_EP_REQ
    (default ep_fresh (endpoint_by_index waiting FS_EP_REQ)) _ _ _).
  - vm_compute. discriminate.
  - vm_compute. reflexivity.
  - assert (ep_blocked_waiter (default ep_fresh (endpoint_by_index waiting FS_EP_REQ)) = 1) as -> by (vm_compute; reflexivity).
    exact Hs.
Defined.

(** C35: in every state the kernel reaches, every endpoint is a well-formed queue
    of at most four messages, each with its length within the 256-byte slot and
    every slot outside the queue wiped; every pending badge is a 32-bit word. *)
Theorem ipc_objects_wf k :
  reachable k ->
  (forall i e, 0 <= i -> endpoint_by_index k i = Some e -> ep_wf e)
  /\ (forall i n, 0 <= i -> notification_by_index k i = Some n -> 0 <= n.(nt_pending_badge) <= U32_MAX).
Proof. intros Hk%reachable_ipc_inv. split; apply Hk. Qed.
Definition one_sent : kstate := kexec [OIpc (ISend 10 5 user_mem)] pair.
Lemma ipc_objects_wf_witness :
  ep_count (default ep_fresh (endpoint_by_index one_sent FS_EP_REQ)) = 1
  /\ ep_wf (default ep_fresh (endpoint_by_index one_sent FS_EP_REQ)).
Proof.
  split; [vm_compute; reflexivity|].
  refine (proj1 (ipc_objects_wf one_sent (reachable_run _ _ pair_reachable)) FS_EP_REQ _ _ _).
  - vm_compute. discriminate.
  - vm_compute. reflexivity.
Defined.

(** In every state the kernel reaches, a task asleep on an endpoint or a
    notification has a saved register frame, so that the sender or notifier that
    wakes it has a frame to write the result into. *)
Theorem sleepers_have_frames k t :
  reachable k -> asleep (task_at k t) -> exists rax rbx, (task_at k t).(t_ipc).(ip_frame) = Some (rax, rbx).
Proof.
  intros Hk%reachable_ipc_inv Hs. pose proof (ii_frame _ Hk t Hs) as Hf.
  destruct (ip_frame _) as [[a b]|]; [by exists a, b|done].
Qed.
Lemma sleepers_have_frames_witness :
  asleep (task_at waiting 1) /\ exists rax rbx, (task_at waiting 1).(t_ipc).(ip_frame) = Some (rax, rbx).
Proof.
  assert (asleep (task_at waiting 1)) as Hs by (left; vm_compute; reflexivity).
  split; [exact Hs|]. exact (sleepers_have_frames waiting 1 waiting_reachable Hs).
Defined.
