(* ===== verification/Lifetime.v ===== *)
(** The death of a task: what teardown empties, what it keeps of the
    derivation forest, who may cause it, and why a name of a dead task never
    names the next one in its slot. *)
From S2P Require Import Prelude KTypes CapCore CapRevoke CapReparent Pipe SchedCtx KState Untyped CSpace PipeSys Retype TaskLife CapSys CapInv CapOps Kernel Security.

(** The slots [0, sz) of a cspace of the given size, and of a task. *)
Definition release_size (k : kstate) (id : Z) : Z :=
  let sz := task_size (task_at k id) in if CNODE_SIZE <? sz then CNODE_SIZE else sz.

(** The slots a dying task's children may be in: every other live cspace and
    the root cnode. *)
Definition survivors (k : kstate) (id : Z) (cs : cref) : list loc := surviving_slots cs (reparent_spaces k id).

(** ** Releasing a cspace *)
Lemma cap_at_clear m cs sz l :
  cap_at (clear_slots m cs sz) l = if decide (l.1 = cs /\ 0 <= l.2 < sz) then null_cap else cap_at m l.
Proof.
  unfold clear_slots. enough (forall L, cap_at (foldl (fun m s => nullify m (cs, s)) m L) l
    = if decide (l.1 = cs /\ l.2 ∈ L) then null_cap else cap_at m l) as G.
  { rewrite G. apply decide_ext. rewrite elem_of_seqZ. intuition lia. }
  intros L. revert m. induction L as [|i L IH]; intros m; simpl.
  - rewrite decide_False; [done|]. by intros [_ ?%not_elem_of_nil].
  - rewrite IH, cap_at_nullify. destruct l as [c s]; cbn [fst snd].
    repeat case_decide; rewrite elem_of_cons in *; naive_solver.
Qed.

Lemma descendant_ext m m' V ts l :
  (forall x, x ∈ V -> cap_at m' x = cap_at m x) -> descendant m V ts l -> descendant m' V ts l.
Proof.
  intros He. induction 1 as [l Hl Hd Hb|l p Hp IH Hl Hd Hb]; [apply desc_child|eapply desc_step; [exact IH|..]];
    rewrite ?He; try done. by apply descendant_live in Hp as [? _].
Qed.

Lemma release_size_le k id : release_size k id <= CNODE_SIZE.
Proof. unfold release_size. case_match; boolc; lia. Qed.

Lemma release_mem k id collect cs :
  0 < id < g_max_tasks k -> (task_at k id).(t_cspace) = Some cs ->
  (release_cspace k id collect).(mem)
  = clear_slots (rust_cap_reparent_dying k.(mem) cs (release_size k id) (reparent_spaces k id) SCRATCH_LEN).1
                cs (release_size k id).
Proof.
  intros Hid Hcs. unfold release_cspace. cbv zeta.
  assert ((0 <? id) && (id <? g_max_tasks k) = true) as -> by (apply andb_true_iff; rewrite !Z.ltb_lt; lia).
  rewrite Hcs.
  destruct collect; [|done].
  match goal with |- context [kobj_gc_locked ?x] => destruct (kobj_gc_locked_same_caps x) as [-> _ _ _ _ _ _] end.
  done.
Qed.

Lemma minv_death_ok k cs sz V :
  minv (ms k) ->
  (forall l, l ∈ dying_slots cs sz -> live (cap_at k.(mem) l) -> MIN_DERIVED_SERIAL < (cap_at k.(mem) l).(serial)) ->
  death_ok k.(mem) cs sz V.
Proof.
  intros [S U B _ _] Hd. constructor.
  - intros l l' Hl _ HL _ He. apply (U l l'); [by apply Hd|done].
  - intros l Hl HL. specialize (Hd l Hl HL). destruct (B l) as [B1 B2]. cbn [fst ms] in *.
    unfold pair_ok, MIN_DERIVED_SERIAL in *. simpl. lia.
Qed.

(** C16: when a task's cspace is released, every slot of it is emptied, and the
    capabilities derived through it keep their ancestors: for every serial that
    does not die, a slot elsewhere hangs below it afterwards exactly if it did
    before, through the dying slots if need be.  A grandparent can still revoke
    what a dead child handed on. *)
Theorem release_keeps_ancestry k id collect cs :
  reachable k -> 0 < id < g_max_tasks k -> (task_at k id).(t_cspace) = Some cs ->
  (forall l, l ∈ dying_slots cs (release_size k id) -> live (cap_at k.(mem) l) ->
     MIN_DERIVED_SERIAL < (cap_at k.(mem) l).(serial)) ->
  let k' := release_cspace k id collect in
  (forall s, 0 <= s < release_size k id -> cap_at k'.(mem) (cs, s) = null_cap)
  /\ forall ts l, ts <> 0 ->
     (forall p, p ∈ dying_slots cs (release_size k id) -> live (cap_at k.(mem) p) ->
        (cap_at k.(mem) p).(serial) <> ts) ->
     l ∈ survivors k id cs ->
     descendant k'.(mem) (survivors k id cs) ts l
     <-> descendant k.(mem) (survivors k id cs ++ dying_slots cs (release_size k id)) ts l.
Proof.
  intros Hk Hid Hcs Hd k'. unfold k'. rewrite (release_mem k id collect cs Hid Hcs). split.
  - intros s Hs. by rewrite cap_at_clear, decide_True.
  - intros ts l Hts Hp Hl. rewrite <- (reparent_ancestry k.(mem) cs (release_size k id)
      (reparent_spaces k id) SCRATCH_LEN ts l);
      [|done|by apply minv_death_ok; [apply reachable_minv|]|done|done|done].
    assert (forall x, x ∈ survivors k id cs -> x.1 <> cs) as HV by apply surviving_not_dying.
    fold (survivors k id cs).
    split; apply descendant_ext; intros x Hx; rewrite cap_at_clear, decide_False; try done;
      intros [? _]; by apply (HV x).
Qed.

Lemma release_keeps_ancestry_witness :
  cap_at (release_cspace demo 1 true).(mem) (demo_cs, 10) = null_cap.
Proof.
  refine (proj1 (release_keeps_ancestry demo 1 true demo_cs demo_reachable _ _ _) 10 _).
  - split; [lia|vm_compute; reflexivity].
  - vm_compute. reflexivity.
  - apply (proj1 (Forall_forall (fun l => live (cap_at demo.(mem) l) ->
      MIN_DERIVED_SERIAL < (cap_at demo.(mem) l).(serial)) _)). by_vm.
  - split; [lia|vm_compute; reflexivity].
Defined.

(** ** Teardown *)
Lemma consume_of_tasks k pid s : (cap_consume_slot_of k pid s).2.(tasks) = k.(tasks).
Proof. unfold cap_consume_slot_of. by repeat case_match. Qed.
Lemma close_pass_tasks k id sz k' : close_pass k id sz = Some k' -> k'.(tasks) = k.(tasks).
Proof.
  unfold close_pass. destruct (t_cspace _); [|done]. destruct (find_index _ _ _) as [s|]; [|done].
  pose proof (consume_of_tasks k id s) as H. destruct (cap_consume_slot_of k id s) as [[ok prev] k1].
  cbn [snd] in H. by repeat case_match; intros [= <-].
Qed.
Lemma close_ends_tasks k id : (pipe_close_task_ends k id).(tasks) = k.(tasks).
Proof.
  unfold pipe_close_task_ends. destruct (_ || _); [done|]. destruct (t_cspace _); [|done].
  generalize (task_size (task_at k id)) at 2. generalize (Z.to_nat (task_size (task_at k id))). intros n sz.
  revert k. induction n as [|n IH]; intros k; simpl; [done|].
  destruct (close_pass k id sz) as [k1|] eqn:E; [|done]. rewrite IH. by eapply close_pass_tasks.
Qed.

(** What the steps of a teardown leave of every task: its cspace and the
    generation of its slot. *)
Definition same_home (k k' : kstate) : Prop :=
  g_max_tasks k' = g_max_tasks k
  /\ forall t, (task_at k' t).(t_cspace) = (task_at k t).(t_cspace)
     /\ (task_at k' t).(t_cspace_size) = (task_at k t).(t_cspace_size)
     /\ (task_at k' t).(t_slot_gen) = (task_at k t).(t_slot_gen).
#[global] Instance same_home_preorder : PreOrder same_home.
Proof.
  split; [done|]. intros a b c [H1 H2] [H3 H4]. split; [congruence|]. intros t.
  destruct (H2 t) as (? & ? & ?), (H4 t) as (? & ? & ?). split_and!; congruence.
Qed.
Lemma task_at_upd k t f t' :
  task_at (upd_task k t f) t'
  = if bool_decide (t = t' /\ 0 <= t < g_max_tasks k) then f (task_at k t) else task_at k t'.
Proof. apply zget_zset. Qed.
Lemma same_home_upd k t f :
  (forall x, (f x).(t_cspace) = x.(t_cspace) /\ (f x).(t_cspace_size) = x.(t_cspace_size)
             /\ (f x).(t_slot_gen) = x.(t_slot_gen)) ->
  same_home k (upd_task k t f).
Proof.
  intros Hf. split; [apply zlen_zset|]. intros t'. rewrite task_at_upd.
  case_bool_decide as H; [|done]. destruct H as [<- _]. apply Hf.
Qed.
Lemma same_home_tasks k k' : k'.(tasks) = k.(tasks) -> same_home k k'.
Proof. intros H. unfold same_home, g_max_tasks, task_at. by rewrite H. Qed.

(** The state of a torn-down task. *)
Record torn_down (k k' : kstate) (id : Z) : Prop := {
  td_dead : (task_at k' id).(t_state) = TASK_DEAD;
  td_empty : forall cs s, (task_at k id).(t_cspace) = Some cs -> 0 <= s < release_size k id ->
             cap_at k'.(mem) (cs, s) = null_cap;
  td_uncounted : ciu_at k' id = 0;
  td_home : same_home k k'
}.

Lemma same_caps_home k k' : same_caps k k' -> same_home k k'.
Proof.
  intros [_ _ _ _ _ _ HT]. split; [unfold g_max_tasks, zlen; by rewrite (Forall2_length _ _ _ HT)|].
  intros t. unfold task_at. destruct (decide (0 <= t)) as [Ht|Ht]; [|by rewrite !zget_out by (left; lia)].
  rewrite !zget_lookup by done. destruct (k.(tasks) !! Z.to_nat t) as [a|] eqn:Ea.
  - destruct (Forall2_lookup_l _ _ _ _ _ HT Ea) as (b & -> & ? & ? & ? & _). done.
  - apply lookup_ge_None in Ea. rewrite (Forall2_length _ _ _ HT) in Ea. by apply lookup_ge_None in Ea as ->.
Qed.

Lemma same_caps_dead k k' t :
  same_caps k k' -> 0 <= t < g_max_tasks k ->
  (task_at k t).(t_state) = TASK_DEAD -> (task_at k' t).(t_state) = TASK_DEAD.
Proof.
  intros [_ _ _ _ _ _ HT] Ht. unfold task_at, g_max_tasks, zlen in *. rewrite !zget_lookup by lia.
  destruct (lookup_lt_is_Some_2 k.(tasks) (Z.to_nat t)) as [a Ea]; [lia|].
  destruct (Forall2_lookup_l _ _ _ _ _ HT Ea) as (b & Eb & _ & _ & _ & Hab). rewrite Ea, Eb. simpl. by apply Hab.
Qed.

(** Everything in a teardown before the release of the cspace. *)
Lemma teardown_body_release k id cause :
  0 < id < g_max_tasks k -> (task_at k id).(t_state) <> TASK_DEAD ->
  exists k4, (task_teardown_body k id cause).2 = release_cspace k4 id true
  /\ same_home k k4 /\ (task_at k4 id).(t_state) = TASK_DEAD.
Proof.
  intros Hid Hal. unfold task_teardown_body, cap_release_cspace_and_collect.
  rewrite (proj2 (Z.eqb_neq _ _) Hal). cbv zeta.
  set (k1 := upd_task k id _). set (k2 := pipe_close_task_ends k1 id).
  set (k3 := if _ && _ then _ else k2). cbn [snd]. eexists. split; [reflexivity|].
  assert (same_home k k3) as H3.
  { trans k1; [by apply same_home_upd|]. trans k2; [exact (same_home_tasks _ _ (close_ends_tasks k1 id))|].
    unfold k3. case_match; [by apply same_home_upd|done]. }
  split.
  - etrans; [exact H3|]. etrans; [|by apply same_home_upd]. by apply same_home_upd.
  - rewrite task_at_upd, bool_decide_true; [done|]. split; [done|].
    destruct (same_home_upd k3 id (fun t => t_set_sig t (mk_sig 0 0 t.(t_sig).(sg_pending)
      t.(t_sig).(sg_mask) 0 0 0 t.(t_sig).(sg_frame)))) as [E _]; [done|]. rewrite E. destruct H3 as [-> _]. lia.
Qed.

(** The release without the collection that may follow it. *)
Lemma release_collect k id : release_cspace k id true = kobj_gc_locked (release_cspace k id false).
Proof. reflexivity. Qed.
Lemma release_frame k id :
  0 < id < g_max_tasks k ->
  (release_cspace k id false).(tasks) = k.(tasks)
  /\ (release_cspace k id false).(caps_in_use) = zset k.(caps_in_use) id 0.
Proof.
  intros Hid. unfold release_cspace. cbv zeta.
  assert ((0 <? id) && (id <? g_max_tasks k) = true) as -> by (apply andb_true_iff; rewrite !Z.ltb_lt; lia).
  destruct (t_cspace _); split; reflexivity.
Qed.

Lemma release_torn_down k k4 id :
  0 < id < g_max_tasks k -> same_home k k4 -> (task_at k4 id).(t_state) = TASK_DEAD ->
  torn_down k (release_cspace k4 id true) id.
Proof.
  intros Hid [HM HH] Hd. destruct (HH id) as (E1 & E2 & E3).
  assert (release_size k4 id = release_size k id) as ES by (unfold release_size, task_size; by rewrite E2).
  assert (0 < id < g_max_tasks k4) as Hid4 by lia.
  assert (forall cs s, (task_at k id).(t_cspace) = Some cs -> 0 <= s < release_size k id ->
    cap_at (release_cspace k4 id true).(mem) (cs, s) = null_cap) as HE.
  { intros cs s Hcs Hs. rewrite <- E1 in Hcs. rewrite (release_mem k4 id true cs Hid4 Hcs).
    rewrite cap_at_clear, decide_True; [reflexivity|]. rewrite ES. split; [reflexivity|exact Hs]. }
  destruct (release_frame k4 id Hid4) as [FT FC]. rewrite release_collect in *.
  set (kr := release_cspace k4 id false) in *. clearbody kr.
  pose proof (kobj_gc_locked_same_caps kr) as HG. set (k' := kobj_gc_locked kr) in *. clearbody k'.
  constructor.
  - apply (same_caps_dead kr k' id HG); [unfold g_max_tasks in *; rewrite FT; lia|].
    unfold task_at in *. by rewrite FT.
  - exact HE.
  - unfold ciu_at. rewrite (sc_ciu _ _ HG), FC, zget_zset. case_bool_decide as Hb; [done|]. apply zget_out. lia.
  - trans k4; [by split|]. trans kr; [by apply same_home_tasks|by apply same_caps_home].
Qed.

Lemma torn_down_wake k k' id w f :
  torn_down k k' id -> (task_at k' w).(t_state) <> TASK_DEAD ->
  (forall x, (f x).(t_cspace) = x.(t_cspace) /\ (f x).(t_cspace_size) = x.(t_cspace_size)
             /\ (f x).(t_slot_gen) = x.(t_slot_gen)) ->
  torn_down k (upd_task k' w f) id.
Proof.
  intros [HD HE HU HH] Hw Hf. constructor; [|exact HE|exact HU|].
  - rewrite task_at_upd. case_bool_decide as H; [|exact HD]. destruct H as [-> _]. congruence.
  - etrans; [exact HH|]. by apply same_home_upd.
Qed.

Lemma task_teardown_torn_down k id cause :
  0 < id < g_max_tasks k -> (task_at k id).(t_state) <> TASK_DEAD -> torn_down k (task_teardown k id cause) id.
Proof.
  intros Hid Hal. unfold task_teardown. case_match eqn:E; [apply orb_true_iff in E; rewrite !Z.leb_le in E; lia|].
  clear E. destruct (teardown_body_release k id cause Hid Hal) as (k4 & H1 & H2 & H3).
  pose proof (release_torn_down k k4 id Hid H2 H3) as HT. rewrite <- H1 in HT. clear H1.
  destruct (task_teardown_body k id cause) as [[[[w g] rec]|] k5]; cbn [snd] in HT; [|exact HT].
  destruct (_ && _) eqn:E; [|exact HT]. apply andb_true_iff in E as [[E _]%andb_true_iff _].
  apply Z.eqb_eq in E. apply torn_down_wake; [exact HT|by rewrite E|done].
Qed.

(** C39: tearing a live task down leaves it dead, with every slot of its cspace
    empty and nothing on its quota; every task keeps its cspace and its
    generation. *)
Theorem teardown_spec k id cause :
  0 < id < g_max_tasks k -> (task_at k id).(t_state) <> TASK_DEAD -> torn_down k (task_teardown k id cause) id.
Proof. apply task_teardown_torn_down. Qed.

Lemma teardown_spec_witness : torn_down demo (task_teardown demo 1 None) 1.
Proof. apply (teardown_spec demo 1 None); [split; [lia|]|]; vm_compute; [reflexivity|discriminate]. Defined.

(** ** Killing *)

(** A capability that authorises acting on a task: the administrator's, or a
    TCB capability with the right, naming this incarnation of the target. *)
Definition authority_over (k : kstate) (target need : Z) : Prop :=
  resolves k CAPSLOT_USER CAP_USER CAP_RIGHT_ALL (cur_array k, CAPSLOT_USER)
  \/ exists cs s, (cur_task k).(t_cspace) = Some cs /\ 0 <= s < (cur_task k).(t_cspace_size)
     /\ (cap_at k.(mem) (cs, s)).(ctype) = CAP_TCB
     /\ need ⊑b (cap_at k.(mem) (cs, s)).(rights)
     /\ (cap_at k.(mem) (cs, s)).(object) = reply_object target (task_at k target).(t_slot_gen).

Lemma tcb_held_authority k target need :
  task_tcb_held k target need = true -> authority_over k target need.
Proof.
  unfold task_tcb_held. repeat (case_match; [done|]). destruct (t_cspace _) as [cs|] eqn:E; [|done].
  intros (s & Hs%list_elem_of_In & Hc)%existsb_exists. right. boolc.
  exists cs, s. apply elem_of_seqZ in Hs. split_and!; [done|lia|lia|done|by apply has_bits_subset|done].
Qed.

Lemma kill_authorized_authority k target :
  task_kill_authorized k target = true -> authority_over k target CAP_RIGHT_WRITE.
Proof.
  unfold task_kill_authorized. case_match; [done|]. destruct (cap_lookup _ _ _ _) as [p|] eqn:E.
  - intros _. left. pose proof E as E'. apply cap_lookup_resolves in E; [|done].
    assert (p = (cur_array k, CAPSLOT_USER)) as ->; [|done].
    destruct E as [[H1 _] HS _ _ _]. destruct p as [c x]; simpl in *; subst x. unfold cur_array.
    destruct HS as [[-> _]|(-> & _ & ->)]; done.
  - apply tcb_held_authority.
Qed.

(** C18: a kill either is refused with the state unchanged, or the target is a
    live task other than task 0, the caller has authority over this very
    incarnation of it, and it is torn down. *)
Theorem kill_needs_authority k rbx :
  (exists e, (e = SYS_ERR_INVAL \/ e = SYS_ERR_PERM) /\ h_kill_locked k rbx = (rax32 e, k))
  \/ 0 < s32 rbx < g_max_tasks k /\ (task_at k (s32 rbx)).(t_state) <> TASK_DEAD
     /\ authority_over k (s32 rbx) CAP_RIGHT_WRITE
     /\ (h_kill_locked k rbx).1 = 0 /\ torn_down k (h_kill_locked k rbx).2 (s32 rbx).
Proof.
  unfold h_kill_locked. destruct ((s32 rbx <=? 0) || _ || _) eqn:E.
  { left. exists SYS_ERR_INVAL. split; [by left|done]. }
  destruct (task_kill_authorized k (s32 rbx)) eqn:EA; cbn [negb].
  2: { left. exists SYS_ERR_PERM. split; [by right|done]. }
  right. boolc. split_and!; [lia|lia|done|by apply kill_authorized_authority|done|].
  apply task_teardown_torn_down; [lia|done].
Qed.

(** ** Names of incarnations *)
Lemma reply_object_split id g :
  0 <= id < 2 ^ 16 -> 0 <= g < 2 ^ 48 ->
  Z.land (reply_object id g) TCB_OBJ_TID_MASK = id /\ Z.shiftr (reply_object id g) TCB_OBJ_TID_BITS = g.
Proof.
  intros Hi Hg. unfold reply_object, TCB_OBJ_TID_BITS, u64.
  change TCB_OBJ_TID_MASK with (Z.ones 16). change 0xFFFFFFFFFFFFFFFF with (Z.ones 64).
  rewrite !Z.land_ones, Z.shiftl_mul_pow2 by lia.
  rewrite (Z.mod_small id (2 ^ 64)), (Z.mod_small (g * 2 ^ 16)), (Z.mod_small id) by lia.
  split.
  - rewrite <- Z.land_ones, Z.land_lor_distr_l, !Z.land_ones by lia.
    rewrite Z_mod_mult, (Z.mod_small id) by lia. done.
  - rewrite Z.shiftr_lor, !Z.shiftr_div_pow2, Z_div_mult, (Z.div_small id) by lia. apply Z.lor_0_r.
Qed.

(** C40: a TCB capability that names an earlier incarnation of a task gives no
    authority over the task now in its slot: if every TCB capability the caller
    holds to the target's slot was made for another generation, the check
    refuses. *)
Theorem stale_tcb_powerless k target need cs :
  0 <= target < 2 ^ 16 -> 0 <= (task_at k target).(t_slot_gen) < 2 ^ 48 ->
  (cur_task k).(t_cspace) = Some cs ->
  (forall s, (cap_at k.(mem) (cs, s)).(ctype) = CAP_TCB ->
     exists id g, 0 <= id < 2 ^ 16 /\ 0 <= g < 2 ^ 48 /\ (id <> target \/ g <> (task_at k target).(t_slot_gen))
     /\ (cap_at k.(mem) (cs, s)).(object) = reply_object id g) ->
  task_tcb_held k target need = false.
Proof.
  intros Ht Hg Hcs Hs. unfold task_tcb_held. repeat (case_match; [done|]). rewrite Hcs.
  apply not_true_iff_false. intros (s & _ & Hc)%existsb_exists. boolc.
  destruct (Hs s) as (id & g & Hid & Hgg & Hne & Ho); [done|].
  destruct (reply_object_split id g Hid Hgg) as [E1 E2].
  destruct (reply_object_split target _ Ht Hg) as [E3 E4]. unfold tcb_object in *.
  rewrite <- Ho in E1, E2. destruct Hne; congruence.
Qed.

(** ** Exit records *)
Lemma c_string_spec n l :
  (length (c_string n l) <= n)%nat /\ Forall (fun x => x <> 0) (c_string n l)
  /\ exists r, l = c_string n l ++ r /\ (length (c_string n l) = n \/ r = [] \/ exists r', r = 0 :: r').
Proof.
  revert l. induction n as [|n IH]; intros l; simpl; [split_and!; [done|done|by exists l; auto]|].
  destruct l as [|x l]; [split_and!; [simpl; lia|done|exists []; auto]|].
  destruct (Z.eqb_spec x 0) as [->|Hx].
  - split_and!; [simpl; lia|done|]. exists (0 :: l). split; [done|]. eauto.
  - destruct (IH l) as (H1 & H2 & r & H3 & H4). split_and!; [simpl; lia|by constructor|].
    exists r. simpl. rewrite <- H3. split; [done|]. destruct H4 as [->|]; auto.
Qed.

(** The name in an exit record is the task's name up to its first zero byte,
    cut to 31 bytes, and zeros to the end of the 32-byte field: it is always
    terminated, and no byte after the terminator in the dead task's name field
    reaches the waiter. *)
Theorem exit_name_terminated name :
  exists s r, exit_name name = s ++ replicate (32 - length s) 0 /\ name = s ++ r
  /\ (length s <= 31)%nat /\ Forall (fun x => x <> 0) s
  /\ (length s = 31%nat \/ r = [] \/ exists r', r = 0 :: r') /\ length (exit_name name) = 32%nat.
Proof.
  destruct (c_string_spec 31 name) as (H1 & H2 & r & H3 & H4).
  exists (c_string 31 name), r. split_and!; try done. unfold exit_name.
  rewrite length_app, length_replicate. change (Z.to_nat TASK_NAME_BYTES) with 32%nat. lia.
Qed.

(** A property of every slot of a concrete cspace. *)
Lemma cap_at_forall m cs (P : capability -> Prop) s : P null_cap -> Forall P (space m cs) -> P (cap_at m (cs, s)).
Proof.
  intros H0 HF. unfold cap_at. cbn [fst snd]. destruct (decide (0 <= s < zlen (space m cs))) as [Hr|Hr].
  - by apply (proj1 (Forall_forall _ _) HF), zget_elem.
  - by rewrite zget_out by lia.
Qed.

Lemma stale_tcb_powerless_witness :
  task_tcb_held (upd_task demo 1 (fun t => t_set_slot_gen t 9)) 1 CAP_RIGHT_WRITE = false.
Proof.
  apply (stale_tcb_powerless _ 1 CAP_RIGHT_WRITE demo_cs).
  - lia.
  - vm_compute. split; [discriminate|reflexivity].
  - vm_compute. reflexivity.
  - intros s Hs. exists 1, 1. split_and!; [lia..|right; vm_compute; discriminate|].
    revert Hs. apply (cap_at_forall _ demo_cs (fun c => c.(ctype) = CAP_TCB -> c.(object) = reply_object 1 1) s).
    + discriminate.
    + by_vm.
Defined.
