(* ===== verification/IpcSpec.v ===== *)
(** What inter-process communication promises: the outcome of every send, the
    message a receiver gets, a call and its reply end to end, one-shot replies,
    notification badges, and the end of the blocking receive's loop. *)
From S2P Require Import Prelude KTypes CapCore CapRevoke Pipe SchedCtx KState Endpoint Untyped CSpace PipeSys Retype TaskLife CapSys Ipc TaskSys CapInv CapOps IpcOps Kernel Calm Security IpcInv Lifetime.

(** ** Sending and receiving *)

(** A task is asleep on the endpoint, so a send hands it the message. *)
Definition awaited (k : kstate) (e : endpoint) : bool :=
  let w := e.(ep_blocked_waiter) in
  (0 <? w) && (w <? g_max_tasks k) && ((task_at k w).(t_state) =? TASK_BLOCKED_IPC) && ep_empty e.
(** The message the current task deposits. *)
Definition sent_len (rdx : Z) : Z := Z.min IPC_MSG_MAX (u64 rdx).
Definition sent_msg (k : kstate) (u : uenv) (rdx : Z) (inv : ipc_invoker) : amsg :=
  mk_amsg (from_user u (sent_len rdx)) k.(cur) (sender_gen k k.(cur)) inv.

Lemma auth_fresh k r : auth_stale k (ipc_auth k r) r = false.
Proof.
  unfold auth_stale, ipc_auth, cap_revalidate. destruct (cap_lookup k 3 CAP_ANYTYPE r) as [l|] eqn:E; [|done].
  cbn [fmap option_fmap option_map cap_snapshot sn_valid sn_serial sn_object]. rewrite !Z.eqb_refl. simpl.
  by destruct (negb _).
Qed.
Lemma sent_len_min rdx : (if IPC_MSG_MAX <? u64 rdx then IPC_MSG_MAX else u64 rdx) = sent_len rdx.
Proof. unfold sent_len. destruct (Z.ltb_spec IPC_MSG_MAX (u64 rdx)); lia. Qed.
Lemma sent_len_range rdx : 0 <= sent_len rdx <= IPC_MSG_MAX.
Proof. unfold sent_len, IPC_MSG_MAX. pose proof (u64_nonneg rdx). lia. Qed.
Lemma ep_and_invoker_range k s r ep inv ser :
  ipc_ep_and_invoker k s r = Some (ep, inv, ser) -> 0 <= ep /\ exists e, endpoint_by_index k ep = Some e.
Proof. unfold ipc_ep_and_invoker. intros. repeat case_match; simplify_eq; split; eauto using u32_nonneg. Qed.

(** What a send that finds nobody waiting does. *)
Definition send_queued (k : kstate) (ep : Z) (e : endpoint) (inv : ipc_invoker) (u : uenv) (rdx : Z)
    (r : Z * list ucopy * kstate) : Prop :=
  if 4 <=? zlen (ep_abs e) then r = (rax64 (-2), [], k) else
  if (0 <? sent_len rdx) && negb u.(ue_in) then r = (rax64 (-1), [], k) else
  exists e', r = (0, [], put_endpoint k ep e') /\ ep_wf e'
    /\ ep_abs e' = ep_abs e ++ [sent_msg k u rdx inv] /\ e'.(ep_blocked_waiter) = e.(ep_blocked_waiter).

Lemma sys_ipc_send_queued k ep e inv u rdx :
  ep_wf e -> endpoint_by_index k ep = Some e -> awaited k e = false ->
  let '(rc, cs, k') := sys_ipc_send k ep u (u64 rdx) (Some inv) in send_queued k ep e inv u rdx (rax64 rc, cs, k').
Proof.
  intros Hw He Ha. unfold sys_ipc_send. rewrite He. cbv zeta. rewrite sent_len_min. unfold sys_ipc_send_locked.
  unfold awaited in Ha. cbv zeta in Ha |- *. rewrite Ha, auth_fresh. unfold send_queued.
  rewrite (ep_abs_length e Hw). fold (ep_full e). change (4 <=? e.(ep_count)) with (ep_full e).
  destruct (ep_full e) eqn:EF; [done|]. destruct ((0 <? sent_len rdx) && negb (ue_in u)); [done|].
  pose proof (sent_len_range rdx) as Hr. assert (zlen (from_user u (sent_len rdx)) = sent_len rdx) as Hz
    by (apply zlen_from_user; lia).
  eexists. split; [done|]. split; [apply ep_enqueue_wf; [done..|]; rewrite clamp_msg_len_id, Hz by lia; lia|].
  split; [|done]. rewrite ep_enqueue_abs by done. do 2 f_equal. unfold msg_abs, enqueued_msg, sent_msg.
  cbn [msg_len msg_data msg_sender msg_sender_gen msg_inv]. f_equal.
  by apply (enqueued_bytes k e (from_user u (sent_len rdx)) (sent_len rdx) k.(cur) (Some inv)).
Qed.

(** ** A message handed to a sleeping receiver *)

(** Task [w] can be given a reply capability for sender [s]. *)
Definition reply_room (k : kstate) (w s : Z) : bool := (cap_install_reply_for k w s 0).1.
Definition reply_slot (k : kstate) (w : Z) : loc := (default CRoot (task_at k w).(t_cspace), CAPSLOT_REPLY).
(** What a blocked receiver gets of [len] bytes. *)
Definition recv_len (k : kstate) (w len : Z) : Z := Z.min (task_at k w).(t_ipc).(ip_recv_max) len.

Lemma recv_len_cut k w len :
  (if (task_at k w).(t_ipc).(ip_recv_max) <? len then (task_at k w).(t_ipc).(ip_recv_max) else len) = recv_len k w len.
Proof. unfold recv_len. destruct (Z.ltb_spec (task_at k w).(t_ipc).(ip_recv_max) len); lia. Qed.

(** The state after the current task's message of [len] bytes went to [w],
    asleep in a blocking receive on [ep]. *)
Record handed (k k' : kstate) (ep : Z) (w len : Z) (inv : ipc_invoker) : Prop := {
  hd_cur : k'.(cur) = k.(cur);
  hd_max : g_max_tasks k' = g_max_tasks k;
  hd_others : forall t, t <> w -> task_at k' t = task_at k t;
  hd_awake : (task_at k' w).(t_state) = TASK_RUNNABLE /\ (task_at k' w).(t_blocked_on) = -1
             /\ (task_at k' w).(t_ipc).(ip_recv_block) = 0
             /\ fst <$> (task_at k' w).(t_ipc).(ip_frame) = Some len;
  hd_same : (task_at k' w).(t_cspace) = (task_at k w).(t_cspace)
            /\ (task_at k' w).(t_cspace_size) = (task_at k w).(t_cspace_size)
            /\ (task_at k' w).(t_ipc).(ip_pending_block) = (task_at k w).(t_ipc).(ip_pending_block);
  hd_ep : exists e, endpoint_by_index k' ep = Some e /\ ep_abs e = [] /\ e.(ep_blocked_waiter) = -1
            /\ e.(ep_last_sender) = k.(cur) /\ e.(ep_last_sender_gen) = (task_at k k.(cur)).(t_slot_gen)
            /\ e.(ep_last_invoker) = inv;
  hd_eps : forall i, 0 <= i -> i <> ep -> endpoint_by_index k' i = endpoint_by_index k i;
  hd_reply : slot_ok k.(mem) (reply_slot k w) -> exists ser, ser <> 0 /\
    cap_at k'.(mem) (reply_slot k w)
    = mk_cap CAP_REPLY CAP_RIGHT_WRITE (reply_object k.(cur) (task_at k k.(cur)).(t_slot_gen)) 0 ser 0;
  hd_caps : forall l, l <> reply_slot k w -> cap_at k'.(mem) l = cap_at k.(mem) l
}.

Lemma install_reply_spec k w s g :
  (cap_install_reply_for k w s g).1 = true ->
  let k' := (cap_install_reply_for k w s g).2 in
  (k'.(cur) = k.(cur) /\ k'.(tasks) = k.(tasks) /\ k'.(endpoints) = k.(endpoints) /\ k'.(dyn_eps) = k.(dyn_eps))
  /\ (slot_ok k.(mem) (reply_slot k w) -> exists ser, ser <> 0 /\
       cap_at k'.(mem) (reply_slot k w) = mk_cap CAP_REPLY CAP_RIGHT_WRITE (reply_object s g) 0 ser 0)
  /\ (forall l, l <> reply_slot k w -> cap_at k'.(mem) l = cap_at k.(mem) l).
Proof.
  unfold cap_install_reply_for, cap_alloc_fresh_serial, reply_slot. do 2 (case_match; [done|]).
  destruct (rust_cap_alloc_serial _) as [ser ns]. destruct (Z.eqb_spec ser 0); [done|].
  change (task_at (set_serial k ns) w) with (task_at k w). destruct (t_cspace _) as [c|]; [|done].
  do 2 (case_match; [done|]). intros _. cbn [snd default]. unfold install_at.
  set (k1 := put_cap _ _ _). set (k2 := if slot_null _ _ then inc_ciu k1 w else k1).
  assert (k2.(cur) = k1.(cur) /\ k2.(tasks) = k1.(tasks) /\ k2.(endpoints) = k1.(endpoints)
    /\ k2.(dyn_eps) = k1.(dyn_eps) /\ k2.(mem) = k1.(mem)) as HI by (unfold k2; by case_match). clearbody k2.
  destruct HI as (-> & -> & -> & -> & ->). split; [done|].
  cbn [mem put_cap set_mem set_serial]. split.
  - intros Hok. exists ser. split; [done|]. by apply cap_at_put_eq.
  - intros l Hl. by apply cap_at_put_ne.
Qed.

Lemma install_reply_fails k w s g :
  (cap_install_reply_for k w s g).1 = false ->
  let k' := (cap_install_reply_for k w s g).2 in
  k'.(cur) = k.(cur) /\ k'.(tasks) = k.(tasks) /\ k'.(endpoints) = k.(endpoints) /\ k'.(dyn_eps) = k.(dyn_eps) /\ k'.(mem) = k.(mem).
Proof.
  unfold cap_install_reply_for, cap_alloc_fresh_serial. do 2 (case_match; [done|]). destruct (rust_cap_alloc_serial _) as [ser ns].
  destruct (Z.eqb_spec ser 0); [done|]. destruct (t_cspace _); [|done]. by do 2 (case_match; [done|]).
Qed.

(** A send to a waiter changes that task and that endpoint only. *)
Record waiter_only (k k' : kstate) (ep w : Z) : Prop := {
  wo_cur : k'.(cur) = k.(cur);
  wo_others : forall t, t <> w -> task_at k' t = task_at k t;
  wo_eps : forall i, 0 <= i -> i <> ep -> endpoint_by_index k' i = endpoint_by_index k i;
  wo_caps : k'.(mem) = k.(mem)
}.
(** The state after [len] bytes went to [w], asleep in a call and waiting for its reply. *)
Record call_answered (k k' : kstate) (ep : Z) (e : endpoint) (w len : Z) : Prop := {
  ca_only : waiter_only k k' ep w;
  ca_awake : (task_at k' w).(t_state) = TASK_RUNNABLE /\ (task_at k' w).(t_blocked_on) = -1
             /\ (task_at k' w).(t_ipc).(ip_recv_block) = 0 /\ fst <$> (task_at k' w).(t_ipc).(ip_frame) = Some len;
  ca_ep : endpoint_by_index k' ep = Some (ep_set_waiter e (-1))
}.
(** The state after a message that could not be handed to [w] for want of room for the
    reply capability: [w] sleeps on, no longer marked as a receiver, with the sender
    recorded at the endpoint and the number of bytes in its frame. *)
Record undelivered (k k' : kstate) (ep : Z) (e : endpoint) (w len : Z) (inv : ipc_invoker) : Prop := {
  ud_only : waiter_only k k' ep w;
  ud_asleep : (task_at k' w).(t_state) = (task_at k w).(t_state) /\ (task_at k' w).(t_blocked_on) = (task_at k w).(t_blocked_on)
              /\ (task_at k' w).(t_ipc).(ip_recv_block) = 0 /\ fst <$> (task_at k' w).(t_ipc).(ip_frame) = Some len;
  ud_ep : endpoint_by_index k' ep = Some (ep_set_last e k.(cur) (task_at k k.(cur)).(t_slot_gen) inv)
}.

Lemma install_reply_room k k' w s g g' :
  g_max_tasks k' = g_max_tasks k -> (task_at k' w).(t_cspace) = (task_at k w).(t_cspace) ->
  (task_at k' w).(t_cspace_size) = (task_at k w).(t_cspace_size) ->
  k'.(mem) = k.(mem) -> k'.(caps_in_use) = k.(caps_in_use) -> k'.(cap_next_serial) = k.(cap_next_serial) ->
  (cap_install_reply_for k' w s g').1 = (cap_install_reply_for k w s g).1.
Proof.
  intros Hm Hc Hs Hmem Hciu Hser. unfold cap_install_reply_for, cap_alloc_fresh_serial. rewrite Hm, Hser.
  do 2 (case_match; [done|]). destruct (rust_cap_alloc_serial _) as [ser ns]. case_match; [done|].
  change (task_at (set_serial k' ns) w) with (task_at k' w). change (task_at (set_serial k ns) w) with (task_at k w).
  rewrite Hc. destruct (t_cspace (task_at k w)) as [c|]; [|reflexivity]. unfold task_size. rewrite Hs. destruct (_ <=? CAPSLOT_REPLY); [reflexivity|].
  unfold slot_null, over_quota, ciu_at. cbn [mem caps_in_use set_serial]. rewrite Hmem, Hciu. destruct (_ && _); reflexivity.
Qed.

Lemma awaited_waiter k e :
  awaited k e = true ->
  0 < e.(ep_blocked_waiter) < g_max_tasks k
  /\ (task_at k e.(ep_blocked_waiter)).(t_state) = TASK_BLOCKED_IPC /\ ep_empty e = true.
Proof. unfold awaited. cbv zeta. rewrite !andb_true_iff, !Z.ltb_lt, Z.eqb_eq. tauto. Qed.

(** Two consecutive changes of one task. *)
Lemma task_at_upd_self k t f : 0 <= t < g_max_tasks k -> task_at (upd_task k t f) t = f (task_at k t).
Proof. intros. rewrite task_at_upd_task, bool_decide_true; done. Qed.
Lemma task_at_upd_other k t f t' : t' <> t -> task_at (upd_task k t f) t' = task_at k t'.
Proof. intros. rewrite task_at_upd_task, bool_decide_false; [done|]. intros [-> _]. done. Qed.
Lemma task_field_upd {A} (g : task -> A) k t f t' :
  (forall x, g (f x) = g x) -> g (task_at (upd_task k t f) t') = g (task_at k t').
Proof. intros Hg. rewrite task_at_upd_task. case_bool_decide as H; [|done]. destruct H as [-> _]. apply Hg. Qed.
Lemma g_max_upd k t f : g_max_tasks (upd_task k t f) = g_max_tasks k.
Proof. apply zlen_zset. Qed.
Lemma g_max_put k i e : g_max_tasks (put_endpoint k i e) = g_max_tasks k.
Proof. unfold g_max_tasks. by rewrite (proj1 (put_endpoint_rest k i e)). Qed.
Lemma mem_put k i e : (put_endpoint k i e).(mem) = k.(mem).
Proof. unfold put_endpoint. by case_match. Qed.
Lemma ciu_put k i e : (put_endpoint k i e).(caps_in_use) = k.(caps_in_use).
Proof. unfold put_endpoint. by case_match. Qed.
Lemma serial_put k i e : (put_endpoint k i e).(cap_next_serial) = k.(cap_next_serial).
Proof. unfold put_endpoint. by case_match. Qed.
Lemma cur_put k i e : (put_endpoint k i e).(cur) = k.(cur).
Proof. apply put_endpoint_rest. Qed.
(** Endpoints are read from two tables only. *)
Lemma endpoint_same k k' i :
  k'.(endpoints) = k.(endpoints) -> k'.(dyn_eps) = k.(dyn_eps) -> endpoint_by_index k' i = endpoint_by_index k i.
Proof. unfold endpoint_by_index. by intros -> ->. Qed.

Section hand_over.
Context (k : kstate) (HI : ipc_inv k) (ep : Z) (e : endpoint) (inv : ipc_invoker) (u : uenv) (len : Z).
Context (H0 : 0 <= ep) (He : endpoint_by_index k ep = Some e) (Ha : awaited k e = true).
Let w := e.(ep_blocked_waiter).
Context (Hrecv : (task_at k w).(t_ipc).(ip_recv_block) <> 0) (Hne : w <> k.(cur)).
Context (Hin : 0 < recv_len k w len -> u.(ue_in) = true).
Let n := recv_len k w len.
Let e2 := ep_set_last e k.(cur) (task_at k k.(cur)).(t_slot_gen) inv.
(** The state the reply capability is installed in. *)
Let k2 := upd_ipc (put_endpoint (set_frame_rax k w (u32 n)) ep e2) w (fun ip => ip_set_recv_block ip 0).
Let k3 := (cap_install_reply_for k2 w k.(cur) (task_at k k.(cur)).(t_slot_gen)).2.

Lemma k2_task : (task_at k2 w) = t_set_ipc (t_set_frame (task_at k w) ((fun f => (u32 n, f.2)) <$> (task_at k w).(t_ipc).(ip_frame)))
  (ip_set_recv_block (t_set_frame (task_at k w) ((fun f => (u32 n, f.2)) <$> (task_at k w).(t_ipc).(ip_frame))).(t_ipc) 0).
Proof using Ha.
  destruct (awaited_waiter k e Ha) as (Hr & _ & _). fold w in Hr. unfold k2, upd_ipc, set_frame_rax.
  rewrite task_at_upd_self; [|rewrite g_max_put, g_max_upd; lia]. rewrite task_at_put_endpoint, task_at_upd_self by lia. done.
Qed.
Lemma k2_others t : t <> w -> task_at k2 t = task_at k t.
Proof using.
  intros. unfold k2, upd_ipc, set_frame_rax. rewrite task_at_upd_other by done.
  by rewrite task_at_put_endpoint, task_at_upd_other.
Qed.
Lemma k2_rest :
  g_max_tasks k2 = g_max_tasks k /\ k2.(mem) = k.(mem) /\ k2.(caps_in_use) = k.(caps_in_use)
  /\ k2.(cap_next_serial) = k.(cap_next_serial) /\ k2.(cur) = k.(cur).
Proof using.
  unfold k2, upd_ipc, set_frame_rax. rewrite g_max_upd, g_max_put, g_max_upd. cbn [mem caps_in_use cap_next_serial cur upd_task set_task set_tasks].
  by rewrite mem_put, ciu_put, serial_put, cur_put.
Qed.
Lemma k2_endpoint i :
  0 <= i -> endpoint_by_index k2 i = if decide (ep = i) then Some e2 else endpoint_by_index k i.
Proof using H0 He HI.
  intros Hi. unfold k2, upd_ipc. rewrite (endpoint_same (put_endpoint (set_frame_rax k w (u32 n)) ep e2)) by done.
  rewrite endpoint_put; [|done|done|apply HI]. rewrite (endpoint_same k) by done. case_decide; [|done]. subst i. by rewrite He.
Qed.

Lemma k2_reply g : (cap_install_reply_for k2 w k.(cur) g).1 = reply_room k w k.(cur).
Proof using Ha.
  destruct k2_rest as (R1 & R2 & R3 & R4 & _). unfold reply_room. apply install_reply_room; try done; rewrite k2_task; done.
Qed.
Lemma send_to_waiter_runs :
  ipc_send_to_waiter k ep e w u len (Some inv)
  = if reply_room k w k.(cur) then (0, reply_copy k w (from_user u n), wake_unblock (put_endpoint k3 ep (ep_set_waiter e2 (-1))) w)
    else (-1, reply_copy k w (from_user u n), k3).
Proof using HI Ha Hrecv Hne Hin.
  destruct (awaited_waiter k e Ha) as (_ & Hst & _). fold w in Hst. unfold ipc_send_to_waiter. cbv zeta.
  rewrite (proj2 (Z.eqb_neq _ 0) Hrecv). cbn [negb andb].
  rewrite recv_len_cut. fold n.
  destruct ((0 <? n) && negb (ue_in u)) eqn:EF.
  { apply andb_true_iff in EF as [E1%Z.ltb_lt E2]. by rewrite Hin in E2. }
  pose proof (ii_frame _ HI w (or_introl Hst)) as Hfr. destruct (ip_frame _) as [fr|]; [|done].
  change (set_frame_rax k w (u32 n)).(cur) with k.(cur).
  assert (task_at (set_frame_rax k w (u32 n)) k.(cur) = task_at k k.(cur)) as ->
    by (apply task_at_upd_other; congruence). change (default ipc_no_invoker (Some inv)) with inv. fold e2. fold k2.
  pose proof (k2_reply (task_at k k.(cur)).(t_slot_gen)) as HR. unfold k3. destruct (cap_install_reply_for k2 _ _ _) as [ok k4]. cbn [fst snd] in *.
  subst ok. by case_match.
Qed.
Lemma no_room_state : reply_room k w k.(cur) = false -> undelivered k k3 ep e w (u32 n) inv.
Proof using HI H0 He Ha.
  intros Hno. destruct (awaited_waiter k e Ha) as (_ & Hst & _). fold w in Hst. destruct k2_rest as (_ & R2 & _ & _ & R5).
  destruct (install_reply_fails k2 w k.(cur) (task_at k k.(cur)).(t_slot_gen)) as (C1 & C2 & C3 & C4 & C5); [by rewrite k2_reply|].
  fold k3 in C1, C2, C3, C4, C5. assert (forall t, task_at k3 t = task_at k2 t) as HT by (intros t; unfold task_at; by rewrite C2).
  split; [split| |].
  - by rewrite C1.
  - intros t Ht. by rewrite HT, k2_others.
  - intros i Hi Hn. rewrite (endpoint_same k2 k3) by done. by rewrite k2_endpoint, decide_False.
  - by rewrite C5.
  - rewrite HT, k2_task. split_and!; try done. pose proof (ii_frame _ HI w (or_introl Hst)). cbn. by destruct (ip_frame _).
  - rewrite (endpoint_same k2 k3) by done. by rewrite k2_endpoint, decide_True.
Qed.

Context (Hroom : reply_room k w k.(cur) = true).
Lemma k2_room : (cap_install_reply_for k2 w k.(cur) (task_at k k.(cur)).(t_slot_gen)).1 = true.
Proof using Ha Hroom. by rewrite k2_reply. Qed.
Lemma send_to_waiter_eq :
  ipc_send_to_waiter k ep e w u len (Some inv)
  = (0, reply_copy k w (from_user u n), wake_unblock (put_endpoint k3 ep (ep_set_waiter e2 (-1))) w).
Proof using HI Ha Hrecv Hne Hin Hroom. by rewrite send_to_waiter_runs, Hroom. Qed.

Lemma handed_ok : handed k (wake_unblock (put_endpoint k3 ep (ep_set_waiter e2 (-1))) w) ep w (u32 n) inv.
Proof using HI H0 He Ha Hroom.
  destruct (awaited_waiter k e Ha) as (Hr & Hst & Hemp). fold w in Hr, Hst.
  destruct k2_rest as (R1 & R2 & _ & _ & R5).
  destruct (install_reply_spec k2 w k.(cur) (task_at k k.(cur)).(t_slot_gen) k2_room) as ((C1 & C2 & C3 & C4) & C5 & C6).
  fold k3 in C1, C2, C3, C4, C5, C6. unfold wake_unblock.
  assert (forall t, task_at (put_endpoint k3 ep (ep_set_waiter e2 (-1))) t = task_at k2 t) as HT.
  { intros t. rewrite task_at_put_endpoint. unfold task_at. by rewrite C2. }
  assert (g_max_tasks (put_endpoint k3 ep (ep_set_waiter e2 (-1))) = g_max_tasks k) as HM.
  { rewrite g_max_put. unfold g_max_tasks. rewrite C2. exact R1. }
  assert (forall i, endpoint_by_index k3 i = endpoint_by_index k2 i) as HE by (intros; by apply endpoint_same).
  assert (zlen k3.(endpoints) = MAX_ENDPOINTS) as HL.
  { rewrite C3. unfold k2, upd_ipc. cbn [endpoints upd_task set_task set_tasks].
    destruct (put_endpoint_rest (set_frame_rax k w (u32 n)) ep e2) as (_ & _ & _ & -> & _). apply HI. }
  assert (reply_slot k2 w = reply_slot k w) as HS by (unfold reply_slot; by rewrite k2_task). rewrite HS in C5, C6.
  assert (forall i, 0 <= i -> endpoint_by_index (upd_task (put_endpoint k3 ep (ep_set_waiter e2 (-1))) w
            (fun x => t_set_blocked_on (t_wake x) (-1))) i
          = if decide (ep = i) then Some (ep_set_waiter e2 (-1)) else endpoint_by_index k i) as HEP.
  { intros i Hi. rewrite (endpoint_same (put_endpoint k3 ep (ep_set_waiter e2 (-1)))) by done.
    rewrite endpoint_put by done. rewrite HE, k2_endpoint by done. by case_decide. }
  constructor.
  - cbn [cur upd_task set_task set_tasks]. by rewrite cur_put, C1, R5.
  - by rewrite g_max_upd.
  - intros t Ht. rewrite task_at_upd_other, HT, k2_others; done.
  - rewrite task_at_upd_self by (rewrite HM; lia). rewrite HT, k2_task. split_and!; try done.
    pose proof (ii_frame _ HI w (or_introl Hst)). cbn. by destruct (ip_frame _).
  - rewrite task_at_upd_self by (rewrite HM; lia). rewrite HT, k2_task. done.
  - exists (ep_set_waiter e2 (-1)). rewrite HEP, decide_True by done. split_and!; try done.
    apply (ep_empty_abs e); [by eapply ii_ep_wf|done].
  - intros i Hi Hn. by rewrite HEP, decide_False by done.
  - intros Hok. destruct C5 as (ser & Hs & Hc); [by rewrite R2|]. exists ser. split; [done|].
    cbn [mem upd_task set_task set_tasks]. by rewrite mem_put.
  - intros l Hl. cbn [mem upd_task set_task set_tasks]. by rewrite mem_put, C6, R2.
Qed.
End hand_over.

(** What a send does that finds a blocking receiver asleep. *)
Definition send_handed (k : kstate) (ep : Z) (e : endpoint) (inv : ipc_invoker) (u : uenv) (rdx : Z)
    (r : Z * list ucopy * kstate) : Prop :=
  let w := e.(ep_blocked_waiter) in
  let n := recv_len k w (sent_len rdx) in
  if (0 <? n) && negb u.(ue_in) then r = (rax64 (-1), [], k) else
  if reply_room k w k.(cur)
  then r.1 = (0, reply_copy k w (from_user u n)) /\ handed k r.2 ep w (u32 n) inv
  else r.1 = (rax64 (-1), reply_copy k w (from_user u n)) /\ undelivered k r.2 ep e w (u32 n) inv.
(** What a send does that finds a caller asleep and waiting for its reply. *)
Definition send_answers (k : kstate) (ep : Z) (e : endpoint) (u : uenv) (rdx : Z) (r : Z * list ucopy * kstate) : Prop :=
  let w := e.(ep_blocked_waiter) in
  let n := sent_len rdx in
  if (0 <? n) && negb u.(ue_in) then r = (rax64 (-1), [], k) else
  r.1 = (0, reply_copy k w (from_user u n)) /\ call_answered k r.2 ep e w (u32 n).

Lemma sys_ipc_send_awaited k ep e inv u rdx :
  endpoint_by_index k ep = Some e -> awaited k e = true ->
  sys_ipc_send k ep u (u64 rdx) (Some inv) = ipc_send_to_waiter k ep e e.(ep_blocked_waiter) u (sent_len rdx) (Some inv).
Proof.
  intros He Ha. unfold sys_ipc_send. rewrite He. cbv zeta. rewrite sent_len_min. unfold sys_ipc_send_locked.
  unfold awaited in Ha. cbv zeta in Ha |- *. by rewrite Ha, auth_fresh.
Qed.
Lemma send_to_caller k ep e inv u rdx :
  let w := e.(ep_blocked_waiter) in
  ipc_inv k -> 0 <= ep -> endpoint_by_index k ep = Some e -> awaited k e = true -> (task_at k w).(t_ipc).(ip_recv_block) = 0 ->
  let '(rc, cs, k') := ipc_send_to_waiter k ep e w u (sent_len rdx) (Some inv) in send_answers k ep e u rdx (rax64 rc, cs, k').
Proof.
  cbv zeta. intros HI H0 He Ha Hr. destruct (awaited_waiter k e Ha) as (Hw & Hst & _). set (w := e.(ep_blocked_waiter)) in *. unfold ipc_send_to_waiter, send_answers.
  rewrite Hr. change (negb (0 =? 0)) with false. cbn [andb]. cbv zeta. fold w. destruct (_ && _); [done|]. pose proof (ii_frame _ HI w (or_introl Hst)) as Hfr.
  destruct (ip_frame _) as [fr|] eqn:Ef; [|done]. split; [done|]. cbn [snd]. set (n := u32 (sent_len rdx)). set (k1 := set_frame_rax k w n). unfold wake_unblock.
  assert (forall i, 0 <= i -> endpoint_by_index (upd_task (put_endpoint k1 ep (ep_set_waiter e (-1))) w (fun x => t_set_blocked_on (t_wake x) (-1))) i
    = if decide (ep = i) then Some (ep_set_waiter e (-1)) else endpoint_by_index k i) as HEP.
  { intros i Hi. rewrite (endpoint_same (put_endpoint k1 ep (ep_set_waiter e (-1)))) by done. rewrite endpoint_put; [|done|done|apply HI].
    rewrite (endpoint_same k k1) by done. case_decide; [|done]. subst i. by rewrite He. }
  split; [split| |].
  - cbn [cur upd_task set_task set_tasks]. by rewrite cur_put.
  - intros t Ht. rewrite task_at_upd_other by done. rewrite task_at_put_endpoint. by apply task_at_upd_other.
  - intros i Hi Hn. by rewrite HEP, decide_False by done.
  - cbn [mem upd_task set_task set_tasks]. by rewrite mem_put.
  - rewrite task_at_upd_self by (rewrite g_max_put; unfold k1, set_frame_rax; rewrite g_max_upd; lia). rewrite task_at_put_endpoint.
    unfold k1, set_frame_rax. rewrite task_at_upd_self by lia. cbn. rewrite Ef. by split_and!.
  - by rewrite HEP, decide_True.
Qed.

(** C19: every send by a running task has one of these outcomes.  Without a
    writable endpoint capability in the slot: SYS_ERR_PERM.  With nobody waiting:
    -2 if four messages are queued, -1 if the buffer cannot be read, otherwise 0
    and the endpoint holds one more message, last in its queue: at most 256 bytes
    of the buffer, the sender with its generation, and the token and rights of
    the capability the send went through.  With a receiver asleep on the
    endpoint: -1 if the buffer cannot be read; -1 if the receiver cannot be given a
    reply capability, and then its buffer and frame have been written and it is no
    longer marked as a receiver, but it sleeps on as the endpoint's waiter and no
    capability changed; otherwise 0, the receiver is awake with the bytes in its
    buffer and their number in rax, its reply slot names this sender, and nobody
    else has changed.  With a caller asleep there that waits for its reply: -1 if the
    buffer cannot be read, otherwise 0, the caller is awake with up to 256 bytes in its
    buffer and their number in rax, and no capability and nobody else has changed.
    The other refusals change nothing. *)
Theorem ipc_send_outcomes k rbx rdx u :
  reachable k -> caller_runs k = true ->
  match ipc_ep_and_invoker k (u32 rbx) CAP_RIGHT_WRITE with
  | None => h_ipc_send k rbx rdx u = (rax32 SYS_ERR_PERM, [], k)
  | Some (ep, inv, _) =>
      exists e, endpoint_by_index k ep = Some e
        /\ if awaited k e
           then if (task_at k e.(ep_blocked_waiter)).(t_ipc).(ip_recv_block) =? 0
                then send_answers k ep e u rdx (h_ipc_send k rbx rdx u)
                else send_handed k ep e inv u rdx (h_ipc_send k rbx rdx u)
           else send_queued k ep e inv u rdx (h_ipc_send k rbx rdx u)
  end.
Proof.
  intros Hk%reachable_ipc_inv Hc%caller_awake. unfold h_ipc_send.
  destruct (ipc_ep_and_invoker _ _ _) as [[[ep inv] ser]|] eqn:E; [|done].
  apply ep_and_invoker_range in E as (H0 & e & He). exists e. split; [done|]. destruct (awaited k e) eqn:Ha.
  2: { pose proof (sys_ipc_send_queued k ep e inv u rdx (ii_ep_wf _ Hk _ _ H0 He) He Ha) as HS. by destruct (sys_ipc_send _ _ _ _ _) as [[rc cs] k']. }
  rewrite (sys_ipc_send_awaited k ep e inv u rdx He Ha). destruct (Z.eqb_spec (ip_recv_block (t_ipc (task_at k (ep_blocked_waiter e)))) 0) as [Hr|Hr].
  { pose proof (send_to_caller k ep e inv u rdx Hk H0 He Ha Hr) as HS. by destruct (ipc_send_to_waiter _ _ _ _ _ _ _) as [[rc cs] k']. }
  unfold send_handed. cbv zeta. destruct (awaited_waiter k e Ha) as (_ & Hst & _).
  assert (e.(ep_blocked_waiter) <> k.(cur)) as Hne by (intros Heq; rewrite Heq, Hc in Hst; discriminate).
  destruct (_ && _) eqn:EF.
  { unfold ipc_send_to_waiter. cbv zeta. rewrite (proj2 (Z.eqb_neq _ 0) Hr). cbn [negb andb]. by rewrite recv_len_cut, EF. }
  rewrite (send_to_waiter_runs k Hk ep e inv u (sent_len rdx)); try done; [|intros Hn%Z.ltb_lt; rewrite Hn in EF; by destruct (ue_in u)].
  destruct (reply_room _ _ _) eqn:ER; (split; [done|]); [by apply handed_ok|by apply no_room_state].
Qed.
(** Task 2 is about to call the sleeping server. *)
Definition calling : kstate := kexec [OSwitch 2] waiting.
Definition calling_inv : ipc_invoker := mk_invoker 0 261179 0 0 0.
Lemma ipc_send_outcomes_witness :
  (h_ipc_send calling 10 5 user_mem).1 = (0, [mk_copy 1 0x500000 [1; 8; 15; 22; 29]])
  /\ handed calling (h_ipc_send calling 10 5 user_mem).2 FS_EP_REQ 1 5 calling_inv.
Proof.
  pose proof (ipc_send_outcomes calling 10 5 user_mem (reachable_run _ _ waiting_reachable)
    ltac:(vm_compute; reflexivity)) as H.
  assert (ipc_ep_and_invoker calling (u32 10) CAP_RIGHT_WRITE = Some (FS_EP_REQ, calling_inv, 4294967307)) as E
    by (vm_compute; reflexivity).
  rewrite E in H. destruct H as (e & He & H).
  assert (ep_blocked_waiter <$> endpoint_by_index calling FS_EP_REQ = Some 1) as Hw by (vm_compute; reflexivity).
  assert (awaited calling <$> endpoint_by_index calling FS_EP_REQ = Some true) as Ha by (vm_compute; reflexivity).
  rewrite He in Hw, Ha. injection Hw as Hw. injection Ha as Ha. rewrite Ha, Hw in H.
  assert ((ip_recv_block (t_ipc (task_at calling 1)) =? 0) = false) as Hb by (vm_compute; reflexivity). rewrite Hb in H. unfold send_handed in H. rewrite Hw in H.
  assert (recv_len calling 1 (sent_len 5) = 5) as Hn by (vm_compute; reflexivity).
  assert (reply_room calling 1 calling.(cur) = true) as Hr by (vm_compute; reflexivity).
  cbv zeta in H. rewrite Hn, Hr in H. cbn [ue_in user_mem negb andb] in H. rewrite andb_false_r in H.
  destruct H as [H1 H2]. split; [rewrite H1; vm_compute; reflexivity|exact H2].
Defined.

(** ** Receiving *)
Lemma install_object_eps k d o r b :
  (cap_install_object k d CAP_REPLY o r b).2.(endpoints) = k.(endpoints)
  /\ (cap_install_object k d CAP_REPLY o r b).2.(dyn_eps) = k.(dyn_eps).
Proof.
  unfold cap_install_object, cap_alloc_fresh_serial, install_at, kobj_note_named.
  change (kobj_of_cap CAP_REPLY =? 0) with true. repeat case_match; simplify_eq; done.
Qed.
Definition copied_to (k : kstate) (buf : Z) (bytes : list Z) : list ucopy :=
  if 0 <? zlen bytes then [mk_copy k.(cur) buf bytes] else [].

(** A receive with room for the oldest message takes it off the queue whole. *)
Lemma sys_ipc_recv_head k ep e u msg max m q :
  ipc_inv k -> 0 <= ep -> endpoint_by_index k ep = Some e -> ep_abs e = m :: q ->
  zlen m.(am_bytes) <= s32 max -> (0 < zlen m.(am_bytes) -> u.(ue_out) = true) ->
  let r := sys_ipc_recv k ep u msg max in
  r.1 = (zlen m.(am_bytes), copied_to k msg m.(am_bytes))
  /\ exists e', endpoint_by_index r.2 ep = Some e' /\ ep_wf e' /\ ep_abs e' = q
       /\ e'.(ep_last_sender) = m.(am_sender) /\ e'.(ep_last_sender_gen) = m.(am_gen) /\ e'.(ep_last_invoker) = m.(am_inv).
Proof.
  intros HI H0 He Hq Hmax Hout. pose proof (ii_ep_wf _ HI _ _ H0 He) as Hw. unfold sys_ipc_recv. rewrite He. cbv zeta.
  destruct (ep_empty e) eqn:EE; [apply ep_empty_abs in EE; [by rewrite EE in Hq|done]|].
  rewrite auth_fresh. pose proof (ep_dequeue_cut e (s32 max) Hw EE) as HC. pose proof (ep_dequeue_abs e (s32 max) Hw EE) as HA.
  pose proof (ep_dequeue_wf e (s32 max) Hw EE) as HW. destruct (ep_dequeue e (s32 max)) as [d e1]. cbn [fst snd] in *.
  rewrite HA in Hq. injection Hq as Hm Hq. rewrite Hm in HC. unfold cut in HC. rewrite Z.min_r in HC by done.
  rewrite take_ge in HC by (unfold zlen; lia). subst d. cbn [dq_len dq_data dq_sender dq_sender_gen dq_inv].
  destruct ((0 <? _) && _) eqn:EF.
  { apply andb_true_iff in EF as [E1%Z.ltb_lt E2]. by rewrite Hout in E2. }
  cbn [fst snd]. split; [done|]. exists (ep_set_last e1 m.(am_sender) m.(am_gen) m.(am_inv)).
  split; [|split; [by destruct HW|done]]. set (k1 := put_endpoint k ep _).
  assert (endpoint_by_index k1 ep = Some (ep_set_last e1 m.(am_sender) m.(am_gen) m.(am_inv))) as H1.
  { unfold k1. rewrite endpoint_put; [|done|done|apply HI]. by rewrite decide_True, He. }
  destruct ((0 <? m.(am_sender)) && _); [|exact H1]. destruct (install_object_eps k1 CAPSLOT_REPLY (reply_object m.(am_sender) m.(am_gen)) CAP_RIGHT_WRITE 0) as [Ea Eb].
  by rewrite (endpoint_same k1).
Qed.

(** C22: a message comes back whole.  When a task sends to an endpoint with an
    empty queue and nobody waiting, and another task then receives from it with
    enough room, the receiver gets exactly the bytes sent and their number, and
    the endpoint names the sender, its generation and the token and rights the
    send went through. *)
Theorem ipc_send_recv_roundtrip k rbx rdx u ep e inv ser r rbx' rcx rdx' u' :
  reachable k -> caller_runs k = true ->
  ipc_ep_and_invoker k (u32 rbx) CAP_RIGHT_WRITE = Some (ep, inv, ser) ->
  endpoint_by_index k ep = Some e -> ep_abs e = [] -> awaited k e = false ->
  u.(ue_in) = true -> u'.(ue_out) = true -> sent_len rdx <= s32 rdx' ->
  let k1 := set_cur (h_ipc_send k rbx rdx u).2 r in
  ipc_ep_from_slot k1 (u32 rbx') CAP_RIGHT_READ = Some ep ->
  (h_ipc_send k rbx rdx u).1 = (0, [])
  /\ (h_ipc_recv k1 rbx' rcx rdx' u').1
     = (rax64 (sent_len rdx), copied_to k1 (u64 rcx) (from_user u (sent_len rdx)))
  /\ exists e', endpoint_by_index (h_ipc_recv k1 rbx' rcx rdx' u').2 ep = Some e' /\ ep_abs e' = []
       /\ e'.(ep_last_sender) = k.(cur) /\ e'.(ep_last_sender_gen) = sender_gen k k.(cur)
       /\ e'.(ep_last_invoker) = inv.
Proof.
  intros Hk Hc Hep He Hemp Ha Hin Hout Hlen. pose proof (reachable_ipc_inv k Hk) as HI.
  destruct (ep_and_invoker_range _ _ _ _ _ _ Hep) as (H0 & _).
  pose proof (ii_ep_wf _ HI _ _ H0 He) as Hw. pose proof (sent_len_range rdx) as Hr.
  pose proof (ipc_run_inv (ISend rbx rdx u) k HI (or_introl Hc)) as HI'. cbn [ipc_run] in HI'.
  assert (send_queued k ep e inv u rdx (h_ipc_send k rbx rdx u)) as HS.
  { pose proof (sys_ipc_send_queued k ep e inv u rdx Hw He Ha) as HS. unfold h_ipc_send. rewrite Hep.
    by destruct (sys_ipc_send _ _ _ _ _) as [[??]?]. }
  unfold send_queued in HS. rewrite Hemp, Hin in HS. simpl in HS. rewrite andb_false_r in HS.
  destruct HS as (e1 & HR & Hw1 & HA1 & _). rewrite HR in HI'. rewrite HR. intros k1 Hep'. split; [done|].
  assert (endpoint_by_index k1 ep = Some e1) as He1.
  { rewrite (endpoint_same (put_endpoint k ep e1)) by done. rewrite endpoint_put; [|done|done|apply HI]. by rewrite decide_True, He. }
  assert (ipc_inv k1) as HI1 by by destruct HI'.
  assert (zlen (from_user u (sent_len rdx)) = sent_len rdx) as Hz by (apply zlen_from_user; lia).
  destruct (sys_ipc_recv_head k1 ep e1 u' (u64 rcx) rdx' (sent_msg k u rdx inv) [] HI1 H0 He1 HA1) as (HX & e2 & HE2 & _ & HA2 & HL);
    [unfold sent_msg; cbn [am_bytes]; lia|done|].
  cbn [sent_msg am_bytes am_sender am_gen am_inv] in HX, HL.
  unfold h_ipc_recv. rewrite Hep'. destruct (sys_ipc_recv k1 ep u' (u64 rcx) rdx') as [[rc cs] k2].
  cbn [fst snd] in *. injection HX as -> ->. rewrite Hz. split; [done|]. by exists e2.
Qed.
Lemma ipc_send_recv_roundtrip_witness :
  (h_ipc_recv (set_cur (h_ipc_send pair 10 5 user_mem).2 2) 10 0x600000 64 user_mem).1
  = (5, [mk_copy 2 0x600000 [1; 8; 15; 22; 29]]).
Proof.
  assert (ipc_ep_and_invoker pair (u32 10) CAP_RIGHT_WRITE = Some (FS_EP_REQ, calling_inv, 4294967306)) as E
    by (vm_compute; reflexivity).
  pose proof (ipc_send_recv_roundtrip pair 10 5 user_mem FS_EP_REQ
    (default ep_fresh (endpoint_by_index pair FS_EP_REQ)) calling_inv 4294967306 2 10 0x600000 64 user_mem pair_reachable
    ltac:(vm_compute; reflexivity) E ltac:(vm_compute; reflexivity) ltac:(vm_compute; reflexivity)
    ltac:(vm_compute; reflexivity) eq_refl eq_refl ltac:(vm_compute; discriminate) ltac:(vm_compute; reflexivity)) as H.
  rewrite (proj1 (proj2 H)). vm_compute. reflexivity.
Defined.

(** ** Replying *)
Lemma lookup_ipc_object_eq k s ty r mx :
  cap_lookup_ipc_object k s ty r mx
  = match cap_lookup k s ty r with
    | None => None
    | Some p => if mx <=? (cap_at k.(mem) p).(object) then None else Some (u32 (cap_at k.(mem) p).(object))
    end.
Proof. unfold cap_lookup_ipc_object, cap_lookup, rust_ipc_object_from_slot. by destruct (cap_current_cspace k s) as [[]|]. Qed.

(** Lookups depend on the caller's cspace, its size and the slot alone. *)
Lemma resolves_frame k k' s ty r p :
  k'.(cur) = k.(cur) -> (cur_task k').(t_cspace) = (cur_task k).(t_cspace) ->
  (cur_task k').(t_cspace_size) = (cur_task k).(t_cspace_size) -> cap_at k'.(mem) p = cap_at k.(mem) p ->
  resolves k s ty r p -> resolves k' s ty r p.
Proof.
  intros Hc Hs Hz Hp [R1 R2 R3 R4 R5]. constructor; rewrite ?Hp; try done.
  rewrite Hs, Hc. unfold cur_size, task_size. by rewrite Hz.
Qed.
Lemma ep_from_slot_frame k k' s r ep :
  0 <= s -> ipc_ep_from_slot k s r = Some ep -> endpoint_by_index k' ep <> None ->
  k'.(cur) = k.(cur) -> (cur_task k').(t_cspace) = (cur_task k).(t_cspace) ->
  (cur_task k').(t_cspace_size) = (cur_task k).(t_cspace_size) ->
  (forall c, cap_at k'.(mem) (c, s) = cap_at k.(mem) (c, s)) -> ipc_ep_from_slot k' s r = Some ep.
Proof.
  intros H0 He Hn Hc Hs Hz Hp. unfold ipc_ep_from_slot in *. rewrite lookup_ipc_object_eq in He |- *.
  destruct (cap_lookup k s CAP_ENDPOINT r) as [[c i]|] eqn:EL; [|done].
  apply cap_lookup_resolves in EL; [|done]. assert (i = s) as -> by apply EL.
  pose proof (resolves_frame k k' _ _ _ _ Hc Hs Hz (Hp c) EL) as EL'. apply cap_lookup_resolves in EL'; [|done].
  rewrite EL', Hp. destruct (EP_INDEX_MAX <=? _); [done|].
  destruct (endpoint_by_index k _) eqn:E1; [|done]. injection He as He. rewrite He. by destruct (endpoint_by_index k' ep).
Qed.

(** The state after the current task has answered the caller [c] with [n]
    bytes: [c] runs, the reply capability is spent, nothing else changed hands. *)
Record replied (k k' : kstate) (c n : Z) : Prop := {
  rp_caller : (task_at k' c).(t_state) = TASK_RUNNABLE /\ (task_at k' c).(t_blocked_on) = -1
              /\ fst <$> (task_at k' c).(t_ipc).(ip_frame) = Some n;
  rp_others : forall t, t <> c -> task_at k' t = task_at k t;
  rp_spent : (cap_at k'.(mem) (cur_array k, CAPSLOT_REPLY)).(ctype) = CAP_NULL;
  rp_caps : forall l, l <> (cur_array k, CAPSLOT_REPLY) -> cap_at k'.(mem) l = cap_at k.(mem) l
}.

Lemma consume_slot_spec k s c :
  (cur_task k).(t_cspace) = Some c -> KERNEL_RESERVED_CAPS <= s < cur_size k ->
  let k' := (cap_consume_slot k s).2 in
  k'.(tasks) = k.(tasks) /\ (cap_at k'.(mem) (c, s)).(ctype) = CAP_NULL
  /\ (forall l, l <> (c, s) -> cap_at k'.(mem) l = cap_at k.(mem) l).
Proof.
  intros Hc Hs. unfold cap_consume_slot. rewrite Hc.
  rewrite (proj2 (Z.ltb_ge s _)), (proj2 (Z.leb_gt _ s)) by lia. cbn [orb snd].
  destruct (slot_null k (c, s)) eqn:E; [split_and!; try done; by apply Z.eqb_eq in E|].
  split; [done|]. cbn [mem dec_ciu_of set_ciu put_cap set_mem]. split; [|intros; by apply cap_at_put_ne].
  rewrite cap_at_put. case_decide as H; [done|]. unfold cap_at. rewrite zget_out; [done|].
  assert (~ slot_ok k.(mem) (c, s)) as Hn by tauto. unfold slot_ok, KERNEL_RESERVED_CAPS in *. simpl in *. lia.
Qed.

Lemma reply_deliver_spec k t c bytes :
  (task_at k t).(t_ipc).(ip_frame) <> None -> 0 <= t < g_max_tasks k ->
  (cur_task k).(t_cspace) = Some c -> CAPSLOT_REPLY < cur_size k ->
  (reply_deliver k t bytes).1 = (0, reply_copy k t bytes)
  /\ replied k (reply_deliver k t bytes).2 t (u32 (zlen bytes)).
Proof.
  intros Hf Ht Hc Hz. unfold reply_deliver. destruct (ip_frame _) as [fr|] eqn:EF; [|done]. cbv zeta. cbn [fst snd].
  split; [done|]. set (k1 := set_frame_rax k t _). set (k2 := match endpoint_or_none k1 _ with Some _ => _ | None => k1 end).
  assert (k2.(cur) = k.(cur) /\ k2.(mem) = k.(mem) /\ k2.(tasks) = k1.(tasks)) as (C1 & C2 & C3).
  { unfold k2. destruct (endpoint_or_none _ _); [|done]. destruct (_ =? t); [|done].
    rewrite cur_put, mem_put. split_and!; try done. apply put_endpoint_rest. }
  clearbody k2. assert (forall x, task_at k2 x = task_at k1 x) as HT by (unfold task_at; by rewrite C3).
  assert (g_max_tasks k2 = g_max_tasks k) as HM by (unfold g_max_tasks; rewrite C3; apply zlen_zset).
  set (k3 := wake_unblock k2 t).
  assert (forall A (g : task -> A), (forall x y, g (t_set_blocked_on (t_wake x) y) = g x) -> (forall x y, g (t_set_frame x y) = g x) ->
    forall x, g (task_at k3 x) = g (task_at k x)) as HG.
  { intros A g G1 G2 x. unfold k3, wake_unblock. rewrite (task_field_upd g) by (intros; apply G1). rewrite HT.
    by apply (task_field_upd g). }
  assert ((cur_task k3).(t_cspace) = Some c /\ cur_array k = c) as [Hc3 Hca].
  { unfold cur_array. rewrite Hc. split; [|done]. unfold cur_task. change k3.(cur) with k2.(cur). rewrite C1.
    by rewrite (HG _ t_cspace). }
  assert (cur_size k3 = cur_size k) as Hz3.
  { unfold cur_size, cur_task, task_size. change k3.(cur) with k2.(cur). rewrite C1. by rewrite (HG _ t_cspace_size). }
  destruct (consume_slot_spec k3 CAPSLOT_REPLY c Hc3) as (D1 & D2 & D3); [rewrite Hz3; split; [by vm_compute|done]|].
  set (k4 := (cap_consume_slot k3 CAPSLOT_REPLY).2) in *. clearbody k4.
  constructor; unfold task_at; rewrite ?D1, ?Hca; fold (task_at k3); [| |done|].
  - change (zget task_zero k3.(tasks) t) with (task_at k3 t). unfold k3, wake_unblock. rewrite task_at_upd_self by (rewrite HM; lia).
    rewrite HT. unfold k1, set_frame_rax. rewrite task_at_upd_self by done. split_and!; try done. cbn. by rewrite EF.
  - intros x Hx. change (zget task_zero k3.(tasks) x) with (task_at k3 x). unfold k3, wake_unblock.
    rewrite task_at_upd_other, HT by done. by apply task_at_upd_other.
  - intros l Hl. rewrite D3 by done. exact (f_equal (fun m => cap_at m l) C2).
Qed.

(** The caller a reply capability in the current task's reply slot names. *)
Definition reply_target (k : kstate) : Z * Z :=
  let o := (cap_at k.(mem) (cur_array k, CAPSLOT_REPLY)).(object) in
  (Z.land o TCB_OBJ_TID_MASK, Z.shiftr o TCB_OBJ_TID_BITS).
(** Task [t] waits in a call; generation [g] of its slot. *)
Definition awaits_reply (k : kstate) (t g : Z) : Prop :=
  0 < t < g_max_tasks k /\ (task_at k t).(t_state) = TASK_BLOCKED_IPC
  /\ (task_at k t).(t_slot_gen) = g /\ (task_at k t).(t_ipc).(ip_recv_block) = 0.

Lemma reply_slot_lookup k p :
  0 < k.(cur) -> cap_lookup k CAPSLOT_REPLY CAP_REPLY CAP_RIGHT_WRITE = Some p ->
  p = (cur_array k, CAPSLOT_REPLY) /\ exists c, (cur_task k).(t_cspace) = Some c /\ CAPSLOT_REPLY < cur_size k.
Proof.
  intros H0 [[E1 _] [[Hs Hz]|(_ & Hz & _)] _ _ _]%cap_lookup_resolves; [|lia|by vm_compute].
  destruct p as [c i]. simpl in *. subst i. unfold cur_array. rewrite Hs. split; [done|]. by exists c.
Qed.

(** The four outcomes of a plain reply. *)
Lemma reply_to_cases k rbx rdx u :
  ipc_inv k -> 0 < k.(cur) ->
  let r := h_ipc_reply_to k rbx rdx u in
  let '(t, g) := reply_target k in
  (r.1.1 <> 0 /\ r.2 = k)
  \/ (exists c, (cur_task k).(t_cspace) = Some c /\ CAPSLOT_REPLY < cur_size k /\
      (r = (0, [], (cap_consume_slot k CAPSLOT_REPLY).2)
       \/ awaits_reply k t g /\ r = reply_deliver k t (from_user u (sent_len rdx)))).
Proof.
  intros HI H0. unfold h_ipc_reply_to, ipc_reply_common, reply_target. cbv zeta. rewrite sent_len_min.
  destruct (ipc_ep_from_slot _ _ _) as [ep|]; [|left; split; [vm_compute; discriminate|done]].
  destruct (cap_lookup _ _ _ _) as [l|] eqn:EL; [|left; split; [vm_compute; discriminate|done]].
  destruct (reply_slot_lookup k l H0 EL) as (-> & c & Hc & Hz).
  set (o := (cap_at k.(mem) (cur_array k, CAPSLOT_REPLY)).(object)). set (t := Z.land o _). set (g := Z.shiftr o _).
  destruct (_ || negb _) eqn:ED; [right; exists c; auto|]. apply orb_false_iff in ED as [ED EG%negb_false_iff%Z.eqb_eq].
  apply orb_false_iff in ED as [ED _]. apply orb_false_iff in ED as [Ea%Z.leb_gt Eb%Z.leb_gt].
  destruct (negb (_ =? TASK_BLOCKED_IPC) || _) eqn:EB.
  { destruct (_ && _); [left; split; [vm_compute; discriminate|done]|right; exists c; auto]. }
  apply orb_false_iff in EB as [E1%negb_false_iff%Z.eqb_eq E2%negb_false_iff%Z.eqb_eq].
  destruct (_ && _); [left; split; [vm_compute; discriminate|done]|].
  right. exists c. split_and!; [done..|]. right. done.
Qed.

Lemma reply_refused k rbx rdx u :
  0 < k.(cur) -> (cap_at k.(mem) (cur_array k, CAPSLOT_REPLY)).(ctype) = CAP_NULL ->
  h_ipc_reply_to k rbx rdx u = (rax32 SYS_ERR_PERM, [], k).
Proof.
  intros H0 Hn. unfold h_ipc_reply_to, ipc_reply_common. destruct (ipc_ep_from_slot _ _ _); [|done]. cbv zeta.
  destruct (cap_lookup _ _ _ _) as [l|] eqn:EL; [|done]. destruct (reply_slot_lookup k l H0 EL) as (-> & _).
  apply cap_lookup_resolves in EL; [|by vm_compute]. by destruct (rv_live _ _ _ _ _ EL).
Qed.
Lemma cur_consume k s : (cap_consume_slot k s).2.(cur) = k.(cur).
Proof. unfold cap_consume_slot. repeat case_match; done. Qed.
Lemma cur_deliver k t b : (reply_deliver k t b).2.(cur) = k.(cur).
Proof.
  unfold reply_deliver. case_match; [|done]. cbv zeta. cbn [snd]. rewrite cur_consume. unfold wake_unblock.
  cbn [cur upd_task set_task set_tasks]. case_match; [|done]. case_match; [|done]. by rewrite cur_put.
Qed.

(** C24: a reply is one-shot and reaches only the caller it is for.  A SYS_IPC_REPLY_TO
    that fails changes nothing.  One that succeeds spends the reply capability,
    so that another reply is refused with SYS_ERR_PERM; and it changes at most one
    task: the one named by the capability, if the generation still matches and
    it still waits in its call. *)
Theorem reply_one_shot k rbx rdx u :
  reachable k -> 0 < k.(cur) -> caller_runs k = true ->
  let k' := (h_ipc_reply_to k rbx rdx u).2 in
  ((h_ipc_reply_to k rbx rdx u).1.1 <> 0 -> k' = k)
  /\ ((h_ipc_reply_to k rbx rdx u).1.1 = 0 ->
      (forall rbx' rdx' u', h_ipc_reply_to k' rbx' rdx' u' = (rax32 SYS_ERR_PERM, [], k'))
      /\ (forall t, task_at k' t <> task_at k t -> t = (reply_target k).1 /\ awaits_reply k t (reply_target k).2)).
Proof.
  intros HI%reachable_ipc_inv H0 Hc%caller_awake k'. pose proof (reply_to_cases k rbx rdx u HI H0) as HC.
  cbv zeta in HC. destruct (reply_target k) as [t g]. cbn [fst snd].
  assert (forall k1, k1.(cur) = k.(cur) -> (cur_task k1).(t_cspace) = (cur_task k).(t_cspace) -> cur_array k1 = cur_array k) as HA.
  { intros k1 _ E. unfold cur_array. by rewrite E. }
  destruct HC as [[Hr Hk]|(c & Hcs & Hz & HC)]; [done|]. destruct HC as [HC|[Hw HC]]; unfold k'; rewrite HC; cbn [fst snd].
  - destruct (consume_slot_spec k CAPSLOT_REPLY c Hcs) as (D1 & D2 & _); [split; [by vm_compute|done]|].
    split; [done|]. intros _. split; [|intros x Hx; exfalso; apply Hx; unfold task_at; by rewrite D1].
    intros. assert (cur_array (cap_consume_slot k CAPSLOT_REPLY).2 = c) as Hca.
    { rewrite HA; [unfold cur_array; by rewrite Hcs|apply cur_consume|]. unfold cur_task, task_at. by rewrite D1, cur_consume. }
    apply reply_refused; [by rewrite cur_consume|by rewrite Hca].
  - destruct Hw as (Hr & Hst & Hg & Hrb).
    assert (t <> k.(cur)) as Hne by (intros ->; rewrite Hc in Hst; discriminate).
    destruct (reply_deliver_spec k t c (from_user u (sent_len rdx))) as [E1 [_ R2 R3 _]]; [|lia|done|done|].
    { apply (ii_frame _ HI). by left. }
    rewrite E1. split; [done|]. intros _. split.
    + intros. assert (cur_array (reply_deliver k t (from_user u (sent_len rdx))).2 = cur_array k) as Hca.
      { apply HA; [apply cur_deliver|]. unfold cur_task. rewrite cur_deliver. by rewrite R2. }
      apply reply_refused; [by rewrite cur_deliver|by rewrite Hca].
    + intros x Hx. destruct (decide (x = t)) as [->|]; [done|]. exfalso. by apply Hx, R2.
Qed.

(** ** A call and its reply *)

(** The state after the calling task [c] has gone to sleep on its reply endpoint. *)
Record slept (k k' : kstate) (c : Z) : Prop := {
  sl_cur : k'.(cur) = k.(cur);
  sl_max : g_max_tasks k' = g_max_tasks k;
  sl_mem : k'.(mem) = k.(mem);
  sl_others : forall t, t <> c -> task_at k' t = task_at k t;
  sl_task : (task_at k' c).(t_state) = TASK_BLOCKED_IPC /\ (task_at k' c).(t_slot_gen) = (task_at k c).(t_slot_gen)
            /\ (task_at k' c).(t_ipc).(ip_recv_block) = (task_at k c).(t_ipc).(ip_recv_block)
            /\ (task_at k' c).(t_ipc).(ip_reply_buf) = (task_at k c).(t_ipc).(ip_reply_buf)
            /\ (task_at k' c).(t_ipc).(ip_frame) <> None;
  sl_eps : forall i, 0 <= i -> endpoint_by_index k i <> None -> endpoint_by_index k' i <> None
}.

Lemma exit_sleeps k rax rbx e :
  let c := k.(cur) in let rp := (task_at k c).(t_blocked_on) in
  ipc_inv k -> 0 < c < g_max_tasks k -> (task_at k c).(t_ipc).(ip_pending_block) = TASK_BLOCKED_IPC ->
  endpoint_or_none k rp = Some e -> ep_empty e = true ->
  (syscall_exit k rax rbx).1 = [] /\ slept k (syscall_exit k rax rbx).2 c.
Proof.
  intros c rp HI Hc Hp He Hemp. unfold syscall_exit, syscall_exit_blocks. fold c.
  rewrite (proj2 (Z.ltb_lt 0 c)), (proj2 (Z.ltb_lt c _)), Hp by lia. cbn [andb].
  change (negb (TASK_BLOCKED_IPC =? 0)) with true. cbn [orb]. unfold ipc_block_switch.
  rewrite (proj2 (Z.leb_gt c 0)), (proj2 (Z.leb_gt _ c)) by lia. cbn [orb]. cbv zeta.
  set (k1 := upd_task k c _). assert (task_at k1 c = t_set_frame (task_at k c) (Some (rax, rbx))) as T1
    by (apply task_at_upd_self; lia).
  rewrite T1. cbn [t_ipc t_set_frame t_set_ipc ip_pending_block]. rewrite Hp.
  change (negb (TASK_BLOCKED_IPC =? 0)) with true. cbv iota. unfold ipc_publish_pending_block.
  assert (g_max_tasks k1 = g_max_tasks k) as M1 by apply g_max_upd. rewrite M1.
  rewrite (proj2 (Z.leb_gt c 0)), (proj2 (Z.leb_gt _ c)) by lia. cbn [orb]. cbv zeta. rewrite T1.
  cbn [t_ipc t_set_frame t_set_ipc ip_pending_block ip_frame]. rewrite Hp.
  change (TASK_BLOCKED_IPC =? 0) with false. rewrite Z.eqb_refl. cbv iota. unfold publish_ipc. rewrite T1.
  cbn [t_blocked_on t_set_frame t_set_ipc]. fold rp.
  assert (endpoint_or_none k1 rp = Some e) as -> by exact He. cbv zeta. rewrite Hemp. cbn [negb fst snd].
  set (k2 := upd_ipc k1 c _). assert (task_at k2 c = t_set_ipc (task_at k1 c) (ip_set_pending (task_at k1 c).(t_ipc) 0)) as T2
    by (apply task_at_upd_self; lia).
  set (k3 := put_endpoint k2 _ _). split; [done|].
  assert (g_max_tasks k3 = g_max_tasks k) as M3 by (unfold k3; rewrite g_max_put; unfold k2, upd_ipc; by rewrite g_max_upd).
  constructor.
  - cbn [cur upd_task set_task set_tasks]. unfold k3. by rewrite cur_put.
  - by rewrite g_max_upd.
  - cbn [mem upd_task set_task set_tasks]. unfold k3. by rewrite mem_put.
  - intros t Ht. rewrite task_at_upd_other by done. unfold k3. rewrite task_at_put_endpoint.
    unfold k2, upd_ipc, k1. by rewrite !task_at_upd_other.
  - rewrite task_at_upd_self by lia. unfold k3. rewrite task_at_put_endpoint, T2, T1. done.
  - intros i Hi Hn. rewrite (endpoint_same k3) by done. unfold k3. rewrite endpoint_put; [|apply u32_nonneg|done|apply HI].
    rewrite (endpoint_same k) by done. case_decide; [|done]. by destruct (endpoint_by_index k i).
Qed.

Lemma reply_to_delivers k rbx rdx u ep t g :
  0 < k.(cur) -> ipc_ep_from_slot k (u32 rbx) CAP_RIGHT_READ = Some ep ->
  resolves k CAPSLOT_REPLY CAP_REPLY CAP_RIGHT_WRITE (cur_array k, CAPSLOT_REPLY) ->
  reply_target k = (t, g) -> awaits_reply k t g -> u.(ue_in) = true ->
  h_ipc_reply_to k rbx rdx u = reply_deliver k t (from_user u (sent_len rdx)).
Proof.
  intros H0 Hep HR HT (Hr & Hst & Hg & Hrb) Hin. unfold h_ipc_reply_to, ipc_reply_common. rewrite Hep. cbv zeta.
  apply cap_lookup_resolves in HR; [|by vm_compute]. rewrite HR, sent_len_min.
  unfold reply_target in HT. injection HT as -> ->. rewrite Hst, Hg, Hrb, Hin, !Z.eqb_refl, andb_false_r.
  by rewrite (proj2 (Z.leb_gt t 0)), (proj2 (Z.leb_gt _ t)) by lia.
Qed.
Lemma room_slot k w s :
  reply_room k w s = true -> 0 < w /\ exists c, (task_at k w).(t_cspace) = Some c /\ CAPSLOT_REPLY < task_size (task_at k w).
Proof.
  unfold reply_room, cap_install_reply_for, cap_alloc_fresh_serial. destruct (_ || _) eqn:E; [done|].
  apply orb_false_iff in E as [Hw%Z.leb_gt _]. destruct (_ || _); [done|]. destruct (rust_cap_alloc_serial _) as [ser ns].
  destruct (ser =? 0); [done|]. change (task_at (set_serial k ns) w) with (task_at k w).
  destruct (t_cspace _) as [c|]; [|done]. destruct (Z.leb_spec (task_size (task_at k w)) CAPSLOT_REPLY); [done|]. eauto.
Qed.

(** A server sleeps in a blocking receive on [ep], which the current task may
    call through slot [rbx] and the server may answer through slot [rs]; the
    caller's private reply endpoint is idle. *)
Record rpc_ready (k : kstate) (rbx ep : Z) (inv : ipc_invoker) (e : endpoint) (rs : Z) : Prop := {
  rr_reach : reachable k;
  rr_runs : caller_runs k = true;
  rr_cur : 0 < k.(cur) < g_max_tasks k;
  rr_check : exists ser, ipc_call_check k (u32 rbx) IPC_NO_CAP IPC_NO_CAP = inr (ep, inv, ser);
  rr_ep : endpoint_by_index k ep = Some e;
  rr_awaited : awaited k e = true;
  rr_recv : (task_at k e.(ep_blocked_waiter)).(t_ipc).(ip_recv_block) <> 0;
  rr_room : reply_room k e.(ep_blocked_waiter) k.(cur) = true;
  rr_slot : slot_ok k.(mem) (reply_slot k e.(ep_blocked_waiter));
  rr_reply : exists re, endpoint_or_none k (reply_ep_for_task k.(cur)) = Some re /\ ep_abs re = []
             /\ u32 (reply_ep_for_task k.(cur)) <> ep;
  rr_gen : 0 <= (task_at k k.(cur)).(t_slot_gen) < 2 ^ 48 /\ g_max_tasks k <= 2 ^ 16;
  rr_fresh : (task_at k k.(cur)).(t_ipc).(ip_recv_block) = 0;
  rr_serve : ipc_ep_from_slot (set_cur k e.(ep_blocked_waiter)) (u32 rs) CAP_RIGHT_READ = Some ep;
  rr_serve_slot : u32 rs <> CAPSLOT_REPLY
}.
Definition buffered (t buf : Z) (bytes : list Z) : list ucopy :=
  if bool_decide (bytes <> []) && negb (buf =? 0) then [mk_copy t buf bytes] else [].

Section rpc.
Context (k : kstate) (rbx ep : Z) (inv : ipc_invoker) (e : endpoint) (rs rsi rdi : Z) (u : uenv).
Context (HR : rpc_ready k rbx ep inv e rs) (Hu : u.(ue_in) = true).
Let c := k.(cur).
Let w := e.(ep_blocked_waiter).
Let n := recv_len k w (sent_len rsi).
Let k1 := (h_ipc_call k rbx rsi rdi u).2.

Lemma rpc_inv : ipc_inv k.
Proof using HR. by apply reachable_ipc_inv, HR. Qed.
Lemma rpc_server : 0 < w < g_max_tasks k /\ w <> c.
Proof using HR.
  destruct (awaited_waiter k e (rr_awaited _ _ _ _ _ _ HR)) as (Hw & Hst & _). split; [done|].
  pose proof (caller_awake k (rr_runs _ _ _ _ _ _ HR)) as Hc. intros Heq. unfold w, c in Heq. rewrite Heq, Hc in Hst. discriminate.
Qed.
(** The call's own record of what it waits for, then the hand-over. *)
Lemma rpc_call :
  (h_ipc_call k rbx rsi rdi u).1 = (0, reply_copy k w (from_user u n))
  /\ exists k0, handed k0 k1 ep w (u32 n) inv /\ k0.(cur) = c /\ g_max_tasks k0 = g_max_tasks k /\ k0.(mem) = k.(mem)
     /\ (forall i, endpoint_by_index k0 i = endpoint_by_index k i)
     /\ (forall t, t <> c -> task_at k0 t = task_at k t)
     /\ exists ser, task_at k0 c = t_set_blocked_on (t_set_ipc (task_at k c)
          (ip_set_pending (ip_set_reply_buf (ip_set_mint (task_at k c).(t_ipc) IPC_NO_CAP (u32 rbx) ser) (u64 rdi)) TASK_BLOCKED_IPC))
          (reply_ep_for_task c).
Proof using HR Hu.
  pose proof rpc_inv as HI. pose proof rpc_server as [Hw Hne]. destruct HR as [_ Rr Rc [ser Rk] Re Ra Rv Rm _ _ _ _ _ _].
  assert (0 <= ep) as H0. { unfold ipc_call_check, ipc_ep_and_invoker in Rk. repeat case_match; simplify_eq; apply u32_nonneg. }
  pose proof (caller_awake k Rr) as Hca. fold c in Hca. unfold k1, h_ipc_call, ipc_call_common. rewrite Rk. cbv zeta. fold c.
  set (k0 := upd_task k c _).
  assert (ipc_inv k0) as HI0.
  { eapply ipc_inv_calm; [|exact HI]. apply calm_upd_task, calm_awake; cbn; by rewrite Hca. }
  assert (forall t, t <> c -> task_at k0 t = task_at k t) as HT by (intros; by apply task_at_upd_other).
  assert (g_max_tasks k0 = g_max_tasks k) as HM by apply g_max_upd.
  assert (awaited k0 e = true) as Ha0 by (unfold awaited in *; cbv zeta in *; fold w; rewrite HT, HM; done).
  assert (recv_len k0 w (sent_len rsi) = n) as Hn by (unfold n, recv_len; by rewrite HT).
  assert (reply_room k0 w k0.(cur) = true) as Hroom.
  { rewrite <- Rm. unfold reply_room. fold w. apply install_reply_room; try done; by rewrite HT. }
  rewrite (sys_ipc_send_awaited k0 ep e inv u rsi) by done.
  rewrite (send_to_waiter_eq k0 HI0 ep e inv u (sent_len rsi)); try done; [|fold w; by rewrite HT].
  fold w. rewrite Hn. cbn [Z.ltb Z.compare fst snd]. split; [unfold reply_copy; by rewrite HT|].
  exists k0. pose proof (handed_ok k0 HI0 ep e inv (sent_len rsi) H0 Re Ha0 Hroom) as HH. fold w in HH. rewrite Hn in HH.
  split; [exact HH|]. split_and!; try done. exists ser. by apply task_at_upd_self; unfold c; lia.
Qed.

(** The caller asleep, the server about to answer. *)
Lemma rpc_asleep rax rbx' :
  let k3 := set_cur (syscall_exit k1 rax rbx').2 w in
  (task_at k1 w).(t_state) = TASK_RUNNABLE
  /\ awaits_reply k3 c (task_at k c).(t_slot_gen)
  /\ (task_at k3 c).(t_ipc).(ip_reply_buf) = u64 rdi /\ (task_at k3 c).(t_ipc).(ip_frame) <> None
  /\ ipc_ep_from_slot k3 (u32 rs) CAP_RIGHT_READ = Some ep
  /\ resolves k3 CAPSLOT_REPLY CAP_REPLY CAP_RIGHT_WRITE (cur_array k3, CAPSLOT_REPLY)
  /\ reply_target k3 = (c, (task_at k c).(t_slot_gen)).
Proof using HR Hu.
  intros k3. destruct rpc_call as (_ & k0 & [D1 D2 D3 D4 D5 D6 D7 D8 D9] & C1 & C2 & C3 & C4 & C5 & ser & C6).
  pose proof rpc_inv as HI. pose proof rpc_server as [Hw Hne].
  assert (ipc_inv k1) as HI1 by exact (ipc_run_inv (ICall rbx rsi rdi u) k HI (or_introl (rr_runs _ _ _ _ _ _ HR))).
  destruct HR as [_ _ Rc _ Re _ _ Rm Rs (re & Rre & Remp & Rne) [Rg Rt] Rf Rv Rvs].
  rewrite C1 in *. rewrite C6 in D8. rewrite C3 in D8, D9. rewrite C5 in D5 by done. fold c in Rc, Rre, Rne, Rg, Rf. fold w in Rm, Rs, Rv.
  assert (task_at k1 c = task_at k0 c) as T1 by (apply D3; done). rewrite C6 in T1.
  assert (endpoint_or_none k1 (task_at k1 c).(t_blocked_on) = Some re) as He1.
  { rewrite T1. cbn [t_blocked_on t_set_blocked_on]. unfold endpoint_or_none in *. destruct (_ <? 0); [done|].
    rewrite D7; [by rewrite C4|apply u32_nonneg|done]. }
  assert (ep_wf re) as Hwre.
  { unfold endpoint_or_none in Rre. destruct (_ <? 0); [done|]. eapply ii_ep_wf; [exact HI|apply u32_nonneg|exact Rre]. }
  pose proof (exit_sleeps k1 rax rbx' re) as HS. cbv zeta in HS. rewrite D1 in HS.
  destruct HS as [_ [S1 S2 S3 S4 (Sa & Sb & Sc & Sd & Se) S6]]; [done|rewrite D2, C2; exact Rc|by rewrite T1|done|by apply ep_empty_abs|].
  set (k2 := (syscall_exit k1 rax rbx').2) in *. rewrite T1 in Sb, Sc, Sd.
  assert (task_at k2 w = task_at k1 w) as T2 by (apply S4; done). destruct D5 as (Da & Db & _).
  assert (reply_slot k0 w = reply_slot k w) as HSl by (unfold reply_slot; by rewrite C5).
  rewrite HSl in D8, D9. destruct (room_slot k w c Rm) as (_ & cw & Hcw & Hsz).
  assert (reply_slot k w = (cw, CAPSLOT_REPLY)) as HSw by (unfold reply_slot; by rewrite Hcw). rewrite HSw in D8, D9, Rs.
  destruct (D8 Rs) as (sr & Hsr & Hcap).
  assert (cur_task k3 = task_at k1 w) as HK3 by exact T2.
  assert (cur_array k3 = cw) as Hca by (unfold cur_array; by rewrite HK3, Da, Hcw).
  assert (cap_at k3.(mem) (cw, CAPSLOT_REPLY) = cap_at k1.(mem) (cw, CAPSLOT_REPLY)) as Hm3 by (unfold k3; cbn [mem set_cur]; by rewrite S3).
  split; [apply D4|]. unfold awaits_reply. change (task_at k3 c) with (task_at k2 c). split; [|split; [by rewrite Sd|split; [done|]]].
  { split; [change (g_max_tasks k3) with (g_max_tasks k2); rewrite S2, D2, C2; exact Rc|]. split_and!; [done|by rewrite Sb|by rewrite Sc]. }
  split; [|rewrite Hca; split].
  - apply (ep_from_slot_frame (set_cur k w)); [apply u32_nonneg|exact Rv| |done|by rewrite HK3, Da|by rewrite HK3, Db|].
    + change (endpoint_by_index k3 ep) with (endpoint_by_index k2 ep). apply S6; [by eapply ep_from_slot_nonneg|].
      destruct D6 as (e1 & -> & _). done.
    + intros cs. unfold k3. cbn [mem set_cur]. rewrite S3. apply D9. intros [= _ E]. done.
  - constructor; rewrite ?Hm3, ?Hcap; try done.
    + left. rewrite HK3, Da. split; [done|]. unfold cur_size, task_size. rewrite HK3, Db. exact Hsz.
    + by right.
  - unfold reply_target. rewrite Hca, Hm3, Hcap. cbn [object t_slot_gen t_set_blocked_on t_set_ipc].
    destruct (reply_object_split c (task_at k c).(t_slot_gen)) as [-> ->]; [lia|done|done].
Qed.
End rpc.

(** C11: a call to a waiting server completes.  Let a task call an endpoint on
    which a server sleeps in a blocking receive, the server having room for a reply
    capability, the caller's reply endpoint being another one and holding no message,
    the caller not being marked as a receiver, its slot generation below 2^48 in a
    table of at most 2^16 slots, both buffers being readable, and the server holding the
    endpoint readable in a slot other than the reply slot.  Then the server gets the
    request and runs, the caller sleeps, and the reply the server makes next reaches
    the caller: the caller runs again, with the reply in its buffer and its length in
    rax. *)
Theorem rpc_completes k rbx ep inv e rs rsi rdi u rax rbx' rdx u' :
  rpc_ready k rbx ep inv e rs -> u.(ue_in) = true -> u'.(ue_in) = true ->
  let c := k.(cur) in let w := e.(ep_blocked_waiter) in
  let k1 := (h_ipc_call k rbx rsi rdi u).2 in
  let k2 := (syscall_exit k1 rax rbx').2 in
  let r := h_ipc_reply_to (set_cur k2 w) rs rdx u' in
  (h_ipc_call k rbx rsi rdi u).1 = (0, reply_copy k w (from_user u (recv_len k w (sent_len rsi))))
  /\ (task_at k1 w).(t_state) = TASK_RUNNABLE /\ (task_at k2 c).(t_state) = TASK_BLOCKED_IPC
  /\ r.1 = (0, buffered c (u64 rdi) (from_user u' (sent_len rdx)))
  /\ (task_at r.2 c).(t_state) = TASK_RUNNABLE
  /\ fst <$> (task_at r.2 c).(t_ipc).(ip_frame) = Some (sent_len rdx).
Proof.
  intros HR Hu Hu' c w k1 k2 r. destruct (rpc_call k rbx ep inv e rs rsi rdi u HR Hu) as [HC _].
  destruct (rpc_asleep k rbx ep inv e rs rsi rdi u HR Hu rax rbx') as (A1 & A2 & A3 & A4 & A5 & A6 & A7).
  fold k1 in A1, A2, A3, A4, A5, A6, A7. fold k2 c w in A1, A2, A3, A4, A5, A6, A7. destruct (rpc_server k rbx ep inv e rs HR) as [Hw _]. fold w in Hw.
  split; [exact HC|]. split; [exact A1|]. split; [exact (proj1 (proj2 A2))|].
  pose proof (reply_to_delivers (set_cur k2 w) rs rdx u' ep c _ (proj1 Hw) A5 A6 A7 A2 Hu') as HRp. fold r in HRp.
  destruct (reply_slot_lookup (set_cur k2 w) (cur_array (set_cur k2 w), CAPSLOT_REPLY) (proj1 Hw)) as (_ & cw & Hcw & Hsz);
    [by apply cap_lookup_resolves; [vm_compute|]|].
  destruct A2 as (Hc & _). destruct (reply_deliver_spec (set_cur k2 w) c cw (from_user u' (sent_len rdx)) A4) as [E1 [(P1 & _ & P3) _ _ _]];
    [lia|done|done|]. rewrite HRp.
  pose proof (sent_len_range rdx) as Hl. rewrite zlen_from_user, u32_id in P3 by (unfold IPC_MSG_MAX, U32_MAX in *; lia).
  split; [|by split]. rewrite E1. unfold reply_copy. by rewrite A3.
Qed.
Definition calling_ep : endpoint := default ep_fresh (endpoint_by_index calling FS_EP_REQ).
Lemma rpc_completes_witness :
  let k2 := (syscall_exit (h_ipc_call calling 10 5 0x600000 user_mem).2 0 0).2 in
  (task_at k2 2).(t_state) = TASK_BLOCKED_IPC
  /\ (h_ipc_reply_to (set_cur k2 1) 10 3 user_mem).1 = (0, [mk_copy 2 0x600000 [1; 8; 15]])
  /\ (task_at (h_ipc_reply_to (set_cur k2 1) 10 3 user_mem).2 2).(t_state) = TASK_RUNNABLE.
Proof.
  assert (rpc_ready calling 10 FS_EP_REQ calling_inv calling_ep 10) as HR.
  { constructor.
    - exact (reachable_run _ _ waiting_reachable).
    - vm_compute. reflexivity.
    - split; vm_compute; reflexivity.
    - exists 4294967307. vm_compute. reflexivity.
    - vm_compute. reflexivity.
    - vm_compute. reflexivity.
    - vm_compute. discriminate.
    - vm_compute. reflexivity.
    - split; vm_compute; [discriminate|reflexivity].
    - exists (default ep_fresh (endpoint_by_index calling (reply_ep_for_task 2))).
      split; [vm_compute; reflexivity|]. split; [vm_compute; reflexivity|vm_compute; discriminate].
    - split; [split|]; vm_compute; first [reflexivity|discriminate].
    - vm_compute. reflexivity.
    - vm_compute. reflexivity.
    - vm_compute. discriminate. }
  pose proof (rpc_completes calling 10 FS_EP_REQ calling_inv calling_ep 10 5 0x600000 user_mem 0 0 3 user_mem HR eq_refl eq_refl) as H.
  cbv zeta in H |- *. assert (calling.(cur) = 2) as Ec by (vm_compute; reflexivity).
  assert (calling_ep.(ep_blocked_waiter) = 1) as Ew by (vm_compute; reflexivity). rewrite Ec, Ew in H.
  destruct H as (_ & _ & H1 & H2 & H3 & _). split; [exact H1|]. split; [|exact H3]. rewrite H2. vm_compute. reflexivity.
Defined.
(** The server awake with the request, task 2 waiting for the answer. *)
Definition answering : kstate :=
  kexec [OIpc (ICall 10 5 0x600000 user_mem); OIpc (ISyscallExit 0 0); OSwitch 1] calling.
Lemma reply_one_shot_witness :
  h_ipc_reply_to (h_ipc_reply_to answering 10 3 user_mem).2 10 3 user_mem
  = (rax32 SYS_ERR_PERM, [], (h_ipc_reply_to answering 10 3 user_mem).2).
Proof.
  refine (proj1 (proj2 (reply_one_shot answering 10 3 user_mem _ _ _) _) 10 3 user_mem).
  - apply reachable_run, reachable_run, waiting_reachable.
  - vm_compute. reflexivity.
  - vm_compute. reflexivity.
  - vm_compute. reflexivity.
Defined.

(** ** The loop of the blocking receive *)

(** Going round again takes a message off the queue. *)
Lemma recv_again_shrinks k ep e u msg max :
  ipc_inv k -> 0 <= ep -> endpoint_by_index k ep = Some e -> ep_empty e = false ->
  (sys_ipc_recv k ep u msg max).1.1 = -2 ->
  exists e', endpoint_by_index (sys_ipc_recv k ep u msg max).2 ep = Some e' /\ e'.(ep_count) = e.(ep_count) - 1.
Proof.
  intros HI H0 He EE. pose proof (ii_ep_wf _ HI _ _ H0 He) as Hw. unfold sys_ipc_recv. rewrite He. cbv zeta.
  rewrite EE, auth_fresh. pose proof (ep_dequeue_count e (s32 max) Hw EE) as HC.
  destruct (ep_dequeue e (s32 max)) as [d e1]. cbn [snd] in HC. destruct ((0 <? _) && _); [done|]. cbn [fst snd]. intros _.
  exists (ep_set_last e1 d.(dq_sender) d.(dq_sender_gen) d.(dq_inv)). split; [|exact HC]. set (k1 := put_endpoint k ep _).
  assert (endpoint_by_index k1 ep = Some (ep_set_last e1 d.(dq_sender) d.(dq_sender_gen) d.(dq_inv))) as H1.
  { unfold k1. rewrite endpoint_put; [|done|done|apply HI]. by rewrite decide_True, He. }
  destruct ((0 <? d.(dq_sender)) && _); [|exact H1].
  destruct (install_object_eps k1 CAPSLOT_REPLY (reply_object d.(dq_sender) d.(dq_sender_gen)) CAP_RIGHT_WRITE 0) as [Ea Eb].
  by rewrite (endpoint_same k1).
Qed.
Lemma recv_loop_total fuel k ep e rcx rdx u acc :
  ipc_inv k -> 0 <= ep -> endpoint_by_index k ep = Some e -> e.(ep_count) < Z.of_nat fuel ->
  exists r, recv_block_loop fuel k ep rcx rdx u acc = Some r.
Proof.
  revert k e acc. induction fuel as [|n IH]; intros k e acc HI H0 He Hf.
  { pose proof (ew_count _ (ii_ep_wf _ HI _ _ H0 He)). lia. }
  cbn [recv_block_loop]. rewrite He. destruct (ep_empty e) eqn:EE; cbn [negb]; [eauto|].
  pose proof (recv_again_shrinks k ep e u (u64 rcx) rdx HI H0 He EE) as HS.
  pose proof (sys_ipc_recv_inv k HI ep u (u64 rcx) rdx H0) as HI'.
  destruct (sys_ipc_recv k ep u (u64 rcx) rdx) as [[rc cs] k']. cbn [fst snd] in *.
  destruct (Z.eqb_spec rc (-2)) as [E|]; [|eauto]. destruct (HS E) as (e' & He' & Hc). eapply IH; [done..|lia].
Qed.

(** C37: the loop of SYS_IPC_RECV_BLOCK ends: in every reachable state the call
    returns, within one round per queued message and one more, four messages
    being the most an endpoint queues. *)
Theorem recv_block_terminates k rbx rcx rdx u :
  reachable k -> exists r, h_ipc_recv_block k rbx rcx rdx u = Some r.
Proof.
  intros HI%reachable_ipc_inv. unfold h_ipc_recv_block. destruct (ipc_ep_from_slot _ _ _) as [ep|] eqn:E; [|eauto].
  destruct (_ || _); [eauto|]. pose proof (ep_from_slot_nonneg _ _ _ _ E) as H0.
  assert (exists e, endpoint_by_index k ep = Some e) as [e He].
  { unfold ipc_ep_from_slot in E. repeat case_match; simplify_eq. eauto. }
  eapply recv_loop_total; [done..|]. pose proof (ew_count _ (ii_ep_wf _ HI _ _ H0 He)).
  unfold EP_QUEUE_SLOTS, RECV_BLOCK_FUEL in *. lia.
Qed.
(** A limit of -2 takes every queued message and leaves the caller to block. *)
Definition two_sent : kstate := kexec [OIpc (ISend 10 5 user_mem); OIpc (ISend 10 6 user_mem)] pair.
Lemma recv_block_terminates_witness :
  exists r, h_ipc_recv_block two_sent 10 0x500000 (-2) user_mem = Some r
  /\ (ep_abs <$> endpoint_by_index two_sent FS_EP_REQ) <> Some []
  /\ (ep_abs <$> endpoint_by_index r.2 FS_EP_REQ) = Some [] /\ r.1 = (0, []).
Proof.
  destruct (recv_block_terminates two_sent 10 0x500000 (-2) user_mem (reachable_run _ _ pair_reachable)) as [r Hr].
  exists r. split; [exact Hr|]. split; [vm_compute; discriminate|].
  assert ((fun r => (ep_abs <$> endpoint_by_index r.2 FS_EP_REQ, r.1)) <$> h_ipc_recv_block two_sent 10 0x500000 (-2) user_mem
          = Some (Some [], (0, []))) as H by (vm_compute; reflexivity).
  rewrite Hr in H.
  split; [exact (f_equal (fun o => default None (fst <$> o)) H)|exact (f_equal (fun o => default (1, []) (snd <$> o)) H)].
Defined.
