(* ===== verification/TaskSpec.v ===== *)
(** What the task system calls promise: signal delivery and return, the bounds
    of the heap, and what the checks of the code let through. *)
From S2P Require Import Prelude KTypes CapCore CapRevoke Pipe SchedCtx KState Endpoint Untyped CSpace PipeSys Retype TaskLife CapSys Ipc TaskSys CapInv CapOps IpcOps Kernel Calm Security IpcInv Lifetime IpcSpec.

(** ** Signals *)
Definition deliverable (s : sig_state) : Z := clear_bits s.(sg_pending) s.(sg_mask).
Definition sigs_wf (s : sig_state) : Prop := 0 <= s.(sg_pending) <= U32_MAX.

Lemma testbit_clear x m i : 0 <= i < 32 -> Z.testbit (clear_bits x m) i = Z.testbit x i && negb (Z.testbit m i).
Proof.
  intros Hi. unfold clear_bits, u32, U32_MAX. rewrite Z.land_spec, Z.lxor_spec, Z.land_spec.
  change 0xFFFFFFFF with (Z.ones 32). change 4294967295 with (Z.ones 32).
  rewrite Z.ones_spec_low, andb_true_r, xorb_true_r by lia. done.
Qed.
Lemma clear_bits_range x m : 0 <= x <= U32_MAX -> 0 <= clear_bits x m < 2 ^ 32.
Proof.
  intros Hx. unfold clear_bits. split; [apply Z.land_nonneg; lia|].
  destruct (decide (Z.land x (Z.lxor (u32 m) U32_MAX) = 0)) as [->|Hn]; [lia|].
  apply Z.log2_lt_pow2; [assert (0 <= Z.land x (Z.lxor (u32 m) U32_MAX)) by (apply Z.land_nonneg; lia); lia|].
  eapply Z.le_lt_trans; [apply Z.log2_land; [lia|apply Z.lxor_nonneg; pose proof (u32_range m); unfold U32_MAX; lia]|].
  apply Z.min_lt_iff. left. destruct (decide (x = 0)) as [->|]; [done|]. apply Z.log2_lt_pow2; unfold U32_MAX in *; lia.
Qed.
(** A word with a bit set has a lowest one. *)
Lemma ctz32_spec x :
  0 <= x < 2 ^ 32 -> x <> 0 ->
  0 <= ctz32 x < 32 /\ Z.testbit x (ctz32 x) = true /\ forall j, 0 <= j < ctz32 x -> Z.testbit x j = false.
Proof.
  intros Hx Hn. unfold ctz32. destruct (find_index (Z.testbit x) 0 32) as [i|] eqn:E.
  - apply find_index_Some in E as (H1 & H2 & H3). cbn [default from_option id]. split; [lia|]. split; [done|].
    intros j Hj. apply H3. lia.
  - exfalso. apply Hn. apply Z.bits_inj'. intros j Hj. rewrite Z.bits_0.
    destruct (decide (j < 32)); [|by apply Z.testbit_false; [lia|]; rewrite Z.div_small; [|split; [lia|];
      eapply Z.lt_le_trans; [apply Hx|]; apply Z.pow_le_mono_r; lia]].
    apply (find_index_None _ _ _ E). lia.
Qed.

(** The task can be sent a signal now: it has a handler inside its image, is
    not inside it, and a signal is pending and unblocked. *)
Record can_deliver (k : kstate) (f : uframe) (c : Z) : Prop := {
  cd_task : 0 < c < g_max_tasks k;
  cd_ring : Z.land f.(uf_cs) 3 = 3;
  cd_idle : (task_at k c).(t_sig).(sg_in_signal) = 0;
  cd_handler : (task_at k c).(t_sig).(sg_handler) <> 0
    /\ rust_signal_handler_addr_ok (task_at k c).(t_sig).(sg_handler) (task_at k c).(t_image).(im_base) (task_at k c).(t_image).(im_end) = true;
  cd_word : sigs_wf (task_at k c).(t_sig);
  cd_some : deliverable (task_at k c).(t_sig) <> 0
}.
Lemma valid_task_true k c : 0 < c < g_max_tasks k -> valid_task k c = true.
Proof. intros. unfold valid_task. by rewrite (proj2 (Z.ltb_lt _ _)), (proj2 (Z.ltb_lt _ _)) by lia. Qed.
Lemma task_at_upd_sig k t f : 0 <= t < g_max_tasks k -> task_at (upd_sig k t f) t = t_set_sig (task_at k t) (f (task_at k t).(t_sig)).
Proof. intros. by apply task_at_upd_self. Qed.

Lemma deliver_spec k f c :
  can_deliver k f c ->
  let sig := ctz32 (deliverable (task_at k c).(t_sig)) in
  let r := deliver_pending_signal k f c in
  r.1.(uf_rip) = (task_at k c).(t_sig).(sg_handler) /\ r.1.(uf_cs) = f.(uf_cs) /\ r.1.(uf_rbx) = sig
  /\ r.2.(cur) = k.(cur) /\ g_max_tasks r.2 = g_max_tasks k
  /\ (forall t, t <> c -> task_at r.2 t = task_at k t)
  /\ exists os, task_at r.2 c = t_set_sig (task_at k c)
       (sg_set_pending (sg_enter (task_at k c).(t_sig) os f) (clear_bits (task_at k c).(t_sig).(sg_pending) (bit32 sig))).
Proof.
  intros [Hc Hr Hi [Hh Ho] _ Hd]. unfold deliver_pending_signal. rewrite (valid_task_true k c Hc). cbn [negb]. cbv zeta.
  fold (deliverable (task_at k c).(t_sig)). rewrite (proj2 (Z.eqb_neq _ 0) Hd), Hr. change (negb (3 =? 3)) with false. cbv iota.
  unfold try_deliver_fault_signal. rewrite (valid_task_true k c Hc), Hr, Hi. change (3 =? 0) with false. cbn [negb Z.eqb]. cbv zeta.
  rewrite (proj2 (Z.eqb_neq _ 0) Hh), Ho. cbn [negb orb fst snd uf_rip uf_cs uf_rbx].
  set (alt := negb _ && _). set (k1 := upd_sig k c _).
  assert (g_max_tasks k1 = g_max_tasks k) as HM by apply g_max_upd.
  split_and!; try done.
  - unfold upd_sig. rewrite g_max_upd. exact HM.
  - intros t Ht. unfold upd_sig. rewrite task_at_upd_other by done. by apply task_at_upd_other.
  - exists (if alt then 1 else (task_at k c).(t_sig).(sg_on_stack)). rewrite task_at_upd_sig by lia. unfold k1.
    by rewrite task_at_upd_sig by lia.
Qed.

(** C33: a signal is delivered and returned from exactly.  When a signal can be
    delivered, the task enters its handler in ring 3 with the lowest signal
    that is pending and not blocked, which stops being pending; SYS_SIGRETURN
    then puts the interrupted frame back whole and leaves the task as it was
    but for that signal and the alternate-stack flag, and no other task has
    changed. *)
Theorem signal_delivery_roundtrip k f c g :
  can_deliver k f c ->
  let s := (task_at k c).(t_sig) in
  let r := deliver_pending_signal k f c in
  let sig := r.1.(uf_rbx) in
  (0 <= sig < 32 /\ Z.testbit s.(sg_pending) sig = true /\ Z.testbit s.(sg_mask) sig = false
   /\ forall j, 0 <= j < sig -> Z.testbit s.(sg_pending) j = true -> Z.testbit s.(sg_mask) j = true)
  /\ r.1.(uf_rip) = s.(sg_handler) /\ r.1.(uf_cs) = f.(uf_cs)
  /\ exists k', sigreturn (set_cur r.2 c) g = Some (f, k')
     /\ task_at k' c = t_set_sig (task_at k c)
          (mk_sig s.(sg_handler) 0 (clear_bits s.(sg_pending) (bit32 sig)) s.(sg_mask) s.(sg_alt_sp) s.(sg_alt_size) 0 f)
     /\ forall t, t <> c -> task_at k' t = task_at k t.
Proof.
  intros Hd s r sig. destruct (deliver_spec k f c Hd) as (R1 & R2 & R3 & R4 & R5 & R6 & os & R7).
  fold r s in R1, R2, R3, R4, R5, R6, R7. fold sig in R3. destruct Hd as [Hc _ _ _ Hw Hn]. fold s in Hw, Hn.
  destruct (ctz32_spec (deliverable s) (clear_bits_range _ _ Hw) Hn) as (C1 & C2 & C3). rewrite <- R3 in C1, C2, C3.
  unfold deliverable in C2, C3. rewrite testbit_clear in C2 by done. apply andb_true_iff in C2 as [C2 C2'%negb_true_iff].
  split; [split_and!; try done; try apply C1|].
  { intros j Hj Hp. specialize (C3 j Hj). rewrite testbit_clear, Hp in C3 by lia. by destruct (Z.testbit _ j). }
  split; [done|]. split; [done|]. unfold sigreturn. cbn [cur set_cur].
  change (task_at (set_cur r.2 c) c) with (task_at r.2 c). rewrite R7.
  change (valid_task (set_cur r.2 c) c) with (valid_task r.2 c). rewrite valid_task_true by (rewrite R5; lia).
  eexists. split; [reflexivity|]. split.
  - rewrite task_at_upd_sig by (change (g_max_tasks (set_cur r.2 c)) with (g_max_tasks r.2); rewrite R5; lia).
    change (task_at (set_cur r.2 c) c) with (task_at r.2 c). rewrite R7, R3. done.
  - intros t Ht. unfold upd_sig. rewrite task_at_upd_other by done. by apply R6.
Qed.
(** Task 1 of the demonstration with a handler and the signals 3 and 5 pending,
    3 blocked. *)
Definition signalled : kstate :=
  upd_task demo 1 (fun t => t_set_sig (t_set_image t (mk_image 0x40000000 0x40010000 0 0 0 0 0 0 0 0 0))
    (mk_sig 0x40000100 0 40 8 0 0 0 uframe_zero)).
Definition user_frame : uframe := mk_uframe 0x40000777 0x1B 0x202 0x7000 1 2 3.
Lemma signal_delivery_roundtrip_witness :
  (deliver_pending_signal signalled user_frame 1).1.(uf_rbx) = 5
  /\ fst <$> sigreturn (set_cur (deliver_pending_signal signalled user_frame 1).2 1) user_frame = Some user_frame.
Proof.
  assert (can_deliver signalled user_frame 1) as Hd.
  { constructor; [split| | |split|split|]; vm_compute; first [reflexivity|discriminate]. }
  split; [vm_compute; reflexivity|].
  destruct (signal_delivery_roundtrip signalled user_frame 1 user_frame Hd) as (_ & _ & _ & k' & Hk & _).
  rewrite Hk. reflexivity.
Defined.

(** ** The heap *)

(** The break lies between the start of the heap and the reserved end, which
    lies within the heap's 64 MiB. *)
Record heap_ok (im : image_state) : Prop := {
  ho_start : 0 <= im.(im_heap_start) < 2 ^ 47;
  ho_current : im.(im_heap_start) <= im.(im_heap_current) <= im.(im_heap_end);
  ho_end : im.(im_heap_end) <= im.(im_heap_start) + USER_HEAP_MAX_SIZE
}.
Lemma heap_max_eq im : heap_ok im -> heap_max im = im.(im_heap_start) + USER_HEAP_MAX_SIZE.
Proof. intros [H _ _]. unfold heap_max, USER_HEAP_MAX_SIZE. rewrite u64_mod. apply Z.mod_small. lia. Qed.
Lemma page_up_range x : 0 <= x < 2 ^ 63 -> x <= page_up x < x + 4096.
Proof.
  intros Hx. unfold page_up. rewrite u64_mod, (Z.mod_small (x + 0xFFF)) by lia.
  replace 0xFFFFFFFFFFFFF000 with (Z.ldiff (Z.ones 64) (Z.ones 12)) by done.
  assert (Z.land (x + 0xFFF) (Z.ldiff (Z.ones 64) (Z.ones 12)) = Z.ldiff (x + 0xFFF) (Z.ones 12)) as ->.
  { apply Z.bits_inj'. intros i Hi. rewrite Z.land_spec, !Z.ldiff_spec. destruct (decide (i < 64)).
    - by rewrite Z.ones_spec_low by lia.
    - rewrite (Z.ones_spec_high 64), (Z.ones_spec_high 12), andb_false_l, andb_false_r by lia. symmetry. rewrite andb_true_r.
      apply Z.testbit_false; [lia|]. rewrite Z.div_small; [done|]. split; [lia|].
      apply Z.lt_le_trans with (2 ^ 64); [lia|]. apply Z.pow_le_mono_r; lia. }
  rewrite Z.ldiff_ones_r, Z.shiftl_mul_pow2, Z.shiftr_div_pow2 by lia. Z.div_mod_to_equations. lia.
Qed.
Lemma heap_round_range im x :
  heap_ok im -> im.(im_heap_start) <= x <= heap_max im -> x <= heap_round im x <= heap_max im.
Proof.
  intros Ho Hx. pose proof (heap_max_eq im Ho) as HM. destruct Ho as [Hs _ _].
  pose proof (page_up_range x ltac:(unfold USER_HEAP_MAX_SIZE in *; lia)) as HP. unfold heap_round. cbv zeta.
  destruct (Z.ltb_spec (page_up x) x); [lia|]. destruct (Z.ltb_spec (heap_max im) (page_up x)); lia.
Qed.

(** Moving the break of the current task within bounds. *)
Lemma heap_ok_set im b e :
  heap_ok im -> im.(im_heap_start) <= b <= e -> e <= heap_max im -> heap_ok (im_set_heap im b e).
Proof. intros Ho Hb He. pose proof (heap_max_eq im Ho) as HM. destruct Ho as [Hs _ _]. constructor; cbn; lia. Qed.

Section heap.
Context (k : kstate) (Hc : 0 <= k.(cur) < g_max_tasks k) (Ho : heap_ok (cur_task k).(t_image)).
Let im := (cur_task k).(t_image).

Lemma set_break_at b e :
  (cur_task (upd_task k k.(cur) (fun t => t_set_image t (im_set_heap t.(t_image) b e)))).(t_image) = im_set_heap im b e.
Proof using Hc. unfold cur_task. cbn [cur upd_task set_task set_tasks]. by rewrite task_at_upd_self. Qed.

Lemma sbrk_spec rbx :
  let '(r, k') := h_sbrk k rbx in
  heap_ok (cur_task k').(t_image)
  /\ ((r = U64_MAX /\ k' = k)
      \/ (r = im.(im_heap_current) /\ (cur_task k').(t_image).(im_heap_current) = r + s64 rbx))
  /\ forall t, t <> k.(cur) -> task_at k' t = task_at k t.
Proof using Hc Ho.
  unfold h_sbrk. cbv zeta. fold (cur_task k). fold im. destruct (Z.eqb_spec (s64 rbx) 0) as [E0|E0].
  { split; [done|]. split; [right; split; [done|]; fold im; lia|done]. }
  set (target := if 0 <? s64 rbx then _ else _).
  assert (target = None \/ target = Some (im.(im_heap_current) + s64 rbx)) as [->| ->]
    by (unfold target; repeat case_match; auto); [split; [done|]; split; [by left|done]|].
  set (new := im.(im_heap_current) + s64 rbx). destruct (_ || _) eqn:E; [split; [done|]; split; [by left|done]|].
  apply orb_false_iff in E as [E1%Z.ltb_ge E2%Z.ltb_ge]. pose proof (heap_max_eq im Ho) as HM.
  split; [|split; [right; split; [done|]|intros; by apply task_at_upd_other]]; rewrite set_break_at; [|done].
  destruct Ho as [H1 H2 H3]. fold im in H1, H2, H3.
  pose proof (heap_round_range im new Ho ltac:(fold im; lia)). apply heap_ok_set; [done|..]; fold im;
    destruct (Z.ltb_spec im.(im_heap_end) new); lia.
Qed.
Lemma brk_spec rbx :
  let '(r, k') := h_brk k rbx in
  heap_ok (cur_task k').(t_image) /\ r = (cur_task k').(t_image).(im_heap_current)
  /\ (r <> im.(im_heap_current) -> rbx <= r)
  /\ forall t, t <> k.(cur) -> task_at k' t = task_at k t.
Proof using Hc Ho.
  unfold h_brk. cbv zeta. fold (cur_task k). fold im. destruct (Z.eqb_spec rbx 0); [done|].
  destruct (_ || _) eqn:E; [done|]. apply orb_false_iff in E as [E1%Z.ltb_ge E2%Z.ltb_ge].
  pose proof (heap_round_range im rbx Ho ltac:(lia)) as Hr. rewrite set_break_at.
  split; [apply heap_ok_set; [done|lia|lia]|]. split; [done|]. split; [lia|]. intros. by apply task_at_upd_other.
Qed.
End heap.

(** The heap stays in its bounds.  Whatever SYS_SBRK and SYS_BRK are asked,
    overflowing increments included, the break stays between the start of the
    heap and its reserved end, and the end within 64 MiB of the start.  SYS_SBRK
    either fails with -1 and changes nothing, or returns the old break and moves
    it by exactly the increment; SYS_BRK returns the break it leaves, which is
    unchanged or at least the one asked for.  No other task changes. *)
Theorem heap_ops_bounded k rbx :
  0 <= k.(cur) < g_max_tasks k -> heap_ok (cur_task k).(t_image) ->
  let '(r, k1) := h_sbrk k rbx in let '(r', k2) := h_brk k rbx in
  (heap_ok (cur_task k1).(t_image)
   /\ ((r = U64_MAX /\ k1 = k)
       \/ (r = (cur_task k).(t_image).(im_heap_current) /\ (cur_task k1).(t_image).(im_heap_current) = r + s64 rbx)))
  /\ (heap_ok (cur_task k2).(t_image) /\ r' = (cur_task k2).(t_image).(im_heap_current)
      /\ (r' <> (cur_task k).(t_image).(im_heap_current) -> rbx <= r'))
  /\ forall t, t <> k.(cur) -> task_at k1 t = task_at k t /\ task_at k2 t = task_at k t.
Proof.
  intros Hc Ho. pose proof (sbrk_spec k Hc Ho rbx) as H1. pose proof (brk_spec k Hc Ho rbx) as H2.
  destruct (h_sbrk k rbx) as [r k1]. destruct (h_brk k rbx) as [r' k2].
  destruct H1 as (A1 & A2 & A3). destruct H2 as (B1 & B2 & B3 & B4). split_and!; try done. intros t Ht. split; [by apply A3|by apply B4].
Qed.
(** The demonstration's task 1 with a heap at 1 GiB, one page in use. *)
Definition with_heap : kstate :=
  upd_task demo 1 (fun t => t_set_image t (mk_image 0 0 0 0 0 0x40000000 0x40001000 0x40001000 0 0 0)).
Lemma heap_ops_bounded_witness :
  heap_ok (cur_task (h_sbrk with_heap 10).2).(t_image) /\ (h_sbrk with_heap 10).1 = 0x40001000
  /\ (h_brk with_heap 0x40001001).1 = 0x40002000 /\ (h_sbrk with_heap 0x7FFFFFFFFFFFFFFF).1 = U64_MAX.
Proof.
  assert (0 <= with_heap.(cur) < g_max_tasks with_heap) as Hc by (split; vm_compute; [discriminate|reflexivity]).
  assert (heap_ok (cur_task with_heap).(t_image)) as Ho.
  { constructor; [split|split|]; vm_compute; first [discriminate|reflexivity]. }
  pose proof (heap_ops_bounded with_heap 10 Hc Ho) as H.
  assert ((h_sbrk with_heap 10).1 = 0x40001000) as E by (vm_compute; reflexivity).
  destruct (h_sbrk with_heap 10) as [r k1]. destruct (h_brk with_heap 10) as [r' k2].
  split; [exact (proj1 (proj1 H))|]. split; [exact E|]. split; vm_compute; reflexivity.
Defined.
