(* ===== verification/Edges.v ===== *)
(** Boundary behaviour: runs of the model, from reachable states, in which a
    handler does something other than its comment says.  Each is evaluated. *)
From S2P Require Import Prelude KTypes CapCore CapRevoke Pipe SchedCtx KState Endpoint Untyped CSpace PipeSys Retype TaskLife CapSys Ipc TaskSys CapInv CapOps IpcOps Kernel Calm Security IpcInv Lifetime IpcSpec TaskSpec.

(** A receive whose limit is negative as a C int takes the message off the
    queue, copies nothing and returns the limit: the message is lost. *)
Theorem negative_limit_loses_message :
  let r := h_ipc_recv one_sent 10 0x500000 0xFFFFFFFF user_mem in
  (ep_abs <$> endpoint_by_index one_sent FS_EP_REQ) <> Some []
  /\ r.1 = (rax64 (-1), []) /\ (ep_abs <$> endpoint_by_index r.2 FS_EP_REQ) = Some [].
Proof. split; [vm_compute; discriminate|]. split; vm_compute; reflexivity. Qed.

(** A receive whose buffer cannot be written has taken the message off the
    queue too. *)
Theorem failed_copy_loses_message :
  let r := h_ipc_recv one_sent 10 0x500000 64 (mk_uenv (fun _ => 0) true false) in
  r.1 = (rax64 (-1), []) /\ (ep_abs <$> endpoint_by_index r.2 FS_EP_REQ) = Some [].
Proof. split; vm_compute; reflexivity. Qed.

(** A receiver at its capability quota, asleep with a limit of 64 bytes. *)
Definition receiver_full : kstate := set_ciu calling [0; MAX_CAPS_PER_TASK; 0; 0].
(** The first send to it is refused, although the bytes are already in the
    receiver's buffer and it is no longer marked as a receiver; so the next
    send writes all of its 200 bytes there. *)
Theorem refused_send_forgets_limit :
  let r1 := h_ipc_send receiver_full 10 200 user_mem in
  let r2 := h_ipc_send r1.2 10 200 user_mem in
  (task_at receiver_full 1).(t_ipc).(ip_recv_max) = 64
  /\ r1.1.1 = rax64 (-1) /\ (zlen ∘ cp_bytes <$> r1.1.2) = [64]
  /\ r2.1.1 = 0 /\ (zlen ∘ cp_bytes <$> r2.1.2) = [200]
  /\ (task_at r2.2 1).(t_state) = TASK_RUNNABLE.
Proof. split_and!; vm_compute; reflexivity. Qed.

(** The waiting server dies, its slot is given to a new task, and that task
    calls the console service. *)
Definition slot_reused : kstate :=
  kexec [OExit 1 None; OSwitch 0; OSpawn (fun _ => false) demo_image 0 0 UNTYPED_KERNEL;
         OInstallRoot 1 12 11 CON_EP_REQ; OSwitch 1; OIpc (ICall 12 4 0x700000 user_mem);
         OIpc (ISyscallExit 0 0); OSwitch 2] waiting.
Theorem slot_reused_reachable : reachable slot_reused.
Proof. apply reachable_run, waiting_reachable. Qed.
(** The file service's endpoint still has the dead server's slot as its waiter:
    a request sent to it lands in the new task's reply buffer and wakes it from
    its own call. *)
Theorem stale_waiter_gets_message :
  let r := h_ipc_send slot_reused 10 5 user_mem in
  (task_at slot_reused 1).(t_state) = TASK_BLOCKED_IPC /\ (task_at slot_reused 1).(t_blocked_on) = reply_ep_for_task 1
  /\ r.1 = (0, [mk_copy 1 0x700000 [1; 8; 15; 22; 29]]) /\ (task_at r.2 1).(t_state) = TASK_RUNNABLE.
Proof. split_and!; vm_compute; reflexivity. Qed.
(** The new task is still marked as a receiver, so the answer to its call is
    dropped with a success code and it sleeps on. *)
Definition console_answers : kstate :=
  kexec [OInstallRoot 2 12 11 CON_EP_REQ; OIpc (IRecv 12 0x500000 64 user_mem)] slot_reused.
Theorem stale_receive_mark_drops_reply :
  let r := h_ipc_reply_to console_answers 12 3 user_mem in
  (reply_target console_answers).1 = 1 /\ (task_at console_answers 1).(t_slot_gen) = (reply_target console_answers).2
  /\ r.1 = (0, []) /\ (task_at r.2 1).(t_state) = TASK_BLOCKED_IPC.
Proof. split_and!; vm_compute; reflexivity. Qed.

(** A second receiver takes over the endpoint's one waiter field.  The first message wakes
    it; the next one is queued, and the first receiver sleeps on beside it. *)
Definition two_receivers : kstate :=
  kexec [OSwitch 0; OSpawn (fun _ => false) demo_image 0 0 UNTYPED_KERNEL; OInstallRoot 3 10 13 FS_EP_REQ; OSwitch 2;
         OIpc (IRecvBlock 10 0x600000 64 user_mem); OIpc (ISyscallExit 0 0); OSwitch 3; OIpc (ISend 10 5 user_mem); OIpc (ISend 10 6 user_mem)] waiting.
Theorem displaced_sleeper_is_left :
  reachable two_receivers /\ asleep_on_ep two_receivers 1 FS_EP_REQ
  /\ (length ∘ ep_abs <$> endpoint_by_index two_receivers FS_EP_REQ) = Some 1%nat
  /\ (ep_blocked_waiter <$> endpoint_by_index two_receivers FS_EP_REQ) = Some (-1).
Proof.
  split; [apply reachable_run, waiting_reachable|]. split; [|split; vm_compute; reflexivity].
  refine (conj _ (conj _ (conj _ _))); vm_compute; first [reflexivity|discriminate].
Qed.

(** An alternate stack that wraps around the top of the address space passes
    the range check. *)
Theorem altstack_wraps :
  let r := h_sigaltstack demo 0xFFFFFFFFFFFFFC00 2048 in
  r.1 = 0 /\ (task_at r.2 1).(t_sig).(sg_alt_sp) > USER_MAX_VADDR.
Proof. split; vm_compute; reflexivity. Qed.

(** SYS_SIGACTION inside a handler lets the next fault enter the handler again
    and overwrites the frame saved for SYS_SIGRETURN. *)
Theorem handler_reentered :
  let r1 := deliver_pending_signal signalled user_frame 1 in
  let k2 := (h_sigaction r1.2 0x40000100).2 in
  let f2 := mk_uframe 0x40000110 0x1B 0x202 0x7000 0 0 0 in
  try_deliver_fault_signal r1.2 f2 1 11 0 = None
  /\ (fun r => (task_at r.2 1).(t_sig).(sg_frame)) <$> try_deliver_fault_signal k2 f2 1 11 0 = Some f2.
Proof. split; vm_compute; reflexivity. Qed.
