(* ===== verification/Resources.v ===== *)
(** Bounded resources: in every reachable state no task is over its capability
    quota and the pipe table is well-formed.  [Keeps f] is the interface
    between one operation and the invariant of whole runs. *)
From S2P Require Import Prelude KTypes CapCore CapRevoke CapReparent Pipe SchedCtx KState Endpoint Untyped CSpace PipeSys Retype TaskLife CapSys Ipc TaskSys CapInv CapOps IpcOps Kernel Security.

Record rinv (k : kstate) : Prop := {
  ri_quota : forall t, 0 <= ciu_at k t <= MAX_CAPS_PER_TASK;
  ri_pipes : pipes_wf k.(pipes)
}.

Class Keeps (f : kstate -> kstate) : Prop := keeps k : minv (ms k) -> rinv k -> rinv (f k).
#[global] Hint Mode Keeps ! : typeclass_instances.

(** ** The steps operations are made of *)
Definition untouched (k k' : kstate) : Prop := k'.(caps_in_use) = k.(caps_in_use) /\ k'.(pipes) = k.(pipes).
#[global] Instance untouched_preorder : PreOrder untouched.
Proof. split; [done|]. intros a b c [] []. split; congruence. Qed.

Lemma rinv_untouched k k' : untouched k k' -> rinv k -> rinv k'.
Proof. intros [H1 H2] [Q P]. constructor; unfold ciu_at in *; by rewrite ?H1, ?H2. Qed.
Lemma same_caps_untouched k k' : same_caps k k' -> untouched k k'.
Proof. intros [_ _ H1 H2 _ _ _]. by split. Qed.
Lemma rinv_pipes k ps : pipes_wf ps -> rinv k -> rinv (set_pipes k ps).
Proof. intros H [Q P]. by constructor. Qed.
Lemma rinv_gc k : rinv k -> rinv (kobj_gc_locked k).
Proof. apply rinv_untouched, same_caps_untouched, kobj_gc_locked_same_caps. Qed.

Lemma rinv_ciu k l :
  (forall t, zget 0 l t <= ciu_at k t /\ (0 <= ciu_at k t -> 0 <= zget 0 l t)) -> rinv k -> rinv (set_ciu k l).
Proof.
  intros H [Q P]. constructor; [|done]. intros t. specialize (H t). specialize (Q t). unfold ciu_at in *. simpl. lia.
Qed.
Lemma rinv_dec k t : rinv k -> rinv (dec_ciu_of k t).
Proof. apply rinv_ciu. intros x. by destruct (dec_ciu_bounds (Some t) k.(caps_in_use) x) as (? & ? & _). Qed.

Lemma rinv_inc k t : over_quota k t = false -> rinv k -> rinv (inc_ciu k t).
Proof.
  intros Ho%Z.leb_gt [Q P]. constructor; [|done]. intros x. unfold ciu_at in *. simpl.
  rewrite zget_zset. case_bool_decide as Hx; [|apply Q]. specialize (Q t). unfold ciu_at, MAX_CAPS_PER_TASK in *.
  rewrite u32_id; [lia|unfold U32_MAX; lia].
Qed.

Lemma untouched_note k ty o : untouched k (kobj_note_named k ty o).
Proof. unfold kobj_note_named, kobj_unpin. by repeat case_match. Qed.
Lemma untouched_alloc k u ty pages p i k' : kobj_alloc k u ty pages = Some (p, i, k') -> untouched k k'.
Proof.
  unfold kobj_alloc, bump_region, count_object. intros H.
  repeat (case_match; simplify_eq; try done).
Qed.

Lemma empty_tally_nonneg j : 0 <= zget 0 empty_tally j.
Proof.
  unfold empty_tally. destruct (decide (0 <= j < Z.of_nat (Z.to_nat (PIPE_TALLY_CELLS * MAX_PIPES)))) as [H|H].
  - by rewrite zget_replicate.
  - rewrite zget_out; [done|]. unfold zlen. rewrite length_replicate. lia.
Qed.

(** A write that counts the slot if it was empty, behind the quota check. *)
Lemma rinv_install k t l c : slot_null k l && over_quota k t = false -> rinv k -> rinv (install_at k t l c).
Proof.
  intros H Hk. unfold install_at. destruct (slot_null k l); [|by apply (rinv_untouched k)].
  apply rinv_inc; [exact H|by apply (rinv_untouched k)].
Qed.
Lemma rinv_derived k t b r : b && over_quota k t = false -> rinv k -> rinv (derived k t b r).2.
Proof.
  intros H Hk. unfold derived. destruct r as [[m ns]|]; [|done]. cbn [snd].
  destruct b; [apply rinv_inc; [exact H|]|]; by apply (rinv_untouched k).
Qed.
Lemma rinv_serial k : rinv k -> rinv (cap_alloc_fresh_serial k).2.
Proof. unfold cap_alloc_fresh_serial. destruct (rust_cap_alloc_serial _). by apply rinv_untouched. Qed.
Lemma untouched_serial k : untouched k (cap_alloc_fresh_serial k).2.
Proof. unfold cap_alloc_fresh_serial. by destruct (rust_cap_alloc_serial _). Qed.

(** Open a serial allocation and forget how the counter moved. *)
Ltac serial k :=
  let H := fresh "Hs" in
  pose proof (untouched_serial k) as H; destruct (cap_alloc_fresh_serial k) as [?ser ?k1]; cbn [snd] in H.
Ltac refuse := repeat (case_match; cbn [fst snd]; try done; try by eapply rinv_untouched).

(** ** Capability operations *)
#[global] Instance cap_mint_keeps d s r : Keeps (fun k => (cap_mint k d s r).2).
Proof. intros k _ Hk. unfold cap_mint. repeat (case_match; try done). by apply rinv_derived. Qed.
#[global] Instance cap_transfer_keeps d s : Keeps (fun k => (cap_transfer k d s).2).
Proof. apply cap_mint_keeps. Qed.
#[global] Instance cap_mint_token_keeps d s r tok : Keeps (fun k => (cap_mint_token k d s r tok).2).
Proof. intros k _ Hk. unfold cap_mint_token. repeat (case_match; try done). by apply rinv_derived. Qed.
#[global] Instance cap_grant_keeps t d s r fu : Keeps (fun k => (cap_grant_common k t d s r fu).2).
Proof. intros k _ Hk. unfold cap_grant_common. repeat (case_match; try done); by apply rinv_derived. Qed.
#[global] Instance cap_reply_mint_keeps pid i ser ep d r tok :
  Keeps (fun k => (cap_reply_mint_into k pid i ser ep d r tok).2).
Proof. intros k _ Hk. unfold cap_reply_mint_into. repeat (case_match; try done). by apply rinv_derived. Qed.

#[global] Instance cap_install_from_root_keeps pid s rs o : Keeps (fun k => (cap_install_from_root k pid s rs o).2).
Proof.
  intros k _ Hk. unfold cap_install_from_root. case_match; [done|]. destruct (t_cspace _); [|done].
  destruct (_ && _); [done|]. serial k.
  refuse; (eapply rinv_untouched; [apply untouched_note|]; by apply (rinv_untouched k)).
Qed.
Lemma cap_install_object_keeps d ty o r b : Keeps (fun k => (cap_install_object k d ty o r b).2).
Proof.
  intros k _ Hk. unfold cap_install_object. serial k. refuse.
  eapply rinv_untouched; [apply untouched_note|]. apply rinv_install; [done|by eapply rinv_untouched].
Qed.
Lemma cap_install_derived_keeps d s ss ty o r : Keeps (fun k => (cap_install_derived_object k d s ss ty o r).2).
Proof.
  intros k _ Hk. unfold cap_install_derived_object. serial k. refuse.
  eapply rinv_untouched; [apply untouched_note|]. apply rinv_install; [done|by eapply rinv_untouched].
Qed.
Lemma cap_install_first_free_keeps d ty o r b : Keeps (fun k => (cap_install_object_first_free k d ty o r b).2).
Proof.
  intros k _ Hk. unfold cap_install_object_first_free. serial k. refuse.
  eapply rinv_untouched; [apply untouched_note|]. apply rinv_inc; [done|]. by apply (rinv_untouched k).
Qed.
#[global] Instance cap_install_reply_keeps pid s g : Keeps (fun k => (cap_install_reply_for k pid s g).2).
Proof.
  intros k _ Hk. unfold cap_install_reply_for. do 2 (case_match; [done|]). serial k. refuse.
  apply rinv_install; [done|by eapply rinv_untouched].
Qed.
#[global] Instance cap_mint_untyped_keeps s d i : Keeps (fun k => (cap_mint_untyped_child k s d i).2).
Proof.
  intros k _ Hk. unfold cap_mint_untyped_child. serial k. refuse.
  apply rinv_install; [done|by eapply rinv_untouched].
Qed.

Lemma rinv_put_dec k l t : rinv k -> rinv (dec_ciu_of (put_cap k l null_cap) t).
Proof. intros Hk. apply rinv_dec. by apply (rinv_untouched k). Qed.
#[global] Instance cap_consume_keeps s : Keeps (fun k => (cap_consume_slot k s).2).
Proof. intros k _ Hk. unfold cap_consume_slot. refuse. by apply rinv_put_dec. Qed.
#[global] Instance cap_consume_of_keeps pid s : Keeps (fun k => (cap_consume_slot_of k pid s).2).
Proof. intros k _ Hk. unfold cap_consume_slot_of. refuse. by apply rinv_put_dec. Qed.

#[global] Instance cap_child_pipe_keeps c d sp s r : Keeps (fun k => (cap_install_child_pipe_end k c d sp s r).2).
Proof.
  intros k _ Hk. unfold cap_install_child_pipe_end. do 4 (case_match; [done|]). serial k. refuse.
  match goal with H : pipe_end_ref ?ps ?o ?w = _ |- _ =>
    pose proof (pipe_end_ref_wf ps o w) as HW; rewrite H in HW; cbn [snd] in HW end.
  apply rinv_inc.
  - match goal with H : slot_null _ _ && _ = false, H' : negb (slot_null _ _) = false |- _ =>
      apply negb_false_iff in H'; rewrite H' in H; exact H end.
  - match goal with |- rinv (put_cap (set_pipes ?a ?b) _ _) => apply (rinv_untouched (set_pipes a b)); [done|] end.
    apply rinv_pipes; [|by eapply rinv_untouched].
    apply HW. rewrite (proj2 Hs). apply Hk.
Qed.

(** ** Revocation and release *)
#[global] Instance cap_revoke_exact_keeps slot : Keeps (fun k => (cap_revoke_exact k slot).2).
Proof.
  intros k Hm Hk. unfold cap_revoke_exact. do 4 (case_match; [done|]).
  set (st0 := mk_rs k.(mem) k.(caps_in_use) (Some empty_tally)).
  set (r := if (_ =? CAP_REVOCATION) && _ then _ else _).
  assert (only_empties st0 r.1) as HA.
  { unfold r. case_match; [|done]. apply rust_cap_revoke_empties. apply Hm. }
  destruct r as [st1 slot1]. cbn [fst] in HA.
  pose proof (rust_cap_revoke_global_empties (Some (cur_array k)) (cur_size k) slot1
    (if bool_decide (cur_array k = CRoot) then None else Some k.(cur)) (revoke_spaces k) st1
    (only_empties_unmarked _ _ HA (mi_unmarked _ Hm))) as HB.
  destruct (rust_cap_revoke_global _ _ _ _ _ _) as [ok st2]. cbn [snd] in HB.
  pose proof (transitivity HA HB) as HC.
  pose proof (pipe_release_revoked_ends_wf k.(pipes) st2.(rs_tally)) as HP.
  destruct (pipe_release_revoked_ends _ _) as [exact ps]. cbn [snd] in HP |- *. apply rinv_gc.
  eapply (rinv_untouched (set_pipes (set_ciu (set_mem k st2.(rs_mem)) st2.(rs_ciu)) ps)); [done|].
  apply rinv_pipes.
  - apply HP; [|apply Hk]. apply (oe_tally _ _ HC). intros cells j [= <-]. apply empty_tally_nonneg.
  - apply (rinv_ciu (set_mem k st2.(rs_mem))); [exact (oe_ciu _ _ HC)|]. by apply (rinv_untouched k).
Qed.
#[global] Instance cap_revoke_keeps slot : Keeps (fun k => (cap_revoke k slot).2).
Proof.
  intros k Hm Hk. unfold cap_revoke. pose proof (cap_revoke_exact_keeps slot k Hm Hk) as H. cbv beta in H.
  destruct (cap_revoke_exact k slot) as [[? ?] ?]. exact H.
Qed.
#[global] Instance cap_move_keeps d s : Keeps (fun k => (cap_move k d s).2).
Proof.
  intros k Hm Hk. unfold cap_move. pose proof (cap_transfer_keeps d s k Hm Hk) as H.
  pose proof (msteps_minv _ _ _ (cap_transfer_op (p:=PUser) d s k Hm) Hm) as HM. cbv beta in H, HM.
  destruct (cap_transfer k d s) as [ok k1]. cbn [snd] in H, HM. destruct ok; [|done].
  by apply cap_revoke_keeps.
Qed.

#[global] Instance release_keeps id collect : Keeps (fun k => release_cspace k id collect).
Proof.
  intros k _ Hk. unfold release_cspace. cbv zeta.
  assert (forall k', rinv k' -> rinv (if collect then kobj_gc_locked k' else k')) as HG.
  { intros k' Hk'. destruct collect; [by apply rinv_gc|done]. }
  apply HG. destruct (_ && _); [|done]. match goal with |- rinv (set_ciu ?x _) => set (k1 := x) end.
  assert (untouched k k1) as HU by (unfold k1; by destruct (t_cspace _)).
  apply (rinv_ciu k1); [|by eapply rinv_untouched]. intros t. rewrite zget_zset. case_bool_decide; [|done].
  pose proof (ri_quota _ (rinv_untouched _ _ HU Hk) t). lia.
Qed.

(** ** Fork and pipes *)
Lemma clone_slots_keeps pc cc csz child copied ss :
  Keeps (fun k => (clone_slots k pc cc csz child copied ss).2).
Proof.
  revert copied. induction ss as [|s ss IH]; intros copied k Hm Hk; [done|].
  cbn [clone_slots]. destruct (_ || _); [by apply IH|]. destruct (over_quota _ _) eqn:EQ; [done|].
  set (r := rust_cap_grant_into _ _ _ _ _ _ _).
  pose proof (rinv_derived k child (slot_null k (cc, s)) r) as H. rewrite EQ, andb_false_r in H.
  specialize (H eq_refl Hk).
  assert (rtc (mstep PCopy) (ms k) (ms (derived k child (slot_null k (cc, s)) r).2)) as HS.
  { apply derived_op. intros m ns. by apply grant_step. }
  destruct (derived _ _ _ _) as [ok k1]. cbn [snd] in H, HS. apply IH; [by eapply msteps_minv|done].
Qed.
Lemma count_forked_keeps c : Keeps (fun k => (pipe_count_forked_ends k c).2).
Proof.
  intros k _ Hk. unfold pipe_count_forked_ends. case_match; [done|]. destruct (t_cspace _); [|done]. cbv zeta.
  destruct (negb _); [done|]. apply rinv_pipes; [|done]. destruct Hk as [_ Hp]. revert Hp. generalize k.(pipes).
  induction (filter _ _) as [|s ss IH]; intros ps Hps; [done|].
  cbn [foldl]. apply IH. by apply pipe_end_ref_wf.
Qed.
#[global] Instance cap_clone_keeps p c : Keeps (fun k => (cap_clone_cspace k p c).2).
Proof.
  intros k Hm Hk. unfold cap_clone_cspace. do 3 (case_match; [done|]).
  destruct (t_cspace (task_at k p)) as [pc|]; [|done].
  destruct (t_cspace (task_at k c)) as [cc|]; [|done]. cbv zeta. set (ss := seqZ _ _). clearbody ss.
  pose proof (clone_slots_keeps pc cc (task_size (task_at k c)) c 0 ss k Hm Hk) as HC.
  pose proof (msteps_minv _ _ _ (clone_slots_op pc cc (task_size (task_at k c)) c 0 ss k Hm) Hm) as HM.
  cbv beta in HC, HM. destruct (clone_slots _ _ _ _ _ _ _) as [[n|] k1]; [|exact HC]. cbn [snd] in HC, HM.
  pose proof (count_forked_keeps c k1 HM HC) as HF. cbv beta in HF.
  destruct (pipe_count_forked_ends k1 c) as [ok k2]. by destruct ok.
Qed.

Lemma close_passes_keeps n t sz : Keeps (fun k => close_passes n k t sz).
Proof.
  induction n as [|n IH]; intros k Hm Hk; [done|]. cbn [close_passes].
  destruct (close_pass k t sz) as [k1|] eqn:E; [|done]. revert E. unfold close_pass.
  destruct (t_cspace _) as [c|]; [|done]. destruct (find_index _ _ _) as [s|]; [|done].
  pose proof (cap_consume_of_keeps t s k Hm Hk) as HC.
  pose proof (msteps_minv _ _ _ (cap_consume_of_op (p:=PUser) t s k Hm) Hm) as HM. cbv beta in HC, HM.
  destruct (cap_consume_slot_of k t s) as [[ok prev] k2]. cbn [snd] in HC, HM.
  do 2 (case_match; [try done; intros [= <-]; by apply IH|]). intros [= <-].
  apply IH; [exact HM|]. apply rinv_pipes; [|done]. apply pipe_end_unref_wf, HC.
Qed.
#[global] Instance pipe_close_task_keeps t : Keeps (fun k => pipe_close_task_ends k t).
Proof.
  intros k Hm Hk. unfold pipe_close_task_ends. case_match; [done|]. case_match; [|done].
  by apply close_passes_keeps.
Qed.

#[global] Instance h_pipe_close_keeps s : Keeps (fun k => (h_pipe_close k s).2).
Proof.
  intros k Hm Hk. unfold h_pipe_close. pose proof (cap_consume_of_keeps k.(cur) (u32 s) k Hm Hk) as HC.
  cbv beta in HC. destruct (cap_consume_slot_of _ _ _) as [[ok prev] k2]. cbn [snd] in HC.
  case_match; [done|]. apply rinv_pipes; [|done]. apply pipe_end_unref_wf, HC.
Qed.
#[global] Instance h_pipe_read_keeps s len cp : Keeps (fun k => (h_pipe_read k s len cp).2).
Proof.
  intros k _ Hk. unfold h_pipe_read, pipe_io_read. cbv zeta. set (n := if _ <? _ then _ else _).
  assert (0 <= n) as Hn by (unfold n; case_match; [done|apply u32_range]).
  destruct (cap_lookup _ _ _ _) as [l|]; [|by case_match].
  pose proof (pipe_read_bytes_wf k.(pipes) (cap_at k.(mem) l).(object) n (ri_pipes _ Hk) Hn) as HW.
  destruct (pipe_read_bytes _ _ _) as [[rc bytes] ps]. cbn [snd] in HW. case_match; by apply rinv_pipes.
Qed.
#[global] Instance h_pipe_write_keeps s len u cp : Keeps (fun k => (h_pipe_write k s len u cp).2).
Proof.
  intros k _ Hk. unfold h_pipe_write, pipe_io_write. do 2 (case_match; [done|]).
  destruct (cap_lookup _ _ _ _) as [l|]; [|done]. set (src := u <$> _).
  pose proof (pipe_write_bytes_wf k.(pipes) (cap_at k.(mem) l).(object) src (ri_pipes _ Hk)) as HW.
  destruct (pipe_write_bytes _ _ _) as [rc ps]. cbn [snd] in HW. by apply rinv_pipes.
Qed.
#[global] Instance h_pipe_keeps : Keeps (fun k => (h_pipe k).2).
Proof.
  intros k Hm Hk. unfold h_pipe. destruct (t_cspace _) as [c|]; [|done].
  pose proof (pipe_alloc_wf _ (ri_pipes _ Hk)) as HA. destruct (pipe_alloc _) as [obj ps]. cbn [snd] in HA.
  cbv zeta. case_match; [by apply rinv_pipes|].
  set (k1 := set_pipes (set_pipes (set_pipes k ps) _) _).
  assert (rinv k1) as H1 by (apply rinv_pipes; [by do 2 apply pipe_end_ref_wf|by do 2 (apply rinv_pipes; [try apply pipe_end_ref_wf; done|])]).
  change (minv (ms k1)) in Hm. clearbody k1.
  assert (forall k, rinv k -> rinv (set_pipes k (pipe_end_unref (pipe_end_unref k.(pipes) obj false) obj true))) as HU.
  { intros k' Hk'. apply rinv_pipes; [|done]. do 2 apply pipe_end_unref_wf. apply Hk'. }
  pose proof (cap_install_first_free_keeps CAP_DYNAMIC_FLOOR CAP_PIPE obj (CAP_RIGHT_READ + CAP_RIGHT_REVOKE) 0 k1 Hm H1) as H2.
  pose proof (msteps_minv _ _ _ (cap_install_first_free_op CAP_DYNAMIC_FLOOR CAP_PIPE obj
    (CAP_RIGHT_READ + CAP_RIGHT_REVOKE) eq_refl k1 Hm) Hm) as HM2. cbv beta in H2, HM2.
  destruct (cap_install_object_first_free _ _ _ _ _ _) as [[rs|] k2]; [|by apply HU]. cbn [snd] in H2, HM2.
  pose proof (cap_install_first_free_keeps CAP_DYNAMIC_FLOOR CAP_PIPE obj (CAP_RIGHT_WRITE + CAP_RIGHT_REVOKE) 0 k2 HM2 H2) as H3.
  pose proof (msteps_minv _ _ _ (cap_install_first_free_op CAP_DYNAMIC_FLOOR CAP_PIPE obj
    (CAP_RIGHT_WRITE + CAP_RIGHT_REVOKE) eq_refl k2 HM2) HM2) as HM3. cbv beta in H3, HM3.
  destruct (cap_install_object_first_free _ _ _ _ _ _) as [[ws|] k3]; [done|]. cbn [snd] in H3, HM3.
  pose proof (cap_consume_of_keeps k3.(cur) rs k3 HM3 H3) as H4. cbv beta in H4.
  destruct (cap_consume_slot_of _ _ _) as [[ok prev] k4]. by apply HU.
Qed.

(** ** Making objects *)
Lemma untouched_destroy_new k ty i : untouched k (destroy_new k ty i).
Proof.
  apply same_caps_untouched. unfold destroy_new. case_match; [apply destroy_dyn_endpoint_same_caps|].
  case_match; [apply destroy_dyn_notification_same_caps|apply destroy_dyn_frame_same_caps].
Qed.
Lemma retype_slots_keeps u ty pages n ds : Keeps (fun k => (retype_slots k u ty pages n ds).2).
Proof.
  revert n. induction ds as [|d ds IH]; intros n k Hm Hk; [done|]. cbn [retype_slots].
  destruct (kobj_alloc k u ty pages) as [[[p i] k1]|] eqn:E; [|done].
  pose proof (rinv_untouched _ _ (untouched_alloc _ _ _ _ _ _ _ E) Hk) as H1.
  apply ms_kobj_alloc in E. rewrite <- E in Hm.
  pose proof (cap_install_object_keeps d (cap_of_kobj ty) i RETYPE_RIGHTS 0 k1 Hm H1) as H2.
  pose proof (msteps_minv _ _ _ (cap_install_object_op d (cap_of_kobj ty) i RETYPE_RIGHTS
    (cap_of_kobj_unmarked ty) k1 Hm) Hm) as HM. cbv beta in H2, HM.
  destruct (cap_install_object k1 _ _ _ _ _) as [[] k2]; cbn [snd] in *; [by apply IH|].
  by eapply rinv_untouched; [apply untouched_destroy_new|].
Qed.
#[global] Instance untyped_retype_keeps us ty c pg d : Keeps (fun k => (untyped_retype k us ty c pg d).2).
Proof.
  intros k Hm Hk. unfold untyped_retype. destruct (untyped_from_slot _ _ _) as [u|]; [|done].
  do 3 (case_match; [done|]). cbv zeta. set (pages := if _ && _ then 1 else _). clearbody pages.
  do 4 (case_match; [done|]). set (ds := seqZ _ _). clearbody ds.
  pose proof (retype_slots_keeps u ty pages 0 ds k Hm Hk) as HR. cbv beta in HR.
  destruct (retype_slots _ _ _ _ _ _) as [n k1]. exact HR.
Qed.
#[global] Instance untyped_split_keeps s d b : Keeps (fun k => (untyped_split k s d b).2).
Proof.
  intros k Hm Hk. unfold untyped_split. do 3 (case_match; [done|]).
  destruct (untyped_from_slot _ _ _) as [u|]; [|done].
  destruct (split_region _ _ _) as [e|[c us]]; [done|].
  assert (rinv (set_untypeds k us)) as H2 by by apply (rinv_untouched k).
  pose proof (cap_mint_untyped_keeps s d c (set_untypeds k us) Hm H2) as HM.
  cbv beta in HM. destruct (cap_mint_untyped_child _ _ _ _) as [rc k1]. cbn [snd] in HM.
  case_match; [by apply (rinv_untouched k1)|exact HM].
Qed.
#[global] Instance sched_split_keeps ps us d b pe f now : Keeps (fun k => (sched_split k ps us d b pe f now).2).
Proof.
  intros k Hm Hk. unfold sched_split. destruct (cap_lookup _ _ _ _) as [l|]; [|done].
  case_match; [done|]. destruct (untyped_from_slot _ _ _) as [u|]; [|done].
  destruct (kobj_alloc k u KOBJ_SCHED_CONTEXT 0) as [[[p i] k1]|] eqn:E; [|done].
  pose proof (rinv_untouched _ _ (untouched_alloc _ _ _ _ _ _ _ E) Hk) as H1.
  apply ms_kobj_alloc in E. rewrite <- E in Hm. destruct (sched_carve _ _ _ _ _ _ _) as [rc s]. cbv zeta.
  set (k2 := set_sched k1 s). assert (rinv k2) as H2 by by apply (rinv_untouched k1).
  change (minv (ms k2)) in Hm. clearbody k2. set (r := if negb (rc =? 0) then _ else _).
  assert (rinv r.2) as HR.
  { unfold r. case_match; [done|].
    pose proof (cap_install_derived_keeps d ps (cap_at k.(mem) l).(serial) CAP_SCHED_CONTEXT i
                  (cap_at k.(mem) l).(rights) k2 Hm H2) as HI. cbv beta in HI.
    destruct (cap_install_derived_object _ _ _ _ _ _ _) as [ok k3]. exact HI. }
  destruct r as [rc' k3]. cbn [snd] in *. case_match; [|exact HR].
  eapply rinv_untouched; [apply same_caps_untouched, destroy_dyn_sc_same_caps|exact HR].
Qed.

(** ** Birth and death of tasks *)
Lemma untouched_birth_cspace k id ut :
  match birth_cspace k id ut with
  | inl (Some k') => untouched k k'
  | inl None => True
  | inr k' => untouched k k'
  end.
Proof.
  unfold birth_cspace. cbv zeta.
  destruct (t_cspace _) as [c|], (negb _); try done;
    (destruct (kobj_alloc _ _ _ _) as [[[p i] k1]|] eqn:E; [by apply untouched_alloc in E as []|done]).
Qed.
Lemma untouched_birth_caps k id : untouched k (birth_caps k id).
Proof.
  unfold birth_caps. destruct (t_cspace _) as [c|]; [|done].
  assert (untouched k (birth_own_caps k id c)) as HO.
  { unfold birth_own_caps. unfold cap_alloc_fresh_serial. repeat (destruct (rust_cap_alloc_serial _)).
    by case_match. }
  case_match; [|done]. by destruct HO.
Qed.
Lemma untouched_create k os id e st ib pp ut k' :
  create_task k os id e st ib pp ut = Some k' -> untouched k k'.
Proof.
  unfold create_task. do 3 (case_match; [by intros [= <-]|]). cbv zeta.
  set (k1 := upd_task _ _ _). assert (untouched k k1) as HU by (unfold k1; by case_match). clearbody k1.
  pose proof (untouched_birth_cspace k1 id ut) as HB. destruct (birth_cspace k1 id ut) as [[k2|]|k2];
    intros [= <-]; (etrans; [exact HU|]); [done|]. etrans; [exact HB|]. apply untouched_birth_caps.
Qed.
Lemma untouched_spawn_admin k id : untouched k (spawn_admin_cap k id).
Proof.
  unfold spawn_admin_cap. destruct (cap_lookup _ _ _ _); [|done]. serial k.
  destruct (t_cspace _); [|done]. by case_match.
Qed.

#[global] Instance wire_end_keeps c ca ps s d r f : Keeps (fun k => wire_end k c ca ps s d r f).
Proof.
  intros k Hm Hk. unfold wire_end. case_match; [|done].
  pose proof (cap_child_pipe_keeps c d ca s r k Hm Hk) as HC. cbv beta in HC.
  destruct (cap_install_child_pipe_end _ _ _ _ _ _) as [[] k1]; [by apply (rinv_untouched k1)|exact HC].
Qed.
#[global] Instance wire_stdio_keeps c ca sp : Keeps (fun k => wire_child_stdio k c ca sp).
Proof.
  intros k Hm Hk. unfold wire_child_stdio. set (k1 := upd_task k c _).
  assert (rinv k1) as HR1 by by apply (rinv_untouched k).
  change (minv (ms k1)) in Hm. clearbody k1. cbv zeta. do 2 (case_match; [done|]).
  destruct (t_cspace _); [|done]. destruct (t_cspace _); [|done]. apply wire_end_keeps.
  - eapply msteps_minv; [by apply wire_end_op|done].
  - by apply wire_end_keeps.
Qed.
#[global] Instance grant_tcb_keeps s p : Keeps (fun k => grant_child_tcb_cap k s p).
Proof.
  intros k Hm Hk. unfold grant_child_tcb_cap. do 2 (case_match; [done|]). by apply cap_install_first_free_keeps.
Qed.
Lemma untouched_spawn_tail k id : untouched k (sched_spawn_finish (sched_fabricate_user_frame k id) id).
Proof. unfold sched_spawn_finish, sched_fabricate_user_frame. by repeat case_match. Qed.
#[global] Instance do_spawn_keeps os img ca sp ut :
  Keeps (fun k => default k (snd <$> do_spawn_inner k os img ca sp ut)).
Proof.
  intros k Hm Hk. unfold do_spawn_inner. case_match; [done|].
  destruct (sched_pick_free_slot _ _) as [id|] eqn:Eid; [|done].
  assert (id <> 0) as Hid by (apply find_index_Some in Eid; lia).
  destruct (create_task _ _ _ _ _ _ _ _) as [k1|] eqn:EC; [|done].
  pose proof (rinv_untouched _ _ (untouched_create _ _ _ _ _ _ _ _ _ EC) Hk) as HR1.
  apply create_task_op in EC; [|done|done]. assert (minv (ms k1)) as Hm1 by by eapply msteps_minv.
  case_match; [done|]. case_match; [by apply (rinv_untouched k1)|]. cbn [fmap option_fmap option_map default snd].
  eapply rinv_untouched; [apply untouched_spawn_tail|]. apply wire_stdio_keeps.
  - eapply msteps_minv; [|exact Hm1]. by apply spawn_admin_op.
  - eapply rinv_untouched; [apply untouched_spawn_admin|done].
Qed.
#[global] Instance h_fork_keeps os ha rc rbx : Keeps (fun k => default k (snd <$> h_fork k os ha rc rbx)).
Proof.
  intros k Hm Hk. unfold h_fork. do 2 (case_match; [done|]).
  destruct (spawn_untyped_region k) as [ut|]; [|done].
  destruct (sched_pick_free_slot _ _) as [id|] eqn:Eid; [|done].
  assert (id <> 0) as Hid by (apply find_index_Some in Eid; lia).
  destruct (create_task _ _ _ _ _ _ _ _) as [k1|] eqn:EC; [|done].
  pose proof (rinv_untouched _ _ (untouched_create _ _ _ _ _ _ _ _ _ EC) Hk) as HR1.
  apply create_task_op in EC; [|done|done]. assert (minv (ms k1)) as Hm1 by by eapply msteps_minv.
  case_match; [done|]. cbv zeta. case_match; [by apply (rinv_untouched k1)|].
  set (k2 := upd_task k1 id _). change (minv (ms k2)) in Hm1.
  assert (rinv k2) as HR2 by by apply (rinv_untouched k1). clearbody k2.
  pose proof (cap_clone_keeps k.(cur) id k2 Hm1 HR2) as HC.
  pose proof (msteps_minv _ _ _ (cap_clone_op k.(cur) id k2 Hm1) Hm1) as HM. cbv beta in HC, HM.
  destruct (cap_clone_cspace _ _ _) as [n k3]. cbn [snd] in HC, HM.
  case_match; [by apply (rinv_untouched k3)|]. cbn [fmap option_fmap option_map default snd].
  apply (rinv_untouched (grant_child_tcb_cap k3 k.(cur) id)); [done|]. by apply grant_tcb_keeps.
Qed.

#[global] Instance teardown_keeps id c : Keeps (fun k => task_teardown k id c).
Proof.
  intros k Hm Hk. unfold task_teardown. case_match; [done|].
  assert (rinv (task_teardown_body k id c).2) as HB.
  { unfold task_teardown_body. case_match; [done|]. cbv zeta. cbn [snd].
    set (k1 := upd_task k id _). assert (rinv k1) as HR1 by by apply (rinv_untouched k).
    change (minv (ms k1)) in Hm. clearbody k1.
    pose proof (pipe_close_task_keeps id k1 Hm HR1) as HR2. cbv beta in HR2.
    pose proof (msteps_minv _ _ _ (pipe_close_task_op (p:=PUser) id k1 Hm) Hm) as HM2. cbv beta in HM2.
    set (k2 := pipe_close_task_ends k1 id) in *. clearbody k2. set (k3 := if _ && _ then _ else k2).
    assert (rinv k3 /\ minv (ms k3)) as [HR3 HM3].
    { unfold k3. case_match; [|done]. split; [by apply (rinv_untouched k2)|exact HM2]. }
    clearbody k3. unfold cap_release_cspace_and_collect. apply release_keeps; [exact HM3|].
    by apply (rinv_untouched k3). }
  destruct (task_teardown_body k id c) as [[[[w g] rec]|] k1]; [|exact HB]. cbn [snd] in HB.
  case_match; [by apply (rinv_untouched k1)|exact HB].
Qed.

#[global] Instance h_cap_grant_keeps t s d : Keeps (fun k => (h_cap_grant_locked k t s d).2).
Proof.
  intros k Hm Hk. unfold h_cap_grant_locked, cap_grant_from_user. repeat (case_match; try done);
    match goal with H : cap_grant_common k ?t ?d ?s ?r ?fu = _ |- _ =>
      pose proof (cap_grant_keeps t d s r fu k Hm Hk) as HG; cbv beta in HG; rewrite H in HG; exact HG end.
Qed.
#[global] Instance h_kill_keeps t : Keeps (fun k => (h_kill_locked k t).2).
Proof. intros k Hm Hk. unfold h_kill_locked. repeat (case_match; try done). by apply teardown_keeps. Qed.

(** ** Runs *)
(** IPC and the task calls *)
Lemma ipath_rinv p k k' : ipath p k k' -> minv (ms k) -> rinv k -> rinv k'.
Proof.
  induction 1 as [k k' [_ _ Hc Hp]|k pid s g Hp|k o Hp|k pid i ser ep d r tok Hp|k d|k id c|k1 k2 k3 Hp1 IH1 Hp2 IH2];
    intros Hm Hk.
  - apply (rinv_untouched k); [by split|done].
  - by apply cap_install_reply_keeps.
  - by apply cap_install_object_keeps.
  - by apply cap_reply_mint_keeps.
  - by apply cap_consume_keeps.
  - by apply teardown_keeps.
  - apply IH2; [|by apply IH1]. eapply msteps_minv; [by eapply ipath_ms|done].
Qed.
#[global] Instance ipc_run_keeps o : Keeps (ipc_run o).
Proof. intros k Hm Hk. eapply ipath_rinv; [apply ipc_run_path|done|done]. Qed.
#[global] Instance task_run_keeps o : Keeps (task_run o).
Proof. intros k Hm Hk. eapply (ipath_rinv PUser); [apply task_run_path|done|done]. Qed.

Lemma kdo_keeps o : Keeps (kdo o).
Proof.
  destruct o; simpl; try apply _; intros k Hm Hk; simpl.
  - by apply (rinv_untouched k).
  - unfold h_cap_mint. pose proof (cap_mint_keeps (u32 dest) (u32 src) (u32 rts) k Hm Hk) as H.
    cbv beta in H. by destruct (cap_mint _ _ _ _).
  - unfold h_cap_mint_token. pose proof (cap_mint_token_keeps (u32 dest) (u32 src) (u32 rts) tok k Hm Hk) as H.
    cbv beta in H. by destruct (cap_mint_token _ _ _ _ _).
  - unfold h_cap_transfer. pose proof (cap_transfer_keeps (u32 dest) (u32 src) k Hm Hk) as H.
    cbv beta in H. by destruct (cap_transfer _ _ _).
  - unfold h_cap_move. pose proof (cap_move_keeps (u32 dest) (u32 src) k Hm Hk) as H.
    cbv beta in H. by destruct (cap_move _ _ _).
  - unfold h_cap_revoke. pose proof (cap_revoke_keeps (u32 slot) k Hm Hk) as H.
    cbv beta in H. by destruct (cap_revoke _ _).
Qed.

Lemma krun_keeps o : Keeps (krun o).
Proof. intros k Hm Hk. unfold krun. case_match; [by apply kdo_keeps|done]. Qed.

Lemma boot_rinv arena ntasks pages nic : rinv (boot_kernel arena ntasks pages nic).
Proof.
  set (k := cap_init (boot_state arena ntasks pages) nic).
  assert (rinv k) as Hk.
  { constructor; [|apply pipes_zero_wf]. intros t. unfold ciu_at. simpl.
    destruct (decide (0 <= t < Z.of_nat (Z.to_nat ntasks))).
    - by rewrite zget_replicate.
    - rewrite zget_out; [done|]. unfold zlen. rewrite length_replicate. lia. }
  unfold boot_kernel. fold k. destruct (create_task _ _ _ _ _ _ _ _) as [k1|] eqn:E; [|exact Hk].
  by eapply rinv_untouched; [eapply untouched_create|].
Qed.

Lemma reachable_rinv k : reachable k -> rinv k.
Proof.
  intros (a & n & p & nic & ops & ->).
  enough (forall k0, minv (ms k0) -> rinv k0 -> rinv (kexec ops k0)) as G
    by (apply G; [apply boot_minv|apply boot_rinv]).
  induction ops as [|o ops IH]; intros k0 Hm Hk; [done|]. cbn [kexec foldl]. apply IH.
  - eapply msteps_minv; [by apply (krun_op o)|done].
  - by apply krun_keeps.
Qed.

(** Whatever operations the kernel executes from boot, no task's count of
    capabilities exceeds its quota or drops below zero. *)
Theorem quota_respected arena ntasks pages nic ops t :
  0 <= ciu_at (kexec ops (boot_kernel arena ntasks pages nic)) t <= MAX_CAPS_PER_TASK.
Proof. apply (ri_quota _ (reachable_rinv _ (ex_intro _ arena (ex_intro _ ntasks (ex_intro _ pages
  (ex_intro _ nic (ex_intro _ ops eq_refl))))))). Qed.

(** Whatever operations the kernel executes from boot, the pipe table stays
    well-formed: every offset and count within its ring, every generation
    distinct from the two reserved values once used, and a pipe that is not in
    use empty with its buffer wiped. *)
Theorem pipe_table_wf arena ntasks pages nic ops :
  pipes_wf (kexec ops (boot_kernel arena ntasks pages nic)).(pipes).
Proof. apply ri_pipes, reachable_rinv. by exists arena, ntasks, pages, nic, ops. Qed.
