(* ===== verification/Users.v ===== *)
(** Accounts and logins (src/src/kernel/kusers.c, src/rust/src/auth.rs): the
    account table and its bookkeeping, password hashes, the login throttles, the
    account system calls, and how they use the audit log, the capability that
    administers accounts and the encrypted volume the table is stored on. *)
From Stdlib Require Import Strings.String Strings.Ascii.
From S2P Require Import Prelude KTypes AuditLog KState CSpace TaskLife TaskSys.

(** ** Strings (syscall_internal.h) *)
Definition cstr (s : list Z) : list Z := c_string (length s) s.
Definition kstrlen (s : list Z) : Z := zlen (cstr s).
Definition kstrcpy (dst src : list Z) : list Z := cstr src ++ [0] ++ drop (S (length (cstr src))) dst.
Fixpoint kstrcmp (a b : list Z) : Z :=
  match a with
  | [] => 0 - hd 0 b
  | x :: a => if negb (x =? 0) && (x =? hd 0 b) then kstrcmp a (tl b) else x - hd 0 b
  end.

(** ** The login throttles (auth.rs) *)
Definition MAX_AUTH_FAILS : Z := 5.
Definition LOCKOUT_TICKS : Z := 8000.
Definition GLOBAL_MAX_FAILS : Z := 12.
Definition GLOBAL_LOCKOUT_TICKS : Z := 2000.
Definition saturating_add (max a b : Z) : Z := Z.min max (a + b).
Definition rust_auth_is_locked (lockout_until now : Z) : bool := now <? lockout_until.
(** The new count and the new lockout, 0 for none. *)
Definition rust_auth_on_failure (fail_count now : Z) : Z * Z :=
  let count := saturating_add U32_MAX fail_count 1 in
  if MAX_AUTH_FAILS <=? count then (0, saturating_add U64_MAX now LOCKOUT_TICKS) else (count, 0).
Record GlobalThrottle := mk_throttle { gt_fails : Z; gt_lockout_until : Z }.
Definition rust_auth_global_locked (t : GlobalThrottle) (now : Z) : bool := now <? t.(gt_lockout_until).
Definition rust_auth_global_on_failure (t : GlobalThrottle) (now : Z) : GlobalThrottle :=
  let fails := saturating_add U32_MAX t.(gt_fails) 1 in
  if GLOBAL_MAX_FAILS <=? fails then mk_throttle 0 (saturating_add U64_MAX now GLOBAL_LOCKOUT_TICKS)
  else mk_throttle fails t.(gt_lockout_until).
Definition rust_auth_global_on_success : GlobalThrottle := mk_throttle 0 0.
(** lib.rs: every byte is compared. *)
Definition rust_ct_eq (a b : list Z) (len : Z) : bool :=
  if len =? 0 then false
  else foldl (fun diff i => Z.lor diff (Z.lxor (zget 0 a i) (zget 0 b i))) 0 (seqZ 0 len) =? 0.

(** ** The account table *)
Definition MAX_USERS : Z := 32.
Definition PASS_SALT_LEN : Z := 16.
Definition PASS_HASH_LEN : Z := 32.
Definition KEYSLOT_NONE : Z := 0xFFFFFFFF.
Definition AUDIT_AUTH : Z := 1.
Definition AUDIT_USER_MGMT : Z := 3.
Definition SYS_ERR_AUTH : Z := -13.
Definition SYS_ERR_BUSY : Z := -16.
Record user_account := mk_user {
  ua_name : list Z; ua_uid : Z; ua_gid : Z; ua_lockout_until : Z; ua_fail_count : Z; ua_salt : list Z;
  ua_valid : bool; ua_pass_hash : list Z; ua_home : list Z; ua_shell : list Z; ua_keyslot : Z
}.
Definition zeros (n : Z) : list Z := replicate (Z.to_nat n) 0.
Definition user_zero : user_account :=
  mk_user (zeros 32) 0 0 0 0 (zeros PASS_SALT_LEN) false (zeros PASS_HASH_LEN) (zeros 64) (zeros 32) 0.
Definition with_valid (u : user_account) (v : bool) : user_account :=
  mk_user u.(ua_name) u.(ua_uid) u.(ua_gid) u.(ua_lockout_until) u.(ua_fail_count) u.(ua_salt) v u.(ua_pass_hash)
    u.(ua_home) u.(ua_shell) u.(ua_keyslot).
Definition with_keyslot (u : user_account) (slot : Z) : user_account :=
  mk_user u.(ua_name) u.(ua_uid) u.(ua_gid) u.(ua_lockout_until) u.(ua_fail_count) u.(ua_salt) u.(ua_valid) u.(ua_pass_hash)
    u.(ua_home) u.(ua_shell) slot.
Definition with_password (u : user_account) (salt hash : list Z) : user_account :=
  mk_user u.(ua_name) u.(ua_uid) u.(ua_gid) u.(ua_lockout_until) u.(ua_fail_count) salt u.(ua_valid) hash
    u.(ua_home) u.(ua_shell) u.(ua_keyslot).
Definition with_attempts (u : user_account) (count until : Z) : user_account :=
  mk_user u.(ua_name) u.(ua_uid) u.(ua_gid) until count u.(ua_salt) u.(ua_valid) u.(ua_pass_hash)
    u.(ua_home) u.(ua_shell) u.(ua_keyslot).
(** Everything but the password. *)
Definition with_identity (u : user_account) (name : list Z) (uid gid : Z) (home shell : list Z) (slot : Z) : user_account :=
  mk_user (kstrcpy u.(ua_name) name) uid gid 0 0 u.(ua_salt) u.(ua_valid) u.(ua_pass_hash)
    (kstrcpy u.(ua_home) home) (kstrcpy u.(ua_shell) shell) slot.

(** What the accounts need of the volume (storage.c): each call may change it
    and gives its return code. *)
Class Volume (V : Type) := {
  storage_unlock : V -> list Z -> V * Z;
  storage_users_save : V -> list user_account -> V * Z;
  storage_users_load : V -> Z * list user_account;
  storage_volume_has_keyslots : V -> bool;
  storage_unlocked_uid : V -> Z;
  storage_unlocked_slot : V -> Z;
  storage_rekey : V -> Z -> Z -> list Z -> V * Z;
  storage_keyslot_add : V -> list Z -> Z -> V * Z * Z;
  storage_keyslot_remove : V -> Z -> V * Z
}.

Record ustate (V : Type) := mk_us {
  users : list user_account; user_count : Z; next_uid : Z; g_users_restored : bool; g_users_tampered : bool;
  g_users_compiled_pw : list bool; throttle : GlobalThrottle; volume : V; random : list Z; log : audit_state
}.
Arguments mk_us {V}. Arguments users {V}. Arguments user_count {V}. Arguments next_uid {V}. Arguments g_users_restored {V}.
Arguments g_users_tampered {V}. Arguments g_users_compiled_pw {V}. Arguments throttle {V}. Arguments volume {V}.
Arguments random {V}. Arguments log {V}.

Section kusers.
(** The volume, and the memory-hard hash of a password under a salt. *)
Context {V : Type} `{Volume V} (argon2id : list Z -> list Z -> list Z).
Implicit Types s : ustate V.

Definition set_users s l : ustate V :=
  mk_us l s.(user_count) s.(next_uid) s.(g_users_restored) s.(g_users_tampered) s.(g_users_compiled_pw) s.(throttle) s.(volume) s.(random) s.(log).
Definition set_counts s count next : ustate V :=
  mk_us s.(users) count next s.(g_users_restored) s.(g_users_tampered) s.(g_users_compiled_pw) s.(throttle) s.(volume) s.(random) s.(log).
Definition set_flags s restored tampered : ustate V :=
  mk_us s.(users) s.(user_count) s.(next_uid) restored tampered s.(g_users_compiled_pw) s.(throttle) s.(volume) s.(random) s.(log).
Definition set_compiled s c : ustate V :=
  mk_us s.(users) s.(user_count) s.(next_uid) s.(g_users_restored) s.(g_users_tampered) c s.(throttle) s.(volume) s.(random) s.(log).
Definition set_throttle s t : ustate V :=
  mk_us s.(users) s.(user_count) s.(next_uid) s.(g_users_restored) s.(g_users_tampered) s.(g_users_compiled_pw) t s.(volume) s.(random) s.(log).
Definition set_volume s v : ustate V :=
  mk_us s.(users) s.(user_count) s.(next_uid) s.(g_users_restored) s.(g_users_tampered) s.(g_users_compiled_pw) s.(throttle) v s.(random) s.(log).
Definition set_random s r : ustate V :=
  mk_us s.(users) s.(user_count) s.(next_uid) s.(g_users_restored) s.(g_users_tampered) s.(g_users_compiled_pw) s.(throttle) s.(volume) r s.(log).
Definition set_log s l : ustate V :=
  mk_us s.(users) s.(user_count) s.(next_uid) s.(g_users_restored) s.(g_users_tampered) s.(g_users_compiled_pw) s.(throttle) s.(volume) s.(random) l.

Definition user_at s (i : Z) : user_account := zget user_zero s.(users) i.
Definition upd_user s (i : Z) (f : user_account -> user_account) : ustate V := set_users s (zset s.(users) i (f (user_at s i))).
(** The first account that satisfies [p]. *)
Definition find_user s (p : user_account -> bool) : option Z :=
  find_index (fun i => p (user_at s i)) 0 (Z.to_nat MAX_USERS).
(** The CSPRNG is the bytes it will give. *)
Definition secure_random_bytes s (n : Z) : list Z * ustate V :=
  let r := s.(random) ++ replicate (Z.to_nat n) 0 in
  (take (Z.to_nat n) r, set_random s (drop (Z.to_nat n) s.(random))).
(** audit_log as the current task at [ticks]. *)
Definition audit (k : kstate) s (ticks type object result : Z) (msg : string) : ustate V :=
  set_log s (audit_log s.(log)
    (mk_acall ticks (cur_task k).(t_ids).(id_uid) k.(cur) type object result (Some (byte_string msg ++ [0])))).

Definition account_pepper : list Z := replicate 16 0.
Definition users_compiled_pw_clear_all s : ustate V := set_compiled s (replicate (Z.to_nat MAX_USERS) false).
Definition users_persist s : ustate V :=
  if existsb (fun i => (user_at s i).(ua_valid) && zget false s.(g_users_compiled_pw) i) (seqZ 0 MAX_USERS) then s else
  let '(v, rc) := storage_users_save s.(volume) s.(users) in
  let s := set_volume s v in
  if rc =? 0 then set_flags s true s.(g_users_tampered) else s.
(** The bookkeeping a loaded table does not carry. *)
Definition recount s : ustate V :=
  foldl (fun s i => let u := user_at s i in
                    if u.(ua_valid) then set_counts s (s.(user_count) + 1) (if s.(next_uid) <=? u.(ua_uid) then u32 (u.(ua_uid) + 1) else s.(next_uid))
                    else s)
    (set_counts s 0 1000) (seqZ 0 MAX_USERS).
Definition users_unlock_and_restore (k : kstate) s (ticks : Z) (pw : list Z) : ustate V :=
  if s.(g_users_restored) then s else
  let '(v, rc) := storage_unlock s.(volume) pw in
  let s := set_volume s v in
  if negb (rc =? 0) then s else
  let '(rc, table) := storage_users_load s.(volume) in
  if rc =? -3 then audit k (set_flags s s.(g_users_restored) true) ticks AUDIT_AUTH 0 0 "user table integrity failure"
  else if rc =? 0 then recount (users_compiled_pw_clear_all (set_flags (set_users s table) true s.(g_users_tampered)))
  else users_persist s.

Definition strong_password_hash (password salt pepper : list Z) : list Z := argon2id (cstr password) (salt ++ pepper).
Definition set_user_password s (uid : Z) (new_password : list Z) : ustate V * Z :=
  match find_user s (fun u => u.(ua_valid) && (u.(ua_uid) =? uid)) with
  | None => (s, -1)
  | Some i =>
      let '(salt, s) := secure_random_bytes s PASS_SALT_LEN in
      let s := upd_user s i (fun u => with_password u salt (strong_password_hash new_password salt account_pepper)) in
      (set_compiled s (zset s.(g_users_compiled_pw) i false), 0)
  end.

(** The loop over the characters of the given name, then the test of the given
    name at the length of the account's. *)
Definition name_matches (u : user_account) (name : list Z) : bool :=
  forallb (fun j => zget 0 u.(ua_name) j =? zget 0 name j) (seqZ 0 (Z.min 32 (kstrlen name)))
  && (zget 0 name (kstrlen u.(ua_name)) =? 0).
Definition verify_user_password s (name password : list Z) : bool :=
  match find_user s (fun u => u.(ua_valid) && name_matches u name) with
  | Some i => rust_ct_eq (strong_password_hash password (user_at s i).(ua_salt) account_pepper) (user_at s i).(ua_pass_hash) PASS_HASH_LEN
  | None => false
  end.
Definition verify_password s (name pass : list Z) : bool := verify_user_password s name pass.
Definition find_user_by_name s (name : list Z) : option Z :=
  find_user s (fun u => u.(ua_valid) && (kstrlen u.(ua_name) =? kstrlen name)
                        && forallb (fun j => zget 0 u.(ua_name) j =? zget 0 name j) (seqZ 0 (kstrlen name))).
Definition find_user_by_uid s (uid : Z) : option Z := find_user s (fun u => u.(ua_valid) && (u.(ua_uid) =? uid)).

(** ** Boot *)
Definition seed_account s (i uid gid : Z) (name home : string) : ustate V :=
  upd_user s i (fun u => with_valid (with_identity u (byte_string name ++ [0]) uid gid (byte_string home ++ [0])
                                       (byte_string "/bin/shell" ++ [0]) u.(ua_keyslot)) true).
Definition users_init s : ustate V :=
  let s := set_users s ((fun u => with_keyslot (with_valid u false) KEYSLOT_NONE) <$> s.(users)) in
  let s := set_counts s 0 1000 in
  let '(pepper, s) := secure_random_bytes s 16 in
  let s := set_log s (audit_chain_start s.(log) pepper) in
  let s := seed_account s 0 0 0 "root" "/" in
  let s := (set_user_password s 0 (byte_string "toor" ++ [0])).1 in
  let s := set_counts s 1 s.(next_uid) in
  let s := seed_account s 1 1000 100 "user" "/home/user" in
  let s := (set_user_password s 1000 (byte_string "password" ++ [0])).1 in
  let s := set_counts s 2 s.(next_uid) in
  let s := users_compiled_pw_clear_all s in
  let s := set_compiled s (zset (zset s.(g_users_compiled_pw) 0 true) 1 true) in
  match find_user s (fun u => u.(ua_valid) && (kstrcmp u.(ua_name) (byte_string "user" ++ [0]) =? 0)) with
  | Some _ => s
  | None =>
      match find_user s (fun u => negb u.(ua_valid)) with
      | None => s
      | Some i =>
          let s := seed_account s i 1000 100 "user" "/home/user" in
          let s := set_counts s (i + 1) s.(next_uid) in
          (set_user_password s 1000 (byte_string "password" ++ [0])).1
      end
  end.
(** [live]: booted from the live entry; [disks]: the persistent devices. *)
Definition users_apply_boot_policy s (live : bool) (disks : Z) : ustate V :=
  if live || (disks =? 0) then s else
  foldl (fun s i =>
    let u := user_at s i in
    if negb u.(ua_valid) then s else
    let s := set_compiled s (zset s.(g_users_compiled_pw) i false) in
    if u.(ua_uid) =? 0 then
      let '(salt, s) := secure_random_bytes s PASS_SALT_LEN in
      let '(hash, s) := secure_random_bytes s PASS_HASH_LEN in
      upd_user s i (fun u => with_password u salt hash)
    else
      let s := upd_user s i (fun _ => with_keyslot user_zero KEYSLOT_NONE) in
      if 0 <? s.(user_count) then set_counts s (s.(user_count) - 1) s.(next_uid) else s)
    s (seqZ 0 MAX_USERS).

(** ** Administration *)
Definition current_user_is_admin (k : kstate) : bool :=
  bool_decide (cap_lookup k CAPSLOT_USER CAP_USER CAP_RIGHT_ALL <> None).

(** The refusals of useradd, in the order of the loop. *)
Definition useradd_clash s (uid : Z) (name : list Z) : option Z :=
  foldl (fun r i => match r with
                    | Some _ => r
                    | None => let u := user_at s i in
                              if negb u.(ua_valid) then None
                              else if u.(ua_uid) =? uid then Some (-4)
                              else if kstrcmp u.(ua_name) name =? 0 then Some (-5) else None
                    end) None (seqZ 0 MAX_USERS).
Definition do_useradd (k : kstate) s (ticks uid gid : Z) (name initial_password : list Z) : ustate V * Z :=
  if negb (current_user_is_admin k) then (s, -1) else
  if MAX_USERS <=? s.(user_count) then (s, -2) else
  if (kstrlen name =? 0) || (32 <=? kstrlen name) then (s, -3) else
  match useradd_clash s uid name with
  | Some e => (s, e)
  | None =>
      match find_user s (fun u => negb u.(ua_valid)) with
      | None => (s, -6)
      | Some i =>
          let s := upd_user s i (fun u => with_identity u name uid gid (byte_string "/home/" ++ cstr name ++ [0])
                                            (byte_string "/bin/shell" ++ [0]) KEYSLOT_NONE) in
          let s := set_compiled s (zset s.(g_users_compiled_pw) i false) in
          let s := if negb (hd 0 initial_password =? 0) then (set_user_password s uid initial_password).1
                   else let '(salt, s) := secure_random_bytes s PASS_SALT_LEN in
                        let '(hash, s) := secure_random_bytes s PASS_HASH_LEN in
                        upd_user s i (fun u => with_password u salt hash) in
          let s := upd_user s i (fun u => with_valid u true) in
          let s := set_counts s (s.(user_count) + 1) (if s.(next_uid) <=? uid then u32 (uid + 1) else s.(next_uid)) in
          (users_persist (audit k s ticks AUDIT_USER_MGMT uid 0 "useradd"), 0)
      end
  end.

(** The entry handed out: uid, gid, name and home. *)
Record user_entry := mk_uentry { ue_uid : Z; ue_gid : Z; ue_name : list Z; ue_home : list Z }.
Definition do_userlist (k : kstate) s (index : Z) : Z * option user_entry :=
  if negb (current_user_is_admin k) then (-1, None) else
  match filter (fun i => (user_at s i).(ua_valid) = true) (seqZ 0 MAX_USERS) !! Z.to_nat index with
  | None => (0, None)
  | Some i => let u := user_at s i in
              (1, Some (mk_uentry u.(ua_uid) u.(ua_gid) (kstrcpy (zeros 32) u.(ua_name)) (kstrcpy (zeros 64) u.(ua_home))))
  end.

Definition do_userdel (k : kstate) s (uid : Z) : ustate V * Z :=
  if negb (current_user_is_admin k) then (s, -1) else
  if uid =? 0 then (s, -2) else
  match find_user s (fun u => u.(ua_valid) && (u.(ua_uid) =? uid)) with
  | None => (s, -3)
  | Some i =>
      let s := upd_user s i (fun u => with_valid u false) in
      let s := set_compiled s (zset s.(g_users_compiled_pw) i false) in
      (users_persist (set_counts s (s.(user_count) - 1) s.(next_uid)), 0)
  end.

(** Changing one's own password reseals the slot that is one's own. *)
Definition passwd_own (k : kstate) s (ticks i uid : Z) (pw : list Z) : ustate V * Z :=
  let slots := storage_volume_has_keyslots s.(volume) in
  let own_slot := if negb slots then KEYSLOT_NONE
                  else if storage_unlocked_uid s.(volume) =? uid then storage_unlocked_slot s.(volume)
                  else (user_at s i).(ua_keyslot) in
  let '(v, rrc) := if slots then storage_rekey s.(volume) own_slot uid (cstr pw) else (s.(volume), 0) in
  let s := set_volume s v in
  if negb (rrc =? 0) && negb (rrc =? -1) then
    (audit k s ticks AUDIT_USER_MGMT uid (-1)
       (if rrc =? -5 then "passwd: own key slot not known this boot" else "passwd: volume rewrap failed"), -30 + rrc)
  else
    let '(s, rc) := set_user_password s uid pw in
    if negb (rc =? 0) then (s, rc) else
    let s := if storage_volume_has_keyslots s.(volume) then upd_user s i (fun u => with_keyslot u own_slot) else s in
    (users_persist s, 0).
(** An administrator's change grants a slot, then sets the hash, then spends
    the old slot. *)
Definition passwd_other (k : kstate) s (ticks i uid : Z) (pw : list Z) : ustate V * Z :=
  let '(v, krc, idx) := if storage_volume_has_keyslots s.(volume) then storage_keyslot_add s.(volume) (cstr pw) uid
                        else (s.(volume), 0, KEYSLOT_NONE) in
  let s := set_volume s v in
  if negb (krc =? 0) then (audit k s ticks AUDIT_USER_MGMT uid (-1) "passwd: no key slot available", -20 + krc) else
  let '(s, rc) := set_user_password s uid pw in
  if negb (rc =? 0) then
    ((if negb (idx =? KEYSLOT_NONE) then set_volume s (storage_keyslot_remove s.(volume) idx).1 else s), rc)
  else
    let s := if idx =? KEYSLOT_NONE then s else
      let old := (user_at s i).(ua_keyslot) in
      let s := upd_user s i (fun u => with_keyslot u idx) in
      if negb (old =? KEYSLOT_NONE) && negb (old =? idx) then set_volume s (storage_keyslot_remove s.(volume) old).1 else s in
    (users_persist s, 0).
Definition do_passwd (k : kstate) s (ticks target_uid : Z) (new_password : list Z) : ustate V * Z :=
  let my_uid := (cur_task k).(t_ids).(id_uid) in
  if negb (current_user_is_admin k) && negb (my_uid =? target_uid) then (s, -1) else
  match find_user_by_uid s target_uid with
  | None => (s, -1)
  | Some i => if target_uid =? my_uid then passwd_own k s ticks i target_uid new_password
              else passwd_other k s ticks i target_uid new_password
  end.

(** ** Logging in *)

(** 31 copied bytes and a terminator. *)
Definition copied_name (b : list Z) : list Z := take 31 b ++ [0].
Definition upd_ids (k : kstate) (ids : task_ids) : kstate :=
  let t := cur_task k in
  set_task k k.(cur)
    (mk_task t.(t_state) t.(t_cspace) t.(t_cspace_size) t.(t_slot_gen) t.(t_runnable_ctx) t.(t_blocked_on) t.(t_blocked_on_notif)
       t.(t_stdio_flags) t.(t_priority) t.(t_max_priority) t.(t_name) ids t.(t_sig) t.(t_wait) t.(t_image) t.(t_ipc)).
Record auth_result := mk_auth { au_kernel : kstate; au_state : ustate V; au_rax : Z; au_uid_out : option Z }.
Definition auth_refused (k : kstate) s : auth_result := mk_auth k s (u32 SYS_ERR_AUTH) None.
(** A login whose password was found right; [u] is the account of that name. *)
Definition auth_success (k : kstate) s (ticks rdx : Z) (u : option Z) (upass : list Z) : auth_result :=
  let s := set_throttle s rust_auth_global_on_success in
  match u with
  | None => mk_auth k s 0 None
  | Some i =>
      let s := upd_user s i (fun u => with_attempts u 0 0) in
      let a := user_at s i in
      let k := upd_ids k (mk_ids a.(ua_uid) a.(ua_gid)) in
      let s := set_volume s (storage_unlock s.(volume) (cstr upass)).1 in
      mk_auth k (audit k s ticks AUDIT_AUTH 0 0 "login success") 0 (if rdx =? 0 then None else Some a.(ua_uid))
  end.
Definition auth_failure (k : kstate) s (ticks now : Z) (u : option Z) : auth_result :=
  let s := set_throttle s (rust_auth_global_on_failure s.(throttle) now) in
  let s := match u with
           | None => s
           | Some i => upd_user s i (fun a => let '(count, lockout) := rust_auth_on_failure a.(ua_fail_count) now in
                                              with_attempts a count (if lockout =? 0 then a.(ua_lockout_until) else u32 lockout))
           end in
  mk_auth k (audit k s ticks AUDIT_AUTH 0 (-1) "login failure") (u32 SYS_ERR_AUTH) None.
(** What happens before the password is looked at: a refusal, or the state in
    which it is checked and the account of the name.  [ticks] is the time at
    entry and [ticks'] the time of the audit entries. *)
Definition auth_gate (k : kstate) s (ticks ticks' : Z) (uname upass : list Z) : auth_result + ustate V * option Z :=
  let now := u32 ticks in
  if s.(g_users_tampered) then inl (auth_refused k s) else
  if rust_auth_global_locked s.(throttle) now then inl (auth_refused k s) else
  let s := users_unlock_and_restore k s ticks' (cstr upass) in
  let u := find_user_by_name s uname in
  if match u with Some i => rust_auth_is_locked (user_at s i).(ua_lockout_until) now | None => false end
  then inl (auth_refused k s) else inr (s, u).
(** The name and the password are the 31 bytes copied in, if the copies
    succeed. *)
Definition h_auth (k : kstate) s (ticks ticks' : Z) (uname upass : option (list Z)) (rdx : Z) : auth_result :=
  match uname, upass with
  | Some n, Some p =>
      let uname := copied_name n in
      let upass := copied_name p in
      match auth_gate k s ticks ticks' uname upass with
      | inl r => r
      | inr (s, u) => if verify_password s uname upass then auth_success k s ticks' rdx u upass
                      else auth_failure k s ticks' (u32 ticks) u
      end
  | _, _ => mk_auth k s (u32 SYS_ERR_FAULT) None
  end.

(** ** The other handlers *)
Definition h_useradd (k : kstate) s (ticks rbx rcx : Z) (name : option (list Z)) : ustate V * Z :=
  match name with
  | None => (s, u64 (-1))
  | Some n => let '(s, rc) := do_useradd k s ticks (u32 rbx) (u32 rcx) (copied_name n) [0] in (s, u64 rc)
  end.
Definition h_userdel (k : kstate) s (rbx : Z) : ustate V * Z :=
  let '(s, rc) := do_userdel k s (u32 rbx) in (s, u64 rc).
Definition h_userlist (k : kstate) s (rbx : Z) (copied : bool) : Z * option user_entry :=
  match do_userlist k s (u32 rbx) with
  | (_, Some e) => if copied then (1, Some e) else (u32 SYS_ERR_FAULT, None)
  | (rc, None) => (u32 (if rc <? 0 then SYS_ERR_PERM else 0), None)
  end.
Definition h_passwd (k : kstate) s (ticks rbx : Z) (newpass : option (list Z)) : ustate V * Z :=
  match newpass with
  | None => (s, u64 (-1))
  | Some p => let '(s, rc) := do_passwd k s ticks (u32 rbx) (copied_name p) in (s, u64 rc)
  end.
(** Withdrawn calls: the numbers stay reserved. *)
Definition h_sudo : Z := u32 SYS_ERR_NOSYS.
Definition h_rotate_keys : Z := u32 SYS_ERR_NOSYS.
(** h_get_pass: the line read from the characters typed; [None] is a line not
    yet ended. *)
Fixpoint get_pass_line (max_len : Z) (line typed : list Z) : option (list Z) :=
  if max_len <=? zlen line then Some line else
  match typed with
  | [] => None
  | ch :: typed =>
      if (ch =? 13) || (ch =? 10) then Some line
      else if (ch =? 8) || (ch =? 0x7F) then get_pass_line max_len (removelast line) typed
      else if ch <? 32 then get_pass_line max_len line typed
      else get_pass_line max_len (line ++ [ch]) typed
  end.
(** [held]: the caller holds the console's read capability; [owned]: a console
    server owns the UART.  [None] is still waiting for a key. *)
Definition h_get_pass (held owned : bool) (rcx : Z) (typed : list Z) (copied : bool) : option (Z * list Z) :=
  let max_len := if 127 <? u32 rcx then 127 else u32 rcx in
  if negb held then Some (u32 SYS_ERR_PERM, []) else
  if owned then Some (u32 SYS_ERR_BUSY, []) else
  line ← get_pass_line max_len [] typed;
  Some (if copied then (zlen line, line ++ [0]) else (u64 (-1), [])).
End kusers.
