(* ===== verification/UsersSpec.v ===== *)
(** What the accounts and logins of Users.v guarantee: when a login succeeds,
    how fast passwords can be guessed, what the account table always satisfies,
    and that a password set is a password accepted. *)
From Stdlib Require Import Strings.String Strings.Ascii.
From S2P Require Import Prelude KTypes Sha256 AuditLog KState CSpace TaskLife Kernel Users.

(** ** Strings *)
Definition terminated (l : list Z) : Prop := kstrlen l < zlen l.
Lemma cstr_cons x l : cstr (x :: l) = if x =? 0 then [] else x :: cstr l.
Proof. done. Qed.
Lemma cstr_split l : exists r, l = cstr l ++ r /\ hd 0 r = 0.
Proof.
  induction l as [|x l (r & Hr & H0)]; [by exists []|]. rewrite cstr_cons. destruct (Z.eqb_spec x 0) as [->|Hx].
  - by exists (0 :: l).
  - exists r. split; [|done]. cbn [app]. by rewrite <- Hr.
Qed.
Lemma cstr_nonzero l : Forall (fun x => x <> 0) (cstr l).
Proof.
  induction l as [|x l IH]; [constructor|]. rewrite cstr_cons. destruct (Z.eqb_spec x 0); [constructor|]. by constructor.
Qed.
Lemma cstr_app_zero a r : Forall (fun x => x <> 0) a -> cstr (a ++ 0 :: r) = a.
Proof.
  induction 1 as [|x a Hx _ IH]; [done|]. cbn [app]. rewrite cstr_cons. destruct (Z.eqb_spec x 0); [done|]. by rewrite IH.
Qed.
Lemma kstrcmp_zero a b : kstrcmp a b = 0 <-> cstr a = cstr b.
Proof.
  revert b. induction a as [|x a IH]; intros [|y b]; cbn [kstrcmp hd tl]; rewrite ?cstr_cons; try done.
  - destruct (Z.eqb_spec y 0); [by subst|]. split; [lia|done].
  - destruct (Z.eqb_spec x 0) as [->|]; cbn [negb andb]; [done|]. split; [lia|done].
  - destruct (Z.eqb_spec x 0) as [->|Hx]; cbn [negb andb].
    + destruct (Z.eqb_spec y 0); [by subst|]. split; [lia|done].
    + destruct (Z.eqb_spec x y) as [->|Hxy].
      * destruct (Z.eqb_spec y 0); [done|]. rewrite IH. split; [by intros ->|by intros [=]].
      * split; [lia|]. destruct (Z.eqb_spec y 0); [done|]. by intros [=].
Qed.
(** The characters of the string, and the zero after them. *)
Lemma zget_cstr l j : 0 <= j < kstrlen l -> zget 0 l j = zget 0 (cstr l) j.
Proof.
  intros Hj. destruct (cstr_split l) as (r & Hr & _). unfold kstrlen, zlen in Hj. rewrite !zget_lookup by lia.
  apply (f_equal (.!! Z.to_nat j)) in Hr. rewrite lookup_app_l in Hr by lia. by rewrite Hr.
Qed.
Lemma zget_cstr_end l : zget 0 l (kstrlen l) = 0.
Proof.
  destruct (cstr_split l) as (r & Hr & H0). unfold kstrlen, zlen. rewrite zget_lookup, Nat2Z.id by lia.
  apply (f_equal (.!! length (cstr l))) in Hr. rewrite lookup_app_r, Nat.sub_diag in Hr by lia. rewrite Hr.
  destruct r; [done|exact H0].
Qed.
Lemma cstr_eq_iff a b :
  cstr a = cstr b <-> kstrlen a = kstrlen b /\ (forall j, 0 <= j < kstrlen b -> zget 0 a j = zget 0 b j).
Proof.
  split.
  - intros E. assert (kstrlen a = kstrlen b) as El by (unfold kstrlen; by rewrite E). split; [done|].
    intros j Hj. rewrite (zget_cstr a), (zget_cstr b) by lia. by rewrite E.
  - intros [El E]. apply (list_eq_zget 0); [done|]. intros j Hj. fold (kstrlen a) in Hj.
    rewrite <- (zget_cstr a), <- (zget_cstr b) by lia. apply E. lia.
Qed.
(** The name test of the lookup compares the strings; that of the password
    check only asks for a prefix. *)
Lemma forallb_seqZ (p : Z -> bool) n : forallb p (seqZ 0 n) = true <-> forall j, 0 <= j < n -> p j = true.
Proof.
  rewrite forallb_forall. split; intros HP j Hj; apply HP; [apply list_elem_of_In, elem_of_seqZ; lia|].
  apply list_elem_of_In, elem_of_seqZ in Hj. lia.
Qed.
Lemma same_name_iff u name :
  (kstrlen u =? kstrlen name) && forallb (fun j => zget 0 u j =? zget 0 name j) (seqZ 0 (kstrlen name)) = true
  <-> cstr u = cstr name.
Proof.
  rewrite andb_true_iff, forallb_seqZ, Z.eqb_eq, cstr_eq_iff.
  split; intros [Hl HE]; (split; [done|]); intros j Hj; specialize (HE j Hj); lia.
Qed.
Lemma prefix_chars a b :
  Forall (fun x => x <> 0) a -> (forall i, (i < length a)%nat -> default 0 (b !! i) = default 0 (a !! i)) -> a `prefix_of` cstr b.
Proof.
  intros Ha. revert b. induction Ha as [|x a Hx _ IH]; intros b Hb; [apply prefix_nil|].
  pose proof (Hb 0%nat ltac:(cbn; lia)) as H0. destruct b as [|y b]; [done|]. cbn in H0. subst y.
  rewrite cstr_cons. destruct (Z.eqb_spec x 0); [done|]. apply prefix_cons, IH. intros i Hi.
  apply (Hb (S i)). cbn. lia.
Qed.
Lemma name_matches_iff u name :
  kstrlen name <= 32 ->
  name_matches u name = true <-> cstr name `prefix_of` cstr u.(ua_name) /\ zget 0 name (kstrlen u.(ua_name)) = 0.
Proof.
  intros Hn. unfold name_matches. rewrite andb_true_iff, forallb_seqZ, Z.eqb_eq, Z.min_r by done.
  split; intros [HE HZ]; (split; [|done]).
  - apply prefix_chars; [apply cstr_nonzero|]. intros i Hi. unfold kstrlen, zlen in HE.
    specialize (HE (Z.of_nat i) ltac:(lia)). rewrite Z.eqb_eq in HE. rewrite (zget_cstr name) in HE by (unfold kstrlen, zlen; lia).
    rewrite !zget_lookup, Nat2Z.id in HE by lia. done.
  - intros j Hj. apply Z.eqb_eq. pose proof (prefix_length _ _ HE) as Hl. unfold kstrlen, zlen in Hj.
    rewrite (zget_cstr (ua_name u)), (zget_cstr name) by (unfold kstrlen, zlen; lia). rewrite !zget_lookup by lia.
    by rewrite (prefix_lookup_lt (cstr name) (cstr (ua_name u)) (Z.to_nat j) ltac:(lia) HE).
Qed.
Lemma kstrlen_copied b : kstrlen (copied_name b) <= 31.
Proof.
  unfold kstrlen, zlen, copied_name. destruct (cstr_split (take 31 b ++ [0])) as (r & Hr & H0).
  destruct r as [|x r].
  - rewrite app_nil_r in Hr. pose proof (cstr_nonzero (take 31 b ++ [0])) as HF. rewrite <- Hr in HF.
    apply Forall_app in HF as [_ HF]. apply Forall_cons in HF as [HF _]. congruence.
  - apply (f_equal length) in Hr. rewrite !length_app, length_take in Hr. cbn [length] in Hr. lia.
Qed.

(** ** What the table satisfies

    There is room for 32 accounts; every name fits its array with a terminator, names
    and uids are not shared, and there is a root. *)
Definition name_ok (n : list Z) : Prop := length n = 32%nat /\ terminated n.
Record table_ok (t : list user_account) : Prop := {
  to_size : zlen t = 32;
  to_name : forall i, 0 <= i < 32 -> name_ok (zget user_zero t i).(ua_name);
  to_uids : forall i j, 0 <= i < 32 -> 0 <= j < 32 -> (zget user_zero t i).(ua_valid) = true -> (zget user_zero t j).(ua_valid) = true ->
    (zget user_zero t i).(ua_uid) = (zget user_zero t j).(ua_uid) -> i = j;
  to_names : forall i j, 0 <= i < 32 -> 0 <= j < 32 -> (zget user_zero t i).(ua_valid) = true -> (zget user_zero t j).(ua_valid) = true ->
    cstr (zget user_zero t i).(ua_name) = cstr (zget user_zero t j).(ua_name) -> i = j;
  to_root : exists i, 0 <= i < 32 /\ (zget user_zero t i).(ua_valid) = true /\ (zget user_zero t i).(ua_uid) = 0
}.

(** One for an account in use. *)
Definition in_use (t : list user_account) (i : Z) : Z := if (zget user_zero t i).(ua_valid) then 1 else 0.
Definition count_in_use (t : list user_account) : Z := zsum (in_use t) (seqZ 0 32).
(** Writing an account that clashes with none and does not unseat root. *)
Lemma table_put t i u :
  table_ok t -> 0 <= i < 32 -> name_ok u.(ua_name) ->
  (u.(ua_valid) = true -> forall j, 0 <= j < 32 -> j <> i -> (zget user_zero t j).(ua_valid) = true ->
     (zget user_zero t j).(ua_uid) <> u.(ua_uid) /\ cstr (zget user_zero t j).(ua_name) <> cstr u.(ua_name)) ->
  ((zget user_zero t i).(ua_valid) = true -> (zget user_zero t i).(ua_uid) = 0 -> u.(ua_valid) = true /\ u.(ua_uid) = 0) ->
  table_ok (zset t i u) /\ count_in_use (zset t i u) = count_in_use t - in_use t i + (if u.(ua_valid) then 1 else 0).
Proof.
  intros HT Hi Hn HC HR. pose proof (to_size _ HT) as Hz.
  assert (forall j, 0 <= j < 32 -> zget user_zero (zset t i u) j = if decide (j = i) then u else zget user_zero t j) as HG.
  { intros j Hj. case_decide as E; [subst; apply zget_zset_eq; lia|]. by apply zget_zset_ne. }
  split; [split|].
  - by rewrite zlen_zset.
  - intros j Hj. rewrite HG by done. case_decide; [done|by apply (to_name _ HT)].
  - intros j l Hj Hl. rewrite !HG by done. repeat case_decide; subst; try done; intros V1 V2 E.
    + by destruct (HC V1 l Hl ltac:(done) V2) as [[] _].
    + by destruct (HC V2 j Hj ltac:(done) V1) as [[] _].
    + by apply (to_uids _ HT).
  - intros j l Hj Hl. rewrite !HG by done. repeat case_decide; subst; try done; intros V1 V2 E.
    + by destruct (HC V1 l Hl ltac:(done) V2) as [_ []].
    + by destruct (HC V2 j Hj ltac:(done) V1) as [_ []].
    + by apply (to_names _ HT).
  - destruct (to_root _ HT) as (r & Hr & Hv & Hu). exists r. rewrite HG by done. case_decide; [subst; by split; [|apply HR]|done].
  - unfold count_in_use. rewrite (zsum_update (in_use t) (in_use (zset t i u)) (seqZ 0 32) i).
    + change (in_use (zset t i u) i) with (if (zget user_zero (zset t i u) i).(ua_valid) then 1 else 0).
      by rewrite HG, decide_True.
    + apply NoDup_seqZ.
    + apply elem_of_seqZ. lia.
    + intros j Hj. unfold in_use. by rewrite zget_zset_ne.
Qed.

(** ** Finding accounts *)
Section spec.
Context {V : Type} `{Volume V} (argon2id : list Z -> list Z -> list Z).
Implicit Types s : ustate V.

Lemma find_user_Some s p i :
  find_user s p = Some i -> 0 <= i < 32 /\ p (user_at s i) = true /\ (forall j, 0 <= j < i -> p (user_at s j) = false).
Proof. intros HF. apply find_index_Some in HF. done. Qed.
Lemma find_user_None s p i : find_user s p = None -> 0 <= i < 32 -> p (user_at s i) = false.
Proof. intros HF. apply (find_index_None _ _ _ HF). Qed.
Lemma find_user_unique s p i :
  0 <= i < 32 -> p (user_at s i) = true -> (forall j, 0 <= j < 32 -> p (user_at s j) = true -> j = i) -> find_user s p = Some i.
Proof.
  intros Hi Hp HU. destruct (find_user s p) as [j|] eqn:HF.
  - apply find_user_Some in HF as (Hj & Hpj & _). by rewrite (HU j).
  - by rewrite (find_user_None _ _ i HF) in Hp.
Qed.
Lemma find_user_ext s p q : (forall i, 0 <= i < 32 -> p (user_at s i) = q (user_at s i)) -> find_user s p = find_user s q.
Proof.
  intros HE. destruct (find_user s p) as [i|] eqn:HP.
  - apply find_user_Some in HP as (Hi & Hp & Hm). symmetry. destruct (find_user s q) as [j|] eqn:HQ.
    + apply find_user_Some in HQ as (Hj & Hq & Hm'). f_equal. destruct (Z.lt_trichotomy i j) as [Hl|[->|Hl]]; [|done|].
      * specialize (Hm' i ltac:(lia)). by rewrite <- HE, Hp in Hm'.
      * specialize (Hm j ltac:(lia)). rewrite HE in Hm by done. congruence.
    + pose proof (find_user_None _ _ i HQ Hi) as Hn. by rewrite <- HE, Hp in Hn.
  - destruct (find_user s q) as [j|] eqn:HQ; [|done]. apply find_user_Some in HQ as (Hj & Hq & _).
    pose proof (find_user_None _ _ j HP Hj) as Hn. rewrite HE in Hn by done. congruence.
Qed.

Definition named s (i : Z) (name : list Z) : Prop :=
  0 <= i < 32 /\ (user_at s i).(ua_valid) = true /\ cstr (user_at s i).(ua_name) = cstr name.
(** No account's name goes on after the given one. *)
Definition prefix_free s (name : list Z) : Prop :=
  forall i, 0 <= i < 32 -> (user_at s i).(ua_valid) = true ->
    cstr name `prefix_of` cstr (user_at s i).(ua_name) -> cstr name = cstr (user_at s i).(ua_name).
Definition right_password s (i : Z) (pw : list Z) : bool :=
  rust_ct_eq (strong_password_hash argon2id pw (user_at s i).(ua_salt) account_pepper) (user_at s i).(ua_pass_hash) PASS_HASH_LEN.

Lemma by_name_Some s name i : table_ok s.(users) -> named s i name -> find_user_by_name s name = Some i.
Proof.
  intros HT (Hi & Hv & Hn). apply find_user_unique; [done| |].
  - rewrite Hv. cbn [andb]. by apply same_name_iff.
  - intros j Hj HP. rewrite <- andb_assoc in HP. apply andb_true_iff in HP as [Hvj HP]. apply same_name_iff in HP.
    apply (to_names _ HT); [done..|]. fold (user_at s i) (user_at s j). congruence.
Qed.
Lemma by_name_named s name i : find_user_by_name s name = Some i -> named s i name.
Proof.
  intros HF. apply find_user_Some in HF as (Hi & HP & _). rewrite <- andb_assoc in HP. apply andb_true_iff in HP as [Hv HP].
  by apply same_name_iff in HP.
Qed.
(** Where no name extends the given one, the password check looks at the
    account the lookup found. *)
Lemma verify_named s name pw :
  kstrlen name <= 32 -> prefix_free s name ->
  verify_password argon2id s name pw = match find_user_by_name s name with Some i => right_password s i pw | None => false end.
Proof.
  intros Hl HP. assert (find_user s (fun u => u.(ua_valid) && name_matches u name) = find_user_by_name s name) as HE;
    [|by unfold verify_password, verify_user_password, right_password; rewrite HE].
  apply find_user_ext.
  intros i Hi. rewrite <- andb_assoc. destruct (ua_valid (user_at s i)) eqn:Hv; [|done]. cbn [andb].
  apply eq_true_iff_eq. rewrite (name_matches_iff _ _ Hl), same_name_iff. split.
  - intros [HE _]. symmetry. by apply HP.
  - intros HE. rewrite HE. split; [done|]. unfold kstrlen. rewrite HE. apply zget_cstr_end.
Qed.
Lemma cur_upd_ids k ids : 0 <= k.(cur) < zlen k.(tasks) -> (cur_task (upd_ids k ids)).(t_ids) = ids.
Proof. intros Hc. unfold cur_task, upd_ids, task_at, set_task. cbn [cur tasks set_tasks]. by rewrite zget_zset_eq. Qed.

(** What a login comes to, in the state in which the password is checked. *)
Lemma auth_exact k s ticks ticks' n p rdx :
  let name := copied_name n in
  let pw := copied_name p in
  let s1 := users_unlock_and_restore k s ticks' (cstr pw) in
  let r := h_auth argon2id k s ticks ticks' (Some n) (Some p) rdx in
  0 <= k.(cur) < zlen k.(tasks) -> table_ok s1.(users) -> prefix_free s1 name ->
  (r.(au_rax) = 0 <-> s.(g_users_tampered) = false /\ rust_auth_global_locked s.(throttle) (u32 ticks) = false
                     /\ exists i, named s1 i name /\ (user_at s1 i).(ua_lockout_until) <= u32 ticks /\ right_password s1 i pw = true)
  /\ (forall i, r.(au_rax) = 0 -> named s1 i name ->
       (cur_task r.(au_kernel)).(t_ids) = mk_ids (user_at s1 i).(ua_uid) (user_at s1 i).(ua_gid))
  /\ (r.(au_rax) <> 0 -> r.(au_kernel) = k /\ r.(au_uid_out) = None).
Proof.
  cbv zeta. intros Hc HT HP. unfold h_auth, auth_gate. cbv zeta.
  set (name := copied_name n) in *. set (pw := copied_name p) in *. set (s1 := users_unlock_and_restore _ _ _ _) in *.
  assert (u32 SYS_ERR_AUTH <> 0) as HA by done. assert (kstrlen name <= 32) as Hl by (pose proof (kstrlen_copied n); unfold name; lia).
  destruct (g_users_tampered s); [split; [split; [done|by intros (? & _)]|split; [done|done]]|].
  destruct (rust_auth_global_locked _ _); [split; [split; [done|by intros (_ & ? & _)]|split; [done|done]]|].
  pose proof (verify_named s1 name pw Hl HP) as HV. destruct (find_user_by_name s1 name) as [i|] eqn:HF.
  - pose proof (by_name_named _ _ _ HF) as HN. assert (forall j, named s1 j name -> j = i) as HU.
    { intros j Hj. apply (by_name_Some _ _ _ HT) in Hj. congruence. }
    unfold rust_auth_is_locked. destruct (Z.ltb_spec (u32 ticks) (ua_lockout_until (user_at s1 i))).
    { split; [split; [done|]|split; [done|done]]. intros (_ & _ & j & Hj & Hk & _). rewrite (HU j Hj) in Hk. lia. }
    rewrite HV. destruct (right_password s1 i pw) eqn:HR.
    + split; [split; [|done]; intros _; by eauto 10|]. split; [|done]. intros j _ Hj. rewrite (HU j Hj).
      cbn [auth_success au_kernel]. rewrite cur_upd_ids by done. unfold user_at, upd_user. cbn [users set_users set_throttle].
      rewrite zget_zset_eq; [done|]. rewrite (to_size _ HT). apply HN.
    + split; [split; [done|]|split; [done|done]]. intros (_ & _ & j & Hj & _ & Hr). rewrite (HU j Hj) in Hr. congruence.
  - rewrite HV. split; [split; [done|]|split; [done|done]]. intros (_ & _ & j & Hj & _). apply (by_name_Some _ _ _ HT) in Hj. congruence.
Qed.

Lemma auth_keeps_flag k s ticks ticks' n p rdx :
  let s1 := users_unlock_and_restore k s ticks' (cstr (copied_name p)) in
  s1.(g_users_tampered) = true -> rust_auth_global_locked s.(throttle) (u32 ticks) = false ->
  (h_auth argon2id k s ticks ticks' (Some n) (Some p) rdx).(au_state).(g_users_tampered) = true.
Proof.
  cbv zeta. intros HT HG. unfold h_auth, auth_gate. cbv zeta. rewrite HG. destruct (g_users_tampered s) eqn:HS; [done|].
  set (s1 := users_unlock_and_restore _ _ _ _) in *. clearbody s1. destruct (find_user_by_name s1 (copied_name n)) as [i|].
  - destruct (rust_auth_is_locked _ _); [done|]. by destruct (verify_password _ _ _ _).
  - by destruct (verify_password _ _ _ _).
Qed.
(** C7: who can log in.  [s1] is the state in which the password is checked, after this
    call offered it to the volume and restored the stored table if that opened.  Where
    no account's name continues the given one, a login succeeds exactly when no earlier
    login found the stored table unauthentic, the machine is not in its cooldown, and
    [s1] has an account of that name that is not locked out and whose stored hash is
    the hash of the given password under its salt.  A successful login gives the caller
    that account's uid and gid; a refused one leaves the caller and every task as they
    were and reveals no uid.  A login during which the stored table is found unauthentic
    sets the flag that refuses all later ones; it is itself still decided by the accounts
    in memory, see [unauthentic_table_admits_this_login]. *)
Theorem login_correct k s ticks ticks' n p rdx :
  let name := copied_name n in
  let pw := copied_name p in
  let s1 := users_unlock_and_restore k s ticks' (cstr pw) in
  let r := h_auth argon2id k s ticks ticks' (Some n) (Some p) rdx in
  0 <= k.(cur) < zlen k.(tasks) -> table_ok s1.(users) -> prefix_free s1 name ->
  (r.(au_rax) = 0 <-> s.(g_users_tampered) = false /\ rust_auth_global_locked s.(throttle) (u32 ticks) = false
                     /\ exists i, named s1 i name /\ (user_at s1 i).(ua_lockout_until) <= u32 ticks /\ right_password s1 i pw = true)
  /\ (forall i, r.(au_rax) = 0 -> named s1 i name ->
       (cur_task r.(au_kernel)).(t_ids) = mk_ids (user_at s1 i).(ua_uid) (user_at s1 i).(ua_gid))
  /\ (r.(au_rax) <> 0 -> r.(au_kernel) = k /\ r.(au_uid_out) = None)
  /\ (s1.(g_users_tampered) = true -> rust_auth_global_locked s.(throttle) (u32 ticks) = false ->
       r.(au_state).(g_users_tampered) = true
       /\ forall k' t t' n' p' rdx', (h_auth argon2id k' r.(au_state) t t' (Some n') (Some p') rdx').(au_rax) <> 0).
Proof.
  cbv zeta. intros Hc HT HP. destruct (auth_exact k s ticks ticks' n p rdx Hc HT HP) as (H1 & H2 & H3). split; [done|]. split; [done|]. split; [done|].
  intros Hf HG. pose proof (auth_keeps_flag k s ticks ticks' n p rdx Hf HG) as HF. split; [done|]. set (st := au_state _) in *. clearbody st.
  intros. unfold h_auth, auth_gate. by rewrite HF.
Qed.

(** ** Guessing *)
Record attempt := mk_attempt { at_ticks : Z; at_done : Z; at_name : option (list Z); at_pass : option (list Z); at_rdx : Z }.
Definition auth_step k s (a : attempt) : auth_result :=
  h_auth argon2id k s a.(at_ticks) a.(at_done) a.(at_name) a.(at_pass) a.(at_rdx).
(** Whether the attempt gets as far as comparing the password with a stored hash. *)
Definition checked k s (a : attempt) : bool :=
  match a.(at_name), a.(at_pass) with
  | Some n, Some p => match auth_gate k s a.(at_ticks) a.(at_done) (copied_name n) (copied_name p) with inr _ => true | inl _ => false end
  | _, _ => false
  end.
Fixpoint guesses k s (l : list attempt) : Z :=
  match l with
  | [] => 0
  | a :: l => let r := auth_step k s a in (if checked k s a then 1 else 0) + guesses r.(au_kernel) r.(au_state) l
  end.
Fixpoint all_refused k s (l : list attempt) : bool :=
  match l with
  | [] => true
  | a :: l => let r := auth_step k s a in negb (r.(au_rax) =? 0) && all_refused r.(au_kernel) r.(au_state) l
  end.
(** Attempts in order, between two times. *)
Fixpoint timed (lo hi : Z) (l : list attempt) : Prop :=
  match l with
  | [] => True
  | a :: l => lo <= a.(at_ticks) <= hi /\ timed a.(at_ticks) hi l
  end.

Lemma persist_throttle s : (users_persist s).(throttle) = s.(throttle).
Proof. unfold users_persist. case_match; [done|]. destruct (storage_users_save _ _) as [v rc]. by case_match. Qed.
Lemma recount_is s : exists next, recount s = set_counts s (zsum (in_use s.(users)) (seqZ 0 32)) next.
Proof.
  unfold recount. change MAX_USERS with 32. match goal with |- context [foldl ?F _ _] => set (f := F) end.
  assert (forall l c n, exists n', foldl f (set_counts s c n) l = set_counts s (c + zsum (in_use s.(users)) l) n') as HF;
    [|exact (HF (seqZ 0 32) 0 1000)].
  induction l as [|i l IH]; intros c n; cbn [foldl].
  { exists n. by rewrite Z.add_0_r. }
  change (zsum (in_use s.(users)) (i :: l)) with (in_use s.(users) i + zsum (in_use s.(users)) l). rewrite Z.add_assoc.
  unfold f at 2, in_use at 1. change (user_at (set_counts s c n) i) with (zget user_zero s.(users) i). cbv zeta.
  destruct (ua_valid _); [|rewrite Z.add_0_r]; apply IH.
Qed.
Lemma restore_throttle k s ticks pw : (users_unlock_and_restore k s ticks pw).(throttle) = s.(throttle).
Proof.
  unfold users_unlock_and_restore. destruct (g_users_restored s); [done|]. destruct (storage_unlock _ _) as [v rc].
  destruct (negb _); [done|]. destruct (storage_users_load _) as [rc' t]. destruct (rc' =? -3); [done|].
  destruct (rc' =? 0); [|by rewrite persist_throttle].
  destruct (recount_is (users_compiled_pw_clear_all (set_flags (set_users (set_volume s v) t) true (g_users_tampered (set_volume s v)))))
    as [next ->]. done.
Qed.
(** A refused attempt either leaves the machine's counter alone, or the cooldown
    was over and the attempt is counted. *)
Lemma refused_throttle k s a :
  (auth_step k s a).(au_rax) <> 0 ->
  (auth_step k s a).(au_state).(throttle)
  = (if checked k s a then rust_auth_global_on_failure s.(throttle) (u32 a.(at_ticks)) else s.(throttle))
  /\ (checked k s a = true -> rust_auth_global_locked s.(throttle) (u32 a.(at_ticks)) = false).
Proof.
  destruct a as [t t' [n|] [p|] rdx]; unfold auth_step, checked; cbn [at_ticks at_done at_name at_pass at_rdx]; try done.
  unfold h_auth, auth_gate. cbv zeta. destruct (g_users_tampered s); [done|].
  destruct (rust_auth_global_locked _ _) eqn:HL; [done|]. pose proof (restore_throttle k s t' (cstr (copied_name p))) as HT.
  set (s1 := users_unlock_and_restore _ _ _ _) in *. clearbody s1.
  destruct (match find_user_by_name s1 (copied_name n) with Some i => _ | None => _ end); [done|].
  destruct (verify_password _ _ _ _).
  - intros HR. exfalso. apply HR. unfold auth_success. by destruct (find_user_by_name s1 (copied_name n)).
  - intros _. split; [|done]. unfold auth_failure. cbn [au_state audit set_log throttle].
    destruct (find_user_by_name s1 (copied_name n)); cbn [upd_user set_users set_throttle throttle]; by rewrite HT.
Qed.
Lemma guesses_nonneg k s l : 0 <= guesses k s l.
Proof. revert k s. induction l as [|a l IH]; intros k s; cbn [guesses]; [lia|]. specialize (IH (auth_step k s a).(au_kernel) (auth_step k s a).(au_state)). case_match; lia. Qed.
(** [q] cooldowns have been imposed since [t0], and the last one has ended. *)
Lemma guesses_bound l k s t0 t1 lo q :
  0 <= t0 <= lo -> t1 < 2 ^ 32 -> timed lo t1 l -> all_refused k s l = true -> 0 <= q ->
  0 <= s.(throttle).(gt_fails) < 12 -> (q = 0 \/ t0 + 2000 * q <= s.(throttle).(gt_lockout_until)) ->
  0 < guesses k s l -> 12 * q + s.(throttle).(gt_fails) + guesses k s l <= 12 * ((t1 - t0) / 2000) + 12.
Proof.
  revert k s lo q. induction l as [|a l IH]; intros k s lo q H0 H1 HT HR Hq Hf HL; cbn [guesses]; [lia|].
  destruct HT as [Ha HT]. cbn [all_refused] in HR. apply andb_true_iff in HR as [HR1 HR2].
  destruct (refused_throttle k s a) as [Ht Hg]; [by destruct (Z.eqb_spec (au_rax (auth_step k s a)) 0)|].
  specialize (IH (auth_step k s a).(au_kernel) (auth_step k s a).(au_state) (at_ticks a)). rewrite Ht in IH.
  pose proof (guesses_nonneg (auth_step k s a).(au_kernel) (auth_step k s a).(au_state) l) as HN.
  set (g := guesses _ _ l) in *. clearbody g. destruct (checked k s a); cycle 1.
  { intros Hp. rewrite Z.add_0_l in *. by apply (IH q); [lia|..]. }
  intros _. specialize (Hg eq_refl). unfold rust_auth_global_locked in Hg. rewrite u32_id in * by (unfold U32_MAX; lia).
  apply Z.ltb_ge in Hg. assert (q <= (at_ticks a - t0) / 2000) as Hq1 by (apply Z.div_le_lower_bound; lia).
  assert ((at_ticks a - t0) / 2000 <= (t1 - t0) / 2000) as Hq2 by (apply Z.div_le_mono; lia).
  unfold rust_auth_global_on_failure, saturating_add, GLOBAL_MAX_FAILS, GLOBAL_LOCKOUT_TICKS, U32_MAX, U64_MAX in IH.
  rewrite Z.min_r in IH by lia. destruct (Z.leb_spec 12 (gt_fails (throttle s) + 1)); cbn [gt_fails gt_lockout_until] in IH.
  - rewrite Z.min_r in IH by lia. destruct (decide (g = 0)); [lia|].
    specialize (IH (q + 1) ltac:(lia) H1 HT HR2 ltac:(lia) ltac:(lia) ltac:(lia) ltac:(lia)). lia.
  - destruct (decide (g = 0)); [lia|]. specialize (IH q ltac:(lia) H1 HT HR2 Hq ltac:(lia) HL ltac:(lia)). lia.
Qed.

(** C12: stored passwords cannot be guessed quickly.  Over any attempts to log in, of
    any names and passwords, none of which succeeds, made in order between two
    times of one wrap of the tick counter, a password is compared with the stored hash
    of an account no more than twelve times and twelve more for every 2000 ticks between
    them.  The bound is on those comparisons: before the first successful restore a
    password is offered to the volume as well, and not every such offer is counted, see
    [locked_account_still_tries_the_volume]. *)
Theorem guess_rate_bounded k s l t0 t1 :
  0 <= t0 <= t1 -> t1 < 2 ^ 32 -> timed t0 t1 l -> all_refused k s l = true -> 0 <= s.(throttle).(gt_fails) < 12 ->
  guesses k s l <= 12 * ((t1 - t0) / 2000 + 1).
Proof.
  intros H0 H1 HT HR Hf. destruct (decide (guesses k s l <= 0)) as [Hg|Hg].
  - pose proof (Z.div_pos (t1 - t0) 2000 ltac:(lia) ltac:(lia)). lia.
  - pose proof (guesses_bound l k s t0 t1 t0 0 ltac:(lia) H1 HT HR ltac:(lia) Hf ltac:(lia) ltac:(lia)). lia.
Qed.

(** ** The table is always well formed *)

(** What a volume must keep: a table it gives back was a table it was given,
    and its codes are negative on failure. *)
Class VolumeKeeps (I : V -> Prop) : Prop := {
  vk_unlock v pw : I v -> I (storage_unlock v pw).1;
  vk_save v t : table_ok t -> I v -> I (storage_users_save v t).1;
  vk_load v : I v -> (storage_users_load v).1 = 0 -> table_ok (storage_users_load v).2;
  vk_rekey v slot uid pw : I v -> I (storage_rekey v slot uid pw).1;
  vk_rekey_code v slot uid pw : (storage_rekey v slot uid pw).2 <= 0;
  vk_add v pw uid : I v -> I (storage_keyslot_add v pw uid).1.1;
  vk_add_code v pw uid : (storage_keyslot_add v pw uid).1.2 <= 0;
  vk_remove v slot : I v -> I (storage_keyslot_remove v slot).1
}.
Context (I : V -> Prop) {HK : VolumeKeeps I}.
Record accounts_ok s : Prop := {
  ao_table : table_ok s.(users);
  ao_count : s.(user_count) = count_in_use s.(users);
  ao_volume : I s.(volume)
}.

(** A change to one account that keeps its name, its uid and its validity. *)
Definition keeps_identity (f : user_account -> user_account) : Prop :=
  forall u, (f u).(ua_name) = u.(ua_name) /\ (f u).(ua_uid) = u.(ua_uid) /\ (f u).(ua_valid) = u.(ua_valid).
Lemma upd_user_ok s i f : 0 <= i < 32 -> keeps_identity f -> accounts_ok s -> accounts_ok (upd_user s i f).
Proof.
  intros Hi HF [HT HC HI]. destruct (HF (user_at s i)) as (F1 & F2 & F3).
  destruct (table_put s.(users) i (f (user_at s i)) HT Hi) as [T1 T2].
  - rewrite F1. by apply (to_name _ HT).
  - rewrite F1, F2, F3. intros Hv j Hj Hne Hvj. split; intros E; apply Hne; [by apply (to_uids _ HT)|by apply (to_names _ HT)].
  - by rewrite F2, F3.
  - split; [done| |done]. cbn [upd_user set_users users user_count]. rewrite T2, HC, F3. unfold in_use, user_at. lia.
Qed.
Lemma with_password_keeps salt hash : keeps_identity (fun u => with_password u salt hash).
Proof. done. Qed.
Lemma with_keyslot_keeps slot : keeps_identity (fun u => with_keyslot u slot).
Proof. done. Qed.
Lemma persist_ok s : accounts_ok s -> accounts_ok (users_persist s).
Proof.
  intros [HT HC HI]. unfold users_persist. case_match; [done|]. pose proof (vk_save s.(volume) s.(users) HT HI) as HV.
  destruct (storage_users_save _ _) as [v rc]. by case_match.
Qed.
Lemma restore_ok k s ticks pw : accounts_ok s -> accounts_ok (users_unlock_and_restore k s ticks pw).
Proof.
  intros HA. unfold users_unlock_and_restore. destruct (g_users_restored s); [done|].
  pose proof (vk_unlock s.(volume) pw (ao_volume _ HA)) as HU. destruct (storage_unlock _ _) as [v rc].
  assert (accounts_ok (set_volume s v)) as HA' by (destruct HA; done).
  destruct (negb _); [done|]. pose proof (vk_load v HU) as HL. change (volume (set_volume s v)) with v.
  destruct (storage_users_load v) as [rc' t]. cbn [fst snd] in HL. destruct (rc' =? -3); [by destruct HA'|].
  destruct (Z.eqb_spec rc' 0) as [->|]; [|by apply persist_ok].
  destruct (recount_is (users_compiled_pw_clear_all (set_flags (set_users (set_volume s v) t) true (g_users_tampered (set_volume s v)))))
    as [next ->]. split; [by apply HL|done|done].
Qed.
Lemma set_user_password_ok s uid pw : accounts_ok s -> accounts_ok (set_user_password argon2id s uid pw).1.
Proof.
  intros HA. unfold set_user_password. destruct (find_user s _) as [i|] eqn:HF; [|done].
  apply find_user_Some in HF as (Hi & _). cbn [secure_random_bytes fst].
  match goal with |- context [upd_user ?s' i ?f] => assert (accounts_ok (upd_user s' i f)) as HU by (apply upd_user_ok; [done|done|by destruct HA]) end.
  by destruct HU.
Qed.
Lemma passwd_own_ok k s ticks i uid pw : 0 <= i < 32 -> accounts_ok s -> accounts_ok (passwd_own argon2id k s ticks i uid pw).1.
Proof.
  intros Hi HA. unfold passwd_own. cbv zeta. set (slot := if negb _ then _ else _). clearbody slot.
  assert (exists v rc, (if storage_volume_has_keyslots s.(volume) then storage_rekey s.(volume) slot uid (cstr pw) else (s.(volume), 0)) = (v, rc)
    /\ I v) as (v & rc & -> & HV).
  { destruct (storage_volume_has_keyslots _); [|by eexists _, _; split; [|apply (ao_volume _ HA)]].
    pose proof (vk_rekey s.(volume) slot uid (cstr pw) (ao_volume _ HA)). destruct (storage_rekey _ _ _ _) as [v rc]. by exists v, rc. }
  assert (accounts_ok (set_volume s v)) as HA' by (by destruct HA). destruct (_ && _); [by destruct HA'|].
  pose proof (set_user_password_ok (set_volume s v) uid pw HA') as HS. destruct (set_user_password _ _ _ _) as [s' rc'].
  cbn [fst] in HS. destruct (negb (rc' =? 0)); [exact HS|]. apply persist_ok.
  destruct (storage_volume_has_keyslots _); [|exact HS].
  by apply upd_user_ok.
Qed.
Lemma passwd_other_ok k s ticks i uid pw : 0 <= i < 32 -> accounts_ok s -> accounts_ok (passwd_other argon2id k s ticks i uid pw).1.
Proof.
  intros Hi HA. unfold passwd_other.
  assert (exists v rc idx, (if storage_volume_has_keyslots s.(volume) then storage_keyslot_add s.(volume) (cstr pw) uid
    else (s.(volume), 0, KEYSLOT_NONE)) = (v, rc, idx) /\ I v) as (v & rc & idx & -> & HV).
  { destruct (storage_volume_has_keyslots _); [|by eexists _, _, _; split; [|apply (ao_volume _ HA)]].
    pose proof (vk_add s.(volume) (cstr pw) uid (ao_volume _ HA)). destruct (storage_keyslot_add _ _ _) as [[v rc] idx]. by exists v, rc, idx. }
  assert (accounts_ok (set_volume s v)) as HA' by (by destruct HA). cbv zeta. destruct (negb _); [by destruct HA'|].
  pose proof (set_user_password_ok (set_volume s v) uid pw HA') as HS. destruct (set_user_password _ _ _ _) as [s' rc'].
  cbn [fst] in HS. assert (forall sl s2, accounts_ok s2 -> accounts_ok (set_volume s2 (storage_keyslot_remove s2.(volume) sl).1)) as HR.
  { intros sl s2 [T C J]. split; [done|done|]. by apply vk_remove. }
  destruct (negb (rc' =? 0)); [destruct (negb _); [exact (HR _ _ HS)|exact HS]|]. apply persist_ok.
  destruct (idx =? KEYSLOT_NONE); [exact HS|]. assert (accounts_ok (upd_user s' i (fun u => with_keyslot u idx))) by by apply upd_user_ok.
  destruct (_ && _); [by apply HR|done].
Qed.
Lemma passwd_ok k s ticks rbx pw : accounts_ok s -> accounts_ok (h_passwd argon2id k s ticks rbx pw).1.
Proof.
  intros HA. unfold h_passwd, do_passwd. destruct pw as [p|]; [|done]. destruct (_ && _); [done|].
  destruct (find_user_by_uid s (u32 rbx)) as [i|] eqn:HF; [|done]. apply find_user_Some in HF as (Hi & _).
  pose proof (passwd_own_ok k s ticks i (u32 rbx) (copied_name p) Hi HA).
  pose proof (passwd_other_ok k s ticks i (u32 rbx) (copied_name p) Hi HA).
  destruct (_ =? _); [destruct (passwd_own _ _ _ _ _ _ _)|destruct (passwd_other _ _ _ _ _ _ _)]; done.
Qed.
Lemma userdel_ok k s rbx : accounts_ok s -> accounts_ok (h_userdel k s rbx).1.
Proof.
  intros HA. unfold h_userdel, do_userdel. destruct (negb _); [done|]. destruct (Z.eqb_spec (u32 rbx) 0) as [|Hu]; [done|].
  destruct (find_user s _) as [i|] eqn:HF; [|done]. apply find_user_Some in HF as (Hi & HP & _).
  apply andb_true_iff in HP as [Hv HP]. apply Z.eqb_eq in HP. apply persist_ok. destruct HA as [HT HC HI].
  destruct (table_put s.(users) i (with_valid (user_at s i) false) HT Hi) as [T1 T2]; [by apply (to_name _ HT)|done| |].
  { fold (user_at s i). congruence. }
  split; [done| |done]. cbn [upd_user set_users set_compiled set_counts users user_count]. rewrite T2, HC.
  unfold in_use. fold (user_at s i). rewrite Hv. cbn. lia.
Qed.
Lemma auth_ok k s a : accounts_ok s -> accounts_ok (auth_step k s a).(au_state).
Proof.
  intros HA. destruct a as [t t' [n|] [p|] rdx]; try done. unfold auth_step, h_auth, auth_gate. cbn [at_ticks at_done at_name at_pass at_rdx].
  cbv zeta. destruct (g_users_tampered s); [done|]. destruct (rust_auth_global_locked _ _); [done|].
  pose proof (restore_ok k s t' (cstr (copied_name p)) HA) as HR. set (s1 := users_unlock_and_restore _ _ _ _) in *. clearbody s1.
  assert (forall i f, find_user_by_name s1 (copied_name n) = Some i -> keeps_identity f -> forall th, accounts_ok (upd_user (set_throttle s1 th) i f)) as HU.
  { intros i f HF Hf th. apply find_user_Some in HF as (Hi & _). apply upd_user_ok; [done..|by destruct HR]. }
  destruct (find_user_by_name s1 (copied_name n)) as [i|] eqn:HF.
  - destruct (rust_auth_is_locked _ _); [done|]. destruct (verify_password _ _ _ _).
    + cbn [auth_success au_state]. destruct (HU i (fun u => with_attempts u 0 0) eq_refl ltac:(done) rust_auth_global_on_success) as [T C J].
      split; [done|done|]. apply vk_unlock, J.
    + cbn [auth_failure au_state]. match goal with |- context [upd_user (set_throttle s1 ?th) i ?f] => pose proof (HU i f eq_refl) as HX; destruct (HX ltac:(intros u; by destruct (rust_auth_on_failure _ _)) th) end.
      done.
  - destruct (verify_password _ _ _ _); by destruct HR.
Qed.
Lemma clash_none s uid name j :
  useradd_clash s uid name = None -> 0 <= j < 32 -> (user_at s j).(ua_valid) = true ->
  (user_at s j).(ua_uid) <> uid /\ cstr (user_at s j).(ua_name) <> cstr name.
Proof.
  unfold useradd_clash. match goal with |- context [foldl ?F _ _] => set (f := F) end.
  assert (forall l e, foldl f (Some e) l = Some e) as HS
    by (intros l; induction l as [|i l IH]; intros e; [done|exact (IH e)]).
  intros HF Hj Hv. assert (j ∈ seqZ 0 MAX_USERS) as Hin by (apply elem_of_seqZ; unfold MAX_USERS; lia). revert HF Hin.
  induction (seqZ 0 MAX_USERS) as [|i l IH]; intros HF Hin; [by apply not_elem_of_nil in Hin|]. cbn [foldl] in HF.
  destruct (f None i) as [e|] eqn:HE; [by rewrite HS in HF|].
  apply elem_of_cons in Hin as [->|Hin]; [|by apply IH].
  unfold f in HE. cbv zeta in HE. rewrite Hv in HE. cbn [negb] in HE. destruct (Z.eqb_spec (ua_uid (user_at s i)) uid); [done|].
  destruct (Z.eqb_spec (kstrcmp (ua_name (user_at s i)) name) 0) as [|Hk]; [done|]. by rewrite kstrcmp_zero in Hk.
Qed.
Lemma zset_twice {A} (l : list A) i x y : zset (zset l i x) i y = zset l i y.
Proof. unfold zset. case_match; [done|]. apply list_insert_insert_eq. Qed.
Lemma kstrcpy_string dst src : cstr (kstrcpy dst src) = cstr src.
Proof. unfold kstrcpy. cbn [app]. apply cstr_app_zero, cstr_nonzero. Qed.
Lemma kstrcpy_terminated dst src : terminated (kstrcpy dst src).
Proof. unfold terminated, kstrlen. rewrite kstrcpy_string. unfold kstrcpy, zlen. rewrite !length_app. cbn [length]. lia. Qed.
Lemma length_kstrcpy dst src : kstrlen src < zlen dst -> length (kstrcpy dst src) = length dst.
Proof. unfold kstrlen, zlen, kstrcpy. intros. rewrite !length_app, length_drop. cbn [length]. lia. Qed.
Lemma useradd_ok k s ticks rbx rcx name : accounts_ok s -> accounts_ok (h_useradd argon2id k s ticks rbx rcx name).1.
Proof.
  intros HA. unfold h_useradd. destruct name as [n|]; [|done]. unfold do_useradd. set (name := copied_name n).
  destruct (negb _); [done|]. destruct (_ <=? _); [done|]. destruct (Z.eqb_spec (kstrlen name) 0); [done|].
  destruct (Z.leb_spec 32 (kstrlen name)) as [|Hl]; [done|]. cbn [orb]. destruct (useradd_clash s (u32 rbx) name) as [e|] eqn:HC; [done|].
  destruct (find_user s _) as [i|] eqn:HF; [|done]. apply find_user_Some in HF as (Hi & HP & _). apply negb_true_iff in HP.
  change (hd 0 [0] =? 0) with true. cbv zeta. cbn [negb secure_random_bytes]. apply persist_ok. destruct HA as [HT HN HI].
  match goal with |- context [upd_user ?s' i (fun u => with_valid u true)] => set (s2 := s') end.
  assert (zlen s.(users) = 32) as Hz by apply (to_size _ HT).
  set (u := with_valid (user_at s2 i) true).
  assert ((upd_user s2 i (fun u => with_valid u true)).(users) = zset s.(users) i u) as HU.
  { unfold upd_user at 1. cbn [set_users users]. fold u. unfold s2. cbn [upd_user set_users set_random set_compiled users]. by rewrite !zset_twice. }
  assert (u.(ua_valid) = true /\ u.(ua_uid) = u32 rbx /\ u.(ua_name) = kstrcpy (user_at s i).(ua_name) name) as (U1 & U2 & U3).
  { unfold u, s2, user_at. cbn [upd_user set_users set_random set_compiled users]. unfold user_at.
    cbn [upd_user set_users set_random set_compiled users]. rewrite !zget_zset_eq by (rewrite ?zlen_zset; lia). done. }
  assert (name_ok (user_at s i).(ua_name)) as [Hn _] by by apply (to_name _ HT).
  destruct (table_put s.(users) i u HT Hi) as [T1 T2].
  - rewrite U3. split; [rewrite length_kstrcpy; [done|unfold zlen; lia]|]. apply kstrcpy_terminated.
  - intros _ j Hj _ Hv. rewrite U2, U3, kstrcpy_string. by apply clash_none.
  - fold (user_at s i). congruence.
  - split; cbn [audit set_log set_counts users user_count volume].
    + by rewrite HU.
    + rewrite HU, T2, U1. cbn [upd_user set_users user_count]. unfold s2. cbn [upd_user set_users set_random set_compiled user_count].
      rewrite HN. unfold in_use. fold (user_at s i). rewrite HP. lia.
    + exact HI.
Qed.

(** The two seeded accounts, with whatever salts and hashes. *)
Definition seeded (uid gid : Z) (name home : string) (salt hash : list Z) : user_account :=
  with_password (with_valid (with_identity (with_keyslot user_zero KEYSLOT_NONE) (byte_string name ++ [0]) uid gid
    (byte_string home ++ [0]) (byte_string "/bin/shell" ++ [0]) KEYSLOT_NONE) true) salt hash.
#[local] Opaque audit_chain_start.
Lemma init_users s :
  s.(users) = replicate 32 user_zero ->
  exists salt1 h1 salt2 h2,
    (users_init argon2id s).(users) = seeded 0 0 "root" "/" salt1 h1 :: seeded 1000 100 "user" "/home/user" salt2 h2
                                      :: replicate 30 (with_keyslot user_zero KEYSLOT_NONE)
    /\ (users_init argon2id s).(user_count) = 2 /\ (users_init argon2id s).(volume) = s.(volume).
Proof.
  destruct s as [us uc nu re ta cp th vo ra lo]. cbn [users volume]. intros ->.
  do 4 eexists. split; [|split]; [lazy; reflexivity..].
Qed.
Lemma init_ok s : s.(users) = replicate 32 user_zero -> I s.(volume) -> accounts_ok (users_init argon2id s).
Proof.
  intros HU HI. destruct (init_users s HU) as (a1 & h1 & a2 & h2 & E1 & E2 & E3).
  assert (forall j, 0 <= j < 32 -> zget user_zero (users_init argon2id s).(users) j
    = if decide (j = 0) then seeded 0 0 "root" "/" a1 h1 else if decide (j = 1) then seeded 1000 100 "user" "/home/user" a2 h2
      else with_keyslot user_zero KEYSLOT_NONE) as HG.
  { intros j Hj. rewrite E1. destruct (decide (j = 0)) as [->|]; [done|]. destruct (decide (j = 1)) as [->|]; [done|].
    rewrite zget_lookup by lia. replace (Z.to_nat j) with (S (S (Z.to_nat (j - 2)))) by lia.
    change (default user_zero (replicate 30 (with_keyslot user_zero KEYSLOT_NONE) !! Z.to_nat (j - 2)) = with_keyslot user_zero KEYSLOT_NONE).
    by rewrite lookup_replicate_2 by lia. }
  split; [|by rewrite E2, E1|by rewrite E3]. split.
  - by rewrite E1.
  - intros j Hj. rewrite HG by done. repeat case_decide; done.
  - intros j l Hj Hl. rewrite !HG by done. repeat case_decide; subst; done.
  - intros j l Hj Hl. rewrite !HG by done. repeat case_decide; subst; done.
  - exists 0. by rewrite E1.
Qed.
Lemma boot_policy_ok s live disks : accounts_ok s -> accounts_ok (users_apply_boot_policy s live disks).
Proof.
  intros HA. unfold users_apply_boot_policy. destruct (_ || _); [done|].
  assert (forall i, i ∈ seqZ 0 MAX_USERS -> 0 <= i < 32) as HS by (intros i Hi; apply elem_of_seqZ in Hi; unfold MAX_USERS in Hi; lia).
  revert s HA HS. induction (seqZ 0 MAX_USERS) as [|i l IH]; intros s HA HS; [done|]. cbn [foldl]. apply IH; [|set_solver].
  assert (0 <= i < 32) as Hi by (apply HS; set_solver). destruct (ua_valid (user_at s i)) eqn:Hv; [|done]. cbn [negb].
  destruct (Z.eqb_spec (ua_uid (user_at s i)) 0) as [|Hu].
  - cbn [secure_random_bytes]. apply upd_user_ok; [done|done|by destruct HA].
  - destruct HA as [HT HC HI]. destruct (table_put s.(users) i (with_keyslot user_zero KEYSLOT_NONE) HT Hi) as [T1 T2]; [done..| |].
    { intros _ E. by destruct (Hu E). }
    unfold in_use in T2. fold (user_at s i) in T2. rewrite Hv in T2. cbn [with_keyslot user_zero ua_valid] in T2.
    assert (1 <= s.(user_count)) as Hc.
    { rewrite HC. unfold count_in_use. etrans; [|apply (zsum_ge_one _ _ i)].
      - unfold in_use. fold (user_at s i). by rewrite Hv.
      - intros j _. unfold in_use. by case_match.
      - apply elem_of_seqZ. lia. }
    cbn [upd_user set_users set_compiled user_count]. destruct (Z.ltb_spec 0 (user_count s)); [|lia].
    split; [done| |done]. cbn [upd_user set_users set_compiled set_counts users user_count]. rewrite T2, HC. lia.
Qed.

(** The account calls, each made in some state of the kernel. *)
Inductive uop :=
  | UAuth (a : attempt)
  | UAdd (ticks rbx rcx : Z) (name : option (list Z))
  | UDel (rbx : Z)
  | UPasswd (ticks rbx : Z) (pw : option (list Z)).
Definition ustep (k : kstate) s (o : uop) : ustate V :=
  match o with
  | UAuth a => (auth_step k s a).(au_state)
  | UAdd ticks rbx rcx name => (h_useradd argon2id k s ticks rbx rcx name).1
  | UDel rbx => (h_userdel k s rbx).1
  | UPasswd ticks rbx pw => (h_passwd argon2id k s ticks rbx pw).1
  end.
Definition urun s (ops : list (kstate * uop)) : ustate V := foldl (fun s ko => ustep ko.1 s ko.2) s ops.

Lemma step_ok k s o : accounts_ok s -> accounts_ok (ustep k s o).
Proof. intros HA. destruct o; [by apply auth_ok|by apply useradd_ok|by apply userdel_ok|by apply passwd_ok]. Qed.

(** C21: the account table is always well formed.  From the first boot, whatever
    the boot policy, and after any logins, additions, deletions and password
    changes, made by anyone and refused or not: the 32-byte array of every name holds
    a terminator, no two accounts share a uid or a name, root exists, the number of
    accounts is what the counter says, and only such tables reach the volume. *)
Theorem account_table_wf s live disks ops :
  s.(users) = replicate 32 user_zero -> I s.(volume) ->
  accounts_ok (urun (users_apply_boot_policy (users_init argon2id s) live disks) ops).
Proof.
  intros HU HI. assert (accounts_ok (users_apply_boot_policy (users_init argon2id s) live disks)) as HA
    by by apply boot_policy_ok, init_ok.
  revert HA. generalize (users_apply_boot_policy (users_init argon2id s) live disks). unfold urun.
  induction ops as [|[k o] ops IH]; intros s' HA; [done|]. apply IH. by apply step_ok.
Qed.

(** ** Setting a password *)

(** What a successful change does: the account's hash is that of the password,
    and nothing a login consults changes otherwise. *)
Record password_set s (i : Z) (pw : list Z) (s' : ustate V) : Prop := {
  ps_users : exists salt slot, s'.(users) = zset s.(users) i
    (with_keyslot (with_password (user_at s i) salt (strong_password_hash argon2id pw salt account_pepper)) slot);
  ps_restored : s.(g_users_restored) = true -> s'.(g_users_restored) = true;
  ps_tampered : s'.(g_users_tampered) = s.(g_users_tampered);
  ps_throttle : s'.(throttle) = s.(throttle)
}.
Lemma persist_set s i pw s' : password_set s i pw s' -> password_set s i pw (users_persist s').
Proof.
  intros [P1 P2 P3 P4]. unfold users_persist. case_match; [done|]. destruct (storage_users_save _ _) as [v rc]. by case_match.
Qed.
Lemma keyslot_set s i pw s' slot : 0 <= i < zlen s.(users) ->
  password_set s i pw s' -> password_set s i pw (upd_user s' i (fun u => with_keyslot u slot)).
Proof.
  intros Hi [(salt & sl & P1) P2 P3 P4]. split; [|done..]. exists salt, slot. unfold upd_user, user_at.
  cbn [users set_users]. rewrite P1, zget_zset_eq, zset_twice by done. done.
Qed.
Lemma volume_set s i pw s' v : password_set s i pw s' -> password_set s i pw (set_volume s' v).
Proof. by intros [P1 P2 P3 P4]. Qed.
Lemma set_user_password_set s i uid pw v :
  0 <= i < zlen s.(users) -> find_user_by_uid s uid = Some i ->
  (set_user_password argon2id (set_volume s v) uid pw).2 = 0
  /\ password_set s i pw (set_user_password argon2id (set_volume s v) uid pw).1.
Proof.
  intros Hi HF. unfold set_user_password.
  change (find_user (set_volume s v) (fun u => ua_valid u && (ua_uid u =? uid))) with (find_user_by_uid s uid). rewrite HF.
  cbn [secure_random_bytes fst snd]. split; [done|]. split; [|done..].
  eexists _, (user_at s i).(ua_keyslot). cbn [upd_user set_users set_random set_volume set_compiled users].
  reflexivity.
Qed.
Lemma do_passwd_sets k s ticks i uid pw :
  0 <= i < zlen s.(users) -> find_user_by_uid s uid = Some i ->
  (do_passwd argon2id k s ticks uid pw).2 = 0 -> password_set s i pw (do_passwd argon2id k s ticks uid pw).1.
Proof.
  intros Hi HF. unfold do_passwd. destruct (_ && _); [done|]. rewrite HF. destruct (uid =? _).
  - unfold passwd_own. cbv zeta. set (slot := if negb _ then _ else _). clearbody slot.
    assert ((if storage_volume_has_keyslots s.(volume) then storage_rekey s.(volume) slot uid (cstr pw) else (s.(volume), 0)).2 <= 0) as HC
      by (case_match; [apply vk_rekey_code|done]).
    destruct (if storage_volume_has_keyslots s.(volume) then _ else _) as [v rrc]. cbn [snd] in HC.
    destruct (Z.eqb_spec rrc 0), (Z.eqb_spec rrc (-1)); cbn [negb andb]; [| | |cbn; lia].
    all: destruct (set_user_password_set s i uid pw v Hi HF) as [S1 S2]; destruct (set_user_password _ _ _ _) as [s' rc'];
      cbn [fst snd] in S1, S2; subst rc'; intros _; apply persist_set; case_match; [by apply keyslot_set|done].
  - unfold passwd_other.
    assert ((if storage_volume_has_keyslots s.(volume) then storage_keyslot_add s.(volume) (cstr pw) uid else (s.(volume), 0, KEYSLOT_NONE)).1.2 <= 0) as HC
      by (case_match; [apply vk_add_code|done]).
    destruct (if storage_volume_has_keyslots s.(volume) then _ else _) as [[v krc] idx]. cbn [fst snd] in HC.
    destruct (Z.eqb_spec krc 0); cbn [negb]; [|cbn; lia].
    destruct (set_user_password_set s i uid pw v Hi HF) as [S1 S2]. destruct (set_user_password _ _ _ _) as [s' rc'].
    cbn [fst snd] in S1, S2. subst rc'. intros _. apply persist_set. destruct (idx =? KEYSLOT_NONE); [done|]. cbv zeta.
    destruct (_ && _); [apply volume_set|]; by apply keyslot_set.
Qed.
Lemma ct_eq_refl a : rust_ct_eq a a PASS_HASH_LEN = true.
Proof.
  unfold rust_ct_eq. cbn [Z.eqb PASS_HASH_LEN]. apply Z.eqb_eq, (or_fold_zero (fun i => Z.lxor (zget 0 a i) (zget 0 a i))).
  split; [done|]. apply Forall_forall. intros i _. apply Z.lxor_nilpotent.
Qed.

(** C32: a password that was set is the password that is accepted.  Once the
    table has been restored and was not found unauthentic, if changing the password of an account succeeds,
    by its owner or by an administrator, whatever key slots that took, then a
    login with the account's name and that password succeeds and gives the
    caller its uid and gid, unless the account is locked out, the machine is in
    its cooldown or another account's name continues this one. *)
Theorem password_change_login_roundtrip k s ticks i n p k' t1 t2 rdx :
  let s' := (do_passwd argon2id k s ticks (user_at s i).(ua_uid) (copied_name p)).1 in
  let r := h_auth argon2id k' s' t1 t2 (Some n) (Some p) rdx in
  accounts_ok s -> named s i (copied_name n) -> s.(g_users_restored) = true -> s.(g_users_tampered) = false ->
  (do_passwd argon2id k s ticks (user_at s i).(ua_uid) (copied_name p)).2 = 0 ->
  prefix_free s (copied_name n) -> 0 <= k'.(cur) < zlen k'.(tasks) ->
  rust_auth_global_locked s.(throttle) (u32 t1) = false -> (user_at s i).(ua_lockout_until) <= u32 t1 ->
  r.(au_rax) = 0 /\ (cur_task r.(au_kernel)).(t_ids) = mk_ids (user_at s i).(ua_uid) (user_at s i).(ua_gid).
Proof.
  cbv zeta. intros [HT HC HI] (Hi & Hv & Hn) HR HX Hrc HP Hk HG HL. pose proof (to_size _ HT) as Hz.
  assert (find_user_by_uid s (user_at s i).(ua_uid) = Some i) as HF.
  { apply find_user_unique; [done|by rewrite Hv, Z.eqb_refl|]. intros j Hj HPj. apply andb_true_iff in HPj as [Hvj Hu].
    apply Z.eqb_eq in Hu. by apply (to_uids _ HT). }
  destruct (do_passwd_sets k s ticks i _ (copied_name p) ltac:(lia) HF Hrc) as [(salt & slot & PU) PR PT PG].
  set (s' := (do_passwd _ _ _ _ _ _).1) in *. clearbody s'. specialize (PR HR).
  set (u' := with_keyslot _ slot) in PU.
  assert (forall j, 0 <= j < 32 -> user_at s' j = if decide (j = i) then u' else user_at s j) as HU.
  { intros j Hj. unfold user_at. rewrite PU. case_decide as E; [subst j; apply zget_zset_eq; lia|by apply zget_zset_ne]. }
  assert (users_unlock_and_restore k' s' t2 (cstr (copied_name p)) = s') as HE by (unfold users_unlock_and_restore; by rewrite PR).
  assert (table_ok s'.(users)) as HT'.
  { rewrite PU. apply (table_put s.(users) i u' HT Hi); [by apply (to_name _ HT)| |done].
    intros _ j Hj Hne Hvj. split; intros E; apply Hne; [by apply (to_uids _ HT)|by apply (to_names _ HT)]. }
  assert (prefix_free s' (copied_name n)) as HP'.
  { intros j Hj. rewrite HU by done. case_decide as E; [subst j; by apply HP|by apply HP]. }
  assert (named s' i (copied_name n)) as HN by (split; [done|]; by rewrite HU, decide_True).
  pose proof (auth_exact k' s' t1 t2 n p rdx) as HLC. cbv zeta in HLC. rewrite HE in HLC.
  destruct (HLC Hk HT' HP') as (L1 & L2 & _).
  assert ((h_auth argon2id k' s' t1 t2 (Some n) (Some p) rdx).(au_rax) = 0) as H0.
  { apply L1. rewrite PT, PG. split; [done|]. split; [done|]. exists i. split; [done|].
    unfold right_password. rewrite HU, decide_True by done. split; [done|apply ct_eq_refl]. }
  split; [done|]. rewrite (L2 i H0 HN), HU, decide_True by done. done.
Qed.
End spec.

(** ** A volume *)

(** A disk that opens with one password and holds a table. *)
Record disk := mk_disk { d_password : list Z; d_open : bool; d_table : option (list user_account) }.
#[export] Instance disk_volume : Volume disk := {
  storage_unlock d pw := if bool_decide (pw = d.(d_password)) then (mk_disk d.(d_password) true d.(d_table), 0) else (d, -1);
  storage_users_save d t := if d.(d_open) then (mk_disk d.(d_password) true (Some t), 0) else (d, -1);
  storage_users_load d := match d.(d_table) with Some t => (0, t) | None => (-2, []) end;
  storage_volume_has_keyslots _ := false;
  storage_unlocked_uid _ := 0;
  storage_unlocked_slot _ := 0;
  storage_rekey d _ _ _ := (d, -1);
  storage_keyslot_add d _ _ := (d, -1, 0);
  storage_keyslot_remove d _ := (d, -1)
}.
Definition disk_ok (d : disk) : Prop := forall t, d.(d_table) = Some t -> table_ok t.
#[export] Instance disk_keeps : VolumeKeeps disk_ok.
Proof.
  split; cbn; try done; try lia.
  - intros d pw HD. by case_match.
  - intros d t HT HD. case_match; [|done]. intros t' [=]. by subst.
  - intros d HD. destruct (d_table d) as [t|] eqn:E; [|done]. intros _. by apply HD.
Qed.
(** A hash good enough to run: the password and the salt themselves. *)
Definition plain_hash (pw salt : list Z) : list Z := pw ++ salt ++ replicate 32 0.
Definition fresh : ustate disk :=
  mk_us (replicate 32 user_zero) 0 0 false false (replicate 32 false) (mk_throttle 0 0)
    (mk_disk (byte_string "disk") false None) [] audit_zero.
Definition typed (name : string) : list Z := byte_string name ++ replicate 31 0.
Definition booted : ustate disk := users_init plain_hash fresh.
Lemma booted_ok : accounts_ok disk_ok booted.
Proof. by apply init_ok. Qed.
Lemma prefix_free_check {V} (s : ustate V) name :
  forallb (fun i => negb (user_at s i).(ua_valid) || negb (bool_decide (cstr name `prefix_of` cstr (user_at s i).(ua_name)))
                    || bool_decide (cstr name = cstr (user_at s i).(ua_name))) (seqZ 0 32) = true -> prefix_free s name.
Proof.
  rewrite forallb_seqZ. intros HB i Hi Hv HP. specialize (HB i Hi). rewrite Hv, bool_decide_true in HB by done.
  by apply bool_decide_eq_true in HB.
Qed.

(** The first login of a fresh machine. *)
Lemma login_correct_witness :
  (h_auth plain_hash demo_boot booted 50 60 (Some (typed "root")) (Some (typed "toor")) 0).(au_rax) = 0.
Proof.
  refine (proj2 (proj1 (login_correct plain_hash demo_boot booted 50 60 (typed "root") (typed "toor") 0 _ _ _)) _).
  - vm_compute. split; [discriminate|reflexivity].
  - exact (ao_table _ _ (restore_ok disk_ok demo_boot booted 60 _ booted_ok)).
  - apply prefix_free_check. vm_compute. reflexivity.
  - split; [reflexivity|]. split; [reflexivity|]. exists 0. vm_compute. split; [split; [split; [discriminate|reflexivity]|split; reflexivity]|].
    split; [discriminate|reflexivity].
Defined.
(** Thirteen wrong passwords in 2000 ticks. *)
Definition wrong (t : Z) : attempt := mk_attempt t t (Some (typed "nobody")) (Some (typed "guess")) 0.
Definition spray : list attempt := wrong <$> seqZ 100 13.
Lemma guess_rate_bounded_witness : guesses plain_hash demo_boot booted spray <= 12.
Proof.
  refine (guess_rate_bounded plain_hash demo_boot booted spray 100 112 _ _ _ _ _).
  - split; discriminate.
  - reflexivity.
  - repeat split; discriminate.
  - vm_compute. reflexivity.
  - vm_compute. split; [discriminate|reflexivity].
Defined.
(** The shell: task 1, with the capability that administers accounts. *)
Definition admin : kstate :=
  kexec [OSpawn (fun _ => false) demo_image 0 0 UNTYPED_KERNEL; OInstallRoot 1 6 6 0; OSwitch 1] demo_boot.
Definition morning : list (kstate * uop) :=
  [(admin, UAdd 5 1001 100 (Some (typed "alice"))); (admin, UPasswd 6 1001 (Some (typed "wonder")));
   (admin, UAuth (mk_attempt 7 7 (Some (typed "alice")) (Some (typed "wonder")) 0)); (admin, UDel 1000)].
Lemma account_table_wf_witness :
  accounts_ok disk_ok (urun plain_hash (users_apply_boot_policy booted true 0) morning).
Proof. exact (account_table_wf plain_hash disk_ok fresh true 0 morning eq_refl (fun t (E : None = Some t) => match E with end)). Defined.
(** An installed machine whose volume has been opened, with a new account. *)
Definition opened : ustate disk :=
  ustep plain_hash admin (users_apply_boot_policy booted false 1)
    (UAuth (mk_attempt 3 3 (Some (typed "root")) (Some (typed "disk")) 0)).
Definition hired : ustate disk := ustep plain_hash admin opened (UAdd 5 1001 100 (Some (typed "alice"))).
Lemma hired_ok : accounts_ok disk_ok hired.
Proof. exact (step_ok _ disk_ok _ _ _ (step_ok _ disk_ok _ _ _ (boot_policy_ok plain_hash disk_ok _ false 1 booted_ok))). Qed.
Lemma password_change_login_roundtrip_witness :
  let s' := (do_passwd plain_hash admin hired 8 (user_at hired 1).(ua_uid) (copied_name (typed "wonder"))).1 in
  (h_auth plain_hash admin s' 9 9 (Some (typed "alice")) (Some (typed "wonder")) 0).(au_rax) = 0.
Proof.
  refine (proj1 (password_change_login_roundtrip plain_hash disk_ok admin hired 8 1 (typed "alice") (typed "wonder") admin 9 9 0
    hired_ok _ _ _ _ _ _ _ _)).
  - vm_compute. split; [split; [discriminate|reflexivity]|split; reflexivity].
  - vm_compute. reflexivity.
  - vm_compute. reflexivity.
  - vm_compute. reflexivity.
  - apply prefix_free_check. vm_compute. reflexivity.
  - vm_compute. split; [discriminate|reflexivity].
  - vm_compute. reflexivity.
  - vm_compute. discriminate.
Defined.

(** ** Where the code falls short *)

Definition ids_after (r : auth_result (V := disk)) : task_ids := (cur_task r.(au_kernel)).(t_ids).
(** Two accounts, one of whose names begins the other's. *)
Definition prefixed : ustate disk :=
  urun plain_hash opened
    [(admin, UAdd 5 1001 100 (Some (typed "alice"))); (admin, UPasswd 6 1001 (Some (typed "wonder")));
     (admin, UAdd 7 1002 100 (Some (typed "al"))); (admin, UPasswd 8 1002 (Some (typed "secret")))].
(** The password check stops at the end of the given name: alice logs in as al
    with alice's password, and al's own password is refused. *)
Theorem prefix_name_logs_in_as_another :
  let r := h_auth plain_hash admin prefixed 9 9 (Some (typed "al")) (Some (typed "wonder")) 0 in
  let r' := h_auth plain_hash admin prefixed 9 9 (Some (typed "al")) (Some (typed "secret")) 0 in
  r.(au_rax) = 0 /\ ids_after r = mk_ids 1002 100 /\ r'.(au_rax) = u32 SYS_ERR_AUTH.
Proof. vm_compute. split; [reflexivity|split; reflexivity]. Qed.
(** Guesses of alice's password under the name alic are never counted against
    the account, and the right one is confirmed even while it is locked out,
    without an audit entry. *)
Definition locked_out : ustate disk :=
  urun plain_hash prefixed ((fun t => (admin, UAuth (mk_attempt t t (Some (typed "alice")) (Some (typed "x")) 0))) <$> seqZ 20 5).
Theorem prefix_name_dodges_lockout :
  let r := h_auth plain_hash admin locked_out 30 30 (Some (typed "alic")) (Some (typed "wonder")) 0 in
  let r' := h_auth plain_hash admin locked_out 30 30 (Some (typed "alice")) (Some (typed "wonder")) 0 in
  r.(au_rax) = 0 /\ r'.(au_rax) = u32 SYS_ERR_AUTH
  /\ r.(au_state).(log).(audit_seq) = locked_out.(log).(audit_seq).
Proof. vm_compute. split; [reflexivity|split; reflexivity]. Qed.
(** The cooldown's end is kept in 64 bits and compared with a 32-bit clock: one
    that ends after the clock wraps never ends. *)
Theorem cooldown_past_the_wrap_is_for_ever {V} `{Volume V} argon2id k (s : ustate V) t t' n p rdx :
  2 ^ 32 <= s.(throttle).(gt_lockout_until) ->
  h_auth argon2id k s t t' (Some n) (Some p) rdx = auth_refused k s.
Proof.
  intros HL. unfold h_auth, auth_gate. destruct (g_users_tampered s); [done|].
  unfold rust_auth_global_locked. pose proof (u32_range t) as Hr. unfold U32_MAX in Hr.
  by rewrite (proj2 (Z.ltb_lt _ _)) by lia.
Qed.
Theorem cooldown_passes_the_wrap :
  2 ^ 32 <= (urun plain_hash booted ((fun i => (admin, UAuth (wrong (2 ^ 32 - 100 + i)))) <$> seqZ 0 12)).(throttle).(gt_lockout_until).
Proof. vm_compute. discriminate. Qed.
(** A read error while the table is loaded is taken for a volume that has none:
    the accounts on it are overwritten by those in memory. *)
Theorem read_error_overwrites_table {V} `{Volume V} k (s : ustate V) ticks pw v t :
  s.(g_users_restored) = false -> storage_unlock s.(volume) pw = (v, 0) -> storage_users_load v = (-1, t) ->
  users_unlock_and_restore k s ticks pw = users_persist (set_volume s v).
Proof.
  intros HR HU HL. unfold users_unlock_and_restore. rewrite HR, HU. change (volume (set_volume s v)) with v. by rewrite HL.
Qed.
(** The flag that refuses all logins is tested before the table is restored: a login that
    finds the stored table unauthentic goes on and succeeds from the accounts in memory. *)
Definition scribbled : Volume disk := {|
  storage_unlock := storage_unlock; storage_users_save := storage_users_save; storage_users_load _ := (-3, []);
  storage_volume_has_keyslots := storage_volume_has_keyslots; storage_unlocked_uid := storage_unlocked_uid;
  storage_unlocked_slot := storage_unlocked_slot; storage_rekey := storage_rekey; storage_keyslot_add := storage_keyslot_add;
  storage_keyslot_remove := storage_keyslot_remove |}.
Theorem unauthentic_table_admits_this_login :
  let s := set_volume booted (mk_disk (byte_string "toor") false None) in
  let r := @h_auth disk scribbled plain_hash admin s 9 9 (Some (typed "root")) (Some (typed "toor")) 0 in
  (@storage_users_load disk scribbled s.(volume)).1 = -3 /\ r.(au_rax) = 0 /\ ids_after r = mk_ids 0 0 /\ r.(au_state).(g_users_tampered) = true.
Proof. vm_compute. repeat split; reflexivity. Qed.
(** Until a table has been restored, a login under the name of an account that is locked
    out offers its password to the volume and is refused without being counted. *)
Theorem locked_account_still_tries_the_volume {V} `{Volume V} argon2id k (s : ustate V) t t' n p rdx v rc i :
  s.(g_users_tampered) = false -> s.(g_users_restored) = false -> rust_auth_global_locked s.(throttle) (u32 t) = false ->
  find_user_by_name s (copied_name n) = Some i -> rust_auth_is_locked (user_at s i).(ua_lockout_until) (u32 t) = true ->
  storage_unlock s.(volume) (cstr (copied_name p)) = (v, rc) -> rc <> 0 ->
  h_auth argon2id k s t t' (Some n) (Some p) rdx = auth_refused k (set_volume s v).
Proof.
  intros HT HR HG HF HL HU Hrc. unfold h_auth, auth_gate, users_unlock_and_restore. cbv zeta. rewrite HT, HG, HR, HU.
  destruct (Z.eqb_spec rc 0); [done|]. cbn [negb]. change (find_user_by_name (set_volume s v) (copied_name n)) with (find_user_by_name s (copied_name n)).
  rewrite HF. change (user_at (set_volume s v) i) with (user_at s i). by rewrite HL.
Qed.
(** A volume that counts what it is offered: five failures lock root out, and then a
    hundred passwords are tried in one tick. *)
Definition counting : Volume Z := {|
  storage_unlock n _ := (n + 1, -1); storage_users_save n _ := (n, -1); storage_users_load _ := (-1, []);
  storage_volume_has_keyslots _ := false; storage_unlocked_uid _ := 0; storage_unlocked_slot _ := 0; storage_rekey n _ _ _ := (n, -1);
  storage_keyslot_add n _ _ := (n, -1, 0); storage_keyslot_remove n _ := (n, -1) |}.
Definition counted : ustate Z := @users_init Z plain_hash
  (mk_us (replicate 32 user_zero) 0 0 false false (replicate 32 false) (mk_throttle 0 0) 0 [] audit_zero).
Definition root_guess (t : Z) : kstate * uop := (admin, UAuth (mk_attempt t t (Some (typed "root")) (Some (typed "guess")) 0)).
Theorem volume_guesses_uncounted :
  let s := @urun Z counting plain_hash counted (root_guess <$> seqZ 20 5) in
  let s' := @urun Z counting plain_hash s (replicate 100 (root_guess 25)) in
  s'.(throttle) = s.(throttle) /\ s'.(volume) = s.(volume) + 100.
Proof. vm_compute. split; reflexivity. Qed.
(** A password given with a new account is not set: the entry keeps its
    previous owner's. *)
Definition rehired : ustate disk :=
  (do_useradd plain_hash admin (ustep plain_hash admin prefixed (UDel 1001)) 9 1003 100 (copied_name (typed "bob")) (typed "hello")).1.
Theorem initial_password_is_lost :
  verify_password plain_hash rehired (copied_name (typed "bob")) (copied_name (typed "hello")) = false
  /\ verify_password plain_hash rehired (copied_name (typed "bob")) (copied_name (typed "wonder")) = true.
Proof. vm_compute. split; reflexivity. Qed.
