(* ===== verification/Aead.v ===== *)
(** The block cipher of the encrypted volume: ChaCha20 (rust/src/rng.rs) and the
    encrypt-then-MAC construction over it and HMAC-SHA-256 (rust/src/aead.rs).
    Sealed bytes open to what was sealed; anything else that opens under the same
    key either is what was sealed or exhibits two messages with one tag. *)
From S2P Require Import Prelude Sha256.

Definition rotate_left (x n : Z) : Z := Z.lor (u32 (Z.shiftl x n)) (Z.shiftr x (32 - n)).
Definition quarter_round (a b c d : Z) (s : list Z) : list Z :=
  let s := zset s a (u32 (zget 0 s a + zget 0 s b)) in
  let s := zset s d (rotate_left (Z.lxor (zget 0 s d) (zget 0 s a)) 16) in
  let s := zset s c (u32 (zget 0 s c + zget 0 s d)) in
  let s := zset s b (rotate_left (Z.lxor (zget 0 s b) (zget 0 s c)) 12) in
  let s := zset s a (u32 (zget 0 s a + zget 0 s b)) in
  let s := zset s d (rotate_left (Z.lxor (zget 0 s d) (zget 0 s a)) 8) in
  let s := zset s c (u32 (zget 0 s c + zget 0 s d)) in
  zset s b (rotate_left (Z.lxor (zget 0 s b) (zget 0 s c)) 7).
Definition from_le_bytes (b : list Z) : Z := from_be_bytes (reverse b).
(** The 32-bit words of [l] from byte [4 * from], [n] of them. *)
Definition le_words (l : list Z) (n : Z) : list Z :=
  (fun i => from_le_bytes (take 4 (drop (Z.to_nat (4 * i)) l))) <$> seqZ 0 n.
Definition double_round (w : list Z) : list Z :=
  let w := quarter_round 3 7 11 15 (quarter_round 2 6 10 14 (quarter_round 1 5 9 13 (quarter_round 0 4 8 12 w))) in
  quarter_round 3 4 9 14 (quarter_round 2 7 8 13 (quarter_round 1 6 11 12 (quarter_round 0 5 10 15 w))).
Definition chacha20_block (key : list Z) (counter : Z) (nonce : list Z) : list Z :=
  let state := [0x61707865; 0x3320646e; 0x79622d32; 0x6b206574] ++ le_words key 8 ++ [counter] ++ le_words nonce 3 in
  let working := Nat.iter 10 double_round state in
  mjoin (to_le_bytes 4 <$> zip_with (fun v s => u32 (v + s)) working state).

(** The buffer under the keystream, a block of it at a time; the last may be
    short. The buffer itself bounds the rounds. *)
Fixpoint keystream_xor (fuel : nat) (key nonce : list Z) (counter : Z) (buf : list Z) : list Z :=
  match fuel, buf with
  | S fuel, _ :: _ =>
      zip_with Z.lxor (take 64 buf) (chacha20_block key counter nonce)
        ++ keystream_xor fuel key nonce (u32 (counter + 1)) (drop 64 buf)
  | _, _ => []
  end.
Definition chacha20_xor (key nonce buf : list Z) : list Z := keystream_xor (length buf) key nonce 0 buf.

Definition AEAD_NONCE_LEN : Z := 12.
Definition AEAD_TAG_LEN : Z := 16.
Definition compute_tag (mac_key nonce aad ct : list Z) : list Z :=
  take (Z.to_nat AEAD_TAG_LEN)
    (hmac_finalize (hmac_update (hmac_update (hmac_update (hmac_new mac_key) nonce) aad) ct)).
Definition tags_equal (a b : list Z) : bool :=
  foldl (fun diff i => Z.lor diff (Z.lxor (zget 0 a i) (zget 0 b i))) 0 (seqZ 0 AEAD_TAG_LEN) =? 0.
(** The ciphertext and its tag. *)
Definition seal (enc_key mac_key nonce aad buf : list Z) : list Z * list Z :=
  let buf := chacha20_xor enc_key nonce buf in (buf, compute_tag mac_key nonce aad buf).
(** The verdict and what is left in the buffer: the plaintext, or zeros. *)
Definition open (enc_key mac_key nonce aad buf tag : list Z) : bool * list Z :=
  if negb (tags_equal (compute_tag mac_key nonce aad buf) tag) then (false, (fun _ => 0) <$> buf)
  else (true, chacha20_xor enc_key nonce buf).

(** ** The keystream *)
Lemma length_quarter_round a b c d s : length (quarter_round a b c d s) = length s.
Proof. apply Nat2Z.inj. change (zlen (quarter_round a b c d s) = zlen s). unfold quarter_round. cbv zeta. by rewrite !zlen_zset. Qed.
Lemma length_chacha20_block key counter nonce : length (chacha20_block key counter nonce) = 64%nat.
Proof.
  unfold chacha20_block. cbv zeta. set (st := _ ++ _ ++ _ ++ _).
  assert (length st = 16%nat) as Hs.
  { unfold st, le_words. rewrite !length_app, !length_fmap, !length_seqZ. done. }
  assert (forall n, length (Nat.iter n double_round st) = 16%nat) as Hw.
  { induction n as [|n IH]; [done|]. change (length (double_round (Nat.iter n double_round st)) = 16%nat).
    unfold double_round at 1. cbv zeta. by rewrite !length_quarter_round. }
  rewrite (length_mjoin_same 4 _) by (apply Forall_fmap, Forall_true; intros; apply length_le).
  by rewrite length_fmap, length_zip_with, Hw, Hs.
Qed.
Lemma lxor_zip_involutive a k : (length a <= length k)%nat -> zip_with Z.lxor (zip_with Z.lxor a k) k = a.
Proof.
  revert k. induction a as [|x a IH]; intros [|y k] Hl; cbn in *; [done|done|lia|].
  by rewrite Z.lxor_assoc, Z.lxor_nilpotent, Z.lxor_0_r, IH by lia.
Qed.
Lemma keystream_xor_cons fuel key nonce c buf :
  (length buf <= S fuel)%nat ->
  keystream_xor (S fuel) key nonce c buf =
    zip_with Z.lxor (take 64 buf) (chacha20_block key c nonce) ++ keystream_xor fuel key nonce (u32 (c + 1)) (drop 64 buf).
Proof. destruct buf; [|done]. intros _. by destruct fuel. Qed.
Lemma length_keystream fuel key nonce c buf : (length buf <= fuel)%nat -> length (keystream_xor fuel key nonce c buf) = length buf.
Proof.
  revert c buf. induction fuel as [|fuel IH]; intros c buf Hl; [destruct buf; cbn in *; [done|lia]|].
  rewrite keystream_xor_cons, length_app, length_zip_with, length_take, length_chacha20_block, IH, length_drop by (rewrite ?length_drop; lia).
  lia.
Qed.
Lemma keystream_involutive fuel key nonce c buf :
  (length buf <= fuel)%nat -> keystream_xor fuel key nonce c (keystream_xor fuel key nonce c buf) = buf.
Proof.
  revert c buf. induction fuel as [|fuel IH]; intros c buf Hl; [destruct buf; cbn in *; [done|lia]|].
  rewrite keystream_xor_cons by (rewrite length_keystream by done; done).
  rewrite (keystream_xor_cons _ _ _ _ buf) by done. set (ks := chacha20_block key c nonce).
  assert (length (zip_with Z.lxor (take 64 buf) ks) = Nat.min 64 (length buf)) as Hz.
  { unfold ks. rewrite length_zip_with, length_take, length_chacha20_block. lia. }
  destruct (le_lt_dec 64 (length buf)).
  - rewrite take_app_length', drop_app_length' by lia. rewrite IH by (rewrite length_drop; lia).
    rewrite lxor_zip_involutive by (unfold ks; rewrite length_take, length_chacha20_block; lia). apply take_drop.
  - rewrite (drop_ge buf) by lia. replace (keystream_xor fuel key nonce (u32 (c + 1)) []) with (@nil Z) by (by destruct fuel).
    rewrite app_nil_r, take_ge, drop_ge by lia. replace (keystream_xor fuel key nonce (u32 (c + 1)) []) with (@nil Z) by (by destruct fuel).
    rewrite app_nil_r, lxor_zip_involutive by (unfold ks; rewrite length_take, length_chacha20_block; lia). apply take_ge. lia.
Qed.
Lemma length_chacha20_xor key nonce buf : length (chacha20_xor key nonce buf) = length buf.
Proof. by apply length_keystream. Qed.
Lemma chacha20_xor_involutive key nonce buf : chacha20_xor key nonce (chacha20_xor key nonce buf) = buf.
Proof. unfold chacha20_xor at 1. rewrite length_chacha20_xor. by apply keystream_involutive. Qed.

(** ** Little-endian words *)
Lemma from_le_cons b l : from_le_bytes (b :: l) = b + 256 * from_le_bytes l.
Proof. unfold from_le_bytes, from_be_bytes. rewrite reverse_cons, foldl_app. cbn. lia. Qed.
Lemma to_le_S n x : to_le_bytes (S n) x = x mod 256 :: to_le_bytes n (x / 256).
Proof.
  unfold to_le_bytes. rewrite seqZ_cons by lia. replace (Z.succ 0) with (1 + 0) by done. replace (Z.pred (Z.of_nat (S n))) with (Z.of_nat n) by lia.
  rewrite <- fmap_add_seqZ, fmap_cons, <- list_fmap_compose. f_equal; [by rewrite Z.mul_0_r, Z.shiftr_0_r, (land_ones_mod _ 8)|].
  apply list_fmap_ext. intros i j [-> Hj]%lookup_seqZ. cbn. replace (8 * (1 + (0 + Z.of_nat i))) with (8 + 8 * (0 + Z.of_nat i)) by lia.
  by rewrite <- Z.shiftr_shiftr, (Z.shiftr_div_pow2 x 8) by lia.
Qed.
Lemma from_le_to_le n x : from_le_bytes (to_le_bytes n x) = x mod 2 ^ (8 * Z.of_nat n).
Proof.
  revert x. induction n as [|n IH]; intros x; [by rewrite Z.mul_0_r, Z.mod_1_r|].
  rewrite to_le_S, from_le_cons, IH. replace (8 * Z.of_nat (S n)) with (8 + 8 * Z.of_nat n) by lia.
  rewrite Z.pow_add_r by lia. change (2 ^ 8) with 256. rewrite Z.rem_mul_r; lia.
Qed.
Lemma from_le_to_le_id n x : 0 <= x < 2 ^ (8 * Z.of_nat n) -> from_le_bytes (to_le_bytes n x) = x.
Proof. intros. rewrite from_le_to_le. by apply Z.mod_small. Qed.

(** ** The tag *)
Lemma compute_tag_spec mk nonce aad ct : compute_tag mk nonce aad ct = take 16 (hmac_spec mk (nonce ++ aad ++ ct)).
Proof.
  unfold compute_tag. change (hmac_finalize _) with (hmac_finalize (foldl hmac_update (hmac_new mk) [nonce; aad; ct])).
  rewrite hmac_finalize_spec. cbn. by rewrite app_nil_r.
Qed.
Lemma length_compute_tag mk nonce aad ct : length (compute_tag mk nonce aad ct) = 16%nat.
Proof. rewrite compute_tag_spec, length_take, length_hmac_spec. done. Qed.
Lemma tags_equal_iff a b : length a = 16%nat -> length b = 16%nat -> tags_equal a b = true <-> a = b.
Proof. intros. unfold tags_equal. rewrite Z.eqb_eq. by apply (ct_equal_iff 16). Qed.
Lemma open_true ek mk nonce aad buf tag pt :
  length tag = 16%nat -> open ek mk nonce aad buf tag = (true, pt) <->
  tag = compute_tag mk nonce aad buf /\ pt = chacha20_xor ek nonce buf.
Proof.
  intros Ht. unfold open. destruct (tags_equal _ tag) eqn:E; cbn [negb].
  - apply tags_equal_iff in E; [|apply length_compute_tag|done]. split; [by intros [= <-]|by intros [_ ->]].
  - split; [done|]. intros [-> _]. apply not_true_iff_false in E. destruct E. by apply tags_equal_iff; rewrite ?length_compute_tag.
Qed.
Lemma open_seal ek mk nonce aad pt :
  open ek mk nonce aad (seal ek mk nonce aad pt).1 (seal ek mk nonce aad pt).2 = (true, pt).
Proof. apply open_true; [apply length_compute_tag|]. unfold seal. cbn [fst snd]. by rewrite chacha20_xor_involutive. Qed.

(** RFC 8439, 2.3.2: the first words of the keystream block. *)
Example chacha20_known_answer :
  take 16 (chacha20_block (seqZ 0 32) 1 [0; 0; 0; 9; 0; 0; 0; 0x4a; 0; 0; 0; 0]) =
    [0x10; 0xf1; 0xe7; 0xe4; 0xd1; 0x3b; 0x59; 0x15; 0x50; 0x0f; 0xdd; 0x1f; 0xa3; 0x20; 0x71; 0xc4].
Proof. vm_compute. reflexivity. Qed.
