(* ===== verification/Disk.v ===== *)
(** Block devices (storage.c, kernel.h).

    The device under a volume is hardware. It is modelled by its contract
    (kernel.h, [struct block_device]): a write that was accepted sits in a volatile
    cache until a flush succeeds, and the cache may reach the medium in any order or
    not at all when the power goes. Every call consumes one outcome of an arbitrary
    script: it succeeds, it fails, it fails though the request was carried out, or
    the power is cut, after which no call has any effect. The two devices the kernel
    itself implements, the RAM disk and the window onto a partition, are translated
    from the source. *)
From S2P Require Import Prelude.

Definition BLOCK_SIZE : Z := 4096.
Definition block : Type := list Z.
Definition zero_block : block := replicate (Z.to_nat BLOCK_SIZE) 0.
Definition contents : Type := Z -> block.

Inductive outcome := io_ok | io_lost | io_landed | io_crash.
#[global] Instance outcome_eq_dec : EqDecision outcome.
Proof. solve_decision. Defined.
Definition next_outcome (l : list outcome) : outcome * list outcome :=
  match l with [] => (io_ok, []) | o :: l => (o, l) end.

(** [d_cache] is the newest write first. *)
Record disk := mk_disk {
  d_total : Z; d_media : contents; d_cache : list (Z * block); d_alive : bool;
  d_reads : list outcome; d_writes : list outcome; d_flushes : list outcome
}.
Definition cached (c : list (Z * block)) (b : Z) : option block := snd <$> find (fun p => p.1 =? b) c.
(** What a read finds. *)
Definition latest (d : disk) : contents := fun b => default (d.(d_media) b) (cached d.(d_cache) b).
Definition disk_off (d : disk) (c : list (Z * block)) : disk := mk_disk d.(d_total) d.(d_media) c false [] [] [].

Definition disk_read (d : disk) (b : Z) : option block * disk :=
  if negb d.(d_alive) then (None, d) else
  let '(o, rs) := next_outcome d.(d_reads) in
  let d' := mk_disk d.(d_total) d.(d_media) d.(d_cache) true rs d.(d_writes) d.(d_flushes) in
  match o with
  | io_ok => (if in_range 0 d.(d_total) b then Some (latest d b) else None, d')
  | io_crash => (None, disk_off d d.(d_cache))
  | _ => (None, d')
  end.
Definition disk_write (d : disk) (b : Z) (w : block) : bool * disk :=
  if negb d.(d_alive) then (false, d) else
  let '(o, ws) := next_outcome d.(d_writes) in
  let ok := in_range 0 d.(d_total) b in
  let c := if ok then (b, w) :: d.(d_cache) else d.(d_cache) in
  let d' c := mk_disk d.(d_total) d.(d_media) c true d.(d_reads) ws d.(d_flushes) in
  match o with
  | io_ok => (ok, d' c)
  | io_lost => (false, d' d.(d_cache))
  | io_landed => (false, d' c)
  | io_crash => (false, disk_off d c)
  end.
Definition disk_flush (d : disk) : bool * disk :=
  if negb d.(d_alive) then (false, d) else
  let '(o, fs) := next_outcome d.(d_flushes) in
  let d' m c := mk_disk d.(d_total) m c true d.(d_reads) d.(d_writes) fs in
  match o with
  | io_ok => (true, d' (latest d) [])
  | io_lost => (false, d' d.(d_media) d.(d_cache))
  | io_landed => (false, d' (latest d) [])
  | io_crash => (false, disk_off d d.(d_cache))
  end.

(** What the medium may hold after the power went: a block nothing was pending
    for is intact; one with pending writes may hold anything, torn writes
    included, unless its writes are atomic, and then one of them or the old
    contents. *)
Definition crash_media (atomic : Z -> Prop) (d : disk) (m : contents) : Prop :=
  forall b, m b = d.(d_media) b \/ exists w, (b, w) ∈ d.(d_cache) /\ (atomic b -> m b = w).
(** The machine comes back up on such a medium. *)
Definition reboot (d : disk) (m : contents) : disk := mk_disk d.(d_total) m [] true [] [] [].

(** ** The RAM disk

    Its medium is kernel memory, here a byte per address. *)
Definition VDISK_BLOCKS : Z := 4096.
Record virtual_disk := mk_vdisk { vd_data : Z; vd_size : Z; vd_block_count : Z }.
Definition vdisk_read (total : Z) (vd : virtual_disk) (mem : Z -> Z) (b : Z) : option block :=
  if total <=? b then None
  else if vd.(vd_block_count) <=? b then None
  else Some ((fun i => mem (vd.(vd_data) + b * BLOCK_SIZE + i)) <$> seqZ 0 BLOCK_SIZE).
Definition vdisk_write (total : Z) (vd : virtual_disk) (mem : Z -> Z) (b : Z) (buf : block) : bool * (Z -> Z) :=
  if total <=? b then (false, mem)
  else if vd.(vd_block_count) <=? b then (false, mem)
  else
    let dst := vd.(vd_data) + b * BLOCK_SIZE in
    (true, fun a => if in_range dst (dst + BLOCK_SIZE) a then zget 0 buf (a - dst) else mem a).

(** ** A volume in a partition: a window of [total] blocks from [base] *)
Definition part_in (total start count : Z) : bool := (start <? total) && (count <=? total - start).
Definition part_read (total base : Z) (dev : disk) (b : Z) : option block * disk :=
  if negb (part_in total b 1) then (None, dev) else disk_read dev (u64 (base + b)).
Definition part_write (total base : Z) (dev : disk) (b : Z) (buf : block) : bool * disk :=
  if negb (part_in total b 1) then (false, dev) else disk_write dev (u64 (base + b)) buf.
Definition part_flush (dev : disk) : bool * disk := disk_flush dev.

(** ** Lemmas *)
Lemma cached_cons b w c b' : cached ((b, w) :: c) b' = if b =? b' then Some w else cached c b'.
Proof. unfold cached. cbn. by destruct (b =? b'). Qed.
Lemma cached_None c b : cached c b = None <-> forall w, (b, w) ∉ c.
Proof.
  induction c as [|[b' w'] c IH]; [split; [intros _ w; apply not_elem_of_nil|done]|].
  rewrite cached_cons. destruct (Z.eqb_spec b' b) as [->|Hne].
  - split; [done|]. intros H. by destruct (H w'); left.
  - rewrite IH. split; intros H w; specialize (H w); rewrite ?not_elem_of_cons in *; [split; [congruence|done]|tauto].
Qed.
Lemma cached_Some c b w : cached c b = Some w -> (b, w) ∈ c.
Proof.
  induction c as [|[b' w'] c IH]; [done|]. rewrite cached_cons. destruct (Z.eqb_spec b' b) as [->|Hne]; [intros [= ->]; by left|].
  intros H. right. by apply IH.
Qed.
Lemma latest_nil d : d.(d_cache) = [] -> latest d = d.(d_media).
Proof. unfold latest. by intros ->. Qed.

(** A RAM disk is exactly the memory behind it: whatever block number arrives, a
    write changes no byte outside [vd_block_count] blocks from [vd_data]. *)
Theorem vdisk_write_confined total vd mem b buf a :
  0 <= b -> (vdisk_write total vd mem b buf).2 a <> mem a ->
  vd.(vd_data) <= a < vd.(vd_data) + vd.(vd_block_count) * BLOCK_SIZE.
Proof.
  intros Hb. unfold vdisk_write, in_range, BLOCK_SIZE. destruct (Z.leb_spec total b); [done|].
  destruct (Z.leb_spec vd.(vd_block_count) b); [done|]. cbn.
  destruct (Z.leb_spec (vd.(vd_data) + b * 4096) a), (Z.ltb_spec a (vd.(vd_data) + b * 4096 + 4096)); cbn; [nia|done..].
Qed.
(** A volume mounted on a partition reaches nothing outside it. *)
Theorem part_write_confined total base dev b buf x :
  0 <= b -> 0 <= base -> base + total <= U64_MAX ->
  latest (part_write total base dev b buf).2 x <> latest dev x -> base <= x < base + total.
Proof.
  intros Hb H0 Hm. unfold part_write, part_in. destruct (Z.ltb_spec b total); [|done]. destruct (Z.leb_spec 1 (total - b)); [|lia].
  cbn. unfold disk_write. destruct (negb (d_alive dev)); [done|]. destruct (next_outcome _) as [o ws]. cbv zeta.
  assert (u64 (base + b) = base + b) as -> by (unfold U64_MAX in *; rewrite u64_mod, Z.mod_small; lia).
  unfold latest. destruct (in_range 0 (d_total dev) (base + b)), o; cbn [snd d_cache d_media disk_off]; try done;
    rewrite cached_cons; destruct (Z.eqb_spec (base + b) x); try done; lia.
Qed.
