(* ===== verification/Super.v ===== *)
(** The volume's descriptors (kernel.h): the superblock and the mounted volume,
    as records and as the bytes the compiler lays them out in. Padding bytes are
    zero, as the format leaves them. *)
From S2P Require Import Prelude Sha256 Aead Disk.

(** What the format fixes. *)
Record geometry := mk_geometry {
  magic : Z; version : Z; meta_start : Z; meta_blocks : Z; journal_start : Z; journal_blocks : Z;
  inode_bitmap_start : Z; block_bitmap_start : Z; data_bitmap_start : Z; inode_table_start : Z; data_start : Z;
  inode_count : Z; block_count : Z; total_blocks : Z; block_size : Z;
  volume_key_salt : list Z; sb_volume_key : list Z; generation : Z;
  kek_salt : list Z; wrapped_key_nonce : list Z; wrapped_key_ct : list Z; wrapped_key_tag : list Z;
  tpm_mode : Z; unsealed : Z; tpm_pub_len : Z; tpm_priv_len : Z; tpm_blob_block : Z;
  keyslot_start : Z; keyslot_blocks : Z; users_start : Z; users_blocks : Z;
  merkle_start : Z; merkle_blocks : Z; merkle_levels : Z; inode_bitmap_blocks : Z;
  rollback_anchored : Z; measured_absent : Z
}.
(** The superblock: that, and the three fields a mounted volume changes. *)
Record fs_superblock := mk_sb { geo : geometry; meta_root : list Z; needs_fsck : Z; rollback_gen : Z }.

(** The widths of its fields, padding included. *)
Definition sb_widths : list nat :=
  [4; 4; 8; 4; 4; 8; 4; 4; 8; 8; 8; 8; 8; 8; 8; 8; 4; 16; 16; 4;
   32; 12; 32; 16; 32; 1; 1; 2; 2; 2; 4; 8; 8; 4; 4; 8; 4; 4; 8; 4; 4; 4; 4; 8; 4; 1; 3]%nat.
Definition SB_SIZE : nat := 360.
#[local] Abbreviation le1 := (to_le_bytes 1). #[local] Abbreviation le2 := (to_le_bytes 2). #[local] Abbreviation le3 := (to_le_bytes 3).
#[local] Abbreviation le4 := (to_le_bytes 4). #[local] Abbreviation le8 := (to_le_bytes 8).
Definition sb_fields (sb : fs_superblock) : list (list Z) :=
  let g := sb.(geo) in
  [le4 g.(magic); le4 g.(version); le8 g.(meta_start); le4 g.(meta_blocks); le4 0; le8 g.(journal_start);
   le4 g.(journal_blocks); le4 0; le8 g.(inode_bitmap_start); le8 g.(block_bitmap_start); le8 g.(data_bitmap_start);
   le8 g.(inode_table_start); le8 g.(data_start); le8 g.(inode_count); le8 g.(block_count); le8 g.(total_blocks);
   le4 g.(block_size); g.(volume_key_salt); g.(sb_volume_key); le4 g.(generation); g.(kek_salt);
   g.(wrapped_key_nonce); g.(wrapped_key_ct); g.(wrapped_key_tag); sb.(meta_root); le1 g.(tpm_mode); le1 g.(unsealed);
   le2 g.(tpm_pub_len); le2 g.(tpm_priv_len); le2 0; le4 0; le8 g.(tpm_blob_block); le8 g.(keyslot_start);
   le4 g.(keyslot_blocks); le4 0; le8 g.(users_start); le4 g.(users_blocks); le4 0; le8 g.(merkle_start);
   le4 g.(merkle_blocks); le4 g.(merkle_levels); le4 g.(inode_bitmap_blocks); le4 sb.(needs_fsck);
   le8 sb.(rollback_gen); le4 g.(rollback_anchored); le1 g.(measured_absent); le3 0].
Definition sb_bytes (sb : fs_superblock) : list Z := mjoin (sb_fields sb).
(** Field [k] of a structure of the given widths. *)
Definition field (ws : list nat) (b : list Z) (k : nat) : list Z := take (ws !!! k) (drop (sum_list (take k ws)) b).
Definition sb_of_bytes (b : list Z) : fs_superblock :=
  let a := field sb_widths b in let n (k : nat) := from_le_bytes (a k) in
  (mk_sb (mk_geometry (n 0) (n 1) (n 2) (n 3) (n 5) (n 6) (n 8) (n 9) (n 10) (n 11) (n 12) (n 13) (n 14) (n 15) (n 16)
           (a 17) (a 18) (n 19) (a 20) (a 21) (a 22) (a 23) (n 25) (n 26) (n 27) (n 28) (n 31) (n 32) (n 33) (n 35) (n 36)
           (n 38) (n 39) (n 40) (n 41) (n 44) (n 45))
    (a 24) (n 42) (n 43))%nat.

(** The mounted volume. [inode_cache] is never set. *)
Record mounted_fs := mk_mfs {
  mounted : bool; unlocked : bool; sb : fs_superblock;
  volume_key : list Z; disk_key : list Z; meta_mac_key : list Z; journal_mac_key : list Z
}.
Definition INODES_PER_BLOCK : Z := 16.
(** The block that starts at [&mfs->sb], which is what a write of the superblock
    copies: the superblock, the rest of [struct mounted_fs], and whatever memory
    follows it. *)
Definition sb_block (mfs : mounted_fs) (after : list Z) : block :=
  take (Z.to_nat BLOCK_SIZE)
    (sb_bytes mfs.(sb) ++ mfs.(volume_key) ++ to_le_bytes 8 0 ++ mfs.(disk_key)
       ++ mfs.(meta_mac_key) ++ mfs.(journal_mac_key) ++ after).

(** ** Lemmas *)
Lemma field_mjoin ws ls rest k l :
  length <$> ls = ws -> ls !! k = Some l -> field ws (mjoin ls ++ rest) k = l.
Proof.
  intros <-. revert k. induction ls as [|l0 ls IH]; intros [|k] Hk; try done; cbn in Hk.
  - injection Hk as ->. change (take (length l) ((l ++ mjoin ls) ++ rest) = l). by rewrite <- app_assoc, take_app_length.
  - rewrite <- (IH k Hk). change (field (length <$> l0 :: ls) (mjoin (l0 :: ls) ++ rest) (S k)) with
      (take ((length <$> ls) !!! k) (drop (length l0 + sum_list (take k (length <$> ls))) ((l0 ++ mjoin ls) ++ rest))).
    by rewrite <- app_assoc, <- drop_drop, drop_app_length.
Qed.

(** A superblock whose fields fit their widths. *)
Definition sb_ok (s : fs_superblock) : Prop :=
  let g := s.(geo) in let n w x := 0 <= x < 2 ^ (8 * w) in
  Forall (n 1) [g.(tpm_mode); g.(unsealed); g.(measured_absent)] /\ Forall (n 2) [g.(tpm_pub_len); g.(tpm_priv_len)]
  /\ Forall (n 4) [g.(magic); g.(version); g.(meta_blocks); g.(journal_blocks); g.(block_size); g.(generation);
       g.(keyslot_blocks); g.(users_blocks); g.(merkle_blocks); g.(merkle_levels); g.(inode_bitmap_blocks);
       s.(needs_fsck); g.(rollback_anchored)]
  /\ Forall (n 8) [g.(meta_start); g.(journal_start); g.(inode_bitmap_start); g.(block_bitmap_start); g.(data_bitmap_start);
       g.(inode_table_start); g.(data_start); g.(inode_count); g.(block_count); g.(total_blocks); g.(tpm_blob_block);
       g.(keyslot_start); g.(users_start); g.(merkle_start); s.(rollback_gen)]
  /\ Forall (fun l => length l = 16%nat) [g.(volume_key_salt); g.(sb_volume_key); g.(wrapped_key_tag)]
  /\ Forall (fun l => length l = 32%nat) [g.(kek_salt); g.(wrapped_key_ct); s.(meta_root)]
  /\ length g.(wrapped_key_nonce) = 12%nat.
Lemma sb_fields_widths s : sb_ok s -> length <$> sb_fields s = sb_widths.
Proof.
  intros (_ & _ & _ & _ & H16 & H32 & H12). unfold sb_fields. cbv zeta.
  rewrite !Forall_cons in H16. rewrite !Forall_cons in H32. destruct H16 as (? & ? & ? & _), H32 as (? & ? & ? & _).
  cbn [fmap list_fmap]. rewrite !length_le. by repeat f_equal.
Qed.
Lemma length_sb_bytes s : sb_ok s -> length (sb_bytes s) = SB_SIZE.
Proof. intros H. unfold sb_bytes. rewrite length_join. by rewrite sb_fields_widths. Qed.
(** A superblock is read back as it was written, whatever follows it in its block. *)
Theorem sb_roundtrip s rest : sb_ok s -> sb_of_bytes (sb_bytes s ++ rest) = s.
Proof.
  intros Hok. pose proof (sb_fields_widths s Hok) as Hw. destruct Hok as (H1 & H2 & H4 & H8 & _).
  unfold sb_of_bytes, sb_bytes. cbv zeta.
  assert (forall k l, sb_fields s !! k = Some l -> field sb_widths (mjoin (sb_fields s) ++ rest) k = l) as HF.
  { intros k l. by apply field_mjoin. }
  repeat match goal with |- context [field sb_widths _ ?k] => erewrite (HF k _ eq_refl) end.
  rewrite !Forall_cons in H1. rewrite !Forall_cons in H2. rewrite !Forall_cons in H4. rewrite !Forall_cons in H8.
  destruct s as [g r f c], g. cbn [geo magic version meta_start meta_blocks journal_start journal_blocks inode_bitmap_start
    block_bitmap_start data_bitmap_start inode_table_start data_start inode_count block_count total_blocks block_size volume_key_salt
    sb_volume_key generation kek_salt wrapped_key_nonce wrapped_key_ct wrapped_key_tag tpm_mode unsealed tpm_pub_len tpm_priv_len
    tpm_blob_block keyslot_start keyslot_blocks users_start users_blocks merkle_start merkle_blocks merkle_levels inode_bitmap_blocks
    rollback_anchored measured_absent meta_root needs_fsck rollback_gen] in *.
  rewrite !from_le_to_le_id by (cbn [Z.of_nat]; tauto). done.
Qed.
