(* ===== verification/Store.v ===== *)
(** The block layer of the encrypted volume (storage.c): the write-ahead journal,
    the Merkle tree over the metadata, the two caches, and the sealing of blocks,
    with their shared state.

    The code is recursive through [do_block_read] and [do_block_write]: sealing a
    metadata block looks its nonce up in a block that is read and verified the same
    way. The operations therefore take the two as an argument ([blockio]) and the
    knot is tied a fixed number of times ([io_at]). Twice is enough on any volume
    whose tree, nonce region and superblock lie outside the sealed span. *)
From Stdlib Require Import Strings.String.
From S2P Require Import Prelude Sha256 Aead Disk Super.

(** ** State *)
Definition META_BLK_NONE : Z := U64_MAX.
Definition MERKLE_IDX_NONE : Z := U64_MAX.
Definition META_ENTRY_SIZE : Z := 32.
Definition META_ENTRIES_PER_BLOCK : Z := BLOCK_SIZE / META_ENTRY_SIZE.
Definition META_CACHE_LINES : Z := 32.
Definition MERKLE_FANOUT : Z := BLOCK_SIZE / 32.
Definition MERKLE_MAX_LEVELS : nat := 6.
Definition MERKLE_CACHE_LINES : Z := 16.
Definition JOURNAL_MAGIC : Z := 0x4C52574A.
Definition JOURNAL_DATA_MAX : Z := 24.
Definition BLOCKS_PER_DISK : Z := 4194304.
Definition SPAN_INO : Z := U64_MAX.

(** The open transaction: what it staged, in order. *)
Record txn := mk_txn { t_active : bool; t_overflow : bool; t_staged : list (Z * block) }.
Record meta_cache_line := mk_ml { ml_blk : Z; ml_stamp : Z; ml_dirty : bool; ml_img : block }.
Record merkle_line := mk_kl { kl_level : Z; kl_index : Z; kl_stamp : Z; kl_dirty : bool; kl_verified : bool; kl_img : block }.
Definition ml_none : meta_cache_line := mk_ml META_BLK_NONE 0 false zero_block.
Definition kl_none : merkle_line := mk_kl 0 MERKLE_IDX_NONE 0 false false zero_block.
(** Counters the kernel reports. *)
Record stats := mk_stats {
  g_meta_evictions : Z; g_meta_dirty_evictions : Z; g_merkle_evictions : Z; g_span_refusals : Z; g_txn_highwater : Z;
  g_free_batches : Z; g_alloc_bitmap_reads : Z; g_storage_op_unheld : Z
}.
(** The last operations, which nothing reads, and how often the sweep has run. *)
Record intent := mk_intent { in_kind : Z; in_arg0 : Z; in_arg1 : Z; in_gen : Z }.
Record oplog := mk_oplog { intent_log : list intent; intent_head : Z; g_fsck_runs : Z }.
(** [after] is the memory that follows the mounted volume's record, [random] the
    bytes the generator will give, [op_depth] how often the operation lock is held. *)
Record store := mk_store {
  s_disk : disk; s_mfs : mounted_fs; s_txn : txn; g_journal_seq : Z; g_meta_cache : list meta_cache_line; g_meta_clock : Z;
  g_merkle_cache : list merkle_line; g_merkle_clock : Z; g_alloc_hint : Z; op_depth : Z; random : list Z; after : list Z; s_stats : stats; s_log : oplog
}.
Definition set_disk d s := mk_store d s.(s_mfs) s.(s_txn) s.(g_journal_seq) s.(g_meta_cache) s.(g_meta_clock) s.(g_merkle_cache)
  s.(g_merkle_clock) s.(g_alloc_hint) s.(op_depth) s.(random) s.(after) s.(s_stats) s.(s_log).
Definition set_mfs m s := mk_store s.(s_disk) m s.(s_txn) s.(g_journal_seq) s.(g_meta_cache) s.(g_meta_clock) s.(g_merkle_cache)
  s.(g_merkle_clock) s.(g_alloc_hint) s.(op_depth) s.(random) s.(after) s.(s_stats) s.(s_log).
Definition set_txn t s := mk_store s.(s_disk) s.(s_mfs) t s.(g_journal_seq) s.(g_meta_cache) s.(g_meta_clock) s.(g_merkle_cache)
  s.(g_merkle_clock) s.(g_alloc_hint) s.(op_depth) s.(random) s.(after) s.(s_stats) s.(s_log).
Definition set_seq n s := mk_store s.(s_disk) s.(s_mfs) s.(s_txn) n s.(g_meta_cache) s.(g_meta_clock) s.(g_merkle_cache)
  s.(g_merkle_clock) s.(g_alloc_hint) s.(op_depth) s.(random) s.(after) s.(s_stats) s.(s_log).
Definition set_meta c n s := mk_store s.(s_disk) s.(s_mfs) s.(s_txn) s.(g_journal_seq) c n s.(g_merkle_cache)
  s.(g_merkle_clock) s.(g_alloc_hint) s.(op_depth) s.(random) s.(after) s.(s_stats) s.(s_log).
Definition set_merkle c n s := mk_store s.(s_disk) s.(s_mfs) s.(s_txn) s.(g_journal_seq) s.(g_meta_cache) s.(g_meta_clock) c
  n s.(g_alloc_hint) s.(op_depth) s.(random) s.(after) s.(s_stats) s.(s_log).
Definition set_hint h s := mk_store s.(s_disk) s.(s_mfs) s.(s_txn) s.(g_journal_seq) s.(g_meta_cache) s.(g_meta_clock) s.(g_merkle_cache)
  s.(g_merkle_clock) h s.(op_depth) s.(random) s.(after) s.(s_stats) s.(s_log).
Definition set_depth n s := mk_store s.(s_disk) s.(s_mfs) s.(s_txn) s.(g_journal_seq) s.(g_meta_cache) s.(g_meta_clock) s.(g_merkle_cache)
  s.(g_merkle_clock) s.(g_alloc_hint) n s.(random) s.(after) s.(s_stats) s.(s_log).
Definition set_random r s := mk_store s.(s_disk) s.(s_mfs) s.(s_txn) s.(g_journal_seq) s.(g_meta_cache) s.(g_meta_clock) s.(g_merkle_cache)
  s.(g_merkle_clock) s.(g_alloc_hint) s.(op_depth) r s.(after) s.(s_stats) s.(s_log).
Definition set_stats c s := mk_store s.(s_disk) s.(s_mfs) s.(s_txn) s.(g_journal_seq) s.(g_meta_cache) s.(g_meta_clock) s.(g_merkle_cache)
  s.(g_merkle_clock) s.(g_alloc_hint) s.(op_depth) s.(random) s.(after) c s.(s_log).
Definition set_oplog l s := mk_store s.(s_disk) s.(s_mfs) s.(s_txn) s.(g_journal_seq) s.(g_meta_cache) s.(g_meta_clock) s.(g_merkle_cache)
  s.(g_merkle_clock) s.(g_alloc_hint) s.(op_depth) s.(random) s.(after) s.(s_stats) l.

(** ** The monad of storage operations *)
Definition SM (A : Type) : Type := store -> A * store.
#[export] Instance sm_ret : MRet SM := fun A a s => (a, s).
#[export] Instance sm_bind : MBind SM := fun A B f m s => let '(a, s') := m s in f a s'.
Definition gets {A} (f : store -> A) : SM A := fun s => (f s, s).
Definition modify (f : store -> store) : SM unit := fun s => (tt, f s).
Lemma bind_run {A B} (m : SM A) (k : A -> SM B) s a s' : m s = (a, s') -> (m ≫= k) s = k a s'.
Proof. unfold mbind, sm_bind. by intros ->. Qed.
(** A loop that stops at the first failure. *)
Fixpoint all_ok {A} (f : A -> SM bool) (l : list A) : SM bool :=
  match l with [] => mret true | x :: l => ok ← f x; if (ok : bool) then all_ok f l else mret false end.
(** A loop that goes on and remembers whether anything failed. *)
Fixpoint each_ok {A} (f : A -> SM bool) (l : list A) : SM bool :=
  match l with [] => mret true | x :: l => ok ← f x; rest ← each_ok f l; mret (andb ok rest) end.
Fixpoint each {A} (f : A -> SM unit) (l : list A) : SM unit :=
  match l with [] => mret tt | x :: l => f x;; each f l end.

Definition mfs_of : SM mounted_fs := gets s_mfs.
Definition upd_sb (f : fs_superblock -> fs_superblock) : SM unit :=
  modify (fun s => let m := s.(s_mfs) in
    set_mfs (mk_mfs m.(mounted) m.(unlocked) (f m.(sb)) m.(volume_key) m.(disk_key) m.(meta_mac_key) m.(journal_mac_key)) s).
Definition set_meta_root r (b : fs_superblock) := mk_sb b.(geo) r b.(needs_fsck) b.(rollback_gen).
Definition set_needs_fsck n (b : fs_superblock) := mk_sb b.(geo) b.(meta_root) n b.(rollback_gen).
Definition set_rollback_gen n (b : fs_superblock) := mk_sb b.(geo) b.(meta_root) b.(needs_fsck) n.
(** A counter goes up. *)
Definition count (f : stats -> stats) : SM unit := modify (fun s => set_stats (f s.(s_stats)) s).
Definition secure_random_bytes (n : nat) : SM (list Z) :=
  fun s => (take n (s.(random) ++ replicate n 0), set_random (drop n s.(random)) s).

(** ** Raw block transport *)
Definition storage_io_permitted : SM bool := 
  d ← gets op_depth;
  if 0 <? d then mret true else
  count (fun c => mk_stats c.(g_meta_evictions) c.(g_meta_dirty_evictions) c.(g_merkle_evictions) c.(g_span_refusals)
    c.(g_txn_highwater) c.(g_free_batches) c.(g_alloc_bitmap_reads) (c.(g_storage_op_unheld) + 1));;
  mret false.
(** The operation lock around an exported call. *)
Definition STORAGE_OP {A} (m : SM A) : SM A :=
  modify (fun s => set_depth (s.(op_depth) + 1) s);;
  r ← m; modify (fun s => set_depth (s.(op_depth) - 1) s);; mret r.
Definition on_disk {A} (f : disk -> A * disk) : SM A := fun s => let '(r, d) := f s.(s_disk) in (r, set_disk d s).
Definition raw_block_read (b : Z) : SM (option block) :=
  ok ← storage_io_permitted; if negb ok then mret None else on_disk (fun d => disk_read d b).
Definition raw_block_write (b : Z) (w : block) : SM bool :=
  ok ← storage_io_permitted; if negb ok then mret false else on_disk (fun d => disk_write d b w).
Definition raw_block_flush : SM bool := on_disk disk_flush.

(** ** The tree's shape *)
(** [None] past the deepest tree the code describes. *)
Fixpoint merkle_levels_from (fuel : nat) (n : Z) : option (list Z) :=
  match fuel with
  | O => None
  | S fuel => if n =? 1 then Some [n] else cons n <$> merkle_levels_from fuel (u64 (n + MERKLE_FANOUT - 1) / MERKLE_FANOUT)
  end.
(** The node blocks of each level, lowest first; none if there is no tree. *)
Definition merkle_layout (leaves : Z) : list Z :=
  if leaves =? 0 then []
  else default [] (merkle_levels_from MERKLE_MAX_LEVELS (u64 (leaves + MERKLE_FANOUT - 1) / MERKLE_FANOUT)).
Definition merkle_leaves (g : geometry) : Z :=
  if (g.(meta_blocks) =? 0) || (g.(data_start) <=? g.(inode_bitmap_start)) then 0
  else u64 (g.(meta_blocks) + (g.(data_start) - g.(inode_bitmap_start))).
Definition tree_counts (g : geometry) : list Z := merkle_layout (merkle_leaves g).
Definition merkle_tree_fits (g : geometry) : bool :=
  let counts := tree_counts g in
  if (length counts =? 0)%nat then false else u64 (foldr Z.add 0 counts) <=? g.(merkle_blocks).
(** The leaf that records a block of the metadata span. *)
Definition pm_leaf_of (g : geometry) (b : Z) : option Z :=
  if (b <? g.(inode_bitmap_start)) || (g.(data_start) <=? b) then None
  else Some (g.(meta_blocks) + (b - g.(inode_bitmap_start))).
Definition merkle_level_base (g : geometry) (level : Z) : Z :=
  g.(merkle_start) + foldr Z.add 0 (take (Z.to_nat level) (tree_counts g)).
Definition merkle_hash (level index : Z) (mac_key : list Z) (img : block) : list Z :=
  hmac_sha256 mac_key ([0x4D; 0x4B; 0x4C; Z.land level 0xFF] ++ to_le_bytes 4 index ++ img).
Definition merkle_geom (g : geometry) : list Z :=
  [g.(magic); g.(version); g.(block_size); g.(total_blocks); g.(meta_start); g.(meta_blocks);
   g.(tpm_blob_block); g.(keyslot_start); g.(keyslot_blocks); g.(users_start); g.(users_blocks); g.(merkle_start);
   g.(merkle_blocks); g.(merkle_levels); g.(journal_start); g.(journal_blocks); g.(inode_bitmap_start); g.(inode_bitmap_blocks);
   g.(block_bitmap_start); g.(inode_table_start); g.(data_start); g.(inode_count); g.(block_count);
   Z.lor (Z.lor (Z.lor g.(rollback_anchored) (Z.shiftl g.(unsealed) 32)) (Z.shiftl g.(tpm_mode) 40)) (Z.shiftl g.(measured_absent) 48)].
(** The root: the top node's hash under the generation, the geometry and the salt. *)
Definition merkle_root_hash (b : fs_superblock) (top_img : block) (mac_key : list Z) (levels : Z) : list Z :=
  hmac_sha256 mac_key
    ([0x4D; 0x4B; 0x52; 0x4F; 0x4F; 0x54; 0x76; 0x32] ++ to_le_bytes 8 b.(rollback_gen)
       ++ mjoin (to_le_bytes 8 <$> merkle_geom b.(geo)) ++ b.(geo).(volume_key_salt) ++ merkle_hash levels 0 mac_key top_img).
(** Hash [i] of a node block. *)
Definition slot_of (img : block) (i : Z) : list Z := take 32 (drop (Z.to_nat (i mod MERKLE_FANOUT * 32)) img).
Definition set_slot (img : block) (i : Z) (h : list Z) : block := splice img (i mod MERKLE_FANOUT * 32) h.
(** Every byte of two digests is compared. *)
Definition differ (a b : list Z) : bool :=
  negb (foldl (fun bad i => Z.lor bad (Z.lxor (zget 0 a i) (zget 0 b i))) 0 (seqZ 0 32) =? 0).

(** ** Block I/O the metadata goes through *)
Record blockio := mk_io { io_read : Z -> SM (option block); io_write : Z -> block -> SM bool }.

Section metadata.
Context (io : blockio).

(** *** Node cache *)
Definition kline (i : Z) : SM merkle_line := gets (fun s => zget kl_none s.(g_merkle_cache) i).
Definition set_kline (i : Z) (l : merkle_line) : SM unit :=
  modify (fun s => set_merkle (zset s.(g_merkle_cache) i l) s.(g_merkle_clock) s).
Definition merkle_tick : SM Z :=
  modify (fun s => set_merkle s.(g_merkle_cache) (u32 (s.(g_merkle_clock) + 1)) s);; gets g_merkle_clock.
Definition kl_stamped (l : merkle_line) (t : Z) : merkle_line :=
  mk_kl l.(kl_level) l.(kl_index) t l.(kl_dirty) l.(kl_verified) l.(kl_img).
Definition kl_unused (l : merkle_line) : merkle_line := mk_kl l.(kl_level) MERKLE_IDX_NONE l.(kl_stamp) l.(kl_dirty) l.(kl_verified) l.(kl_img).
Definition kl_with_img (l : merkle_line) (img : block) : merkle_line :=
  mk_kl l.(kl_level) l.(kl_index) l.(kl_stamp) l.(kl_dirty) l.(kl_verified) img.
Definition no_tree (m : mounted_fs) : bool := negb m.(mounted) || (m.(sb).(geo).(merkle_start) =? 0).

Definition merkle_flush_line (i : Z) : SM bool :=
  m ← mfs_of; if no_tree m then mret false else
  l ← kline i; if l.(kl_index) =? MERKLE_IDX_NONE then mret true else
  ok ← io.(io_write) (merkle_level_base m.(sb).(geo) l.(kl_level) + l.(kl_index)) l.(kl_img);
  if negb ok then mret false else
  l ← kline i; set_kline i (mk_kl l.(kl_level) l.(kl_index) l.(kl_stamp) false l.(kl_verified) l.(kl_img));; mret true.
Definition merkle_flush_all : SM bool :=
  each_ok (fun i => l ← kline i;
    if negb (l.(kl_index) =? MERKLE_IDX_NONE) && l.(kl_dirty) then merkle_flush_line i else mret true) (seqZ 0 MERKLE_CACHE_LINES).
(** The least recently used of [n] lines, the first of equals. *)
Fixpoint oldest {A} (stamp : A -> Z) (l : list A) : nat :=
  match l with
  | [] | [_] => O
  | x :: l => let j := oldest stamp l in
      match l !! j with Some y => if stamp y <? stamp x then S j else O | None => O end
  end.
Definition merkle_line_for (level index : Z) : SM (option Z) :=
  m ← mfs_of; if no_tree m then mret None else
  c ← gets g_merkle_cache;
  match find_index (fun i => let l := zget kl_none c i in
      (l.(kl_index) =? index) && (l.(kl_level) =? level) && negb (l.(kl_index) =? MERKLE_IDX_NONE)) 0 (Z.to_nat MERKLE_CACHE_LINES) with
  | Some i => t ← merkle_tick; l ← kline i; set_kline i (kl_stamped l t);; mret (Some i)
  | None =>
      let free := find_index (fun i => (zget kl_none c i).(kl_index) =? MERKLE_IDX_NONE) 0 (Z.to_nat MERKLE_CACHE_LINES) in
      let victim := default (Z.of_nat (oldest kl_stamp c)) free in
      ok ← match free with
           | Some _ => mret true
           | None =>
               l ← kline victim;
               ok ← (if l.(kl_dirty) then merkle_flush_line victim else mret true);
               if negb ok then mret false else
               count (fun c => mk_stats c.(g_meta_evictions) c.(g_meta_dirty_evictions) (c.(g_merkle_evictions) + 1) c.(g_span_refusals)
                 c.(g_txn_highwater) c.(g_free_batches) c.(g_alloc_bitmap_reads) c.(g_storage_op_unheld));; mret true
           end;
      if negb ok then mret None else
      t ← merkle_tick;
      l ← kline victim; set_kline victim (mk_kl level index t false false l.(kl_img));;
      r ← io.(io_read) (merkle_level_base m.(sb).(geo) level + index);
      match r with
      | None => l ← kline victim; set_kline victim (kl_unused l);; mret None
      | Some img => l ← kline victim; set_kline victim (kl_with_img l img);; mret (Some victim)
      end
  end.

(** *** Nodes, placed under the root *)
(** The line of node [l], judged by its parent's line, or by the root at the top. *)
Definition node_checked (m : mounted_fs) (levels l index : Z) (parent : option Z) (i : Z) : SM bool :=
  line ← kline i;
  if line.(kl_verified) then mret true else
  p ← kline (default 0 parent);
  let want := if l =? levels - 1 then merkle_root_hash m.(sb) line.(kl_img) m.(meta_mac_key) levels
              else merkle_hash (l + 1) index m.(meta_mac_key) line.(kl_img) in
  let have := if l =? levels - 1 then m.(sb).(meta_root) else slot_of p.(kl_img) index in
  if differ want have then mret false else
  set_kline i (mk_kl line.(kl_level) line.(kl_index) line.(kl_stamp) line.(kl_dirty) true line.(kl_img));; mret true.
(** Down the path, the [n] levels below [level + n]. *)
Fixpoint merkle_walk (m : mounted_fs) (levels level index : Z) (n : nat) (parent : option Z) : SM (option Z) :=
  match n with
  | O => mret parent
  | S n =>
      let l := level + Z.of_nat n in
      let at_l := index / MERKLE_FANOUT ^ Z.of_nat n in
      r ← merkle_line_for l at_l;
      match r with
      | None => mret None
      | Some i => ok ← node_checked m levels l at_l parent i; if negb ok then mret None else merkle_walk m levels level index n (Some i)
      end
  end.
Definition merkle_node (level index : Z) : SM (option Z) :=
  m ← mfs_of; if no_tree m then mret None else
  let counts := tree_counts m.(sb).(geo) in
  let levels := zlen counts in
  if (levels =? 0) || (levels <=? level) || (zget 0 counts level <=? index) then mret None else
  merkle_walk m levels level index (Z.to_nat (levels - level)) None.
(** Is [img] what the tree records for leaf [leaf]? *)
Definition merkle_verify_leaf (leaf : Z) (img : block) : SM bool :=
  m ← mfs_of; if negb m.(mounted) then mret false else
  let want := merkle_hash 0 leaf m.(meta_mac_key) img in
  r ← merkle_node 0 (leaf / MERKLE_FANOUT);
  match r with
  | None => mret false
  | Some i => l0 ← kline i; mret (negb (differ want (slot_of l0.(kl_img) leaf)))
  end.
(** Records [h] for child [idx] of level [l], and so up; the result is the root. *)
Fixpoint merkle_carry (m : mounted_fs) (levels l : Z) (n : nat) (idx : Z) (h : list Z) : SM (option (list Z)) :=
  match n with
  | O => mret (Some h)
  | S n =>
      let node_idx := idx / MERKLE_FANOUT in
      r ← merkle_node l node_idx;
      match r with
      | None => mret None
      | Some i =>
          line ← kline i;
          let img := set_slot line.(kl_img) idx h in
          set_kline i (mk_kl line.(kl_level) line.(kl_index) line.(kl_stamp) true line.(kl_verified) img);;
          let h := if l + 1 =? levels then merkle_root_hash m.(sb) img m.(meta_mac_key) levels
                   else merkle_hash (l + 1) node_idx m.(meta_mac_key) img in
          merkle_carry m levels (l + 1) n node_idx h
      end
  end.
(** The block that the superblock is written from. *)
Definition superblock_block : SM block := gets (fun s => sb_block s.(s_mfs) s.(after)).
Definition merkle_update_leaf (leaf : Z) (img : block) : SM bool :=
  m ← mfs_of; if no_tree m then mret false else
  let levels := zlen (tree_counts m.(sb).(geo)) in
  if levels =? 0 then mret false else
  r ← merkle_carry m levels 0 (Z.to_nat levels) leaf (merkle_hash 0 leaf m.(meta_mac_key) img);
  match r with
  | None => mret false
  | Some root => upd_sb (set_meta_root root);; b ← superblock_block; _ ← io.(io_write) 0 b; mret true
  end.

(** *** Metadata cache *)
Definition mline (i : Z) : SM meta_cache_line := gets (fun s => zget ml_none s.(g_meta_cache) i).
Definition set_mline (i : Z) (l : meta_cache_line) : SM unit :=
  modify (fun s => set_meta (zset s.(g_meta_cache) i l) s.(g_meta_clock) s).
Definition meta_tick : SM Z :=
  modify (fun s => set_meta s.(g_meta_cache) (u32 (s.(g_meta_clock) + 1)) s);; gets g_meta_clock.
Definition no_meta (m : mounted_fs) : bool := negb m.(mounted) || (m.(sb).(geo).(meta_start) =? 0).
Definition meta_cache_flush_line (i : Z) : SM bool :=
  m ← mfs_of; if no_meta m then mret false else
  l ← mline i; if l.(ml_blk) =? META_BLK_NONE then mret true else
  ok ← io.(io_write) (m.(sb).(geo).(meta_start) + l.(ml_blk)) l.(ml_img);
  if negb ok then mret false else
  l ← mline i; set_mline i (mk_ml l.(ml_blk) l.(ml_stamp) false l.(ml_img));;
  merkle_update_leaf l.(ml_blk) l.(ml_img).
Definition meta_cache_flush_all : SM bool :=
  each_ok (fun i => l ← mline i;
    if negb (l.(ml_blk) =? META_BLK_NONE) && l.(ml_dirty) then meta_cache_flush_line i else mret true) (seqZ 0 META_CACHE_LINES).
Definition ml_unused (l : meta_cache_line) : meta_cache_line := mk_ml META_BLK_NONE l.(ml_stamp) l.(ml_dirty) l.(ml_img).
(** The resident line of a metadata block, loaded and verified on a miss. *)
Definition meta_cache_get (blk : Z) : SM (option Z) :=
  m ← mfs_of; if no_meta m then mret None else
  if m.(sb).(geo).(meta_blocks) <=? blk then mret None else
  c ← gets g_meta_cache;
  match find_index (fun i => (zget ml_none c i).(ml_blk) =? blk) 0 (Z.to_nat META_CACHE_LINES) with
  | Some i => t ← meta_tick; l ← mline i; set_mline i (mk_ml l.(ml_blk) t l.(ml_dirty) l.(ml_img));; mret (Some i)
  | None =>
      let free := find_index (fun i => (zget ml_none c i).(ml_blk) =? META_BLK_NONE) 0 (Z.to_nat META_CACHE_LINES) in
      let victim := default (Z.of_nat (oldest ml_stamp c)) free in
      ok ← match free with
           | Some _ => mret true
           | None =>
               l ← mline victim;
               ok ← (if l.(ml_dirty)
                     then count (fun c => mk_stats c.(g_meta_evictions) (c.(g_meta_dirty_evictions) + 1) c.(g_merkle_evictions)
                            c.(g_span_refusals) c.(g_txn_highwater) c.(g_free_batches) c.(g_alloc_bitmap_reads) c.(g_storage_op_unheld));;
                          meta_cache_flush_line victim
                     else mret true);
               if negb ok then mret false else
               count (fun c => mk_stats (c.(g_meta_evictions) + 1) c.(g_meta_dirty_evictions) c.(g_merkle_evictions) c.(g_span_refusals)
                 c.(g_txn_highwater) c.(g_free_batches) c.(g_alloc_bitmap_reads) c.(g_storage_op_unheld));; mret true
           end;
      if negb ok then mret None else
      t ← meta_tick;
      l ← mline victim; set_mline victim (mk_ml blk t false l.(ml_img));;
      r ← io.(io_read) (m.(sb).(geo).(meta_start) + blk);
      match r with
      | None => l ← mline victim; set_mline victim (ml_unused l);; mret None
      | Some img =>
          l ← mline victim; set_mline victim (mk_ml l.(ml_blk) l.(ml_stamp) l.(ml_dirty) img);;
          ok ← merkle_verify_leaf blk img;
          if negb ok then l ← mline victim; set_mline victim (ml_unused l);; mret None else mret (Some victim)
      end
  end.

(** *** Sealed blocks *)
(** The encryption and the MAC key of a block. *)
Definition storage_derive_block_keys (ino b : Z) : SM (option (list Z * list Z)) :=
  m ← mfs_of; if negb m.(mounted) || negb m.(unlocked) then mret None else
  match hkdf_sha256 m.(volume_key) m.(disk_key) (byte_string "horus-block-aead-v3" ++ to_le_bytes 8 ino ++ to_le_bytes 8 b) 64 with
  | None => mret None
  | Some okm => mret (Some (take 32 okm, drop 32 okm))
  end.
Definition storage_block_aad (ino b : Z) : list Z := to_le_bytes 8 ino ++ to_le_bytes 8 b.
(** The entry of [phys] in its metadata block: nonce, tag, present, padding. *)
Definition entry_off (phys : Z) : Z := phys mod META_ENTRIES_PER_BLOCK * META_ENTRY_SIZE.
Definition entry_of (img : block) (phys : Z) : list Z := take 32 (drop (Z.to_nat (entry_off phys)) img).
Definition entry_present (img : block) (phys : Z) : bool := negb (zget 0 (entry_of img phys) 28 =? 0).
(** The verdict and what is left in the buffer. *)
Definition storage_encrypt_block (phys ino b : Z) (buf : block) : SM (bool * block) :=
  if BLOCKS_PER_DISK <=? phys then mret (false, buf) else
  m ← mfs_of; if negb m.(mounted) || negb m.(unlocked) then mret (false, buf) else
  ks ← storage_derive_block_keys ino b;
  match ks with
  | None => mret (false, buf)
  | Some (ek, mk) =>
      nonce ← secure_random_bytes 12;
      let '(ct, tag) := seal ek mk nonce (storage_block_aad ino b) buf in
      r ← meta_cache_get (phys / META_ENTRIES_PER_BLOCK);
      match r with
      | None => mret (false, ct)
      | Some i =>
          l ← mline i;
          set_mline i (mk_ml l.(ml_blk) l.(ml_stamp) true (splice l.(ml_img) (entry_off phys) (nonce ++ tag ++ [1; 0; 0; 0])));;
          t ← gets s_txn;
          if t.(t_active) then mret (true, ct) else ok ← meta_cache_flush_line i; mret (ok, ct)
      end
  end.
Definition storage_decrypt_block (phys ino b : Z) (buf : block) : SM (bool * block) :=
  if BLOCKS_PER_DISK <=? phys then mret (false, zero_block) else
  m ← mfs_of; if negb m.(mounted) || negb m.(unlocked) then mret (false, zero_block) else
  r ← meta_cache_get (phys / META_ENTRIES_PER_BLOCK);
  match r with
  | None => mret (false, zero_block)
  | Some i =>
      l ← mline i;
      if negb (entry_present l.(ml_img) phys) then mret (false, zero_block) else
      let e := entry_of l.(ml_img) phys in
      ks ← storage_derive_block_keys ino b;
      match ks with
      | None => mret (false, zero_block)
      | Some (ek, mk) => mret (open ek mk (take 12 e) (storage_block_aad ino b) buf (take 16 (drop 12 e)))
      end
  end.
Definition span_open (phys : Z) (buf : block) : SM (bool * block) :=
  r ← meta_cache_get (phys / META_ENTRIES_PER_BLOCK);
  match r with
  | None => mret (false, buf)
  | Some i => l ← mline i; if negb (entry_present l.(ml_img) phys) then mret (true, buf)
              else storage_decrypt_block phys SPAN_INO phys buf
  end.

(** *** The journal *)
Definition journal_begin : SM unit := modify (set_txn (mk_txn true false [])).
Definition meta_cache_drop_dirty : SM unit :=
  modify (fun s => set_meta ((fun l => if l.(ml_dirty) then mk_ml META_BLK_NONE l.(ml_stamp) false l.(ml_img) else l) <$> s.(g_meta_cache))
                     s.(g_meta_clock) s).
Definition merkle_drop_dirty : SM unit :=
  modify (fun s => set_merkle ((fun l => if l.(kl_dirty) then mk_kl l.(kl_level) MERKLE_IDX_NONE l.(kl_stamp) false false l.(kl_img) else l)
                                 <$> s.(g_merkle_cache)) s.(g_merkle_clock) s).
Definition journal_abort : SM unit := modify (set_txn (mk_txn false false []));; meta_cache_drop_dirty;; merkle_drop_dirty.

Record journal_header := mk_hdr { h_magic : Z; h_count : Z; h_seq : Z; h_target : list Z; h_hmac : list Z }.
Definition hdr_widths : list nat := [4; 4; 8]%nat ++ replicate (Z.to_nat JOURNAL_DATA_MAX) 8%nat ++ [32]%nat.
Definition hdr_fields (h : journal_header) : list (list Z) :=
  [to_le_bytes 4 h.(h_magic); to_le_bytes 4 h.(h_count); to_le_bytes 8 h.(h_seq)] ++ (to_le_bytes 8 <$> h.(h_target)) ++ [h.(h_hmac)].
(** The header's block: the header, then zeros. *)
Definition hdr_block (h : journal_header) : block := splice zero_block 0 (mjoin (hdr_fields h)).
Definition hdr_of_block (b : block) : journal_header :=
  let n k := from_le_bytes (field hdr_widths b k) in
  mk_hdr (n 0%nat) (n 1%nat) (n 2%nat) (n <$> seq 3 (Z.to_nat JOURNAL_DATA_MAX)) (field hdr_widths b 27).
Definition journal_compute_hmac (mac_key : list Z) (sq : Z) (cnt : Z) (targets : list Z) (data : list block) : list Z :=
  hmac_sha256 mac_key (to_le_bytes 8 sq ++ to_le_bytes 4 cnt ++ mjoin (to_le_bytes 8 <$> targets) ++ mjoin data).
(** The header that commits what is staged. *)
Definition commit_header (mac_key : list Z) (sq : Z) (staged : list (Z * block)) : journal_header :=
  mk_hdr JOURNAL_MAGIC (zlen staged) sq (staged.*1 ++ replicate (Z.to_nat JOURNAL_DATA_MAX - length staged) 0)
    (journal_compute_hmac mac_key sq (zlen staged) staged.*1 staged.*2).

(** Steps 1 to 4 with their barriers, on a transaction that staged something. *)
Definition journal_write_out : SM bool :=
  m ← mfs_of; t ← gets s_txn;
  let jstart := m.(sb).(geo).(journal_start) in
  let staged := t.(t_staged) in
  ok ← all_ok (fun iw => raw_block_write (jstart + 1 + Z.of_nat iw.1) iw.2) (imap pair staged.*2);
  if negb ok then journal_abort;; mret false else
  ok ← raw_block_flush;
  if negb ok then journal_abort;; mret false else
  sq ← gets g_journal_seq;
  ok ← raw_block_write jstart (hdr_block (commit_header m.(journal_mac_key) sq staged));
  if negb ok then journal_abort;; mret false else
  ok ← raw_block_flush;
  if negb ok then journal_abort;; mret false else
  each (fun p : Z * block => _ ← raw_block_write p.1 p.2; mret tt) staged;;
  ok ← raw_block_flush;
  (if (ok : bool) then _ ← raw_block_write jstart zero_block; mret tt else mret tt);;
  modify (fun s => set_seq (u64 (s.(g_journal_seq) + 1)) s);;
  modify (set_txn (mk_txn false t.(t_overflow) []));; mret true.
Definition journal_commit : SM bool :=
  m ← mfs_of; if negb m.(mounted) || (m.(sb).(geo).(journal_start) =? 0) then journal_abort;; mret false else
  t ← gets s_txn; if t.(t_overflow) then journal_abort;; mret false else
  ok ← meta_cache_flush_all; if negb ok then journal_abort;; mret false else
  ok ← merkle_flush_all; if negb ok then journal_abort;; mret false else
  t ← gets s_txn;
  match t.(t_staged) with
  | [] => modify (set_txn (mk_txn false t.(t_overflow) []));; mret true
  | _ => journal_write_out
  end.

(** *** Blocks, through the span's rule *)
Inductive span := span_no | span_bad | span_leaf_of (leaf : Z).
Definition span_leaf (b : Z) : SM span :=
  m ← mfs_of; if negb m.(mounted) then mret span_no else
  match pm_leaf_of m.(sb).(geo) b with
  | None => mret span_no
  | Some leaf => if negb m.(unlocked) || (m.(sb).(geo).(merkle_start) =? 0) then mret span_bad else mret (span_leaf_of leaf)
  end.
Definition staged_at (t : txn) (b : Z) : option block := snd <$> find (fun p => p.1 =? b) (reverse t.(t_staged)).
Definition span_refused : SM (option block) :=
  count (fun c => mk_stats c.(g_meta_evictions) c.(g_meta_dirty_evictions) c.(g_merkle_evictions) (c.(g_span_refusals) + 1)
    c.(g_txn_highwater) c.(g_free_batches) c.(g_alloc_bitmap_reads) c.(g_storage_op_unheld));; mret None.
Definition do_block_read_with (b : Z) : SM (option block) :=
  ok ← storage_io_permitted; if negb ok then mret None else
  t ← gets s_txn;
  let staged := if t.(t_active) then staged_at t b else None in
  r ← match staged with Some w => mret (Some w) | None => raw_block_read b end;
  match r with
  | None => mret None
  | Some buf =>
      sp ← span_leaf b;
      match sp with
      | span_no => mret (Some buf)
      | span_bad => span_refused
      | span_leaf_of leaf =>
          ok ← match staged with Some _ => mret true | None => merkle_verify_leaf leaf buf end;
          if negb ok then span_refused else
          r ← span_open b buf;
          if negb r.1 then span_refused else mret (Some r.2)
      end
  end.
(** The slot a block was staged in; [None] past what the journal holds. *)
Definition stage_slot (b : Z) (buf : block) : SM (option nat) :=
  t ← gets s_txn;
  match list_find (fun p => p.1 = b) t.(t_staged) with
  | Some (i, _) => modify (set_txn (mk_txn t.(t_active) t.(t_overflow) (<[i := (b, buf)]> t.(t_staged))));; mret (Some i)
  | None =>
      if JOURNAL_DATA_MAX <=? zlen t.(t_staged)
      then modify (set_txn (mk_txn t.(t_active) true t.(t_staged)));; mret None
      else
        modify (set_txn (mk_txn t.(t_active) t.(t_overflow) (t.(t_staged) ++ [(b, buf)])));;
        count (fun c => mk_stats c.(g_meta_evictions) c.(g_meta_dirty_evictions) c.(g_merkle_evictions) c.(g_span_refusals)
          (Z.max c.(g_txn_highwater) (zlen t.(t_staged) + 1)) c.(g_free_batches) c.(g_alloc_bitmap_reads) c.(g_storage_op_unheld));;
        mret (Some (length t.(t_staged)))
  end.
Definition stage_block (b : Z) (buf : block) : SM bool := r ← stage_slot b buf; mret (bool_decide (is_Some r)).
Definition set_overflow : SM unit := modify (fun s => set_txn (mk_txn s.(s_txn).(t_active) true s.(s_txn).(t_staged)) s).
(** A block of the span is sealed in its slot and its leaf carried up. *)
Definition seal_staged (b leaf : Z) (buf : block) : SM bool :=
  r ← stage_slot b buf;
  match r with
  | None => mret false
  | Some i =>
      r ← storage_encrypt_block b SPAN_INO b buf;
      modify (fun s => set_txn (mk_txn s.(s_txn).(t_active) s.(s_txn).(t_overflow) (<[i := (b, r.2)]> s.(s_txn).(t_staged))) s);;
      if negb r.1 then mret false else merkle_update_leaf leaf r.2
  end.
Definition do_block_write_with (b : Z) (buf : block) : SM bool :=
  ok ← storage_io_permitted; if negb ok then mret false else
  sp ← span_leaf b;
  match sp with
  | span_bad => mret false
  | span_no => t ← gets s_txn; if t.(t_active) then stage_block b buf else raw_block_write b buf
  | span_leaf_of leaf =>
      t ← gets s_txn;
      let own := negb t.(t_active) in
      (if own then journal_begin else mret tt);;
      ok ← seal_staged b leaf buf;
      if negb ok then (if own then journal_abort else set_overflow);; mret false
      else if own then journal_commit else mret true
  end.
End metadata.

(** The knot; past the last level nothing is read or written. *)
Fixpoint io_at (n : nat) : blockio :=
  match n with
  | O => mk_io (fun _ => mret None) (fun _ _ => mret false)
  | S n => mk_io (do_block_read_with (io_at n)) (do_block_write_with (io_at n))
  end.
Definition store_io : blockio := io_at 1.
Definition do_block_read : Z -> SM (option block) := do_block_read_with store_io.
Definition do_block_write : Z -> block -> SM bool := do_block_write_with store_io.

(** Replay of what a crash left committed; the result says whether anything was. *)
Definition journal_discard (replayed : bool) : SM bool :=
  m ← mfs_of; _ ← raw_block_write m.(sb).(geo).(journal_start) zero_block; mret replayed.
Definition journal_targets_ok (g : geometry) (targets : list Z) : bool :=
  forallb (fun t => (t <? g.(total_blocks)) && negb (in_range g.(journal_start) (g.(journal_start) + g.(journal_blocks)) t)) targets.
(** The journal's data blocks, if every one could be read. *)
Fixpoint journal_load (jstart : Z) (n : nat) : SM (option (list block)) :=
  match n with
  | O => mret (Some [])
  | S n => r ← raw_block_read (jstart + 1); match r with None => mret None | Some w => rest ← journal_load (jstart + 1) n; mret (cons w <$> rest) end
  end.
Definition journal_recover : SM bool :=
  m ← mfs_of;
  let g := m.(sb).(geo) in
  if negb m.(mounted) || (g.(journal_start) =? 0) then mret false else
  r ← raw_block_read g.(journal_start);
  match r with
  | None => mret false
  | Some hbuf =>
      let hdr := hdr_of_block hbuf in
      if negb (hdr.(h_magic) =? JOURNAL_MAGIC) then mret false else
      if (hdr.(h_count) =? 0) || (JOURNAL_DATA_MAX <? hdr.(h_count)) then journal_discard false else
      t ← gets s_txn; if t.(t_active) then mret false else
      let n := Z.to_nat hdr.(h_count) in
      r ← journal_load g.(journal_start) n;
      match r with
      | None => journal_discard false
      | Some jdata =>
          if differ (journal_compute_hmac m.(journal_mac_key) hdr.(h_seq) hdr.(h_count) (take n hdr.(h_target)) jdata) hdr.(h_hmac)
          then journal_discard false else
          if negb (journal_targets_ok g (take n hdr.(h_target))) then journal_discard false else
          each (fun p : Z * block => _ ← raw_block_write p.1 p.2; mret tt) (zip (take n hdr.(h_target)) jdata);;
          modify (fun s => if s.(g_journal_seq) <=? hdr.(h_seq) then set_seq (u64 (hdr.(h_seq) + 1)) s else s);;
          ok ← raw_block_flush;
          if negb ok then mret true else journal_discard true
      end
  end.
