(* ===== verification/Journal.v ===== *)
(** The write-ahead journal is crash atomic (storage.c): whatever the device does
    with the writes it was given, and wherever the power is cut, recovery leaves the
    volume wholly before or wholly after the transaction, and after it if the commit
    reported success. *)
From S2P Require Import Prelude Sha256 Aead Disk Super Store.

(** ** Device steps *)
Lemma disk_write_step d b w r d' :
  disk_write d b w = (r, d') ->
  d'.(d_total) = d.(d_total) /\ d'.(d_media) = d.(d_media)
  /\ (d'.(d_cache) = d.(d_cache) \/ d'.(d_cache) = (b, w) :: d.(d_cache))
  /\ (r = true -> d'.(d_alive) = true /\ d'.(d_cache) = (b, w) :: d.(d_cache)).
Proof.
  unfold disk_write. destruct (d_alive d); [|intros [= <- <-]; cbn; naive_solver]. cbn. destruct (next_outcome _) as [o ws].
  destruct o, (in_range 0 (d_total d) b); intros [= <- <-]; cbn; naive_solver.
Qed.
Lemma disk_flush_step d r d' :
  disk_flush d = (r, d') ->
  d'.(d_total) = d.(d_total)
  /\ ((d'.(d_media) = d.(d_media) /\ d'.(d_cache) = d.(d_cache)) \/ (d'.(d_media) = latest d /\ d'.(d_cache) = []))
  /\ (r = true -> d'.(d_alive) = true /\ d'.(d_media) = latest d /\ d'.(d_cache) = []).
Proof.
  unfold disk_flush. destruct (d_alive d); [|intros [= <- <-]; cbn; naive_solver]. cbn. destruct (next_outcome _) as [o fs].
  destruct o; intros [= <- <-]; cbn; naive_solver.
Qed.
Lemma latest_write d d' b w :
  d'.(d_media) = d.(d_media) -> d'.(d_cache) = (b, w) :: d.(d_cache) ->
  forall x, latest d' x = if b =? x then w else latest d x.
Proof. intros Hm Hc x. unfold latest. rewrite Hm, Hc, cached_cons. by destruct (b =? x). Qed.

Lemma raw_write_eq b w s :
  0 < s.(op_depth) -> raw_block_write b w s = let '(r, d) := disk_write s.(s_disk) b w in (r, set_disk d s).
Proof.
  intros Hd. unfold raw_block_write, storage_io_permitted, mbind, sm_bind, gets. cbn. destruct (Z.ltb_spec 0 (op_depth s)); [done|lia].
Qed.
Lemma raw_read_eq b s :
  0 < s.(op_depth) -> raw_block_read b s = let '(r, d) := disk_read s.(s_disk) b in (r, set_disk d s).
Proof.
  intros Hd. unfold raw_block_read, storage_io_permitted, mbind, sm_bind, gets. cbn. destruct (Z.ltb_spec 0 (op_depth s)); [done|lia].
Qed.
Lemma set_disk_set_disk d d' s : set_disk d (set_disk d' s) = set_disk d s.
Proof. done. Qed.

(** ** What a medium recovers to *)
Definition update (b : Z) (w : block) (h : contents) : contents := fun x => if b =? x then w else h x.
Fixpoint apply_all (st : list (Z * block)) (h : contents) : contents :=
  match st with [] => h | (b, w) :: st => apply_all st (update b w h) end.

Section volume.
Context (g : geometry) (key : list Z).
#[local] Abbreviation jstart := g.(journal_start).
Definition in_journal (b : Z) : Prop := jstart <= b < jstart + g.(journal_blocks).
#[global] Instance in_journal_dec b : Decision (in_journal b).
Proof. unfold in_journal. apply _. Defined.
(** The same files: the contents agree outside the journal. *)
Definition same_home (a b : contents) : Prop := forall x, ~ in_journal x -> a x = b x.
#[global] Instance same_home_equiv : Equivalence same_home.
Proof. split; [done|..]; intros a b; [intros H x Hx; by rewrite H|]. intros c H1 H2 x Hx. by rewrite H1, H2. Qed.
(** The data a header on [m] speaks of. *)
Definition journal_data (m : contents) (n : nat) : list block := (fun i => m (jstart + 1 + i)) <$> seqZ 0 (Z.of_nat n).
(** The transaction a medium holds committed, if any. *)
Definition committed (m : contents) : option (list (Z * block)) :=
  let h := hdr_of_block (m jstart) in
  let n := Z.to_nat h.(h_count) in
  let targets := take n h.(h_target) in
  if negb (h.(h_magic) =? JOURNAL_MAGIC) then None
  else if (h.(h_count) =? 0) || (JOURNAL_DATA_MAX <? h.(h_count)) then None
  else if differ (journal_compute_hmac key h.(h_seq) h.(h_count) targets (journal_data m n)) h.(h_hmac) then None
  else if negb (journal_targets_ok g targets) then None
  else Some (zip targets (journal_data m n)).
Definition recovered (m : contents) : contents := match committed m with Some st => apply_all st m | None => m end.

(** *** Applying writes *)
Lemma apply_all_pt st (a b : contents) x : a x = b x -> apply_all st a x = apply_all st b x.
Proof. revert a b. induction st as [|[u v] st IH]; intros a b E; [done|]. cbn. apply IH. unfold update. by destruct (u =? x). Qed.
Lemma apply_all_ext st a b : same_home a b -> same_home (apply_all st a) (apply_all st b).
Proof. intros H x Hx. by apply apply_all_pt, H. Qed.
Lemma apply_all_in st h h' x : x ∈ st.*1 -> apply_all st h x = apply_all st h' x.
Proof.
  revert h h'. induction st as [|[t w] st IH]; intros h h' Hx; [by apply elem_of_nil in Hx|]. cbn in *.
  apply elem_of_cons in Hx as [->|Hx]; [|by apply IH]. apply apply_all_pt. unfold update. by rewrite Z.eqb_refl.
Qed.
Lemma apply_all_out st h x : x ∉ st.*1 -> apply_all st h x = h x.
Proof.
  revert h. induction st as [|[t w] st IH]; intros h Hx; [done|]. cbn in *. apply not_elem_of_cons in Hx as [H1 H2].
  rewrite IH by done. unfold update. destruct (Z.eqb_spec t x); [congruence|done].
Qed.
(** Redoing what was done changes nothing. *)
Lemma apply_all_idem st h x : apply_all st (apply_all st h) x = apply_all st h x.
Proof.
  destruct (decide (x ∈ st.*1)) as [Hi|Ho]; [by apply apply_all_in|]. by rewrite !apply_all_out.
Qed.
(** *** A device whose reads and writes fail only with the power

    Its flushes may fail as they like. *)
Definition fair (o : outcome) : Prop := o = io_ok \/ o = io_crash.
(** No request fails while the power is on; flushes may, unless the device is [strict]. *)
Context (strict : Prop).
Definition honest (d : disk) : Prop := Forall fair d.(d_reads) /\ Forall fair d.(d_writes) /\ (strict -> Forall fair d.(d_flushes)).
Lemma next_fair l o l' : Forall fair l -> next_outcome l = (o, l') -> fair o /\ Forall fair l'.
Proof. destruct l; cbn; [intros _ [= <- <-]; split; [by left|done]|]. by intros [? ?]%Forall_cons [= <- <-]. Qed.
Lemma honest_read d b r d' :
  honest d -> 0 <= b < d.(d_total) -> disk_read d b = (r, d') ->
  honest d' /\ d'.(d_total) = d.(d_total) /\ d'.(d_media) = d.(d_media) /\ d'.(d_cache) = d.(d_cache)
  /\ (r = Some (latest d b) /\ d'.(d_alive) = true \/ r = None /\ d'.(d_alive) = false).
Proof.
  intros (Hr & Hw & Hf) Hb. unfold disk_read, in_range. destruct (d_alive d) eqn:Ha; cbn; [|intros [= <- <-]; unfold honest; by auto 10].
  destruct (next_outcome _) as [o rs] eqn:E. apply next_fair in E as [[->| ->] Hrs]; [| |done].
  - destruct (Z.leb_spec 0 b), (Z.ltb_spec b (d_total d)); cbn; try lia. intros [= <- <-]. unfold honest. cbn. by auto 10.
  - intros [= <- <-]. unfold honest. cbn. by auto 10.
Qed.
Lemma honest_write d b w r d' :
  honest d -> 0 <= b < d.(d_total) -> disk_write d b w = (r, d') ->
  honest d' /\ d'.(d_total) = d.(d_total) /\ d'.(d_media) = d.(d_media)
  /\ (d'.(d_cache) = d.(d_cache) \/ d'.(d_cache) = (b, w) :: d.(d_cache))
  /\ (r = true /\ d.(d_alive) = true /\ d'.(d_alive) = true /\ d'.(d_cache) = (b, w) :: d.(d_cache) \/ r = false /\ d'.(d_alive) = false).
Proof.
  intros (Hr & Hw & Hf) Hb. unfold disk_write, in_range. destruct (d_alive d) eqn:Ha; cbn; [|intros [= <- <-]; unfold honest; by auto 10].
  destruct (next_outcome _) as [o ws] eqn:E. apply next_fair in E as [[->| ->] Hws]; [| |done];
    destruct (Z.leb_spec 0 b), (Z.ltb_spec b (d_total d)); cbn; try lia; intros [= <- <-]; unfold honest; cbn; by auto 10.
Qed.
Lemma honest_flush d r d' : honest d -> disk_flush d = (r, d') -> honest d' /\ (strict -> r = false -> d'.(d_alive) = false).
Proof.
  intros (Hr & Hw & Hf). unfold disk_flush. destruct (d_alive d) eqn:Ha; cbn; [|intros [= <- <-]; done].
  destruct (next_outcome _) as [o fs] eqn:E.
  assert (strict -> fair o /\ Forall fair fs) as Hs by (intros ?; eapply next_fair; [by apply Hf|done]).
  destruct o; intros [= <- <-]; unfold honest; cbn; split_and!; try done; try (intros Hst; by destruct (Hs Hst) as [[?|?] ?]).
Qed.
(** A run of writes whose results are not looked at. *)
Lemma each_write st s :
  0 < s.(op_depth) -> honest s.(s_disk) -> Forall (fun p => 0 <= p.1 < s.(s_disk).(d_total)) st ->
  exists d, each (fun p : Z * block => _ ← raw_block_write p.1 p.2; mret tt) st s = (tt, set_disk d s) /\ honest d
    /\ d.(d_total) = s.(s_disk).(d_total) /\ d.(d_media) = s.(s_disk).(d_media)
    /\ (forall p, p ∈ d.(d_cache) -> p ∈ s.(s_disk).(d_cache) \/ p ∈ st)
    /\ (d.(d_alive) = true -> s.(s_disk).(d_alive) = true /\ forall x, latest d x = apply_all st (latest s.(s_disk)) x).
Proof.
  intros Hd. revert s Hd. induction st as [|[b w] st IH]; intros s Hd Hh HF.
  - exists s.(s_disk). split_and!; [by destruct s|done|done|done|by left|done].
  - apply Forall_cons in HF as [Hb HF]. cbn [each]. destruct (disk_write s.(s_disk) b w) as [r d1] eqn:E1.
    destruct (honest_write _ _ _ _ _ Hh Hb E1) as (Hh1 & Ht1 & Hm1 & Hc1 & Hr1).
    assert (raw_block_write b w s = (r, set_disk d1 s)) as E2 by (by rewrite raw_write_eq, E1).
    rewrite (bind_run _ _ s tt _ (bind_run _ (fun _ => mret tt) _ _ _ E2)).
    destruct (IH (set_disk d1 s)) as (d & E & Hh' & Ht & Hm & Hc & HL); [done|done|by cbn; rewrite Ht1|]. cbn in Ht, Hm, Hc, HL.
    exists d. split_and!; [done|done|congruence|congruence|..].
    + intros p [Hp|Hp]%Hc; [|right; by right]. destruct Hc1 as [Hc1|Hc1]; rewrite Hc1 in Hp; [by left|].
      apply elem_of_cons in Hp as [->|Hp]; [right; by left|by left].
    + intros Ha. destruct (HL Ha) as [Ha1 HL']. destruct Hr1 as [(_ & Ha0 & _ & Hc1')|[_ ?]]; [|congruence]. split; [done|].
      intros x. rewrite HL'. cbn [apply_all]. apply apply_all_pt. by apply latest_write.
Qed.
Lemma journal_load_honest n j s r s' :
  0 < s.(op_depth) -> honest s.(s_disk) -> 0 <= j -> j + 1 + Z.of_nat n <= s.(s_disk).(d_total) -> journal_load j n s = (r, s') ->
  exists d, s' = set_disk d s /\ honest d /\ d.(d_total) = s.(s_disk).(d_total) /\ d.(d_media) = s.(s_disk).(d_media)
    /\ d.(d_cache) = s.(s_disk).(d_cache)
    /\ (r = Some ((fun i => latest s.(s_disk) (j + 1 + i)) <$> seqZ 0 (Z.of_nat n)) /\ d.(d_alive) = s.(s_disk).(d_alive)
        \/ r = None /\ d.(d_alive) = false).
Proof.
  revert j s r. induction n as [|n IH]; intros j s r Hd Hh Hj Hn; cbn [journal_load].
  { intros [= <- <-]. exists s.(s_disk). split_and!; try done; [by destruct s|by left]. }
  destruct (disk_read s.(s_disk) (j + 1)) as [r1 d1] eqn:E1.
  destruct (honest_read _ (j + 1) _ _ Hh ltac:(lia) E1) as (Hh1 & Ht1 & Hm1 & Hc1 & Hr1).
  assert (raw_block_read (j + 1) s = (r1, set_disk d1 s)) as E2 by (by rewrite raw_read_eq, E1). rewrite (bind_run _ _ _ _ _ E2).
  destruct Hr1 as [[-> Ha1]|[-> Ha1]]; [|intros [= <- <-]; exists d1; split_and!; auto].
  destruct (journal_load (j + 1) n (set_disk d1 s)) as [r2 s2] eqn:E3. rewrite (bind_run _ _ _ _ _ E3). intros [= <- <-].
  destruct (IH (j + 1) (set_disk d1 s) r2) as (d & -> & Hh' & Ht & Hm & Hc & Hr); [done|done|lia|cbn; lia|done|]. cbn in *.
  exists d. split_and!; [done|done|congruence..|]. destruct Hr as [[-> Ha]|[-> Ha]]; [|by right]. left.
  assert (d_alive s.(s_disk) = true) as Ha0.
  { unfold disk_read in E1. destruct (d_alive s.(s_disk)); [done|]. cbn in E1. by simplify_eq. }
  split; [|congruence]. cbn. f_equal. rewrite (seqZ_cons 0 (Z.of_nat (S n))), fmap_cons by lia.
  assert (forall x, latest d1 x = latest s.(s_disk) x) as HL by (intros x; unfold latest; by rewrite Hm1, Hc1).
  f_equal; [f_equal; lia|]. replace (Z.pred (Z.of_nat (S n))) with (Z.of_nat n) by lia. replace (Z.succ 0) with (1 + 0) by done.
  rewrite <- fmap_add_seqZ, <- list_fmap_compose. apply list_fmap_ext. intros i x _. cbn. rewrite HL. f_equal. lia.
Qed.

(** *** What recovery depends on *)
Definition geo_ok (total : Z) : Prop := 0 < jstart /\ g.(journal_blocks) = 25 /\ jstart + 25 <= g.(total_blocks) <= total.
Definition idle (w : block) : Prop := h_magic (hdr_of_block w) <> JOURNAL_MAGIC.
Lemma zero_idle : idle zero_block.
Proof. unfold idle. vm_compute. discriminate. Qed.
Lemma idle_recovered m : idle (m jstart) -> recovered m = m.
Proof. intros H. unfold recovered, committed. cbv zeta. destruct (Z.eqb_spec (h_magic (hdr_of_block (m jstart))) JOURNAL_MAGIC); [done|done]. Qed.
Lemma journal_data_agree total m m' n :
  geo_ok total -> (forall b, in_journal b -> m b = m' b) -> (n <= 24)%nat -> journal_data m n = journal_data m' n.
Proof.
  intros (Hj & Hn & Ht) H Hle. unfold journal_data. apply list_fmap_ext. intros i x [-> Hx]%lookup_seqZ. apply H. unfold in_journal. lia.
Qed.
Lemma committed_agree total m m' :
  geo_ok total -> (forall b, in_journal b -> m b = m' b) -> committed m = committed m'.
Proof.
  intros (Hj & Hn & Ht) H. unfold committed. rewrite (H jstart) by (unfold in_journal; lia). cbv zeta.
  set (h := hdr_of_block (m' jstart)). destruct (negb _); [done|]. destruct (Z.eqb_spec (h_count h) 0); [done|]. cbn [orb].
  destruct (Z.ltb_spec JOURNAL_DATA_MAX (h_count h)) as [|Hc]; [done|].
  assert (journal_data m (Z.to_nat (h_count h)) = journal_data m' (Z.to_nat (h_count h))) as ->; [|done].
  apply (journal_data_agree total); [done|done|]. unfold JOURNAL_DATA_MAX in *. lia.
Qed.
Lemma committed_Some m st :
  committed m = Some st <->
  let h := hdr_of_block (m jstart) in let n := Z.to_nat h.(h_count) in let targets := take n h.(h_target) in
  h.(h_magic) = JOURNAL_MAGIC /\ h.(h_count) <> 0 /\ h.(h_count) <= JOURNAL_DATA_MAX
  /\ differ (journal_compute_hmac key h.(h_seq) h.(h_count) targets (journal_data m n)) h.(h_hmac) = false
  /\ journal_targets_ok g targets = true /\ st = zip targets (journal_data m n).
Proof.
  unfold committed. cbv zeta. set (h := hdr_of_block (m jstart)).
  destruct (Z.eqb_spec (h_magic h) JOURNAL_MAGIC), (Z.eqb_spec (h_count h) 0), (Z.ltb_spec JOURNAL_DATA_MAX (h_count h)); cbn [negb orb]; try (split; [done|]; lia).
  destruct (differ _ _), (journal_targets_ok _ _); cbn [negb]; split; try done; naive_solver.
Qed.
Lemma committed_targets m st :
  committed m = Some st -> Forall (fun p => p.1 < g.(total_blocks) /\ ~ in_journal p.1) st.
Proof.
  intros (_ & _ & _ & _ & Ht & ->)%committed_Some. unfold journal_targets_ok in Ht. rewrite forallb_forall in Ht.
  apply Forall_forall. intros [a w] Hp. cbn. apply elem_of_zip_l in Hp. apply list_elem_of_In in Hp. apply Ht in Hp.
  unfold in_range, in_journal in *. apply andb_true_iff in Hp as [H1 H2]. rewrite negb_true_iff, andb_false_iff in H2. lia.
Qed.
Lemma from_le_nonneg l : Forall (fun x => 0 <= x) l -> 0 <= from_le_bytes l.
Proof. induction 1 as [|x l Hx _ IH]; [done|]. rewrite from_le_cons. lia. Qed.
Lemma committed_nonneg m st : Forall (fun x => 0 <= x) (m jstart) -> committed m = Some st -> Forall (fun p => 0 <= p.1) st.
Proof.
  intros Hb (_ & _ & _ & _ & _ & ->)%committed_Some. apply Forall_forall. intros [a w] Hp. cbn.
  apply elem_of_zip_l, elem_of_take in Hp as (i & Hp & _). unfold hdr_of_block in Hp. cbn [h_target] in Hp.
  rewrite list_lookup_fmap in Hp. apply fmap_Some in Hp as (k & _ & ->). by apply from_le_nonneg, Forall_take, Forall_drop.
Qed.
(** The journal as it was, and the home intact but for the targets. *)
Lemma recovered_redo total m m' st :
  geo_ok total -> committed m = Some st -> (forall b, in_journal b -> m' b = m b) ->
  (forall b, ~ in_journal b -> b ∉ st.*1 -> m' b = m b) -> same_home (recovered m') (apply_all st m).
Proof.
  intros Hg Hst Hj Hh x Hx. unfold recovered. rewrite (committed_agree total _ m), Hst by done.
  destruct (decide (x ∈ st.*1)) as [Hi|Ho]; [by apply apply_all_in|]. rewrite !apply_all_out by done. by apply Hh.
Qed.

(** *** Recovery, interrupted or not *)
Definition only (p : Z * block) (c : list (Z * block)) : Prop := forall q, q ∈ c -> q = p.
(** What recovery of [m] can leave the device in. *)
Definition rec_disk (m : contents) (d : disk) : Prop :=
  match committed m with
  | None => d.(d_media) = m /\ only (jstart, zero_block) d.(d_cache)
  | Some st => (d.(d_media) = m /\ (forall p, p ∈ d.(d_cache) -> p ∈ st))
               \/ ((forall x, d.(d_media) x = apply_all st m x) /\ only (jstart, zero_block) d.(d_cache))
  end.
(** A block that is not the header keeps its contents, the header is cleared or not. *)
Lemma crash_only d m' :
  crash_media (eq jstart) d m' -> only (jstart, zero_block) d.(d_cache) ->
  (forall b, b <> jstart -> m' b = d.(d_media) b) /\ (m' jstart = d.(d_media) jstart \/ m' jstart = zero_block).
Proof.
  intros Hc Ho. split.
  - intros b Hb. destruct (Hc b) as [|(w & Hw & _)]; [done|]. apply Ho in Hw. congruence.
  - destruct (Hc jstart) as [?|(w & Hw & Ha)]; [by left|]. right. apply Ho in Hw as Hw'. injection Hw' as ->. by apply Ha.
Qed.
Lemma rec_disk_crash total m d m' :
  geo_ok total -> rec_disk m d -> crash_media (eq jstart) d m' -> same_home (recovered m') (recovered m).
Proof.
  intros Hg Hd Hc. unfold rec_disk in Hd. destruct (committed m) as [st|] eqn:Hst.
  - assert (recovered m = apply_all st m) as -> by (unfold recovered; by rewrite Hst). pose proof (committed_targets _ _ Hst) as HT.
    rewrite Forall_forall in HT. destruct Hd as [[Hm Hw]|[Hm Ho]].
    + apply (recovered_redo total); [done..| |].
      * intros b Hb. destruct (Hc b) as [|(w & Hw' & _)]; [congruence|]. apply Hw, HT in Hw'. by destruct Hw'.
      * intros b _ Hb. destruct (Hc b) as [|(w & Hw' & _)]; [congruence|]. destruct Hb. apply Hw in Hw'. by apply (list_elem_of_fmap_2 fst) in Hw'.
    + destruct (crash_only _ _ Hc Ho) as [Hh Hj].
      assert (forall b, in_journal b -> apply_all st m b = m b) as HJ.
      { intros b Hb. apply apply_all_out. intros ([? ?] & -> & Hp)%list_elem_of_fmap. by apply HT in Hp as [_ []]. }
      destruct Hj as [Hj|Hj].
      * assert (forall b, m' b = apply_all st m b) as E by (intros b; destruct (decide (b = jstart)) as [->|]; rewrite <- Hm; auto).
        intros x Hx. unfold recovered. rewrite (committed_agree total _ m), Hst by (try done; intros b Hb; by rewrite E, HJ).
        rewrite (apply_all_pt _ _ _ _ (E x)). apply apply_all_idem.
      * rewrite idle_recovered by (rewrite Hj; apply zero_idle). intros x Hx. rewrite <- Hm. apply Hh. intros ->. apply Hx.
        destruct Hg. unfold in_journal. lia.
  - destruct Hd as [Hm Ho], (crash_only _ _ Hc Ho) as [Hh Hj].
    assert (recovered m = m) as -> by (unfold recovered; by rewrite Hst).
    assert (forall x, ~ in_journal x -> m' x = m x) as HX.
    { intros x Hx. rewrite <- Hm. apply Hh. intros ->. apply Hx. destruct Hg. unfold in_journal. lia. }
    destruct Hj as [Hj|Hj].
    + unfold recovered. rewrite (committed_agree total _ m), Hst; [done..|]. intros b _. rewrite <- Hm. destruct (decide (b = jstart)) as [->|]; auto.
    + rewrite idle_recovered by (rewrite Hj; apply zero_idle). done.
Qed.

(** A store about to recover the medium [m]. *)
Definition rec_ready (s : store) (m : contents) : Prop :=
  0 < s.(op_depth) /\ s.(s_mfs).(mounted) = true /\ s.(s_mfs).(sb).(geo) = g /\ s.(s_mfs).(journal_mac_key) = key
  /\ s.(s_txn).(t_active) = false /\ geo_ok s.(s_disk).(d_total) /\ honest s.(s_disk) /\ s.(s_disk).(d_alive) = true
  /\ s.(s_disk).(d_cache) = [] /\ s.(s_disk).(d_media) = m /\ Forall (fun x => 0 <= x) (m jstart).
Lemma discard_step s b r s' :
  0 < s.(op_depth) -> s.(s_mfs).(sb).(geo) = g -> geo_ok s.(s_disk).(d_total) -> honest s.(s_disk) -> journal_discard b s = (r, s') ->
  r = b /\ s'.(s_disk).(d_media) = s.(s_disk).(d_media)
  /\ (s'.(s_disk).(d_cache) = s.(s_disk).(d_cache) \/ s'.(s_disk).(d_cache) = (jstart, zero_block) :: s.(s_disk).(d_cache))
  /\ (s'.(s_disk).(d_alive) = true -> s.(s_disk).(d_alive) = true).
Proof.
  intros Hd Hg (Hj & Hn & Ht) Hh. unfold journal_discard. rewrite (bind_run _ _ s s.(s_mfs) s) by done. rewrite Hg.
  destruct (disk_write s.(s_disk) jstart zero_block) as [r1 d1] eqn:E1.
  destruct (honest_write _ jstart _ _ _ Hh ltac:(lia) E1) as (_ & _ & Hm & Hc & Hr).
  assert (raw_block_write jstart zero_block s = (r1, set_disk d1 s)) as E2 by (by rewrite raw_write_eq, E1).
  rewrite (bind_run _ _ _ _ _ E2). intros [= <- <-]. cbn. split_and!; auto. naive_solver congruence.
Qed.
Lemma only_step p c' : c' = [] \/ c' = p :: [] -> only p c'.
Proof. intros [->| ->] q Hq; [by apply elem_of_nil in Hq|by apply list_elem_of_singleton in Hq]. Qed.
(** Discarding leaves the volume as it is, when there is nothing to redo. *)
Lemma discard_shape m s b r s' :
  committed m = None -> 0 < s.(op_depth) -> s.(s_mfs).(sb).(geo) = g -> geo_ok s.(s_disk).(d_total) -> honest s.(s_disk) ->
  s.(s_disk).(d_media) = m -> s.(s_disk).(d_cache) = [] -> journal_discard b s = (r, s') ->
  rec_disk m s'.(s_disk) /\ same_home (latest s'.(s_disk)) (recovered m).
Proof.
  intros Hn Hd Hg Hok Hh Hm Hc E. destruct (discard_step _ _ _ _ Hd Hg Hok Hh E) as (_ & Hm' & Hc' & _). rewrite Hc in Hc'.
  unfold rec_disk, recovered. rewrite Hn. split; [split; [congruence|by apply only_step]|]. intros x Hx. unfold latest.
  rewrite Hm', Hm. destruct Hc' as [-> | ->]; [done|]. rewrite cached_cons. destruct (Z.eqb_spec jstart x) as [<-|]; [|done].
  destruct Hx, Hok. unfold in_journal. lia.
Qed.

Lemma dead_write d b w : d.(d_alive) = false -> disk_write d b w = (false, d).
Proof. intros H. unfold disk_write. by rewrite H. Qed.
(** The device was only read: nothing to redo, or the power has gone. *)
Lemma untouched_shape m d :
  d.(d_media) = m -> d.(d_cache) = [] -> d.(d_alive) = false \/ committed m = None ->
  rec_disk m d /\ (d.(d_alive) = true -> same_home (latest d) (recovered m)).
Proof.
  intros Em Ec Ed. unfold rec_disk. rewrite Em, Ec. split.
  - destruct (committed m); [left; split; [done|]; by intros p Hp%elem_of_nil|]. split; [done|]. by intros p Hp%elem_of_nil.
  - intros Ea. destruct Ed as [?|En]; [congruence|]. rewrite latest_nil, Em by done. unfold recovered. by rewrite En.
Qed.
Lemma discard_any m s b r s' :
  0 < s.(op_depth) -> s.(s_mfs).(sb).(geo) = g -> geo_ok s.(s_disk).(d_total) -> honest s.(s_disk) ->
  s.(s_disk).(d_media) = m -> s.(s_disk).(d_cache) = [] -> s.(s_disk).(d_alive) = false \/ committed m = None ->
  journal_discard b s = (r, s') ->
  rec_disk m s'.(s_disk) /\ (s'.(s_disk).(d_alive) = true -> same_home (latest s'.(s_disk)) (recovered m)).
Proof.
  intros Hd Hg Hok Hh Hm Hc [Ha|Hn] E; [|by destruct (discard_shape m s b r s')].
  assert (s' = s) as ->; [|apply untouched_shape; auto].
  revert E. unfold journal_discard. rewrite (bind_run _ _ s s.(s_mfs) s) by done. rewrite Hg.
  rewrite (bind_run _ _ s false s) by (rewrite raw_write_eq, dead_write by done; by destruct s). by intros [= _ <-].
Qed.
(** The redo itself: every target written, a flush, and the header cleared. *)
Lemma redo_shape m st s r s' sq :
  0 < s.(op_depth) -> s.(s_mfs).(sb).(geo) = g -> geo_ok s.(s_disk).(d_total) -> honest s.(s_disk) ->
  s.(s_disk).(d_media) = m -> s.(s_disk).(d_cache) = [] -> s.(s_disk).(d_alive) = true ->
  committed m = Some st -> Forall (fun p => 0 <= p.1) st ->
  (each (fun p : Z * block => _ ← raw_block_write p.1 p.2; mret tt) st;;
   modify (fun s => if s.(g_journal_seq) <=? sq then set_seq (u64 (sq + 1)) s else s);;
   ok ← raw_block_flush; if negb ok then mret true else journal_discard true) s = (r, s') ->
  rec_disk m s'.(s_disk) /\ (s'.(s_disk).(d_alive) = true -> same_home (latest s'.(s_disk)) (recovered m)).
Proof.
  intros Hd Hg Hok Hh Hm Hc Ha Hst Hp. pose proof Hok as (Hj & Hn & Ht). pose proof (committed_targets _ _ Hst) as HT.
  destruct (each_write st s) as (d1 & E1 & Hh1 & Ht1 & Hm1 & Hc1 & HL1); [done..| |].
  { rewrite Forall_forall in Hp. rewrite Forall_forall in HT. apply Forall_forall. intros p Hi. specialize (Hp p Hi). specialize (HT p Hi). lia. }
  assert (recovered m = apply_all st m) as -> by (unfold recovered; by rewrite Hst).
  unfold rec_disk. rewrite Hst. rewrite (bind_run _ _ _ _ _ E1), (bind_run (modify _) _ _ tt _ eq_refl). cbv beta.
  set (s1 := if g_journal_seq (set_disk d1 s) <=? sq then _ else _). assert (s_disk s1 = d1 /\ op_depth s1 = op_depth s /\ s_mfs s1 = s_mfs s) as (D1 & O1 & M1).
  { unfold s1. by case_match. }
  clearbody s1. destruct (disk_flush d1) as [ok d2] eqn:E2. destruct (disk_flush_step _ _ _ E2) as (Ht2 & Hs2 & Hok2).
  assert (raw_block_flush s1 = (ok, set_disk d2 s1)) as E3 by (unfold raw_block_flush, on_disk; by rewrite D1, E2).
  rewrite (bind_run _ _ _ _ _ E3). rewrite Hc in Hc1.
  assert (forall p, p ∈ d_cache d1 -> p ∈ st) as Hc1' by (intros p [Hx|]%Hc1; [by apply elem_of_nil in Hx|done]).
  assert (d_alive d1 = true -> forall x, latest d1 x = apply_all st m x) as HA.
  { intros Hal x. destruct (HL1 Hal) as [_ ->]. apply apply_all_pt. by rewrite latest_nil, Hm by done. }
  destruct ok; cbn [negb].
  - destruct (Hok2 eq_refl) as (Ha2 & Hm2 & Hc2). intros E4.
    assert (d_alive d1 = true) as Ha1. { unfold disk_flush in E2. destruct (d_alive d1); [done|]. by injection E2. }
    destruct (discard_step (set_disk d2 s1) true r s') as (_ & Hm4 & Hc4 & _); cbn; [congruence|congruence|congruence| |done|].
    { by apply (honest_flush _ _ _ Hh1 E2). }
    cbn in Hm4, Hc4. rewrite Hc2 in Hc4. rewrite Hm2 in Hm4. split.
    + right. split; [intros x; by rewrite Hm4, HA|by apply only_step].
    + intros _ x Hx. unfold latest. rewrite Hm4. destruct Hc4 as [-> | ->]; [by apply HA|]. rewrite cached_cons.
      destruct (Z.eqb_spec jstart x) as [<-|]; [|by apply HA]. destruct Hx. unfold in_journal. lia.
  - intros [= _ <-]. cbn. split.
    + destruct Hs2 as [[Hm2 Hc2]|[Hm2 Hc2]].
      * left. split; [congruence|]. by rewrite Hc2.
      * destruct (d_alive d1) eqn:Ha1; [|].
        { right. split; [intros x; by rewrite Hm2, HA|]. rewrite Hc2. by intros p Hx%elem_of_nil. }
        { unfold disk_flush in E2. rewrite Ha1 in E2. cbn in E2. injection E2 as <-. left. split; [congruence|done]. }
    + intros Ha2 x _. assert (d_alive d1 = true) as Ha1.
      { unfold disk_flush in E2. destruct (d_alive d1) eqn:Q; [done|]. cbn in E2. injection E2 as <-. congruence. }
      rewrite <- HA by done. unfold latest at 1. destruct Hs2 as [[-> ->]|[-> ->]]; done.
Qed.

Lemma recover_shape s m r s' :
  rec_ready s m -> journal_recover s = (r, s') ->
  rec_disk m s'.(s_disk) /\ (s'.(s_disk).(d_alive) = true -> same_home (latest s'.(s_disk)) (recovered m)).
Proof.
  intros (Hd & Hmt & Hg & Hk & Hta & Hok & Hh & Ha & Hc & Hm & Hb). pose proof Hok as (Hj & Hn & Ht).
  unfold journal_recover. rewrite (bind_run _ _ s s.(s_mfs) s) by done. rewrite Hmt, Hg, Hk. cbn [negb orb].
  destruct (Z.eqb_spec jstart 0); [lia|].
  destruct (disk_read s.(s_disk) jstart) as [r1 d1] eqn:E1.
  destruct (honest_read _ jstart _ _ Hh ltac:(lia) E1) as (Hh1 & Ht1 & Hm1 & Hc1 & Hr1).
  assert (raw_block_read jstart s = (r1, set_disk d1 s)) as E2 by (by rewrite raw_read_eq, E1). rewrite (bind_run _ _ _ _ _ E2).
  assert (latest s.(s_disk) jstart = m jstart) as Hl by (rewrite latest_nil; congruence).
  destruct Hr1 as [[-> Ha1]|[-> Ha1]]; [|intros [= _ <-]; apply untouched_shape; cbn; [congruence..|by left]]. rewrite Hl. cbv zeta.
  set (h := hdr_of_block (m jstart)).
  assert (h_magic h <> JOURNAL_MAGIC \/ h_count h = 0 \/ JOURNAL_DATA_MAX < h_count h -> committed m = None) as Hnone.
  { intros Hcase. destruct (committed m) eqn:E; [|done]. apply committed_Some in E. cbv zeta in E. fold h in E. lia. }
  destruct (Z.eqb_spec (h_magic h) JOURNAL_MAGIC) as [Emag|Emag]; cbn [negb];
    [|intros [= _ <-]; apply untouched_shape; cbn; [congruence..|right; auto]].
  destruct (Z.eqb_spec (h_count h) 0) as [Ecnt|Ecnt]; cbn [orb];
    [intros E; apply (discard_any m (set_disk d1 s) false r s'); cbn; auto; congruence|].
  destruct (Z.ltb_spec JOURNAL_DATA_MAX (h_count h)) as [Emax|Emax];
    [intros E; apply (discard_any m (set_disk d1 s) false r s'); cbn; auto; congruence|].
  rewrite (bind_run _ _ _ (s_txn s) (set_disk d1 s)) by done. rewrite Hta.
  destruct (journal_load jstart (Z.to_nat (h_count h)) (set_disk d1 s)) as [r2 s2] eqn:E3. rewrite (bind_run _ _ _ _ _ E3).
  assert (jstart + 1 + Z.of_nat (Z.to_nat (h_count h)) <= d_total d1) as Hfit by (unfold JOURNAL_DATA_MAX in Emax; lia).
  destruct (journal_load_honest (Z.to_nat (h_count h)) jstart (set_disk d1 s) r2 s2 Hd Hh1 ltac:(lia) Hfit E3)
    as (d2 & -> & Hh2 & Ht2 & Hm2 & Hc2 & Hr2). change (s_disk (set_disk d1 s)) with d1 in Ht2, Hm2, Hc2, Hr2.
  destruct Hr2 as [[-> Ha2]|[-> Ha2]]; [|intros E; apply (discard_any m (set_disk d2 (set_disk d1 s)) false r s'); cbn; auto; congruence].
  assert (((fun i => latest d1 (jstart + 1 + i)) <$> seqZ 0 (Z.of_nat (Z.to_nat (h_count h)))) = journal_data m (Z.to_nat (h_count h))) as ->.
  { unfold journal_data. apply list_fmap_ext. intros i x _. unfold latest. by rewrite Hc1, Hm1, Hc, Hm. }
  destruct (differ _ _) eqn:Ed; [intros E; apply (discard_any m (set_disk d2 (set_disk d1 s)) false r s'); cbn; auto; try congruence; right|].
  { destruct (committed m) eqn:E'; [|done]. apply committed_Some in E' as (_ & _ & _ & E' & _). fold h in E'. congruence. }
  destruct (journal_targets_ok _ _) eqn:Et; cbn [negb];
    [|intros E; apply (discard_any m (set_disk d2 (set_disk d1 s)) false r s'); cbn; auto; try congruence; right].
  2:{ destruct (committed m) eqn:E'; [|done]. apply committed_Some in E' as (_ & _ & _ & _ & E' & _). fold h in E'. congruence. }
  assert (committed m = Some (zip (take (Z.to_nat (h_count h)) (h_target h)) (journal_data m (Z.to_nat (h_count h))))) as Hst.
  { apply committed_Some. cbv zeta. fold h. done. }
  intros E. apply (redo_shape m _ (set_disk d2 (set_disk d1 s)) r s' (h_seq h)) in E; cbn; auto; try congruence.
  by apply (committed_nonneg m).
Qed.

(** *** Transactions *)
Definition jmsg (sq : Z) (st : list (Z * block)) : list Z :=
  to_le_bytes 8 sq ++ to_le_bytes 4 (zlen st) ++ mjoin (to_le_bytes 8 <$> st.*1) ++ mjoin st.*2.
(** What recovery of [m] would authenticate. *)
Definition found (m : contents) : list Z :=
  let h := hdr_of_block (m jstart) in let n := Z.to_nat h.(h_count) in
  to_le_bytes 8 h.(h_seq) ++ to_le_bytes 4 h.(h_count) ++ mjoin (to_le_bytes 8 <$> take n h.(h_target)) ++ mjoin (journal_data m n).
Definition txn_ok (e : Z * list (Z * block)) : Prop :=
  0 <= e.1 < 2 ^ 64 /\ 0 < zlen e.2 <= JOURNAL_DATA_MAX
  /\ Forall (fun p => 0 <= p.1 < g.(total_blocks) /\ ~ in_journal p.1 /\ length p.2 = Z.to_nat BLOCK_SIZE) e.2.
Definition hdr_for (e : Z * list (Z * block)) : block := hdr_block (commit_header key e.1 e.2).
Lemma hdr_block_app h :
  length (mjoin (hdr_fields h)) = 240%nat -> hdr_block h = mjoin (hdr_fields h) ++ drop 240 zero_block.
Proof. intros Hl. unfold hdr_block, splice. cbn [Z.to_nat take]. by rewrite Hl. Qed.
Lemma length_journal_hmac k sq n ts ds : length (journal_compute_hmac k sq n ts ds) = 32%nat.
Proof. unfold journal_compute_hmac. by rewrite hmac_is_spec, length_hmac_spec. Qed.
Lemma differ_false a b : length a = 32%nat -> length b = 32%nat -> differ a b = false <-> a = b.
Proof. intros. unfold differ. rewrite negb_false_iff, Z.eqb_eq. by apply (ct_equal_iff 32). Qed.
Lemma length_targets k sq st : zlen st <= JOURNAL_DATA_MAX -> length (h_target (commit_header k sq st)) = Z.to_nat JOURNAL_DATA_MAX.
Proof.
  intros Hn. unfold commit_header, JOURNAL_DATA_MAX, zlen in *. cbn [h_target]. rewrite length_app, length_fmap, length_replicate. lia.
Qed.
Lemma hdr_fields_widths k sq st : zlen st <= JOURNAL_DATA_MAX -> length <$> hdr_fields (commit_header k sq st) = hdr_widths.
Proof.
  intros Hn. pose proof (length_targets k sq st Hn) as Ht. set (h := commit_header k sq st) in *.
  unfold hdr_fields, hdr_widths. rewrite !fmap_app. cbn [fmap list_fmap]. rewrite !length_le. f_equal. f_equal.
  - rewrite <- list_fmap_compose. rewrite <- Ht. clear. induction (h_target h) as [|x l IH]; [done|]. cbn [length replicate].
    rewrite <- IH. cbn. by rewrite length_le.
  - unfold h, commit_header. cbn [h_hmac]. by rewrite length_journal_hmac.
Qed.
Lemma length_hdr_fields k sq st : zlen st <= JOURNAL_DATA_MAX -> length (mjoin (hdr_fields (commit_header k sq st))) = 240%nat.
Proof. intros Hn. by rewrite length_join, hdr_fields_widths. Qed.
(** The header is read back. *)
Lemma hdr_of_hdr_for e :
  txn_ok e -> g.(total_blocks) < 2 ^ 64 ->
  hdr_of_block (hdr_for e) = commit_header key e.1 e.2.
Proof.
  intros (Hs & Hn & HF) Hg. destruct e as [sq st]. cbn [fst snd] in *. unfold hdr_for. cbn [fst snd].
  pose proof (hdr_fields_widths key sq st ltac:(lia)) as Hw. pose proof (length_hdr_fields key sq st ltac:(lia)) as Hl.
  pose proof (length_targets key sq st ltac:(lia)) as Ht.
  set (h := commit_header key sq st) in *.
  rewrite hdr_block_app by done.
  assert (forall k l, hdr_fields h !! k = Some l -> field hdr_widths (mjoin (hdr_fields h) ++ drop 240 zero_block) k = l) as HX.
  { intros k l. by apply field_mjoin. }
  assert (Forall (fun x => 0 <= x < 2 ^ 64) (h_target h)) as HT.
  { unfold h, commit_header. cbn [h_target]. apply Forall_app. split; [|apply Forall_replicate; lia].
    apply Forall_fmap. eapply Forall_impl; [exact HF|]. intros [a w] (Hp & _). cbn [fst compose] in *. lia. }
  unfold hdr_of_block. cbv zeta. rewrite (HX 0%nat _ eq_refl), (HX 1%nat _ eq_refl), (HX 2%nat _ eq_refl).
  assert (field hdr_widths (mjoin (hdr_fields h) ++ drop 240 zero_block) 27 = h_hmac h) as ->.
  { apply HX. unfold hdr_fields. rewrite lookup_app_r by (cbn; lia).
    rewrite lookup_app_r by (rewrite length_fmap, Ht; unfold JOURNAL_DATA_MAX; cbn [length]; lia). by rewrite length_fmap, Ht. }
  assert (((fun k => from_le_bytes (field hdr_widths (mjoin (hdr_fields h) ++ drop 240 zero_block) k)) <$> seq 3 (Z.to_nat JOURNAL_DATA_MAX))
          = h_target h) as ->.
  { apply list_eq_same_length with (Z.to_nat JOURNAL_DATA_MAX); [done|by rewrite length_fmap, length_seq|]. intros i x y Hi Hx Hy.
    rewrite list_lookup_fmap, lookup_seq_lt in Hx by done. apply (inj Some) in Hx as <-. cbv beta.
    rewrite (HX (3 + i)%nat (to_le_bytes 8 y)).
    - apply from_le_to_le_id. rewrite Forall_forall in HT. apply HT. by eapply list_elem_of_lookup_2.
    - unfold hdr_fields. rewrite lookup_app_r by (cbn; lia). cbn [length]. replace (3 + i - 3)%nat with i by lia.
      rewrite lookup_app_l by (rewrite length_fmap, Ht; done). by rewrite list_lookup_fmap, Hy. }
  unfold h, commit_header. cbn [h_magic h_count h_seq h_target h_hmac]. unfold JOURNAL_MAGIC, JOURNAL_DATA_MAX in *.
  rewrite !from_le_to_le_id by lia. done.
Qed.

Lemma take_targets e : txn_ok e -> take (length e.2) (h_target (commit_header key e.1 e.2)) = e.2.*1.
Proof. intros _. cbn [commit_header h_target]. by rewrite <- (length_fmap fst), take_app_length. Qed.
Lemma targets_ok_of e : txn_ok e -> journal_targets_ok g e.2.*1 = true.
Proof.
  intros (_ & _ & HF). apply forallb_forall. intros t Ht%list_elem_of_In. apply list_elem_of_fmap in Ht as ([a w] & -> & Hp).
  rewrite Forall_forall in HF. apply HF in Hp as (H1 & H2 & _). unfold in_journal, in_range in *. cbn [fst] in *.
  apply andb_true_iff. rewrite negb_true_iff, andb_false_iff. lia.
Qed.
Lemma journal_data_length m n : length (journal_data m n) = n.
Proof. unfold journal_data. rewrite length_fmap, length_seqZ. lia. Qed.
Lemma mjoin_inj n (xs ys : list block) :
  (0 < n)%nat -> Forall (fun x => length x = n) xs -> Forall (fun x => length x = n) ys -> mjoin xs = mjoin ys -> xs = ys.
Proof.
  intros Hn HX. revert ys. induction HX as [|x xs Hx _ IH]; intros [|y ys] HY E; try done.
  - apply Forall_cons in HY as [Hy _]. apply (f_equal length) in E. cbn in E. rewrite length_app in E. lia.
  - apply (f_equal length) in E. cbn in E. rewrite length_app in E. lia.
  - apply Forall_cons in HY as [Hy HY]. change (x ++ mjoin xs = y ++ mjoin ys) in E. apply app_inj_1 in E as [-> E]; [|congruence].
    by rewrite (IH ys).
Qed.
(** A medium with a transaction's header and its data holds it committed. *)
Lemma committed_of_hdr e m :
  txn_ok e -> g.(total_blocks) < 2 ^ 64 -> m jstart = hdr_for e -> journal_data m (length e.2) = e.2.*2 -> committed m = Some e.2.
Proof.
  intros He Hg Hm Hd. apply committed_Some. rewrite Hm, hdr_of_hdr_for by done. cbv zeta.
  assert (Z.to_nat (h_count (commit_header key e.1 e.2)) = length e.2) as ->.
  { cbn [commit_header h_count]. unfold zlen. lia. }
  rewrite Hd, take_targets by done. pose proof He as (Hs & Hn & HF). cbn [commit_header h_magic h_count h_seq h_hmac].
  split_and!; [done|lia|lia|by apply differ_false; rewrite ?length_journal_hmac|by apply targets_ok_of|by rewrite zip_fst_snd].
Qed.
(** The fields of a commit header, and nothing else about it. *)
Lemma hdr_for_fields e :
  txn_ok e -> g.(total_blocks) < 2 ^ 64 -> exists h, hdr_of_block (hdr_for e) = h /\ h.(h_seq) = e.1 /\ h.(h_count) = zlen e.2
    /\ take (length e.2) h.(h_target) = e.2.*1 /\ h.(h_hmac) = hmac_spec key (jmsg e.1 e.2).
Proof.
  intros He Hg. exists (commit_header key e.1 e.2). split_and!; [by apply hdr_of_hdr_for|done|done|by apply take_targets|].
  unfold commit_header, journal_compute_hmac. cbn [h_hmac]. apply hmac_is_spec.
Qed.
Lemma jmsg_inj sq (st1 st2 : list (Z * block)) :
  st1.*1 = st2.*1 -> Forall (fun p => length p.2 = Z.to_nat BLOCK_SIZE) st1 -> Forall (fun p => length p.2 = Z.to_nat BLOCK_SIZE) st2 ->
  jmsg sq st1 = jmsg sq st2 -> st1 = st2.
Proof.
  intros E1 H1 H2. unfold jmsg. assert (zlen st1 = zlen st2) as -> by (unfold zlen; by rewrite <- (length_fmap fst), E1, length_fmap).
  rewrite E1. intros E. do 3 (apply app_inj_1 in E as [_ E]; [|done]).
  apply (mjoin_inj (Z.to_nat BLOCK_SIZE)) in E; [|unfold BLOCK_SIZE; lia|by apply Forall_fmap..].
  by rewrite <- (zip_fst_snd st1), <- (zip_fst_snd st2), E1, E.
Qed.
(** With the header alone, what verifies is the transaction or a collision. *)
Lemma committed_by_hdr e m st :
  txn_ok e -> g.(total_blocks) < 2 ^ 64 -> (length key <= 64)%nat -> (forall b, length (m b) = Z.to_nat BLOCK_SIZE) ->
  m jstart = hdr_for e -> committed m = Some st ->
  st = e.2 \/ collides (hmac_inputs key (jmsg e.1 e.2)) (hmac_inputs key (found m)).
Proof.
  intros He Hg Hk Hb Hm Hst. destruct (hdr_for_fields e He Hg) as (h & Eh & Es & Ec & Et & Em).
  assert (Z.to_nat (h_count h) = length e.2) as En by (rewrite Ec; unfold zlen; lia).
  assert (found m = jmsg e.1 (zip e.2.*1 (journal_data m (length e.2)))) as ->.
  { unfold found, jmsg. rewrite Hm, Eh. cbv zeta. rewrite En, Et, Es, Ec. unfold zlen.
    by rewrite fst_zip, snd_zip, length_zip_with, length_fmap, journal_data_length, Nat.min_id by (rewrite length_fmap, journal_data_length; lia). }
  assert (hmac_spec key (jmsg e.1 (zip e.2.*1 (journal_data m (length e.2)))) = hmac_spec key (jmsg e.1 e.2) /\ st = zip e.2.*1 (journal_data m (length e.2)))
    as [Hd ->].
  { apply committed_Some in Hst as (_ & _ & _ & Hd & _ & ->). rewrite Hm, Eh in *. rewrite En, Et, Es, Ec, Em in *. split; [|done].
    apply differ_false in Hd; [|by rewrite length_journal_hmac|apply length_hmac_spec]. rewrite <- Hd. unfold journal_compute_hmac, jmsg, zlen.
    rewrite hmac_is_spec.
    by rewrite fst_zip, snd_zip, length_zip_with, length_fmap, journal_data_length, Nat.min_id by (rewrite length_fmap, journal_data_length; lia). }
  apply hmac_binds in Hd as [[_ Hd]|C]; [left|right; by apply collides_sym|done|done]. destruct He as (_ & _ & HF).
  apply (jmsg_inj e.1); [..|done].
  - rewrite fst_zip; [done|]. rewrite length_fmap, journal_data_length. lia.
  - rewrite Forall_forall. intros p Hp. destruct p as [a w]. apply elem_of_zip_r in Hp. unfold journal_data in Hp.
    apply list_elem_of_fmap in Hp as (i & -> & _). apply Hb.
  - eapply Forall_impl; [exact HF|]. by intros p (_ & _ & ?).
Qed.

(** *** Before the commit point *)
Definition legit (H : list (Z * list (Z * block))) (w : block) : Prop := idle w \/ exists e, e ∈ H /\ w = hdr_for e.
(** Nothing of the home is pending, the files are [h], and the header is idle or
    that of a transaction of [H]. *)
Definition jdisk (h : contents) (H : list (Z * list (Z * block))) (d : disk) : Prop :=
  (forall p, p ∈ d.(d_cache) -> in_journal p.1) /\ same_home d.(d_media) h
  /\ legit H (d.(d_media) jstart) /\ (forall w, (jstart, w) ∈ d.(d_cache) -> legit H w).
Lemma jdisk_latest h H d : jdisk h H d -> same_home (latest d) h /\ legit H (latest d jstart).
Proof.
  intros (Hc & Hm & Hl & Hp). unfold latest. split.
  - intros x Hx. destruct (cached _ x) eqn:E; [|by apply Hm]. apply cached_Some, Hc in E. done.
  - destruct (cached _ jstart) eqn:E; [|done]. by apply Hp, cached_Some.
Qed.
Lemma jdisk_write h H d b w r d' :
  jdisk h H d -> in_journal b -> (b = jstart -> legit H w) -> disk_write d b w = (r, d') -> jdisk h H d'.
Proof.
  intros (Hc & Hm & Hl & Hp) Hb Hw (_ & Hm' & Hc' & _)%disk_write_step. unfold jdisk. rewrite Hm'.
  destruct Hc' as [-> | ->]; [done|]. split_and!; [|done|done|].
  - by intros p [->|?]%elem_of_cons; [|auto].
  - intros w' [[= <- ->]|?]%elem_of_cons; auto.
Qed.
Lemma jdisk_flush h H d r d' : jdisk h H d -> disk_flush d = (r, d') -> jdisk h H d'.
Proof.
  intros Hd (_ & Hs & _)%disk_flush_step. pose proof (jdisk_latest _ _ _ Hd) as [HL Hl]. unfold jdisk.
  destruct Hs as [[-> ->]|[-> ->]]; [done|]. split_and!; [|done|done|]; by intros ? ?%elem_of_nil.
Qed.
Lemma jdisk_mono h H H' d : jdisk h H d -> H ⊆ H' -> jdisk h H' d.
Proof.
  intros (Hc & Hm & Hl & Hp) Hs. assert (forall w, legit H w -> legit H' w) as HL.
  { intros w [?|(e & He & ->)]; [by left|]. right. exists e. auto. }
  unfold jdisk. split_and!; auto.
Qed.
(** A crash leaves the files as they are, or a transaction of [H] redone. *)
Definition in_doubt (H : list (Z * list (Z * block))) (h m : contents) : Prop :=
  same_home (recovered m) h \/ exists e, e ∈ H /\
    (same_home (recovered m) (apply_all e.2 h) \/ collides (hmac_inputs key (jmsg e.1 e.2)) (hmac_inputs key (found m))).
Lemma jdisk_crash h H d m :
  jdisk h H d -> Forall txn_ok H -> g.(total_blocks) < 2 ^ 64 -> (length key <= 64)%nat -> in_journal jstart ->
  crash_media (eq jstart) d m -> (forall b, length (m b) = Z.to_nat BLOCK_SIZE) -> in_doubt H h m.
Proof.
  intros (Hc & Hm & Hl & Hp) HH Hg Hk Hj Hcr Hb.
  assert (same_home m h) as Hmh.
  { intros x Hx. destruct (Hcr x) as [->|(w & Hw & _)]; [by apply Hm|]. by apply Hc in Hw. }
  assert (legit H (m jstart)) as [Hi|(e & He & Hme)].
  { destruct (Hcr jstart) as [->|(w & Hw & Ha)]; [done|]. rewrite Ha by done. by apply Hp. }
  { left. by rewrite idle_recovered. }
  unfold in_doubt, recovered. destruct (committed m) as [st|] eqn:Hst; [|by left]. right. exists e. split; [done|].
  rewrite Forall_forall in HH. destruct (committed_by_hdr e m st) as [->|C]; auto. left. by apply apply_all_ext.
Qed.
(** The data region is written. *)
Lemma data_writes h H k (ws : list block) s ok s' :
  0 < s.(op_depth) -> jdisk h H s.(s_disk) -> g.(journal_blocks) = 25 -> 0 < jstart -> Z.of_nat k + zlen ws <= 24 ->
  all_ok (fun iw : nat * block => raw_block_write (jstart + 1 + Z.of_nat iw.1) iw.2) (imap (fun i w => (k + i, w)%nat) ws) s = (ok, s') ->
  exists d, s' = set_disk d s /\ jdisk h H d /\ d.(d_total) = s.(s_disk).(d_total) /\ (honest s.(s_disk) -> jstart + 25 <= s.(s_disk).(d_total) -> honest d /\ (ok = false -> d.(d_alive) = false))
    /\ (ok = true -> (forall i w, ws !! i = Some w -> latest d (jstart + 1 + Z.of_nat (k + i)) = w)
                     /\ (forall x, x <= jstart + Z.of_nat k -> latest d x = latest s.(s_disk) x)).
Proof.
  intros Hd Hj Hn Hs. revert k s Hd Hj. induction ws as [|w ws IH]; intros k s Hd Hj Hk; cbn [imap all_ok].
  { intros [= <- <-]. exists s.(s_disk). split_and!; [by destruct s|done|done|done|]. intros _. split; [by intros i w Hi|done]. }
  unfold zlen in *. cbn [length] in Hk.
  destruct (disk_write s.(s_disk) (jstart + 1 + Z.of_nat (k + 0)) w) as [r1 d1] eqn:E1. cbn [fst snd].
  assert (in_journal (jstart + 1 + Z.of_nat (k + 0))) as Hin by (unfold in_journal; lia).
  pose proof (jdisk_write _ _ _ _ _ _ _ Hj Hin ltac:(intros; lia) E1) as Hj1.
  destruct (disk_write_step _ _ _ _ _ E1) as (Ht1 & Hm1 & _ & Hok1).
  assert (honest s.(s_disk) -> jstart + 25 <= s.(s_disk).(d_total) -> honest d1 /\ (r1 = false -> d1.(d_alive) = false)) as Hh1.
  { intros Hh Hfit. destruct (honest_write _ (jstart + 1 + Z.of_nat (k + 0)) _ _ _ Hh ltac:(lia) E1) as (? & _ & _ & _ & Hr).
    split; [done|]. intros ->. by destruct Hr as [[? _]|[_ ?]]. }
  assert (raw_block_write (jstart + 1 + Z.of_nat (k + 0)) w s = (r1, set_disk d1 s)) as E2 by (by rewrite raw_write_eq, E1).
  rewrite (bind_run _ _ _ _ _ E2). destruct r1; [|intros [= <- <-]; exists d1; split_and!; done].
  destruct (Hok1 eq_refl) as [_ Hc1]. intros E. rewrite (imap_ext _ (fun i w => (S k + i, w)%nat)) in E by (intros; cbn; f_equal; lia).
  destruct (IH (S k) (set_disk d1 s)) as (d & -> & Hjd & Ht & Hh & HL); [done|done|lia|done|]. cbn in Ht, Hh, HL. rewrite Ht1 in *.
  exists d. split_and!; [done|done|done|intros Hh0 Hf; destruct (Hh1 Hh0 Hf); auto|]. intros Hok. destruct (HL Hok) as [HL1 HL2]. split.
  - intros [|i] w' Hi; cbn in Hi.
    + injection Hi as ->. rewrite HL2, (latest_write _ _ _ _ Hm1 Hc1), Z.eqb_refl by lia. done.
    + specialize (HL1 i w' Hi). by replace (k + S i)%nat with (S k + i)%nat by lia.
  - intros x Hx. rewrite HL2, (latest_write _ _ _ _ Hm1 Hc1) by lia. destruct (Z.eqb_spec (jstart + 1 + Z.of_nat (k + 0)) x); [lia|done].
Qed.

(** *** Past the commit point *)
Definition cdisk (h : contents) (e : Z * list (Z * block)) (d : disk) : Prop :=
  d.(d_media) jstart = hdr_for e /\ journal_data d.(d_media) (length e.2) = e.2.*2
  /\ ((forall p, p ∈ d.(d_cache) -> p ∈ e.2) /\ (forall b, ~ in_journal b -> b ∉ e.2.*1 -> d.(d_media) b = h b)
      \/ same_home d.(d_media) (apply_all e.2 h) /\ only (jstart, zero_block) d.(d_cache)).
Lemma targets_home e x : txn_ok e -> x ∈ e.2.*1 -> ~ in_journal x.
Proof. intros (_ & _ & HF) ([a w] & -> & Hp)%list_elem_of_fmap. rewrite Forall_forall in HF. by apply HF in Hp as (_ & ? & _). Qed.
Lemma cdisk_crash total h e d m :
  geo_ok total -> txn_ok e -> g.(total_blocks) < 2 ^ 64 -> cdisk h e d -> crash_media (eq jstart) d m ->
  same_home (recovered m) (apply_all e.2 h).
Proof.
  intros Hok He Hg (Hh & Hj & Hcase) Hcr. pose proof (committed_of_hdr e _ He Hg Hh Hj) as Hst.
  destruct Hcase as [[Hc Hm]|[Hm Ho]].
  - transitivity (apply_all e.2 d.(d_media)).
    + apply (recovered_redo total); [done..| |].
      * intros b Hb. destruct (Hcr b) as [|(w & Hw & _)]; [done|]. apply Hc in Hw. destruct (targets_home e b); [done| |done].
        by apply (list_elem_of_fmap_2 fst) in Hw.
      * intros b _ Hb. destruct (Hcr b) as [|(w & Hw & _)]; [done|]. destruct Hb. apply Hc in Hw. by apply (list_elem_of_fmap_2 fst) in Hw.
    + intros x Hx. destruct (decide (x ∈ e.2.*1)) as [Hi|Hi]; [by apply apply_all_in|]. rewrite !apply_all_out by done. auto.
  - transitivity (recovered d.(d_media)).
    + destruct (crash_only _ _ Hcr Ho) as [Hx [Hy|Hy]].
      * intros x _. unfold recovered. rewrite (committed_agree total m d.(d_media)), Hst; [|done|].
        -- apply apply_all_pt. destruct (decide (x = jstart)) as [->|]; auto.
        -- intros b _. destruct (decide (b = jstart)) as [->|]; auto.
      * rewrite idle_recovered by (rewrite Hy; apply zero_idle). intros x Hnx. unfold recovered. rewrite Hst.
        rewrite Hx by (intros ->; apply Hnx; destruct Hok; unfold in_journal; lia). rewrite (apply_all_ext _ _ _ Hm) by done.
        rewrite apply_all_idem. by apply Hm.
    + unfold recovered. rewrite Hst. intros x Hnx. rewrite (apply_all_ext _ _ _ Hm) by done. apply apply_all_idem.
Qed.
Lemma cdisk_jdisk h e d :
  txn_ok e -> cdisk h e d -> same_home (latest d) (apply_all e.2 h) -> (forall p, p ∈ d.(d_cache) -> in_journal p.1) ->
  jdisk (apply_all e.2 h) [e] d.
Proof.
  intros He (Hh & _ & Hcase) HL Hin. assert (legit [e] (d_media d jstart)) as Hl by (right; exists e; split; [by left|done]).
  destruct Hcase as [[Hc _]|[Hm Ho]].
  - assert (d.(d_cache) = []) as Hn.
    { destruct (d_cache d) as [|p c]; [done|]. destruct (targets_home e p.1 He); [|apply Hin; by left]. apply list_elem_of_fmap_2, Hc. by left. }
    rewrite latest_nil in HL by done. unfold jdisk. rewrite Hn. split_and!; [|done|done|]; by intros ? ?%elem_of_nil.
  - split_and!; [done|done|done|]. intros w [= ->]%Ho. left. apply zero_idle.
Qed.
Lemma raw_flush_eq s : raw_block_flush s = let '(r, d) := disk_flush s.(s_disk) in (r, set_disk d s).
Proof. done. Qed.
Lemma flush_power d r d' :
  disk_flush d = (r, d') ->
  d'.(d_media) = d.(d_media) /\ d'.(d_cache) = d.(d_cache) /\ r = false /\ (d'.(d_alive) = true -> d.(d_alive) = true)
  \/ d'.(d_media) = latest d /\ d'.(d_cache) = [] /\ d.(d_alive) = true.
Proof.
  unfold disk_flush. destruct (d_alive d) eqn:Ha; cbn; [|intros [= <- <-]; left; split_and!; congruence].
  destruct (next_outcome _) as [[] fs]; intros [= <- <-]; cbn; auto.
Qed.
(** Steps 3 and 4. *)
Lemma retire_shape h e s s' r ovf :
  0 < s.(op_depth) -> geo_ok s.(s_disk).(d_total) -> honest s.(s_disk) -> txn_ok e ->
  s.(s_disk).(d_media) jstart = hdr_for e -> journal_data s.(s_disk).(d_media) (length e.2) = e.2.*2 ->
  s.(s_disk).(d_cache) = [] -> same_home s.(s_disk).(d_media) h ->
  (each (fun p : Z * block => _ ← raw_block_write p.1 p.2; mret tt) e.2;;
   ok ← raw_block_flush;
   (if (ok : bool) then _ ← raw_block_write jstart zero_block; mret tt else mret tt);;
   modify (fun s => set_seq (u64 (s.(g_journal_seq) + 1)) s);;
   modify (set_txn (mk_txn false ovf []));; mret true) s = (r, s') ->
  r = true /\ exists d, s' = set_txn (mk_txn false ovf []) (set_seq (u64 (s.(g_journal_seq) + 1)) (set_disk d s))
  /\ cdisk h e d /\ honest d /\ d.(d_total) = s.(s_disk).(d_total)
  /\ (d.(d_alive) = true -> same_home (latest d) (apply_all e.2 h) /\ (strict -> only (jstart, zero_block) d.(d_cache))).
Proof.
  intros Hd Hok Hh He Hhd Hjd Hc Hm. pose proof Hok as (Hj & Hn & Ht).
  destruct (each_write e.2 s Hd Hh) as (d1 & E1 & Hh1 & Ht1 & Hm1 & Hc1 & HL1).
  { destruct He as (_ & _ & HF). eapply Forall_impl; [exact HF|]. intros [a w] (? & _). cbn [fst] in *. lia. }
  rewrite (bind_run _ _ _ _ _ E1). destruct (disk_flush d1) as [r2 d2] eqn:E2. rewrite Hc in Hc1. rewrite (latest_nil s.(s_disk)) in HL1 by done.
  rewrite (bind_run raw_block_flush _ (set_disk d1 s) r2 (set_disk d2 s)) by (rewrite raw_flush_eq; cbn; by rewrite E2).
  assert (forall x, d1.(d_alive) = true -> ~ in_journal x -> latest d1 x = apply_all e.2 h x) as HL2.
  { intros x Ha Hx. rewrite (proj2 (HL1 Ha)). by apply (apply_all_ext _ _ _ Hm). }
  assert (cdisk h e d2 /\ (d2.(d_alive) = true -> same_home (latest d2) (apply_all e.2 h))
          /\ (r2 = true -> same_home d2.(d_media) (apply_all e.2 h) /\ d2.(d_cache) = [])) as (Hcd & Hal & Hr2).
  { assert (forall x, ~ in_journal x -> x ∉ e.2.*1 -> d1.(d_media) x = h x) as Hm1' by (intros x Hx _; rewrite Hm1; by apply Hm).
    assert (forall p, p ∈ d1.(d_cache) -> p ∈ e.2) as Hc1' by (by intros p [?%elem_of_nil|?]%Hc1).
    destruct (flush_power _ _ _ E2) as [(Em & Ec & -> & Hp)|(Em & Ec & Ha)].
    - split; [unfold cdisk; rewrite Em, Ec, Hm1; split_and!; [done|done|left; split; [done|intros x Hx _; by apply Hm]]|split; [|done]].
      intros Ha x Hx. unfold latest. rewrite Em, Ec. by apply HL2; [apply Hp|].
    - assert (same_home d2.(d_media) (apply_all e.2 h)) as Hs by (intros x Hx; rewrite Em; auto).
      assert (forall x, in_journal x -> d2.(d_media) x = s.(s_disk).(d_media) x) as Hin.
      { intros x Hx. rewrite Em, <- Hm1. unfold latest. destruct (cached _ x) eqn:Ex; [|done]. apply cached_Some, Hc1', (list_elem_of_fmap_2 fst) in Ex.
        by destruct (targets_home e x). }
      split; [|split; [by rewrite latest_nil|done]]. split_and!; [rewrite Hin; [done|unfold in_journal; lia]| |right; split; [done|rewrite Ec; by intros ? ?%elem_of_nil]].
      rewrite <- Hjd. apply (journal_data_agree s.(s_disk).(d_total)); [done|done|].
      destruct He as (_ & Hz & _). unfold zlen, JOURNAL_DATA_MAX in Hz. lia. }
  destruct (honest_flush _ _ _ Hh1 E2) as [Hh2 Hst]. destruct (disk_flush_step _ _ _ E2) as (Ht2 & _).
  destruct r2; cbv iota.
  - destruct (Hr2 eq_refl) as [Hs Hn2]. destruct (disk_write d2 jstart zero_block) as [r3 d3] eqn:E3.
    destruct (honest_write d2 jstart zero_block r3 d3) as (Hh3 & Ht3 & Hm3 & Hc3 & _); [done|lia|done|].
    rewrite (bind_run _ _ (set_disk d2 s) tt (set_disk d3 s))
      by (rewrite (bind_run _ _ _ r3 (set_disk d3 s)); [done|rewrite raw_write_eq by done; cbn; by rewrite E3]).
    intros [= <- <-]. split; [done|]. exists d3. rewrite Hn2 in Hc3. apply only_step in Hc3.
    split_and!; [done| |done|congruence|].
    + destruct Hcd as (? & ? & _). unfold cdisk. rewrite Hm3. auto.
    + intros _. split; [|done]. intros x Hx. unfold latest. rewrite Hm3. destruct (cached _ x) eqn:Ex; [|by apply Hs].
      apply cached_Some, Hc3 in Ex. injection Ex as -> _. destruct Hx. unfold in_journal. lia.
  - rewrite (bind_run _ _ (set_disk d2 s) tt (set_disk d2 s)) by done. intros [= <- <-]. split; [done|]. exists d2.
    split_and!; [done|done|done|congruence|]. intros Ha. split; [auto|]. intros Hs. rewrite Hst in Ha; done.
Qed.
(** *** A whole transaction *)
Definition wo_ready (h : contents) (H : list (Z * list (Z * block))) (s : store) : Prop :=
  0 < s.(op_depth) /\ s.(s_mfs).(sb).(geo) = g /\ s.(s_mfs).(journal_mac_key) = key /\ geo_ok s.(s_disk).(d_total)
  /\ honest s.(s_disk) /\ jdisk h H s.(s_disk) /\ txn_ok (s.(g_journal_seq), s.(s_txn).(t_staged)).
Definition kept (s s' : store) : Prop :=
  s'.(op_depth) = s.(op_depth) /\ s'.(s_mfs) = s.(s_mfs) /\ s'.(s_disk).(d_total) = s.(s_disk).(d_total) /\ honest s'.(s_disk)
  /\ (s'.(g_journal_seq) = s.(g_journal_seq) \/ s'.(g_journal_seq) = u64 (s.(g_journal_seq) + 1)).
(** Aborting, from a state that differs in the device only. *)
Lemma abort_kept (d : disk) s r s' :
  honest d -> d.(d_total) = s.(s_disk).(d_total) -> (journal_abort;; mret false) (set_disk d s) = (r, s') ->
  r = false /\ kept s s' /\ s'.(s_disk) = d.
Proof. intros Hh Ht [= <- <-]. split; [done|]. split; [|done]. split_and!; try done. by left. Qed.
(** What committing [e] leaves. *)
Definition settled (h : contents) (H : list (Z * list (Z * block))) (e : Z * list (Z * block)) (s : store) (r : bool) (s' : store) : Prop :=
  kept s s'
  /\ (r = true /\ cdisk h e s'.(s_disk) /\ (s'.(s_disk).(d_alive) = true -> same_home (latest s'.(s_disk)) (apply_all e.2 h) /\ (strict -> only (jstart, zero_block) s'.(s_disk).(d_cache)))
      \/ r = false /\ jdisk h (e :: H) s'.(s_disk) /\ (strict -> s'.(s_disk).(d_alive) = false)).
Lemma abort_settled h H e (d : disk) s r s' :
  honest d -> d.(d_total) = s.(s_disk).(d_total) -> jdisk h (e :: H) d -> (strict -> d.(d_alive) = false) ->
  (journal_abort;; mret false) (set_disk d s) = (r, s') -> settled h H e s r s'.
Proof. intros Hh Ht Hj Hst (-> & Hkept & Hd)%abort_kept; [|done..]. split; [done|]. right. by rewrite Hd. Qed.
(** From the header on: the data are on the medium. *)
Lemma header_shape h H (d : disk) s r s' ovf :
  let e := (s.(g_journal_seq), s.(s_txn).(t_staged)) in
  0 < s.(op_depth) -> geo_ok s.(s_disk).(d_total) -> d.(d_total) = s.(s_disk).(d_total) -> honest d -> jdisk h H d -> txn_ok e ->
  d.(d_cache) = [] -> journal_data d.(d_media) (length e.2) = e.2.*2 ->
  (ok ← raw_block_write jstart (hdr_for e);
   if negb ok then journal_abort;; mret false else
   ok ← raw_block_flush;
   if negb ok then journal_abort;; mret false else
   each (fun p : Z * block => _ ← raw_block_write p.1 p.2; mret tt) e.2;;
   ok ← raw_block_flush;
   (if (ok : bool) then _ ← raw_block_write jstart zero_block; mret tt else mret tt);;
   modify (fun s => set_seq (u64 (s.(g_journal_seq) + 1)) s);;
   modify (set_txn (mk_txn false ovf []));; mret true) (set_disk d s) = (r, s') ->
  settled h H e s r s'.
Proof.
  intros e Hd Hok Ht Hh Hj He Hc Hjd. pose proof Hok as (Hs & Hn & Htt).
  destruct (disk_write d jstart (hdr_for e)) as [r3 d3] eqn:E3.
  rewrite (bind_run _ _ (set_disk d s) r3 (set_disk d3 s)) by (rewrite raw_write_eq by done; cbn; by rewrite E3).
  assert (jdisk h (e :: H) d3) as Hj3.
  { eapply jdisk_write; [eapply jdisk_mono; [exact Hj|by intros ? ?; right]| | |exact E3]; [unfold in_journal; lia|].
    intros _. right. exists e. split; [by left|done]. }
  destruct (honest_write d jstart (hdr_for e) r3 d3 Hh ltac:(lia) E3) as (Hh3 & Ht3 & Hm3 & _ & Hr3).
  destruct r3; cbn [negb]; [|apply abort_settled; [done|congruence|done|by destruct Hr3 as [(? & _)|[_ ?]]]].
  destruct Hr3 as [(_ & _ & _ & Hc3)|[? _]]; [|done]. rewrite Hc in Hc3.
  destruct (disk_flush d3) as [r4 d4] eqn:E4.
  rewrite (bind_run raw_block_flush _ (set_disk d3 s) r4 (set_disk d4 s)) by (rewrite raw_flush_eq; cbn; by rewrite E4).
  pose proof (jdisk_flush _ _ _ _ _ Hj3 E4) as Hj4. destruct (honest_flush _ _ _ Hh3 E4) as [Hh4 Hst4].
  destruct (disk_flush_step _ _ _ E4) as (Ht4 & _ & Hr4).
  destruct r4; cbn [negb]; [|apply abort_settled; [done|congruence|done|by auto]].
  destruct (Hr4 eq_refl) as (_ & Hm4 & Hc4). intros E.
  assert (forall x, d4.(d_media) x = if jstart =? x then hdr_for e else d.(d_media) x) as Hm.
  { intros x. rewrite Hm4, (latest_write d d3 jstart (hdr_for e)) by congruence. by rewrite latest_nil. }
  destruct (retire_shape h e (set_disk d4 s) s' r ovf) as (-> & d5 & -> & Hcd & Hh5 & Ht5 & HL); [done|by cbn; rewrite Ht4, Ht3, Ht|done|done| | |done| |exact E|].
  - cbn. by rewrite Hm, Z.eqb_refl.
  - rewrite <- Hjd. unfold journal_data. apply list_fmap_ext. intros i x [-> Hx]%lookup_seqZ. cbn. rewrite Hm.
    destruct (Z.eqb_spec jstart (jstart + 1 + (0 + Z.of_nat i))); [lia|done].
  - by destruct Hj4 as (_ & ? & _).
  - split; [split_and!; [done|done|cbn in *; congruence|done|by right]|]. by left.
Qed.
Lemma write_out_shape h H s r s' :
  wo_ready h H s -> journal_write_out s = (r, s') -> settled h H (s.(g_journal_seq), s.(s_txn).(t_staged)) s r s'.
Proof.
  intros (Hd & Hg & Hk & Hok & Hh & Hj & He). pose proof Hok as (Hs & Hn & Ht). unfold journal_write_out.
  rewrite (bind_run _ _ s s.(s_mfs) s), (bind_run _ _ s s.(s_txn) s) by done. cbv zeta. rewrite Hg, Hk. set (e := (g_journal_seq s, t_staged (s_txn s))).
  change (imap pair (t_staged (s_txn s)).*2) with (imap (fun i w => (0 + i, w)%nat) e.2.*2).
  destruct (all_ok (fun iw : nat * block => raw_block_write (jstart + 1 + Z.of_nat iw.1) iw.2) (imap (fun i w => (0 + i, w)%nat) e.2.*2) s) as [ok1 s1] eqn:E1.
  destruct (data_writes h H 0 e.2.*2 s ok1 s1) as (d1 & -> & Hj1 & Ht1 & Hh1 & HL1); [done|done|done|done| |done|].
  { destruct He as (_ & Hz & _). unfold zlen, JOURNAL_DATA_MAX in *. rewrite length_fmap. cbn in *. lia. }
  rewrite (bind_run _ _ _ _ _ E1). destruct (Hh1 Hh ltac:(lia)) as [Hh1' Hd1]. clear Hh1. rename Hh1' into Hh1.
  assert (forall d, jdisk h H d -> jdisk h (e :: H) d) as Hmono by (intros d Hjd; eapply jdisk_mono; [exact Hjd|by intros ? ?; right]).
  destruct ok1; cbn [negb]; [|apply abort_settled; auto]. destruct (HL1 eq_refl) as [HLd _].
  destruct (disk_flush d1) as [r2 d2] eqn:E2.
  rewrite (bind_run raw_block_flush _ (set_disk d1 s) r2 (set_disk d2 s)) by (rewrite raw_flush_eq; cbn; by rewrite E2).
  pose proof (jdisk_flush _ _ _ _ _ Hj1 E2) as Hj2. destruct (honest_flush _ _ _ Hh1 E2) as [Hh2 Hst2].
  destruct (disk_flush_step _ _ _ E2) as (Ht2 & _ & Hr2).
  destruct r2; cbn [negb]; [|apply abort_settled; auto; congruence]. destruct (Hr2 eq_refl) as (_ & Hm2 & Hc2).
  rewrite (bind_run (gets g_journal_seq) _ (set_disk d2 s) s.(g_journal_seq) (set_disk d2 s)) by done.
  apply header_shape; [done|done|congruence|done|done|done|done|].
  apply list_eq_same_length with (length e.2); [by rewrite length_fmap|by unfold journal_data; rewrite length_fmap, length_seqZ, Nat2Z.id|].
  intros i x y Hi Hx Hy. unfold journal_data in Hx. apply list_lookup_fmap_Some in Hx as (z & -> & [-> _]%lookup_seqZ).
  by rewrite Hm2, <- (HLd i y Hy).
Qed.

(** *** Histories of transactions *)
(** What the code does between two commits: the device is read, not written. *)
Definition quiet (d d' : disk) : Prop :=
  d'.(d_total) = d.(d_total) /\ d'.(d_media) = d.(d_media) /\ d'.(d_cache) = d.(d_cache)
  /\ (d'.(d_alive) = true -> d.(d_alive) = true) /\ (honest d -> honest d').
Definition same_volume (s s' : store) : Prop :=
  s'.(op_depth) = s.(op_depth) /\ s'.(s_mfs).(sb).(geo) = s.(s_mfs).(sb).(geo)
  /\ s'.(s_mfs).(journal_mac_key) = s.(s_mfs).(journal_mac_key) /\ s'.(g_journal_seq) = s.(g_journal_seq).
Definition ram_step (s s' : store) : Prop := same_volume s s' /\ quiet s.(s_disk) s'.(s_disk).
Definition applied (cs : list (Z * list (Z * block))) (h : contents) : contents := apply_all (mjoin cs.*2) h.
Lemma apply_all_app st st' h : apply_all (st ++ st') h = apply_all st' (apply_all st h).
Proof. revert h. induction st as [|[b w] st IH]; intros h; [done|]. cbn. apply IH. Qed.
Lemma applied_snoc cs e h : applied (cs ++ [e]) h = apply_all e.2 (applied cs h).
Proof. unfold applied. rewrite fmap_app, join_app, apply_all_app. cbn. by rewrite app_nil_r. Qed.
(** Nothing of [d] is written any more once the power has gone. *)
Lemma all_ok_dead {A} (f : A -> Z * block) xs s :
  0 < s.(op_depth) -> s.(s_disk).(d_alive) = false -> xs <> [] ->
  all_ok (fun x => raw_block_write (f x).1 (f x).2) xs s = (false, s).
Proof.
  intros Hd Ha. destruct xs as [|x xs]; [done|]. intros _. cbn [all_ok].
  rewrite (bind_run _ _ s false s) by (rewrite raw_write_eq, dead_write by done; by destruct s). done.
Qed.
Lemma write_out_dead s r s' :
  0 < s.(op_depth) -> s.(s_disk).(d_alive) = false -> s.(s_txn).(t_staged) <> [] -> journal_write_out s = (r, s') ->
  r = false /\ s'.(s_disk) = s.(s_disk) /\ same_volume s s'.
Proof.
  intros Hd Ha Hn. unfold journal_write_out. rewrite (bind_run _ _ s s.(s_mfs) s), (bind_run _ _ s s.(s_txn) s) by done. cbv zeta.
  erewrite bind_run; [|apply (all_ok_dead (fun iw : nat * block => (_ + Z.of_nat iw.1, iw.2))); [done|done|]].
  - cbn [negb]. intros [= <- <-]. by split_and!.
  - by destruct (t_staged (s_txn s)).
Qed.
Definition vol_ready (s : store) : Prop :=
  0 < s.(op_depth) /\ s.(s_mfs).(sb).(geo) = g /\ s.(s_mfs).(journal_mac_key) = key /\ geo_ok s.(s_disk).(d_total) /\ honest s.(s_disk)
  /\ 0 <= s.(g_journal_seq) < 2 ^ 64.
(** Between transactions the header is idle or that of a transaction whose redo changes nothing. *)
Definition hist_inv (h : contents) (cs fs : list (Z * list (Z * block))) (s : store) : Prop :=
  vol_ready s /\
  ((exists H, jdisk (applied cs h) H s.(s_disk) /\ Forall txn_ok H
     /\ forall e, e ∈ H -> e ∈ fs \/ e ∈ cs /\ forall x, apply_all e.2 (applied cs h) x = applied cs h x)
   \/ s.(s_disk).(d_alive) = false /\ exists h' e, applied cs h = apply_all e.2 h' /\ txn_ok e /\ cdisk h' e s.(s_disk)).
Lemma jdisk_quiet h H d d' : quiet d d' -> jdisk h H d -> jdisk h H d'.
Proof. intros (_ & Hm & Hc & _). unfold jdisk. by rewrite Hm, Hc. Qed.
Lemma cdisk_quiet h e d d' : quiet d d' -> cdisk h e d -> cdisk h e d'.
Proof. intros (_ & Hm & Hc & _). unfold cdisk. by rewrite Hm, Hc. Qed.
Lemma ram_inv h cs fs s s' : hist_inv h cs fs s -> ram_step s s' -> hist_inv h cs fs s'.
Proof.
  intros ((Hd & Hg & Hk & Hok & Hh & Hsq) & Hcase) [(Ed & Eg & Ek & Eq) Hq]. pose proof Hq as (Et & _ & _ & Ha & Eh).
  split; [unfold vol_ready; rewrite Ed, Eg, Ek, Et, Eq; auto 10|].
  destruct Hcase as [(H & Hj & HH)|(Hdead & h' & e & Hap & He & Hc)]; [left|right].
  - exists H. split; [by eapply jdisk_quiet|done].
  - split; [destruct (d_alive (s_disk s')); [by rewrite Ha in Hdead|done]|]. exists h', e. split_and!; [done|done|by eapply cdisk_quiet].
Qed.
Lemma kept_ready s s' : vol_ready s -> kept s s' -> vol_ready s'.
Proof.
  intros (Hd & Hg & Hk & Hok & Hh & Hs) (Ed & Em & Et & Hh' & Hs'). unfold vol_ready. rewrite Ed, Em, Et. split_and!; try done;
    destruct Hs' as [-> | ->]; rewrite ?u64_mod; try lia; apply Z.mod_pos_bound; lia.
Qed.
Lemma write_out_inv h cs fs s r s' :
  let e := (s.(g_journal_seq), s.(s_txn).(t_staged)) in
  strict -> hist_inv h cs fs s -> txn_ok e -> journal_write_out s = (r, s') ->
  hist_inv h (if r then cs ++ [e] else cs) (if r then fs else e :: fs) s'.
Proof.
  intros e Hstrict [Hv Hcase] He E. pose proof Hv as (Hd & Hg & Hk & Hok & Hh & Hsq).
  destruct (s.(s_disk).(d_alive)) eqn:Ha; last first.
  { destruct (write_out_dead s r s') as (-> & Hdisk & Ed & Eg & Ek & Eq); [done|done| |done|].
    { intros Hn. destruct He as (_ & He & _). unfold e, zlen in He. cbn in He. rewrite Hn in He. cbn in He. lia. }
    split; [unfold vol_ready; rewrite Ed, Eg, Ek, Hdisk, Eq; by auto 10|]. rewrite Hdisk.
    destruct Hcase as [(H & Hj & HH & Hab)|[_ Hc]]; [left|by right]. exists H. split_and!; [done|done|].
    intros e' [?|?]%Hab; [left; by right|by right]. }
  destruct Hcase as [(H & Hj & HH & Hab)|[? _]]; [|congruence].
  destruct (write_out_shape (applied cs h) H s r s') as [Hkept Hs]; [by unfold wo_ready; auto 10|done|]. split; [by eapply kept_ready|]. fold e in Hs.
  destruct Hs as [(-> & Hc & HL)|(-> & Hj' & _)].
  - destruct (d_alive (s_disk s')) eqn:Ha'; [left|right; split; [done|exists (applied cs h), e; by rewrite applied_snoc]].
    destruct (HL eq_refl) as [HL1 Ho]. exists [e]. rewrite applied_snoc. split_and!.
    + apply cdisk_jdisk; [done|done|done|]. intros p Hp. apply Ho in Hp as ->; [|done]. destruct Hok. cbn. unfold in_journal. lia.
    + by constructor.
    + intros e' ->%list_elem_of_singleton. right. split; [apply elem_of_app; right; by left|]. intros x. apply apply_all_idem.
  - left. exists (e :: H). split_and!; [done|by constructor|]. intros e' [->|[?|?]%Hab]%elem_of_cons; [left; by left|left; by right|by right].
Qed.
(** What a crash of such a volume recovers to. *)
Lemma hist_crash h cs fs s m :
  hist_inv h cs fs s -> g.(total_blocks) < 2 ^ 64 -> (length key <= 64)%nat ->
  crash_media (eq jstart) s.(s_disk) m -> (forall b, length (m b) = Z.to_nat BLOCK_SIZE) ->
  same_home (recovered m) (applied cs h)
  \/ (exists e, e ∈ fs /\ same_home (recovered m) (applied (cs ++ [e]) h))
  \/ (exists e, e ∈ cs ++ fs /\ collides (hmac_inputs key (jmsg e.1 e.2)) (hmac_inputs key (found m))).
Proof.
  intros [(_ & _ & _ & Hok & _ & _) Hcase] Hg Hk Hcr Hb. destruct Hcase as [(H & Hjd & HH & Hab)|(_ & h' & e & -> & He & Hc)].
  - destruct (jdisk_crash (applied cs h) H s.(s_disk) m) as [?|(e & He & [Hr|Hr])]; auto.
    + destruct Hok. unfold in_journal. lia.
    + destruct (Hab e He) as [Hf|[_ Hid]]; [right; left; exists e; by rewrite applied_snoc|]. left. intros x Hx. by rewrite Hr, Hid.
    + right. right. exists e. split; [|done]. apply elem_of_app. naive_solver.
  - left. by eapply cdisk_crash.
Qed.
End volume.
