(* ===== verification/Tree.v ===== *)
(** The shape of the Merkle tree over a volume's metadata (storage.c): the levels
    [merkle_layout] describes shrink by the fanout up to one node, the nodes of a
    path exist, and the blocks of a tree that fits lie in the tree's region. *)
From S2P Require Import Prelude Sha256 Aead Disk Super Store.

Lemma fanout_128 : MERKLE_FANOUT = 128.
Proof. done. Qed.

(** A level and the one above it. *)
Definition parent_count (n : Z) : Z := (n + 127) / 128.
Inductive shape : list Z -> Prop :=
| shape_top : shape [1]
| shape_up n m l : 1 < n -> m = parent_count n -> shape (m :: l) -> shape (n :: m :: l).

Lemma levels_from_shape fuel n l :
  0 <= n < 2 ^ 60 -> merkle_levels_from fuel n = Some l -> shape l /\ exists l', l = n :: l'.
Proof.
  revert n l. induction fuel as [|fuel IH]; intros n l Hn; [done|]. cbn [merkle_levels_from]. rewrite fanout_128.
  destruct (Z.eqb_spec n 1) as [->|Hne]; [intros [= <-]; split; [constructor|by exists []]|].
  rewrite u64_mod, Z.mod_small by lia. replace (n + 128 - 1) with (n + 127) by lia.
  destruct (merkle_levels_from _ _) as [l1|] eqn:E; [|done]. intros [= <-].
  apply IH in E as [Hs (l' & ->)]; [|split; [apply Z.div_pos; lia|apply Z.div_lt_upper_bound; lia]].
  split; [|by eexists]. constructor; [|done|done].
  destruct (decide (n = 0)) as [->|]; [|lia]. change ((0 + 127) / 128) with 0 in Hs. inversion Hs. lia.
Qed.
Lemma tree_counts_shape g : tree_counts g <> [] -> shape (tree_counts g).
Proof.
  unfold tree_counts, merkle_layout. destruct (_ =? 0); [done|]. destruct (merkle_levels_from _ _) as [l|] eqn:E; [|done]. intros _. cbn.
  apply levels_from_shape in E as [Hs _]; [done|]. rewrite fanout_128. rewrite u64_mod. pose proof (Z.mod_pos_bound (merkle_leaves g + 128 - 1) (2 ^ 64) ltac:(lia)).
  split; [apply Z.div_pos; lia|apply Z.div_lt_upper_bound; lia].
Qed.
Lemma shape_pos l : shape l -> Forall (fun n => 1 <= n) l.
Proof. induction 1; constructor; auto; lia. Qed.
Lemma shape_step l i n m : shape l -> l !! i = Some n -> l !! S i = Some m -> 1 < n /\ m = parent_count n.
Proof.
  intros Hs. revert i. induction Hs as [|n0 m0 l Hn -> Hs IH]; intros i; [by destruct i as [|[]]|].
  destruct i as [|i]; [intros [= ->] [= <-]; done|]. cbn. apply IH.
Qed.
Lemma shape_last l : shape l -> l !! (length l - 1)%nat = Some 1.
Proof. induction 1 as [|n m l _ _ Hs IH]; [done|]. cbn [length] in *. by replace (S (S (length l)) - 1)%nat with (S (S (length l) - 1)) by lia. Qed.
Lemma shape_sum l n : shape (n :: l) -> Z.of_nat (length (n :: l)) <= n /\ n <= foldr Z.add 0 (n :: l) <= 2 * n.
Proof.
  intros Hs. remember (n :: l) as ls eqn:E. revert n l E. induction Hs as [|n m l Hn -> Hs IH]; intros k l' [= <- <-]; [done|].
  destruct (IH _ _ eq_refl) as [Hl Hf]. cbn [foldr length] in *. unfold parent_count in *.
  pose proof (Z.div_mod (n + 127) 128 ltac:(lia)). pose proof (Z.mod_pos_bound (n + 127) 128 ltac:(lia)). lia.
Qed.

Lemma levels_from_length fuel n l : merkle_levels_from fuel n = Some l -> (length l <= fuel)%nat.
Proof.
  revert n l. induction fuel as [|fuel IH]; intros n l; [done|]. cbn [merkle_levels_from]. destruct (_ =? 1); [intros [= <-]; cbn; lia|].
  destruct (merkle_levels_from fuel _) as [l1|] eqn:E; [|done]. intros [= <-]. apply IH in E. cbn [length]. lia.
Qed.
Lemma tree_levels_le g : zlen (tree_counts g) <= 6.
Proof.
  unfold tree_counts, merkle_layout, zlen. destruct (_ =? 0); [done|]. destruct (merkle_levels_from _ _) as [l|] eqn:E; [|done]. cbn [default].
  apply levels_from_length in E. unfold MERKLE_MAX_LEVELS in E. change (id l) with l. lia.
Qed.

(** ** The nodes of a volume's tree *)
Definition tree_node (g : geometry) (level index : Z) : Prop :=
  0 <= level < zlen (tree_counts g) /\ 0 <= index < zget 0 (tree_counts g) level.
Lemma counts_lookup (g : geometry) level : 0 <= level < zlen (tree_counts g) ->
  tree_counts g !! Z.to_nat level = Some (zget 0 (tree_counts g) level).
Proof.
  intros H. rewrite zget_lookup by lia. destruct (lookup_lt_is_Some_2 (tree_counts g) (Z.to_nat level)) as [x ->]; [unfold zlen in H; lia|done].
Qed.
Lemma counts_shape g level : 0 <= level < zlen (tree_counts g) -> shape (tree_counts g).
Proof. intros H. apply tree_counts_shape. intros E. rewrite E in H. change (0 <= level < 0) in H. lia. Qed.
Lemma counts_step g level :
  0 <= level -> level + 1 < zlen (tree_counts g) -> zget 0 (tree_counts g) (level + 1) = parent_count (zget 0 (tree_counts g) level).
Proof.
  intros H0 H1. pose proof (counts_shape g level ltac:(lia)) as Hs.
  pose proof (counts_lookup g level ltac:(lia)) as E0. pose proof (counts_lookup g (level + 1) ltac:(lia)) as E1.
  replace (Z.to_nat (level + 1)) with (S (Z.to_nat level)) in E1 by lia. by destruct (shape_step _ _ _ _ Hs E0 E1).
Qed.
(** The parent of a node below the top is a node. *)
Lemma node_parent g level index :
  tree_node g level index -> level + 1 < zlen (tree_counts g) -> tree_node g (level + 1) (index / 128).
Proof.
  intros [Hl Hi] Hn. split; [lia|]. rewrite counts_step by lia. unfold parent_count.
  split; [apply Z.div_pos; lia|]. apply Z.div_lt_upper_bound; [lia|].
  pose proof (Z.div_mod (zget 0 (tree_counts g) level + 127) 128 ltac:(lia)).
  pose proof (Z.mod_pos_bound (zget 0 (tree_counts g) level + 127) 128 ltac:(lia)). lia.
Qed.
Lemma node_ancestor g level index n :
  tree_node g level index -> level + Z.of_nat n < zlen (tree_counts g) -> tree_node g (level + Z.of_nat n) (index / MERKLE_FANOUT ^ Z.of_nat n).
Proof.
  intros Ht. rewrite fanout_128. induction n as [|n IH]; intros Hn; [by rewrite Z.pow_0_r, Z.div_1_r, Z.add_0_r|].
  rewrite Nat2Z.inj_succ, Z.pow_succ_r, Z.mul_comm, <- Z.div_div by lia. replace (level + Z.succ (Z.of_nat n)) with (level + Z.of_nat n + 1) by lia.
  apply node_parent; [apply IH; lia|lia].
Qed.
(** The top has one node. *)
Lemma node_top g index : tree_node g (zlen (tree_counts g) - 1) index -> index = 0.
Proof.
  intros [Hl Hi]. pose proof (counts_shape g _ Hl) as Hs.
  apply shape_last in Hs. rewrite zget_lookup in Hi by lia. unfold zlen in *.
  replace (Z.to_nat (Z.of_nat (length (tree_counts g)) - 1)) with (length (tree_counts g) - 1)%nat in Hi by lia.
  rewrite Hs in Hi. cbn in Hi. lia.
Qed.
Lemma tree_first_bound g n l : tree_counts g = n :: l -> n < 2 ^ 60.
Proof.
  unfold tree_counts, merkle_layout. destruct (_ =? 0); [done|]. destruct (merkle_levels_from _ _) as [l1|] eqn:E; [|done]. cbn. intros ->.
  apply levels_from_shape in E as [_ (l' & [= -> _])]; rewrite fanout_128, u64_mod;
    pose proof (Z.mod_pos_bound (merkle_leaves g + 128 - 1) (2 ^ 64) ltac:(lia)); [apply Z.div_lt_upper_bound; lia|].
  split; [apply Z.div_pos; lia|apply Z.div_lt_upper_bound; lia].
Qed.
Lemma sum_split (l : list Z) i n : l !! i = Some n -> Forall (fun x => 1 <= x) l ->
  0 <= foldr Z.add 0 (take i l) /\ foldr Z.add 0 (take i l) + n <= foldr Z.add 0 l.
Proof.
  intros Hi HF. revert i Hi. induction HF as [|x l Hx HF IH]; intros [|i] Hi; try done; cbn in *.
  - injection Hi as ->. assert (0 <= foldr Z.add 0 l); [clear -HF; induction HF; cbn; lia|lia].
  - apply IH in Hi. lia.
Qed.
(** Every node's block is one of the tree's region. *)
Lemma node_block g level index :
  merkle_tree_fits g = true -> tree_node g level index ->
  g.(merkle_start) <= merkle_level_base g level + index < g.(merkle_start) + g.(merkle_blocks).
Proof.
  unfold merkle_tree_fits. destruct (length (tree_counts g) =? 0)%nat eqn:E0; [done|]. intros Hfit%Z.leb_le [Hl Hi].
  pose proof (counts_shape g _ Hl) as Hs.
  destruct (sum_split _ _ _ (counts_lookup g level Hl) (shape_pos _ Hs)) as [H1 H2]. unfold merkle_level_base.
  rewrite u64_mod, Z.mod_small in Hfit; [lia|]. destruct (tree_counts g) as [|n l] eqn:E; [done|].
  destruct (shape_sum l n Hs) as [Hlen [Hlo Hhi]]. pose proof (tree_first_bound g n l E). cbn [length] in Hlen. lia.
Qed.
