(* ===== verification/Staging.v ===== *)
(** With a transaction open the block layer only stages (storage.c): every operation
    between [journal_begin] and [journal_commit] reads the device and never writes
    it, every block it stages lies in the volume and outside the journal, and the
    journal never overflows.  Hence a session of block operations is a history of
    transactions, and crash atomicity (Journal.v) holds of the operations the file
    system calls. *)
From S2P Require Import Prelude Sha256 Aead Disk Super Store Journal Tree.

Create HintDb staging.

Definition sized (w : block) : Prop := length w = Z.to_nat BLOCK_SIZE.
Lemma zero_sized : sized zero_block.
Proof. apply length_replicate. Qed.
Lemma splice_sized w at_ data :
  sized w -> 0 <= at_ -> at_ + zlen data <= BLOCK_SIZE -> sized (splice w at_ data).
Proof. unfold sized, splice, zlen, BLOCK_SIZE. intros. rewrite !length_app, length_take, length_drop. lia. Qed.

Section staging.
Context (g : geometry) (strict : Prop).

(** ** What the state of a mounted volume satisfies *)
Definition home (b : Z) : Prop := 0 <= b < g.(total_blocks) /\ ~ in_journal g b.
Record wf_geo : Prop := {
  wg_super : home 0;
  wg_count : 0 <= g.(meta_blocks);
  wg_span : 0 <= g.(inode_bitmap_start);
  wg_meta : forall i, 0 <= i < g.(meta_blocks) -> home (g.(meta_start) + i);
  wg_fits : merkle_tree_fits g = true;
  wg_nodes : forall i, 0 <= i < g.(merkle_blocks) -> home (g.(merkle_start) + i)
}.
Definition kline_ok (l : merkle_line) : Prop :=
  (l.(kl_index) = MERKLE_IDX_NONE \/ tree_node g l.(kl_level) l.(kl_index)) /\ sized l.(kl_img).
Definition mline_ok (l : meta_cache_line) : Prop :=
  (l.(ml_blk) = META_BLK_NONE \/ 0 <= l.(ml_blk) < g.(meta_blocks)) /\ sized l.(ml_img).
Definition staged_ok (st : list (Z * block)) : Prop :=
  zlen st <= JOURNAL_DATA_MAX /\ Forall (fun p => home p.1 /\ sized p.2) st.
Definition disk_ok (d : disk) : Prop := (forall b, sized (d.(d_media) b)) /\ Forall (fun p => sized p.2) d.(d_cache).
Record ram_ok (s : store) : Prop := {
  ro_geo : s.(s_mfs).(sb).(geo) = g;
  ro_after : (Z.to_nat BLOCK_SIZE <= length s.(after))%nat;
  ro_staged : staged_ok s.(s_txn).(t_staged);
  ro_nodes : Forall kline_ok s.(g_merkle_cache);
  ro_meta : Forall mline_ok s.(g_meta_cache);
  ro_disk : disk_ok s.(s_disk)
}.

(** ** The logic *)
Definition stages {A} (m : SM A) (Q : A -> Prop) : Prop :=
  forall s, ram_ok s -> s.(s_txn).(t_active) = true ->
    ram_ok (m s).2 /\ (m s).2.(s_txn).(t_active) = true /\ ram_step strict s (m s).2 /\ Q (m s).1.
Definition any {A} (_ : A) : Prop := True.

#[global] Instance ram_step_pre : PreOrder (ram_step strict).
Proof.
  split; [intros s; split; by split_and!|]. intros a b c [(? & ? & ? & ?) (? & ? & ? & ? & ?)] [(? & ? & ? & ?) (? & ? & ? & ? & ?)].
  split; split_and!; try congruence; auto.
Qed.
Lemma stages_ret {A} (a : A) (Q : A -> Prop) : Q a -> stages (mret a) Q.
Proof. intros H s Hs Ha. split_and!; done. Qed.
Lemma stages_bind {A B} (m : SM A) (k : A -> SM B) P Q :
  stages m P -> (forall a, P a -> stages (k a) Q) -> stages (m ≫= k) Q.
Proof.
  intros Hm Hk s Hs Ha. destruct (Hm s Hs Ha) as (H1 & H2 & H3 & H4). unfold mbind, sm_bind. destruct (m s) as [a s1]. cbn in *.
  destruct (Hk a H4 s1 H1 H2) as (? & ? & ? & ?). split_and!; [done|done|by etransitivity|done].
Qed.
Lemma stages_weaken {A} (m : SM A) (P Q : A -> Prop) : stages m P -> (forall a, P a -> Q a) -> stages m Q.
Proof. intros Hm HQ s Hs Ha. destruct (Hm s Hs Ha) as (? & ? & ? & ?). auto. Qed.
Lemma stages_gets {A} (f : store -> A) (Q : A -> Prop) :
  (forall s, ram_ok s -> s.(s_txn).(t_active) = true -> Q (f s)) -> stages (gets f) Q.
Proof. intros H s Hs Ha. cbn. split; [done|]. split; [done|]. split; [reflexivity|auto]. Qed.
(** A change of the state in RAM. *)
Lemma stages_modify f :
  (forall s, ram_ok s -> s.(s_txn).(t_active) = true ->
     ram_ok (f s) /\ (f s).(s_txn).(t_active) = true /\ (f s).(s_disk) = s.(s_disk) /\ same_volume s (f s)) -> stages (modify f) any.
Proof. intros H s Hs Ha. destruct (H s Hs Ha) as (? & ? & Hd & ?). cbn. split_and!; [done|done| |done]. split; [done|]. rewrite Hd. by split_and!. Qed.

(** ** Primitives *)
Lemma kline_none_ok : kline_ok kl_none.
Proof. split; [by left|apply zero_sized]. Qed.
Lemma mline_none_ok : mline_ok ml_none.
Proof. split; [by left|apply zero_sized]. Qed.
Lemma Forall_zget {A} (P : A -> Prop) d l i : P d -> Forall P l -> P (zget d l i).
Proof.
  intros Hd HF. destruct (decide (0 <= i < zlen l)) as [Hi|Hi]; [|by rewrite zget_out by lia].
  rewrite Forall_forall in HF. by apply HF, zget_elem.
Qed.
Lemma Forall_zset {A} (P : A -> Prop) l i x : P x -> Forall P l -> Forall P (zset l i x).
Proof. intros Hx HF. unfold zset. destruct (i <? 0); [done|]. by apply Forall_insert. Qed.
Lemma stages_kline i : stages (kline i) kline_ok.
Proof. apply stages_gets. intros s Hs _. apply Forall_zget; [apply kline_none_ok|apply Hs]. Qed.
Lemma stages_mline i : stages (mline i) mline_ok.
Proof. apply stages_gets. intros s Hs _. apply Forall_zget; [apply mline_none_ok|apply Hs]. Qed.
Lemma stages_set_kline i l : kline_ok l -> stages (set_kline i l) any.
Proof. intros Hl. apply stages_modify. intros s [] Ha. split_and!; [split; cbn; auto using Forall_zset|done..]. Qed.
Lemma stages_set_mline i l : mline_ok l -> stages (set_mline i l) any.
Proof. intros Hl. apply stages_modify. intros s [] Ha. split_and!; [split; cbn; auto using Forall_zset|done..]. Qed.
Lemma stages_count f : stages (count f) any.
Proof. apply stages_modify. intros s [] Ha. by split_and!. Qed.
Lemma stages_mfs : stages mfs_of (fun m => m.(sb).(geo) = g).
Proof. apply stages_gets. by intros s []. Qed.
Lemma stages_txn : stages (gets s_txn) (fun t => t.(t_active) = true /\ staged_ok t.(t_staged)).
Proof. apply stages_gets. by intros s []. Qed.
Lemma stages_set_txn (f : txn -> txn) :
  (forall t, t.(t_active) = true -> staged_ok t.(t_staged) -> (f t).(t_active) = true /\ staged_ok (f t).(t_staged)) ->
  stages (modify (fun s => set_txn (f s.(s_txn)) s)) any.
Proof. intros H. apply stages_modify. intros s [] Ha. destruct (H (s_txn s)); [done|done|]. by split_and!. Qed.
Lemma stages_random n : stages (secure_random_bytes n) (fun l => length l = n).
Proof.
  intros s [] Ha. cbn. split; [done|]. split; [done|]. split; [by split; split_and!|]. rewrite length_take, length_app, length_replicate. lia.
Qed.
Lemma stages_upd_sb f : (forall b, (f b).(geo) = b.(geo)) -> stages (upd_sb f) any.
Proof. intros Hf. apply stages_modify. intros s [] Ha. split_and!; [split; cbn; rewrite ?Hf; done|done|done|]. split_and!; cbn; by rewrite ?Hf. Qed.
Lemma stages_permitted : stages storage_io_permitted any.
Proof.
  eapply stages_bind; [by apply (stages_gets op_depth any)|]. intros d _. destruct (0 <? d); [by apply stages_ret|].
  eapply stages_bind; [apply stages_count|]. intros _ _. by apply stages_ret.
Qed.
Lemma latest_sized d b : disk_ok d -> sized (latest d b).
Proof.
  intros [Hm Hc]. unfold latest. destruct (cached _ b) as [w|] eqn:E; [|apply Hm]. apply cached_Some in E. rewrite Forall_forall in Hc. by apply (Hc (b, w)).
Qed.
Definition sized_opt (r : option block) : Prop := forall w, r = Some w -> sized w.
Lemma disk_read_step d b r d' :
  disk_read d b = (r, d') -> quiet strict d d' /\ (disk_ok d -> disk_ok d' /\ sized_opt r).
Proof.
  unfold disk_read. destruct (d_alive d) eqn:Ha; cbn; [|intros [= <- <-]; split; [by split_and!|]; by intros].
  destruct (next_outcome _) as [o rs] eqn:E. intros H.
  assert (honest strict d -> Forall fair rs) as Hf by (intros (HF & _); by apply (next_fair _ _ _ HF) in E as [_ ?]).
  assert (forall w, r = Some w -> w = latest d b) as Hr by (destruct o, (in_range 0 (d_total d) b); injection H as <- <-; intros w ?; congruence).
  assert (d'.(d_media) = d.(d_media) /\ d'.(d_cache) = d.(d_cache) /\ d'.(d_total) = d.(d_total)
    /\ (honest strict d -> honest strict d')) as (Hm & Hc & Ht & Hh).
  { destruct o; injection H as <- <-; split_and!; cbn; try done; intros Hd; specialize (Hf Hd) as Hf'; destruct Hd as (_ & Hw & Hs); split_and!; cbn; auto using Forall_nil. }
  split; [split_and!; auto|]. intros Hok. split; [unfold disk_ok; by rewrite Hm, Hc|]. intros w ->%Hr. by apply latest_sized.
Qed.
Lemma stages_raw_read b : stages (raw_block_read b) sized_opt.
Proof.
  eapply stages_bind; [apply stages_permitted|]. intros ok _. destruct (negb ok); [by apply stages_ret|].
  intros s Hs Ha. unfold on_disk. destruct (disk_read (s_disk s) b) as [r d] eqn:E. apply disk_read_step in E as [Hq Hd]. destruct Hs.
  destruct Hd as [? ?]; [done|]. cbn. by split_and!.
Qed.

(** ** The metadata layer *)
Section layer.
Context (wf : wf_geo) (io : blockio).
Hypothesis io_read_stages : forall b, stages (io.(io_read) b) sized_opt.
Hypothesis io_write_stages : forall b w, home b -> sized w -> stages (io.(io_write) b w) any.
#[local] Hint Resolve stages_kline stages_mline stages_count stages_mfs stages_txn stages_random stages_permitted stages_raw_read
  io_read_stages : staging.
Ltac stage :=
  repeat (cbv beta zeta; lazymatch goal with
  | |- stages (mret _) _ => apply stages_ret; try done
  | |- stages (_ ≫= _) _ => eapply stages_bind; [solve [eauto with staging]|intros ? ?]
  | |- stages (if ?b then _ else _) _ => destruct b eqn:?
  | |- stages (match ?x with _ => _ end) _ => destruct x eqn:?
  end).

Lemma node_home l i : tree_node g l i -> home (merkle_level_base g l + i).
Proof.
  intros Hn. pose proof (node_block g l i wf.(wg_fits) Hn). replace (merkle_level_base g l + i) with (g.(merkle_start) + (merkle_level_base g l + i - g.(merkle_start))) by lia.
  apply wf. lia.
Qed.
Lemma merkle_flush_line_stages i : stages (merkle_flush_line io i) any.
Proof.
  unfold merkle_flush_line. stage. destruct H0 as [[?|Hn] Hi]; [lia|]. rewrite H.
  eapply stages_bind; [apply io_write_stages; [by apply node_home|done]|intros ok _]. stage.
  eapply stages_bind; [apply stages_set_kline, H0|intros _ _]. by stage.
Qed.
Lemma stages_each_ok {A} (f : A -> SM bool) l : (forall x, stages (f x) any) -> stages (each_ok f l) any.
Proof.
  intros Hf. induction l as [|x l IH]; [by apply stages_ret|]. cbn [each_ok]. eapply stages_bind; [apply Hf|intros ok _].
  eapply stages_bind; [apply IH|intros rest _]. by apply stages_ret.
Qed.
Lemma merkle_tick_stages : stages merkle_tick any.
Proof. eapply stages_bind; [apply stages_modify; intros s [] ?; by split_and!|intros _ _; by apply stages_gets]. Qed.
Lemma meta_tick_stages : stages meta_tick any.
Proof. eapply stages_bind; [apply stages_modify; intros s [] ?; by split_and!|intros _ _; by apply stages_gets]. Qed.
#[local] Hint Resolve merkle_flush_line_stages merkle_tick_stages meta_tick_stages : staging.
Lemma merkle_flush_all_stages : stages (merkle_flush_all io) any.
Proof. apply stages_each_ok. intros i. stage; eauto with staging. Qed.
Ltac line :=
  split; cbn; first
    [ by left | by right | assumption
    | match goal with
      | H : kline_ok _ |- _ => by apply H
      | H : mline_ok _ |- _ => by apply H
      | H : sized_opt _ |- _ => by apply H
      end ].
Ltac kset := eapply stages_bind; [apply stages_set_kline; try line|intros _ _].
Ltac mset := eapply stages_bind; [apply stages_set_mline; try line|intros _ _].
Lemma merkle_line_for_stages l i : tree_node g l i -> stages (merkle_line_for io l i) any.
Proof.
  intros Hn. unfold merkle_line_for. eapply stages_bind; [apply stages_mfs|intros m Hm]. destruct (no_tree m); [by stage|].
  eapply stages_bind; [by apply (stages_gets g_merkle_cache any)|intros c _]. destruct (find_index _ 0 _) as [j|].
  { stage. kset. by stage. }
  eapply stages_bind with (P := any).
  { destruct (find_index _ 0 _); [by stage|]. eapply stages_bind; [apply stages_kline|intros line _].
    eapply stages_bind with (P := any); [destruct (kl_dirty line); [eauto with staging|by stage]|intros ok _]. by stage. }
  intros ok _. destruct (negb ok); [by stage|]. stage. kset. rewrite Hm. stage; kset; by stage.
Qed.
Lemma node_checked_stages m levels l i p j : stages (node_checked m levels l i p j) any.
Proof. unfold node_checked. stage. kset. by stage. Qed.
#[local] Hint Resolve node_checked_stages : staging.
Lemma merkle_walk_stages m levels l i n p :
  tree_node g l i -> l + Z.of_nat n <= zlen (tree_counts g) -> stages (merkle_walk io m levels l i n p) any.
Proof.
  intros Hn. revert p. induction n as [|n IH]; intros p Hle; [by stage|]. cbn [merkle_walk].
  eapply stages_bind; [apply merkle_line_for_stages, node_ancestor; [done|lia]|intros r _]. stage. apply IH. lia.
Qed.
Lemma merkle_node_stages l i : 0 <= l -> 0 <= i -> stages (merkle_node io l i) any.
Proof.
  intros Hl Hi. unfold merkle_node. eapply stages_bind; [apply stages_mfs|intros m ->]. cbv zeta. destruct (no_tree m); [by stage|].
  destruct (Z.eqb_spec (zlen (tree_counts g)) 0), (Z.leb_spec (zlen (tree_counts g)) l), (Z.leb_spec (zget 0 (tree_counts g) l) i); cbn [orb]; try by stage.
  apply merkle_walk_stages; [by split|lia].
Qed.
Lemma merkle_verify_leaf_stages leaf img : 0 <= leaf -> stages (merkle_verify_leaf io leaf img) any.
Proof.
  intros Hl. unfold merkle_verify_leaf. stage. eapply stages_bind; [apply merkle_node_stages; [done|]|intros r _; by stage].
  rewrite fanout_128. apply Z.div_pos; lia.
Qed.
Lemma set_slot_sized img i h : sized img -> length h = 32%nat -> sized (set_slot img i h).
Proof.
  intros Hi Hh. pose proof (Z.mod_pos_bound i 128 ltac:(lia)). unfold set_slot. rewrite fanout_128.
  apply splice_sized; [done|lia|]. unfold zlen, BLOCK_SIZE. lia.
Qed.
Lemma length_merkle_hash l i k img : length (merkle_hash l i k img) = 32%nat.
Proof. unfold merkle_hash. by rewrite hmac_is_spec, length_hmac_spec. Qed.
Lemma length_merkle_root_hash b img k n : length (merkle_root_hash b img k n) = 32%nat.
Proof. unfold merkle_root_hash. by rewrite hmac_is_spec, length_hmac_spec. Qed.
Lemma merkle_carry_stages m levels l n idx h :
  0 <= l -> 0 <= idx -> length h = 32%nat -> stages (merkle_carry io m levels l n idx h) any.
Proof.
  revert l idx h. induction n as [|n IH]; intros l idx h Hl Hi Hh; [by stage|]. cbn [merkle_carry]. rewrite fanout_128.
  pose proof (Z.div_pos idx 128 Hi ltac:(lia)).
  eapply stages_bind; [by apply merkle_node_stages|intros [i|] _]; stage.
  eapply stages_bind; [apply stages_set_kline; split; [apply H0|apply set_slot_sized; [apply H0|done]]|intros _ _].
  apply IH; [lia|done|]. destruct (l + 1 =? levels); [apply length_merkle_root_hash|apply length_merkle_hash].
Qed.
Lemma superblock_block_stages : stages superblock_block sized.
Proof.
  apply stages_gets. intros s [_ Hl _ _ _ _] _. unfold sized, sb_block. rewrite length_take, !length_app. lia.
Qed.
Lemma merkle_update_leaf_stages leaf img : 0 <= leaf -> stages (merkle_update_leaf io leaf img) any.
Proof.
  intros Hl. unfold merkle_update_leaf. eapply stages_bind; [apply stages_mfs|intros m _]. cbv zeta. destruct (no_tree m); [by stage|].
  destruct (_ =? 0); [by stage|]. eapply stages_bind; [apply merkle_carry_stages; [done|done|apply length_merkle_hash]|intros r _].
  destruct r; [|by stage]. eapply stages_bind; [by apply stages_upd_sb|intros _ _].
  eapply stages_bind; [apply superblock_block_stages|intros w Hw]. eapply stages_bind; [apply io_write_stages; [apply wf|done]|intros _ _]. by stage.
Qed.
Lemma meta_blk_nonneg l : mline_ok l -> 0 <= l.(ml_blk).
Proof. intros [[-> |?] _]; [done|lia]. Qed.
Lemma meta_cache_flush_line_stages i : stages (meta_cache_flush_line io i) any.
Proof.
  unfold meta_cache_flush_line. eapply stages_bind; [apply stages_mfs|intros m Hm]. destruct (no_meta m); [by stage|].
  eapply stages_bind; [apply stages_mline|intros l Hl]. destruct (Z.eqb_spec (ml_blk l) META_BLK_NONE); [by stage|]. rewrite Hm.
  eapply stages_bind; [apply io_write_stages; [|apply Hl]; apply wf; by destruct Hl as [[?|?] _]|intros ok _]. stage. mset.
  by apply merkle_update_leaf_stages, meta_blk_nonneg.
Qed.
#[local] Hint Resolve meta_cache_flush_line_stages : staging.
Lemma meta_cache_flush_all_stages : stages (meta_cache_flush_all io) any.
Proof. apply stages_each_ok. intros i. stage; eauto with staging. Qed.
Lemma meta_cache_get_stages blk : 0 <= blk -> stages (meta_cache_get io blk) any.
Proof.
  intros Hb. unfold meta_cache_get. eapply stages_bind; [apply stages_mfs|intros m Hm]. destruct (no_meta m); [by stage|]. rewrite Hm.
  destruct (Z.leb_spec (meta_blocks g) blk); [by stage|].
  eapply stages_bind; [by apply (stages_gets g_meta_cache any)|intros c _]. destruct (find_index _ 0 _) as [j|].
  { stage. mset. by stage. }
  eapply stages_bind with (P := any).
  { destruct (find_index _ 0 _); [by stage|]. eapply stages_bind; [apply stages_mline|intros l _].
    eapply stages_bind with (P := any); [destruct (ml_dirty l); stage; eauto with staging|intros ok _]. by stage. }
  intros ok _. destruct (negb ok); [by stage|]. stage. mset. stage; mset; [|by stage].
  eapply stages_bind; [by apply merkle_verify_leaf_stages|intros v _]. stage. mset. by stage.
Qed.
Lemma derive_stages ino b : stages (storage_derive_block_keys ino b) any.
Proof. unfold storage_derive_block_keys. by stage. Qed.
#[local] Hint Resolve derive_stages : staging.
Definition sized_res (r : bool * block) : Prop := sized r.2.
Lemma phys_blk phys : 0 <= phys -> 0 <= phys / META_ENTRIES_PER_BLOCK.
Proof. intros. apply Z.div_pos; [done|]. by vm_compute. Qed.
Lemma entry_sized img phys nonce tag :
  sized img -> length nonce = 12%nat -> length tag = 16%nat -> sized (splice img (entry_off phys) (nonce ++ tag ++ [1; 0; 0; 0])).
Proof.
  intros Hi Hn Ht. unfold entry_off. change META_ENTRIES_PER_BLOCK with 128. change META_ENTRY_SIZE with 32.
  pose proof (Z.mod_pos_bound phys 128 ltac:(lia)). apply splice_sized; [done|lia|].
  unfold zlen, BLOCK_SIZE. rewrite !length_app, Hn, Ht. cbn [length]. lia.
Qed.
Lemma storage_encrypt_block_stages phys ino b buf :
  0 <= phys -> sized buf -> stages (storage_encrypt_block io phys ino b buf) sized_res.
Proof.
  intros Hp Hb. unfold storage_encrypt_block. destruct (_ <=? phys); [by stage|]. stage.
  match goal with E : seal _ _ _ _ _ = (?c, ?tg) |- _ => rename c into ct, tg into tag, E into Es end.
  assert (sized ct /\ length tag = 16%nat) as [Hct Htag].
  { unfold seal in Es. injection Es as <- <-. split; [unfold sized; by rewrite length_chacha20_xor|apply length_compute_tag]. }
  eapply stages_bind; [by apply meta_cache_get_stages, phys_blk|intros r _]. stage.
  eapply stages_bind; [apply stages_set_mline; split; [apply H2|apply entry_sized; [apply H2|done|done]]|intros _ _]. by stage.
Qed.
Lemma open_sized ek mk nonce aad buf tag : sized buf -> sized_res (open ek mk nonce aad buf tag).
Proof.
  intros Hb. unfold sized_res, open. destruct (negb _); cbn [snd]; unfold sized; [by rewrite length_fmap|by rewrite length_chacha20_xor].
Qed.
Lemma storage_decrypt_block_stages phys ino b buf :
  0 <= phys -> sized buf -> stages (storage_decrypt_block io phys ino b buf) sized_res.
Proof.
  intros Hp Hb. pose proof zero_sized. unfold storage_decrypt_block. destruct (_ <=? phys); [by stage|]. stage.
  eapply stages_bind; [by apply meta_cache_get_stages, phys_blk|intros r _]. stage. by apply open_sized.
Qed.
Lemma span_open_stages phys buf : 0 <= phys -> sized buf -> stages (span_open io phys buf) sized_res.
Proof.
  intros Hp Hb. unfold span_open. eapply stages_bind; [by apply meta_cache_get_stages, phys_blk|intros r _]. stage.
  by apply storage_decrypt_block_stages.
Qed.

(** ** Blocks *)
Lemma span_leaf_stages b : stages (span_leaf b) (fun sp => forall leaf, sp = span_leaf_of leaf -> 0 <= leaf /\ 0 <= b).
Proof.
  unfold span_leaf. eapply stages_bind; [apply stages_mfs|intros m Hm]. destruct (mounted m); cbn [negb]; [|by stage]. rewrite Hm.
  unfold pm_leaf_of. destruct (Z.ltb_spec b (inode_bitmap_start g)); [by stage|]. cbn [orb]. destruct (_ <=? b); [by stage|].
  pose proof wf.(wg_count). pose proof wf.(wg_span). stage. intros leaf [= <-]. lia.
Qed.
Lemma staged_at_sized t b : staged_ok t.(t_staged) -> sized_opt (staged_at t b).
Proof.
  intros [_ HF] w. unfold staged_at. destruct (find _ _) as [p|] eqn:E; [|done]. intros [= <-]. apply find_some in E as [E _].
  apply list_elem_of_In in E. rewrite elem_of_reverse in E. rewrite Forall_forall in HF. by destruct (HF _ E).
Qed.
Lemma do_block_read_stages b : stages (do_block_read_with io b) sized_opt.
Proof.
  unfold do_block_read_with. stage. destruct H0 as [Ha Hst]. rewrite Ha.
  eapply stages_bind with (P := sized_opt).
  { destruct (staged_at _ b) as [w|] eqn:E; [|eauto with staging]. apply stages_ret. intros w' [= <-]. by apply (staged_at_sized _ _ Hst) in E. }
  intros r Hr. destruct r as [buf|]; [|by stage]. specialize (Hr _ eq_refl).
  assert (stages span_refused sized_opt) as Href by (unfold span_refused; by stage).
  eapply stages_bind; [apply span_leaf_stages|intros sp Hsp]. destruct sp as [| |leaf]; [apply stages_ret; by intros ? [= <-]|done|]. destruct (Hsp leaf eq_refl).
  eapply stages_bind with (P := any); [destruct (staged_at _ b); [by stage|by apply merkle_verify_leaf_stages]|intros ok _].
  destruct (negb ok); [done|]. eapply stages_bind; [by apply span_open_stages|intros rr Hrr]. stage; [done|]. by intros ? [= <-].
Qed.
Lemma stages_put_txn t : t.(t_active) = true -> staged_ok t.(t_staged) -> stages (modify (set_txn t)) any.
Proof. intros. by apply (stages_set_txn (fun _ => t)). Qed.
Lemma staged_ok_insert st i b w : staged_ok st -> home b -> sized w -> staged_ok (<[i := (b, w)]> st).
Proof. intros [Hl HF] Hb Hw. split; [unfold zlen in *; by rewrite length_insert|by apply Forall_insert]. Qed.
Lemma stage_slot_stages b buf : home b -> sized buf -> stages (stage_slot b buf) any.
Proof.
  intros Hb Hw. unfold stage_slot. eapply stages_bind; [apply stages_txn|intros t [Ha Hst]].
  destruct (list_find _ _) as [[i ?]|]; [|destruct (Z.leb_spec JOURNAL_DATA_MAX (zlen (t_staged t)))].
  - eapply stages_bind; [apply stages_put_txn; [done|by apply staged_ok_insert]|intros _ _; by stage].
  - eapply stages_bind; [by apply stages_put_txn|intros _ _; by stage].
  - eapply stages_bind; [apply stages_put_txn; [done|]|intros _ _; by stage]. destruct Hst as [_ HF]. split; cbn.
    + unfold zlen in *. rewrite length_app. cbn [length]. lia.
    + apply Forall_app. split; [done|]. by apply Forall_singleton.
Qed.
Lemma seal_staged_stages b leaf buf : home b -> 0 <= leaf -> sized buf -> stages (seal_staged io b leaf buf) any.
Proof.
  intros Hb Hl Hw. unfold seal_staged. eapply stages_bind; [by apply stage_slot_stages|intros [i|] _]; [|by stage].
  eapply stages_bind; [apply storage_encrypt_block_stages; [by destruct Hb as [[? _] _]|done]|intros r Hr].
  eapply stages_bind.
  { apply (stages_set_txn (fun t => mk_txn t.(t_active) t.(t_overflow) (<[i := (b, r.2)]> t.(t_staged)))).
    intros t Ha Hst. split; [done|]. by apply staged_ok_insert. }
  intros _ _. destruct (negb _); [by stage|]. by apply merkle_update_leaf_stages.
Qed.
Lemma do_block_write_stages b buf : home b -> sized buf -> stages (do_block_write_with io b buf) any.
Proof.
  intros Hb Hw. unfold do_block_write_with. stage. eapply stages_bind; [apply span_leaf_stages|intros sp Hsp].
  destruct sp as [| |leaf]; [|by stage|]; (eapply stages_bind; [apply stages_txn|intros t [Ha _]]); rewrite Ha; cbn [negb].
  - unfold stage_block. eapply stages_bind; [by apply stage_slot_stages|intros r _]. by stage.
  - eapply stages_bind; [by apply (stages_ret tt any)|intros _ _].
    eapply stages_bind; [apply seal_staged_stages; [done|by apply Hsp|done]|intros ok _]. destruct (negb ok); [|by stage].
    eapply stages_bind; [apply (stages_set_txn (fun t => mk_txn t.(t_active) true t.(t_staged))); auto|intros _ _; by stage].
Qed.
End layer.
(** However deep the knot is tied. *)
Lemma io_at_stages n :
  wf_geo -> (forall b, stages (io_read (io_at n) b) sized_opt) /\ (forall b w, home b -> sized w -> stages (io_write (io_at n) b w) any).
Proof.
  intros wf. induction n as [|n [IHr IHw]]; [split; intros; by apply stages_ret|]. split; intros; cbn.
  - by apply do_block_read_stages.
  - by apply do_block_write_stages.
Qed.

(** ** Beginning, aborting and committing *)
(** An operation that keeps the state well-formed. *)
Definition safe {A} (m : SM A) : Prop := forall s, ram_ok s -> ram_ok (m s).2.
Lemma safe_ret {A} (a : A) : safe (mret a).
Proof. intros s Hs. exact Hs. Qed.
Lemma safe_bind {A B} (m : SM A) (k : A -> SM B) : safe m -> (forall a, safe (k a)) -> safe (m ≫= k).
Proof. intros Hm Hk s Hs. specialize (Hm s Hs). unfold mbind, sm_bind. destruct (m s) as [a s1]. by apply Hk. Qed.
Lemma safe_modify f : (forall s, ram_ok s -> ram_ok (f s)) -> safe (modify f).
Proof. intros H s Hs. by apply H. Qed.
Lemma safe_each {A} (f : A -> SM unit) l : Forall (fun x => safe (f x)) l -> safe (each f l).
Proof. induction 1; [apply safe_ret|]. by apply safe_bind. Qed.
Lemma safe_all_ok {A} (f : A -> SM bool) l : Forall (fun x => safe (f x)) l -> safe (all_ok f l).
Proof. induction 1; [apply safe_ret|]. cbn [all_ok]. apply safe_bind; [done|]. intros []; [done|apply safe_ret]. Qed.
Lemma staged_nil_ok : staged_ok [].
Proof. split; [done|constructor]. Qed.
Lemma safe_put_txn t : t.(t_staged) = [] -> safe (modify (set_txn t)).
Proof. intros Ht. apply safe_modify. intros s []. split; try done. cbn. rewrite Ht. apply staged_nil_ok. Qed.
Lemma abort_kline l : kline_ok l -> kline_ok (if l.(kl_dirty) then mk_kl l.(kl_level) MERKLE_IDX_NONE l.(kl_stamp) false false l.(kl_img) else l).
Proof. intros [? ?]. destruct (kl_dirty l); [split; [by left|done]|by split]. Qed.
Lemma abort_mline l : mline_ok l -> mline_ok (if l.(ml_dirty) then mk_ml META_BLK_NONE l.(ml_stamp) false l.(ml_img) else l).
Proof. intros [? ?]. destruct (ml_dirty l); [split; [by left|done]|by split]. Qed.
Lemma abort_safe : safe journal_abort.
Proof.
  apply safe_bind; [by apply safe_put_txn|intros _]. apply safe_bind; [|intros _]; apply safe_modify; intros s []; split; try done; cbn;
    apply Forall_fmap; (eapply Forall_impl; [eassumption|]); [apply abort_mline|apply abort_kline].
Qed.
Lemma disk_write_ok d b w : disk_ok d -> sized w -> disk_ok (disk_write d b w).2.
Proof.
  intros [Hm Hc] Hw. destruct (disk_write d b w) as [r d'] eqn:E. apply disk_write_step in E as (_ & Em & Ec & _).
  unfold disk_ok. cbn. rewrite Em. split; [done|]. destruct Ec as [-> | ->]; [done|]. by constructor.
Qed.
Lemma disk_flush_ok d : disk_ok d -> disk_ok (disk_flush d).2.
Proof.
  intros Hd. destruct (disk_flush d) as [r d'] eqn:E. apply disk_flush_step in E as (_ & Es & _). unfold disk_ok. cbn.
  destruct Es as [[-> ->]|[-> ->]]; [done|]. split; [|constructor]. intros b. by apply latest_sized.
Qed.
Lemma safe_on_disk {A} (f : disk -> A * disk) : (forall d, disk_ok d -> disk_ok (f d).2) -> safe (on_disk f).
Proof. intros H s []. unfold on_disk. specialize (H (s_disk s)). destruct (f (s_disk s)) as [r d]. cbn in *. split; cbn; auto. Qed.
Lemma safe_raw_write b w : sized w -> safe (raw_block_write b w).
Proof.
  intros Hw. unfold raw_block_write. apply safe_bind.
  - apply safe_bind; [intros s Hs; exact Hs|]. intros d. destruct (0 <? d); [apply safe_ret|]. apply safe_bind; [|intros _; apply safe_ret]. by intros s [].
  - intros ok. destruct (negb ok); [apply safe_ret|]. apply safe_on_disk. intros d Hd. by apply disk_write_ok.
Qed.
Lemma safe_flush : safe raw_block_flush.
Proof. apply safe_on_disk, disk_flush_ok. Qed.
Lemma hdr_block_sized k sq st : zlen st <= JOURNAL_DATA_MAX -> sized (hdr_block (commit_header k sq st)).
Proof.
  intros Hl. unfold hdr_block. apply splice_sized; [apply zero_sized|lia|]. unfold zlen. by rewrite length_hdr_fields.
Qed.
Lemma abort_false_safe : safe (journal_abort;; mret false).
Proof. apply safe_bind; [apply abort_safe|intros _; apply safe_ret]. Qed.
Lemma safe_if_abort (ok : bool) (m : SM bool) : safe m -> safe (if negb ok then journal_abort;; mret false else m).
Proof. destruct ok; [done|]. intros _. apply abort_false_safe. Qed.
Lemma write_out_safe : safe journal_write_out.
Proof.
  intros s Hs. pose proof (ro_staged _ Hs) as [Hl HF]. unfold journal_write_out.
  rewrite (bind_run _ _ s s.(s_mfs) s), (bind_run _ _ s s.(s_txn) s) by done. cbv zeta.
  match goal with |- ram_ok (?m s).2 => assert (safe m) as Hm; [|by apply Hm] end.
  assert (Forall sized (t_staged (s_txn s)).*2) as Hsz by (apply Forall_fmap; eapply Forall_impl; [exact HF|by intros ? []]).
  apply safe_bind; [|intros ok; apply safe_if_abort].
  { apply safe_all_ok, Forall_forall. intros [i w] (j & x & [= -> ->] & Hj)%elem_of_lookup_imap_1. cbn. apply safe_raw_write.
    by eapply Forall_lookup_1. }
  apply safe_bind; [apply safe_flush|intros ok2; apply safe_if_abort]. apply safe_bind; [intros s' Hs'; exact Hs'|intros sq].
  apply safe_bind; [by apply safe_raw_write, hdr_block_sized|intros ok3; apply safe_if_abort].
  apply safe_bind; [apply safe_flush|intros ok4; apply safe_if_abort].
  apply safe_bind; [|intros _; apply safe_bind; [apply safe_flush|intros ok5]].
  { apply safe_each. eapply Forall_impl; [exact HF|]. intros p [_ Hp]. apply safe_bind; [by apply safe_raw_write|intros _; apply safe_ret]. }
  apply safe_bind; [destruct ok5; [|apply safe_ret]|intros _].
  { apply safe_bind; [apply safe_raw_write, zero_sized|intros _; apply safe_ret]. }
  apply safe_bind; [apply safe_modify; by intros s' []|intros _]. apply safe_bind; [by apply safe_put_txn|intros _; apply safe_ret].
Qed.
Lemma begin_ram s : ram_ok s -> ram_ok (journal_begin s).2 /\ ram_step strict s (journal_begin s).2.
Proof. intros Hs. split; [by apply safe_put_txn|]. by split; split_and!. Qed.
Lemma abort_ram s : ram_ok s -> ram_ok (journal_abort s).2 /\ ram_step strict s (journal_abort s).2.
Proof. intros Hs. split; [by apply abort_safe|]. by split; split_and!. Qed.
(** The state a commit writes out: with both caches flushed into the transaction. *)
Definition gathered (io : blockio) (s : store) : store := (merkle_flush_all io (meta_cache_flush_all io s).2).2.
Definition commit_of (io : blockio) (s : store) : Z * list (Z * block) :=
  ((gathered io s).(g_journal_seq), (gathered io s).(s_txn).(t_staged)).
Lemma commit_cases n s r s' :
  wf_geo -> ram_ok s -> s.(s_txn).(t_active) = true -> journal_commit (io_at n) s = (r, s') ->
  ram_ok s' /\
  (r = false /\ ram_step strict s s'
   \/ r = true /\ (commit_of (io_at n) s).2 = [] /\ ram_step strict s s'
   \/ ram_step strict s (gathered (io_at n) s) /\ ram_ok (gathered (io_at n) s) /\ (commit_of (io_at n) s).2 <> []
      /\ journal_write_out (gathered (io_at n) s) = (r, s')).
Proof.
  intros wf Hs Ha. destruct (io_at_stages n wf) as [Hr Hw]. unfold commit_of, gathered, journal_commit.
  assert (forall s1 r s', ram_ok s1 -> ram_step strict s s1 -> (journal_abort;; mret false) s1 = (r, s') ->
    ram_ok s' /\ r = false /\ ram_step strict s s') as Habort.
  { intros s1 r1 s1' H1 H2 [= <- <-]. destruct (abort_ram s1 H1) as [? ?]. split_and!; [done|done|by etransitivity]. }
  rewrite (bind_run _ _ s s.(s_mfs) s) by done. destruct (negb _ || _); [intros (? & ? & ?)%Habort; [by auto|done|reflexivity]|].
  rewrite (bind_run _ _ s s.(s_txn) s) by done. destruct (t_overflow _); [intros (? & ? & ?)%Habort; [by auto|done|reflexivity]|].
  destruct (meta_cache_flush_all_stages wf _ Hr Hw s Hs Ha) as (H1 & Ha1 & R1 & _).
  destruct (meta_cache_flush_all (io_at n) s) as [ok1 s1] eqn:E1. cbn [fst snd] in *. rewrite (bind_run _ _ _ _ _ E1).
  destruct ok1; cbn [negb]; [|intros (? & ? & ?)%Habort; [by auto|done|done]].
  destruct (merkle_flush_all_stages wf _ Hw s1 H1 Ha1) as (H2 & Ha2 & R2 & _).
  destruct (merkle_flush_all (io_at n) s1) as [ok2 s2] eqn:E2. cbn [fst snd] in *. rewrite (bind_run _ _ _ _ _ E2).
  assert (ram_step strict s s2) as R by (by etransitivity).
  destruct ok2; cbn [negb]; [|intros (? & ? & ?)%Habort; [by auto|done|done]].
  rewrite (bind_run _ _ s2 s2.(s_txn) s2) by done. destruct (t_staged (s_txn s2)) as [|p st] eqn:Est; intros E.
  - injection E as <- <-. split; [destruct H2; by split|]. right. left. split_and!; [done|done|]. etransitivity; [exact R|]. by split; split_and!.
  - split; [pose proof (write_out_safe s2 H2) as Hsafe; by rewrite E in Hsafe|]. right. right. by split_and!.
Qed.
End staging.

(** ** Sessions *)
(** Block operations on a mounted volume, from [s0]: the transactions that
    committed, oldest first, and those that did not. *)
Inductive session (g : geometry) (s0 : store) : list (Z * list (Z * block)) -> list (Z * list (Z * block)) -> store -> Prop :=
| S_start : session g s0 [] [] s0
| S_begin cs fs s s' : session g s0 cs fs s -> journal_begin s = (tt, s') -> session g s0 cs fs s'
| S_read cs fs s b r s' : session g s0 cs fs s -> s.(s_txn).(t_active) = true -> do_block_read b s = (r, s') -> session g s0 cs fs s'
| S_write cs fs s b w r s' :
    session g s0 cs fs s -> s.(s_txn).(t_active) = true -> home g b -> sized w -> do_block_write b w s = (r, s') -> session g s0 cs fs s'
| S_abort cs fs s s' : session g s0 cs fs s -> journal_abort s = (tt, s') -> session g s0 cs fs s'
| S_commit cs fs s s' :
    session g s0 cs fs s -> s.(s_txn).(t_active) = true -> journal_commit store_io s = (true, s') ->
    session g s0 (cs ++ [commit_of store_io s]) fs s'
| S_fail cs fs s s' :
    session g s0 cs fs s -> s.(s_txn).(t_active) = true -> journal_commit store_io s = (false, s') ->
    session g s0 cs (commit_of store_io s :: fs) s'.

Lemma hist_more g key strict h cs fs e s :
  hist_inv g key strict h cs fs s -> hist_inv g key strict h cs (e :: fs) s.
Proof.
  intros [Hv [(H & Hj & HH & Hab)|Hc]]; (split; [done|]); [left|by right]. exists H. split_and!; [done|done|].
  intros e' [?|?]%Hab; [left; by right|by right].
Qed.
Lemma hist_empty g key strict h cs fs e s :
  e.2 = [] -> hist_inv g key strict h cs fs s -> hist_inv g key strict h (cs ++ [e]) fs s.
Proof.
  intros He [Hv Hcase]. split; [done|]. rewrite applied_snoc, He. cbn [apply_all].
  destruct Hcase as [(H & Hj & HH & Hab)|Hc]; [left|by right]. exists H. split_and!; [done|done|].
  intros e' [?|[? ?]]%Hab; [by left|right; split; [|done]]. apply elem_of_app. by left.
Qed.
Lemma commit_txn_ok g s :
  0 <= s.(g_journal_seq) < 2 ^ 64 -> staged_ok g s.(s_txn).(t_staged) -> s.(s_txn).(t_staged) <> [] ->
  txn_ok g (s.(g_journal_seq), s.(s_txn).(t_staged)).
Proof.
  intros Hs [Hl HF] Hn. split; [done|]. split; cbn [fst snd].
  - split; [|done]. destruct (t_staged (s_txn s)); [done|]. unfold zlen. cbn [length]. lia.
  - eapply Forall_impl; [exact HF|]. intros p [[? ?] ?]. by auto.
Qed.
Section atomicity.
Context (g : geometry) (key : list Z) (h : contents) (s0 : store).
Definition session_ok (cs fs : list (Z * list (Z * block))) (s : store) : Prop := ram_ok g s /\ hist_inv g key True h cs fs s.
Lemma ram_ok_step cs fs s s' : session_ok cs fs s -> ram_ok g s' -> ram_step True s s' -> session_ok cs fs s'.
Proof. intros [_ Hi] Hr Hs. split; [done|]. by eapply ram_inv. Qed.
Lemma stages_step {A} (m : SM A) Q cs fs s a s' :
  stages g True m Q -> session_ok cs fs s -> s.(s_txn).(t_active) = true -> m s = (a, s') -> session_ok cs fs s'.
Proof. intros Hm Hs Ha E. destruct (Hm s (proj1 Hs) Ha) as (? & _ & ? & _). rewrite E in *. by eapply ram_ok_step. Qed.
Lemma commit_step cs fs s r s' :
  wf_geo g -> session_ok cs fs s -> s.(s_txn).(t_active) = true -> journal_commit store_io s = (r, s') ->
  let e := commit_of store_io s in session_ok (if r then cs ++ [e] else cs) (if r then fs else e :: fs) s'.
Proof.
  intros wf Hs Ha E e. destruct (commit_cases g True 1 s r s' wf (proj1 Hs) Ha E) as [Hr [[-> Hst]|[(-> & He & Hst)|(Hst & Hg & He & Ew)]]].
  - split; [done|]. apply hist_more. by destruct (ram_ok_step cs fs s s').
  - split; [done|]. apply hist_empty; [done|]. by destruct (ram_ok_step cs fs s s').
  - split; [done|]. destruct (ram_ok_step cs fs s (gathered store_io s) Hs Hg Hst) as [_ Hi].
    apply (write_out_inv g key True h cs fs (gathered store_io s) r s'); [done|done| |done].
    apply commit_txn_ok; [by destruct Hi as [(_ & _ & _ & _ & _ & ?) _]|apply Hg|done].
Qed.
Lemma session_inv cs fs s :
  wf_geo g -> vol_ready g key True s0 -> ram_ok g s0 -> jdisk g key h [] s0.(s_disk) -> session g s0 cs fs s -> session_ok cs fs s.
Proof.
  intros wf Hv Hr Hj. destruct (io_at_stages g True 1 wf) as [HR HW].
  induction 1 as [|cs fs s s' _ IH E|cs fs s b r s' _ IH Ha E|cs fs s b w r s' _ IH Ha Hb Hw E|cs fs s s' _ IH E|cs fs s s' _ IH Ha E|cs fs s s' _ IH Ha E].
  - split; [done|]. split; [done|]. left. exists []. split_and!; [done|done|]. by intros ? ?%elem_of_nil.
  - destruct (begin_ram g True s (proj1 IH)). rewrite E in *. by eapply ram_ok_step.
  - eapply stages_step; [by apply do_block_read_stages|done|done|exact E].
  - eapply stages_step; [by apply do_block_write_stages|done|done|exact E].
  - destruct (abort_ram g True s (proj1 IH)). rewrite E in *. by eapply ram_ok_step.
  - by apply (commit_step cs fs s true s' wf IH Ha E).
  - by apply (commit_step cs fs s false s' wf IH Ha E).
Qed.
End atomicity.
