(* ===== verification/Knot.v ===== *)
(** The recursion of the block layer ends at its second level (storage.c): on a volume
    whose tree, nonce region and superblock lie outside the sealed span, everything the
    metadata layer reads and writes for a block is outside the span, so tying the knot
    deeper than [store_io] does changes nothing. *)
From S2P Require Import Prelude Sha256 Aead Disk Super Store Journal Tree Staging.

Section knot.
Context (g : geometry).
(** The metadata's own blocks are not sealed. *)
Record plain_metadata : Prop := {
  pm_super : pm_leaf_of g 0 = None;
  pm_meta : forall i, 0 <= i < g.(meta_blocks) -> pm_leaf_of g (g.(meta_start) + i) = None;
  pm_nodes : forall l i, tree_node g l i -> pm_leaf_of g (merkle_level_base g l + i) = None;
  pm_count : 0 <= g.(meta_blocks);
  pm_span : 0 <= g.(inode_bitmap_start)
}.
Definition kline_in (l : merkle_line) : Prop := l.(kl_index) = MERKLE_IDX_NONE \/ tree_node g l.(kl_level) l.(kl_index).
Definition mline_in (l : meta_cache_line) : Prop := l.(ml_blk) = META_BLK_NONE \/ 0 <= l.(ml_blk) < g.(meta_blocks).
Record lines_ok (s : store) : Prop := {
  lo_geo : s.(s_mfs).(sb).(geo) = g;
  lo_nodes : Forall kline_in s.(g_merkle_cache);
  lo_meta : Forall mline_in s.(g_meta_cache)
}.

(** Two operations that do the same on such states. *)
Definition same {A} (m m' : SM A) (Q : A -> Prop) : Prop :=
  forall s, lines_ok s -> m s = m' s /\ lines_ok (m s).2 /\ Q (m s).1.
Lemma same_ret {A} (a : A) (Q : A -> Prop) : Q a -> same (mret a) (mret a) Q.
Proof. by intros H s Hs. Qed.
Lemma same_bind {A B} (m m' : SM A) (k k' : A -> SM B) P Q :
  same m m' P -> (forall a, P a -> same (k a) (k' a) Q) -> same (m ≫= k) (m' ≫= k') Q.
Proof.
  intros Hm Hk s Hs. destruct (Hm s Hs) as (E & H1 & H2). unfold mbind, sm_bind. rewrite <- E. destruct (m s) as [a s1]. by apply Hk.
Qed.
Lemma same_gets {A} (f : store -> A) (Q : A -> Prop) : (forall s, lines_ok s -> Q (f s)) -> same (gets f) (gets f) Q.
Proof. intros H s Hs. split_and!; [done|apply Hs..|by apply H]. Qed.
(** An operation that leaves geometry and caches alone. *)
Lemma same_frame {A} (m : SM A) :
  (forall s, (m s).2.(s_mfs) = s.(s_mfs) /\ (m s).2.(g_merkle_cache) = s.(g_merkle_cache) /\ (m s).2.(g_meta_cache) = s.(g_meta_cache)) -> same m m any.
Proof. intros H s []. destruct (H s) as (E1 & E2 & E3). split; [done|]. split; [|done]. split; by rewrite ?E1, ?E2, ?E3. Qed.
Lemma same_modify f : (forall s, lines_ok s -> lines_ok (f s)) -> same (modify f) (modify f) any.
Proof. intros H s Hs. split; [done|]. split; [by apply H|done]. Qed.
Lemma same_kline i : same (kline i) (kline i) kline_in.
Proof. apply same_gets. intros s []. by apply Forall_zget; [left|]. Qed.
Lemma same_mline i : same (mline i) (mline i) mline_in.
Proof. apply same_gets. intros s []. by apply Forall_zget; [left|]. Qed.
Lemma same_set_kline i l : kline_in l -> same (set_kline i l) (set_kline i l) any.
Proof. intros Hl. apply same_modify. intros s []. split; cbn; auto using Forall_zset. Qed.
Lemma same_set_mline i l : mline_in l -> same (set_mline i l) (set_mline i l) any.
Proof. intros Hl. apply same_modify. intros s []. split; cbn; auto using Forall_zset. Qed.
Lemma same_count f : same (count f) (count f) any.
Proof. by apply same_frame. Qed.
Lemma same_mfs : same mfs_of mfs_of (fun m => m.(sb).(geo) = g).
Proof. apply same_gets. by intros s []. Qed.
Lemma same_txn : same (gets s_txn) (gets s_txn) any.
Proof. by apply same_gets. Qed.
Lemma same_random n : same (secure_random_bytes n) (secure_random_bytes n) any.
Proof. by apply same_frame. Qed.
Lemma same_set_txn f : same (modify (fun s => set_txn (f s) s)) (modify (fun s => set_txn (f s) s)) any.
Proof. by apply same_frame. Qed.
Lemma same_upd_sb f : (forall b, (f b).(geo) = b.(geo)) -> same (upd_sb f) (upd_sb f) any.
Proof. intros Hf. apply same_modify. intros s []. split; cbn; by rewrite ?Hf. Qed.
Lemma same_permitted : same storage_io_permitted storage_io_permitted any.
Proof. apply same_frame. intros s. unfold storage_io_permitted, mbind, sm_bind, gets. by destruct (0 <? op_depth s). Qed.
Lemma same_on_disk {A} (f : disk -> A * disk) : same (on_disk f) (on_disk f) any.
Proof. apply same_frame. intros s. unfold on_disk. by destruct (f (s_disk s)). Qed.
Lemma same_raw_read b : same (raw_block_read b) (raw_block_read b) any.
Proof. eapply same_bind; [apply same_permitted|intros ok _]. destruct (negb ok); [by apply same_ret|apply same_on_disk]. Qed.
Lemma same_raw_write b w : same (raw_block_write b w) (raw_block_write b w) any.
Proof. eapply same_bind; [apply same_permitted|intros ok _]. destruct (negb ok); [by apply same_ret|apply same_on_disk]. Qed.
Lemma same_flush : same raw_block_flush raw_block_flush any.
Proof. apply same_on_disk. Qed.
Lemma same_each {A} (f f' : A -> SM unit) l : (forall x, same (f x) (f' x) any) -> same (each f l) (each f' l) any.
Proof. intros H. induction l as [|x l IH]; [by apply same_ret|]. by eapply same_bind; [apply H|intros _ _]. Qed.
Lemma same_all_ok {A} (f f' : A -> SM bool) l : (forall x, same (f x) (f' x) any) -> same (all_ok f l) (all_ok f' l) any.
Proof. intros H. induction l as [|x l IH]; [by apply same_ret|]. cbn. eapply same_bind; [apply H|intros [] _]; [done|by apply same_ret]. Qed.
Lemma same_each_ok {A} (f f' : A -> SM bool) l : (forall x, same (f x) (f' x) any) -> same (each_ok f l) (each_ok f' l) any.
Proof.
  intros H. induction l as [|x l IH]; [by apply same_ret|]. cbn. eapply same_bind; [apply H|intros ok _].
  eapply same_bind; [apply IH|intros rest _]. by apply same_ret.
Qed.

(** ** The metadata layer over two ways to reach the blocks *)
Section layers.
Context (pm : plain_metadata) (io io' : blockio).
Hypothesis read_same : forall b, pm_leaf_of g b = None -> same (io.(io_read) b) (io'.(io_read) b) any.
Hypothesis write_same : forall b w, pm_leaf_of g b = None -> same (io.(io_write) b w) (io'.(io_write) b w) any.
#[local] Hint Resolve same_kline same_mline same_count same_mfs same_txn same_random same_permitted same_raw_read same_raw_write
  same_flush same_set_txn : staging.
Ltac go :=
  repeat (cbv beta zeta; lazymatch goal with
  | |- same (mret _) _ _ => apply same_ret; try done
  | |- same (_ ≫= _) _ _ => eapply same_bind; [solve [eauto with staging]|intros ? ?]
  | |- same (if ?b then _ else _) _ _ => destruct b eqn:?
  | |- same (match ?x with _ => _ end) _ _ => destruct x eqn:?
  end).
Ltac kset := eapply same_bind; [apply same_set_kline; first [by left|by right|done]|intros _ _].
Ltac mset := eapply same_bind; [apply same_set_mline; first [by left|by right|done]|intros _ _].
Lemma merkle_flush_line_same i : same (merkle_flush_line io i) (merkle_flush_line io' i) any.
Proof.
  unfold merkle_flush_line. go. destruct H0 as [?|Hn]; [lia|]. rewrite H.
  eapply same_bind; [by apply write_same, pm|intros ok _]. go. kset. by go.
Qed.
Lemma merkle_tick_same : same merkle_tick merkle_tick any.
Proof. eapply same_bind; [by apply same_frame|intros _ _; by apply same_gets]. Qed.
Lemma meta_tick_same : same meta_tick meta_tick any.
Proof. eapply same_bind; [by apply same_frame|intros _ _; by apply same_gets]. Qed.
#[local] Hint Resolve merkle_flush_line_same merkle_tick_same meta_tick_same : staging.
Lemma merkle_flush_all_same : same (merkle_flush_all io) (merkle_flush_all io') any.
Proof. apply same_each_ok. intros i. go; eauto with staging. Qed.
Lemma merkle_line_for_same l i : tree_node g l i -> same (merkle_line_for io l i) (merkle_line_for io' l i) any.
Proof.
  intros Hn. unfold merkle_line_for. eapply same_bind; [apply same_mfs|intros m Hm]. destruct (no_tree m); [by go|].
  eapply same_bind; [by apply (same_gets g_merkle_cache any)|intros c _]. destruct (find_index _ 0 _) as [j|]; [go; kset; by go|].
  eapply same_bind with (P := any).
  { destruct (find_index _ 0 _); [by go|]. eapply same_bind; [apply same_kline|intros line _].
    eapply same_bind with (P := any); [destruct (kl_dirty line); [eauto with staging|by go]|intros ok _]. by go. }
  intros ok _. destruct (negb ok); [by go|]. go. kset. rewrite Hm. eapply same_bind; [by apply read_same, pm|intros r _]. go; kset; by go.
Qed.
Lemma node_checked_same m levels l i p j : same (node_checked m levels l i p j) (node_checked m levels l i p j) any.
Proof. unfold node_checked. go. kset. by go. Qed.
#[local] Hint Resolve node_checked_same : staging.
Lemma merkle_walk_same m levels l i n p :
  tree_node g l i -> l + Z.of_nat n <= zlen (tree_counts g) -> same (merkle_walk io m levels l i n p) (merkle_walk io' m levels l i n p) any.
Proof.
  intros Hn. revert p. induction n as [|n IH]; intros p Hle; [by go|]. cbn [merkle_walk].
  eapply same_bind; [apply merkle_line_for_same, node_ancestor; [done|lia]|intros r _]. go. apply IH. lia.
Qed.
Lemma merkle_node_same l i : 0 <= l -> 0 <= i -> same (merkle_node io l i) (merkle_node io' l i) any.
Proof.
  intros Hl Hi. unfold merkle_node. eapply same_bind; [apply same_mfs|intros m ->]. cbv zeta. destruct (no_tree m); [by go|].
  destruct (Z.eqb_spec (zlen (tree_counts g)) 0), (Z.leb_spec (zlen (tree_counts g)) l), (Z.leb_spec (zget 0 (tree_counts g) l) i); cbn [orb];
    try (lazymatch goal with |- same (mret _) _ _ => by go end).
  apply merkle_walk_same; [by split|lia].
Qed.
Lemma merkle_verify_leaf_same leaf img : 0 <= leaf -> same (merkle_verify_leaf io leaf img) (merkle_verify_leaf io' leaf img) any.
Proof.
  intros Hl. unfold merkle_verify_leaf. go. eapply same_bind; [apply merkle_node_same; [done|]|intros r _; by go].
  rewrite fanout_128. apply Z.div_pos; lia.
Qed.
Lemma merkle_carry_same m levels l n idx h :
  0 <= l -> 0 <= idx -> same (merkle_carry io m levels l n idx h) (merkle_carry io' m levels l n idx h) any.
Proof.
  revert l idx h. induction n as [|n IH]; intros l idx h Hl Hi; [by go|]. cbn [merkle_carry]. rewrite fanout_128.
  pose proof (Z.div_pos idx 128 Hi ltac:(lia)). eapply same_bind; [by apply merkle_node_same|intros [i|] _]; go. kset. apply IH; lia.
Qed.
Lemma merkle_update_leaf_same leaf img : 0 <= leaf -> same (merkle_update_leaf io leaf img) (merkle_update_leaf io' leaf img) any.
Proof.
  intros Hl. unfold merkle_update_leaf. eapply same_bind; [apply same_mfs|intros m _]. cbv zeta. destruct (no_tree m); [by go|].
  destruct (_ =? 0); [by go|]. eapply same_bind; [by apply merkle_carry_same|intros r _]. destruct r; [|by go].
  eapply same_bind; [by apply same_upd_sb|intros _ _]. eapply same_bind; [by apply (same_gets _ any)|intros w _].
  eapply same_bind; [apply write_same, pm|intros _ _]. by go.
Qed.
Lemma mline_nonneg l : mline_in l -> 0 <= l.(ml_blk).
Proof. intros [-> |?]; [done|lia]. Qed.
Lemma meta_cache_flush_line_same i : same (meta_cache_flush_line io i) (meta_cache_flush_line io' i) any.
Proof.
  unfold meta_cache_flush_line. eapply same_bind; [apply same_mfs|intros m Hm]. destruct (no_meta m); [by go|].
  eapply same_bind; [apply same_mline|intros l Hl]. destruct (Z.eqb_spec (ml_blk l) META_BLK_NONE); [by go|]. rewrite Hm.
  eapply same_bind; [apply write_same; apply pm; by destruct Hl|intros ok _]. go. mset. by apply merkle_update_leaf_same, mline_nonneg.
Qed.
#[local] Hint Resolve meta_cache_flush_line_same : staging.
Lemma meta_cache_flush_all_same : same (meta_cache_flush_all io) (meta_cache_flush_all io') any.
Proof. apply same_each_ok. intros i. go; eauto with staging. Qed.
Lemma meta_cache_get_same blk : 0 <= blk -> same (meta_cache_get io blk) (meta_cache_get io' blk) any.
Proof.
  intros Hb. unfold meta_cache_get. eapply same_bind; [apply same_mfs|intros m Hm]. destruct (no_meta m); [by go|]. rewrite Hm.
  destruct (Z.leb_spec (meta_blocks g) blk); [by go|].
  eapply same_bind; [by apply (same_gets g_meta_cache any)|intros c _]. destruct (find_index _ 0 _) as [j|]; [go; mset; by go|].
  eapply same_bind with (P := any).
  { destruct (find_index _ 0 _); [by go|]. eapply same_bind; [apply same_mline|intros l _].
    eapply same_bind with (P := any); [destruct (ml_dirty l); go; eauto with staging|intros ok _]. by go. }
  intros ok _. destruct (negb ok); [by go|]. go. mset. eapply same_bind; [by apply read_same, pm|intros r _]. go; mset; [|by go].
  eapply same_bind; [by apply merkle_verify_leaf_same|intros v _]. go. mset. by go.
Qed.
Lemma derive_same ino b : same (storage_derive_block_keys ino b) (storage_derive_block_keys ino b) any.
Proof. unfold storage_derive_block_keys. by go. Qed.
#[local] Hint Resolve derive_same : staging.
Lemma storage_encrypt_block_same phys ino b buf :
  0 <= phys -> same (storage_encrypt_block io phys ino b buf) (storage_encrypt_block io' phys ino b buf) any.
Proof.
  intros Hp. unfold storage_encrypt_block. destruct (_ <=? phys); [by go|]. go.
  eapply same_bind; [by apply meta_cache_get_same, phys_blk|intros r _]. go. mset. by go.
Qed.
Lemma storage_decrypt_block_same phys ino b buf :
  0 <= phys -> same (storage_decrypt_block io phys ino b buf) (storage_decrypt_block io' phys ino b buf) any.
Proof.
  intros Hp. unfold storage_decrypt_block. destruct (_ <=? phys); [by go|]. go.
  eapply same_bind; [by apply meta_cache_get_same, phys_blk|intros r _]. by go.
Qed.
Lemma span_open_same phys buf : 0 <= phys -> same (span_open io phys buf) (span_open io' phys buf) any.
Proof.
  intros Hp. unfold span_open. eapply same_bind; [by apply meta_cache_get_same, phys_blk|intros r _]. go. by apply storage_decrypt_block_same.
Qed.
Lemma span_leaf_same b : same (span_leaf b) (span_leaf b) (fun sp =>
  (pm_leaf_of g b = None -> sp = span_no) /\ forall leaf, sp = span_leaf_of leaf -> 0 <= leaf /\ 0 <= b).
Proof.
  unfold span_leaf. eapply same_bind; [apply same_mfs|intros m Hm]. destruct (mounted m); cbn [negb]; [|by go]. rewrite Hm.
  unfold pm_leaf_of. destruct (Z.ltb_spec b (inode_bitmap_start g)); [by go|]. cbn [orb]. destruct (_ <=? b); [by go|].
  pose proof pm.(pm_count). pose proof pm.(pm_span). go; split; try done. intros leaf [= <-]. lia.
Qed.
Lemma same_refused : same span_refused span_refused any.
Proof. unfold span_refused. by go. Qed.
Lemma do_block_read_same b : same (do_block_read_with io b) (do_block_read_with io' b) any.
Proof.
  unfold do_block_read_with. go. eapply same_bind with (P := any).
  { repeat case_match; by go || apply same_raw_read. }
  intros r _. destruct r as [buf|]; [|by go]. eapply same_bind; [apply span_leaf_same|intros sp [_ Hsp]].
  destruct sp as [| |leaf]; [by go|apply same_refused|]. destruct (Hsp leaf eq_refl).
  eapply same_bind with (P := any); [repeat case_match; lazymatch goal with |- same (mret _) _ _ => by go | _ => by apply merkle_verify_leaf_same end|intros ok _].
  destruct (negb ok); [apply same_refused|]. eapply same_bind; [by apply span_open_same|intros rr _]. go. apply same_refused.
Qed.
Lemma journal_abort_same : same journal_abort journal_abort any.
Proof.
  eapply same_bind; [by apply same_frame|intros _ _]. eapply same_bind; [|intros _ _]; apply same_modify; intros s []; split; try done; cbn;
    apply Forall_fmap; (eapply Forall_impl; [eassumption|]); intros l Hl; cbn; [destruct (ml_dirty l)|destruct (kl_dirty l)]; first [by left|done].
Qed.
#[local] Hint Resolve journal_abort_same : staging.
Lemma journal_write_out_same : same journal_write_out journal_write_out any.
Proof.
  unfold journal_write_out. go. eapply same_bind; [apply same_all_ok; intros x; apply same_raw_write|intros ok _]. go.
  eapply same_bind; [by apply (same_gets g_journal_seq any)|intros sq _]. go.
  eapply same_bind; [apply same_each; intros x; by go|intros _ _]. eapply same_bind; [apply same_flush|intros ok5 _].
  eapply same_bind with (P := any); [destruct ok5; by go|intros _ _]. repeat (eapply same_bind; [by apply same_frame|intros _ _]). by go.
Qed.
Lemma journal_commit_same : same (journal_commit io) (journal_commit io') any.
Proof.
  unfold journal_commit. go. eapply same_bind; [apply meta_cache_flush_all_same|intros ok _]. go.
  eapply same_bind; [apply merkle_flush_all_same|intros ok' _]. go. apply journal_write_out_same.
Qed.
Lemma stage_slot_same b buf : same (stage_slot b buf) (stage_slot b buf) any.
Proof. unfold stage_slot. by go. Qed.
Lemma seal_staged_same b leaf buf : 0 <= b -> 0 <= leaf -> same (seal_staged io b leaf buf) (seal_staged io' b leaf buf) any.
Proof.
  intros Hb Hl. unfold seal_staged. eapply same_bind; [apply stage_slot_same|intros [i|] _]; [|by go].
  eapply same_bind; [by apply storage_encrypt_block_same|intros r _]. eapply same_bind; [by apply same_frame|intros _ _].
  destruct (negb _); [by go|]. by apply merkle_update_leaf_same.
Qed.
Lemma do_block_write_same b buf : same (do_block_write_with io b buf) (do_block_write_with io' b buf) any.
Proof.
  unfold do_block_write_with. go. eapply same_bind; [apply span_leaf_same|intros sp [_ Hsp]].
  destruct sp as [| |leaf]; [|by go|]; (eapply same_bind; [apply same_txn|intros t _]).
  - destruct (t_active t); [|apply same_raw_write]. eapply same_bind; [apply stage_slot_same|intros r _]. by go.
  - destruct (Hsp leaf eq_refl). eapply same_bind with (P := any); [destruct (t_active t); [by go|by apply same_frame]|intros _ _].
    eapply same_bind; [by apply seal_staged_same|intros ok _]. destruct (negb ok), (t_active t); cbn [negb].
    + eapply same_bind; [by apply same_frame|intros _ _]. by go.
    + go.
    + by go.
    + apply journal_commit_same.
Qed.
End layers.
(** Outside the span a block does not involve the metadata. *)
Lemma do_block_read_plain io io' b : plain_metadata -> pm_leaf_of g b = None -> same (do_block_read_with io b) (do_block_read_with io' b) any.
Proof.
  intros pm Hb. unfold do_block_read_with. eapply same_bind; [apply same_permitted|intros ok _]. destruct (negb ok); [by apply same_ret|].
  eapply same_bind; [apply same_txn|intros t _]. cbv zeta.
  eapply same_bind with (P := any); [destruct (if t_active t then _ else _); [by apply same_ret|apply same_raw_read]|intros r _].
  destruct r; [|by apply same_ret]. eapply same_bind; [by apply span_leaf_same|intros sp [Hsp _]]. rewrite (Hsp Hb). by apply same_ret.
Qed.
Lemma do_block_write_plain io io' b w : plain_metadata -> pm_leaf_of g b = None -> same (do_block_write_with io b w) (do_block_write_with io' b w) any.
Proof.
  intros pm Hb. unfold do_block_write_with. eapply same_bind; [apply same_permitted|intros ok _]. destruct (negb ok); [by apply same_ret|].
  eapply same_bind; [by apply span_leaf_same|intros sp [Hsp _]]. rewrite (Hsp Hb). eapply same_bind; [apply same_txn|intros t _].
  destruct (t_active t); [|apply same_raw_write]. eapply same_bind; [apply stage_slot_same|intros r _]. by apply same_ret.
Qed.
End knot.
