(* ===== verification/Merkle.v ===== *)
(** The Merkle tree authenticates the metadata (storage.c): what [merkle_verify_leaf]
    accepts is what [merkle_update_leaf] recorded last, whatever the device holds and
    whatever the node cache evicts, or HMAC-SHA256 collides on a pair that is named. *)
From S2P Require Import Prelude Sha256 Aead Disk Super Store Journal Tree Staging Knot.

(** ** Slots of a node *)
Lemma slot_bound i : 0 <= i mod 128 < 128.
Proof. apply Z.mod_pos_bound. lia. Qed.
Lemma slot_set_same img i h : sized img -> length h = 32%nat -> slot_of (set_slot img i h) i = h.
Proof.
  unfold sized, slot_of, set_slot, splice. rewrite fanout_128. intros Hi Hh. pose proof (slot_bound i).
  rewrite drop_app_length' by (rewrite length_take, Hi; unfold BLOCK_SIZE; lia). by rewrite take_app_length' by done.
Qed.
Lemma splice_lookup_out (w : list Z) a data k :
  (a + length data <= length w)%nat -> (k < a \/ a + length data <= k)%nat -> splice w (Z.of_nat a) data !! k = w !! k.
Proof.
  intros Hl Hk. unfold splice. rewrite Nat2Z.id. assert (length (take a w) = a) as Ht by (rewrite length_take; lia).
  destruct Hk as [Hk|Hk]; [by rewrite lookup_app_l, lookup_take_lt by lia|].
  rewrite !lookup_app_r by lia. rewrite lookup_drop. f_equal. lia.
Qed.
Lemma slot_set_other img i j h :
  sized img -> length h = 32%nat -> i mod 128 <> j mod 128 -> slot_of (set_slot img i h) j = slot_of img j.
Proof.
  unfold sized, slot_of, set_slot. rewrite fanout_128. intros Hi Hh Hne. pose proof (slot_bound i). pose proof (slot_bound j).
  apply list_eq. intros k. destruct (decide (k < 32)%nat); [|by rewrite !lookup_take_ge by lia].
  rewrite !lookup_take_lt, !lookup_drop by lia. replace (i mod 128 * 32) with (Z.of_nat (Z.to_nat (i mod 128 * 32))) by lia.
  generalize dependent (i mod 128). generalize dependent (j mod 128). intros jj ? ii ? ?.
  apply splice_lookup_out; rewrite Hh, ?Hi; change (Z.to_nat BLOCK_SIZE) with 4096%nat; lia.
Qed.

(** ** The lines of the node cache *)
Definition line (s : store) (i : Z) : merkle_line := zget kl_none s.(g_merkle_cache) i.
Definition used (l : merkle_line) : Prop := l.(kl_index) <> MERKLE_IDX_NONE.
Lemma zset_zset {A} (l : list A) i x y : zset (zset l i x) i y = zset l i y.
Proof. unfold zset. destruct (i <? 0); [done|]. by rewrite list_insert_insert_eq. Qed.
(** The victim carries the smallest stamp. *)
Lemma oldest_cons {A} (stamp : A -> Z) x y l :
  oldest stamp (x :: y :: l)
  = match (y :: l) !! oldest stamp (y :: l) with
    | Some z => if stamp z <? stamp x then S (oldest stamp (y :: l)) else O
    | None => O
    end.
Proof. done. Qed.
Lemma oldest_lt {A} (stamp : A -> Z) l : l <> [] -> (oldest stamp l < length l)%nat.
Proof.
  induction l as [|x l IH]; [done|]. intros _. destruct l as [|y l]; [cbn; lia|]. specialize (IH ltac:(done)). rewrite oldest_cons.
  cbn [length] in *. destruct (_ !! _) as [z|]; [destruct (_ <? _)|]; lia.
Qed.
Lemma oldest_min {A} (stamp : A -> Z) l x : l !! oldest stamp l = Some x -> Forall (fun y => stamp x <= stamp y) l.
Proof.
  revert x. induction l as [|a l IH]; intros x; [done|]. destruct l as [|b l]; [intros [= ->]; by constructor|]. rewrite oldest_cons.
  destruct (lookup_lt_is_Some_2 (b :: l) (oldest stamp (b :: l))) as [z Hz]; [by apply oldest_lt|]. rewrite Hz. specialize (IH z Hz).
  destruct (Z.ltb_spec (stamp z) (stamp a)).
  - intros Hx. change ((b :: l) !! oldest stamp (b :: l) = Some x) in Hx. rewrite Hz in Hx. injection Hx as <-. constructor; [lia|done].
  - intros [= ->]. constructor; [lia|]. eapply Forall_impl; [exact IH|]. cbn. lia.
Qed.

(** ** The tree that was recorded *)
Definition node_msg (level index : Z) (img : block) : list Z :=
  [0x4D; 0x4B; 0x4C; Z.land level 0xFF] ++ to_le_bytes 4 index ++ img.
Definition root_msg (b : fs_superblock) (key : list Z) (levels : Z) (img : block) : list Z :=
  [0x4D; 0x4B; 0x52; 0x4F; 0x4F; 0x54; 0x76; 0x32] ++ to_le_bytes 8 b.(rollback_gen)
    ++ mjoin (to_le_bytes 8 <$> merkle_geom b.(geo)) ++ b.(geo).(volume_key_salt) ++ merkle_hash levels 0 key img.
(** What an operation on the block layer leaves of the tree's state. *)
Definition frame (s s' : store) : Prop :=
  s'.(s_mfs) = s.(s_mfs) /\ s'.(g_merkle_cache) = s.(g_merkle_cache) /\ s'.(g_merkle_clock) = s.(g_merkle_clock).

Section merkle.
(** [seen] holds of every image the device can return for a node; the device itself is
    any that keeps [dev_ok]. *)
Context (g : geometry) (key : list Z) (seen : block -> Prop) (dev_ok : store -> Prop) (io : blockio).
#[local] Abbreviation levels := (zlen (tree_counts g)).
Hypothesis dev_ram : forall s s', s'.(s_disk) = s.(s_disk) -> s'.(s_txn) = s.(s_txn) -> dev_ok s -> dev_ok s'.
Hypothesis node_read : forall l i s r s', tree_node g l i -> dev_ok s -> s.(s_mfs).(sb).(geo) = g ->
  io.(io_read) (merkle_level_base g l + i) s = (r, s') -> frame s s' /\ dev_ok s' /\ forall w, r = Some w -> seen w /\ sized w.
Hypothesis node_write : forall l i w s r s', tree_node g l i -> dev_ok s -> s.(s_mfs).(sb).(geo) = g -> seen w -> sized w ->
  io.(io_write) (merkle_level_base g l + i) w s = (r, s') -> frame s s' /\ dev_ok s'.
Hypothesis super_write : forall w s r s', dev_ok s -> s.(s_mfs).(sb).(geo) = g -> io.(io_write) 0 w s = (r, s') -> frame s s' /\ dev_ok s'.
Hypothesis short_key : (length key <= 64)%nat.

(** The nodes [N], of which a verified line holds one. *)
Record lines_auth (N : Z -> Z -> block) (s : store) : Prop := {
  la_vol : no_tree s.(s_mfs) = false /\ s.(s_mfs).(sb).(geo) = g /\ s.(s_mfs).(meta_mac_key) = key;
  la_dev : dev_ok s;
  la_len : zlen s.(g_merkle_cache) = 16;
  la_node i : 0 <= i < 16 -> used (line s i) ->
    tree_node g (line s i).(kl_level) (line s i).(kl_index) /\ sized (line s i).(kl_img) /\ seen (line s i).(kl_img)
    /\ ((line s i).(kl_verified) = true -> (line s i).(kl_img) = N (line s i).(kl_level) (line s i).(kl_index));
  la_uniq i j : 0 <= i < 16 -> 0 <= j < 16 -> used (line s i) -> used (line s j) ->
    (line s i).(kl_level) = (line s j).(kl_level) -> (line s i).(kl_index) = (line s j).(kl_index) -> i = j;
  la_stamp i : 0 <= i < 16 -> used (line s i) -> (line s i).(kl_stamp) <= s.(g_merkle_clock);
  la_dist i j : 0 <= i < 16 -> 0 <= j < 16 -> used (line s i) -> used (line s j) -> (line s i).(kl_stamp) = (line s j).(kl_stamp) -> i = j;
  la_clock : 0 <= s.(g_merkle_clock)
}.
Lemma line_set s i l c j : zlen s.(g_merkle_cache) = 16 -> 0 <= i < 16 ->
  line (set_merkle (zset s.(g_merkle_cache) i l) c s) j = if decide (i = j) then l else line s j.
Proof.
  intros Hl Hi. unfold line. cbn. destruct (decide (i = j)) as [->|]; [by rewrite zget_zset_eq by lia|by rewrite zget_zset_ne by done].
Qed.
(** One line changes, and with it the tree at that line's node. *)
Lemma put_line N N' s i l c :
  lines_auth N s -> 0 <= i < 16 -> s.(g_merkle_clock) <= c ->
  (used l -> tree_node g l.(kl_level) l.(kl_index) /\ sized l.(kl_img) /\ seen l.(kl_img)
     /\ (l.(kl_verified) = true -> l.(kl_img) = N' l.(kl_level) l.(kl_index)) /\ l.(kl_stamp) <= c
     /\ forall j, 0 <= j < 16 -> i <> j -> used (line s j) ->
          ~ (l.(kl_level) = (line s j).(kl_level) /\ l.(kl_index) = (line s j).(kl_index)) /\ l.(kl_stamp) <> (line s j).(kl_stamp)) ->
  (forall j, 0 <= j < 16 -> i <> j -> used (line s j) -> (line s j).(kl_verified) = true ->
     N' (line s j).(kl_level) (line s j).(kl_index) = N (line s j).(kl_level) (line s j).(kl_index)) ->
  lines_auth N' (set_merkle (zset s.(g_merkle_cache) i l) c s).
Proof.
  intros [Hv Hd Hlen Hn Hu Hs Hdi Hc] Hi Hcl Hl HN.
  split; [done|by apply (dev_ram s)|cbn; by rewrite zlen_zset|..|cbn; lia].
  - intros j Hj. rewrite line_set by done. destruct (decide (i = j)) as [->|Hne]; [intros Hul; by destruct (Hl Hul) as (? & ? & ? & ? & _)|].
    intros Huj. destruct (Hn j Hj Huj) as (? & ? & ? & Hver). split_and!; [done|done|done|]. intros Hv'. rewrite HN by done. auto.
  - intros j k Hj Hk. rewrite !line_set by done. destruct (decide (i = j)) as [Ej|], (decide (i = k)) as [Ek|]; [congruence| | |by apply Hu].
    + intros Hul Huk E1 E2. destruct (Hl Hul) as (_ & _ & _ & _ & _ & H). by destruct (H k Hk ltac:(done) Huk) as [[] _].
    + intros Huj Hul E1 E2. destruct (Hl Hul) as (_ & _ & _ & _ & _ & H). by destruct (H j Hj ltac:(done) Huj) as [[] _].
  - intros j Hj. rewrite line_set by done. destruct (decide (i = j)); [intros Hul; by destruct (Hl Hul) as (_ & _ & _ & _ & ? & _)|].
    intros Huj. specialize (Hs j Hj Huj). cbn. lia.
  - intros j k Hj Hk. rewrite !line_set by done. destruct (decide (i = j)) as [Ej|], (decide (i = k)) as [Ek|]; [congruence| | |by apply Hdi].
    + intros Hul Huk E. destruct (Hl Hul) as (_ & _ & _ & _ & _ & H). by destruct (H k Hk ltac:(done) Huk) as [_ []].
    + intros Huj Hul E. destruct (Hl Hul) as (_ & _ & _ & _ & _ & H). by destruct (H j Hj ltac:(done) Huj) as [_ []].
Qed.
Lemma frame_auth N s s' : lines_auth N s -> frame s s' -> dev_ok s' -> lines_auth N s'.
Proof.
  intros [Hv Hd Hlen Hn Hu Hs Hdi Hc] (E1 & E2 & E3) Hd'. assert (forall i, line s' i = line s i) as El by (intros i; unfold line; by rewrite E2).
  split; [by rewrite E1|done|by rewrite E2|..|by rewrite E3]; intros *; rewrite ?El, ?E3; eauto.
Qed.
(** A line keeps its node; whether it is dirty does not matter here. *)
Definition same_line (l l' : merkle_line) : Prop :=
  l'.(kl_level) = l.(kl_level) /\ l'.(kl_index) = l.(kl_index) /\ l'.(kl_stamp) = l.(kl_stamp)
  /\ l'.(kl_verified) = l.(kl_verified) /\ l'.(kl_img) = l.(kl_img).
Lemma same_line_put N s i l :
  lines_auth N s -> 0 <= i < 16 -> same_line (line s i) l -> lines_auth N (set_merkle (zset s.(g_merkle_cache) i l) s.(g_merkle_clock) s).
Proof.
  intros Ha Hi (E1 & E2 & E3 & E4 & E5). apply (put_line N); [done|done|lia| |done]. unfold used. rewrite E1, E2, E3, E4, E5. intros Hu.
  destruct (la_node _ _ Ha i Hi Hu) as (? & ? & ? & ?). split_and!; [done|done|done|done|by apply (la_stamp _ _ Ha)|].
  intros j Hj Hne Huj. split.
  - intros [F1 F2]. destruct Hne. by apply (la_uniq _ _ Ha).
  - intros F. destruct Hne. by apply (la_dist _ _ Ha).
Qed.
Lemma flush_line_auth N i s r s' :
  lines_auth N s -> 0 <= i < 16 -> merkle_flush_line io i s = (r, s') ->
  lines_auth N s' /\ s'.(s_mfs) = s.(s_mfs) /\ s'.(g_merkle_clock) = s.(g_merkle_clock) /\ forall j, same_line (line s j) (line s' j).
Proof.
  intros Ha Hi. pose proof (la_vol _ _ Ha) as (Hv & Hg & _). unfold merkle_flush_line.
  rewrite (bind_run _ _ s s.(s_mfs) s) by done. rewrite Hv, Hg. rewrite (bind_run _ _ s (line s i) s) by done.
  destruct (Z.eqb_spec (kl_index (line s i)) MERKLE_IDX_NONE) as [|Hu]; [intros [= <- <-]; by split_and!|].
  destruct (la_node _ _ Ha i Hi Hu) as (Hn & Hs & Hseen & _).
  destruct (io_write io (merkle_level_base g (kl_level (line s i)) + kl_index (line s i)) (kl_img (line s i)) s) as [ok s1] eqn:E. rewrite (bind_run _ _ _ _ _ E).
  destruct (node_write _ _ _ _ _ _ Hn (la_dev _ _ Ha) Hg Hseen Hs E) as [Hf Hd]. pose proof (frame_auth _ _ _ Ha Hf Hd) as Ha1.
  destruct Hf as (F1 & F2 & F3). assert (forall j, line s1 j = line s j) as El by (intros j; unfold line; by rewrite F2).
  destruct ok; cbn [negb]; [|intros [= <- <-]; split_and!; [done|done|done|intros j; by rewrite El]].
  rewrite (bind_run _ _ s1 (line s1 i) s1) by done. intros [= <- <-].
  split; [apply same_line_put; [done|done|by split_and!]|]. split; [done|]. split; [done|].
  intros j. rewrite line_set; [|apply Ha1|done]. rewrite !El. destruct (decide (i = j)) as [->|]; by split_and!.
Qed.
Lemma node_index l i : tree_node g l i -> 0 <= l < levels /\ i <> MERKLE_IDX_NONE.
Proof.
  intros [Hl Hi]. split; [done|]. pose proof (counts_shape g l Hl) as Hs. destruct (tree_counts g) as [|n c] eqn:E; [inversion Hs|].
  pose proof (tree_first_bound g n c E) as Hn. destruct (shape_sum c n Hs) as [_ Hsum].
  pose proof (counts_lookup g l) as Hlk. rewrite E in Hlk. specialize (Hlk Hl).
  destruct (sum_split _ _ _ Hlk (shape_pos _ Hs)) as [H1 H2]. unfold MERKLE_IDX_NONE, U64_MAX. lia.
Qed.
(** Line [j] is the newest, and of node [(l, i)]. *)
Definition holds (s : store) (j l i : Z) : Prop :=
  0 <= j < 16 /\ (line s j).(kl_level) = l /\ (line s j).(kl_index) = i /\ (line s j).(kl_stamp) = s.(g_merkle_clock).
Definition absent (s : store) (l i : Z) : Prop :=
  forall j, 0 <= j < 16 -> used (line s j) -> ~ ((line s j).(kl_level) = l /\ (line s j).(kl_index) = i).
Definition tick_ok (n : Z) (s : store) : Prop := s.(g_merkle_clock) + n < 2 ^ 32.
Lemma tick_run s : tick_ok 1 s -> 0 <= s.(g_merkle_clock) ->
  merkle_tick s = (s.(g_merkle_clock) + 1, set_merkle s.(g_merkle_cache) (s.(g_merkle_clock) + 1) s).
Proof.
  unfold tick_ok. intros H1 H2. unfold merkle_tick, mbind, sm_bind, modify, gets. cbn.
  by rewrite u32_mod, Z.mod_small by lia.
Qed.
(** Filling line [v] with a node that is not resident. *)
Lemma load_auth N v l i m s r s' :
  lines_auth N s -> tree_node g l i -> tick_ok 1 s -> absent s l i -> 0 <= v < 16 -> m = s.(s_mfs) ->
  (t ← merkle_tick;
   ln ← kline v; set_kline v (mk_kl l i t false false ln.(kl_img));;
   r ← io.(io_read) (merkle_level_base m.(sb).(geo) l + i);
   match r with
   | None => ln ← kline v; set_kline v (kl_unused ln);; mret None
   | Some img => ln ← kline v; set_kline v (kl_with_img ln img);; mret (Some v)
   end) s = (r, s') ->
  lines_auth N s' /\ s'.(s_mfs) = s.(s_mfs) /\ s'.(g_merkle_clock) = s.(g_merkle_clock) + 1
  /\ (forall j, r = Some j -> holds s' j l i) /\ (forall p, 0 <= p < 16 -> p <> v -> line s' p = line s p).
Proof.
  intros Ha Hn Ht Hab Hv ->. pose proof (la_vol _ _ Ha) as (_ & Hg & _). pose proof (la_len _ _ Ha) as Hlen.
  rewrite (bind_run _ _ _ _ _ (tick_run s Ht (la_clock _ _ Ha))). set (c := g_merkle_clock s + 1) in *.
  set (s1 := set_merkle (g_merkle_cache s) c s). rewrite (bind_run _ _ s1 (line s1 v) s1) by done.
  set (l1 := mk_kl l i c false false (kl_img (line s1 v))). set (s2 := set_merkle (zset (g_merkle_cache s) v l1) c s).
  rewrite (bind_run (set_kline v l1) _ s1 tt s2) by done. rewrite Hg.
  destruct (io_read io (merkle_level_base g l + i) s2) as [r1 s3] eqn:E. rewrite (bind_run _ _ _ _ _ E).
  destruct (node_read l i s2 r1 s3 Hn) as ((F1 & F2 & F3) & Hd & Hw); [by apply (dev_ram s), Ha|done|done|].
  assert (line s3 v = l1) as El by (unfold line; rewrite F2; cbn; by rewrite zget_zset_eq by lia).
  assert (forall l2 s4, s4 = set_merkle (zset (g_merkle_cache s3) v l2) (g_merkle_clock s3) s3 ->
    (used l2 -> l2 = mk_kl l i c false false (kl_img l2) /\ seen (kl_img l2) /\ sized (kl_img l2)) ->
    lines_auth N s4 /\ s4.(s_mfs) = s.(s_mfs) /\ s4.(g_merkle_clock) = c /\ (forall p, 0 <= p < 16 -> p <> v -> line s4 p = line s p) /\ line s4 v = l2) as Hfin.
  { intros l2 s4 -> Hl2. assert (lines_auth N (set_merkle (zset (g_merkle_cache s) v l2) c s)) as Hput.
    { apply (put_line N); [done|done|unfold c; lia| |done]. intros Hu. destruct (Hl2 Hu) as (-> & ? & ?). cbn.
      split_and!; [done|done|done|done|lia|]. intros j Hj Hne Huj. split; [intros [E1 E2]; by apply (Hab j Hj Huj)|].
      pose proof (la_stamp _ _ Ha j Hj Huj). unfold c. lia. }
    split; [eapply frame_auth; [exact Hput| |by apply (dev_ram s3)]|].
    { split; [done|]. cbn. rewrite F2, F3. cbn. by rewrite zset_zset. }
    split; [done|]. split; [done|]. split.
    - intros p Hp Hne. unfold line. cbn. rewrite F2. cbn. by rewrite zset_zset, zget_zset_ne by done.
    - unfold line. cbn. rewrite F2. cbn. by rewrite zset_zset, zget_zset_eq by lia. }
  destruct r1 as [img|]; rewrite (bind_run _ _ s3 (line s3 v) s3) by done; rewrite El; intros [= <- <-].
  - destruct (Hw img eq_refl) as [Hseen Hsz].
    destruct (Hfin (kl_with_img l1 img) _ eq_refl) as (H1 & H2 & H3 & H4 & H5); [done|]. split_and!; [done|done|done| |done].
    intros j [= <-]. split; [done|]. rewrite H5. cbn. done.
  - destruct (Hfin (kl_unused l1) _ eq_refl) as (H1 & H2 & H3 & H4 & H5); [by intros []|]. by split_and!.
Qed.
Lemma same_line_refl l : same_line l l.
Proof. by split_and!. Qed.
(** The newest line is not the one evicted. *)
Lemma oldest_spares N s p :
  lines_auth N s -> (forall j, 0 <= j < 16 -> used (line s j)) -> 0 <= p < 16 -> (line s p).(kl_stamp) = s.(g_merkle_clock) ->
  0 <= Z.of_nat (oldest kl_stamp s.(g_merkle_cache)) < 16 /\ p <> Z.of_nat (oldest kl_stamp s.(g_merkle_cache)).
Proof.
  intros Ha Hu Hp Hs. pose proof (la_len _ _ Ha) as Hlen. unfold zlen in Hlen.
  assert (oldest kl_stamp (g_merkle_cache s) < length (g_merkle_cache s))%nat as Hlt by (apply oldest_lt; by destruct (g_merkle_cache s)).
  split; [lia|]. intros ->. set (v := oldest kl_stamp (g_merkle_cache s)) in *.
  destruct (lookup_lt_is_Some_2 _ _ Hlt) as [x Hx]. pose proof (oldest_min _ _ _ Hx) as Hmin.
  assert (line s (Z.of_nat v) = x) as El by (unfold line; rewrite zget_lookup, Nat2Z.id, Hx by lia; done).
  set (q := if decide (Z.of_nat v = 0) then 1 else 0). assert (0 <= q < 16 /\ q <> Z.of_nat v) as [Hq Hne] by (unfold q; case_decide; lia).
  rewrite Forall_forall in Hmin. specialize (Hmin (line s q) (zget_elem kl_none (g_merkle_cache s) q ltac:(unfold zlen; lia))).
  pose proof (la_stamp _ _ Ha q Hq (Hu q Hq)). destruct Hne. apply (la_dist _ _ Ha); auto. rewrite El in *. lia.
Qed.
(** What fetching node [(l, i)] does. *)
Definition fetched (N : Z -> Z -> block) (l i : Z) (s : store) (r : option Z) (s' : store) : Prop :=
  lines_auth N s' /\ s'.(s_mfs) = s.(s_mfs) /\ s.(g_merkle_clock) <= s'.(g_merkle_clock) <= s.(g_merkle_clock) + 1
  /\ (forall j, r = Some j -> holds s' j l i)
  /\ (forall p, 0 <= p < 16 -> used (line s p) -> (line s p).(kl_stamp) = s.(g_merkle_clock) ->
        ~ ((line s p).(kl_level) = l /\ (line s p).(kl_index) = i) -> same_line (line s p) (line s' p)).
Lemma hit_auth N l i j s r s' :
  lines_auth N s -> tick_ok 1 s -> 0 <= j < 16 -> used (line s j) -> (line s j).(kl_level) = l -> (line s j).(kl_index) = i ->
  (t ← merkle_tick; ln ← kline j; set_kline j (kl_stamped ln t);; mret (Some j)) s = (r, s') -> fetched N l i s r s'.
Proof.
  intros Ha Ht Hj Hu E1 E2. pose proof (la_len _ _ Ha) as Hlen.
  rewrite (bind_run _ _ _ _ _ (tick_run s Ht (la_clock _ _ Ha))). set (c := g_merkle_clock s + 1) in *.
  set (s1 := set_merkle (g_merkle_cache s) c s). rewrite (bind_run _ _ s1 (line s1 j) s1) by done. intros [= <- <-].
  change (line s1 j) with (line s j).
  match goal with |- fetched _ _ _ _ _ ?X => change X with (set_merkle (zset (g_merkle_cache s) j (kl_stamped (line s j) c)) c s) end.
  split; [|split; [done|split; [cbn; unfold c; lia|split]]].
  - apply (put_line N); [done|done|unfold c; lia| |done]. intros _. destruct (la_node _ _ Ha j Hj Hu) as (? & ? & ? & ?). cbn.
    split_and!; [done|done|done|done|lia|]. intros k Hk Hne Huk. split; [intros [? ?]; destruct Hne; by apply (la_uniq _ _ Ha)|].
    pose proof (la_stamp _ _ Ha k Hk Huk). unfold c. lia.
  - intros k [= <-]. split; [done|]. rewrite line_set by done. by rewrite decide_True.
  - intros p Hp Hup Hsp Hne. rewrite line_set by done. destruct (decide (j = p)) as [->|]; [by destruct Hne|apply same_line_refl].
Qed.
Lemma evict_auth N v f s ok s' :
  lines_auth N s -> 0 <= v < 16 ->
  (ln ← kline v;
   ok ← (if ln.(kl_dirty) then merkle_flush_line io v else mret true);
   if negb ok then mret false else count f;; mret true) s = (ok, s') ->
  lines_auth N s' /\ s'.(s_mfs) = s.(s_mfs) /\ s'.(g_merkle_clock) = s.(g_merkle_clock) /\ forall j, same_line (line s j) (line s' j).
Proof.
  intros Ha Hv. rewrite (bind_run _ _ s (line s v) s) by done.
  destruct ((if kl_dirty (line s v) then merkle_flush_line io v else mret true) s) as [ok1 s1] eqn:E1. rewrite (bind_run _ _ _ _ _ E1).
  assert (lines_auth N s1 /\ s1.(s_mfs) = s.(s_mfs) /\ s1.(g_merkle_clock) = s.(g_merkle_clock) /\ forall j, same_line (line s j) (line s1 j)) as (H1 & H2 & H3 & H4).
  { destruct (kl_dirty (line s v)); [by eapply flush_line_auth|]. injection E1 as <- <-. split_and!; [done|done|done|]. intros j. apply same_line_refl. }
  destruct ok1; cbn [negb]; [|by intros [= <- <-]]. intros [= <- <-]. split; [|by split_and!].
  eapply frame_auth; [exact H1|by split_and!|]. by apply (dev_ram s1); [..|apply H1].
Qed.
Lemma line_for_auth N l i s r s' :
  lines_auth N s -> tree_node g l i -> tick_ok 1 s -> merkle_line_for io l i s = (r, s') -> fetched N l i s r s'.
Proof.
  intros Ha Hn Ht. pose proof (la_vol _ _ Ha) as (Hv & Hg & _). pose proof (la_len _ _ Ha) as Hlen. unfold merkle_line_for.
  rewrite (bind_run _ _ s s.(s_mfs) s) by done. rewrite Hv. rewrite (bind_run _ _ s s.(g_merkle_cache) s) by done.
  change (Z.to_nat MERKLE_CACHE_LINES) with 16%nat. cbv zeta.
  lazymatch goal with |- (match ?x with _ => _ end) s = _ -> _ => destruct x as [j|] eqn:Ef end.
  { apply find_index_Some in Ef as (Hj & Hp & _). apply andb_true_iff in Hp as [[E1%Z.eqb_eq E2%Z.eqb_eq]%andb_true_iff Hu%negb_true_iff%Z.eqb_neq].
    by apply hit_auth. }
  assert (absent s l i) as Hab.
  { intros j Hj Hu [E1 E2]. pose proof (find_index_None _ _ _ Ef j Hj) as Hf. cbn beta zeta in Hf.
    change (zget kl_none (g_merkle_cache s) j) with (line s j) in Hf. rewrite E1, E2, !Z.eqb_refl in Hf. unfold used in Hu. rewrite E2 in Hu.
    by destruct (Z.eqb_spec i MERKLE_IDX_NONE). }
  destruct (find_index (fun i => (zget kl_none (g_merkle_cache s) i).(kl_index) =? MERKLE_IDX_NONE) 0 16) as [v|] eqn:Ev; cbn [default].
  - apply find_index_Some in Ev as (Hj & Hp%Z.eqb_eq & _). rewrite (bind_run (mret true) _ s true s) by done. cbn [negb].
    intros E. destruct (load_auth N v l i _ s r s' Ha Hn Ht Hab Hj eq_refl E) as (H1 & H2 & H3 & H4 & H5).
    split_and!; [done|done|lia|lia|done|]. intros p Hp' Hu _ _. rewrite H5; [apply same_line_refl|done|]. intros ->. by destruct Hu.
  - assert (forall j, 0 <= j < 16 -> used (line s j)) as Hall.
    { intros j Hj. pose proof (find_index_None _ _ _ Ev j Hj) as Hf. by apply Z.eqb_neq in Hf. }
    assert (0 <= Z.of_nat (oldest kl_stamp (g_merkle_cache s)) < 16) as Hvr.
    { pose proof (oldest_lt kl_stamp (g_merkle_cache s)) as Hlt. unfold zlen in Hlen. destruct (g_merkle_cache s); [done|]. specialize (Hlt ltac:(done)). lia. }
    pose proof (fun p Hp => oldest_spares N s p Ha Hall Hp) as Hsp. set (v := Z.of_nat (oldest kl_stamp (g_merkle_cache s))) in *.
    lazymatch goal with |- (?m ≫= _) s = _ -> _ => destruct (m s) as [ok s1] eqn:E1 end. rewrite (bind_run _ _ _ _ _ E1).
    destruct (evict_auth N v _ s ok s1 Ha Hvr E1) as (H1 & H2 & H3 & H4).
    destruct ok; cbn [negb]; [|intros [= <- <-]; split_and!; [done|done|lia|lia|done|auto]].
    intros E. assert (absent s1 l i) as Hab1.
    { intros j Hj Hu [E3 E4]. destruct (H4 j) as (F1 & F2 & _). unfold used in Hu. rewrite F1 in E3. rewrite F2 in E4, Hu. by apply (Hab j). }
    destruct (load_auth N v l i (s_mfs s) s1 r s' H1 Hn) as (K1 & K2 & K3 & K4 & K5); [unfold tick_ok in *; lia|done|done|by rewrite H2|exact E|].
    split_and!; [done|congruence|lia|lia|done|]. intros p Hp Hu Hst _. rewrite K5; [apply H4|done|]. by destruct (Hsp p Hp Hst).
Qed.

(** ** Hashes bind what they hash *)
Lemma node_binds l i a a' :
  merkle_hash l i key a = merkle_hash l i key a' -> a = a' \/ collides (hmac_inputs key (node_msg l i a)) (hmac_inputs key (node_msg l i a')).
Proof.
  unfold merkle_hash. rewrite !hmac_is_spec. intros [[_ E]|C]%hmac_binds; [|by right|done|done]. left.
  apply app_inj_1 in E as [_ E]; [|done]. by apply app_inj_1 in E as [_ E].
Qed.
Lemma root_binds b a a' :
  merkle_root_hash b a key levels = merkle_root_hash b a' key levels ->
  a = a' \/ collides (hmac_inputs key (root_msg b key levels a)) (hmac_inputs key (root_msg b key levels a'))
  \/ collides (hmac_inputs key (node_msg levels 0 a)) (hmac_inputs key (node_msg levels 0 a')).
Proof.
  unfold merkle_root_hash. rewrite hmac_is_spec, hmac_is_spec. intros [[_ E]|C]%hmac_binds; [|by right; left|done|done].
  do 4 (apply app_inj_1 in E as [_ E]; [|done]). destruct (node_binds _ _ _ _ E); auto.
Qed.
(** The device returned an image for a node, at level [k] or above, that is not the
    recorded one and has its hash. *)
Definition forged (k : Z) (N : Z -> Z -> block) (b : fs_superblock) : Prop :=
  exists l i a, k <= l /\ tree_node g l i /\ seen a /\ a <> N l i
    /\ (collides (hmac_inputs key (node_msg (l + 1) i a)) (hmac_inputs key (node_msg (l + 1) i (N l i)))
        \/ collides (hmac_inputs key (root_msg b key levels a)) (hmac_inputs key (root_msg b key levels (N l i)))).
Definition consistent_from (k : Z) (N : Z -> Z -> block) : Prop :=
  forall l i, k <= l -> tree_node g l i -> l + 1 < levels -> slot_of (N (l + 1) (i / 128)) i = merkle_hash (l + 1) i key (N l i).
Definition rooted (N : Z -> Z -> block) (b : fs_superblock) : Prop := b.(meta_root) = merkle_root_hash b (N (levels - 1) 0) key levels.
Lemma length_slot img i : sized img -> length (slot_of img i) = 32%nat.
Proof.
  unfold sized, slot_of. intros Hi. rewrite fanout_128, length_take, length_drop, Hi. pose proof (slot_bound i).
  change (Z.to_nat BLOCK_SIZE) with 4096%nat. lia.
Qed.
(** The line of the node above [(l, i)], checked. *)
Definition parent_at (s : store) (l i : Z) (parent : option Z) : Prop :=
  l = levels - 1 \/ exists p, parent = Some p /\ 0 <= p < 16 /\ (line s p).(kl_verified) = true
    /\ (line s p).(kl_level) = l + 1 /\ (line s p).(kl_index) = i / 128.
Lemma node_checked_auth N k m l i parent j s ok s' :
  lines_auth N s -> rooted N m.(sb) -> m = s.(s_mfs) -> consistent_from k N -> k <= l -> tree_node g l i ->
  holds s j l i -> parent_at s l i parent -> node_checked m levels l i parent j s = (ok, s') ->
  forged k N m.(sb) \/ lines_auth N s' /\ s'.(s_mfs) = s.(s_mfs) /\ s'.(g_merkle_clock) = s.(g_merkle_clock)
    /\ (ok = true -> holds s' j l i /\ (line s' j).(kl_verified) = true).
Proof.
  intros Ha Hroot -> Hcons Hk Hn Hh Hpar. pose proof (la_len _ _ Ha) as Hlen. pose proof (la_vol _ _ Ha) as (_ & _ & Hkey).
  destruct Hh as (Hj & El & Ei & Es). unfold node_checked. rewrite (bind_run _ _ s (line s j) s) by done.
  destruct (kl_verified (line s j)) eqn:Ev; [intros [= <- <-]; right; by split_and!|].
  destruct (node_index l i Hn) as [Hl Hi]. assert (used (line s j)) as Hu by (unfold used; by rewrite Ei).
  destruct (la_node _ _ Ha j Hj Hu) as (_ & Hsz & Hseen & _). rewrite (bind_run _ _ s (line s (default 0 parent)) s) by done.
  cbv zeta. rewrite Hkey. destruct (differ _ _) eqn:Ed; [intros [= <- <-]; right; by split_and!|]. intros [= <- <-].
  assert (kl_img (line s j) = N l i \/ forged k N (s_mfs s).(sb)) as [Himg|?]; [|right|by left].
  { destruct (decide (kl_img (line s j) = N l i)) as [|Hne]; [by left|right]. exists l, i, (kl_img (line s j)). split_and!; [done|done|done|done|].
    destruct (Z.eqb_spec l (levels - 1)) as [Etop|].
    - assert (i = 0) as -> by (apply (node_top g); by rewrite <- Etop). rewrite Hroot in Ed.
      apply differ_false in Ed; [|apply length_merkle_root_hash..]. rewrite <- Etop in Ed.
      destruct (root_binds (s_mfs s).(sb) (kl_img (line s j)) (N l 0) Ed) as [?|[C|C]]; [congruence|right; exact C|left].
      replace (l + 1) with levels by lia. exact C.
    - destruct Hpar as [?|(p & -> & Hp & Hpv & Hpl & Hpi)]; [done|]. change (default 0 (Some p)) with p in Ed.
      assert (tree_node g (l + 1) (i / 128)) as Hpn by (apply node_parent; [done|lia]).
      assert (used (line s p)) as Hup by (unfold used; rewrite Hpi; by apply (node_index (l + 1))).
      destruct (la_node _ _ Ha p Hp Hup) as (_ & Hpsz & _ & Hpimg). apply differ_false in Ed; [|apply length_merkle_hash|by apply length_slot].
      rewrite Hpimg, Hpl, Hpi, Hcons in Ed by (done || lia). destruct (node_binds _ _ _ _ Ed) as [?|C]; [congruence|left; exact C]. }
  split; [apply (put_line N); [done|done|lia| |done]|].
  - intros _. cbn. rewrite El, Ei. split_and!; [done|done|done|done|by apply (la_stamp _ _ Ha)|]. rewrite <- El, <- Ei. intros q Hq Hne Huq.
    split; [intros [? ?]; destruct Hne; by apply (la_uniq _ _ Ha)|intros ?; destruct Hne; by apply (la_dist _ _ Ha)].
  - split; [done|]. split; [done|]. intros _. unfold holds. rewrite line_set by done. by rewrite decide_True.
Qed.
Definition checked_at (s : store) (j l i : Z) : Prop := holds s j l i /\ (line s j).(kl_verified) = true.
Lemma shift_index index n : index / MERKLE_FANOUT ^ Z.of_nat (S n) = index / MERKLE_FANOUT ^ Z.of_nat n / 128.
Proof. rewrite fanout_128, Nat2Z.inj_succ, Z.pow_succ_r, Z.mul_comm, Z.div_div by lia. done. Qed.
Lemma walk_auth N m level index n parent s r s' :
  lines_auth N s -> rooted N m.(sb) -> m = s.(s_mfs) -> consistent_from level N -> tree_node g level index ->
  level + Z.of_nat n <= levels -> tick_ok (Z.of_nat n) s ->
  (level + Z.of_nat n = levels \/ exists p, parent = Some p /\ checked_at s p (level + Z.of_nat n) (index / MERKLE_FANOUT ^ Z.of_nat n)) ->
  merkle_walk io m levels level index n parent s = (r, s') ->
  forged level N m.(sb) \/ lines_auth N s' /\ s'.(s_mfs) = s.(s_mfs) /\ s.(g_merkle_clock) <= s'.(g_merkle_clock) <= s.(g_merkle_clock) + Z.of_nat n
    /\ (forall j, r = Some j -> checked_at s' j level index).
Proof.
  intros Ha Hroot Hm Hcons Hn. revert parent s Ha Hm. induction n as [|n IH]; intros parent s Ha Hm Hle Ht Hpar; cbn [merkle_walk].
  { intros [= <- <-]. right. split_and!; [done|done|lia|lia|]. intros j ->. destruct Hpar as [?|(p & [= <-] & Hc)]; [destruct (node_index _ _ Hn); lia|].
    by rewrite Z.pow_0_r, Z.div_1_r, Z.add_0_r in Hc. }
  set (l := level + Z.of_nat n). set (i := index / MERKLE_FANOUT ^ Z.of_nat n). assert (tree_node g l i) as Hli by (apply node_ancestor; [done|lia]).
  destruct (merkle_line_for io l i s) as [r1 s1] eqn:E1. rewrite (bind_run _ _ _ _ _ E1).
  destruct (line_for_auth N l i s r1 s1) as (Ha1 & Hm1 & Hc1 & Hh1 & Hp1); [done|done|unfold tick_ok in *; lia|done|].
  destruct r1 as [j|]; [|intros [= <- <-]; right; split_and!; [done|done|lia|lia|done]].
  assert (parent_at s1 l i parent) as Hpar1.
  { destruct (decide (l + 1 = levels)); [left; lia|]. destruct Hpar as [?|(p & -> & (Hp & Hpl & Hpi & Hps) & Hpv)]; [left; unfold l; lia|right].
    rewrite shift_index in Hpi. fold i in Hpi. assert (tree_node g (l + 1) (i / 128)) as Hpn by (apply node_parent; [done|unfold l in *; lia]).
    destruct (Hp1 p Hp) as (F1 & F2 & F3 & F4 & F5); [|done|rewrite Hpl; unfold l; lia|].
    - unfold used. rewrite Hpi. by apply (node_index (l + 1)).
    - exists p. rewrite F1, F2, F4, Hpl, Hpi. split; [done|]. split; [done|]. split; [done|]. split; [unfold l; lia|done]. }
  destruct (node_checked m levels l i parent j s1) as [ok s2] eqn:E2. rewrite (bind_run _ _ _ _ _ E2).
  destruct (node_checked_auth N level m l i parent j s1 ok s2) as [?|(Ha2 & Hm2 & Hc2 & Hok)];
    [done|done|congruence|done|unfold l; lia|done|by apply Hh1|done|done|by left|].
  destruct ok; cbn [negb]; [|intros [= <- <-]; right; split_and!; [done|congruence|lia|lia|done]]. intros E.
  destruct (IH (Some j) s2 Ha2) as [?|(K1 & K2 & K3 & K4)];
    [congruence|lia|unfold tick_ok in *; lia|right; exists j; split; [done|by split; apply Hok]|done|by left|].
  right. split_and!; [done|congruence|lia|lia|done].
Qed.
Lemma merkle_node_auth N level index s r s' :
  lines_auth N s -> rooted N s.(s_mfs).(sb) -> consistent_from level N -> 0 <= level -> 0 <= index -> tick_ok 8 s ->
  merkle_node io level index s = (r, s') ->
  forged level N s.(s_mfs).(sb) \/ lines_auth N s' /\ s'.(s_mfs) = s.(s_mfs) /\ s.(g_merkle_clock) <= s'.(g_merkle_clock) <= s.(g_merkle_clock) + 6
    /\ (forall j, r = Some j -> tree_node g level index /\ checked_at s' j level index).
Proof.
  intros Ha Hroot Hcons Hl Hi Ht. pose proof (la_vol _ _ Ha) as (Hv & Hg & _). pose proof (tree_levels_le g). unfold merkle_node.
  rewrite (bind_run _ _ s s.(s_mfs) s) by done. rewrite Hv, Hg. cbv zeta.
  destruct (Z.eqb_spec levels 0), (Z.leb_spec levels level), (Z.leb_spec (zget 0 (tree_counts g) level) index); cbn [orb];
    try (intros [= <- <-]; right; split_and!; [done|done|lia|lia|done]).
  assert (tree_node g level index) as Hn by (split; lia). intros E.
  destruct (walk_auth N (s_mfs s) level index (Z.to_nat (levels - level)) None s r s') as [?|(K1 & K2 & K3 & K4)];
    [done|done|done|done|done|lia|unfold tick_ok in *; lia|left; lia|done|by left|].
  right. split_and!; [done|done|lia|lia|]. intros j Hj. split; [done|auto].
Qed.

(** ** Leaves *)
(** [L] are the leaves the tree records. *)
Definition leaves_match (N : Z -> Z -> block) (L : Z -> block) : Prop :=
  forall leaf, 0 <= leaf < merkle_leaves g -> slot_of (N 0 (leaf / 128)) leaf = merkle_hash 0 leaf key (L leaf).
Record auth (N : Z -> Z -> block) (L : Z -> block) (s : store) : Prop := {
  at_lines : lines_auth N s;
  at_root : rooted N s.(s_mfs).(sb);
  at_cons : consistent_from 0 N;
  at_leaves : leaves_match N L;
  at_sized : forall l i, tree_node g l i -> sized (N l i)
}.
Lemma verify_leaf_auth N L leaf img s ok s' :
  auth N L s -> 0 <= leaf < merkle_leaves g -> tick_ok 8 s -> merkle_verify_leaf io leaf img s = (ok, s') ->
  forged 0 N s.(s_mfs).(sb)
  \/ auth N L s' /\ s'.(s_mfs) = s.(s_mfs) /\ s.(g_merkle_clock) <= s'.(g_merkle_clock) <= s.(g_merkle_clock) + 6
     /\ (ok = true -> img = L leaf \/ collides (hmac_inputs key (node_msg 0 leaf img)) (hmac_inputs key (node_msg 0 leaf (L leaf)))).
Proof.
  intros [Ha Hr Hc Hlv Hsz] Hleaf Ht. pose proof (la_vol _ _ Ha) as (Hv & Hg & Hkey). unfold merkle_verify_leaf.
  rewrite (bind_run _ _ s s.(s_mfs) s) by done. unfold no_tree in Hv. apply orb_false_iff in Hv as [Hmt _]. rewrite Hmt. cbv zeta.
  destruct (merkle_node io 0 (leaf / MERKLE_FANOUT) s) as [r s1] eqn:E1. rewrite (bind_run _ _ _ _ _ E1). rewrite fanout_128 in E1.
  destruct (merkle_node_auth N 0 (leaf / 128) s r s1) as [?|(K1 & K2 & K3 & K4)]; [done|done|done|done|apply Z.div_pos; lia|done|done|by left|].
  assert (auth N L s1) as Ha1 by (split; [done|by rewrite K2|done|done|done]).
  destruct r as [j|]; [|intros [= <- <-]; right; split_and!; [done|done|lia|lia|done]].
  rewrite (bind_run _ _ s1 (line s1 j) s1) by done. intros [<- <-]%pair_equal_spec. right. split; [done|]. split; [done|]. split; [lia|].
  intros Hok%negb_true_iff. destruct (K4 j eq_refl) as [Hn [(Hj & El & Ei & _) Hver]].
  assert (used (line s1 j)) as Hu by (unfold used; rewrite Ei; by apply (node_index 0)).
  destruct (la_node _ _ K1 j Hj Hu) as (_ & Hsz1 & _ & Himg). rewrite Himg, El, Ei in * by done. rewrite Hkey in Hok.
  apply differ_false in Hok; [|apply length_merkle_hash|by apply length_slot]. rewrite Hlv in Hok by done. exact (node_binds _ _ _ _ Hok).
Qed.

(** ** Recording a leaf *)
Definition at_node (N : Z -> Z -> block) (l i : Z) (w : block) : Z -> Z -> block :=
  fun l' i' => if (l =? l') && (i =? i') then w else N l' i'.
(** The tree and the root with hash [h] for child [idx] of level [l]. *)
Fixpoint put (b : fs_superblock) (n : nat) (N : Z -> Z -> block) (l idx : Z) (h : list Z) : (Z -> Z -> block) * list Z :=
  match n with
  | O => (N, h)
  | S n =>
      let i := idx / 128 in
      let w := set_slot (N l i) idx h in
      put b n (at_node N l i w) (l + 1) i (if l + 1 =? levels then merkle_root_hash b w key levels else merkle_hash (l + 1) i key w)
  end.
Lemma at_node_same N l i w : at_node N l i w l i = w.
Proof. unfold at_node. by rewrite !Z.eqb_refl. Qed.
Lemma at_node_level N l i w l' i' : l <> l' -> at_node N l i w l' i' = N l' i'.
Proof. intros H. unfold at_node. by destruct (Z.eqb_spec l l'). Qed.
Lemma at_node_index N l i w i' : i <> i' -> at_node N l i w l i' = N l i'.
Proof. intros H. unfold at_node. destruct (Z.eqb_spec i i'); [done|]. by rewrite andb_false_r. Qed.
Lemma put_below b n N l idx h l' i' : l' < l -> (put b n N l idx h).1 l' i' = N l' i'.
Proof.
  revert N l idx h. induction n as [|n IH]; intros N l idx h Hl; [done|]. cbn [put]. rewrite IH by lia. apply at_node_level. lia.
Qed.
Lemma put_level b n N l idx h i' :
  (put b (S n) N l idx h).1 l i' = if decide (idx / 128 = i') then set_slot (N l (idx / 128)) idx h else N l i'.
Proof.
  cbn [put]. rewrite put_below by lia. destruct (decide _) as [<-|]; [apply at_node_same|by apply at_node_index].
Qed.
Definition nodes_sized (N : Z -> Z -> block) : Prop := forall l i, tree_node g l i -> sized (N l i).
Lemma at_node_sized N l i w : nodes_sized N -> sized w -> nodes_sized (at_node N l i w).
Proof. intros HN Hw l' i' Hn. unfold at_node. destruct (_ && _); auto. Qed.
Lemma carry_hash_length b l i w : length (if l + 1 =? levels then merkle_root_hash b w key levels else merkle_hash (l + 1) i key w) = 32%nat.
Proof. destruct (_ =? _); [apply length_merkle_root_hash|apply length_merkle_hash]. Qed.
(** The slots of a level the path goes through. *)
Lemma put_slot b n N l idx h j :
  nodes_sized N -> tree_node g l (idx / 128) -> length h = 32%nat -> j / 128 = idx / 128 ->
  slot_of ((put b (S n) N l idx h).1 l (j / 128)) j = if decide (j = idx) then h else slot_of (N l (j / 128)) j.
Proof.
  intros HN Hn Hh Hj. rewrite put_level, Hj, decide_True by done. destruct (decide (j = idx)) as [->|Hne]; [apply slot_set_same; auto|].
  apply slot_set_other; [auto|done|]. pose proof (Z.div_mod idx 128). pose proof (Z.div_mod j 128). lia.
Qed.
Lemma put_sized b n N l idx h :
  nodes_sized N -> tree_node g l (idx / 128) -> l + Z.of_nat n <= levels -> length h = 32%nat -> nodes_sized (put b n N l idx h).1.
Proof.
  revert N l idx h. induction n as [|n IH]; intros N l idx h HN Hn Hle Hh; [done|]. cbn [put].
  assert (nodes_sized (at_node N l (idx / 128) (set_slot (N l (idx / 128)) idx h))) as HN' by (apply at_node_sized; [done|apply set_slot_sized; auto]).
  destruct (decide (l + 1 < levels)); [apply IH; [done|by apply node_parent|lia|apply carry_hash_length]|].
  destruct n; [done|lia].
Qed.
Lemma put_consistent b n N l idx h :
  nodes_sized N -> consistent_from l N -> tree_node g l (idx / 128) -> l + Z.of_nat n = levels -> length h = 32%nat ->
  consistent_from l (put b n N l idx h).1
  /\ (n <> O -> (put b n N l idx h).2 = merkle_root_hash b ((put b n N l idx h).1 (levels - 1) 0) key levels).
Proof.
  revert N l idx h. induction n as [|n IH]; intros N l idx h HN Hc Hn Hle Hh; [done|].
  set (i := idx / 128) in *. set (w := set_slot (N l i) idx h).
  assert (nodes_sized (at_node N l i w)) as HN' by (apply at_node_sized; [done|apply set_slot_sized; auto]).
  destruct (decide (l + 1 < levels)) as [Hlt|Hge]; last first.
  { destruct n; [|lia]. assert (l = levels - 1) as El by lia. assert (i = 0) as Ei by (apply (node_top g); by rewrite <- El). split.
    - intros l' i' Hl' Hn' Hlt. lia.
    - intros _. cbn [put fst snd]. fold i. fold w. destruct (Z.eqb_spec (l + 1) levels); [|lia]. by rewrite <- El, <- Ei, at_node_same. }
  destruct n as [|n]; [lia|]. set (h' := merkle_hash (l + 1) i key w).
  assert (put b (S (S n)) N l idx h = put b (S n) (at_node N l i w) (l + 1) i h') as Eput.
  { change (put b (S (S n)) N l idx h) with (put b (S n) (at_node N l i w) (l + 1) i (if l + 1 =? levels then merkle_root_hash b w key levels else h')).
    destruct (Z.eqb_spec (l + 1) levels); [lia|done]. }
  assert (consistent_from (l + 1) (at_node N l i w)) as Hc'.
  { intros l' i' Hl' Hn' Hlt'. rewrite !at_node_level by lia. apply Hc; [lia|done|done]. }
  assert (tree_node g (l + 1) (i / 128)) as Hpn by (by apply node_parent). assert (length h' = 32%nat) as Hh' by apply length_merkle_hash.
  destruct (IH (at_node N l i w) (l + 1) i h' HN' Hc' Hpn ltac:(lia) Hh') as [IHc IHr]. rewrite Eput. split; [|intros _; by apply IHr].
  intros l' i' Hl' Hn' Hlt'. destruct (decide (l' = l)) as [->|]; [|apply IHc; [lia|done|done]].
  rewrite (put_below _ _ _ (l + 1) _ _ l) by lia. destruct (decide (i' / 128 = i / 128)) as [Eq|Hne].
  - rewrite put_slot by done. destruct (decide (i' = i)) as [->|Hii]; [by rewrite at_node_same|].
    rewrite at_node_level by lia. rewrite at_node_index by done. by apply Hc.
  - rewrite put_level, decide_False by done. rewrite at_node_level by lia. rewrite at_node_index by (intros ->; done). by apply Hc.
Qed.
Lemma forged_at l i w N b : forged (l + 1) (at_node N l i w) b -> forged l N b.
Proof.
  intros (l' & i' & a & Hl & Hn & Hseen & Hne & Hc). exists l', i', a. rewrite at_node_level in Hne, Hc by lia.
  split; [lia|]. by split_and!.
Qed.
(** A checked line takes a new image. *)
Lemma rewrite_auth N j l i w s :
  lines_auth N s -> checked_at s j l i -> tree_node g l i -> seen w -> sized w ->
  let ln := line s j in
  lines_auth (at_node N l i w) (set_merkle (zset s.(g_merkle_cache) j (mk_kl ln.(kl_level) ln.(kl_index) ln.(kl_stamp) true ln.(kl_verified) w)) s.(g_merkle_clock) s).
Proof.
  intros Ha [(Hj & El & Ei & Es) Hv] Hn Hseen Hsz ln. unfold ln. rewrite El, Ei.
  apply (put_line N); [done|done|lia| |]; cbn.
  - intros _. split_and!; [done|done|done|intros _; by rewrite at_node_same|by rewrite Es|].
    intros q Hq Hne Huq. assert (used (line s j)) as Hu by (unfold used; rewrite Ei; by apply (node_index l)).
    rewrite <- El, <- Ei. split; [intros [? ?]; destruct Hne; by apply (la_uniq _ _ Ha)|intros ?; destruct Hne; by apply (la_dist _ _ Ha)].
  - intros q Hq Hne Huq Hvq. assert (used (line s j)) as Hu by (unfold used; rewrite Ei; by apply (node_index l)).
    unfold at_node. destruct (Z.eqb_spec l (kl_level (line s q))), (Z.eqb_spec i (kl_index (line s q))); cbn [andb]; try done.
    destruct Hne. apply (la_uniq _ _ Ha); congruence.
Qed.
Lemma carry_auth N m l n idx h s r s' :
  lines_auth N s -> rooted N m.(sb) -> m = s.(s_mfs) -> consistent_from l N -> nodes_sized N -> 0 <= l -> 0 <= idx ->
  l + Z.of_nat n = levels -> length h = 32%nat -> tick_ok (8 * Z.of_nat n) s ->
  (forall l' i', tree_node g l' i' -> seen ((put m.(sb) n N l idx h).1 l' i')) ->
  merkle_carry io m levels l n idx h s = (r, s') ->
  forged l N m.(sb)
  \/ s'.(s_mfs) = s.(s_mfs) /\ s'.(g_merkle_clock) <= s.(g_merkle_clock) + 6 * Z.of_nat n
     /\ forall root, r = Some root ->
          (n <> O -> tree_node g l (idx / 128)) /\ lines_auth (put m.(sb) n N l idx h).1 s' /\ root = (put m.(sb) n N l idx h).2.
Proof.
  revert N l idx h s r s'. induction n as [|n IH]; intros N l idx h s r s' Ha Hroot Hm Hc HN Hl Hi Hle Hh Ht Hseen; cbn [merkle_carry].
  { intros [= <- <-]. right. split_and!; [done|lia|]. by intros root [= <-]. }
  rewrite fanout_128. set (i := idx / 128) in *. assert (0 <= i) as Hi0 by (apply Z.div_pos; lia).
  destruct (merkle_node io l i s) as [r1 s1] eqn:E1. rewrite (bind_run _ _ _ _ _ E1). rewrite Hm in Hroot.
  destruct (merkle_node_auth N l i s r1 s1) as [F|(Ha1 & Hm1 & Hc1 & Hj1)]; [done|done|done|lia|lia|unfold tick_ok in *; lia|done|left; by rewrite Hm|].
  destruct r1 as [j|]; [|intros [= <- <-]; right; split_and!; [done|lia|done]]. destruct (Hj1 j eq_refl) as [Hn Hck].
  rewrite (bind_run _ _ s1 (line s1 j) s1) by done. cbv zeta.
  assert (kl_img (line s1 j) = N l i) as Himg.
  { destruct Hck as [(Hj & El & Ei & _) Hv]. destruct (la_node _ _ Ha1 j Hj) as (_ & _ & _ & H); [unfold used; rewrite Ei; by apply (node_index l)|].
    by rewrite (H Hv), El, Ei. }
  rewrite Himg. set (w := set_slot (N l i) idx h) in *. assert (sized w) as Hw by (apply set_slot_sized; auto).
  assert (seen w) as Hsw by (specialize (Hseen l i Hn); rewrite put_level, decide_True in Hseen by done; exact Hseen).
  pose proof (rewrite_auth N j l i w s1 Ha1 Hck Hn Hsw Hw) as Ha2. cbv zeta in Ha2.
  lazymatch goal with |- (?m1 ≫= _) s1 = _ -> _ => rewrite (bind_run m1 _ s1 tt _ eq_refl) end.
  pose proof (la_vol _ _ Ha) as (_ & _ & Hkey). assert (meta_mac_key m = key) as -> by congruence.
  match goal with |- merkle_carry _ _ _ _ _ _ ?X _ = _ -> _ => set (h' := X) end.
  assert (put m.(sb) (S n) N l idx h = put m.(sb) n (at_node N l i w) (l + 1) i h') as Eput by done. rewrite Eput in *.
  lazymatch type of Ha2 with lines_auth _ ?X => change (merkle_carry io m levels (l + 1) n i h' X = (r, s') -> forged l N m.(sb)
    \/ s'.(s_mfs) = s.(s_mfs) /\ s'.(g_merkle_clock) <= s.(g_merkle_clock) + 6 * Z.of_nat (S n)
     /\ forall root, r = Some root -> (S n <> O -> tree_node g l i)
          /\ lines_auth (put m.(sb) n (at_node N l i w) (l + 1) i h').1 s' /\ root = (put m.(sb) n (at_node N l i w) (l + 1) i h').2); set (s2 := X) in * end.
  assert (s2.(s_mfs) = s1.(s_mfs) /\ s2.(g_merkle_clock) = s1.(g_merkle_clock)) as [Hm2 Hc2] by done. clearbody s2.
  destruct n as [|n].
  { cbn [merkle_carry put fst snd]. intros [<- <-]%pair_equal_spec. right. split; [congruence|]. split; [lia|]. intros root [= <-]. by split_and!. }
  intros E. destruct (IH (at_node N l i w) (l + 1) i h' s2 r s') as [F|(K1 & K2 & K3)]; try done.
  - unfold rooted. rewrite at_node_level by lia. by rewrite Hm.
  - congruence.
  - intros l' i' Hl' Hn' Hlt'. rewrite !at_node_level by lia. apply Hc; [lia|done|done].
  - by apply at_node_sized.
  - lia.
  - lia.
  - apply carry_hash_length.
  - unfold tick_ok in *. lia.
  - left. by apply forged_at in F.
  - right. split; [congruence|]. split; [lia|]. intros root Hr. destruct (K3 root Hr) as (_ & ? & ?). by split_and!.
Qed.
Definition leaf_set (L : Z -> block) (leaf : Z) (img : block) : Z -> block := fun x => if leaf =? x then img else L x.
(** The tree with leaf [leaf] recorded as [img]. *)
Definition recorded (b : fs_superblock) (N : Z -> Z -> block) (leaf : Z) (img : block) : (Z -> Z -> block) * list Z :=
  put b (Z.to_nat levels) N 0 leaf (merkle_hash 0 leaf key img).
Lemma recorded_leaves b N L leaf img :
  0 < levels -> nodes_sized N -> tree_node g 0 (leaf / 128) -> leaves_match N L -> leaves_match (recorded b N leaf img).1 (leaf_set L leaf img).
Proof.
  intros Hl HN Hn HL x Hx. unfold recorded, leaf_set. destruct (Z.to_nat levels) as [|n] eqn:E; [lia|].
  destruct (decide (x / 128 = leaf / 128)) as [Eq|Hne].
  - rewrite put_slot by (done || apply length_merkle_hash). destruct (decide (x = leaf)) as [->|Hne]; [by rewrite Z.eqb_refl|].
    destruct (Z.eqb_spec leaf x); [congruence|]. by apply HL.
  - rewrite put_level, decide_False by done. destruct (Z.eqb_spec leaf x) as [->|]; [done|]. by apply HL.
Qed.
Lemma root_hash_set r b w k n : merkle_root_hash (set_meta_root r b) w k n = merkle_root_hash b w k n.
Proof. unfold merkle_root_hash. reflexivity. Qed.
Lemma update_leaf_auth N L leaf img s s' :
  auth N L s -> 0 <= leaf < merkle_leaves g -> tick_ok 48 s ->
  (forall l i, tree_node g l i -> seen ((recorded s.(s_mfs).(sb) N leaf img).1 l i)) ->
  merkle_update_leaf io leaf img s = (true, s') ->
  forged 0 N s.(s_mfs).(sb)
  \/ auth (recorded s.(s_mfs).(sb) N leaf img).1 (leaf_set L leaf img) s' /\ s'.(g_merkle_clock) <= s.(g_merkle_clock) + 36
     /\ s'.(s_mfs).(sb) = set_meta_root (recorded s.(s_mfs).(sb) N leaf img).2 s.(s_mfs).(sb).
Proof.
  intros [Ha Hr Hc HL Hsz] Hleaf Ht Hseen. pose proof (la_vol _ _ Ha) as (Hv & Hg & Hkey). pose proof (tree_levels_le g). unfold merkle_update_leaf.
  rewrite (bind_run _ _ s s.(s_mfs) s) by done. rewrite Hv, Hg, Hkey. cbv zeta. destruct (Z.eqb_spec levels 0) as [|Hl0]; [done|].
  assert (0 <= levels) by (unfold zlen; lia).
  destruct (merkle_carry io (s_mfs s) levels 0 (Z.to_nat levels) leaf (merkle_hash 0 leaf key img) s) as [r s1] eqn:E1. rewrite (bind_run _ _ _ _ _ E1).
  destruct (carry_auth N (s_mfs s) 0 (Z.to_nat levels) leaf (merkle_hash 0 leaf key img) s r s1) as [F|(Hm1 & Hc1 & Hr1)];
    [done|done|done|done|done|lia|lia|lia|apply length_merkle_hash|unfold tick_ok in *; lia|exact Hseen|done|by left|].
  destruct r as [root|]; [|done]. destruct (Hr1 root eq_refl) as (Hn & Ha1 & ->). specialize (Hn ltac:(lia)).
  fold (recorded (s_mfs s).(sb) N leaf img) in *. set (N' := recorded (s_mfs s).(sb) N leaf img) in *.
  destruct (put_consistent (s_mfs s).(sb) (Z.to_nat levels) N 0 leaf (merkle_hash 0 leaf key img)) as [Hcons Hroot]; [done|done|done|lia|apply length_merkle_hash|].
  rewrite (bind_run (upd_sb _) _ s1 tt _ eq_refl). lazymatch goal with |- (_ ≫= _) ?X = _ -> _ => set (s2 := X) end.
  rewrite (bind_run _ _ s2 (sb_block s2.(s_mfs) s2.(after)) s2) by done.
  destruct (io_write io 0 (sb_block s2.(s_mfs) s2.(after)) s2) as [ok s3] eqn:E3. rewrite (bind_run _ _ _ _ _ E3). intros [= <-]. right.
  assert (lines_auth N'.1 s2) as Ha2.
  { destruct Ha1 as [(V1 & V2 & V3) D Hlen K1 K2 K3 K4 K5]. split; [done|by apply (dev_ram s1)|done..]. }
  assert (s2.(s_mfs).(sb) = set_meta_root N'.2 (s_mfs s).(sb)) as Esb by (cbn; by rewrite Hm1).
  destruct (super_write _ _ _ _ (la_dev _ _ Ha2) (proj1 (proj2 (la_vol _ _ Ha2))) E3) as [Hf Hd].
  pose proof (frame_auth _ _ _ Ha2 Hf Hd) as Ha3. destruct Hf as (F1 & F2 & F3).
  split; [split; [done|rewrite F1, Esb|exact Hcons|apply recorded_leaves; [lia|done|done|done]|apply put_sized; [done|done|lia|apply length_merkle_hash]]|].
  - unfold rooted. rewrite root_hash_set. apply Hroot. lia.
  - rewrite F3, F1, Esb. split; [cbn; lia|done].
Qed.
End merkle.

(** ** The volume's own block layer as the device *)
Section device.
Context (g : geometry) (seen : block -> Prop).
(** Whatever the device holds or has staged for a node is one of [seen]. *)
Definition offers (s : store) : Prop :=
  forall l i, tree_node g l i -> let b := merkle_level_base g l + i in
    (seen (latest s.(s_disk) b) /\ sized (latest s.(s_disk) b)) /\ forall w, (b, w) ∈ s.(s_txn).(t_staged) -> seen w /\ sized w.
Lemma span_leaf_plain b s : pm_leaf_of g b = None -> s.(s_mfs).(sb).(geo) = g -> span_leaf b s = (span_no, s).
Proof.
  intros Hb Hg. unfold span_leaf. rewrite (bind_run _ _ s s.(s_mfs) s) by done. destruct (negb _); [done|]. by rewrite Hg, Hb.
Qed.
Lemma disk_read_latest d b r d' : disk_read d b = (r, d') -> latest d' = latest d /\ forall w, r = Some w -> w = latest d b.
Proof.
  unfold disk_read. destruct (d_alive d); cbn; [|by intros [= <- <-]]. destruct (next_outcome _) as [o rs].
  destruct o; [destruct (in_range _ _ _)|..]; intros [= <- <-]; split; try done; by intros w [= <-].
Qed.
Lemma disk_write_latest d b w r d' x : disk_write d b w = (r, d') -> latest d' x = latest d x \/ b = x /\ latest d' x = w.
Proof.
  intros (_ & Hm & Hc & _)%disk_write_step. unfold latest. rewrite Hm. destruct Hc as [-> | ->]; [by left|]. rewrite cached_cons.
  destruct (Z.eqb_spec b x); [by right|by left].
Qed.
Lemma permitted_frame s r s' : storage_io_permitted s = (r, s') ->
  frame s s' /\ s'.(s_disk) = s.(s_disk) /\ s'.(s_txn) = s.(s_txn).
Proof. unfold storage_io_permitted, mbind, sm_bind, gets. cbn. destruct (0 <? _); intros [= <- <-]; by split_and!. Qed.
Lemma raw_read_frame b s r s' : raw_block_read b s = (r, s') ->
  frame s s' /\ latest s'.(s_disk) = latest s.(s_disk) /\ s'.(s_txn) = s.(s_txn) /\ forall w, r = Some w -> w = latest s.(s_disk) b.
Proof.
  unfold raw_block_read. destruct (storage_io_permitted s) as [ok s1] eqn:E. rewrite (bind_run _ _ _ _ _ E).
  apply permitted_frame in E as ((F1 & F2 & F3) & Hd & Ht). destruct ok; cbn [negb]; [|intros [= <- <-]; split_and!; rewrite ?Hd; done].
  unfold on_disk. destruct (disk_read (s_disk s1) b) as [r1 d] eqn:E1. apply disk_read_latest in E1 as [E1 E2]. intros [= <- <-]. rewrite Hd in *. by split_and!.
Qed.
Lemma raw_write_frame b w s r s' x : raw_block_write b w s = (r, s') ->
  frame s s' /\ s'.(s_txn) = s.(s_txn) /\ (latest s'.(s_disk) x = latest s.(s_disk) x \/ b = x /\ latest s'.(s_disk) x = w).
Proof.
  unfold raw_block_write. destruct (storage_io_permitted s) as [ok s1] eqn:E. rewrite (bind_run _ _ _ _ _ E).
  apply permitted_frame in E as ((F1 & F2 & F3) & Hd & Ht). destruct ok; cbn [negb]; [|intros [= <- <-]; split; [by split_and!|]; split; [done|]; left; by rewrite Hd].
  unfold on_disk. destruct (disk_write (s_disk s1) b w) as [r1 d] eqn:E1. apply (disk_write_latest _ _ _ _ _ x) in E1. intros [= <- <-]. rewrite Hd in *.
  split; [by split_and!|]. by split.
Qed.
Lemma staged_at_elem t b w : staged_at t b = Some w -> (b, w) ∈ t.(t_staged).
Proof.
  unfold staged_at. destruct (find _ _) as [[b' w']|] eqn:E; [|done]. intros [= <-]. apply find_some in E as [E Eb%Z.eqb_eq]. cbn in Eb. subst b'.
  apply list_elem_of_In in E. by rewrite elem_of_reverse in E.
Qed.
Lemma plain_read io b s r s' :
  pm_leaf_of g b = None -> s.(s_mfs).(sb).(geo) = g -> do_block_read_with io b s = (r, s') ->
  frame s s' /\ latest s'.(s_disk) = latest s.(s_disk) /\ s'.(s_txn) = s.(s_txn)
  /\ forall w, r = Some w -> w = latest s.(s_disk) b \/ (b, w) ∈ s.(s_txn).(t_staged).
Proof.
  intros Hb Hg. unfold do_block_read_with. destruct (storage_io_permitted s) as [ok s1] eqn:E. rewrite (bind_run _ _ _ _ _ E).
  apply permitted_frame in E as ((F1 & F2 & F3) & Hd & Ht). destruct ok; cbn [negb]; [|intros [= <- <-]; split_and!; rewrite ?Hd; done].
  rewrite (bind_run _ _ s1 s1.(s_txn) s1) by done. cbv zeta. set (st := if t_active (s_txn s1) then _ else _).
  destruct (match st with Some w => mret (Some w) | None => raw_block_read b end s1) as [r1 s2] eqn:E1. rewrite (bind_run _ _ _ _ _ E1).
  assert (frame s1 s2 /\ latest s2.(s_disk) = latest s.(s_disk) /\ s2.(s_txn) = s.(s_txn)
    /\ forall w, r1 = Some w -> w = latest s.(s_disk) b \/ (b, w) ∈ s.(s_txn).(t_staged)) as ((G1 & G2 & G3) & HL & Ht2 & Hw).
  { destruct st as [w|] eqn:Est.
    - injection E1 as <- <-. split_and!; rewrite ?Hd; try done. intros w' [= <-]. right. unfold st in Est. destruct (t_active _); [|done]. rewrite Ht in Est. by apply staged_at_elem.
    - apply raw_read_frame in E1 as (? & ? & ? & Hw). rewrite Hd in *. split_and!; try done; [congruence|]. intros w Hr. left. auto. }
  destruct r1 as [buf|]; [|intros [= <- <-]; split; [split_and!; congruence|by split_and!]].
  rewrite (bind_run _ _ _ _ _ (span_leaf_plain b s2 Hb ltac:(congruence))). intros [= <- <-].
  split; [split_and!; congruence|by split_and!].
Qed.
Lemma stage_slot_frame b w s r s' :
  stage_slot b w s = (r, s') ->
  frame s s' /\ s'.(s_disk) = s.(s_disk) /\ forall x v, (x, v) ∈ s'.(s_txn).(t_staged) -> (x, v) ∈ s.(s_txn).(t_staged) \/ x = b /\ v = w.
Proof.
  unfold stage_slot. rewrite (bind_run _ _ s s.(s_txn) s) by done. destruct (list_find _ _) as [[i p]|].
  { intros [= <- <-]. split; [by split_and!|]. split; [done|]. cbn. intros x v [k Hk]%list_elem_of_lookup.
    apply list_lookup_insert_Some in Hk as [(_ & [= <- <-] & _)|[_ Hk]]; [by right|left]. by eapply list_elem_of_lookup_2. }
  destruct (_ <=? _); intros [= <- <-]; (split; [by split_and!|]); (split; [done|]); cbn; intros x v; [by left|].
  rewrite elem_of_app, list_elem_of_singleton. intros [?|[= -> ->]]; [by left|by right].
Qed.
Lemma plain_write io b w s r s' :
  pm_leaf_of g b = None -> s.(s_mfs).(sb).(geo) = g -> do_block_write_with io b w s = (r, s') ->
  frame s s' /\ (forall x, latest s'.(s_disk) x = latest s.(s_disk) x \/ b = x /\ latest s'.(s_disk) x = w)
  /\ forall x v, (x, v) ∈ s'.(s_txn).(t_staged) -> (x, v) ∈ s.(s_txn).(t_staged) \/ x = b /\ v = w.
Proof.
  intros Hb Hg. unfold do_block_write_with. destruct (storage_io_permitted s) as [ok s1] eqn:E. rewrite (bind_run _ _ _ _ _ E).
  apply permitted_frame in E as ((F1 & F2 & F3) & Hd & Ht).
  destruct ok; cbn [negb]; [|intros [= <- <-]; split; [by split_and!|]; split; [intros x; left; by rewrite Hd|rewrite Ht; by left]].
  rewrite (bind_run _ _ _ _ _ (span_leaf_plain b s1 Hb ltac:(congruence))). rewrite (bind_run _ _ s1 s1.(s_txn) s1) by done.
  destruct (t_active _).
  - unfold stage_block. destruct (stage_slot b w s1) as [r1 s2] eqn:E1. rewrite (bind_run _ _ _ _ _ E1). intros [= <- <-].
    apply stage_slot_frame in E1 as ((G1 & G2 & G3) & Hd2 & Hst). rewrite Ht in Hst. split; [split_and!; congruence|].
    split; [intros x; left; congruence|done].
  - intros E1. pose proof (fun x => raw_write_frame b w s1 r s' x E1) as HW. destruct (HW 0) as ((G1 & G2 & G3) & Ht2 & _).
    split; [split_and!; congruence|]. split; [intros x; destruct (HW x) as (_ & _ & Hx); by rewrite <- Hd|]. rewrite Ht2, Ht. by left.
Qed.
(** ** It meets what the tree asks of a device *)
Context (pm : plain_metadata g) (fits : merkle_tree_fits g = true) (low : 0 < g.(merkle_start)).
Lemma offers_ram s s' : s'.(s_disk) = s.(s_disk) -> s'.(s_txn) = s.(s_txn) -> offers s -> offers s'.
Proof. intros Hd Ht H. unfold offers. by rewrite Hd, Ht. Qed.
Lemma store_node_read n l i s r s' :
  tree_node g l i -> offers s -> s.(s_mfs).(sb).(geo) = g -> io_read (io_at (S n)) (merkle_level_base g l + i) s = (r, s') ->
  frame s s' /\ offers s' /\ forall w, r = Some w -> seen w /\ sized w.
Proof.
  intros Hn Ho Hg E. apply plain_read in E as (Hf & HL & Ht & Hw); [|by apply pm|done]. split; [done|]. split.
  - intros l' i' Hn'. cbv zeta. rewrite HL, Ht. by apply Ho.
  - intros w Hr. destruct (Ho l i Hn) as [H1 H2]. destruct (Hw w Hr) as [->|?]; auto.
Qed.
Lemma store_write n b w s r s' :
  pm_leaf_of g b = None -> offers s -> s.(s_mfs).(sb).(geo) = g -> (forall l i, tree_node g l i -> b = merkle_level_base g l + i -> seen w /\ sized w) ->
  io_write (io_at (S n)) b w s = (r, s') -> frame s s' /\ offers s'.
Proof.
  intros Hb Ho Hg Hw E. apply plain_write in E as (Hf & HL & Ht); [|done|done]. split; [done|]. intros l i Hn. cbv zeta.
  destruct (Ho l i Hn) as [H1 H2]. split; [destruct (HL (merkle_level_base g l + i)) as [->|[Eb ->]]; eauto|].
  intros v [?|[Eb ->]]%Ht; eauto.
Qed.
Lemma store_node_write n l i w s r s' :
  tree_node g l i -> offers s -> s.(s_mfs).(sb).(geo) = g -> seen w -> sized w -> io_write (io_at (S n)) (merkle_level_base g l + i) w s = (r, s') ->
  frame s s' /\ offers s'.
Proof. intros Hn Ho Hg Hs Hz E. apply (store_write n (merkle_level_base g l + i) w s r); [by apply pm|done|done|by intros|exact E]. Qed.
Lemma store_super_write n w s r s' :
  offers s -> s.(s_mfs).(sb).(geo) = g -> io_write (io_at (S n)) 0 w s = (r, s') -> frame s s' /\ offers s'.
Proof.
  intros Ho Hg E. apply (store_write n 0 w s r); [apply pm|done|done| |exact E]. intros l i Hn Hb. pose proof (node_block g l i fits Hn). lia.
Qed.
End device.

(** ** The tree as an array *)
(** What a client sees: a leaf recorded, or an image accepted for one. *)
Inductive tree_event := Recorded (leaf : Z) (img : block) | Accepted (leaf : Z) (img : block).
Definition array_step (L : Z -> block) (e : tree_event) : Z -> block :=
  match e with Recorded leaf img => leaf_set L leaf img | Accepted _ _ => L end.
Definition array_after (L : Z -> block) (evs : list tree_event) : Z -> block := foldl array_step L evs.
(** An array of blocks: what is accepted is what was recorded last. *)
Fixpoint array_spec (L : Z -> block) (evs : list tree_event) : Prop :=
  match evs with
  | [] => True
  | e :: evs => match e with Accepted leaf img => img = L leaf | Recorded _ _ => True end /\ array_spec (array_step L e) evs
  end.
Section runs.
Context (g : geometry) (key : list Z) (seen : block -> Prop).
(** Checks and updates, with anything happening on the device in between. *)
Inductive tree_run (N : Z -> Z -> block) (s : store) : list tree_event -> (Z -> Z -> block) -> store -> Prop :=
| R_start : tree_run N s [] N s
| R_device evs N1 s1 s2 : tree_run N s evs N1 s1 -> frame s1 s2 -> offers g seen s2 -> tree_run N s evs N1 s2
| R_check evs N1 s1 leaf img ok s2 :
    tree_run N s evs N1 s1 -> 0 <= leaf < merkle_leaves g -> tick_ok 8 s1 -> merkle_verify_leaf store_io leaf img s1 = (ok, s2) ->
    tree_run N s (evs ++ if ok then [Accepted leaf img] else []) N1 s2
| R_record evs N1 s1 leaf img s2 :
    tree_run N s evs N1 s1 -> 0 <= leaf < merkle_leaves g -> tick_ok 48 s1 ->
    (forall l i, tree_node g l i -> seen ((recorded g key s1.(s_mfs).(sb) N1 leaf img).1 l i)) ->
    merkle_update_leaf store_io leaf img s1 = (true, s2) ->
    tree_run N s (evs ++ [Recorded leaf img]) (recorded g key s1.(s_mfs).(sb) N1 leaf img).1 s2.
(** The MAC was broken at some point of the run: an image the device offered for a node,
    or one a client offered for a leaf, is not the recorded one and has its hash. *)
Definition tree_broken (L : Z -> block) (N : Z -> Z -> block) (s : store) (evs : list tree_event) : Prop :=
  exists evs1 evs2 N1 s1, evs = evs1 ++ evs2 /\ tree_run N s evs1 N1 s1 /\
    (forged g key seen 0 N1 s1.(s_mfs).(sb)
     \/ exists leaf img, head evs2 = Some (Accepted leaf img) /\ img <> array_after L evs1 leaf
          /\ collides (hmac_inputs key (node_msg 0 leaf img)) (hmac_inputs key (node_msg 0 leaf (array_after L evs1 leaf)))).
Lemma array_spec_app L evs evs' : array_spec L (evs ++ evs') <-> array_spec L evs /\ array_spec (array_after L evs) evs'.
Proof. revert L. induction evs as [|e evs IH]; intros L; [cbn; tauto|]. cbn. rewrite IH. tauto. Qed.
Lemma broken_more L N s evs evs' : tree_broken L N s evs -> tree_broken L N s (evs ++ evs').
Proof.
  intros (e1 & e2 & N1 & s1 & -> & Hr & Hb). exists e1, (e2 ++ evs'), N1, s1. rewrite <- app_assoc. split_and!; [done|done|].
  destruct Hb as [?|(leaf & img & Hh & Hx)]; [by left|right]. exists leaf, img. split; [|done]. by destruct e2.
Qed.
Lemma run_auth L N s evs N' s' :
  plain_metadata g -> merkle_tree_fits g = true -> 0 < g.(merkle_start) -> (length key <= 64)%nat ->
  auth g key seen (offers g seen) N L s -> tree_run N s evs N' s' ->
  (auth g key seen (offers g seen) N' (array_after L evs) s' /\ array_spec L evs) \/ tree_broken L N s evs.
Proof.
  intros pm Hfit Hlow Hk Ha.
  pose proof (offers_ram g seen) as D1. pose proof (store_node_read g seen pm 0) as D2. pose proof (store_node_write g seen pm 0) as D3.
  pose proof (store_super_write g seen pm Hfit Hlow 0) as D4.
  induction 1 as [|evs N1 s1 s2 Hrun IH Hf Ho|evs N1 s1 leaf img ok s2 Hrun IH Hl Ht E|evs N1 s1 leaf img s2 Hrun IH Hl Ht Hseen E].
  - left. by split.
  - destruct IH as [[IHa IHs]|]; [left|by right]. destruct IHa as [K1 K2 K3 K4 K5]. split; [|done].
    split; [by eapply frame_auth|destruct Hf as [-> _]; done|done|done|done].
  - destruct IH as [[IHa IHs]|]; [|right; by apply broken_more].
    destruct (verify_leaf_auth g key seen (offers g seen) store_io D1 D2 D3 Hk N1 (array_after L evs) leaf img s1 ok s2 IHa Hl Ht E) as [F|(K1 & _ & _ & K4)].
    { right. exists evs, (if ok then [Accepted leaf img] else []), N1, s1. auto. }
    destruct ok; [|rewrite app_nil_r; by left]. destruct (decide (img = array_after L evs leaf)) as [Eimg|Hne].
    + left. unfold array_after. rewrite foldl_app. cbn. split; [done|]. apply array_spec_app. by split_and!.
    + right. exists evs, [Accepted leaf img], N1, s1. split_and!; [done|done|]. right. exists leaf, img. destruct (K4 eq_refl); by split_and!.
  - destruct IH as [[IHa IHs]|]; [|right; by apply broken_more].
    destruct (update_leaf_auth g key seen (offers g seen) store_io D1 D2 D3 D4 Hk N1 (array_after L evs) leaf img s1 s2 IHa Hl Ht Hseen E) as [F|(K1 & _ & _)].
    { right. exists evs, [Recorded leaf img], N1, s1. auto. }
    left. unfold array_after. rewrite foldl_app. cbn. split; [done|]. apply array_spec_app. by split_and!.
Qed.
End runs.
