(* ===== verification/Format.v ===== *)
(** Laying a volume out (storage.c, [storage_format_sealed]): the geometry computed from
    the size, and what every layout it accepts guarantees to the rest of the code. *)
From S2P Require Import Prelude Sha256 Aead Disk Super Store Journal Tree Staging Knot.

Definition STORAGE_MIN_BLOCKS : Z := 512.
Definition STORAGE_MAGIC : Z := 0x48534653.
Definition STORAGE_VERSION : Z := 14.
Definition META_BLOCKS_MAX : Z := (BLOCKS_PER_DISK + META_ENTRIES_PER_BLOCK - 1) / META_ENTRIES_PER_BLOCK.
Definition KEYSLOT_BLOCKS : Z := 2.
Definition USERS_BLOCKS : Z := 16.
Definition JOURNAL_BLOCKS : Z := 1 + JOURNAL_DATA_MAX.
Definition BITS_PER_BLOCK : Z := BLOCK_SIZE * 8.

(** The block bitmap's length is solved for by iterating. *)
Fixpoint bitmap_blocks (n : nat) (avail bm : Z) : Z :=
  match n with
  | O => bm
  | S n =>
      let d := if bm <? avail then avail - bm else 0 in
      let nb := (d + BITS_PER_BLOCK - 1) / BITS_PER_BLOCK in
      let nb := if nb =? 0 then 1 else nb in
      if nb =? bm then bm else bitmap_blocks n avail nb
  end.
Definition format_size (dev_total volume_blocks : Z) : option Z :=
  let total := if volume_blocks =? 0 then dev_total else volume_blocks in
  if (dev_total <? total) || (total <? STORAGE_MIN_BLOCKS) then None else Some total.
(** The superblock before any key is made. *)
Definition format_geometry (total : Z) : option geometry :=
  let meta_blocks := u32 (u64 (total + META_ENTRIES_PER_BLOCK - 1) / META_ENTRIES_PER_BLOCK) in
  if META_BLOCKS_MAX <? meta_blocks then None else
  let tpm_blob_block := 1 + meta_blocks in
  let keyslot_start := tpm_blob_block + 1 in
  let users_start := keyslot_start + KEYSLOT_BLOCKS in
  let inodes := Z.max (total / 32) 16 in
  let table_blocks := (inodes + INODES_PER_BLOCK - 1) / INODES_PER_BLOCK in
  let inodes := table_blocks * INODES_PER_BLOCK in
  let ib_blocks := (inodes + BITS_PER_BLOCK - 1) / BITS_PER_BLOCK in
  let ib_blocks := if ib_blocks =? 0 then 1 else ib_blocks in
  let span_max := ib_blocks + table_blocks + u64 (total + BITS_PER_BLOCK - 1) / BITS_PER_BLOCK in
  let counts := merkle_layout (meta_blocks + span_max) in
  if (length counts =? 0)%nat then None else
  let merkle_start := users_start + USERS_BLOCKS in
  let merkle_blocks := u32 (foldr Z.add 0 counts) in
  let journal_start := merkle_start + merkle_blocks in
  let after_j := journal_start + JOURNAL_BLOCKS in
  let block_bitmap_start := after_j + ib_blocks in
  let fixed := after_j + ib_blocks + table_blocks in
  if total <=? fixed then None else
  let avail := total - fixed in
  let bm_blocks := bitmap_blocks 8 avail ((avail + BITS_PER_BLOCK - 1) / BITS_PER_BLOCK) in
  if avail <=? bm_blocks then None else
  let inode_table_start := block_bitmap_start + bm_blocks in
  let data_start := inode_table_start + table_blocks in
  if total <=? data_start then None else
  let g levels := mk_geometry STORAGE_MAGIC STORAGE_VERSION 1 meta_blocks journal_start JOURNAL_BLOCKS
    after_j block_bitmap_start 0 inode_table_start data_start inodes (avail - bm_blocks) total BLOCK_SIZE
    (replicate 16 0) (replicate 16 0) 0 (replicate 32 0) (replicate 12 0) (replicate 32 0) (replicate 16 0)
    0 0 0 0 0 keyslot_start KEYSLOT_BLOCKS users_start USERS_BLOCKS merkle_start merkle_blocks levels (u32 ib_blocks) 0 0 in
  let levels := zlen (tree_counts (g 0)) in
  if (levels =? 0) || negb (merkle_tree_fits (g 0)) then None else Some (g levels).

(** ** The bitmap *)
Lemma bits_32768 : BITS_PER_BLOCK = 32768.
Proof. done. Qed.
Definition bm_next (avail bm : Z) : Z :=
  let nb := ((if bm <? avail then avail - bm else 0) + 32767) / 32768 in if nb =? 0 then 1 else nb.
Lemma bitmap_blocks_S n avail bm :
  bitmap_blocks (S n) avail bm = if bm_next avail bm =? bm then bm else bitmap_blocks n avail (bm_next avail bm).
Proof. cbn [bitmap_blocks]. unfold bm_next. rewrite bits_32768. replace (_ + 32768 - 1) with ((if bm <? avail then avail - bm else 0) + 32767) by lia. done. Qed.
(** The iteration alternates between two neighbours at most, and an even number of
    steps ends on one that covers the data. *)
Lemma bitmap_blocks_covers k avail :
  1 < avail <= 4194304 -> let b0 := (avail + 32767) / 32768 in let bm := bitmap_blocks (2 * k) avail b0 in
  1 <= bm <= b0 /\ avail - bm <= bm * 32768.
Proof.
  intros Ha b0. assert (1 <= b0 <= 128 /\ avail <= b0 * 32768 < avail + 32768) as Hb by (unfold b0; Z.to_euclidean_division_equations; lia).
  clearbody b0. cbv zeta. induction k as [|k IH]; [cbn; lia|]. replace (2 * S k)%nat with (S (S (2 * k))) by lia.
  rewrite bitmap_blocks_S. assert (bm_next avail b0 = b0 \/ (bm_next avail b0 = b0 - 1 /\ 2 <= b0)) as Hn.
  { unfold bm_next. destruct (Z.ltb_spec b0 avail); [|lia]. destruct (Z.eqb_spec ((avail - b0 + 32767) / 32768) 0); Z.to_euclidean_division_equations; lia. }
  destruct (Z.eqb_spec (bm_next avail b0) b0); [lia|]. destruct Hn as [?|[Hn Hb2]]; [lia|]. rewrite Hn, bitmap_blocks_S.
  assert (bm_next avail (b0 - 1) = b0 - 1 /\ avail - (b0 - 1) <= (b0 - 1) * 32768 \/ bm_next avail (b0 - 1) = b0) as Hm.
  { unfold bm_next. destruct (Z.ltb_spec (b0 - 1) avail); [|lia]. destruct (Z.eqb_spec ((avail - (b0 - 1) + 32767) / 32768) 0); Z.to_euclidean_division_equations; lia. }
  destruct (Z.eqb_spec (bm_next avail (b0 - 1)) (b0 - 1)); [lia|]. destruct Hm as [[? _]|Hm]; [lia|]. by rewrite Hm.
Qed.

(** ** The tree's region *)
Lemma levels_from_some fuel k n :
  (k < fuel)%nat -> 1 <= n <= 128 ^ Z.of_nat k -> n < 2 ^ 60 -> exists l, merkle_levels_from fuel n = Some l.
Proof.
  revert n fuel. induction k as [|k IH]; intros n [|fuel] Hf Hn Hb; try lia; cbn [merkle_levels_from]; rewrite fanout_128.
  - replace n with 1 by (change (128 ^ Z.of_nat 0) with 1 in Hn; lia). by eexists.
  - destruct (Z.eqb_spec n 1); [by eexists|]. rewrite u64_mod, Z.mod_small by lia. rewrite Nat2Z.inj_succ, Z.pow_succ_r in Hn by lia.
    destruct (IH ((n + 128 - 1) / 128) fuel) as [l ->]; [lia|split; [Z.to_euclidean_division_equations; lia|]|Z.to_euclidean_division_equations; lia|by exists (n :: l)].
    apply Z.lt_succ_r, Z.div_lt_upper_bound; lia.
Qed.
Lemma levels_from_mono fuel n n' l l' :
  1 <= n <= n' -> n' < 2 ^ 60 -> merkle_levels_from fuel n = Some l -> merkle_levels_from fuel n' = Some l' ->
  1 <= foldr Z.add 0 l <= foldr Z.add 0 l'.
Proof.
  revert n n' l l'. induction fuel as [|fuel IH]; intros n n' l l' Hn Hb; [done|]. cbn [merkle_levels_from]. rewrite fanout_128.
  intros E E'.
  assert (forall l', (if n' =? 1 then Some [n'] else cons n' <$> merkle_levels_from fuel (u64 (n' + 128 - 1) / 128)) = Some l' -> n' <= foldr Z.add 0 l') as Hge.
  { intros l0. destruct (Z.eqb_spec n' 1); [intros [= <-]; cbn; lia|]. destruct (merkle_levels_from fuel (u64 (n' + 128 - 1) / 128)) as [l1|] eqn:E1; [|by intros [=]]. intros [= <-].
    rewrite u64_mod, Z.mod_small in E1 by lia.
    assert (1 <= (n' + 128 - 1) / 128 < 2 ^ 60) by (Z.to_euclidean_division_equations; lia).
    destruct (IH _ _ _ _ (conj (proj1 H) (Z.le_refl _)) (proj2 H) E1 E1). cbn. lia. }
  destruct (Z.eqb_spec n 1) as [->|]; [injection E as <-; apply Hge in E'; cbn; lia|]. destruct (Z.eqb_spec n' 1); [lia|].
  destruct (merkle_levels_from fuel (u64 (n + 128 - 1) / 128)) as [m|] eqn:E1; [|done].
  destruct (merkle_levels_from fuel (u64 (n' + 128 - 1) / 128)) as [m'|] eqn:E1'; [|done]. injection E as <-. injection E' as <-.
  rewrite u64_mod, Z.mod_small in E1, E1' by lia.
  destruct (IH ((n + 128 - 1) / 128) ((n' + 128 - 1) / 128) m m') as [? ?]; [..|done|done|cbn; lia]; Z.to_euclidean_division_equations; lia.
Qed.
Lemma layout_some n : 0 < n <= 2 ^ 24 -> exists c, merkle_layout n = c /\ c <> [] /\ 1 <= foldr Z.add 0 c <= 2 * ((n + 127) / 128).
Proof.
  intros Hn. unfold merkle_layout. destruct (Z.eqb_spec n 0); [lia|]. rewrite fanout_128, u64_mod, Z.mod_small by lia.
  replace (n + 128 - 1) with (n + 127) by lia. set (k := (n + 127) / 128).
  assert (1 <= k <= 128 ^ Z.of_nat 3) as Hk by (unfold k; Z.to_euclidean_division_equations; lia).
  destruct (levels_from_some MERKLE_MAX_LEVELS 3 k) as [l E]; [unfold MERKLE_MAX_LEVELS; lia|done|lia|]. rewrite E.
  destruct (levels_from_shape MERKLE_MAX_LEVELS k l ltac:(lia) E) as [Hs [l' ->]]. exists (k :: l'). split_and!; [done|done|..]; destruct (shape_sum _ _ Hs); lia.
Qed.
Lemma layout_mono n n' : 0 < n <= n' -> n' <= 2 ^ 24 -> foldr Z.add 0 (merkle_layout n) <= foldr Z.add 0 (merkle_layout n').
Proof.
  intros Hn Hb. unfold merkle_layout. destruct (Z.eqb_spec n 0), (Z.eqb_spec n' 0); try lia. rewrite fanout_128, !u64_mod, !Z.mod_small by lia.
  set (k := (n + 128 - 1) / 128). set (k' := (n' + 128 - 1) / 128).
  assert (1 <= k <= k' /\ k' <= 128 ^ Z.of_nat 3) as Hk by (unfold k, k'; Z.to_euclidean_division_equations; lia).
  destruct (levels_from_some MERKLE_MAX_LEVELS 3 k) as [l E]; [unfold MERKLE_MAX_LEVELS; lia|lia|lia|].
  destruct (levels_from_some MERKLE_MAX_LEVELS 3 k') as [l' E']; [unfold MERKLE_MAX_LEVELS; lia|lia|lia|]. rewrite E, E'. cbn [default].
  by destruct (levels_from_mono MERKLE_MAX_LEVELS k k' l l' ltac:(lia) ltac:(lia) E E').
Qed.

(** ** What a layout guarantees *)
(** The regions follow one another without a gap, and each is large enough. *)
Record layout_ok (g : geometry) : Prop := {
  ly_meta : g.(meta_start) = 1;
  ly_keyslots : g.(keyslot_start) = g.(meta_start) + g.(meta_blocks) + 1 /\ g.(keyslot_blocks) = KEYSLOT_BLOCKS;
  ly_users : g.(users_start) = g.(keyslot_start) + g.(keyslot_blocks) /\ g.(users_blocks) = USERS_BLOCKS;
  ly_merkle : g.(merkle_start) = g.(users_start) + g.(users_blocks) /\ 1 <= g.(merkle_blocks);
  ly_journal : g.(journal_start) = g.(merkle_start) + g.(merkle_blocks) /\ g.(journal_blocks) = JOURNAL_BLOCKS;
  ly_inode_bitmap : g.(inode_bitmap_start) = g.(journal_start) + g.(journal_blocks);
  ly_block_bitmap : g.(block_bitmap_start) = g.(inode_bitmap_start) + g.(inode_bitmap_blocks);
  ly_table : g.(block_bitmap_start) < g.(inode_table_start);
  ly_data : g.(data_start) = g.(inode_table_start) + g.(inode_count) / INODES_PER_BLOCK;
  ly_total : g.(data_start) + g.(block_count) = g.(total_blocks) /\ 0 < g.(block_count);
  ly_inodes_covered : 16 <= g.(inode_count) <= g.(inode_bitmap_blocks) * BITS_PER_BLOCK /\ g.(inode_count) mod INODES_PER_BLOCK = 0;
  ly_blocks_covered : g.(block_count) <= (g.(inode_table_start) - g.(block_bitmap_start)) * BITS_PER_BLOCK;
  ly_nonces_covered : g.(total_blocks) <= g.(meta_blocks) * META_ENTRIES_PER_BLOCK;
  ly_tree : merkle_tree_fits g = true /\ g.(merkle_levels) = zlen (tree_counts g)
}.
Lemma fits_mono g n :
  0 < merkle_leaves g <= n -> n <= 2 ^ 24 -> foldr Z.add 0 (merkle_layout n) = g.(merkle_blocks) -> merkle_tree_fits g = true /\ tree_counts g <> [].
Proof.
  intros Hl Hn Hm. pose proof (layout_mono (merkle_leaves g) n ltac:(lia) ltac:(lia)) as Hle. unfold merkle_tree_fits, tree_counts.
  destruct (layout_some (merkle_leaves g)) as (c & Ec & Hc & Hs); [lia|]. rewrite Ec in *. cbv zeta. destruct c as [|x c]; [done|].
  split; [|done]. cbn [length Nat.eqb]. apply Z.leb_le. rewrite u64_mod, Z.mod_small; [lia|]. Z.to_euclidean_division_equations. lia.
Qed.
Lemma format_geometry_ok total :
  STORAGE_MIN_BLOCKS <= total <= BLOCKS_PER_DISK ->
  exists g, format_geometry total = Some g /\ layout_ok g /\ g.(total_blocks) = total.
Proof.
  unfold STORAGE_MIN_BLOCKS, BLOCKS_PER_DISK. intros Ht. unfold format_geometry.
  change META_ENTRIES_PER_BLOCK with 128. change META_BLOCKS_MAX with 32768. change BITS_PER_BLOCK with 32768. change INODES_PER_BLOCK with 16.
  change JOURNAL_BLOCKS with 25. change KEYSLOT_BLOCKS with 2. change USERS_BLOCKS with 16. 
  assert (u32 (u64 (total + 128 - 1) / 128) = (total + 127) / 128) as ->.
  { rewrite u64_mod, (Z.mod_small _ (2 ^ 64)) by lia. rewrite u32_mod, Z.mod_small; Z.to_euclidean_division_equations; lia. }
  assert (u64 (total + 32768 - 1) / 32768 = (total + 32767) / 32768) as -> by (rewrite u64_mod, Z.mod_small by lia; f_equal; lia).
  cbv zeta. set (mb := (total + 127) / 128). set (tb := (Z.max (total / 32) 16 + 16 - 1) / 16).
  set (ib := (tb * 16 + 32768 - 1) / 32768). set (sp := (total + 32767) / 32768).
  assert (4 <= mb <= 32768 /\ total <= mb * 128 < total + 128) as Hmb by (unfold mb; Z.to_euclidean_division_equations; lia).
  assert (1 <= tb /\ tb * 512 <= total + 512) as Htb by (unfold tb; Z.to_euclidean_division_equations; lia).
  assert (1 <= ib <= 5 /\ tb * 16 <= ib * 32768 < tb * 16 + 32768) as Hib by (unfold ib; Z.to_euclidean_division_equations; lia).
  assert (1 <= sp /\ total <= sp * 32768 < total + 32768) as Hsp by (unfold sp; Z.to_euclidean_division_equations; lia).
  destruct (Z.ltb_spec 32768 mb); [lia|]. destruct (Z.eqb_spec ib 0); [lia|].
  destruct (layout_some (mb + (ib + tb + sp))) as (c & Ec & Hc & Hs); [lia|]. rewrite Ec. set (nodes := foldr Z.add 0 c) in *.
  assert (u32 nodes = nodes) as -> by (rewrite u32_mod, Z.mod_small; [done|]; Z.to_euclidean_division_equations; lia).
  assert (u32 ib = ib) as -> by (rewrite u32_mod, Z.mod_small; [done|]; lia).
  destruct (Nat.eqb_spec (length c) 0) as [E|_]; [by destruct c|].
  assert (1 <= nodes <= 700 /\ nodes * 64 <= mb + (ib + tb + sp) + 127 + 64) as Hnodes by (Z.to_euclidean_division_equations; lia).
  assert (foldr Z.add 0 c = nodes) as Hfold by done. clearbody mb tb ib nodes.
  set (fixed := 1 + mb + 1 + 2 + 16 + nodes + 25 + ib + tb). destruct (Z.leb_spec total fixed) as [Hf|Hf]; [unfold fixed in Hf; lia|].
  set (avail := total - fixed). assert (1 < avail <= 4194304) as Hav by (unfold avail, fixed in *; lia).
  pose proof (bitmap_blocks_covers 4 avail Hav) as [Hbm Hcov]. change (2 * 4)%nat with 8%nat in *.
  replace (avail + 32768 - 1) with (avail + 32767) by lia. set (b0 := (avail + 32767) / 32768) in *.
  assert (b0 <= sp /\ b0 * 32768 < avail + 32768) as Hb0 by (unfold b0, sp, avail in *; Z.to_euclidean_division_equations; lia).
  set (bm := bitmap_blocks 8 avail b0) in *. clearbody bm b0 sp. destruct (Z.leb_spec avail bm); [lia|].
  destruct (Z.leb_spec total (1 + mb + 1 + 2 + 16 + nodes + 25 + ib + bm + tb)) as [Hd|Hd]; [unfold avail, fixed in *; lia|].
  match goal with |- context [tree_counts ?G] => set (g := G) end.
  assert (merkle_leaves g = mb + (ib + bm + tb)) as Hlv.
  { unfold merkle_leaves, g. cbn [meta_blocks data_start inode_bitmap_start]. destruct (Z.eqb_spec mb 0); [lia|]. cbn [orb].
    destruct (Z.leb_spec (1 + mb + 1 + 2 + 16 + nodes + 25 + ib + bm + tb) (1 + mb + 1 + 2 + 16 + nodes + 25)); [lia|].
    rewrite u64_mod, Z.mod_small by lia. lia. }
  destruct (fits_mono g (mb + (ib + tb + sp))) as [Hfit Hne]; [lia|lia|by rewrite Ec|].
  destruct (Z.eqb_spec (zlen (tree_counts g)) 0) as [E|_]; [destruct (tree_counts g); [done|unfold zlen in E; cbn [length] in E; lia]|]. rewrite Hfit. cbn [negb orb].
  eexists. split; [done|]. split; [|done].
  split; cbn; unfold avail, fixed in *; change BITS_PER_BLOCK with 32768; change INODES_PER_BLOCK with 16; change META_ENTRIES_PER_BLOCK with 128;
    rewrite ?Z.div_mul, ?Z.mod_mul by lia; try done; try lia.
Qed.

Lemma layout_wf g : layout_ok g -> 0 <= g.(meta_blocks) -> wf_geo g /\ plain_metadata g /\ geo_ok g g.(total_blocks).
Proof.
  intros [H1 [H2 H3] [H4 H5] [H6 H7] [H8 H9] H10 H11 H12 H13 [H14 H15] [[H16 H16'] H16''] H17 H18 [H19 H20]] Hm.
  change JOURNAL_BLOCKS with 25 in *. change KEYSLOT_BLOCKS with 2 in *. change USERS_BLOCKS with 16 in *.
  assert (0 <= g.(inode_bitmap_blocks)) by (change BITS_PER_BLOCK with 32768 in *; lia).
  assert (0 <= g.(inode_count) / INODES_PER_BLOCK) by (change INODES_PER_BLOCK with 16 in *; apply Z.div_pos; lia).
  assert (forall b, b < g.(inode_bitmap_start) -> pm_leaf_of g b = None) as Hpm.
  { intros b Hb. unfold pm_leaf_of. by destruct (Z.ltb_spec b (inode_bitmap_start g)); [|lia]. }
  split; [|split; [|unfold geo_ok; lia]].
  - split; [..|done|]; unfold home, in_journal; intros; lia.
  - split; try lia; [apply Hpm; lia|intros i Hi; apply Hpm; lia|]. intros l i Hn. apply Hpm. pose proof (node_block g l i H19 Hn). lia.
Qed.
