(* ===== verification/Files.v ===== *)
(** Files on the encrypted volume (storage.c): the two bitmaps, the inode table, the
    sealed pointer trees, reading, writing and freeing the blocks of a file,
    directories, the operation log and the sweep that repairs a volume. *)
From S2P Require Import Prelude Sha256 Aead Disk Super Store.

(** ** Bitmaps *)
Definition BITS_PER_BITMAP_BLOCK : Z := BLOCK_SIZE * 8.
Definition PTRS_PER_BLOCK : Z := BLOCK_SIZE / 8.
Definition FSCK_MAX_DEPTH : nat := 3.
Definition bitmap_test (bitmap : block) (bit : Z) : bool := negb (Z.land (zget 0 bitmap (bit / 8)) (Z.shiftl 1 (bit mod 8)) =? 0).
Definition bitmap_set (bitmap : block) (bit : Z) : block :=
  zset bitmap (bit / 8) (Z.land (Z.lor (zget 0 bitmap (bit / 8)) (Z.shiftl 1 (bit mod 8))) 0xFF).
Definition bitmap_clear (bitmap : block) (bit : Z) : block :=
  zset bitmap (bit / 8) (Z.land (Z.land (zget 0 bitmap (bit / 8)) (Z.lnot (Z.shiftl 1 (bit mod 8)))) 0xFF).
Definition bitmap_find_free (bitmap : block) (max_bits : Z) : option Z :=
  find_index (fun i => negb (bitmap_test bitmap i)) 0 (Z.to_nat max_bits).

Definition geo_of : SM geometry := gets (fun s => s.(s_mfs).(sb).(geo)).
Definition read_block_bitmap_n (bm_idx : Z) : SM (option block) :=
  count (fun c => mk_stats c.(g_meta_evictions) c.(g_meta_dirty_evictions) c.(g_merkle_evictions) c.(g_span_refusals)
    c.(g_txn_highwater) c.(g_free_batches) (c.(g_alloc_bitmap_reads) + 1) c.(g_storage_op_unheld));;
  g ← geo_of; do_block_read (u64 (g.(block_bitmap_start) + bm_idx)).
Definition write_block_bitmap_n (bm_idx : Z) (buf : block) : SM bool :=
  g ← geo_of; do_block_write (u64 (g.(block_bitmap_start) + bm_idx)) buf.
(** The scan from block [start] of the bitmap, [n] blocks of it left, and so around. *)
Fixpoint alloc_scan (nbm start : Z) (n : nat) (i : Z) : SM (option Z) :=
  match n with
  | O => mret None
  | S n =>
      g ← geo_of;
      let bm := if nbm <=? start + i then start + i - nbm else start + i in
      let base := bm * BITS_PER_BITMAP_BLOCK in
      let bits_here := Z.min (g.(block_count) - base) BITS_PER_BITMAP_BLOCK in
      r ← read_block_bitmap_n bm;
      match r with
      | None => mret None
      | Some bitmap =>
          match bitmap_find_free bitmap bits_here with
          | Some bit =>
              ok ← write_block_bitmap_n bm (bitmap_set bitmap bit);
              if negb ok then mret None else modify (set_hint bm);; mret (Some (g.(data_start) + base + bit))
          | None => alloc_scan nbm start n (i + 1)
          end
      end
  end.
(** [None] is the C function's -1. *)
Definition storage_alloc_block : SM (option Z) := STORAGE_OP (
  g ← geo_of;
  let nbm := u64 (g.(block_count) + BITS_PER_BITMAP_BLOCK - 1) / BITS_PER_BITMAP_BLOCK in
  if nbm =? 0 then mret None else
  hint ← gets g_alloc_hint;
  alloc_scan nbm (if hint <? nbm then hint else 0) (Z.to_nat nbm) 0).
Definition storage_free_block (b : Z) : SM unit := STORAGE_OP (
  g ← geo_of;
  let rel := u64 (b - g.(data_start)) in
  r ← read_block_bitmap_n (rel / BITS_PER_BITMAP_BLOCK);
  match r with
  | None => mret tt
  | Some bitmap => _ ← write_block_bitmap_n (rel / BITS_PER_BITMAP_BLOCK) (bitmap_clear bitmap (rel mod BITS_PER_BITMAP_BLOCK)); mret tt
  end).
(** Does another inode of the same table block hold a bit? *)
Definition inode_table_block_in_use (g : geometry) (bm : block) (bm_base ino : Z) : bool :=
  let first := ino / INODES_PER_BLOCK * INODES_PER_BLOCK in
  existsb (fun i => negb ((i =? ino) || (g.(inode_count) <=? i)) && in_range bm_base (bm_base + BITS_PER_BITMAP_BLOCK) i
                    && bitmap_test bm (i - bm_base)) (seqZ first INODES_PER_BLOCK).
Fixpoint alloc_inode_scan (n : nat) (bm remaining : Z) : SM (option Z) :=
  match n with
  | O => mret None
  | S n =>
      g ← geo_of;
      let base := bm * BITS_PER_BITMAP_BLOCK in
      let here := Z.min remaining BITS_PER_BITMAP_BLOCK in
      r ← do_block_read (g.(inode_bitmap_start) + bm);
      match r with
      | None => mret None
      | Some bitmap =>
          match bitmap_find_free bitmap here with
          | Some bit =>
              let ino := base + bit in
              ok ← (if inode_table_block_in_use g bitmap base ino then mret true
                    else do_block_write (g.(inode_table_start) + ino / INODES_PER_BLOCK) zero_block);
              if negb ok then mret None else
              ok ← do_block_write (g.(inode_bitmap_start) + bm) (bitmap_set bitmap bit);
              if negb ok then mret None else mret (Some ino)
          | None => alloc_inode_scan n (bm + 1) (remaining - here)
          end
      end
  end.
Definition storage_alloc_inode : SM (option Z) := STORAGE_OP (
  g ← geo_of;
  alloc_inode_scan (Z.to_nat ((g.(inode_count) + BITS_PER_BITMAP_BLOCK - 1) / BITS_PER_BITMAP_BLOCK)) 0 g.(inode_count)).
Definition storage_free_inode (ino : Z) : SM unit := STORAGE_OP (
  g ← geo_of;
  if g.(inode_count) <=? ino then mret tt else
  let b := g.(inode_bitmap_start) + ino / BITS_PER_BITMAP_BLOCK in
  r ← do_block_read b;
  match r with
  | None => mret tt
  | Some bitmap => _ ← do_block_write b (bitmap_clear bitmap (ino mod BITS_PER_BITMAP_BLOCK)); mret tt
  end).

(** ** The inode table *)
Record on_disk_inode := mk_inode {
  i_size : Z; i_type : Z; i_mode : Z; i_uid : Z; i_gid : Z; i_atime : Z; i_mtime : Z; i_ctime : Z;
  i_direct : list Z; i_indirect : Z; i_double_indirect : Z; i_triple_indirect : Z;
  i_key_material : list Z; i_file_key : list Z; i_file_iv : list Z; i_links : Z; i_generation : Z; i_checksum : Z; i_pad : list Z
}.
Definition INODE_SIZE : Z := 248.
Definition inode_widths : list nat :=
  [8; 4; 4; 4; 4; 8; 8; 8]%nat ++ replicate 12 8%nat ++ [8; 8; 8; 32; 16; 16; 4; 4; 4; 4]%nat.
Definition inode_fields (i : on_disk_inode) : list (list Z) :=
  [to_le_bytes 8 i.(i_size); to_le_bytes 4 i.(i_type); to_le_bytes 4 i.(i_mode); to_le_bytes 4 i.(i_uid); to_le_bytes 4 i.(i_gid);
   to_le_bytes 8 i.(i_atime); to_le_bytes 8 i.(i_mtime); to_le_bytes 8 i.(i_ctime)] ++ (to_le_bytes 8 <$> i.(i_direct))
  ++ [to_le_bytes 8 i.(i_indirect); to_le_bytes 8 i.(i_double_indirect); to_le_bytes 8 i.(i_triple_indirect);
      i.(i_key_material); i.(i_file_key); i.(i_file_iv); to_le_bytes 4 i.(i_links); to_le_bytes 4 i.(i_generation);
      to_le_bytes 4 i.(i_checksum); i.(i_pad)].
Definition inode_bytes (i : on_disk_inode) : list Z := mjoin (inode_fields i).
Definition inode_of_bytes (b : list Z) : on_disk_inode :=
  let a := field inode_widths b in let n (k : nat) := from_le_bytes (a k) in
  (mk_inode (n 0) (n 1) (n 2) (n 3) (n 4) (n 5) (n 6) (n 7) (n <$> seq 8 12) (n 20) (n 21) (n 22) (a 23) (a 24) (a 25)
    (n 26) (n 27) (n 28) (a 29))%nat.
Definition inode_off (ino : Z) : Z := ino mod INODES_PER_BLOCK * INODE_SIZE.
Definition inode_block (g : geometry) (ino : Z) : Z := g.(inode_table_start) + ino / INODES_PER_BLOCK.
Definition inode_at (buf : block) (ino : Z) : on_disk_inode := inode_of_bytes (drop (Z.to_nat (inode_off ino)) buf).
Definition storage_read_inode (ino : Z) : SM (option on_disk_inode) := STORAGE_OP (
  g ← geo_of;
  if g.(inode_count) <=? ino then mret None else
  r ← do_block_read (inode_block g ino);
  mret ((fun buf => inode_at buf ino) <$> r)).
Definition storage_write_inode (ino : Z) (i : on_disk_inode) : SM bool := STORAGE_OP (
  g ← geo_of;
  if g.(inode_count) <=? ino then mret false else
  r ← do_block_read (inode_block g ino);
  match r with
  | None => mret false
  | Some buf => do_block_write (inode_block g ino) (splice buf (inode_off ino) (inode_bytes i))
  end).
Definition i_set_direct i v := mk_inode i.(i_size) i.(i_type) i.(i_mode) i.(i_uid) i.(i_gid) i.(i_atime) i.(i_mtime) i.(i_ctime) v
  i.(i_indirect) i.(i_double_indirect) i.(i_triple_indirect) i.(i_key_material) i.(i_file_key) i.(i_file_iv) i.(i_links)
  i.(i_generation) i.(i_checksum) i.(i_pad).
Definition i_set_roots i a b c := mk_inode i.(i_size) i.(i_type) i.(i_mode) i.(i_uid) i.(i_gid) i.(i_atime) i.(i_mtime) i.(i_ctime)
  i.(i_direct) a b c i.(i_key_material) i.(i_file_key) i.(i_file_iv) i.(i_links) i.(i_generation) i.(i_checksum) i.(i_pad).
Definition i_set_size i v := mk_inode v i.(i_type) i.(i_mode) i.(i_uid) i.(i_gid) i.(i_atime) i.(i_mtime) i.(i_ctime) i.(i_direct)
  i.(i_indirect) i.(i_double_indirect) i.(i_triple_indirect) i.(i_key_material) i.(i_file_key) i.(i_file_iv) i.(i_links)
  i.(i_generation) i.(i_checksum) i.(i_pad).
Definition i_set_links i v := mk_inode i.(i_size) i.(i_type) i.(i_mode) i.(i_uid) i.(i_gid) i.(i_atime) i.(i_mtime) i.(i_ctime)
  i.(i_direct) i.(i_indirect) i.(i_double_indirect) i.(i_triple_indirect) i.(i_key_material) i.(i_file_key) i.(i_file_iv) v
  i.(i_generation) i.(i_checksum) i.(i_pad).

(** ** Pointer blocks, sealed under an identity no data block has *)
Definition PTR_BLOCK_TAG : Z := 2 ^ 63.
Definition ptr_block_id (tree depth base : Z) : Z :=
  Z.lor (Z.lor (Z.lor PTR_BLOCK_TAG (Z.shiftl (Z.land tree 7) 60)) (Z.shiftl (Z.land depth 15) 56)) (Z.land base (2 ^ 56 - 1)).
Definition ptr_block_read (ino id phys : Z) : SM (option block) :=
  r ← do_block_read phys;
  match r with
  | None => mret None
  | Some buf => r ← storage_decrypt_block store_io phys ino id buf; mret (if r.1 : bool then Some r.2 else None)
  end.
Definition ptr_block_write (ino id phys : Z) (buf : block) : SM bool :=
  r ← storage_encrypt_block store_io phys ino id buf;
  if negb r.1 then mret false else do_block_write phys r.2.
(** Entry [k] of a pointer block. *)
Definition ptr_get (blk : block) (k : Z) : Z := from_le_bytes (take 8 (drop (Z.to_nat (k * 8)) blk)).
Definition ptr_set (blk : block) (k v : Z) : block := splice blk (k * 8) (to_le_bytes 8 v).
Definition ptr_span (depth : nat) : Z := PTRS_PER_BLOCK ^ Z.of_nat depth.

(** The mapping of [index] below a pointer block, and what the slot that names the
    block holds afterwards. [depth] levels of pointer block are below it; 0 is no
    mapping. *)
Fixpoint walk_ptr_tree (ino tree base slot : Z) (depth : nat) (index : Z) (allocate : bool) : SM (Z * Z) :=
  if (FSCK_MAX_DEPTH <=? depth)%nat then mret (0, slot) else
  let id := ptr_block_id tree (Z.of_nat depth) base in
  r ← (if slot =? 0 then
         if negb allocate then mret (None, slot) else
         got ← storage_alloc_block;
         match got with
         | None => mret (None, slot)
         | Some ptr_blk => ok ← ptr_block_write ino id ptr_blk zero_block; mret (if ok : bool then Some zero_block else None, ptr_blk)
         end
       else r ← ptr_block_read ino id slot; mret (r, slot));
  let '(blk, ptr_blk) := r in
  match blk with
  | None => mret (0, ptr_blk)
  | Some blk =>
      let slot_i := index / ptr_span depth in
      if PTRS_PER_BLOCK <=? slot_i then mret (0, ptr_blk) else
      match depth with
      | O =>
          let phys := ptr_get blk slot_i in
          if (phys =? 0) && allocate then
            got ← storage_alloc_block;
            match got with
            | None => mret (0, ptr_blk)
            | Some phys => ok ← ptr_block_write ino id ptr_blk (ptr_set blk slot_i phys); mret (if ok : bool then phys else 0, ptr_blk)
            end
          else mret (phys, ptr_blk)
      | S d =>
          let before := ptr_get blk slot_i in
          r ← walk_ptr_tree ino tree (base + slot_i * ptr_span depth) before d (index mod ptr_span depth) allocate;
          let '(phys, child) := r in
          if negb (child =? before) then
            ok ← ptr_block_write ino id ptr_blk (ptr_set blk slot_i child); mret (if ok : bool then phys else 0, ptr_blk)
          else mret (phys, ptr_blk)
      end
  end.
(** The physical block of a logical one, and the inode with what was allocated. *)
Definition get_physical_block (ino : Z) (i : on_disk_inode) (b : Z) (allocate : bool) : SM (Z * on_disk_inode) :=
  if b <? 12 then
    let phys := zget 0 i.(i_direct) b in
    if (phys =? 0) && allocate then
      got ← storage_alloc_block;
      match got with
      | None => mret (0, i)
      | Some phys => mret (phys, i_set_direct i (zset i.(i_direct) b phys))
      end
    else mret (phys, i)
  else
  let b := b - 12 in
  if b <? PTRS_PER_BLOCK then
    r ← walk_ptr_tree ino 0 0 i.(i_indirect) 0 b allocate;
    mret (r.1, i_set_roots i r.2 i.(i_double_indirect) i.(i_triple_indirect))
  else
  let b := b - PTRS_PER_BLOCK in
  if b <? PTRS_PER_BLOCK * PTRS_PER_BLOCK then
    r ← walk_ptr_tree ino 1 0 i.(i_double_indirect) 1 b allocate;
    mret (r.1, i_set_roots i i.(i_indirect) r.2 i.(i_triple_indirect))
  else
  let b := b - PTRS_PER_BLOCK * PTRS_PER_BLOCK in
  if b <? PTRS_PER_BLOCK * PTRS_PER_BLOCK * PTRS_PER_BLOCK then
    r ← walk_ptr_tree ino 2 0 i.(i_triple_indirect) 2 b allocate;
    mret (r.1, i_set_roots i i.(i_indirect) i.(i_double_indirect) r.2)
  else mret (0, i).

(** ** The blocks of a file *)
Definition storage_read_file_block (ino b : Z) : SM (option block) := STORAGE_OP (
  r ← storage_read_inode ino;
  match r with
  | None => mret None
  | Some i =>
      p ← get_physical_block ino i b false;
      if p.1 =? 0 then mret None else
      r ← do_block_read p.1;
      match r with
      | None => mret None
      | Some temp => r ← storage_decrypt_block store_io p.1 ino b temp; mret (if r.1 : bool then Some r.2 else None)
      end
  end).
(** One transaction: the allocation, the inode, the nonces and the block. *)
Definition storage_write_file_block (ino b : Z) (buf : block) : SM bool := STORAGE_OP (
  journal_begin;;
  r ← storage_read_inode ino;
  match r with
  | None => journal_abort;; mret false
  | Some i =>
      p ← get_physical_block ino i b true;
      if p.1 =? 0 then journal_abort;; mret false else
      _ ← storage_write_inode ino p.2;
      r ← storage_encrypt_block store_io p.1 ino b buf;
      if negb r.1 then journal_abort;; mret false else
      ok ← do_block_write p.1 r.2;
      if negb ok then journal_abort;; mret false else journal_commit store_io
  end).

(** ** Freeing a file *)
Definition FREE_BATCH_HEADROOM : Z := 2 + Z.of_nat MERKLE_MAX_LEVELS.
Definition merkle_dirty_lines : SM Z :=
  gets (fun s => zlen (filter (fun l => negb (l.(kl_index) =? MERKLE_IDX_NONE) && l.(kl_dirty) = true) s.(g_merkle_cache))).
(** The batch so far is committed when this block could take it past the journal. *)
Definition free_block_batched (b : Z) : SM bool :=
  t ← gets s_txn;
  dirty ← merkle_dirty_lines;
  ok ← (if JOURNAL_DATA_MAX <? zlen t.(t_staged) + dirty + FREE_BATCH_HEADROOM then
          count (fun c => mk_stats c.(g_meta_evictions) c.(g_meta_dirty_evictions) c.(g_merkle_evictions) c.(g_span_refusals)
            c.(g_txn_highwater) (c.(g_free_batches) + 1) c.(g_alloc_bitmap_reads) c.(g_storage_op_unheld));;
          ok ← journal_commit store_io;
          if negb ok then mret false else journal_begin;; mret true
        else mret true);
  if negb ok then mret false else
  storage_free_block b;;
  t ← gets s_txn; mret (negb t.(t_overflow)).
Fixpoint free_ptr_tree (ino tree base ptr_blk : Z) (depth : nat) : SM bool :=
  if (ptr_blk =? 0) || (FSCK_MAX_DEPTH <=? depth)%nat then mret true else
  r ← ptr_block_read ino (ptr_block_id tree (Z.of_nat depth) base) ptr_blk;
  ok ← match r with
       | None => mret true
       | Some blk =>
           all_ok (fun k =>
             let p := ptr_get blk k in
             if p =? 0 then mret true else
             match depth with
             | O => free_block_batched p
             | S d => free_ptr_tree ino tree (base + k * ptr_span depth) p d
             end) (seqZ 0 PTRS_PER_BLOCK)
       end;
  if negb ok then mret false else free_block_batched ptr_blk.
(** The superblock, written from where it lies in the volume's record. *)
Definition write_superblock : SM unit := b ← superblock_block; _ ← do_block_write 0 b; mret tt.
Definition storage_free_inode_blocks (ino : Z) : SM bool := STORAGE_OP (
  journal_begin;;
  r ← storage_read_inode ino;
  match r with
  | None => journal_abort;; mret false
  | Some i =>
      ok ← storage_write_inode ino (i_set_links (i_set_size i 0) 0);
      if negb ok then journal_abort;; mret false else
      upd_sb (set_needs_fsck 1);; write_superblock;;
      ok ← journal_commit store_io; if negb ok then mret false else
      journal_begin;;
      ok ← all_ok (fun p => if p =? 0 then mret true else free_block_batched p) i.(i_direct);
      ok ← (if ok : bool then
              all_ok (fun lp : nat * Z => if lp.2 =? 0 then mret true else free_ptr_tree ino (Z.of_nat lp.1) 0 lp.2 lp.1)
                [(0%nat, i.(i_indirect)); (1%nat, i.(i_double_indirect)); (2%nat, i.(i_triple_indirect))]
            else mret false);
      if negb ok then journal_abort;; mret false else
      ok ← journal_commit store_io; if negb ok then mret false else
      journal_begin;;
      r ← storage_read_inode ino;
      match r with
      | None => journal_abort;; mret false
      | Some i =>
          _ ← storage_write_inode ino
                (i_set_links (i_set_size (i_set_roots (i_set_direct i (replicate 12 0)) 0 0 0) 0) 0);
          storage_free_inode ino;;
          upd_sb (set_needs_fsck 0);; write_superblock;;
          journal_commit store_io
      end
  end).

(** ** Directories *)
Definition DIR_ENTRY_SIZE : Z := 48.
(** [name[32]], [ino], [type], [name_len] and [inode] of the entry at [off]. *)
Definition de_word (buf : block) (off k : Z) : Z := from_le_bytes (take 4 (drop (Z.to_nat (off + 32 + 4 * k)) buf)).
Definition de_inode (buf : block) (off : Z) : Z := de_word buf off 3.
Definition de_name_len (buf : block) (off : Z) : Z := de_word buf off 2.
Definition dir_offsets : list Z := (fun k => k * DIR_ENTRY_SIZE) <$> seqZ 0 (BLOCK_SIZE / DIR_ENTRY_SIZE).
(** Strings end with a zero byte; past the end of a buffer the model reads zeros. *)
Fixpoint my_strncmp (a b : list Z) (n : nat) : Z :=
  match n with
  | O => 0
  | S n => let x := default 0 (head a) in let y := default 0 (head b) in
      if negb (x =? 0) && (x =? y) then my_strncmp (tail a) (tail b) n else x - y
  end.
(** What [my_strncpy] copies: the string and its zero, at most [n] bytes. *)
Definition my_strncpy (name : list Z) (n : nat) : list Z := take n (name ++ [0]).
Definition de_write (buf : block) (off : Z) (name : list Z) (child_ino type : Z) : block :=
  let buf := splice buf (off + 44) (to_le_bytes 4 child_ino) in
  let buf := splice buf (off + 40) (to_le_bytes 4 (zlen name)) in
  let buf := splice buf (off + 36) (to_le_bytes 4 type) in
  splice buf off (my_strncpy name 32).
Fixpoint dir_scan {A} (dir_ino : Z) (n : nat) (b : Z) (f : Z -> block -> option A) : SM (option A) :=
  match n with
  | O => mret None
  | S n =>
      r ← storage_read_file_block dir_ino b;
      match r ≫= f b with
      | Some x => mret (Some x)
      | None => dir_scan dir_ino n (b + 1) f
      end
  end.
Definition dir_blocks (dir : on_disk_inode) : Z := u64 (dir.(i_size) + BLOCK_SIZE - 1) / BLOCK_SIZE.
Definition storage_dir_lookup (dir_ino : Z) (name : list Z) : SM (option Z) := STORAGE_OP (
  r ← storage_read_inode dir_ino;
  match r with
  | None => mret None
  | Some dir =>
      dir_scan dir_ino (Z.to_nat (dir_blocks dir)) 0 (fun _ buf =>
        de_inode buf <$> find (fun off => negb (de_inode buf off =? 0) && (de_name_len buf off =? zlen name)
          && (my_strncmp (drop (Z.to_nat off) buf) name (length name) =? 0)) dir_offsets)
  end).
Definition storage_dir_add (dir_ino : Z) (name : list Z) (child_ino type : Z) : SM bool := STORAGE_OP (
  r ← storage_read_inode dir_ino;
  match r with
  | None => mret false
  | Some dir =>
      slot ← dir_scan dir_ino (Z.to_nat (dir_blocks dir)) 0 (fun b buf =>
        (fun off => (b, de_write buf off name child_ino type)) <$> find (fun off => de_inode buf off =? 0) dir_offsets);
      match slot with
      | Some (b, buf) => _ ← storage_write_file_block dir_ino b buf; mret true
      | None =>
          ok ← storage_write_file_block dir_ino (dir_blocks dir) (de_write zero_block 0 name child_ino type);
          if negb ok then mret false else
          _ ← storage_write_inode dir_ino (i_set_size dir (u64 ((dir_blocks dir + 1) * BLOCK_SIZE))); mret true
      end
  end).
Definition INTENT_LOG_SLOTS : Z := 8.
Definition intent_append (kind a0 a1 gen : Z) : SM unit :=
  modify (fun s => let l := s.(s_log) in
    set_oplog (mk_oplog (zset l.(intent_log) l.(intent_head) (mk_intent kind a0 a1 gen))
               ((l.(intent_head) + 1) mod INTENT_LOG_SLOTS) l.(g_fsck_runs)) s).
Definition storage_create_file (uid gid : Z) (name : list Z) (dir_ino : Z) : SM (option Z) := STORAGE_OP (
  r ← storage_alloc_inode;
  match r with
  | None => mret None
  | Some ino =>
      intent_append 2 ino dir_ino uid;;
      file_key ← secure_random_bytes 16;
      file_iv ← secure_random_bytes 16;
      _ ← storage_write_inode ino
            (mk_inode 0 0 0x81A4 uid gid 0 0 0 (replicate 12 0) 0 0 0 (replicate 32 0) file_key file_iv 1 0 0 (replicate 4 0));
      _ ← storage_dir_add dir_ino name ino 1;
      mret (Some ino)
  end).
Definition storage_sync : SM bool := STORAGE_OP (
  modify (fun s => set_oplog (mk_oplog (replicate (Z.to_nat INTENT_LOG_SLOTS) (mk_intent 0 0 0 0)) 0 s.(s_log).(g_fsck_runs)) s);;
  intent_append 5 0 0 0;; mret true).

(** ** The sweep that repairs a volume *)
(** [referenced]: the bits of the C bit array, relative to the data region. *)
Definition fsck_mark (g : geometry) (referenced : gset Z) (p : Z) : gset Z :=
  if in_range g.(data_start) (g.(data_start) + g.(block_count)) p then {[p - g.(data_start)]} ∪ referenced else referenced.
Fixpoint fsck_fold {A B} (f : A -> B -> SM A) (a : A) (l : list B) : SM A :=
  match l with [] => mret a | x :: l => a ← f a x; fsck_fold f a l end.
Fixpoint fsck_mark_tree (g : geometry) (ino tree base : Z) (referenced : gset Z) (ptr_blk : Z) (depth : nat) : SM (gset Z) :=
  if negb (in_range g.(data_start) (g.(data_start) + g.(block_count)) ptr_blk) then mret referenced else
  if (FSCK_MAX_DEPTH <=? depth)%nat then mret referenced else
  let referenced := {[ptr_blk - g.(data_start)]} ∪ referenced in
  r ← ptr_block_read ino (ptr_block_id tree (Z.of_nat depth) base) ptr_blk;
  match r with
  | None => mret referenced
  | Some blk =>
      fsck_fold (fun referenced k =>
        let p := ptr_get blk k in
        if p =? 0 then mret referenced else
        match depth with
        | O => mret (fsck_mark g referenced p)
        | S d => fsck_mark_tree g ino tree (base + k * ptr_span depth) referenced p d
        end) referenced (seqZ 0 PTRS_PER_BLOCK)
  end.
(** The inode bitmap block the sweep holds, whether it changed, and the marks. *)
Record fsck_state := mk_fsck { fk_bitmap : block; fk_resident : option Z; fk_dirty : bool; fk_referenced : gset Z }.
Definition fsck_write_back (g : geometry) (f : fsck_state) : SM fsck_state :=
  match f.(fk_resident) with
  | Some ib =>
      if f.(fk_dirty)
      then _ ← do_block_write (g.(inode_bitmap_start) + ib) f.(fk_bitmap);
           mret (mk_fsck f.(fk_bitmap) f.(fk_resident) false f.(fk_referenced))
      else mret f
  | None => mret f
  end.
Definition fsck_inode_refs (g : geometry) (ino : Z) (nd : on_disk_inode) (referenced : gset Z) : SM (gset Z) :=
  fsck_fold (fun r (lp : nat * Z) => if lp.2 =? 0 then mret r else fsck_mark_tree g ino (Z.of_nat lp.1) 0 r lp.2 lp.1)
    (fold_left (fsck_mark g) nd.(i_direct) referenced)
    [(0%nat, nd.(i_indirect)); (1%nat, nd.(i_double_indirect)); (2%nat, nd.(i_triple_indirect))].
Definition fsck_inode (g : geometry) (blk : block) (f : fsck_state) (ino : Z) : SM fsck_state :=
  if g.(inode_count) <=? ino then mret f else
  let ib := ino / BITS_PER_BITMAP_BLOCK in
  r ← (if bool_decide (f.(fk_resident) = Some ib) then mret (Some f) else
       f ← fsck_write_back g f;
       r ← do_block_read (g.(inode_bitmap_start) + ib);
       match r with
       | None => mret None
       | Some bm => mret (Some (mk_fsck bm (Some ib) f.(fk_dirty) f.(fk_referenced)))
       end);
  match r with
  | None => mret (mk_fsck f.(fk_bitmap) f.(fk_resident) false f.(fk_referenced))
  | Some f =>
      let bit := ino mod BITS_PER_BITMAP_BLOCK in
      if negb (bitmap_test f.(fk_bitmap) bit) then mret f else
      let nd := inode_at blk ino in
      if negb (ino =? 0) && ((nd.(i_type) =? 0) || (nd.(i_links) =? 0))
      then mret (mk_fsck (bitmap_clear f.(fk_bitmap) bit) f.(fk_resident) true f.(fk_referenced))
      else
        r ← fsck_inode_refs g ino nd f.(fk_referenced);
        mret (mk_fsck f.(fk_bitmap) f.(fk_resident) f.(fk_dirty) r)
  end.
Definition fsck_table_block (g : geometry) (f : fsck_state) (tb : Z) : SM fsck_state :=
  r ← do_block_read (g.(inode_table_start) + tb);
  match r with
  | None => mret f
  | Some blk => fsck_fold (fsck_inode g blk) f (seqZ (tb * INODES_PER_BLOCK) INODES_PER_BLOCK)
  end.
(** Clears the bits of block [bm] of the data bitmap that nothing refers to. *)
Definition fsck_sweep (referenced : gset Z) (base here : Z) (bitmap : block) : block * bool :=
  fold_left (fun (st : block * bool) b =>
    if bitmap_test st.1 b && negb (bool_decide (base + b ∈ referenced)) then (bitmap_clear st.1 b, true) else st) (seqZ 0 here) (bitmap, false).
Definition fsck_bitmap_block (g : geometry) (referenced : gset Z) (bm : Z) : SM unit :=
  r ← do_block_read (g.(block_bitmap_start) + bm);
  match r with
  | None => mret tt
  | Some bitmap =>
      let base := bm * BITS_PER_BITMAP_BLOCK in
      let '(bitmap, dirty) := fsck_sweep referenced base (Z.min (g.(block_count) - base) BITS_PER_BITMAP_BLOCK) bitmap in
      if dirty : bool then _ ← do_block_write (g.(block_bitmap_start) + bm) bitmap; mret tt else mret tt
  end.
Definition storage_fsck_pass : SM unit :=
  modify (fun s => let l := s.(s_log) in set_oplog (mk_oplog l.(intent_log) l.(intent_head) (l.(g_fsck_runs) + 1)) s);;
  g ← geo_of;
  f ← fsck_fold (fsck_table_block g) (mk_fsck zero_block None false ∅)
        (seqZ 0 ((g.(inode_count) + INODES_PER_BLOCK - 1) / INODES_PER_BLOCK));
  f ← fsck_write_back g f;
  each (fsck_bitmap_block g f.(fk_referenced)) (seqZ 0 ((g.(block_count) + BITS_PER_BITMAP_BLOCK - 1) / BITS_PER_BITMAP_BLOCK)).
