(* ===== verification/View.v ===== *)
(** What an open transaction shows (storage.c): the contents and the nonce entry of
    every block, and what the block layer's operations change of them.  Reading and
    verifying change nothing; sealing changes one entry, writing one block; evictions,
    tree nodes and the superblock stay out of sight. *)
From S2P Require Import Prelude Sha256 Aead Disk Super Store Journal Tree Staging Knot Merkle.

Create HintDb calm.
(** Runs the first action of a sequence. *)
Ltac run_step r s1 E :=
  match goal with |- (mbind ?k ?m) ?s = _ -> _ => destruct (m s) as [r s1] eqn:E; rewrite (bind_run _ _ _ _ _ E) end.
(** The contents of block [b], staged or on the device. *)
Definition raw (s : store) (b : Z) : block := default (latest s.(s_disk) b) (staged_at s.(s_txn) b).
#[global] Instance quiet_pre : PreOrder (quiet True).
Proof.
  split; [by intros d; split_and!|]. intros a b c (? & ? & ? & ? & ?) (? & ? & ? & ? & ?). unfold quiet. split_and!; try congruence; auto.
Qed.
(** The volume is the same one; a transaction that overflowed stays refused. *)
Record same_vol (s s' : store) : Prop := {
  sv_keys : s'.(s_mfs).(mounted) = s.(s_mfs).(mounted) /\ s'.(s_mfs).(unlocked) = s.(s_mfs).(unlocked)
    /\ s'.(s_mfs).(sb).(geo) = s.(s_mfs).(sb).(geo) /\ s'.(s_mfs).(volume_key) = s.(s_mfs).(volume_key)
    /\ s'.(s_mfs).(disk_key) = s.(s_mfs).(disk_key) /\ s'.(s_mfs).(journal_mac_key) = s.(s_mfs).(journal_mac_key)
    /\ length s'.(g_merkle_cache) = length s.(g_merkle_cache) /\ s'.(g_journal_seq) = s.(g_journal_seq) /\ quiet True s.(s_disk) s'.(s_disk);
  sv_depth : s'.(op_depth) = s.(op_depth);
  sv_active : s'.(s_txn).(t_active) = s.(s_txn).(t_active);
  sv_disk : latest s'.(s_disk) = latest s.(s_disk);
  sv_overflow : s.(s_txn).(t_overflow) = true -> s'.(s_txn).(t_overflow) = true;
  sv_slots : s.(s_txn).(t_staged).*1 `prefix_of` s'.(s_txn).(t_staged).*1
}.
#[local] Hint Extern 0 (?l `prefix_of` ?l) => reflexivity : core.
#[global] Instance same_vol_pre : PreOrder same_vol.
Proof.
  split; [by intros s|]. intros a b c [(? & ? & ? & ? & ? & ? & ? & ? & ?) ? ? ? ? ?] [(? & ? & ? & ? & ? & ? & ? & ? & ?) ? ? ? ? ?].
  split; [split_and!|..]; try congruence; [by etransitivity|auto|by etransitivity].
Qed.
(** Only blocks in [P] changed. *)
Record touches (P : Z -> Prop) (s s' : store) : Prop := {
  tc_vol : same_vol s s';
  tc_raw : forall b, ~ P b -> raw s' b = raw s b;
  tc_meta : s'.(g_meta_cache) = s.(g_meta_cache);
  tc_hint : s'.(g_alloc_hint) = s.(g_alloc_hint)
}.
#[global] Instance touches_pre P : PreOrder (touches P).
Proof.
  split; [by intros s|]. intros a b c [? H1 ? ?] [? H2 ? ?]. split; [by etransitivity| |congruence|congruence]. intros x Hx. rewrite H2 by done. by apply H1.
Qed.
Lemma touches_weaken P P' s s' : (forall b, P b -> P' b) -> touches P s s' -> touches P' s s'.
Proof. intros HP [? H ? ?]. split; [done| |done|done]. intros b Hb. apply H. auto. Qed.
(** A change in RAM that none of this sees. *)
Lemma touches_ram P s s' :
  s'.(s_disk) = s.(s_disk) -> s'.(s_txn) = s.(s_txn) -> s'.(op_depth) = s.(op_depth) -> s'.(s_mfs) = s.(s_mfs) ->
  s'.(g_meta_cache) = s.(g_meta_cache) -> s'.(g_alloc_hint) = s.(g_alloc_hint) ->
  length s'.(g_merkle_cache) = length s.(g_merkle_cache) -> s'.(g_journal_seq) = s.(g_journal_seq) -> touches P s s'.
Proof. intros Hd Ht Ho Hm Hc Hh Hl Hq. split; [split; rewrite ?Hm, ?Ht, ?Hd; first [done|by split_and!]| |done|done]. intros b _. unfold raw. by rewrite Hd, Ht. Qed.

(** ** Staging a block *)
Lemma staged_at_None t b : staged_at t b = None <-> forall w, (b, w) ∉ t.(t_staged).
Proof.
  unfold staged_at. destruct (find _ _) as [[b' w']|] eqn:E; cbn; split; try done.
  - intros H. exfalso. apply find_some in E as [E Eb%Z.eqb_eq]. cbn in Eb. subst b'. apply (H w'). rewrite <- elem_of_reverse. by apply list_elem_of_In.
  - intros _ w Hw. assert (((b, w).1 =? b) = false) as Hb by (apply (find_none _ _ E (b, w)), list_elem_of_In; by rewrite elem_of_reverse).
    cbn in Hb. lia.
Qed.
Lemma staged_at_app t b w b' :
  staged_at (mk_txn t.(t_active) t.(t_overflow) (t.(t_staged) ++ [(b, w)])) b' = if b =? b' then Some w else staged_at t b'.
Proof. unfold staged_at. cbn [t_staged]. rewrite reverse_snoc. cbn [find fst]. by destruct (b =? b'). Qed.
Lemma staged_at_unique t b w : NoDup t.(t_staged).*1 -> (b, w) ∈ t.(t_staged) -> staged_at t b = Some w.
Proof.
  intros Hn Hw. destruct (staged_at t b) as [w'|] eqn:E; [|by eapply staged_at_None in E as []]. apply staged_at_elem in E. f_equal.
  apply list_elem_of_lookup in Hw as [i Hi], E as [j Hj]. assert (i = j) as ->; [|congruence].
  eapply (NoDup_lookup _ i j b Hn); by rewrite list_lookup_fmap, ?Hi, ?Hj.
Qed.
Lemma staged_at_insert t i b w0 w b' act ov :
  NoDup t.(t_staged).*1 -> t.(t_staged) !! i = Some (b, w0) ->
  staged_at (mk_txn act ov (<[i := (b, w)]> t.(t_staged))) b' = (if b =? b' then Some w else staged_at t b')
  /\ (<[i := (b, w)]> t.(t_staged)).*1 = t.(t_staged).*1.
Proof.
  intros Hn Hi. assert ((<[i := (b, w)]> t.(t_staged)).*1 = t.(t_staged).*1) as E.
  { rewrite list_fmap_insert. cbn. apply list_insert_id. by rewrite list_lookup_fmap, Hi. }
  split; [|done]. destruct (Z.eqb_spec b b') as [<-|Hne].
  - apply staged_at_unique; cbn; [by rewrite E|]. eapply list_elem_of_lookup_2, list_lookup_insert_eq. by eapply lookup_lt_Some.
  - destruct (staged_at t b') as [v|] eqn:Ev.
    + apply staged_at_elem in Ev. apply staged_at_unique; cbn; [by rewrite E|]. apply list_elem_of_lookup in Ev as [j Hj].
      eapply (list_elem_of_lookup_2 _ j). rewrite list_lookup_insert_ne; [done|]. intros ->. congruence.
    + rewrite staged_at_None in *. cbn. intros v [j Hj]%list_elem_of_lookup. apply list_lookup_insert_Some in Hj as [(_ & [= <- <-] & _)|[_ Hj]]; [done|].
      apply (Ev v). by eapply list_elem_of_lookup_2.
Qed.
Lemma raw_set_txn t s b : raw (set_txn t s) b = default (latest s.(s_disk) b) (staged_at t b).
Proof. done. Qed.
Lemma raw_set_stats c s b : raw (set_stats c s) b = raw s b.
Proof. done. Qed.
Lemma stage_slot_run b w s r s' :
  NoDup s.(s_txn).(t_staged).*1 -> stage_slot b w s = (r, s') ->
  touches (eq b) s s' /\ NoDup s'.(s_txn).(t_staged).*1 /\ s'.(s_mfs) = s.(s_mfs) /\ s'.(g_merkle_cache) = s.(g_merkle_cache)
  /\ (forall i, r = Some i -> raw s' b = w /\ s'.(s_txn).(t_staged) !! i = Some (b, w))
  /\ (r = None -> s'.(s_txn).(t_overflow) = true /\ touches (fun _ => False) s s').
Proof.
  intros Hn. unfold stage_slot. rewrite (bind_run _ _ s s.(s_txn) s) by done.
  destruct (list_find _ _) as [[i [b0 w0]]|] eqn:E.
  - apply list_find_Some in E as (Hi & Eb & _). cbn in Eb. subst b0. intros [= <- <-].
    destruct (staged_at_insert s.(s_txn) i b w0 w b s.(s_txn).(t_active) s.(s_txn).(t_overflow) Hn Hi) as [Hb Hf].
    split; [split; [split; [by split_and!|..|by cbn; rewrite Hf]; done| |done|done]; intros x Hx; rewrite raw_set_txn, (proj1 (staged_at_insert s.(s_txn) i b w0 w x _ _ Hn Hi)); by destruct (Z.eqb_spec b x)|].
    split_and!; [by cbn; rewrite Hf|done|done| |done]. intros j [= <-]. rewrite raw_set_txn, Hb, Z.eqb_refl. split; [done|].
    apply list_lookup_insert_eq. by eapply lookup_lt_Some.
  - apply list_find_None in E. destruct (_ <=? _).
    + intros [= <- <-]. assert (touches (fun _ => False) s (set_txn (mk_txn s.(s_txn).(t_active) true s.(s_txn).(t_staged)) s)) as H.
      { split; [by split; [split_and!|..]| |done|done]. intros x _. unfold raw. done. }
      split; [by eapply touches_weaken, H|]. by split_and!.
    + intros [= <- <-]. split; [split; [split; [by split_and!|..|cbn; rewrite fmap_app; by apply prefix_app_r]; done| |done|done]; intros x Hx; rewrite raw_set_stats, raw_set_txn, staged_at_app; by destruct (Z.eqb_spec b x)|].
      split_and!; [|done|done| |done].
      * cbn. rewrite fmap_app. cbn. apply NoDup_app. split_and!; [done| |apply NoDup_singleton]. intros x Hx ->%list_elem_of_singleton.
        apply list_elem_of_fmap in Hx as ([x' v] & -> & Hx). rewrite Forall_forall in E. by apply (E _ Hx).
      * intros j [= <-]. rewrite raw_set_stats, raw_set_txn, staged_at_app, Z.eqb_refl. split; [done|]. by apply list_lookup_middle.
Qed.

(** ** The tree, out of sight *)
Section calm.
Context (g : geometry).
Record open_txn (s : store) : Prop := {
  ot_lines : lines_ok g s;
  ot_active : s.(s_txn).(t_active) = true;
  ot_depth : 0 < s.(op_depth);
  ot_uniq : NoDup s.(s_txn).(t_staged).*1
}.
(** [m] touches only [P]. *)
Definition calm {A} (P : Z -> Prop) (m : SM A) (Q : A -> Prop) : Prop :=
  forall s, open_txn s -> open_txn (m s).2 /\ touches P s (m s).2 /\ Q (m s).1.
Lemma calm_ret {A} P (a : A) (Q : A -> Prop) : Q a -> calm P (mret a) Q.
Proof. intros H s Hs. cbn. split_and!; [done|reflexivity|done]. Qed.
Lemma calm_bind {A B} P (m : SM A) (k : A -> SM B) Q R :
  calm P m Q -> (forall a, Q a -> calm P (k a) R) -> calm P (m ≫= k) R.
Proof.
  intros Hm Hk s Hs. destruct (Hm s Hs) as (H1 & H2 & H3). unfold mbind, sm_bind. destruct (m s) as [a s1]. cbn in *.
  destruct (Hk a H3 s1 H1) as (? & ? & ?). split_and!; [done|by etransitivity|done].
Qed.
Lemma calm_gets {A} P (f : store -> A) (Q : A -> Prop) : (forall s, open_txn s -> Q (f s)) -> calm P (gets f) Q.
Proof. intros H s Hs. cbn. split_and!; [done|reflexivity|auto]. Qed.
(** A change of the node cache, the counters or the random bytes. *)
Lemma calm_modify P f :
  (forall s, open_txn s -> lines_ok g (f s) /\ (f s).(s_disk) = s.(s_disk) /\ (f s).(s_txn) = s.(s_txn) /\ (f s).(op_depth) = s.(op_depth)
     /\ (f s).(s_mfs) = s.(s_mfs) /\ (f s).(g_meta_cache) = s.(g_meta_cache) /\ (f s).(g_alloc_hint) = s.(g_alloc_hint)
     /\ length (f s).(g_merkle_cache) = length s.(g_merkle_cache) /\ (f s).(g_journal_seq) = s.(g_journal_seq)) -> calm P (modify f) any.
Proof.
  intros H s Hs. destruct (H s Hs) as (Hl & Hd & Ht & Ho & Hm & Hc & Hh & Hk & Hq). destruct Hs as [_ Ha Hp Hn]. cbn.
  split; [split; rewrite ?Ht, ?Ho; done|]. split; [by apply touches_ram|done].
Qed.
Lemma calm_kline P i : calm P (kline i) (kline_in g).
Proof. apply calm_gets. intros s [[] _ _ _]. by apply Forall_zget; [left|]. Qed.
Lemma calm_set_kline P i l : kline_in g l -> calm P (set_kline i l) any.
Proof.
  intros Hl. apply calm_modify. intros s [[] _ _ _]. split_and!; try done; [split; cbn; auto using Forall_zset|].
  cbn. unfold zset. destruct (_ <? 0); [done|apply length_insert].
Qed.
Lemma calm_count P f : calm P (count f) any.
Proof. apply calm_modify. intros s [[] _ _ _]. by split_and!. Qed.
Lemma calm_mfs P : calm P mfs_of (fun m => m.(sb).(geo) = g).
Proof. apply calm_gets. by intros s [[] _ _ _]. Qed.
Lemma calm_tick P : calm P merkle_tick any.
Proof. eapply calm_bind; [apply calm_modify; intros s [[] _ _ _]; by split_and!|intros _ _; by apply calm_gets]. Qed.
Lemma open_permitted s : 0 < s.(op_depth) -> storage_io_permitted s = (true, s).
Proof. intros H. unfold storage_io_permitted, mbind, sm_bind, gets. cbn. by destruct (Z.ltb_spec 0 (op_depth s)); [|lia]. Qed.
(** A block outside the span is read and staged as it is. *)
Lemma plain_read_open io b s r s' :
  open_txn s -> pm_leaf_of g b = None -> do_block_read_with io b s = (r, s') ->
  (forall P, touches P s s') /\ s'.(g_merkle_cache) = s.(g_merkle_cache) /\ s'.(s_txn) = s.(s_txn) /\ s'.(s_mfs) = s.(s_mfs)
  /\ forall w, r = Some w -> w = raw s b.
Proof.
  intros [[Hg _ _] Ha Ho _] Hb. unfold do_block_read_with. rewrite (bind_run _ _ _ _ _ (open_permitted s Ho)). cbn [negb].
  rewrite (bind_run _ _ s s.(s_txn) s) by done. rewrite Ha. destruct (staged_at (s_txn s) b) as [w|] eqn:E.
  - rewrite (bind_run _ _ s (Some w) s) by done. rewrite (bind_run _ _ _ _ _ (span_leaf_plain g b s Hb Hg)). intros [= <- <-].
    split_and!; try done. intros v [= <-]. unfold raw. by rewrite E.
  - destruct (raw_block_read b s) as [r1 s1] eqn:E1. rewrite (bind_run _ _ _ _ _ E1). unfold raw_block_read in E1.
    rewrite (bind_run _ _ _ _ _ (open_permitted s Ho)) in E1. cbn [negb] in E1. unfold on_disk in E1.
    destruct (disk_read (s_disk s) b) as [r2 d] eqn:E2. pose proof (proj1 (disk_read_step True _ _ _ _ E2)) as Hq. apply disk_read_latest in E2 as [HL Hw]. injection E1 as <- <-.
    assert (forall P, touches P s (set_disk d s)) as Hto.
    { intros P. split; [by split; [split_and!|..]| |done|done]. intros x _. unfold raw. cbn. by rewrite HL. }
    destruct r2 as [buf|]; [|intros [= <- <-]; by split_and!].
    rewrite (bind_run _ _ _ _ _ (span_leaf_plain g b (set_disk d s) Hb Hg)). intros [= <- <-]. split_and!; try done.
    intros v [= <-]. unfold raw. rewrite E. auto.
Qed.
Lemma plain_write_open io b w s r s' :
  open_txn s -> pm_leaf_of g b = None -> do_block_write_with io b w s = (r, s') ->
  open_txn s' /\ touches (eq b) s s' /\ (r = true -> raw s' b = w) /\ (r = false -> touches (fun _ => False) s s' /\ s'.(s_txn).(t_overflow) = true)
  /\ s'.(s_mfs) = s.(s_mfs) /\ s'.(g_merkle_cache) = s.(g_merkle_cache).
Proof.
  intros [[Hg H1 H2] Ha Ho Hn] Hb. unfold do_block_write_with. rewrite (bind_run _ _ _ _ _ (open_permitted s Ho)). cbn [negb].
  rewrite (bind_run _ _ _ _ _ (span_leaf_plain g b s Hb Hg)). rewrite (bind_run _ _ s s.(s_txn) s) by done. rewrite Ha.
  unfold stage_block. destruct (stage_slot b w s) as [r1 s1] eqn:E. rewrite (bind_run _ _ _ _ _ E). intros [= <- <-].
  apply stage_slot_run in E as (Hto & Hn' & Hm & Hk & HS & HN); [|done]. pose proof Hto as [[_ Hd Hact _ _ _] _ Hc _].
  split; [split; [split; [by rewrite Hm|by rewrite Hk|by rewrite Hc]|by rewrite Hact|by rewrite Hd|done]|].
  split; [done|]. destruct r1 as [i|]; split_and!; try done; [intros _; by destruct (HS i eq_refl)|by destruct HN as [? ?]].
Qed.
(** *** Every tree operation *)
Definition hidden (b : Z) : Prop := b = 0 \/ exists l i, tree_node g l i /\ b = merkle_level_base g l + i.
Context (pm : plain_metadata g) (n : nat).
#[local] Abbreviation io := (io_at (S n)).
Lemma calm_node_read l i : tree_node g l i -> calm hidden (io_read io (merkle_level_base g l + i)) any.
Proof.
  intros Hn s Hs. cbn [io_at io_read]. destruct (do_block_read_with _ _ s) as [r s'] eqn:E. apply plain_read_open in E as (H1 & H2 & H3 & H4 & _); [|done|by apply pm].
  pose proof (H1 hidden) as [[_ Hd _ _ _ _] _ Hc _]. destruct Hs as [[Hg Hk Hm] Ha Ho Hu]. cbn. split; [|done].
  split; rewrite ?H3, ?Hd; try done. split; by rewrite ?H2, ?H4, ?Hc.
Qed.
Lemma calm_write b w : hidden b -> calm hidden (io_write io b w) any.
Proof.
  intros Hb s Hs. cbn [io_at io_write]. destruct (do_block_write_with _ _ _ s) as [r s'] eqn:E. apply plain_write_open in E as (H1 & H2 & _); [|done|].
  - cbn. split; [done|]. split; [|done]. eapply touches_weaken; [|exact H2]. by intros x <-.
  - destruct Hb as [->|(l & i & Hn & ->)]; by apply pm.
Qed.
#[local] Hint Resolve calm_kline calm_count calm_mfs calm_tick : calm.
Ltac calm :=
  repeat (cbv beta zeta; lazymatch goal with
  | |- calm _ (mret _) _ => apply calm_ret; try done
  | |- calm _ (_ ≫= _) _ => eapply calm_bind; [solve [eauto with calm]|intros ? ?]
  | |- calm _ (if ?b then _ else _) _ => destruct b eqn:?
  | |- calm _ (match ?x with _ => _ end) _ => destruct x eqn:?
  end).
Ltac kset := eapply calm_bind; [apply calm_set_kline; first [by left|by right|assumption]|intros _ _].
Lemma merkle_flush_line_calm i : calm hidden (merkle_flush_line io i) any.
Proof.
  unfold merkle_flush_line. calm. destruct H0 as [?|Hn]; [lia|]. rewrite H.
  eapply calm_bind; [apply calm_write; right; eauto|intros ok _]. calm. kset. by calm.
Qed.
Lemma calm_each_ok {A} P (f : A -> SM bool) l : (forall x, calm P (f x) any) -> calm P (each_ok f l) any.
Proof.
  intros Hf. induction l as [|x l IH]; [by apply calm_ret|]. cbn [each_ok]. eapply calm_bind; [apply Hf|intros ok _].
  eapply calm_bind; [apply IH|intros rest _]. by apply calm_ret.
Qed.
#[local] Hint Resolve merkle_flush_line_calm : calm.
Lemma merkle_flush_all_calm : calm hidden (merkle_flush_all io) any.
Proof. apply calm_each_ok. intros i. calm; eauto with calm. Qed.
Lemma merkle_line_for_calm l i : tree_node g l i -> calm hidden (merkle_line_for io l i) any.
Proof.
  intros Hn. unfold merkle_line_for. eapply calm_bind; [apply calm_mfs|intros m Hm]. destruct (no_tree m); [by calm|].
  eapply calm_bind; [by apply (calm_gets _ g_merkle_cache any)|intros c _]. destruct (find_index _ 0 _) as [j|].
  { calm. kset. by calm. }
  eapply calm_bind with (Q := any).
  { destruct (find_index _ 0 _); [by calm|]. eapply calm_bind; [apply calm_kline|intros line _].
    eapply calm_bind with (Q := any); [destruct (kl_dirty line); [eauto with calm|by calm]|intros ok _]. by calm. }
  intros ok _. destruct (negb ok); [by calm|]. calm. kset. rewrite Hm.
  eapply calm_bind; [by apply calm_node_read|intros r _]. calm; kset; by calm.
Qed.
Lemma node_checked_calm m levels l i p j : calm hidden (node_checked m levels l i p j) any.
Proof. unfold node_checked. calm. kset. by calm. Qed.
#[local] Hint Resolve node_checked_calm : calm.
Lemma merkle_walk_calm m levels l i k p :
  tree_node g l i -> l + Z.of_nat k <= zlen (tree_counts g) -> calm hidden (merkle_walk io m levels l i k p) any.
Proof.
  intros Hn. revert p. induction k as [|k IH]; intros p Hle; [by calm|]. cbn [merkle_walk].
  eapply calm_bind; [apply merkle_line_for_calm, node_ancestor; [done|lia]|intros r _]. calm. apply IH. lia.
Qed.
Lemma merkle_node_calm l i : 0 <= l -> 0 <= i -> calm hidden (merkle_node io l i) any.
Proof.
  intros Hl Hi. unfold merkle_node. eapply calm_bind; [apply calm_mfs|intros m ->]. cbv zeta. destruct (no_tree m); [by calm|].
  destruct (Z.eqb_spec (zlen (tree_counts g)) 0), (Z.leb_spec (zlen (tree_counts g)) l), (Z.leb_spec (zget 0 (tree_counts g) l) i); cbn [orb]; try by calm.
  apply merkle_walk_calm; [by split|lia].
Qed.
Lemma merkle_verify_leaf_calm leaf img : 0 <= leaf -> calm hidden (merkle_verify_leaf io leaf img) any.
Proof.
  intros Hl. unfold merkle_verify_leaf. calm. eapply calm_bind; [apply merkle_node_calm; [done|]|intros r _; by calm].
  rewrite fanout_128. apply Z.div_pos; lia.
Qed.
Lemma merkle_carry_calm m levels l k idx h : 0 <= l -> 0 <= idx -> calm hidden (merkle_carry io m levels l k idx h) any.
Proof.
  revert l idx h. induction k as [|k IH]; intros l idx h Hl Hi; [by calm|]. cbn [merkle_carry]. rewrite fanout_128.
  pose proof (Z.div_pos idx 128 Hi ltac:(lia)).
  eapply calm_bind; [by apply merkle_node_calm|intros [i|] _]; calm. kset. apply IH; lia.
Qed.
Lemma calm_upd_root P r : calm P (upd_sb (set_meta_root r)) any.
Proof.
  intros s [[Hg Hk Hm] Ha Ho Hn]. cbn. split; [done|]. split; [|done]. by split; [split; [split_and!|..]|..].
Qed.
Lemma merkle_update_leaf_calm leaf img : 0 <= leaf -> calm hidden (merkle_update_leaf io leaf img) any.
Proof.
  intros Hl. unfold merkle_update_leaf. eapply calm_bind; [apply calm_mfs|intros m _]. cbv zeta. destruct (no_tree m); [by calm|].
  destruct (_ =? 0); [by calm|]. eapply calm_bind; [by apply merkle_carry_calm|intros r _]. destruct r; [|by calm].
  eapply calm_bind; [apply calm_upd_root|intros _ _]. eapply calm_bind; [by apply (calm_gets _ _ any)|intros w _].
  eapply calm_bind; [apply calm_write; by left|intros _ _]. by calm.
Qed.
End calm.

(** ** The nonce table through its cache *)
Section view.
Context (g : geometry).
(** The blocks of the accounts table, and with them those that hold contents: what an
    operation leaves alone of these, it leaves alone for good. *)
Definition accounts (b : Z) : Prop := g.(users_start) <= b < g.(users_start) + g.(users_blocks).
Definition user (b : Z) : Prop := g.(inode_bitmap_start) <= b < g.(total_blocks) \/ accounts b.
Record regions : Prop := {
  rg_wf : wf_geo g;
  rg_pm : plain_metadata g;
  rg_some : g.(meta_start) <> 0 /\ g.(merkle_start) <> 0;
  rg_meta : forall k, 0 <= k < g.(meta_blocks) -> ~ hidden g (g.(meta_start) + k) /\ ~ user (g.(meta_start) + k);
  rg_hidden : forall b, hidden g b -> ~ user b;
  rg_accounts : forall b, accounts b -> 0 <= b < g.(inode_bitmap_start) /\ b < g.(total_blocks);
  rg_cover : g.(total_blocks) <= g.(meta_blocks) * META_ENTRIES_PER_BLOCK;
  rg_small : g.(total_blocks) <= BLOCKS_PER_DISK;
  rg_count : g.(meta_blocks) <= BLOCKS_PER_DISK;
  rg_home : forall b, user b -> home g b
}.
#[local] Abbreviation mblk k := (g.(meta_start) + k).
Definition meta_img (s : store) (k : Z) : block :=
  match find (fun l => l.(ml_blk) =? k) s.(g_meta_cache) with Some l => l.(ml_img) | None => raw s (mblk k) end.
Definition ml (s : store) (i : Z) : meta_cache_line := zget ml_none s.(g_meta_cache) i.
Definition resident (l : meta_cache_line) : Prop := l.(ml_blk) <> META_BLK_NONE.
Definition line_clean (l : meta_cache_line) : Prop := resident l -> l.(ml_dirty) = false.
Record cache_ok (s : store) : Prop := {
  ca_len : zlen s.(g_meta_cache) = 32;
  ca_uniq i j : 0 <= i < 32 -> 0 <= j < 32 -> resident (ml s i) -> (ml s i).(ml_blk) = (ml s j).(ml_blk) -> i = j;
  ca_clean i : 0 <= i < 32 -> resident (ml s i) -> (ml s i).(ml_dirty) = false -> (ml s i).(ml_img) = raw s (mblk (ml s i).(ml_blk))
}.
(** What shows for block [k] of the table: a line, or else the block. *)
Definition shows (s : store) (k : Z) (w : block) : Prop :=
  (exists i, 0 <= i < 32 /\ (ml s i).(ml_blk) = k /\ (ml s i).(ml_img) = w)
  \/ ((forall i, 0 <= i < 32 -> (ml s i).(ml_blk) <> k) /\ w = raw s (mblk k)).
Lemma meta_img_shows s k : cache_ok s -> shows s k (meta_img s k).
Proof.
  intros [Hl _ _]. unfold meta_img, zlen in *. destruct (find _ _) as [l|] eqn:E.
  - apply find_some in E as [E Eb%Z.eqb_eq]. apply list_elem_of_In, list_elem_of_lookup in E as [i Hi]. left. exists (Z.of_nat i).
    pose proof (lookup_lt_Some _ _ _ Hi). unfold ml. rewrite zget_lookup, Nat2Z.id, Hi by lia. cbn. split_and!; [lia|lia|done|done].
  - right. split; [|done]. intros i Hi Hb. assert (ml s i ∈ s.(g_meta_cache)) as Hin%list_elem_of_In by (apply zget_elem; unfold zlen; lia).
    apply (find_none _ _ E) in Hin. cbn in Hin. lia.
Qed.
Lemma shows_unique s k w w' : cache_ok s -> k <> META_BLK_NONE -> shows s k w -> shows s k w' -> w = w'.
Proof.
  intros Hc Hk [(i & Hi & Eb & <-)|[Hno ->]] [(j & Hj & Eb' & <-)|[Hno' ->]]; [|by exfalso; apply (Hno' i)|by exfalso; apply (Hno j)|done].
  assert (i = j) as ->; [|done]. apply (ca_uniq s Hc); [done|done|unfold resident; congruence|congruence].
Qed.
Lemma shows_meta_img s k w : cache_ok s -> k <> META_BLK_NONE -> shows s k w -> meta_img s k = w.
Proof. intros Hc Hk H. by eapply shows_unique, H; [..|by apply meta_img_shows]. Qed.
(** The state of an open transaction on a usable volume. *)
Record vol (s : store) : Prop := {
  vo_open : open_txn g s;
  vo_ram : ram_ok g s;
  vo_cache : cache_ok s;
  vo_keys : s.(s_mfs).(mounted) = true /\ s.(s_mfs).(unlocked) = true;
  vo_hint : 0 <= s.(g_alloc_hint)
}.
(** Nothing that shows has changed. *)
Record kept (s s' : store) : Prop := {
  ke_vol : same_vol s s';
  ke_raw : forall b, user b -> raw s' b = raw s b;
  ke_meta : forall k, 0 <= k < g.(meta_blocks) -> meta_img s' k = meta_img s k;
  ke_hint : s'.(g_alloc_hint) = s.(g_alloc_hint)
}.
#[global] Instance kept_pre : PreOrder kept.
Proof.
  split; [by intros s|]. intros a b c [? H1 H2 ?] [? H3 H4 ?]. split; [by etransitivity| | |congruence].
  - intros x Hx. rewrite H3 by done. by apply H1.
  - intros x Hx. rewrite H4 by done. by apply H2.
Qed.
Context (rg : regions).
Lemma blk_not_none k : 0 <= k < g.(meta_blocks) -> k <> META_BLK_NONE.
Proof. intros. change META_BLK_NONE with (2 ^ 64 - 1). pose proof rg.(rg_count) as H1. unfold BLOCKS_PER_DISK in H1. lia. Qed.
Lemma ml_range s i : ram_ok g s -> resident (ml s i) -> 0 <= (ml s i).(ml_blk) < g.(meta_blocks).
Proof.
  intros [_ _ _ _ Hm _] Hr. assert (mline_ok g (ml s i)) as [[?|?] _] by (unfold ml; apply Forall_zget; [apply mline_none_ok|done]); done.
Qed.
(** The blocks of the table are as before, and so the lines still show it. *)
Lemma same_lines_show s s' :
  cache_ok s -> zlen s'.(g_meta_cache) = 32 ->
  (forall i, 0 <= i < 32 -> (ml s' i).(ml_blk) = (ml s i).(ml_blk) /\ (ml s' i).(ml_img) = (ml s i).(ml_img)) ->
  (forall i, 0 <= i < 32 -> resident (ml s i) -> (ml s' i).(ml_dirty) = false -> raw s' (mblk (ml s i).(ml_blk)) = (ml s i).(ml_img)) ->
  (forall k, 0 <= k < g.(meta_blocks) -> (forall i, 0 <= i < 32 -> (ml s i).(ml_blk) <> k) -> raw s' (mblk k) = raw s (mblk k)) ->
  cache_ok s' /\ forall k, 0 <= k < g.(meta_blocks) -> meta_img s' k = meta_img s k.
Proof.
  intros Hc Hl HL Hcl Hraw. assert (cache_ok s') as Hc'.
  { split; [done|..].
    - intros i j Hi Hj. unfold resident. rewrite (proj1 (HL i Hi)), (proj1 (HL j Hj)). by apply Hc.
    - intros i Hi. unfold resident. rewrite (proj1 (HL i Hi)), (proj2 (HL i Hi)). intros Hr Hd. symmetry. by apply Hcl. }
  split; [done|]. intros k Hk. apply shows_meta_img; [done|by apply blk_not_none|].
  destruct (meta_img_shows s k Hc) as [(i & Hi & Eb & Ew)|[Hno Ew]].
  - left. exists i. destruct (HL i Hi) as [-> ->]. done.
  - right. split; [intros i Hi; rewrite (proj1 (HL i Hi)); by apply Hno|]. rewrite Ew. symmetry. by apply Hraw.
Qed.
Lemma touch_vol P s s' :
  vol s -> touches P s s' -> (forall k, 0 <= k < g.(meta_blocks) -> ~ P (mblk k)) -> open_txn g s' -> ram_ok g s' ->
  vol s' /\ forall k, 0 <= k < g.(meta_blocks) -> meta_img s' k = meta_img s k.
Proof.
  intros [Ho Hr Hc [Hm Hu] Hh0] [Hv Hraw Hmc Hh] HP Ho' Hr'.
  assert (forall k, 0 <= k < g.(meta_blocks) -> raw s' (mblk k) = raw s (mblk k)) as Hmeta by auto.
  destruct (same_lines_show s s' Hc) as [Hc' Hi]; [by rewrite Hmc; apply Hc|intros i _; unfold ml; by rewrite Hmc| |auto|].
  { intros i Hi Hri Hd. rewrite Hmeta by by apply ml_range. symmetry. apply Hc; [done|done|]. revert Hd. unfold ml. by rewrite Hmc. }
  split; [split; [done|done|done|by destruct Hv as [(-> & -> & _) _ _ _ _ _]|by rewrite Hh]|done].
Qed.
Lemma touch_kept s s' : vol s -> touches (hidden g) s s' -> open_txn g s' -> ram_ok g s' -> vol s' /\ kept s s'.
Proof.
  intros Hs Ht Ho Hr. destruct (touch_vol (hidden g) s s' Hs Ht) as [Hs' Hi]; [intros k Hk; by apply rg|done|done|]. split; [done|].
  destruct Ht as [Hv Hraw _ Hh]. split; [done| |done|done]. intros b Hb. apply Hraw. by intros ?%(rg_hidden rg).
Qed.
Lemma calm_kept {A} (m : SM A) Q Q' s r s' :
  vol s -> calm g (hidden g) m Q -> stages g True m Q' -> m s = (r, s') -> vol s' /\ kept s s' /\ s'.(g_meta_cache) = s.(g_meta_cache) /\ Q r.
Proof.
  intros Hs HC HS E. destruct (HC s (vo_open _ Hs)) as (Ho & Ht & HQ). destruct (HS s (vo_ram _ Hs) (ot_active _ _ (vo_open _ Hs))) as (Hr & _).
  rewrite E in *. cbn in *. destruct (touch_kept s s' Hs Ht Ho Hr). by destruct Ht.
Qed.
Lemma kept_vol s s' : vol s -> kept s s' -> open_txn g s' -> ram_ok g s' -> cache_ok s' -> vol s'.
Proof. intros [_ _ _ [Hm Hu] ?] [[(E1 & E2 & _) _ _ _ _ _] _ _ Eh] ? ? ?. split; [done|done|done|by rewrite E1, E2|by rewrite Eh]. Qed.

(** *** Lines *)
Lemma mline_run i s : mline i s = (ml s i, s).
Proof. done. Qed.
Lemma set_mline_run i l s : set_mline i l s = (tt, set_meta (zset s.(g_meta_cache) i l) s.(g_meta_clock) s).
Proof. done. Qed.
Lemma ml_set s i l c j : zlen s.(g_meta_cache) = 32 -> 0 <= i < 32 ->
  ml (set_meta (zset s.(g_meta_cache) i l) c s) j = if decide (i = j) then l else ml s j.
Proof. intros Hl Hi. unfold ml. cbn. destruct (decide (i = j)) as [<-|]; [by rewrite zget_zset_eq by lia|by rewrite zget_zset_ne]. Qed.
Lemma set_line_open s i l c : open_txn g s -> mline_in g l -> open_txn g (set_meta (zset s.(g_meta_cache) i l) c s).
Proof. intros [[] ? ? ?] Hl. split; try done. split; cbn; auto using Forall_zset. Qed.
Lemma set_line_ram s i l c : ram_ok g s -> mline_ok g l -> ram_ok g (set_meta (zset s.(g_meta_cache) i l) c s).
Proof. intros [] Hl. split; cbn; auto using Forall_zset. Qed.
Lemma ml_ok s i : ram_ok g s -> mline_ok g (ml s i).
Proof. intros [_ _ _ _ Hm _]. unfold ml. apply Forall_zget; [apply mline_none_ok|done]. Qed.
Lemma no_meta_false s : vol s -> no_meta s.(s_mfs) = false /\ s.(s_mfs).(sb).(geo) = g.
Proof.
  intros [_ Hr _ [Hm _] _]. pose proof (ro_geo _ _ Hr) as Hg. split; [|done]. unfold no_meta. rewrite Hm, Hg. cbn. apply Z.eqb_neq. apply rg.
Qed.
#[local] Abbreviation io := (io_at 1).
Lemma io_write_ram b w s r s' : home g b -> sized w -> ram_ok g s -> s.(s_txn).(t_active) = true -> io_write io b w s = (r, s') -> ram_ok g s'.
Proof. intros Hb Hw Hr Ha E. destruct (proj2 (io_at_stages g True 1 rg.(rg_wf)) b w Hb Hw s Hr Ha) as (H & _). by rewrite E in H. Qed.
Lemma update_leaf_stages leaf img : 0 <= leaf -> stages g True (merkle_update_leaf io leaf img) any.
Proof. destruct (io_at_stages g True 1 rg.(rg_wf)). by apply merkle_update_leaf_stages; [apply rg|..]. Qed.
Lemma flush_line_run i s r s' :
  vol s -> 0 <= i < 32 -> meta_cache_flush_line io i s = (r, s') ->
  vol s' /\ kept s s' /\ (forall j, 0 <= j < 32 -> (ml s' j).(ml_blk) = (ml s j).(ml_blk) /\ (ml s' j).(ml_img) = (ml s j).(ml_img))
  /\ (r = true -> line_clean (ml s' i)) /\ (forall j, line_clean (ml s j) -> line_clean (ml s' j)).
Proof.
  intros Hs Hi. unfold meta_cache_flush_line. rewrite (bind_run _ _ s s.(s_mfs) s) by done. destruct (no_meta_false s Hs) as [-> Hg].
  pose proof Hs as [Ho Hr Hc _ _]. pose proof (ml_ok s i Hr) as [Hin Hsz].
  rewrite (bind_run _ _ s (ml s i) s) by done. rewrite Hg. destruct (Z.eqb_spec (ml s i).(ml_blk) META_BLK_NONE) as [Hnone|Hres].
  { intros [= <- <-]. split_and!; [done|done|done|intros _ ?; done|done]. }
  destruct Hin as [?|Hin]; [done|]. set (b := mblk (ml s i).(ml_blk)).
  destruct (io_write io b (ml s i).(ml_img) s) as [ok s1] eqn:E1. rewrite (bind_run _ _ _ _ _ E1).
  pose proof (io_write_ram _ _ _ _ _ (wg_meta _ rg.(rg_wf) _ Hin) Hsz Hr (ot_active _ _ Ho) E1) as Hr1.
  apply (plain_write_open g) in E1 as (Ho1 & Ht1 & Hok & Hno & _); [|done|by apply rg].
  destruct ok; cbn [negb]; [|intros [= <- <-]; destruct (Hno eq_refl) as [Ht _]; destruct (touch_kept s s1 Hs) as [? ?]; [by eapply touches_weaken; [|exact Ht]|done|done|]; split_and!; [done|done| |done|]; destruct Ht as [_ _ Hmc _]; intros j; unfold ml; by rewrite Hmc].
  specialize (Hok eq_refl). pose proof Ht1 as [Hv1 Hraw1 Hmc1 Hh1]. assert (forall j, ml s1 j = ml s j) as Hml by (intros; unfold ml; by rewrite Hmc1).
  rewrite (bind_run _ _ s1 (ml s1 i) s1) by done. rewrite (bind_run _ _ _ _ _ (set_mline_run _ _ _)), Hml. set (l := mk_ml _ _ false _).
  set (s2 := set_meta _ _ s1). intros E. assert (zlen s1.(g_meta_cache) = 32) as Hlen by (rewrite Hmc1; apply Hc).
  destruct (merkle_update_leaf_calm g rg.(rg_pm) 0 (ml s i).(ml_blk) (ml s i).(ml_img) ltac:(lia) s2) as (Ho3 & Ht3 & _); [by apply set_line_open; [|right]|].
  destruct (update_leaf_stages (ml s i).(ml_blk) (ml s i).(ml_img) ltac:(lia) s2) as (Hr3 & _); [by apply set_line_ram; [|split; [right|]]|apply Ho1|].
  rewrite E in *. cbn [snd fst] in *. pose proof Ht3 as [Hv3 Hraw3 Hmc3 Hh3].
  assert (forall j, ml s' j = if decide (i = j) then l else ml s j) as Hml'.
  { intros j. rewrite <- (Hml j). unfold ml at 1. rewrite Hmc3. by apply ml_set. }
  assert (forall x, ~ hidden g x -> x <> b -> raw s' x = raw s x) as Hother.
  { intros x Hx Hne. rewrite Hraw3 by done. apply Hraw1. congruence. }
  assert (raw s' b = (ml s i).(ml_img)) as Hb by (rewrite Hraw3; [done|by apply rg]).
  assert (forall j, (ml s' j).(ml_blk) = (ml s j).(ml_blk) /\ (ml s' j).(ml_img) = (ml s j).(ml_img)) as HL.
  { intros j. rewrite Hml'. by destruct (decide (i = j)) as [<-|]. }
  destruct (same_lines_show s s' Hc) as [Hc' Him].
  - rewrite Hmc3. cbn. by rewrite zlen_zset.
  - intros j _. apply HL.
  - intros j Hj Hrj. rewrite Hml'. destruct (decide (i = j)) as [<-|Hne]; [done|]. intros Hd. pose proof (ml_range s j Hr Hrj).
    rewrite Hother; [symmetry; by apply Hc|by apply rg|]. unfold b. intros E'. apply Hne, Hc; [done|done|done|lia].
  - intros k Hk Hnk. apply Hother; [by apply rg|]. unfold b. intros E'. apply (Hnk i Hi). lia.
  - assert (kept s s') as Hkept.
    { split; [etransitivity; [exact Hv1|]; destruct Hv3; by split| |done|by rewrite Hh3]. intros x Hx. apply Hother.
      - by intros ?%(rg_hidden rg).
      - intros ->. by destruct (rg_meta rg (ml_blk (ml s i)) Hin). }
    split_and!; [by apply (kept_vol s)|done|intros j _; apply HL|intros _ _; by rewrite Hml', decide_True|].
    intros j Hj. rewrite Hml'. by destruct (decide (i = j)).
Qed.
(** A line is reused: its block, if it held one, is clean. *)
Lemma replace_line s s' v l :
  cache_ok s -> 0 <= v < 32 -> (resident (ml s v) -> (ml s v).(ml_dirty) = false) ->
  (resident l -> 0 <= l.(ml_blk) < g.(meta_blocks) /\ l.(ml_img) = raw s (mblk l.(ml_blk)) /\ forall i, 0 <= i < 32 -> (ml s i).(ml_blk) <> l.(ml_blk)) ->
  zlen s'.(g_meta_cache) = 32 -> (forall j, ml s' j = if decide (v = j) then l else ml s j) ->
  (forall k, 0 <= k < g.(meta_blocks) -> raw s' (mblk k) = raw s (mblk k)) ->
  (forall i, 0 <= i < 32 -> resident (ml s i) -> 0 <= (ml s i).(ml_blk) < g.(meta_blocks)) ->
  cache_ok s' /\ forall k, 0 <= k < g.(meta_blocks) -> meta_img s' k = meta_img s k.
Proof.
  intros Hc Hv Hclean Hl Hlen Hml Hraw Hrange. assert (cache_ok s') as Hc'.
  { split; [done|..].
    - intros i j Hi Hj. rewrite !Hml. destruct (decide (v = i)) as [<-|], (decide (v = j)) as [<-|]; [done| | |by apply Hc].
      + intros Hr E. destruct (Hl Hr) as (_ & _ & Hno). by destruct (Hno j Hj).
      + intros Hr E. assert (resident l) as Hrl by (unfold resident in *; congruence). destruct (Hl Hrl) as (_ & _ & Hno). by destruct (Hno i Hi).
    - intros i Hi. rewrite Hml. destruct (decide (v = i)) as [<-|]; intros Hr Hd.
      + destruct (Hl Hr) as (Hk & -> & _). symmetry. by apply Hraw.
      + rewrite Hraw by by apply Hrange. by apply Hc. }
  split; [done|]. intros k Hk. apply shows_meta_img; [done|by apply blk_not_none|]. pose proof (blk_not_none k Hk) as Hkn.
  destruct (meta_img_shows s k Hc) as [(i & Hi & Eb & Ew)|[Hno Ew]].
  - destruct (decide (v = i)) as [<-|Hne]; [|left; exists i; by rewrite Hml, decide_False].
    assert (resident (ml s v)) as Hrv by (unfold resident; congruence). right. split.
    + intros j Hj. rewrite Hml. destruct (decide (v = j)) as [<-|Hne].
      * intros El. assert (resident l) as Hrl by (unfold resident; congruence). destruct (Hl Hrl) as (_ & _ & Hno). apply (Hno v Hv). congruence.
      * intros Ej. apply Hne, Hc; [done|done|done|congruence].
    + rewrite <- Ew, Hraw by done. rewrite <- Eb. by apply Hc; [| |apply Hclean].
  - destruct (decide (l.(ml_blk) = k)) as [El|Hne].
    + assert (resident l) as Hrl by (unfold resident; congruence). destruct (Hl Hrl) as (_ & Eimg & _). left. exists v.
      rewrite Hml, decide_True by done. split_and!; [lia|lia|done|]. by rewrite Ew, Eimg, El.
    + right. split; [|by rewrite Hraw]. intros j Hj. rewrite Hml. destruct (decide (v = j)); [done|by apply Hno].
Qed.
(** The same line, with another stamp. *)
Lemma stamp_kept s i t c :
  vol s -> 0 <= i < 32 ->
  let l := ml s i in let s' := set_meta (zset s.(g_meta_cache) i (mk_ml l.(ml_blk) t l.(ml_dirty) l.(ml_img))) c s in vol s' /\ kept s s'.
Proof.
  intros Hs Hi l s'. pose proof Hs as [Ho Hr Hc _ _]. pose proof (ml_ok s i Hr) as [Hin Hsz].
  assert (forall j, ml s' j = if decide (i = j) then mk_ml l.(ml_blk) t l.(ml_dirty) l.(ml_img) else ml s j) as Hml by (intros; apply ml_set; [apply Hc|done]).
  destruct (same_lines_show s s' Hc) as [Hc' Him]; [cbn; by rewrite zlen_zset; apply Hc|..].
  - intros j _. rewrite Hml. by destruct (decide (i = j)) as [<-|].
  - intros j Hj Hrj. rewrite Hml. intros Hd. symmetry. apply Hc; [done|done|]. by destruct (decide (i = j)) as [<-|].
  - done.
  - assert (kept s s') as Hk by (split; [by split; [split_and!|..]|done|done|done]). split; [|done].
    apply (kept_vol s); [done|done|by apply set_line_open|by apply set_line_ram|done].
Qed.
Definition meta_load (blk victim : Z) : SM (option Z) :=
  t ← meta_tick;
  l ← mline victim; set_mline victim (mk_ml blk t false l.(ml_img));;
  r ← io.(io_read) (mblk blk);
  match r with
  | None => l ← mline victim; set_mline victim (ml_unused l);; mret None
  | Some img =>
      l ← mline victim; set_mline victim (mk_ml l.(ml_blk) l.(ml_stamp) l.(ml_dirty) img);;
      ok ← merkle_verify_leaf io blk img;
      if negb ok then l ← mline victim; set_mline victim (ml_unused l);; mret None else mret (Some victim)
  end.
(** A line that is clean or unused is dropped. *)
Lemma drop_line_kept s v c :
  vol s -> 0 <= v < 32 -> (resident (ml s v) -> (ml s v).(ml_dirty) = false) ->
  let s' := set_meta (zset s.(g_meta_cache) v (ml_unused (ml s v))) c s in vol s' /\ kept s s'.
Proof.
  intros Hs Hv Hcl s'. pose proof Hs as [Ho Hr Hc _ _]. pose proof (ml_ok s v Hr) as [Hin Hsz].
  destruct (replace_line s s' v (ml_unused (ml s v)) Hc Hv Hcl) as [Hc' Him]; [done|cbn; rewrite zlen_zset; apply Hc|intros; apply ml_set; [apply Hc|done]|done| |].
  { intros i _. by apply ml_range. }
  assert (kept s s') as Hk by (split; [by split; [split_and!|..]|done|done|done]). split; [|done].
  apply (kept_vol s); [done|done|by apply set_line_open; [|left]|by apply set_line_ram; [|split; [left|]]|done].
Qed.
Lemma io_read_ram b s r s' : ram_ok g s -> s.(s_txn).(t_active) = true -> io_read io b s = (r, s') -> ram_ok g s' /\ sized_opt r.
Proof. intros Hr Ha E. destruct (proj1 (io_at_stages g True 1 rg.(rg_wf)) b s Hr Ha) as (H1 & _ & _ & H2). by rewrite E in *. Qed.
Lemma verify_leaf_stages leaf img : 0 <= leaf -> stages g True (merkle_verify_leaf io leaf img) any.
Proof. destruct (io_at_stages g True 1 rg.(rg_wf)). by apply merkle_verify_leaf_stages; [apply rg|..]. Qed.
Lemma meta_load_run k v s r s' :
  vol s -> 0 <= v < 32 -> 0 <= k < g.(meta_blocks) -> (resident (ml s v) -> (ml s v).(ml_dirty) = false) ->
  (forall i, 0 <= i < 32 -> (ml s i).(ml_blk) <> k) -> meta_load k v s = (r, s') ->
  vol s' /\ kept s s' /\ forall i, r = Some i -> i = v /\ (ml s' v).(ml_blk) = k.
Proof.
  intros Hs Hv Hk Hcl Hno. pose proof Hs as [Ho Hr Hc _ _]. unfold meta_load, meta_tick.
  rewrite (bind_run _ _ s (u32 (g_meta_clock s + 1)) (set_meta s.(g_meta_cache) (u32 (g_meta_clock s + 1)) s)) by done.
  set (t := u32 _). rewrite (bind_run _ _ _ (ml s v) (set_meta s.(g_meta_cache) t s)) by done. pose proof (ml_ok s v Hr) as [Hin Hsz].
  rewrite (bind_run _ _ _ _ _ (set_mline_run _ _ _)). cbn [g_meta_cache set_meta g_meta_clock]. set (l1 := mk_ml k t false _).
  set (s2 := set_meta _ _ (set_meta _ _ s)).
  assert (open_txn g s2) as Ho2 by (by apply (set_line_open s v l1 t); [|right]).
  assert (ram_ok g s2) as Hr2 by (by apply (set_line_ram s v l1 t); [|split; [right|]]).
  assert (zlen s.(g_meta_cache) = 32) as Hlen by apply Hc.
  destruct (io_read io (mblk k) s2) as [img s3] eqn:E3. rewrite (bind_run _ _ _ _ _ E3).
  destruct (io_read_ram _ _ _ _ Hr2 (ot_active _ _ Ho2) E3) as [Hr3 Hsz3].
  apply (plain_read_open g) in E3 as (Ht3 & Hk3 & Htx3 & Hm3 & Himg); [|done|by apply rg]. pose proof (Ht3 (fun _ => False)) as [Hv3 Hraw3 Hmc3 Hh3].
  assert (open_txn g s3) as Ho3.
  { destruct Ho2 as [[Hg1 Hg2 Hg3] ? ? ?]. split; rewrite ?Htx3; try done; [split; by rewrite ?Hm3, ?Hk3, ?Hmc3|destruct Hv3 as [_ -> _ _ _ _]; done]. }
  (* the state with line [v] replaced by [l] *)
  assert (forall l, mline_ok g l -> (resident l -> l.(ml_blk) = k /\ l.(ml_img) = raw s (mblk k)) ->
    let s4 := set_meta (zset s3.(g_meta_cache) v l) s3.(g_meta_clock) s3 in vol s4 /\ kept s s4 /\ ml s4 v = l) as Hput.
  { intros l Hl1 Hl2 s4. assert (forall j, ml s4 j = if decide (v = j) then l else ml s j) as Hml4.
    { intros j. unfold s4. rewrite ml_set; [|rewrite Hmc3; cbn; by rewrite zlen_zset|done]. destruct (decide (v = j)) as [|Hne]; [done|].
      unfold ml. rewrite Hmc3. cbn. by rewrite zget_zset_ne. }
    destruct (replace_line s s4 v l Hc Hv Hcl) as [Hc4 Him4].
    - intros Hrl. destruct (Hl2 Hrl) as [-> ->]. done.
    - cbn. by rewrite zlen_zset, Hmc3; cbn; rewrite zlen_zset.
    - done.
    - intros x Hx. exact (Hraw3 (mblk x) id).
    - intros i _. by apply ml_range.
    - assert (kept s s4) as Hk4.
      { split; [destruct Hv3; by split| |done|exact Hh3]. intros x Hx. exact (Hraw3 x id). }
      split_and!; [|done|by rewrite Hml4, decide_True]. apply (kept_vol s); [done|done|apply set_line_open; [done|apply Hl1]|by apply set_line_ram|done]. }
  assert (ml s3 v = l1) as Hl1 by (unfold ml; rewrite Hmc3; cbn; by rewrite zget_zset_eq by lia).
  destruct img as [img|].
  2:{ rewrite (bind_run _ _ s3 (ml s3 v) s3) by done. rewrite (bind_run _ _ _ _ _ (set_mline_run _ _ _)), Hl1. intros [= <- <-].
      destruct (Hput (ml_unused l1)) as (? & ? & _); [by split; [left|]|done|]. by split_and!. }
  specialize (Himg _ eq_refl). specialize (Hsz3 _ eq_refl).
  rewrite (bind_run _ _ s3 (ml s3 v) s3) by done. rewrite (bind_run _ _ _ _ _ (set_mline_run _ _ _)), Hl1.
  destruct (Hput (mk_ml k t false img)) as (Hv4 & Hk4 & Hml4); [by split; [right|]|by rewrite Himg|]. cbn [ml_blk ml_stamp ml_dirty l1].
  set (s4 := set_meta _ _ s3) in *. destruct (merkle_verify_leaf io k img s4) as [ok s5] eqn:E5. rewrite (bind_run _ _ _ _ _ E5).
  destruct (calm_kept _ _ _ _ _ _ Hv4 (merkle_verify_leaf_calm g rg.(rg_pm) 0 k img ltac:(lia)) (verify_leaf_stages k img ltac:(lia)) E5) as (Hv5 & Hk5 & Hmc5 & _).
  assert (ml s5 v = mk_ml k t false img) as Hml5 by (unfold ml in *; by rewrite Hmc5).
  destruct ok; cbn [negb].
  - intros [= <- <-]. split_and!; [done|by etransitivity|]. intros i [= <-]. by rewrite Hml5.
  - rewrite (bind_run _ _ s5 (ml s5 v) s5) by done. rewrite (bind_run _ _ _ _ _ (set_mline_run _ _ _)). intros [= <- <-].
    destruct (drop_line_kept s5 v s5.(g_meta_clock) Hv5 Hv) as [? ?]; [by rewrite Hml5|]. split_and!; [done| |done].
    etransitivity; [exact Hk4|]. by etransitivity.
Qed.
Definition meta_evict (victim : Z) : SM bool :=
  l ← mline victim;
  ok ← (if l.(ml_dirty)
        then count (fun c => mk_stats c.(g_meta_evictions) (c.(g_meta_dirty_evictions) + 1) c.(g_merkle_evictions)
               c.(g_span_refusals) c.(g_txn_highwater) c.(g_free_batches) c.(g_alloc_bitmap_reads) c.(g_storage_op_unheld));;
             meta_cache_flush_line io victim
        else mret true);
  if negb ok then mret false else
  count (fun c => mk_stats (c.(g_meta_evictions) + 1) c.(g_meta_dirty_evictions) c.(g_merkle_evictions) c.(g_span_refusals)
    c.(g_txn_highwater) c.(g_free_batches) c.(g_alloc_bitmap_reads) c.(g_storage_op_unheld));; mret true.
Lemma count_kept f s : vol s -> exists s1, count f s = (tt, s1) /\ vol s1 /\ kept s s1 /\ s1.(g_meta_cache) = s.(g_meta_cache).
Proof.
  intros [[[] ? ? ?] [] [] ? ?]. exists (set_stats (f s.(s_stats)) s). split; [done|]. split; [split; [by split|by split|by split|done|done]|].
  split; [|done]. by split; [split; [split_and!|..]|..].
Qed.
Ltac count_step :=
  match goal with
  | Hs : vol ?s |- (mbind _ (count ?f)) ?s = _ -> _ =>
      let E := fresh "Ec" in let Hk := fresh "Hkc" in let Hm := fresh "Hmc" in
      let s1 := fresh "s" in let Hv := fresh "Hv" in
      destruct (count_kept f s Hs) as (s1 & E & Hv & Hk & Hm); rewrite (bind_run _ _ _ _ _ E)
  end.
Lemma meta_evict_run v s r s' :
  vol s -> 0 <= v < 32 -> meta_evict v s = (r, s') ->
  vol s' /\ kept s s' /\ (forall j, 0 <= j < 32 -> (ml s' j).(ml_blk) = (ml s j).(ml_blk))
  /\ (r = true -> resident (ml s' v) -> (ml s' v).(ml_dirty) = false).
Proof.
  intros Hs Hv. unfold meta_evict. rewrite (bind_run _ _ s (ml s v) s) by done.
  set (flush := if ml_dirty (ml s v) then _ else _). destruct (flush s) as [ok s2] eqn:E. rewrite (bind_run _ _ _ _ _ E).
  assert (vol s2 /\ kept s s2 /\ (forall j, 0 <= j < 32 -> (ml s2 j).(ml_blk) = (ml s j).(ml_blk))
    /\ (ok = true -> resident (ml s2 v) -> (ml s2 v).(ml_dirty) = false)) as (Hs2 & Hk2 & HL & Hcl).
  { revert E. unfold flush. destruct (ml_dirty (ml s v)) eqn:Hd; [|intros [= <- <-]; by split_and!]. count_step. intros E.
    destruct (flush_line_run v _ ok s2 Hv0 Hv E) as (? & ? & HL & ? & _). split_and!; [done|by etransitivity| |done].
    intros j Hj. rewrite (proj1 (HL j Hj)). unfold ml. by rewrite Hmc. }
  destruct ok; cbn [negb]; [|intros [= <- <-]; by split_and!]. count_step. intros [= <- <-].
  split_and!; [done|by etransitivity|intros j Hj; rewrite <- HL by done; unfold ml; by rewrite Hmc|]. intros _. unfold ml in *. rewrite Hmc. exact (Hcl eq_refl).
Qed.
Lemma meta_get_run k s r s' :
  vol s -> 0 <= k -> meta_cache_get io k s = (r, s') ->
  vol s' /\ kept s s' /\ forall i, r = Some i -> 0 <= i < 32 /\ k < g.(meta_blocks) /\ (ml s' i).(ml_blk) = k.
Proof.
  intros Hs Hk. unfold meta_cache_get. rewrite (bind_run _ _ s s.(s_mfs) s) by done. destruct (no_meta_false s Hs) as [-> Hg]. rewrite Hg.
  destruct (Z.leb_spec (meta_blocks g) k) as [|Hkb]; [intros [= <- <-]; by split_and!|].
  rewrite (bind_run _ _ s s.(g_meta_cache) s) by done. pose proof Hs as [_ _ Hc _ _].
  destruct (find_index (fun i => (zget ml_none s.(g_meta_cache) i).(ml_blk) =? k) 0 (Z.to_nat META_CACHE_LINES)) as [i|] eqn:Ef.
  - apply find_index_Some in Ef as (Hi & Eb%Z.eqb_eq & _). change (0 <= i < 32) in Hi. unfold meta_tick.
    rewrite (bind_run _ _ s (u32 (g_meta_clock s + 1)) (set_meta s.(g_meta_cache) (u32 (g_meta_clock s + 1)) s)) by done.
    set (t := u32 _). rewrite (bind_run _ _ _ (ml s i) (set_meta s.(g_meta_cache) t s)) by done. rewrite (bind_run _ _ _ _ _ (set_mline_run _ _ _)).
    intros [= <- <-]. destruct (stamp_kept s i t t Hs Hi) as [? ?]. split_and!; [done|done|]. intros j [= <-].
    split_and!; [lia|lia|done|]. cbn [set_meta g_meta_cache]. unfold ml. cbn. rewrite zget_zset_eq by (rewrite (ca_len s Hc); lia). done.
  - assert (forall i, 0 <= i < 32 -> (ml s i).(ml_blk) <> k) as Hno.
    { intros i Hi. pose proof (find_index_None _ _ _ Ef i ltac:(change (Z.of_nat (Z.to_nat META_CACHE_LINES)) with 32; lia)) as H. cbn in H. unfold ml. lia. }
    cbv zeta. set (free := find_index _ 0 _). set (v := default _ free).
    assert (0 <= v < 32 /\ (free <> None -> ~ resident (ml s v))) as [Hv Hfree].
    { unfold v. destruct free as [x|] eqn:Efr; cbn.
      - unfold free in Efr. apply find_index_Some in Efr as (Hx & Ex%Z.eqb_eq & _). change (0 <= x < 32) in Hx. split; [done|]. intros _. unfold resident, ml. rewrite Ex. intros H. by apply H.
      - split; [|done]. pose proof (oldest_lt ml_stamp s.(g_meta_cache)) as Hlt. pose proof (ca_len s Hc) as Hlen. unfold zlen in Hlen.
        assert (s.(g_meta_cache) <> []) as Hne by (intros E; rewrite E in Hlen; cbn in Hlen; lia). specialize (Hlt Hne). lia. }
    destruct (match free with Some _ => mret true | None => meta_evict v end s) as [ok s1] eqn:E1.
    rewrite (bind_run _ _ s ok s1) by (rewrite <- E1; by destruct free).
    assert (vol s1 /\ kept s s1 /\ (forall j, 0 <= j < 32 -> (ml s1 j).(ml_blk) = (ml s j).(ml_blk))
      /\ (ok = true -> resident (ml s1 v) -> (ml s1 v).(ml_dirty) = false)) as (Hs1 & Hk1 & HL & Hcl).
    { destruct free; [|by apply meta_evict_run]. injection E1 as <- <-. split_and!; try done. intros _ Hr. by destruct Hfree. }
    destruct ok; cbn [negb]; [|intros [= <- <-]; by split_and!]. fold (meta_load k v). intros E2.
    apply meta_load_run in E2 as (Hs2 & Hk2 & HR); [|done|done|done|by apply Hcl|intros i Hi; rewrite HL by done; by apply Hno].
    split_and!; [done|by etransitivity|]. intros i Hi. destruct (HR i Hi) as [-> ?]. split; [done|by split].
Qed.
End view.
