(* ===== verification/Cells.v ===== *)
(** Sealed blocks in an open transaction (storage.c): the plaintext a block shows under
    an identity, and what reading, sealing and writing do to it.  Every block of the
    volume is a cell, its contents and its nonce entry; an operation changes at most the
    cell it names. *)
From Stdlib Require Import Strings.String.
From S2P Require Import Prelude Sha256 Aead Disk Super Store Journal Tree Staging Knot Merkle View.

(** ** What a cell shows *)
Definition entry (g : geometry) (s : store) (phys : Z) : list Z := entry_of (meta_img g s (phys / META_ENTRIES_PER_BLOCK)) phys.
Definition block_keys (m : mounted_fs) (ino b : Z) : option (list Z * list Z) :=
  okm ← hkdf_sha256 m.(volume_key) m.(disk_key) (byte_string "horus-block-aead-v3" ++ to_le_bytes 8 ino ++ to_le_bytes 8 b) 64;
  Some (take 32 okm, drop 32 okm).
(** The block [ct] opened with entry [e] under identity [(ino, b)]. *)
Definition unseal (m : mounted_fs) (ino b : Z) (e : list Z) (ct : block) : option block :=
  if zget 0 e 28 =? 0 then None else
  '(ek, mk) ← block_keys m ino b;
  let '(ok, pt) := open ek mk (take 12 e) (storage_block_aad ino b) ct (take 16 (drop 12 e)) in
  if ok : bool then Some pt else None.
Definition plain (g : geometry) (s : store) (ino b phys : Z) : option block := unseal s.(s_mfs) ino b (entry g s phys) (raw s phys).
(** A block of the metadata span shows itself until it is first sealed. *)
Definition span_plain (g : geometry) (s : store) (b : Z) : option block :=
  if zget 0 (entry g s b) 28 =? 0 then Some (raw s b) else plain g s SPAN_INO b b.

Lemma entry_slot img phys : entry_of img phys = slot_of img phys.
Proof. done. Qed.
Lemma present_byte (nonce tag rest : list Z) x : length nonce = 12%nat -> length tag = 16%nat -> zget 0 (nonce ++ tag ++ x :: rest) 28 = x.
Proof. intros Hn Ht. rewrite zget_lookup by lia. rewrite app_assoc, list_lookup_middle; [done|]. rewrite length_app, Hn, Ht. done. Qed.
Lemma seal_lengths ek mk nonce aad pt ct tag :
  seal ek mk nonce aad pt = (ct, tag) -> length ct = length pt /\ length tag = 16%nat.
Proof. unfold seal. intros [= <- <-]. split; [apply length_chacha20_xor|apply length_compute_tag]. Qed.
Lemma seal_unseal m ino b ek mk nonce pt ct tag :
  block_keys m ino b = Some (ek, mk) -> length nonce = 12%nat -> seal ek mk nonce (storage_block_aad ino b) pt = (ct, tag) ->
  unseal m ino b (nonce ++ tag ++ [1; 0; 0; 0]) ct = Some pt.
Proof.
  intros Hk Hn Hs. pose proof (seal_lengths _ _ _ _ _ _ _ Hs) as [_ Ht]. pose proof (open_seal ek mk nonce (storage_block_aad ino b) pt) as Ho.
  rewrite Hs in Ho. unfold unseal. rewrite present_byte, Hk by done. cbn [Z.eqb mbind option_bind].
  rewrite take_app_length', drop_app_length', take_app_length' by done. cbn [fst snd] in Ho. by rewrite Ho.
Qed.

Section cells.
Context (g : geometry) (rg : regions g).
(** Only the cell of [b] may have changed. *)
Record others (b : Z) (s s' : store) : Prop := {
  ob_vol : same_vol s s';
  ob_raw : forall x, user g x -> x <> b -> raw s' x = raw s x;
  ob_entry : forall x, user g x -> x <> b -> entry g s' x = entry g s x;
  ob_hint : s'.(g_alloc_hint) = s.(g_alloc_hint)
}.
Lemma user_blk x : user g x -> 0 <= x / META_ENTRIES_PER_BLOCK < g.(meta_blocks).
Proof.
  intros Hx. assert (0 <= x < g.(total_blocks)) by (pose proof (pm_span g (rg_pm g rg)); destruct Hx as [?|?%(rg_accounts g rg)]; lia). pose proof (rg_cover g rg). pose proof (pm_span g (rg_pm g rg)). change META_ENTRIES_PER_BLOCK with 128 in *.
  split; [apply Z.div_pos; lia|apply Z.div_lt_upper_bound; lia].
Qed.
Lemma kept_entry s s' x : kept g s s' -> user g x -> entry g s' x = entry g s x.
Proof. intros [_ _ H _] Hx. unfold entry. by rewrite H by by apply user_blk. Qed.
Lemma kept_raw s s' x : kept g s s' -> user g x -> raw s' x = raw s x.
Proof. intros [_ H _ _] Hx. apply H, Hx. Qed.
Lemma kept_others b s s' : kept g s s' -> others b s s'.
Proof. intros Hk. split; [apply Hk|intros; by apply kept_raw|intros; by apply kept_entry|apply Hk]. Qed.
Lemma others_refl b s : others b s s.
Proof. by split. Qed.
Lemma others_trans b s1 s2 s3 : others b s1 s2 -> others b s2 s3 -> others b s1 s3.
Proof.
  intros [? H1 H2 ?] [? H3 H4 ?]. split; [by etransitivity| | |congruence]; intros x Hx Hne; [rewrite H3 by done; by apply H1|rewrite H4 by done; by apply H2].
Qed.
(** Keys depend on the volume only. *)
Lemma block_keys_vol s s' ino b : same_vol s s' -> block_keys s'.(s_mfs) ino b = block_keys s.(s_mfs) ino b.
Proof. intros [(_ & _ & _ & E1 & E2 & _) _ _ _ _ _]. unfold block_keys. by rewrite E1, E2. Qed.
Lemma unseal_vol s s' ino b e ct : same_vol s s' -> unseal s'.(s_mfs) ino b e ct = unseal s.(s_mfs) ino b e ct.
Proof. intros H. unfold unseal. by rewrite (block_keys_vol s s'). Qed.
Lemma plain_same s s' ino b x : same_vol s s' -> raw s' x = raw s x -> entry g s' x = entry g s x -> plain g s' ino b x = plain g s ino b x.
Proof. intros Hv Hr He. unfold plain. by rewrite Hr, He, (unseal_vol s s'). Qed.
Lemma span_plain_same s s' x : same_vol s s' -> raw s' x = raw s x -> entry g s' x = entry g s x -> span_plain g s' x = span_plain g s x.
Proof. intros Hv Hr He. unfold span_plain. by rewrite Hr, He, (plain_same s s'). Qed.
(** ** Sealing and opening *)
Lemma derive_run s ino b : vol g s -> storage_derive_block_keys ino b s = (block_keys s.(s_mfs) ino b, s).
Proof.
  intros [_ _ _ [Hm Hu] _]. unfold storage_derive_block_keys. rewrite (bind_run _ _ s s.(s_mfs) s) by done. rewrite Hm, Hu. cbn [negb orb].
  unfold block_keys. by destruct (hkdf_sha256 _ _ _ _).
Qed.
Lemma random_run n s : vol g s -> exists s1, secure_random_bytes n s = (take n (s.(random) ++ replicate n 0), s1)
  /\ length (take n (s.(random) ++ replicate n 0)) = n /\ vol g s1 /\ kept g s s1.
Proof.
  intros [[[] ? ? ?] [] [] ? ?]. eexists. split; [done|]. split; [rewrite length_take, length_app, length_replicate; lia|].
  split; [split; [by split|by split|by split|done|done]|]. by split; [split; [split_and!|..]|..].
Qed.
Lemma edit_line s i st img c :
  vol g s -> 0 <= i < 32 -> resident (ml s i) -> sized img ->
  let s' := set_meta (zset s.(g_meta_cache) i (mk_ml (ml s i).(ml_blk) st true img)) c s in
  vol g s' /\ same_vol s s' /\ meta_img g s' (ml s i).(ml_blk) = img
  /\ forall k, 0 <= k < g.(meta_blocks) -> k <> (ml s i).(ml_blk) -> meta_img g s' k = meta_img g s k.
Proof.
  intros Hs Hi Hres Hsz s'. pose proof Hs as [Ho Hr Hc [Hm Hu] Hh]. pose proof (ml_range g s i Hr Hres) as Hk. set (l := mk_ml _ st true img) in *.
  assert (forall j, ml s' j = if decide (i = j) then l else ml s j) as Hml by (intros; apply ml_set; [apply Hc|done]).
  assert (forall j, (ml s' j).(ml_blk) = (ml s j).(ml_blk)) as Hb by (intros j; rewrite Hml; by destruct (decide (i = j)) as [<-|]).
  assert (cache_ok g s') as Hc'.
  { split; [cbn; rewrite zlen_zset; apply Hc|..].
    - intros a b Ha Hb'. unfold resident. rewrite !Hb. by apply Hc.
    - intros a Ha. unfold resident. rewrite Hb, Hml. destruct (decide (i = a)); [done|]. by apply Hc. }
  split; [split; [apply set_line_open; [done|by right]|apply set_line_ram; [done|by split; [right|]]|done|done|done]|].
  split; [by split; [split_and!|..]|]. split.
  - apply shows_meta_img; [done|done|]. left. exists i. by rewrite Hml, decide_True by done.
  - intros k Hk' Hne. apply shows_meta_img; [done|by apply (blk_not_none g rg)|]. destruct (meta_img_shows g s k Hc) as [(j & Hj & Eb & Ew)|[Hno Ew]].
    + left. exists j. rewrite Hml, decide_False by (intros <-; congruence). done.
    + right. split; [|done]. intros j Hj. rewrite Hb. by apply Hno.
Qed.
Lemma resident_blk s i k : vol g s -> (ml s i).(ml_blk) = k -> 0 <= k < g.(meta_blocks) -> resident (ml s i).
Proof. intros Hs E Hk. unfold resident. rewrite E. by apply (blk_not_none g rg). Qed.
Lemma line_shows s i k : vol g s -> 0 <= i < 32 -> (ml s i).(ml_blk) = k -> 0 <= k < g.(meta_blocks) -> (ml s i).(ml_img) = meta_img g s k.
Proof.
  intros [_ _ Hc _ _] Hi E Hk. symmetry. apply shows_meta_img; [done|by apply (blk_not_none g rg)|]. left. by exists i.
Qed.
(** What sealing [buf] leaves: an entry under which the ciphertext opens to [buf]. *)
Lemma encrypt_run phys ino b buf s ok ct s' :
  vol g s -> user g phys -> sized buf -> storage_encrypt_block store_io phys ino b buf s = (ok, ct, s') ->
  vol g s' /\ others phys s s' /\ raw s' phys = raw s phys /\ sized ct
  /\ (if ok then unseal s.(s_mfs) ino b (entry g s' phys) ct = Some buf /\ zget 0 (entry g s' phys) 28 = 1 else kept g s s').
Proof.
  intros Hs Hp Hsz. unfold storage_encrypt_block. destruct (_ <=? phys); [intros [= <- <- <-]; split_and!; try done; apply others_refl|].
  rewrite (bind_run _ _ s s.(s_mfs) s) by done. destruct (vo_keys _ _ Hs) as [-> ->]. cbn [negb orb].
  rewrite (bind_run _ _ _ _ _ (derive_run s ino b Hs)). destruct (block_keys (s_mfs s) ino b) as [[ek mk]|] eqn:Ek;
    [|intros [= <- <- <-]; split_and!; try done; apply others_refl].
  destruct (random_run 12 s Hs) as (s1 & E1 & Hn & Hs1 & Hk1). rewrite (bind_run _ _ _ _ _ E1). set (nonce := take 12 _) in *.
  destruct (seal _ _ _ _ _) as [ct1 tag] eqn:Es. pose proof (seal_lengths _ _ _ _ _ _ _ Es) as [Hct Htag].
  assert (sized ct1) as Hsz1 by (unfold sized; congruence). pose proof (user_blk phys Hp) as Hblk.
  cbv beta iota. destruct (meta_cache_get store_io (phys / META_ENTRIES_PER_BLOCK) s1) as [r s2] eqn:E2. rewrite (bind_run _ _ _ _ _ E2).
  apply (meta_get_run g rg) in E2 as (Hs2 & Hk2 & HR); [|done|apply Hblk]. assert (kept g s s2) as Hk by by etransitivity.
  destruct r as [i|]; [|intros [= <- <- <-]; split_and!; [done|by apply kept_others|by apply (kept_raw s)|done|done]].
  destruct (HR i eq_refl) as (Hi & Hkb & Eb). rewrite (bind_run _ _ s2 (ml s2 i) s2) by done. rewrite (bind_run _ _ _ _ _ (set_mline_run _ _ _)).
  pose proof (resident_blk s2 i _ Hs2 Eb Hblk) as Hres. pose proof (line_shows s2 i _ Hs2 Hi Eb Hblk) as Himg.
  assert (length (nonce ++ tag ++ [1; 0; 0; 0]) = 32%nat) as He by (rewrite !length_app, Hn, Htag; done).
  assert (sized (ml s2 i).(ml_img)) as Hszi by apply (ml_ok g s2 i (vo_ram _ _ Hs2)).
  destruct (edit_line s2 i (ml_stamp (ml s2 i)) (set_slot (ml s2 i).(ml_img) phys (nonce ++ tag ++ [1; 0; 0; 0])) s2.(g_meta_clock) Hs2 Hi Hres) as (Hs3 & Hv3 & Hm3 & Hm3');
    [by apply set_slot_sized|].
  change (splice (ml_img (ml s2 i)) (entry_off phys) (nonce ++ tag ++ [1; 0; 0; 0])) with (set_slot (ml s2 i).(ml_img) phys (nonce ++ tag ++ [1; 0; 0; 0])).
  set (s3 := set_meta _ _ s2) in *. rewrite (bind_run _ _ s3 s3.(s_txn) s3) by done.
  change (t_active (s_txn s3)) with (t_active (s_txn s2)). rewrite (ot_active _ _ (vo_open _ _ Hs2)). intros [= <- <- <-].
  assert (entry g s3 phys = nonce ++ tag ++ [1; 0; 0; 0]) as Hent.
  { unfold entry. rewrite <- Eb, Hm3, entry_slot. by apply slot_set_same. }
  split; [done|]. split; [|split; [by apply (kept_raw s s2)|split; [done|rewrite Hent; split; [by eapply seal_unseal|by apply present_byte]]]].
  apply (others_trans phys s s2); [by apply kept_others|]. split; [done|done| |done]. intros x Hx Hne. pose proof (user_blk x Hx) as Hxb.
  unfold entry. destruct (decide (x / META_ENTRIES_PER_BLOCK = phys / META_ENTRIES_PER_BLOCK)) as [E|E]; [|by rewrite Hm3' by congruence].
  rewrite E, <- Eb, Hm3, !entry_slot, slot_set_other; [by rewrite Himg, Eb|done|done|]. change META_ENTRIES_PER_BLOCK with 128 in *.
  intros Em. apply Hne. rewrite (Z.div_mod x 128), (Z.div_mod phys 128) by lia. lia.
Qed.
Lemma decrypt_run phys ino b buf s ok pt s' :
  vol g s -> user g phys -> sized buf -> storage_decrypt_block store_io phys ino b buf s = (ok, pt, s') ->
  vol g s' /\ kept g s s' /\ sized pt /\ (ok = true -> unseal s.(s_mfs) ino b (entry g s phys) buf = Some pt).
Proof.
  intros Hs Hp Hsz. pose proof zero_sized as Hz. unfold storage_decrypt_block. destruct (_ <=? phys); [intros [= <- <- <-]; by split_and!|].
  rewrite (bind_run _ _ s s.(s_mfs) s) by done. destruct (vo_keys _ _ Hs) as [-> ->]. cbn [negb orb]. pose proof (user_blk phys Hp) as Hblk.
  destruct (meta_cache_get store_io (phys / META_ENTRIES_PER_BLOCK) s) as [r s2] eqn:E2. rewrite (bind_run _ _ _ _ _ E2).
  apply (meta_get_run g rg) in E2 as (Hs2 & Hk2 & HR); [|done|apply Hblk].
  destruct r as [i|]; [|intros [= <- <- <-]; by split_and!]. destruct (HR i eq_refl) as (Hi & Hkb & Eb).
  rewrite (bind_run _ _ s2 (ml s2 i) s2) by done. pose proof (line_shows s2 i _ Hs2 Hi Eb Hblk) as Himg.
  assert (entry_of (ml_img (ml s2 i)) phys = entry g s phys) as He by (rewrite Himg; unfold entry; by rewrite (ke_meta _ _ _ Hk2)).
  unfold entry_present. rewrite He. destruct (Z.eqb_spec (zget 0 (entry g s phys) 28) 0) as [|Hpr]; cbn [negb]; [intros [= <- <- <-]; by split_and!|].
  rewrite (bind_run _ _ _ _ _ (derive_run s2 ino b Hs2)). rewrite (block_keys_vol s s2) by apply Hk2. unfold unseal.
  destruct (Z.eqb_spec (zget 0 (entry g s phys) 28) 0) as [|_]; [done|].
  destruct (block_keys (s_mfs s) ino b) as [[ek mk]|] eqn:Ek; [|intros [= <- <- <-]; by split_and!].
  intros [E <-]%pair_equal_spec. pose proof (open_sized ek mk (take 12 (entry g s phys)) (storage_block_aad ino b) buf (take 16 (drop 12 (entry g s phys))) Hsz) as Ho.
  rewrite E in Ho. split_and!; [done|done|exact Ho|]. intros ->. cbn [mbind option_bind]. by rewrite E.
Qed.
Lemma pm_leaf_span b : g.(inode_bitmap_start) <= b < g.(data_start) -> pm_leaf_of g b = Some (g.(meta_blocks) + (b - g.(inode_bitmap_start))).
Proof. intros H. unfold pm_leaf_of. destruct (Z.ltb_spec b (inode_bitmap_start g)), (Z.leb_spec (data_start g) b); try lia. done. Qed.
Lemma pm_leaf_data b : g.(data_start) <= b -> pm_leaf_of g b = None.
Proof. intros H. unfold pm_leaf_of. destruct (Z.leb_spec (data_start g) b); [|lia]. by rewrite orb_true_r. Qed.
Lemma pm_leaf_accounts b : accounts g b -> pm_leaf_of g b = None.
Proof. intros H%(rg_accounts g rg). unfold pm_leaf_of. destruct (Z.ltb_spec b (inode_bitmap_start g)); [done|lia]. Qed.
Lemma span_leaf_run s b : vol g s -> g.(inode_bitmap_start) <= b < g.(data_start) ->
  span_leaf b s = (span_leaf_of (g.(meta_blocks) + (b - g.(inode_bitmap_start))), s).
Proof.
  intros Hs Hb. unfold span_leaf. rewrite (bind_run _ _ s s.(s_mfs) s) by done. destruct (vo_keys _ _ Hs) as [-> ->].
  rewrite (ro_geo _ _ (vo_ram _ _ Hs)), pm_leaf_span by done. cbn [negb]. destruct (Z.eqb_spec (merkle_start g) 0) as [E|]; [|done].
  destruct (rg_some g rg) as [_ H]. done.
Qed.
Lemma plain_open_kept io b s r s' :
  vol g s -> pm_leaf_of g b = None -> ram_ok g s' -> do_block_read_with io b s = (r, s') -> vol g s' /\ kept g s s' /\ forall w, r = Some w -> w = raw s b.
Proof.
  intros Hs Hb Hr E. apply (plain_read_open g) in E as (Ht & Hk & Htx & Hm & Hw); [|apply Hs|done].
  pose proof (Ht (hidden g)) as H. pose proof Hs as [[[Hg1 Hg2 Hg3] ? ? ?] _ _ _ _]. destruct (touch_kept g rg s s' Hs H) as [? ?]; [|done|by split_and!].
  destruct H as [[_ Hd _ _ _ _] _ Hmc _]. split; rewrite ?Htx, ?Hd; try done. split; by rewrite ?Hm, ?Hk, ?Hmc.
Qed.
Lemma read_ram b s r s' : ram_ok g s -> s.(s_txn).(t_active) = true -> do_block_read b s = (r, s') -> ram_ok g s' /\ sized_opt r.
Proof.
  intros Hr Ha E. destruct (io_at_stages g True 1 (rg_wf g rg)) as [H1 H2].
  destruct (do_block_read_stages g True (rg_wf g rg) store_io H1 H2 b s Hr Ha) as (? & _ & _ & ?). unfold do_block_read in E. by rewrite E in *.
Qed.
Lemma read_plain_run b s r s' :
  vol g s -> pm_leaf_of g b = None -> do_block_read b s = (r, s') -> vol g s' /\ kept g s s' /\ forall w, r = Some w -> w = raw s b /\ sized w.
Proof.
  intros Hs Hb E. destruct (read_ram b s r s' (vo_ram _ _ Hs) (ot_active _ _ (vo_open _ _ Hs)) E) as [Hr Hsz].
  destruct (plain_open_kept _ _ _ _ _ Hs Hb Hr E) as (? & ? & Hw). split_and!; [done|done|]. intros w Hw'. split; auto.
Qed.
Lemma read_data_run b s r s' :
  vol g s -> g.(data_start) <= b -> do_block_read b s = (r, s') -> vol g s' /\ kept g s s' /\ forall w, r = Some w -> w = raw s b /\ sized w.
Proof. intros Hs Hb. apply read_plain_run; [done|by apply pm_leaf_data]. Qed.
Lemma disk_kept d s : vol g s -> quiet True s.(s_disk) d -> latest d = latest s.(s_disk) -> disk_ok d -> vol g (set_disk d s) /\ kept g s (set_disk d s).
Proof.
  intros Hs Hq HL Hd. apply (touch_kept g rg s); [done| | |].
  - split; [by split; [split_and!|..]| |done|done]. intros x _. unfold raw. cbn. by rewrite HL.
  - destruct Hs as [[[] ? ? ?] _ _ _ _]. by split.
  - destruct Hs as [_ [] _ _ _]. by split.
Qed.
Lemma fetch_run b s r s' :
  vol g s -> (match staged_at s.(s_txn) b with Some w => mret (Some w) | None => raw_block_read b end) s = (r, s') ->
  vol g s' /\ kept g s s' /\ s'.(s_txn) = s.(s_txn) /\ forall w, r = Some w -> w = raw s b /\ sized w.
Proof.
  intros Hs E. pose proof Hs as [[_ _ Ho _] Hr _ _ _]. destruct (staged_at (s_txn s) b) as [w|] eqn:Es.
  - injection E as <- <-. split_and!; try done. intros v [= <-]. unfold raw. rewrite Es. split; [done|]. by apply (staged_at_sized g _ _ (ro_staged _ _ Hr)) in Es.
  - unfold raw_block_read in E. rewrite (bind_run _ _ _ _ _ (open_permitted s Ho)) in E. cbn [negb] in E. unfold on_disk in E.
    destruct (disk_read (s_disk s) b) as [r2 d] eqn:E2. pose proof (disk_read_latest _ _ _ _ E2) as [HL Hw].
    apply (disk_read_step True) in E2 as [Hq Hd]. destruct (Hd (ro_disk _ _ Hr)) as [Hd1 Hd2]. injection E as <- <-.
    destruct (disk_kept d s Hs Hq HL Hd1) as [? ?]. split_and!; [done|done|done|]. intros w ->. unfold raw. rewrite Es. cbn. split; [by apply Hw|by apply Hd2].
Qed.
Lemma span_refused_run s r s' : vol g s -> span_refused s = (r, s') -> vol g s' /\ kept g s s' /\ r = None.
Proof. intros Hs. unfold span_refused. match goal with |- mbind _ (count ?f) _ = _ -> _ => destruct (count_kept g f s Hs) as (s1 & E & ? & ? & _) end. rewrite (bind_run _ _ _ _ _ E). intros [= <- <-]. by split_and!. Qed.
Lemma span_open_run b buf s ok pt s' :
  vol g s -> user g b -> sized buf -> span_open store_io b buf s = (ok, pt, s') ->
  vol g s' /\ kept g s s' /\ sized pt
  /\ (ok = true -> (if zget 0 (entry g s b) 28 =? 0 then Some buf else unseal s.(s_mfs) SPAN_INO b (entry g s b) buf) = Some pt).
Proof.
  intros Hs Hb Hsz. unfold span_open. pose proof (user_blk b Hb) as Hblk.
  destruct (meta_cache_get store_io (b / META_ENTRIES_PER_BLOCK) s) as [r s2] eqn:E2. rewrite (bind_run _ _ _ _ _ E2).
  apply (meta_get_run g rg) in E2 as (Hs2 & Hk2 & HR); [|done|apply Hblk].
  destruct r as [i|]; [|intros [= <- <- <-]; by split_and!]. destruct (HR i eq_refl) as (Hi & Hkb & Eb).
  rewrite (bind_run _ _ s2 (ml s2 i) s2) by done. pose proof (line_shows s2 i _ Hs2 Hi Eb Hblk) as Himg.
  assert (entry_of (ml_img (ml s2 i)) b = entry g s b) as He by (rewrite Himg; unfold entry; by rewrite (ke_meta _ _ _ Hk2)).
  unfold entry_present. rewrite He. destruct (Z.eqb_spec (zget 0 (entry g s b) 28) 0) as [|Hpr]; cbn [negb]; [intros [= <- <- <-]; by split_and!|].
  intros E. apply decrypt_run in E as (? & ? & ? & HU); [|done|done|done]. split_and!; [done|by etransitivity|done|].
  rewrite (kept_entry s s2), (unseal_vol s s2) in HU by (done || apply Hk2). done.
Qed.
Lemma read_span_run b s r s' :
  vol g s -> user g b -> g.(inode_bitmap_start) <= b < g.(data_start) -> do_block_read b s = (r, s') ->
  vol g s' /\ kept g s s' /\ forall w, r = Some w -> span_plain g s b = Some w /\ sized w.
Proof.
  intros Hs Hb Hd. unfold do_block_read, do_block_read_with. pose proof Hs as [[_ Ha Ho _] _ _ _ _].
  rewrite (bind_run _ _ _ _ _ (open_permitted s Ho)). cbn [negb]. rewrite (bind_run _ _ s s.(s_txn) s) by done. rewrite Ha. cbv zeta.
  destruct ((match staged_at (s_txn s) b with Some w => mret (Some w) | None => raw_block_read b end) s) as [r1 s1] eqn:E1.
  rewrite (bind_run _ _ _ _ _ E1). apply fetch_run in E1 as (Hs1 & Hk1 & _ & HR); [|done].
  destruct r1 as [buf|]; [|intros [= <- <-]; by split_and!]. destruct (HR _ eq_refl) as [-> Hsz].
  rewrite (bind_run _ _ _ _ _ (span_leaf_run s1 b Hs1 Hd)). set (leaf := meta_blocks g + _).
  assert (0 <= leaf) as Hleaf by (unfold leaf; pose proof (pm_count g (rg_pm g rg)); lia).
  destruct ((match staged_at (s_txn s) b with Some _ => mret true | None => merkle_verify_leaf store_io leaf (raw s b) end) s1) as [ok s2] eqn:E2.
  rewrite (bind_run _ _ _ _ _ E2). assert (vol g s2 /\ kept g s s2) as [Hs2 Hk2].
  { destruct (staged_at (s_txn s) b); [by injection E2 as <- <-|].
    destruct (calm_kept g rg _ _ _ _ _ _ Hs1 (merkle_verify_leaf_calm g (rg_pm g rg) 0 leaf (raw s b) Hleaf) (verify_leaf_stages g rg leaf (raw s b) Hleaf) E2) as (? & ? & _).
    split; [done|by etransitivity]. }
  destruct ok; cbn [negb]; [|intros (? & ? & ->)%span_refused_run; [split_and!; [done|by etransitivity|done]|done]].
  destruct (span_open store_io b (raw s b) s2) as [[ok pt] s3] eqn:E3. rewrite (bind_run _ _ _ _ _ E3).
  apply span_open_run in E3 as (Hs3 & Hk3 & Hpt & HU); [|done|done|done]. cbn [fst snd]. assert (kept g s s3) as Hk by by etransitivity.
  destruct ok; cbn [negb]; [|intros (? & ? & ->)%span_refused_run; [split_and!; [done|by etransitivity|done]|done]].
  intros [= <- <-]. split_and!; [done|done|]. intros w [= <-]. split; [|done]. specialize (HU eq_refl).
  rewrite (kept_entry s s2), (unseal_vol s s2) in HU by (done || apply Hk2). done.
Qed.
(** ** Writing *)
Lemma user_visible b k : user g b -> 0 <= k < g.(meta_blocks) -> g.(meta_start) + k <> b.
Proof. intros Hb Hk E. destruct (rg_meta g rg k Hk) as [_ H]. by rewrite E in H. Qed.
Lemma touch_others b s s' :
  vol g s -> user g b -> touches (eq b) s s' -> open_txn g s' -> ram_ok g s' -> vol g s' /\ others b s s' /\ entry g s' b = entry g s b.
Proof.
  intros Hs Hb Ht Ho Hr. destruct (touch_vol g rg (eq b) s s' Hs Ht) as [Hs' Hi]; [|done|done|].
  { intros k Hk E. by apply (user_visible b k). }
  destruct Ht as [Hv Hraw _ Hh]. assert (forall x, user g x -> entry g s' x = entry g s x) as He.
  { intros x Hx. unfold entry. by rewrite Hi by by apply user_blk. }
  split; [done|]. split; [|by apply He]. split; [done| |auto|done]. intros x _ Hne. apply Hraw. congruence.
Qed.
Lemma write_ram b w s r s' : home g b -> sized w -> ram_ok g s -> s.(s_txn).(t_active) = true -> do_block_write b w s = (r, s') -> ram_ok g s'.
Proof.
  intros Hb Hw Hr Ha E. destruct (io_at_stages g True 1 (rg_wf g rg)) as [H1 H2].
  destruct (do_block_write_stages g True (rg_wf g rg) store_io H1 H2 b w Hb Hw s Hr Ha) as (? & _). unfold do_block_write in E. by rewrite E in *.
Qed.
Lemma write_plain_run b w s r s' :
  vol g s -> user g b -> pm_leaf_of g b = None -> sized w -> do_block_write b w s = (r, s') ->
  vol g s' /\ others b s s' /\ entry g s' b = entry g s b
  /\ (if r then raw s' b = w else kept g s s' /\ s'.(s_txn).(t_overflow) = true).
Proof.
  intros Hs Hb Hd Hsz E. pose proof (write_ram b w s r s' (rg_home g rg b Hb) Hsz (vo_ram _ _ Hs) (ot_active _ _ (vo_open _ _ Hs)) E) as Hr.
  apply (plain_write_open g) in E as (Ho & Ht & H1 & H2 & _); [|apply Hs|done].
  destruct (touch_others b s s' Hs Hb Ht Ho Hr) as (? & ? & ?). split_and!; [done|done|done|]. destruct r; [by apply H1|].
  destruct (H2 eq_refl) as [Hno ?]. split; [|done]. apply (touch_kept g rg s s' Hs); [|done|done]. by eapply touches_weaken; [|exact Hno].
Qed.
Lemma write_data_run b w s r s' :
  vol g s -> user g b -> g.(data_start) <= b -> sized w -> do_block_write b w s = (r, s') ->
  vol g s' /\ others b s s' /\ entry g s' b = entry g s b
  /\ (if r then raw s' b = w else kept g s s' /\ s'.(s_txn).(t_overflow) = true).
Proof. intros Hs Hu Hb. apply write_plain_run; [done|done|by apply pm_leaf_data]. Qed.
(** The slot of a staged block is filled with the sealed image. *)
Lemma fill_slot b i w0 ct s :
  vol g s -> user g b -> sized ct -> s.(s_txn).(t_staged) !! i = Some (b, w0) ->
  let s' := set_txn (mk_txn s.(s_txn).(t_active) s.(s_txn).(t_overflow) (<[i := (b, ct)]> s.(s_txn).(t_staged))) s in
  vol g s' /\ others b s s' /\ entry g s' b = entry g s b /\ raw s' b = ct.
Proof.
  intros Hs Hb Hsz Hi s'. pose proof Hs as [[[] Ha Ho Hn] [? ? [Hl HF] ? ? ?] _ _ _].
  destruct (staged_at_insert s.(s_txn) i b w0 ct b s.(s_txn).(t_active) s.(s_txn).(t_overflow) Hn Hi) as [Eb Ef].
  assert (touches (eq b) s s') as Ht.
  { split; [split; [by split_and!|..|by cbn; rewrite Ef]; done| |done|done]. intros x Hx. unfold s'.
    rewrite raw_set_txn, (proj1 (staged_at_insert s.(s_txn) i b w0 ct x _ _ Hn Hi)). by destruct (Z.eqb_spec b x). }
  destruct (touch_others b s s' Hs Hb Ht) as (? & ? & ?).
  - split; [by split|done|done|cbn; by rewrite Ef].
  - split; try done. split; [cbn; unfold zlen in *; by rewrite length_insert|]. cbn. apply Forall_insert; [done|]. split; [by apply (rg_home g rg)|done].
  - split_and!; [done|done|done|]. unfold s'. by rewrite raw_set_txn, Eb, Z.eqb_refl.
Qed.
Lemma overflow_kept s : vol g s -> exists s', set_overflow s = (tt, s') /\ vol g s' /\ kept g s s' /\ s'.(s_txn).(t_overflow) = true.
Proof.
  intros Hs. eexists. split; [done|]. set (s' := set_txn _ s). assert (touches (hidden g) s s') as Ht by (split; [split; [by split_and!|..]; done|done|done|done]).
  destruct (touch_kept g rg s s' Hs Ht) as [? ?]; [|destruct Hs as [_ [] _ _ _]; by split|by split_and!].
  destruct Hs as [[[] ? ? ?] _ _ _ _]. by split.
Qed.
Lemma stage_run b w s r s' :
  vol g s -> user g b -> sized w -> stage_slot b w s = (r, s') ->
  vol g s' /\ others b s s' /\ (forall i, r = Some i -> exists w0, s'.(s_txn).(t_staged) !! i = Some (b, w0)) /\ (r = None -> s'.(s_txn).(t_overflow) = true).
Proof.
  intros Hs Hb Hw E. pose proof Hs as [[[Hg Hk Hm] Ha Ho Hn] Hr _ _ _].
  destruct (stage_slot_stages g True b w (rg_home g rg b Hb) Hw s Hr Ha) as (Hr' & Ha' & _). rewrite E in *. cbn [fst snd] in *.
  apply stage_slot_run in E as (Ht & Hn' & Hm' & Hk' & HS & HN); [|done]. pose proof Ht as [[_ Hd _ _ _ _] _ Hc _].
  destruct (touch_others b s s' Hs Hb Ht) as (? & ? & _); [|done|].
  - split; [split; by rewrite ?Hm', ?Hk', ?Hc|done|by rewrite Hd|done].
  - split_and!; [done|done| |by intros [? _]%HN]. intros i Hi. exists w. by apply HS.
Qed.
Lemma prefix_slot s s' i b w0 : same_vol s s' -> s.(s_txn).(t_staged) !! i = Some (b, w0) -> exists w1, s'.(s_txn).(t_staged) !! i = Some (b, w1).
Proof.
  intros [_ _ _ _ _ Hp] Hi. assert (s.(s_txn).(t_staged).*1 !! i = Some b) as H by (by rewrite list_lookup_fmap, Hi).
  apply (prefix_lookup_Some _ _ _ _ H) in Hp. rewrite list_lookup_fmap in Hp. destruct (t_staged (s_txn s') !! i) as [[b' w1]|]; [|done].
  injection Hp as ->. by exists w1.
Qed.
Lemma seal_staged_run b leaf buf s r s' :
  vol g s -> user g b -> sized buf -> 0 <= leaf -> seal_staged store_io b leaf buf s = (r, s') ->
  vol g s' /\ others b s s' /\ (r = true -> unseal s.(s_mfs) SPAN_INO b (entry g s' b) (raw s' b) = Some buf /\ zget 0 (entry g s' b) 28 = 1).
Proof.
  intros Hs Hb Hsz Hleaf. unfold seal_staged. destruct (stage_slot b buf s) as [r1 s1] eqn:E1. rewrite (bind_run _ _ _ _ _ E1).
  apply stage_run in E1 as (Hs1 & Ho1 & HS & _); [|done|done|done]. destruct r1 as [i|]; [|intros [= <- <-]; by split_and!].
  destruct (HS i eq_refl) as [w0 Hi]. destruct (storage_encrypt_block store_io b SPAN_INO b buf s1) as [[ok ct] s2] eqn:E2. rewrite (bind_run _ _ _ _ _ E2).
  apply encrypt_run in E2 as (Hs2 & Ho2 & _ & Hct & HU); [|done|done|done]. destruct (prefix_slot s1 s2 i b w0 (ob_vol _ _ _ Ho2) Hi) as [w1 Hi2].
  destruct (fill_slot b i w1 ct s2 Hs2 Hb Hct Hi2) as (Hs3 & Ho3 & He3 & Hr3). cbn [fst snd].
  set (s3 := set_txn _ s2) in *. rewrite (bind_run _ _ s2 tt s3) by done.
  pose proof (others_trans b s s1 s3 Ho1 (others_trans b s1 s2 s3 Ho2 Ho3)) as Ho. destruct ok; cbn [negb]; [|intros [= <- <-]; by split_and!].
  intros E4. destruct (calm_kept g rg _ _ _ _ _ _ Hs3 (merkle_update_leaf_calm g (rg_pm g rg) 0 leaf ct Hleaf) (update_leaf_stages g rg leaf ct Hleaf) E4) as (Hs4 & Hk4 & _).
  split; [done|]. split; [by apply (others_trans b s s3); [|apply kept_others]|]. intros _. destruct HU as [HU Hp].
  rewrite (kept_entry s3 s'), He3, (kept_raw s3 s'), Hr3 by done. rewrite <- (unseal_vol s s1) by apply Ho1. done.
Qed.
Lemma write_span_run b w s r s' :
  vol g s -> user g b -> g.(inode_bitmap_start) <= b < g.(data_start) -> sized w -> do_block_write b w s = (r, s') ->
  vol g s' /\ others b s s' /\ (if r then span_plain g s' b = Some w else s'.(s_txn).(t_overflow) = true).
Proof.
  intros Hs Hb Hd Hsz. unfold do_block_write, do_block_write_with. pose proof Hs as [[_ Ha Ho _] _ _ _ _].
  rewrite (bind_run _ _ _ _ _ (open_permitted s Ho)). cbn [negb].
  rewrite (bind_run _ _ _ _ _ (span_leaf_run s b Hs Hd)). rewrite (bind_run _ _ s s.(s_txn) s) by done. rewrite Ha. cbn [negb].
  rewrite (bind_run _ _ s tt s) by done. set (leaf := meta_blocks g + _). assert (0 <= leaf) as Hleaf by (unfold leaf; pose proof (pm_count g (rg_pm g rg)); lia).
  destruct (seal_staged store_io b leaf w s) as [ok s1] eqn:E1. rewrite (bind_run _ _ _ _ _ E1).
  apply seal_staged_run in E1 as (Hs1 & Ho1 & HU); [|done|done|done|done]. destruct ok; cbn [negb].
  - intros [= <- <-]. split_and!; [done|done|]. destruct (HU eq_refl) as [HU1 HU2]. unfold span_plain, plain. rewrite HU2. cbn [Z.eqb].
    by rewrite (unseal_vol s s1) by apply Ho1.
  - destruct (overflow_kept s1 Hs1) as (s2 & E2 & ? & ? & ?). rewrite (bind_run _ _ _ _ _ E2). intros [= <- <-].
    split_and!; [done|by apply (others_trans b s s1); [|apply kept_others]|done].
Qed.
End cells.
