(* ===== verification/Alloc.v ===== *)
(** The block allocator in an open transaction (storage.c): the bits of the bitmap,
    which data blocks they mark as used, and what reserving one changes.  A reserved
    block was free and is the only one whose bit changes; the allocator refuses only
    when the bitmap cannot be read or written, or every data block is in use. *)
From S2P Require Import Prelude Sha256 Aead Disk Super Store Journal Tree Staging Knot Merkle Format Files View Cells.

(** ** Bits *)
Lemma bitmap_test_bit bm i : bitmap_test bm i = Z.testbit (zget 0 bm (i / 8)) (i mod 8).
Proof.
  unfold bitmap_test. pose proof (Z.mod_pos_bound i 8 ltac:(lia)). set (x := zget 0 bm (i / 8)). set (k := i mod 8) in *.
  destruct (Z.testbit x k) eqn:E.
  - apply negb_true_iff, Z.eqb_neq. intros H0. apply (f_equal (fun z => Z.testbit z k)) in H0.
    rewrite Z.land_spec, E, Z.shiftl_spec, Z.sub_diag, Z.testbit_0_l in H0 by lia. done.
  - apply negb_false_iff, Z.eqb_eq. apply Z.bits_inj'. intros n Hn. rewrite Z.land_spec, Z.testbit_0_l, Z.shiftl_spec by lia.
    destruct (decide (n = k)) as [->|]; [by rewrite E|]. destruct (Z.ltb_spec n k); [rewrite (Z.testbit_neg_r 1) by lia; apply andb_false_r|].
    change 1 with (2 ^ 0). rewrite Z.pow2_bits_false by lia. apply andb_false_r.
Qed.
Lemma byte_bit x k : 0 <= k < 8 -> Z.testbit (Z.land x 0xFF) k = Z.testbit x k.
Proof. intros H. rewrite Z.land_spec. change 0xFF with (Z.ones 8). rewrite Z.ones_spec_low by lia. apply andb_true_r. Qed.
Lemma pow_bit k n : 0 <= k -> 0 <= n -> Z.testbit (Z.shiftl 1 k) n = bool_decide (k = n).
Proof.
  intros Hk Hn. rewrite Z.shiftl_1_l. case_bool_decide as H; [subst; by apply Z.pow2_bits_true|by apply Z.pow2_bits_false].
Qed.
Lemma bit_split i j : 0 <= i -> 0 <= j -> i / 8 = j / 8 -> i mod 8 = j mod 8 -> i = j.
Proof. intros. rewrite (Z.div_mod i 8), (Z.div_mod j 8) by lia. lia. Qed.
Lemma bitmap_test_set bm i j :
  0 <= i < 8 * zlen bm -> 0 <= j -> bitmap_test (bitmap_set bm i) j = bool_decide (i = j) || bitmap_test bm j.
Proof.
  intros Hi Hj. rewrite !bitmap_test_bit. unfold bitmap_set. pose proof (Z.mod_pos_bound i 8 ltac:(lia)). pose proof (Z.mod_pos_bound j 8 ltac:(lia)).
  destruct (decide (i / 8 = j / 8)) as [E|E].
  - rewrite <- E, zget_zset_eq by (split; [apply Z.div_pos; lia|apply Z.div_lt_upper_bound; lia]). rewrite byte_bit, Z.lor_spec, pow_bit by lia.
    rewrite orb_comm. f_equal. apply bool_decide_ext. split; [intros; apply bit_split; (done || lia)|by intros ->].
  - rewrite zget_zset_ne by done. rewrite (bool_decide_eq_false_2 (i = j)); [done|by intros ->].
Qed.
Lemma bitmap_test_clear bm i j :
  0 <= i < 8 * zlen bm -> 0 <= j -> bitmap_test (bitmap_clear bm i) j = negb (bool_decide (i = j)) && bitmap_test bm j.
Proof.
  intros Hi Hj. rewrite !bitmap_test_bit. unfold bitmap_clear. pose proof (Z.mod_pos_bound i 8 ltac:(lia)). pose proof (Z.mod_pos_bound j 8 ltac:(lia)).
  destruct (decide (i / 8 = j / 8)) as [E|E].
  - rewrite <- E, zget_zset_eq by (split; [apply Z.div_pos; lia|apply Z.div_lt_upper_bound; lia]). rewrite byte_bit, Z.land_spec, Z.lnot_spec, pow_bit by lia.
    rewrite andb_comm. f_equal. f_equal. apply bool_decide_ext. split; [intros; apply bit_split; (done || lia)|by intros ->].
  - rewrite zget_zset_ne by done. rewrite (bool_decide_eq_false_2 (i = j)); [done|by intros ->].
Qed.
Lemma find_free_spec bm n i :
  bitmap_find_free bm n = Some i -> 0 <= i < n /\ bitmap_test bm i = false.
Proof.
  unfold bitmap_find_free. intros (Hi & Ht%negb_true_iff & _)%find_index_Some. split; [lia|done].
Qed.
Lemma find_free_full bm n : bitmap_find_free bm n = None -> forall i, 0 <= i < n -> bitmap_test bm i = true.
Proof. unfold bitmap_find_free. intros H i Hi. apply negb_false_iff. apply (find_index_None _ _ _ H). lia. Qed.

(** ** Geometry *)
(** The layout of a volume that fits a device. *)
Record fits (g : geometry) : Prop := {
  fi_layout : layout_ok g;
  fi_small : g.(total_blocks) <= BLOCKS_PER_DISK;
  fi_meta : 0 <= g.(meta_blocks) <= BLOCKS_PER_DISK
}.
Section alloc.
Context (g : geometry) (fit : fits g).
#[local] Abbreviation lay := (fi_layout g fit).
Lemma lay_regions : regions g.
Proof.
  pose proof (fi_small g fit) as small. pose proof (fi_meta g fit) as meta_pos. destruct (layout_wf g lay) as (Hwf & Hpm & _); [lia|]. pose proof lay as [H1 [H2 H3] [H4 H5] [H6 H7] [H8 H9] H10 H11 H12 H13 [H14 H15] [[H16 H16'] H16''] H17 H18 [H19 H20]].
  change JOURNAL_BLOCKS with 25 in *. change KEYSLOT_BLOCKS with 2 in *. change USERS_BLOCKS with 16 in *. change BITS_PER_BLOCK with 32768 in *.
  assert (forall l i, tree_node g l i -> g.(merkle_start) <= merkle_level_base g l + i < g.(merkle_start) + g.(merkle_blocks)) as Hn by (intros l i; by apply node_block).
  assert (0 <= g.(inode_count) / INODES_PER_BLOCK) by (apply Z.div_pos; [lia|done]).
  split; try done; try lia.
  - intros k Hk. unfold user, accounts. split; [|lia]. intros [?|(l & i & Hl & ?)]; [lia|]. specialize (Hn l i Hl). lia.
  - unfold user, accounts. intros b [->|(l & i & Hl & ->)]; [lia|]. specialize (Hn l i Hl). lia.
  - unfold accounts. intros b Hb. lia.
  - unfold user, accounts. intros b Hb. unfold home, in_journal. lia.
Qed.
#[local] Abbreviation rg := lay_regions.
Definition is_data (p : Z) : Prop := g.(data_start) <= p < g.(total_blocks).
(** The bitmap block and the bit of a data block. *)
Definition bm_of (p : Z) : Z := g.(block_bitmap_start) + (p - g.(data_start)) / BITS_PER_BITMAP_BLOCK.
Definition bit_of (p : Z) : Z := (p - g.(data_start)) mod BITS_PER_BITMAP_BLOCK.
Lemma lay_facts :
  0 <= g.(inode_bitmap_start) /\ g.(inode_bitmap_start) < g.(block_bitmap_start) < g.(inode_table_start) /\ g.(inode_table_start) < g.(data_start)
  /\ g.(data_start) + g.(block_count) = g.(total_blocks) /\ 0 < g.(block_count) <= (g.(inode_table_start) - g.(block_bitmap_start)) * BITS_PER_BITMAP_BLOCK
  /\ g.(data_start) = g.(inode_table_start) + g.(inode_count) / 16 /\ 16 <= g.(inode_count) /\ g.(inode_count) mod 16 = 0.
Proof.
  pose proof (fi_small g fit) as small. pose proof (fi_meta g fit) as meta_pos. destruct (fi_layout g fit) as [H1 [H2 H3] [H4 H5] [H6 H7] [H8 H9] H10 H11 H12 H13 [H14 H15] [[H16 H16'] H16''] H17 H18 [H19 H20]].
  change JOURNAL_BLOCKS with 25 in *. change KEYSLOT_BLOCKS with 2 in *. change USERS_BLOCKS with 16 in *. change BITS_PER_BLOCK with 32768 in *.
  change BITS_PER_BITMAP_BLOCK with 32768. change INODES_PER_BLOCK with 16 in *. assert (1 <= g.(inode_count) / 16) by (apply Z.div_le_lower_bound; lia).
  repeat split; try lia.
Qed.
Lemma data_user p : is_data p -> user g p.
Proof. intros [H1 H2]. pose proof lay_facts. unfold user. lia. Qed.
Lemma bm_of_span p : is_data p -> user g (bm_of p) /\ bm_of p < g.(inode_table_start) /\ g.(block_bitmap_start) <= bm_of p.
Proof.
  intros [H1 H2]. destruct lay_facts as (F1 & F2 & F3 & F4 & F5 & _). unfold user, bm_of. change BITS_PER_BITMAP_BLOCK with 32768 in *.
  assert (0 <= (p - g.(data_start)) / 32768) by (apply Z.div_pos; lia).
  assert ((p - g.(data_start)) / 32768 < g.(inode_table_start) - g.(block_bitmap_start)) by (apply Z.div_lt_upper_bound; lia). lia.
Qed.
Lemma same_bit p q : is_data p -> is_data q -> bm_of p = bm_of q -> bit_of p = bit_of q -> p = q.
Proof.
  unfold bm_of, bit_of. intros Hp Hq H1 H2. enough (p - g.(data_start) = q - g.(data_start)) by lia.
  rewrite (Z.div_mod (p - g.(data_start)) BITS_PER_BITMAP_BLOCK), (Z.div_mod (q - g.(data_start)) BITS_PER_BITMAP_BLOCK) by done. lia.
Qed.
(** ** What the bitmap says *)
Definition used (s : store) (p : Z) : Prop := exists bm, span_plain g s (bm_of p) = Some bm /\ bitmap_test bm (bit_of p) = true.
(** Only cells in [X] changed. *)
Record chg (X : Z -> Prop) (s s' : store) : Prop := {
  ch_vol : same_vol s s';
  ch_cell : forall x, user g x -> ~ X x -> raw s' x = raw s x /\ entry g s' x = entry g s x
}.
Lemma chg_refl X s : chg X s s.
Proof. by split. Qed.
Lemma chg_trans X s1 s2 s3 : chg X s1 s2 -> chg X s2 s3 -> chg X s1 s3.
Proof. intros [? H1] [? H2]. split; [by etransitivity|]. intros x Hx Hn. destruct (H1 x Hx Hn), (H2 x Hx Hn). split; congruence. Qed.
Lemma chg_weaken (X Y : Z -> Prop) s s' : (forall x, X x -> Y x) -> chg X s s' -> chg Y s s'.
Proof. intros H [? H1]. split; [done|]. intros x Hx Hn. apply H1; auto. Qed.
Lemma kept_chg X s s' : kept g s s' -> chg X s s'.
Proof. intros H. split; [apply H|]. intros x Hx _. split; [by apply (kept_raw g s)|by apply (kept_entry g rg s)]. Qed.
Lemma others_chg b s s' : others g b s s' -> chg (eq b) s s'.
Proof. intros [H1 H2 H3 _]. split; [done|]. intros x Hx Hn. split; [apply H2|apply H3]; congruence. Qed.
(** The same, whatever became of the transaction. *)
Record cells (X : Z -> Prop) (s s' : store) : Prop := {
  ce_keys : s'.(s_mfs).(volume_key) = s.(s_mfs).(volume_key) /\ s'.(s_mfs).(disk_key) = s.(s_mfs).(disk_key);
  ce_cell : forall x, user g x -> ~ X x -> raw s' x = raw s x /\ entry g s' x = entry g s x
}.
Lemma chg_cells X s s' : chg X s s' -> cells X s s'.
Proof. intros [[(_ & _ & _ & E1 & E2 & _) _ _ _ _ _] Hc]. by split. Qed.
Lemma cells_refl X s : cells X s s.
Proof. by split. Qed.
Lemma cells_trans X s1 s2 s3 : cells X s1 s2 -> cells X s2 s3 -> cells X s1 s3.
Proof. intros [[K1 K2] H1] [[L1 L2] H2]. split; [split; congruence|]. intros x Hx Hn. destruct (H1 x Hx Hn), (H2 x Hx Hn). split; congruence. Qed.
Lemma cells_weaken (X Y : Z -> Prop) s s' : (forall x, X x -> Y x) -> cells X s s' -> cells Y s s'.
Proof. intros HX [? H]. split; [done|]. intros x Hx Hn. apply H; auto. Qed.
Lemma cells_plain X s s' ino b x : cells X s s' -> user g x -> ~ X x -> plain g s' ino b x = plain g s ino b x.
Proof. intros [[K1 K2] Hc] Hx HX. destruct (Hc x Hx HX) as [E1 E2]. unfold plain, unseal, block_keys. by rewrite E1, E2, K1, K2. Qed.
Lemma cells_span X s s' x : cells X s s' -> user g x -> ~ X x -> span_plain g s' x = span_plain g s x.
Proof. intros H Hx HX. unfold span_plain. destruct (ce_cell _ _ _ H x Hx HX) as [-> ->]. by rewrite (cells_plain X s s'). Qed.
Lemma used_cells X s s' p : cells X s s' -> is_data p -> ~ X (bm_of p) -> used s' p <-> used s p.
Proof. intros Hc Hp HX. unfold used. by rewrite (cells_span X s s') by (done || apply (bm_of_span p Hp)). Qed.
Lemma chg_span X s s' x : chg X s s' -> user g x -> ~ X x -> span_plain g s' x = span_plain g s x.
Proof. intros H%chg_cells. by apply cells_span. Qed.
Lemma chg_plain X s s' ino b x : chg X s s' -> user g x -> ~ X x -> plain g s' ino b x = plain g s ino b x.
Proof. intros H%chg_cells. by apply cells_plain. Qed.
Lemma used_vol X s s' p : chg X s s' -> is_data p -> ~ X (bm_of p) -> used s' p <-> used s p.
Proof. intros H%chg_cells. by apply used_cells. Qed.

(** ** Operations and their lock *)
Lemma depth_vol n s : vol g s -> 0 < n -> vol g (set_depth n s).
Proof. intros [[[] ? ? ?] [] [] ? ?] Hn. split; [by split|by split|by split|done|done]. Qed.
Lemma op_run {A} (m : SM A) s r s' :
  vol g s -> STORAGE_OP m s = (r, s') ->
  exists s1, m (set_depth (s.(op_depth) + 1) s) = (r, s1) /\ s' = set_depth (s1.(op_depth) - 1) s1 /\ vol g (set_depth (s.(op_depth) + 1) s)
    /\ forall X, vol g s1 -> chg X (set_depth (s.(op_depth) + 1) s) s1 -> vol g s' /\ chg X s s'.
Proof.
  intros Hs. unfold STORAGE_OP. pose proof (ot_depth _ _ (vo_open _ _ Hs)) as Hd. set (s0 := set_depth (op_depth s + 1) s).
  rewrite (bind_run _ _ s tt s0) by done. destruct (m s0) as [r1 s1] eqn:E. rewrite (bind_run _ _ _ _ _ E).
  rewrite (bind_run _ _ s1 tt (set_depth (op_depth s1 - 1) s1)) by done. intros [= <- <-]. exists s1. split; [done|]. split; [done|].
  split; [apply depth_vol; [done|lia]|]. intros X Hs1 [Hv Hc]. assert (op_depth s1 = op_depth s + 1) as Hd1 by apply Hv.
  split; [apply depth_vol; [done|lia]|]. split; [|exact Hc]. destruct Hv. split; try done. cbn. lia.
Qed.
Lemma geo_run s : vol g s -> geo_of s = (g, s).
Proof. intros [_ [Hg _ _ _ _ _] _ _ _]. unfold geo_of, gets. by rewrite Hg. Qed.
Lemma u64_small b : 0 <= b < g.(total_blocks) -> u64 b = b.
Proof. intros Hb. pose proof (fi_small g fit) as small. rewrite u64_mod. apply Z.mod_small. unfold BLOCKS_PER_DISK in *. lia. Qed.
Lemma read_bitmap_run k s r s' :
  vol g s -> 0 <= k < g.(inode_table_start) - g.(block_bitmap_start) -> read_block_bitmap_n k s = (r, s') ->
  vol g s' /\ kept g s s' /\ forall bm, r = Some bm -> span_plain g s (g.(block_bitmap_start) + k) = Some bm /\ sized bm.
Proof.
  intros Hs Hk. destruct lay_facts as (F1 & F2 & F3 & F4 & F5 & _). unfold read_block_bitmap_n.
  match goal with |- mbind _ (count ?f) s = _ -> _ => destruct (count_kept g f s Hs) as (s1 & E & Hs1 & Hk1 & _) end. rewrite (bind_run _ _ _ _ _ E).
  rewrite (bind_run _ _ _ _ _ (geo_run s1 Hs1)), u64_small by lia. intros E2. apply (read_span_run g rg) in E2 as (Hs2 & Hk2 & HR); [|done|unfold user; lia|lia].
  split_and!; [done|by etransitivity|]. intros bm Hbm. rewrite <- (chg_span (fun _ => False) s s1); [by apply HR|by apply kept_chg|unfold user; lia|by intros []].
Qed.
Lemma write_bitmap_run k bm s r s' :
  vol g s -> 0 <= k < g.(inode_table_start) - g.(block_bitmap_start) -> sized bm -> write_block_bitmap_n k bm s = (r, s') ->
  vol g s' /\ others g (g.(block_bitmap_start) + k) s s'
  /\ (if r then span_plain g s' (g.(block_bitmap_start) + k) = Some bm else s'.(s_txn).(t_overflow) = true).
Proof.
  intros Hs Hk Hsz. destruct lay_facts as (F1 & F2 & F3 & F4 & F5 & _). unfold write_block_bitmap_n.
  rewrite (bind_run _ _ _ _ _ (geo_run s Hs)), u64_small by lia. apply (write_span_run g rg); [done|unfold user; lia|lia|done].
Qed.
Lemma set_sized bm i : sized bm -> sized (bitmap_set bm i).
Proof. unfold sized, bitmap_set, zset. intros H. destruct (_ <? 0); [done|]. by rewrite length_insert. Qed.
Lemma clear_sized bm i : sized bm -> sized (bitmap_clear bm i).
Proof. unfold sized, bitmap_clear, zset. intros H. destruct (_ <? 0); [done|]. by rewrite length_insert. Qed.
(** *** Allocation *)
#[local] Abbreviation nbm := ((g.(block_count) + 32767) / 32768).
Lemma nbm_bound : 0 < nbm <= g.(inode_table_start) - g.(block_bitmap_start) /\ g.(block_count) <= nbm * 32768.
Proof.
  destruct lay_facts as (F1 & F2 & F3 & F4 & F5 & _). change BITS_PER_BITMAP_BLOCK with 32768 in *. split; [split|].
  - apply Z.div_str_pos. lia.
  - assert (nbm < g.(inode_table_start) - g.(block_bitmap_start) + 1); [|lia]. apply Z.div_lt_upper_bound; lia.
  - Z.to_euclidean_division_equations. lia.
Qed.
(** What an allocation returns and changes. *)
Definition allocated (s s' : store) (p : Z) : Prop :=
  is_data p /\ chg (eq (bm_of p)) s s'
  /\ exists bm, span_plain g s (bm_of p) = Some bm /\ sized bm /\ bitmap_test bm (bit_of p) = false /\ span_plain g s' (bm_of p) = Some (bitmap_set bm (bit_of p)).
Lemma bm_bit k bit : 0 <= k -> 0 <= bit < 32768 -> bm_of (g.(data_start) + k * 32768 + bit) = g.(block_bitmap_start) + k /\ bit_of (g.(data_start) + k * 32768 + bit) = bit.
Proof.
  intros Hk Hb. unfold bm_of, bit_of. change BITS_PER_BITMAP_BLOCK with 32768. replace (_ + k * 32768 + bit - _) with (bit + k * 32768) by lia.
  rewrite Z.div_add, Z.mod_add, Z.div_small, Z.mod_small by lia. split; lia.
Qed.
Lemma allocated_kept s s1 s' p : kept g s s1 -> allocated s1 s' p -> allocated s s' p.
Proof.
  intros Hk (Hp & Hc & bm & H1 & H2). split; [done|]. pose proof (kept_chg (fun _ => False) s s1 Hk) as Hc1. split; [by eapply chg_trans, Hc; apply kept_chg|].
  exists bm. split; [|done]. rewrite <- (chg_span _ s s1 _ Hc1); [done|by apply bm_of_span|by intros []].
Qed.
(** Every data block of bitmap block [k] is in use. *)
Definition full (s : store) (k : Z) : Prop := forall p, is_data p -> bm_of p = g.(block_bitmap_start) + k -> used s p.
(** The [j]-th block of the bitmap in a scan from [start], and the state after reading blocks of it in turn. *)
Definition scan_at (start j : Z) : Z := if nbm <=? start + j then start + j - nbm else start + j.
Fixpoint scanned (ks : list Z) (s : store) : store :=
  match ks with [] => s | k :: ks => scanned ks (read_block_bitmap_n k s).2 end.
(** A scan from [start], at its [i]-th block in state [s], comes to a block it cannot read: the
    blocks before it are full and were read. *)
Definition scan_refused (start i : Z) (s : store) : Prop :=
  exists j, i <= j < nbm /\ (forall j', i <= j' < j -> full s (scan_at start j'))
    /\ (read_block_bitmap_n (scan_at start j) (scanned (scan_at start <$> seqZ i (j - i)) s)).1 = None.
(** Where the allocator starts, and that its scan comes to a block it cannot read. *)
Definition scan_start (s : store) : Z := if s.(g_alloc_hint) <? nbm then s.(g_alloc_hint) else 0.
Definition refused (s : store) : Prop := scan_refused (scan_start s) 0 (set_depth (s.(op_depth) + 1) s).
Lemma full_kept s s1 k : kept g s s1 -> full s1 k -> full s k.
Proof. intros Hk H p Hp Eb. apply (used_vol (fun _ => False) s s1); [by apply kept_chg|done|by intros []|by apply H]. Qed.
(** The blocks of the bitmap. *)
Definition bitmaps (x : Z) : Prop := g.(block_bitmap_start) <= x < g.(inode_table_start).
Lemma bm_of_bitmaps p : is_data p -> bitmaps (bm_of p).
Proof. intros Hp. by destruct (bm_of_span p Hp) as (? & ? & ?). Qed.
Lemma scan_refused_here start i s : 0 <= i < nbm -> (read_block_bitmap_n (scan_at start i) s).1 = None -> scan_refused start i s.
Proof. intros Hi H. exists i. split; [lia|]. split; [intros ? ?; lia|]. by rewrite Z.sub_diag. Qed.
Lemma scan_refused_next start i s s1 bitmap :
  0 <= i -> read_block_bitmap_n (scan_at start i) s = (Some bitmap, s1) -> kept g s s1 -> full s (scan_at start i) ->
  scan_refused start (i + 1) s1 -> scan_refused start i s.
Proof.
  intros Hi E Hk Hf (j & Hj & Hfull & HN). exists j. split; [lia|]. split.
  - intros j' Hj'. destruct (decide (j' = i)) as [->|]; [done|]. apply (full_kept s s1); [done|]. apply Hfull. lia.
  - rewrite (seqZ_cons i) by lia. cbn [fmap list_fmap scanned]. rewrite E. cbn [snd].
    by replace (Z.pred (j - i)) with (j - (i + 1)) by lia.
Qed.
Lemma alloc_scan_run start n i s r s' :
  vol g s -> 0 <= start < nbm -> 0 <= i -> i + Z.of_nat n = nbm -> alloc_scan nbm start n i s = (r, s') ->
  vol g s' /\ chg bitmaps s s' /\ match r with
    | Some p => allocated s s' p
    | None => s'.(s_txn).(t_overflow) = true
        \/ kept g s s' /\ (scan_refused start i s \/ forall j, i <= j < nbm -> full s (scan_at start j))
    end.
Proof.
  intros Hs Hst Hi Hn. destruct nbm_bound as [Hnb Hcov]. revert i s Hs Hi Hn. induction n as [|n IH]; intros i s Hs Hi Hn.
  { intros [= <- <-]. split; [done|]. split; [apply chg_refl|]. right. split; [done|]. right. intros j Hj. lia. }
  cbn [alloc_scan]. rewrite (bind_run _ _ _ _ _ (geo_run s Hs)). cbv zeta. fold (scan_at start i). set (bm := scan_at start i).
  assert (0 <= bm < nbm) as Hbm by (unfold bm, scan_at; destruct (Z.leb_spec nbm (start + i)); lia). change BITS_PER_BITMAP_BLOCK with 32768.
  destruct (read_block_bitmap_n bm s) as [r1 s1] eqn:E1. rewrite (bind_run _ _ _ _ _ E1). pose proof E1 as E1'.
  apply read_bitmap_run in E1 as (Hs1 & Hk1 & HR); [|done|lia].
  destruct r1 as [bitmap|]; [|intros [= <- <-]; split; [done|]; split; [by apply kept_chg|]; right; split; [done|]; left; apply scan_refused_here; [lia|by fold bm; rewrite E1']].
  destruct (HR _ eq_refl) as [Hsp Hsz]. assert (zlen bitmap = 4096) as Hlen by (unfold zlen; rewrite Hsz; done).
  destruct (bitmap_find_free _ _) as [bit|] eqn:Ef.
  - apply find_free_spec in Ef as [Hbit Hfree]. destruct (write_block_bitmap_n bm (bitmap_set bitmap bit) s1) as [ok s2] eqn:E2. rewrite (bind_run _ _ _ _ _ E2).
    apply write_bitmap_run in E2 as (Hs2 & Ho2 & HW); [|done|lia|by apply set_sized]. pose proof (others_chg _ _ _ Ho2) as Hc2.
    assert (chg bitmaps s s2) as Hc by (eapply chg_trans; [by apply kept_chg|eapply chg_weaken; [|exact Hc2]; intros x <-; unfold bitmaps; lia]).
    destruct ok; cbn [negb]; [|intros [= <- <-]; split; [done|]; split; [done|]; by left].
    rewrite (bind_run _ _ s2 tt (set_hint bm s2)) by done. intros [= <- <-]. set (p := g.(data_start) + bm * 32768 + bit).
    destruct (bm_bit bm bit) as [Eb Ebit]; [lia|lia|]. fold p in Eb, Ebit. destruct lay_facts as (F1 & F2 & F3 & F4 & F5 & _).
    split; [destruct Hs2 as [[[] ? ? ?] [] [] ? ?]; split; [by split|by split|by split|done|cbn; lia]|].
    split; [destruct Hc as [[] ?]; by split; [split|]|]. apply (allocated_kept s s1); [done|]. split; [unfold is_data, p; lia|]. rewrite Eb, Ebit. split.
    + destruct Hc2 as [[] ?]. by split; [split|].
    + exists bitmap. rewrite (chg_span (fun _ => False) s s1); [by split_and!|by apply kept_chg|unfold user; lia|by intros []].
  - intros E. apply IH in E as (Hs' & Hc & HN); [|done|lia|lia]. split; [done|]. split; [by eapply chg_trans; [apply kept_chg|]|]. destruct r as [p|]; [by apply (allocated_kept s s1)|].
    destruct HN as [?|[Hk' HN]]; [by left|right]. split; [by etransitivity|]. assert (full s bm) as Hfull.
    2: { destruct HN as [?|HN]; [left; by eapply scan_refused_next|right]. intros j Hj. destruct (decide (j = i)) as [->|]; [done|].
         apply (full_kept s s1); [done|apply HN; lia]. }
    intros p Hp Eb. exists bitmap. rewrite Eb. split; [done|]. apply (find_free_full _ _ Ef). destruct lay_facts as (F1 & F2 & F3 & F4 & F5 & _).
    unfold bit_of. unfold bm_of in Eb. change BITS_PER_BITMAP_BLOCK with 32768 in *. destruct Hp.
    pose proof (Z.mod_pos_bound (p - data_start g) 32768 ltac:(lia)). pose proof (Z.div_mod (p - data_start g) 32768 ltac:(lia)). lia.
Qed.
Lemma alloc_run s r s' :
  vol g s -> storage_alloc_block s = (r, s') ->
  vol g s' /\ chg bitmaps s s' /\ match r with
    | Some p => allocated s s' p
    | None => s'.(s_txn).(t_overflow) = true \/ chg (fun _ => False) s s' /\ (refused s \/ forall p, is_data p -> used s p)
    end.
Proof.
  intros Hs E. apply op_run in E as (s1 & E & -> & Hs0 & Hop); [|done]. set (s0 := set_depth (op_depth s + 1) s) in *.
  rewrite (bind_run _ _ _ _ _ (geo_run s0 Hs0)) in E. cbv zeta in E. destruct nbm_bound as [Hnb Hcov]. destruct lay_facts as (F1 & F2 & F3 & F4 & F5 & F6).
  assert (u64 (g.(block_count) + BITS_PER_BITMAP_BLOCK - 1) / BITS_PER_BITMAP_BLOCK = nbm) as En.
  { pose proof (fi_small g fit) as small. change BITS_PER_BITMAP_BLOCK with 32768. rewrite u64_mod, Z.mod_small; [f_equal; lia|]. unfold BLOCKS_PER_DISK in *. lia. }
  rewrite En in E. destruct (Z.eqb_spec nbm 0); [lia|]. rewrite (bind_run _ _ s0 s0.(g_alloc_hint) s0) in E by done.
  pose proof (vo_hint _ _ Hs0) as Hh. set (hint := g_alloc_hint s0) in *. set (st := if hint <? nbm then hint else 0) in *.
  assert (0 <= st < nbm) as Hst by (unfold st; destruct (Z.ltb_spec hint nbm); lia).
  apply alloc_scan_run in E as (Hs1 & Hc1 & HR); [|done|done|lia|lia]. destruct (Hop _ Hs1 Hc1) as [Hs' Hc']. split; [done|]. split; [done|]. destruct r as [p|].
  - destruct HR as (Hp & Hc & HR). split; [done|]. split; [by apply Hop|done].
  - destruct HR as [?|[Hk HR]]; [by left|right].
    split; [by apply (Hop _ Hs1), kept_chg|]. destruct HR as [HR|HR]; [by left|right]. intros p Hp. destruct (bm_of_span p Hp) as (_ & ? & ?).
    set (k := bm_of p - g.(block_bitmap_start)). assert (k < nbm) as Hk1.
    { unfold k, bm_of, is_data in *. change BITS_PER_BITMAP_BLOCK with 32768. replace (_ + _ / 32768 - _) with ((p - data_start g) / 32768) by lia.
      apply Z.div_lt_upper_bound; lia. }
    specialize (HR (if st <=? k then k - st else k - st + nbm)). unfold scan_at in HR. destruct (Z.leb_spec st k).
    + replace (st + (k - st)) with k in HR by lia. destruct (Z.leb_spec nbm k); [lia|]. apply HR; [lia|done|unfold k; lia].
    + replace (st + (k - st + nbm)) with (k + nbm) in HR by lia. destruct (Z.leb_spec nbm (k + nbm)); [|lia].
      apply HR; [lia|done|unfold k; lia].
Qed.
Lemma alloc_used s s' p : allocated s s' p -> ~ used s p /\ used s' p /\ forall q, is_data q -> q <> p -> used s' q <-> used s q.
Proof.
  intros (Hp & Hc & bm & H1 & Hsz & Hf & H2). assert (zlen bm = 4096) as Hlen by (unfold zlen; rewrite Hsz; done).
  assert (0 <= bit_of p < 32768) as Hb by (unfold bit_of; apply Z.mod_pos_bound; done). split_and!.
  - intros (bm' & H1' & Ht). congruence.
  - exists (bitmap_set bm (bit_of p)). split; [done|]. rewrite bitmap_test_set by lia. by rewrite bool_decide_true.
  - intros q Hq Hne. destruct (decide (bm_of p = bm_of q)) as [E|E]; [|by apply (used_vol (eq (bm_of p)))].
    unfold used. rewrite <- E, H1, H2. assert (0 <= bit_of q) by (unfold bit_of; apply Z.mod_pos_bound; done).
    split; intros (bm' & [= <-] & Ht); eexists; (split; [done|]); revert Ht; rewrite bitmap_test_set by lia;
      (rewrite (bool_decide_eq_false_2 (bit_of p = bit_of q)); [done|]); intros Eb; by apply Hne, same_bit.
Qed.
End alloc.
