(* ===== verification/Nodes.v ===== *)
(** Inodes and pointer blocks in an open transaction (storage.c): the layout of the
    on-disk inode, what the inode table and a sealed pointer block show, and what
    reading and writing them change. *)
From S2P Require Import Prelude Sha256 Aead Disk Super Store Journal Tree Staging Knot Merkle Format Files View Cells Alloc.

(** ** Parts of a block *)
Lemma slice_same (w : list Z) a d : 0 <= a -> (Z.to_nat a + length d <= length w)%nat -> take (length d) (drop (Z.to_nat a) (splice w a d)) = d.
Proof.
  intros Ha Hl. unfold splice. rewrite drop_app_length' by (rewrite length_take; lia). by rewrite take_app_length.
Qed.
Lemma slice_other (w : list Z) a d b n :
  0 <= a -> (Z.to_nat a + length d <= length w)%nat -> (b + n <= Z.to_nat a \/ Z.to_nat a + length d <= b)%nat ->
  take n (drop b (splice w a d)) = take n (drop b w).
Proof.
  intros Ha Hl Hd. apply list_eq. intros k. destruct (decide (k < n)%nat); [|by rewrite !lookup_take_ge by lia].
  rewrite !lookup_take_lt, !lookup_drop by lia. replace a with (Z.of_nat (Z.to_nat a)) by lia. apply splice_lookup_out; lia.
Qed.
Lemma slice_front (l : list Z) a n k : (a + n <= k)%nat -> take n (drop a (take k l)) = take n (drop a l).
Proof. intros H. rewrite skipn_firstn_comm, take_take. f_equal. lia. Qed.
Lemma slice_mid (pre x post : list Z) a n : length pre = a -> length x = n -> take n (drop a (pre ++ x ++ post)) = x.
Proof. intros <- <-. by rewrite drop_app_length, take_app_length. Qed.
Lemma field_front ws b n k : (sum_list (take k ws) + ws !!! k <= n)%nat -> field ws (take n b) k = field ws b k.
Proof. apply slice_front. Qed.

(** ** The on-disk inode *)
Record inode_ok (i : on_disk_inode) : Prop := {
  in_words : Forall (fun x => 0 <= x < 2 ^ 32) [i.(i_type); i.(i_mode); i.(i_uid); i.(i_gid); i.(i_links); i.(i_generation); i.(i_checksum)];
  in_longs : Forall (fun x => 0 <= x < 2 ^ 64)
    ([i.(i_size); i.(i_atime); i.(i_mtime); i.(i_ctime); i.(i_indirect); i.(i_double_indirect); i.(i_triple_indirect)] ++ i.(i_direct));
  in_direct : length i.(i_direct) = 12%nat;
  in_bytes : length i.(i_key_material) = 32%nat /\ length i.(i_file_key) = 16%nat /\ length i.(i_file_iv) = 16%nat /\ length i.(i_pad) = 4%nat
}.
Lemma inode_fields_widths i : inode_ok i -> length <$> inode_fields i = inode_widths.
Proof.
  intros [_ _ Hd (H1 & H2 & H3 & H4)]. unfold inode_fields, inode_widths. rewrite !fmap_app. cbn [fmap list_fmap]. rewrite !length_le, H1, H2, H3, H4.
  f_equal. f_equal. rewrite <- Hd. clear. induction (i_direct i) as [|x l IH]; [done|]. cbn. rewrite length_le. by f_equal.
Qed.
Lemma length_inode_bytes i : inode_ok i -> length (inode_bytes i) = 248%nat.
Proof. intros H. unfold inode_bytes. by rewrite length_join, inode_fields_widths. Qed.
Lemma inode_of_bytes_front b b' : take 248 b = take 248 b' -> inode_of_bytes b = inode_of_bytes b'.
Proof.
  intros E. assert (forall k, (k < 30)%nat -> field inode_widths b k = field inode_widths b' k) as H.
  { intros k Hk. assert (sum_list (take k inode_widths) + inode_widths !!! k <= 248)%nat as Hs by (do 30 (destruct k as [|k]; [vm_compute; lia|]); lia).
    rewrite <- (field_front _ b 248 k Hs), <- (field_front _ b' 248 k Hs). by rewrite E. }
  unfold inode_of_bytes. cbv zeta. cbn [seq fmap list_fmap]. rewrite !H by lia. done.
Qed.
Lemma inode_roundtrip i rest : inode_ok i -> inode_of_bytes (inode_bytes i ++ rest) = i.
Proof.
  intros Hi. pose proof (inode_fields_widths i Hi) as Hw. destruct Hi as [Hwd Hl Hd _].
  assert (forall k l, inode_fields i !! k = Some l -> field inode_widths (inode_bytes i ++ rest) k = l) as HX by (intros k l; by apply field_mjoin).
  assert (exists a0 a1 a2 a3 a4 a5 a6 a7 a8 a9 a10 a11, i.(i_direct) = [a0; a1; a2; a3; a4; a5; a6; a7; a8; a9; a10; a11]) as
    (a0 & a1 & a2 & a3 & a4 & a5 & a6 & a7 & a8 & a9 & a10 & a11 & Ed).
  { destruct (i_direct i) as [|a0 [|a1 [|a2 [|a3 [|a4 [|a5 [|a6 [|a7 [|a8 [|a9 [|a10 [|a11 [|? ?]]]]]]]]]]]]]; try done. by eauto 20. }
  unfold inode_fields in HX. rewrite Ed in Hl, HX. cbn [seq fmap list_fmap app] in HX. unfold inode_of_bytes. cbv zeta. cbn [seq fmap list_fmap].
  repeat match goal with |- context [field inode_widths ?b ?k] => rewrite (HX k _ eq_refl) end.
  cbn [app] in Hl. repeat match goal with H : Forall _ (_ :: _) |- _ => apply Forall_cons in H as [? H] end.
  rewrite !from_le_to_le_id by (split; [lia|]; match goal with |- ?x < ?y => let z := eval vm_compute in y in change y with z end; lia). rewrite <- Ed. by destruct i.
Qed.
Lemma off_bound ino : 0 <= inode_off ino /\ inode_off ino + 248 <= 4096.
Proof. unfold inode_off. change INODES_PER_BLOCK with 16. change INODE_SIZE with 248. pose proof (Z.mod_pos_bound ino 16 ltac:(lia)). lia. Qed.
Lemma inode_at_same buf ino i : sized buf -> inode_ok i -> inode_at (splice buf (inode_off ino) (inode_bytes i)) ino = i.
Proof.
  intros Hb Hi. pose proof (off_bound ino). pose proof (length_inode_bytes i Hi) as Hl. rewrite <- (inode_roundtrip i [] Hi) at 2.
  apply inode_of_bytes_front. rewrite app_nil_r, <- Hl, slice_same; [by rewrite take_ge|lia|]. rewrite Hl, Hb. change (Z.to_nat BLOCK_SIZE) with 4096%nat. lia.
Qed.
Lemma inode_at_other buf ino j i : sized buf -> inode_ok i -> ino mod 16 <> j mod 16 -> inode_at (splice buf (inode_off ino) (inode_bytes i)) j = inode_at buf j.
Proof.
  intros Hb Hi Hne. pose proof (off_bound ino). pose proof (off_bound j). pose proof (length_inode_bytes i Hi) as Hl. apply inode_of_bytes_front, slice_other.
  - lia.
  - rewrite Hl, Hb. change (Z.to_nat BLOCK_SIZE) with 4096%nat. lia.
  - rewrite Hl. revert H H0. unfold inode_off. change INODES_PER_BLOCK with 16. change INODE_SIZE with 248. lia.
Qed.
(** ** Pointers *)
Lemma ptr_get_same blk k v : sized blk -> 0 <= k < 512 -> 0 <= v < 2 ^ 64 -> ptr_get (ptr_set blk k v) k = v.
Proof.
  intros Hb Hk Hv. unfold ptr_get, ptr_set. pose proof (length_le 8 v) as Hl. rewrite <- Hl at 1. rewrite slice_same; [by apply from_le_to_le_id|lia|].
  rewrite Hl, Hb. change (Z.to_nat BLOCK_SIZE) with 4096%nat. lia.
Qed.
Lemma ptr_get_other blk k j v : sized blk -> 0 <= k < 512 -> 0 <= j -> k <> j -> ptr_get (ptr_set blk k v) j = ptr_get blk j.
Proof.
  intros Hb Hk Hj Hne. unfold ptr_get, ptr_set. f_equal. pose proof (length_le 8 v) as Hl. apply slice_other; rewrite ?Hl; [lia| |lia].
  rewrite Hb. change (Z.to_nat BLOCK_SIZE) with 4096%nat. lia.
Qed.
Lemma ptr_set_sized blk k v : sized blk -> 0 <= k < 512 -> sized (ptr_set blk k v).
Proof. intros Hb Hk. apply splice_sized; [done|lia|]. unfold zlen. rewrite length_le. change BLOCK_SIZE with 4096. lia. Qed.
Lemma from_le_zeros n : from_le_bytes (replicate n 0) = 0.
Proof. induction n as [|n IH]; [done|]. cbn [replicate]. by rewrite from_le_cons, IH. Qed.
Lemma ptr_get_zero k : ptr_get zero_block k = 0.
Proof. unfold ptr_get, zero_block. rewrite drop_replicate, take_replicate. apply from_le_zeros. Qed.

Section nodes.
Context (g : geometry) (fit : fits g).
#[local] Abbreviation rg := (lay_regions g fit).
(** ** The inode table *)
Definition is_ino (ino : Z) : Prop := 0 <= ino < g.(inode_count).
Definition inode_of (s : store) (ino : Z) : option on_disk_inode := (fun buf => inode_at buf ino) <$> span_plain g s (inode_block g ino).
Lemma inode_block_bound ino : is_ino ino -> g.(inode_table_start) <= inode_block g ino < g.(data_start).
Proof.
  intros [H1 H2]. destruct (lay_facts g fit) as (_ & _ & _ & _ & _ & E & F1 & F2). unfold inode_block. change INODES_PER_BLOCK with 16. rewrite E.
  assert (0 <= ino / 16) by (apply Z.div_pos; lia). assert (ino / 16 < g.(inode_count) / 16); [|lia]. apply Z.div_lt_upper_bound; [lia|].
  rewrite (Z.div_mod (inode_count g) 16), F2 in H2 by lia. lia.
Qed.
Lemma inode_block_span ino : is_ino ino -> g.(inode_bitmap_start) <= inode_block g ino < g.(data_start).
Proof. intros H%inode_block_bound. destruct (lay_facts g fit) as (F1 & F2 & F3 & _). lia. Qed.
Lemma inode_block_user ino : is_ino ino -> user g (inode_block g ino).
Proof. intros H%inode_block_bound. destruct (lay_facts g fit) as (F1 & F2 & F3 & F4 & F5 & _). unfold user. lia. Qed.
Lemma inode_of_cells X s s' ino : cells g X s s' -> is_ino ino -> ~ X (inode_block g ino) -> inode_of s' ino = inode_of s ino.
Proof. intros Hc Hi HX. unfold inode_of. by rewrite (cells_span g X s s') by (done || by apply inode_block_user). Qed.
Lemma read_inode_run ino s r s' :
  vol g s -> is_ino ino -> storage_read_inode ino s = (r, s') ->
  vol g s' /\ chg g (fun _ => False) s s' /\ forall i, r = Some i -> inode_of s ino = Some i.
Proof.
  intros Hs Hi E. apply (op_run g) in E as (s1 & E & -> & Hs0 & Hop); [|done]. set (s0 := set_depth (op_depth s + 1) s) in *.
  rewrite (bind_run _ _ _ _ _ (geo_run g s0 Hs0)) in E. destruct (Z.leb_spec (inode_count g) ino); [unfold is_ino in Hi; lia|].
  destruct (do_block_read (inode_block g ino) s0) as [r1 s2] eqn:E1. rewrite (bind_run _ _ _ _ _ E1) in E. injection E as <- <-.
  apply (read_span_run g rg) in E1 as (Hs2 & Hk2 & HR); [|done|by apply inode_block_user|by apply inode_block_span].
  destruct (Hop (fun _ => False) Hs2 (kept_chg g fit _ _ _ Hk2)) as [? ?]. split_and!; [done|done|]. intros i Er. destruct r1 as [buf|]; [|done].
  injection Er as <-. destruct (HR _ eq_refl) as [Hp _]. unfold inode_of. change (span_plain g s (inode_block g ino) = Some buf) in Hp. by rewrite Hp.
Qed.
(** A slot of a table block is written. *)
Lemma inode_put ino i buf s s' :
  is_ino ino -> inode_ok i -> span_plain g s (inode_block g ino) = Some buf -> sized buf -> cells g (eq (inode_block g ino)) s s' ->
  span_plain g s' (inode_block g ino) = Some (splice buf (inode_off ino) (inode_bytes i)) ->
  inode_of s' ino = Some i /\ forall j, is_ino j -> j <> ino -> inode_of s' j = inode_of s j.
Proof.
  intros Hi Hok Hp Hsz Hc HW. split; [unfold inode_of; rewrite HW; cbn [fmap option_fmap option_map]; by rewrite inode_at_same|]. intros j Hj Hne.
  destruct (decide (inode_block g ino = inode_block g j)) as [Eb|Hb]; [|by apply (inode_of_cells _ s s' j Hc)].
  unfold inode_of. rewrite <- Eb, HW, Hp. cbn [fmap option_fmap option_map]. f_equal. apply inode_at_other; [done|done|].
  unfold inode_block in Eb. change INODES_PER_BLOCK with 16 in Eb. intros Em. apply Hne. rewrite (Z.div_mod j 16), (Z.div_mod ino 16) by lia. lia.
Qed.
Lemma write_inode_run ino i s r s' :
  vol g s -> is_ino ino -> inode_ok i -> storage_write_inode ino i s = (r, s') ->
  vol g s' /\ chg g (eq (inode_block g ino)) s s'
  /\ (if r then inode_of s' ino = Some i /\ forall j, is_ino j -> j <> ino -> inode_of s' j = inode_of s j
      else s'.(s_txn).(t_overflow) = true \/ chg g (fun _ => False) s s').
Proof.
  intros Hs Hi Hok E. apply (op_run g) in E as (s1 & E & -> & Hs0 & Hop); [|done]. set (s0 := set_depth (op_depth s + 1) s) in *.
  rewrite (bind_run _ _ _ _ _ (geo_run g s0 Hs0)) in E. destruct (Z.leb_spec (inode_count g) ino); [unfold is_ino in Hi; lia|].
  destruct (do_block_read (inode_block g ino) s0) as [r1 s2] eqn:E1. rewrite (bind_run _ _ _ _ _ E1) in E.
  apply (read_span_run g rg) in E1 as (Hs2 & Hk2 & HR); [|done|by apply inode_block_user|by apply inode_block_span].
  destruct r1 as [buf|]; [|injection E as <- <-; destruct (Hop (fun _ => False) Hs2 (kept_chg g fit _ _ _ Hk2)) as [? Hc];
    split_and!; [done|by eapply chg_weaken; [|exact Hc]|by right]].
  destruct (HR _ eq_refl) as [Hp Hsz]. pose proof (off_bound ino). apply (write_span_run g rg) in E as (Hs1 & Ho1 & HW);
    [|done|by apply inode_block_user|by apply inode_block_span|apply splice_sized; [done|lia|unfold zlen; rewrite length_inode_bytes by done; change BLOCK_SIZE with 4096; lia]].
  destruct (Hop (eq (inode_block g ino)) Hs1) as [Hs' Hc']; [eapply chg_trans; [by apply kept_chg|by apply others_chg]|].
  split; [done|]. split; [done|]. destruct r; [|by left]. by apply (inode_put ino i buf s _ Hi Hok Hp Hsz (chg_cells _ _ _ _ Hc')).
Qed.
(** ** Sealed data blocks *)
Lemma read_sealed_run ino id p s r s' :
  vol g s -> is_data g p -> ptr_block_read ino id p s = (r, s') ->
  vol g s' /\ kept g s s' /\ forall blk, r = Some blk -> plain g s ino id p = Some blk /\ sized blk.
Proof.
  intros Hs Hp. unfold ptr_block_read. destruct (do_block_read p s) as [r1 s1] eqn:E1. rewrite (bind_run _ _ _ _ _ E1).
  apply (read_data_run g rg) in E1 as (Hs1 & Hk1 & HR); [|done|apply Hp]. destruct r1 as [buf|]; [|intros [= <- <-]; by split_and!].
  destruct (HR _ eq_refl) as [-> Hsz]. destruct (storage_decrypt_block store_io p ino id (raw s p) s1) as [[ok pt] s2] eqn:E2.
  rewrite (bind_run _ _ _ _ _ E2). apply (decrypt_run g rg) in E2 as (Hs2 & Hk2 & Hpt & HU); [|done|by apply data_user|done]. intros [= <- <-].
  split_and!; [done|by etransitivity|]. destruct ok; [|done]. intros blk [= <-]. split; [|done]. specialize (HU eq_refl).
  rewrite (unseal_vol s s1), (kept_entry g rg s s1) in HU by (done || apply Hk1 || by apply data_user). done.
Qed.
Lemma write_sealed_run ino id p buf s r s' :
  vol g s -> is_data g p -> sized buf -> ptr_block_write ino id p buf s = (r, s') ->
  vol g s' /\ chg g (eq p) s s' /\ (if r then plain g s' ino id p = Some buf else s'.(s_txn).(t_overflow) = true \/ chg g (fun _ => False) s s').
Proof.
  intros Hs Hp Hsz. unfold ptr_block_write. destruct (storage_encrypt_block store_io p ino id buf s) as [[ok ct] s1] eqn:E1.
  rewrite (bind_run _ _ _ _ _ E1). pose proof (data_user g fit p Hp) as Hu. apply (encrypt_run g rg) in E1 as (Hs1 & Ho1 & _ & Hct & HU); [|done|done|done].
  cbn [fst snd]. destruct ok; cbn [negb]; [|intros [= <- <-]; split_and!; [done|by apply others_chg|right; by apply kept_chg]]. destruct HU as [HU _].
  intros E2. apply (write_data_run g rg) in E2 as (Hs2 & Ho2 & He & HW); [|done|done|apply Hp|done].
  split; [done|]. split; [eapply chg_trans; by apply others_chg|]. destruct r; [|left; apply HW].
  unfold plain. rewrite He, HW, (unseal_vol s s') by (etransitivity; [apply Ho1|apply Ho2]). done.
Qed.
End nodes.
