(* ===== verification/FileMap.v ===== *)
(** Files as maps (storage.c): every block of a file has one owner, an inode and a
    place in it, and blocks that nobody owns may be handed out; so writing a block of a
    file changes the contents of that block only, and reading returns what was last
    written. *)
From S2P Require Import Prelude Sha256 Aead Disk Super Store Journal Tree Staging Knot Merkle Format Files View Cells Alloc Nodes.

(** ** Who owns a block *)
(** Block [b] of the file itself, a pointer block of tree [t] with [d] levels below it
    that maps the blocks from [base] on, or block [index] of tree [t]. *)
Inductive place := Direct (b : Z) | Node (t : Z) (d : nat) (base : Z) | Leaf (t index : Z).
Definition owner : Type := Z -> option (Z * place).
Definition own (p : Z) (o : Z * place) (O : owner) : owner := fun x => if decide (x = p) then Some o else O x.
Definition extends (O O' : owner) : Prop := forall p o, O p = Some o -> O' p = Some o.
(** What entry [k] of a pointer block names. *)
Definition child (t : Z) (d : nat) (base k : Z) : place :=
  match d with O => Leaf t (base + k) | S d' => Node t d' (base + k * ptr_span d) end.
Definition root (i : on_disk_inode) (t : nat) : Z :=
  match t with O => i.(i_indirect) | 1%nat => i.(i_double_indirect) | _ => i.(i_triple_indirect) end.
Definition set_root (i : on_disk_inode) (t : nat) (v : Z) : on_disk_inode :=
  match t with
  | O => i_set_roots i v i.(i_double_indirect) i.(i_triple_indirect)
  | 1%nat => i_set_roots i i.(i_indirect) v i.(i_triple_indirect)
  | _ => i_set_roots i i.(i_indirect) i.(i_double_indirect) v
  end.
(** The place of block [b] of a file. *)
Definition seat (b : Z) : option place :=
  if b <? 12 then Some (Direct b)
  else if b - 12 <? 512 then Some (Leaf 0 (b - 12))
  else if b - 12 - 512 <? 512 * 512 then Some (Leaf 1 (b - 12 - 512))
  else if b - 12 - 512 - 512 * 512 <? 512 * 512 * 512 then Some (Leaf 2 (b - 12 - 512 - 512 * 512))
  else None.
Ltac by_seat b :=
  unfold seat in *;
  destruct (Z.ltb_spec b 12); [|destruct (Z.ltb_spec (b - 12) 512); [|destruct (Z.ltb_spec (b - 12 - 512) (512 * 512));
    [|destruct (Z.ltb_spec (b - 12 - 512 - 512 * 512) (512 * 512 * 512))]]].
Lemma seat_leaf b t index : 0 <= b -> seat b = Some (Leaf t index) -> 0 <= t < 3 /\ 0 <= index < ptr_span (S (Z.to_nat t)).
Proof. intros Hb. by_seat b; intros [= <- <-]; (split; [lia|]); match goal with |- context [ptr_span ?n] => let v := eval vm_compute in (ptr_span n) in change (ptr_span n) with v end; lia. Qed.
Lemma seat_direct b b' : seat b = Some (Direct b') -> b' = b /\ b < 12.
Proof. by_seat b; intros [= <-]. done. Qed.
Lemma seat_inj b b' o : seat b = Some o -> seat b' = Some o -> b = b'.
Proof. by_seat b; intros [= <-]; by_seat b'; intros [= E]; lia. Qed.
Lemma seat_not_node b t d base : seat b <> Some (Node t d base).
Proof. by_seat b; done. Qed.
Lemma root_set i t v t' : (t < 3)%nat -> (t' < 3)%nat -> root (set_root i t v) t' = if decide (t = t') then v else root i t'.
Proof. intros Ht Ht'. destruct t as [|[|[|?]]]; [..|lia]; destruct t' as [|[|[|?]]]; done || lia. Qed.
Lemma set_root_same i t : set_root i t (root i t) = i.
Proof. destruct i, t as [|[|?]]; done. Qed.
Lemma set_root_direct i t v : (set_root i t v).(i_direct) = i.(i_direct).
Proof. by destruct t as [|[|?]]. Qed.
Lemma set_root_ok i t v : inode_ok i -> 0 <= v < 2 ^ 64 -> inode_ok (set_root i t v).
Proof.
  intros [Hw Hl Hd Hb] Hv. cbn [app] in Hl. do 7 (apply Forall_cons in Hl as [? Hl]).
  destruct t as [|[|?]]; (split; [exact Hw|cbn [app]; repeat (constructor; [done|]); done|done|done]).
Qed.
Lemma set_direct_ok i b v : inode_ok i -> 0 <= b < 12 -> 0 <= v < 2 ^ 64 -> inode_ok (i_set_direct i (zset i.(i_direct) b v)).
Proof.
  intros [Hw Hl Hd Hb] Hr Hv. apply Forall_app in Hl as [H1 H2]. split; [done|apply Forall_app; split; [done|by apply Forall_zset]| |done].
  cbn. unfold zset. destruct (b <? 0); [done|]. by rewrite length_insert.
Qed.

Lemma own_same p o O : own p o O p = Some o.
Proof. unfold own. by rewrite decide_True. Qed.
Lemma own_other p o O x : x <> p -> own p o O x = O x.
Proof. intros H. unfold own. by rewrite decide_False. Qed.
Lemma extends_refl O : extends O O.
Proof. by intros p o. Qed.
Lemma extends_trans O1 O2 O3 : extends O1 O2 -> extends O2 O3 -> extends O1 O3.
Proof. intros H1 H2 p o H. by apply H2, H1. Qed.
Lemma own_extends p o O : O p = None \/ O p = Some o -> extends O (own p o O).
Proof. intros H x y Hx. unfold own. destruct (decide (x = p)) as [->|]; [destruct H; congruence|done]. Qed.
Lemma span_pos d : 0 < ptr_span d.
Proof. unfold ptr_span. change PTRS_PER_BLOCK with 512. lia. Qed.
Lemma span_S d : ptr_span (S d) = 512 * ptr_span d.
Proof. unfold ptr_span. change PTRS_PER_BLOCK with 512. rewrite Nat2Z.inj_succ, Z.pow_succ_r by lia. done. Qed.
Lemma entry_bound d index : 0 <= index < ptr_span (S d) -> 0 <= index / ptr_span d < 512 /\ 0 <= index mod ptr_span d < ptr_span d.
Proof.
  intros H. pose proof (span_pos d). rewrite span_S in H. split; [|by apply Z.mod_pos_bound].
  split; [apply Z.div_pos; lia|apply Z.div_lt_upper_bound; lia].
Qed.

Section files.
Context (g : geometry) (fit : fits g) (live : Z -> Prop).
#[local] Abbreviation rg := (lay_regions g fit).
#[local] Abbreviation is_data := (is_data g).
#[local] Abbreviation used := (Alloc.used g).
#[local] Abbreviation cells := (cells g).
#[local] Abbreviation chg := (chg g).
(** The files in [live] own what they point to. *)
Definition roots_ok (O : owner) (ino : Z) (i : on_disk_inode) : Prop :=
  (forall b, 0 <= b < 12 -> zget 0 i.(i_direct) b <> 0 -> O (zget 0 i.(i_direct) b) = Some (ino, Direct b))
  /\ forall t, (t < 3)%nat -> root i t <> 0 -> O (root i t) = Some (ino, Node (Z.of_nat t) t 0).
Definition node_ok (O : owner) (s : store) (p ino t : Z) (d : nat) (base : Z) : Prop :=
  exists blk, plain g s ino (ptr_block_id t (Z.of_nat d) base) p = Some blk /\ sized blk
    /\ forall k, 0 <= k < 512 -> ptr_get blk k <> 0 -> O (ptr_get blk k) = Some (ino, child t d base k).
Record owned (O : owner) (s : store) : Prop := {
  ow_data : forall p o, O p = Some o -> is_data p /\ used s p;
  ow_node : forall p ino t d base, O p = Some (ino, Node t d base) -> node_ok O s p ino t d base;
  ow_inode : forall ino, live ino -> is_ino g ino /\ exists i, inode_of g s ino = Some i /\ inode_ok i /\ roots_ok O ino i
}.
(** Block [index] of tree [t], below the pointer block that [slot] names; 0 is a hole. *)
Fixpoint look (s : store) (ino t base slot : Z) (d : nat) (index : Z) : option Z :=
  if slot =? 0 then Some 0 else
  blk ← plain g s ino (ptr_block_id t (Z.of_nat d) base) slot;
  let k := index / ptr_span d in
  match d with
  | O => Some (ptr_get blk k)
  | S d' => look s ino t (base + k * ptr_span d) (ptr_get blk k) d' (index mod ptr_span d)
  end.

(** *** What changes leave alone *)
Lemma data_apart p : is_data p -> ~ bitmaps g p /\ forall ino, is_ino g ino -> inode_block g ino <> p.
Proof.
  intros [H1 H2]. destruct (lay_facts g fit) as (F1 & F2 & F3 & F4 & F5 & _). split; [unfold bitmaps; lia|].
  intros ino Hi E. pose proof (inode_block_bound g fit ino Hi). lia.
Qed.
Lemma inode_apart ino : is_ino g ino -> ~ bitmaps g (inode_block g ino) /\ ~ is_data (inode_block g ino).
Proof. intros Hi. pose proof (inode_block_bound g fit ino Hi). unfold bitmaps, Alloc.is_data. lia. Qed.
Lemma owned_frame X O s s' :
  owned O s -> cells X s s' -> (forall p o, O p = Some o -> used s' p) -> (forall p ino t d base, O p = Some (ino, Node t d base) -> ~ X p) ->
  (forall ino, live ino -> ~ X (inode_block g ino)) -> owned O s'.
Proof.
  intros [H1 H2 H3] Hc Hu HN HI. split.
  - intros p o Hp. split; [by eapply H1|by eapply Hu].
  - intros p ino t d base Hp. destruct (H2 _ _ _ _ _ Hp) as (blk & Hb & ?). exists blk. split; [|done].
    rewrite (cells_plain g X s s'); [done|done|apply data_user; [done|by eapply H1]|by eapply HN].
  - intros ino Hl. destruct (H3 ino Hl) as [Hi (i & Ei & ?)]. split; [done|]. exists i. split; [|done].
    rewrite (inode_of_cells g fit X s s'); [done|done|done|by apply HI].
Qed.
Lemma owned_still O s s' : owned O s -> cells (fun _ => False) s s' -> owned O s'.
Proof.
  intros Ho Hc. apply (owned_frame (fun _ => False) O s s'); [done|done| |by intros ? ? ? ? ? _ []|by intros ? _ []].
  intros q o Hq. destruct (ow_data _ _ Ho _ _ Hq) as [? ?]. apply (used_cells g fit (fun _ => False) s s' q Hc); [done|by intros []|done].
Qed.
Lemma owned_alloc O s s' p : owned O s -> allocated g s s' p -> owned O s' /\ O p = None /\ is_data p /\ used s' p.
Proof.
  intros Ho Ha. destruct (alloc_used g fit s s' p Ha) as (Hn & Hu & Hother). destruct Ha as (Hp & Hc & _).
  assert (O p = None) as Hnone by (destruct (O p) as [o|] eqn:E; [|done]; by destruct Hn, (ow_data _ _ Ho p o)).
  split_and!; [|done|done|done]. apply (owned_frame (eq (bm_of g p)) O s s'); [done|by apply chg_cells|..].
  - intros q o Hq. destruct (ow_data _ _ Ho q o Hq). apply Hother; [done| |done]. intros ->. congruence.
  - intros q ino t d base Hq <-. destruct (ow_data _ _ Ho _ _ Hq) as [Hd _]. apply (proj1 (data_apart _ Hd)). by apply bm_of_bitmaps.
  - intros ino Hl E. destruct (ow_inode _ _ Ho ino Hl) as [Hi _]. apply (proj1 (inode_apart ino Hi)). rewrite <- E. by apply bm_of_bitmaps.
Qed.
Lemma owned_more O s p o : owned O s -> O p = None -> is_data p -> used s p -> (forall t d base, o.2 <> Node t d base) -> owned (own p o O) s.
Proof.
  intros [H1 H2 H3] Hn Hp Hu Ho. pose proof (own_extends p o O (or_introl Hn)) as He. split.
  - intros x o'. unfold own. destruct (decide (x = p)) as [->|]; [done|apply H1].
  - intros x ino t d base. unfold own at 1. destruct (decide (x = p)) as [->|]; [intros [= ->]; by destruct (Ho t d base)|]. intros Hx.
    destruct (H2 _ _ _ _ _ Hx) as (blk & ? & ? & ?). exists blk. split_and!; [done|done|]. intros. by apply He; auto.
  - intros ino Hl. destruct (H3 ino Hl) as [Hi (i & ? & ? & Hr1 & Hr2)]. split; [done|]. exists i. split_and!; [done|done|]. split; intros; apply He; auto.
Qed.
(** A pointer block is written. *)
Lemma owned_put O s s' p ino t d base :
  owned O s -> chg (eq p) s s' -> is_data p -> used s p -> O p = None \/ O p = Some (ino, Node t d base) ->
  node_ok (own p (ino, Node t d base) O) s' p ino t d base -> owned (own p (ino, Node t d base) O) s'.
Proof.
  intros [H1 H2 H3] Hc Hp Hu Hn Hnode. pose proof (own_extends p (ino, Node t d base) O Hn) as He. pose proof (chg_cells _ _ _ _ Hc) as Hcc.
  assert (forall x, is_data x -> used s x -> used s' x) as Hus.
  { intros x Hx. apply (used_cells g fit (eq p) s s' x Hcc Hx). intros ->. by apply (proj1 (data_apart _ Hp)), bm_of_bitmaps. }
  split.
  - intros x o. unfold own. destruct (decide (x = p)) as [->|]; [auto|]. intros Hx. destruct (H1 x o Hx). auto.
  - intros x ino' t' d' base'. unfold own at 1. destruct (decide (x = p)) as [->|Hne]; [by intros [= <- <- <- <-]|]. intros Hx.
    destruct (H2 _ _ _ _ _ Hx) as (blk & ? & ? & ?). exists blk. split_and!; [|done|intros; by apply He; auto].
    rewrite (cells_plain g (eq p) s s'); [done|done|apply data_user; [done|by eapply H1]|congruence].
  - intros ino' Hl. destruct (H3 ino' Hl) as [Hi (i & Ei & ? & Hr1 & Hr2)]. split; [done|]. exists i. split_and!; [|done|split; intros; apply He; auto].
    rewrite (inode_of_cells g fit (eq p) s s'); [done|done|done|]. intros E. by apply (proj2 (data_apart _ Hp) ino' Hi).
Qed.
(** A change that spares the pointer blocks below [slot] leaves its blocks where they are. *)
Lemma look_frame X O s s' ino t d base slot index :
  owned O s -> cells X s s' -> slot = 0 \/ O slot = Some (ino, Node t d base) -> 0 <= index < ptr_span (S d) ->
  (forall p d' base', X p -> O p = Some (ino, Node t d' base') -> (d' <= d)%nat -> base <= base' < base + ptr_span (S d) -> False) ->
  look s' ino t base slot d index = look s ino t base slot d index.
Proof.
  intros Ho Hc. revert base slot index. induction d as [|d IH]; intros base slot index Hslot Hi HX;
    cbn [look]; destruct (Z.eqb_spec slot 0) as [|Hne]; try done; destruct Hslot as [|Hslot]; try done;
    (rewrite (cells_plain g X s s'); [|done|apply data_user; [done|by eapply ow_data]|intros Hx; eapply (HX slot _ base Hx Hslot); [lia|]; match goal with |- context [ptr_span ?n] => pose proof (span_pos n) end; lia]);
    destruct (ow_node _ _ Ho _ _ _ _ _ Hslot) as (blk & -> & _ & Hch); cbn [mbind option_bind]; [done|].
  destruct (entry_bound (S d) index Hi) as [Hk Hm]. set (k := index / ptr_span (S d)) in *. apply IH; [|done|].
  - destruct (decide (ptr_get blk k = 0)); [by left|right; by apply Hch].
  - intros p d' base' Hp HO Hd Hb. apply (HX p d' base' Hp HO); [lia|]. rewrite (span_S (S d)). nia.
Qed.
(** *** Walking a tree *)
(** What a walk below a pointer block may change. *)
Definition touched (O : owner) (ino t : Z) (d : nat) (base x : Z) : Prop :=
  bitmaps g x \/ is_data x /\ (O x = None \/ exists d' base', O x = Some (ino, Node t d' base') /\ (d' <= d)%nat /\ base <= base' < base + ptr_span (S d)).
Lemma touched_extends O O' ino t d base x : extends O O' -> touched O' ino t d base x -> touched O ino t d base x.
Proof.
  intros He [?|[Hd H]]; [by left|right]. split; [done|]. destruct (O x) as [o|] eqn:E; [|by left]. right. rewrite (He _ _ E) in H.
  by destruct H as [?|?].
Qed.
Lemma touched_child O ino t d base k x :
  0 <= k < 512 -> touched O ino t d (base + k * ptr_span (S d)) x -> touched O ino t (S d) base x.
Proof.
  intros Hk [?|[Hd [?|(d' & base' & E & ? & ?)]]]; [by left|right; split; [done|by left]|right; split; [done|right]].
  exists d', base'. split_and!; [done|lia|nia|]. rewrite (span_S (S d)). nia.
Qed.
Lemma touched_self O ino t d base p : is_data p -> O p = None \/ O p = Some (ino, Node t d base) -> touched O ino t d base p.
Proof. intros Hp [?|?]; right; (split; [done|]); [by left|right]. exists d, base. pose proof (span_pos (S d)). split_and!; [done|lia|lia|lia]. Qed.
(** The pointer block a slot names, reserved and cleared where there is none. *)
Definition node_get (ino id slot : Z) (allocate : bool) : SM (option block * Z) :=
  if slot =? 0 then
    if negb allocate then mret (None, slot) else
    got ← storage_alloc_block;
    match got with
    | None => mret (None, slot)
    | Some ptr_blk => ok ← ptr_block_write ino id ptr_blk zero_block; mret (if ok : bool then Some zero_block else None, ptr_blk)
    end
  else r ← ptr_block_read ino id slot; mret (r, slot).
Lemma look_zero s ino t base slot d index :
  plain g s ino (ptr_block_id t (Z.of_nat d) base) slot = Some zero_block -> look s ino t base slot d index = Some 0.
Proof.
  intros E. destruct d as [|d]; cbn [look]; (destruct (_ =? 0); [done|]); rewrite E; cbn [mbind option_bind]; [by rewrite ptr_get_zero|].
  rewrite ptr_get_zero. destruct d; done.
Qed.
Lemma node_get_run O ino t d base slot s blk p s' :
  vol g s -> owned O s -> slot = 0 \/ O slot = Some (ino, Node t d base) ->
  node_get ino (ptr_block_id t (Z.of_nat d) base) slot true s = (blk, p, s') ->
  vol g s' /\ chg (touched O ino t d base) s s' /\ (slot <> 0 -> p = slot)
  /\ forall b, blk = Some b -> exists O', owned O' s' /\ extends O O' /\ O' p = Some (ino, Node t d base)
       /\ plain g s' ino (ptr_block_id t (Z.of_nat d) base) p = Some b /\ sized b
       /\ forall j, 0 <= j < ptr_span (S d) -> look s' ino t base p d j = look s ino t base slot d j.
Proof.
  intros Hs Ho Hslot. unfold node_get. destruct (Z.eqb_spec slot 0) as [->|Hne]; cbn [negb].
  - run_step got s1 E1. apply (alloc_run g fit) in E1 as (Hs1 & Hc1 & HA); [|done].
    assert (forall X, chg (bitmaps g) s s1 -> chg X s1 s' -> (forall x, X x -> touched O ino t d base x) -> chg (touched O ino t d base) s s') as Hcc.
    { intros X H1 H2 HX. eapply chg_trans; [eapply chg_weaken; [|exact H1]; by left|by eapply chg_weaken; [|exact H2]]. }
    destruct got as [q|]; [|intros [= <- <- <-]; split_and!; [done|eapply chg_weaken; [|exact Hc1]; by left|done|done]].
    destruct (owned_alloc O s s1 q Ho HA) as (Ho1 & Hn & Hq & Hu). run_step ok s2 E2.
    apply (write_sealed_run g fit) in E2 as (Hs2 & Hc2 & HW); [|done|done|apply zero_sized]. intros [= <- <- <-].
    split; [done|]. split; [apply (Hcc (eq q) Hc1 Hc2); intros x <-; by apply touched_self; [|left]|]. split; [done|].
    destruct ok; [|done]. intros b [= <-]. exists (own q (ino, Node t d base) O).
    split; [apply (owned_put O s1 s2); [done|done|done|done|by left|]; exists zero_block; split_and!; [done|apply zero_sized|]; intros k _; by rewrite ptr_get_zero|].
    split_and!; [apply own_extends; by left|apply own_same|done|apply zero_sized|]. intros j _. rewrite look_zero by done. by destruct d.
  - destruct Hslot as [|Hslot]; [done|]. run_step r s1 E1.
    destruct (ow_data _ _ Ho _ _ Hslot) as [Hd _]. apply (read_sealed_run g fit) in E1 as (Hs1 & Hk1 & HR); [|done|done]. intros [= <- <- <-].
    pose proof (kept_chg g fit (fun _ => False) s s1 Hk1) as Hc1. pose proof (chg_cells _ _ _ _ Hc1) as Hcc.
    split; [done|]. split; [eapply chg_weaken; [|exact Hc1]; by intros x []|]. split; [done|]. intros b ->. destruct (HR b eq_refl) as [Hp Hsz].
    exists O. split; [by apply (owned_still O s s1)|].
    split_and!; [apply extends_refl|done|rewrite (cells_plain g (fun _ => False) s s1); [done|done|by apply data_user|by intros []]|done|].
    intros j Hj. apply (look_frame (fun _ => False) O s s1); [done|done|by right|done|by intros ? ? ? []].
Qed.
Lemma data_ptr p : is_data p -> p <> 0 /\ 0 <= p < 2 ^ 64.
Proof.
  intros [H1 H2]. destruct (lay_facts g fit) as (F1 & F2 & F3 & _). pose proof (fi_small g fit) as Hs. unfold BLOCKS_PER_DISK in Hs. lia.
Qed.
(** An entry of a pointer block is set. *)
Lemma link_run O ino t d base p blk k c s s' :
  vol g s -> owned O s -> O p = Some (ino, Node t d base) -> plain g s ino (ptr_block_id t (Z.of_nat d) base) p = Some blk -> sized blk ->
  0 <= k < 512 -> O c = Some (ino, child t d base k) -> ptr_block_write ino (ptr_block_id t (Z.of_nat d) base) p (ptr_set blk k c) s = (true, s') ->
  exists O', owned O' s' /\ extends O O' /\ plain g s' ino (ptr_block_id t (Z.of_nat d) base) p = Some (ptr_set blk k c).
Proof.
  intros Hs Ho Hp Hb Hsz Hk Hc E. destruct (ow_data _ _ Ho _ _ Hp) as [Hd Hu]. pose proof (ptr_set_sized blk k c Hsz Hk) as Hsz'.
  apply (write_sealed_run g fit) in E as (Hs' & Hch & HW); [|done|done|done]. pose proof (own_extends p (ino, Node t d base) O (or_intror Hp)) as He.
  exists (own p (ino, Node t d base) O). split_and!; [|done|done]. apply (owned_put O s s'); [done|done|done|done|by right|]. eexists. split; [exact HW|]. split; [done|].
  destruct (ow_data _ _ Ho _ _ Hc) as [Hcd _]. destruct (data_ptr c Hcd) as [_ Hcr]. intros j Hj. destruct (decide (k = j)) as [<-|Hne].
  - rewrite ptr_get_same by done. intros _. by apply He.
  - rewrite ptr_get_other by (done || lia). destruct (ow_node _ _ Ho _ _ _ _ _ Hp) as (blk' & Hb' & _ & Hch'). assert (blk' = blk) as -> by congruence. intros Hn. by apply He, Hch'.
Qed.
(** What a successful walk leaves: block [index] is [p], the others are where they were. *)
Definition mapped (O O' : owner) (ino t : Z) (d : nat) (base slot index : Z) (s s' : store) (p slot' : Z) : Prop :=
  owned O' s' /\ extends O O' /\ O' slot' = Some (ino, Node t d base) /\ O' p = Some (ino, Leaf t (base + index))
  /\ look s' ino t base slot' d index = Some p
  /\ forall j, 0 <= j < ptr_span (S d) -> j <> index -> look s' ino t base slot' d j = look s ino t base slot d j.
Lemma look_node s ino t base p d j blk :
  p <> 0 -> plain g s ino (ptr_block_id t (Z.of_nat d) base) p = Some blk ->
  look s ino t base p d j = match d with O => Some (ptr_get blk (j / ptr_span d))
    | S d' => look s ino t (base + j / ptr_span d * ptr_span d) (ptr_get blk (j / ptr_span d)) d' (j mod ptr_span d) end.
Proof. intros Hp E. destruct d; cbn [look]; rewrite (proj2 (Z.eqb_neq p 0)), E by done; done. Qed.
Lemma span_0 : ptr_span 0 = 1.
Proof. done. Qed.
Lemma leaf_run O ino t base p blk k s q p' s' :
  let id := ptr_block_id t (Z.of_nat 0) base in
  vol g s -> owned O s -> O p = Some (ino, Node t 0 base) -> plain g s ino id p = Some blk -> sized blk -> 0 <= k < 512 ->
  (if (ptr_get blk k =? 0) && true then
     got ← storage_alloc_block;
     match got with
     | None => mret (0, p)
     | Some phys => ok ← ptr_block_write ino id p (ptr_set blk k phys); mret (if ok : bool then phys else 0, p)
     end
   else mret (ptr_get blk k, p)) s = (q, p', s') ->
  p' = p /\ vol g s' /\ chg (touched O ino t 0 base) s s' /\ (q <> 0 -> exists O', mapped O O' ino t 0 base p k s s' q p).
Proof.
  intros id Hs Ho Hp Hb Hsz Hk. destruct (ow_data _ _ Ho _ _ Hp) as [Hd _]. destruct (data_ptr p Hd) as [Hp0 _].
  assert (forall s1 blk1 j, plain g s1 ino id p = Some blk1 -> look s1 ino t base p 0 j = Some (ptr_get blk1 j)) as Hlook.
  { intros s1 blk1 j H1. rewrite (look_node s1 ino t base p 0 j blk1 Hp0 H1). by rewrite span_0, Z.div_1_r. }
  rewrite andb_true_r. destruct (Z.eqb_spec (ptr_get blk k) 0) as [Hz|Hnz].
  - run_step got s1 E1. apply (alloc_run g fit) in E1 as (Hs1 & Hc1 & HA); [|done].
    assert (chg (touched O ino t 0 base) s s1) as Hc1' by (eapply chg_weaken; [|exact Hc1]; by left).
    destruct got as [c|]; [|intros [= <- <- <-]; by split_and!]. destruct (owned_alloc O s s1 c Ho HA) as (Ho1 & Hn & Hcd & Hu).
    assert (plain g s1 ino id p = Some blk) as Hb1.
    { rewrite (cells_plain g (bitmaps g) s s1); [done|by apply chg_cells|by apply data_user|by apply data_apart]. }
    pose proof (own_extends c (ino, Leaf t (base + k)) O (or_introl Hn)) as He.
    pose proof (owned_more O s1 c (ino, Leaf t (base + k)) Ho1 Hn Hcd Hu ltac:(done)) as Ho1'.
    run_step ok s2 E2. pose proof E2 as E2'. apply (write_sealed_run g fit) in E2' as (Hs2 & Hc2 & HW); [|done|done|by apply ptr_set_sized].
    intros [= <- <- <-]. split; [done|]. split; [done|]. split.
    { eapply chg_trans; [exact Hc1'|]. eapply chg_weaken; [|exact Hc2]. intros x <-. apply touched_self; [done|by right]. }
    destruct ok; [intros _|done]. destruct (link_run (own c (ino, Leaf t (base + k)) O) ino t 0 base p blk k c s1 s2) as (O' & Ho' & He' & Hb');
      [done|done|by apply He|done|done|done|apply own_same|done|].
    exists O'. split_and!; [done|by eapply extends_trans|by apply He', He|apply He', own_same|..].
    + rewrite (Hlook s2 _ k Hb'). by rewrite ptr_get_same by (done || by apply data_ptr).
    + rewrite span_S, span_0. intros j Hj Hne. rewrite (Hlook s2 _ j Hb'), (Hlook s blk j Hb). by rewrite ptr_get_other by (done || lia).
  - intros [= <- <- <-]. split; [done|]. split; [done|]. split; [apply chg_refl|]. intros _. exists O.
    destruct (ow_node _ _ Ho _ _ _ _ _ Hp) as (blk' & Hb' & _ & Hch'). assert (blk' = blk) as -> by (unfold id in *; congruence).
    split_and!; [done|apply extends_refl|done|by apply (Hch' k)|by rewrite (Hlook s blk k Hb)|done].
Qed.
Lemma not_touched O ino t d base p d0 base0 : is_data p -> O p = Some (ino, Node t d0 base0) -> (d < d0)%nat -> ~ touched O ino t d base p.
Proof. intros Hd Hp Hlt [Hb|[_ [?|(d' & base' & E & ? & _)]]]; [by apply (data_apart p Hd)|congruence|]. rewrite Hp in E. injection E as -> ->. lia. Qed.
(** A mapping below entry [k] is one below its block, once the entry is set. *)
Lemma mapped_up O1 O2 O3 ino t d base p index blk blk3 s1 s2 s3 q c :
  let k := index / ptr_span (S d) in let cb := base + k * ptr_span (S d) in
  0 <= index < ptr_span (S (S d)) -> owned O1 s1 -> O1 p = Some (ino, Node t (S d) base) ->
  plain g s1 ino (ptr_block_id t (Z.of_nat (S d)) base) p = Some blk ->
  mapped O1 O2 ino t d cb (ptr_get blk k) (index mod ptr_span (S d)) s1 s2 q c -> chg (touched O1 ino t d cb) s1 s2 ->
  cells (eq p) s2 s3 -> owned O3 s3 -> extends O2 O3 -> plain g s3 ino (ptr_block_id t (Z.of_nat (S d)) base) p = Some blk3 ->
  ptr_get blk3 k = c -> (forall j, 0 <= j < 512 -> j <> k -> ptr_get blk3 j = ptr_get blk j) ->
  mapped O1 O3 ino t (S d) base p index s1 s3 q p.
Proof.
  intros k cb Hi Ho1 Hp Hb (Ho2 & He2 & Hc2 & Hq2 & Hl2 & Hj2) Hch Hce Ho3 He3 Hb3 Hk3 Hj3. destruct (ow_data _ _ Ho1 _ _ Hp) as [Hd _].
  destruct (data_ptr p Hd) as [Hp0 _]. pose proof (span_pos (S d)) as Hpos. destruct (entry_bound (S d) index Hi) as [Hk Hm]. fold k in Hk.
  assert (index = k * ptr_span (S d) + index mod ptr_span (S d)) as Eix by (unfold k; rewrite (Z.div_mod index (ptr_span (S d))) at 1 by lia; lia).
  (* below entry k *)
  assert (forall j, 0 <= j < ptr_span (S d) -> look s3 ino t cb c d j = look s2 ino t cb c d j) as Hbelow.
  { intros j Hj. apply (look_frame (eq p) O2 s2 s3); [done|done|by right|done|]. intros x d' base' <- Hx Hlt _. rewrite (He2 _ _ Hp) in Hx. injection Hx as <- <-. lia. }
  split_and!; [done|by eapply extends_trans|by apply He3, He2|..].
  - apply He3. replace (base + index) with (cb + index mod ptr_span (S d)) by (unfold cb; lia). done.
  - rewrite (look_node s3 ino t base p (S d) index blk3) by done. fold k. rewrite Hk3. fold cb. by rewrite Hbelow.
  - intros j Hj Hne. rewrite (look_node s3 ino t base p (S d) j blk3), (look_node s1 ino t base p (S d) j blk) by done.
    destruct (entry_bound (S d) j Hj) as [Hkj Hmj]. set (kj := j / ptr_span (S d)) in *. destruct (decide (kj = k)) as [Ek|Hnk].
    + rewrite Ek, Hk3. fold cb. rewrite Hbelow by done. apply Hj2; [done|]. intros E. apply Hne.
      rewrite (Z.div_mod j (ptr_span (S d))), (Z.div_mod index (ptr_span (S d))), E by lia. fold kj k. by rewrite Ek.
    + rewrite Hj3 by done. transitivity (look s2 ino t (base + kj * ptr_span (S d)) (ptr_get blk kj) d (j mod ptr_span (S d))).
      * apply (look_frame (eq p) O2 s2 s3); [done|done| |done|].
        -- destruct (ow_node _ _ Ho1 _ _ _ _ _ Hp) as (blk' & Hb' & _ & Hchd). assert (blk' = blk) as -> by congruence.
           destruct (decide (ptr_get blk kj = 0)); [by left|right]. apply He2. by apply (Hchd kj).
        -- intros x d' base' <- Hx Hlt _. rewrite (He2 _ _ Hp) in Hx. injection Hx as <- <-. lia.
      * apply (look_frame (touched O1 ino t d cb) O1 s1 s2); [done|by apply chg_cells| |done|].
        -- destruct (ow_node _ _ Ho1 _ _ _ _ _ Hp) as (blk' & Hb' & _ & Hchd). assert (blk' = blk) as -> by congruence.
           destruct (decide (ptr_get blk kj = 0)); [by left|right]. by apply (Hchd kj).
        -- intros x d' base' [Hx|[_ [Hx|(d'' & b'' & Hx & _ & Hr'')]]] HO _ Hr.
           ++ destruct (ow_data _ _ Ho1 _ _ HO) as [Hxd _]. by apply (data_apart x Hxd).
           ++ congruence.
           ++ rewrite HO in Hx. injection Hx as <- <-. unfold cb in Hr''. nia.
Qed.
Lemma mapped_pre O O1 O' ino t d base slot p index s s1 s' q p' :
  extends O O1 -> (forall j, 0 <= j < ptr_span (S d) -> look s1 ino t base p d j = look s ino t base slot d j) ->
  mapped O1 O' ino t d base p index s1 s' q p' -> mapped O O' ino t d base slot index s s' q p'.
Proof.
  intros He Hl (? & ? & ? & ? & ? & Hj). split_and!; [done|by eapply extends_trans|done|done|done|]. intros j Hjr Hne. rewrite Hj by done. by apply Hl.
Qed.
Lemma walk_eq ino t base slot d index al :
  (d < 3)%nat -> walk_ptr_tree ino t base slot d index al
  = (r ← node_get ino (ptr_block_id t (Z.of_nat d) base) slot al;
     let '(blk, ptr_blk) := r in
     match blk with
     | None => mret (0, ptr_blk)
     | Some blk =>
         let k := index / ptr_span d in
         if 512 <=? k then mret (0, ptr_blk) else
         match d with
         | O =>
             if (ptr_get blk k =? 0) && al then
               got ← storage_alloc_block;
               match got with
               | None => mret (0, ptr_blk)
               | Some phys => ok ← ptr_block_write ino (ptr_block_id t (Z.of_nat d) base) ptr_blk (ptr_set blk k phys); mret (if ok : bool then phys else 0, ptr_blk)
               end
             else mret (ptr_get blk k, ptr_blk)
         | S d' =>
             r ← walk_ptr_tree ino t (base + k * ptr_span d) (ptr_get blk k) d' (index mod ptr_span d) al;
             let '(phys, c) := r in
             if negb (c =? ptr_get blk k) then
               ok ← ptr_block_write ino (ptr_block_id t (Z.of_nat d) base) ptr_blk (ptr_set blk k c); mret (if ok : bool then phys else 0, ptr_blk)
             else mret (phys, ptr_blk)
         end
     end).
Proof. intros Hd. destruct d as [|[|[|d]]]; [done..|lia]. Qed.
Lemma walk_run O ino t d base slot index s q slot' s' :
  vol g s -> owned O s -> slot = 0 \/ O slot = Some (ino, Node t d base) -> (d < 3)%nat -> 0 <= index < ptr_span (S d) ->
  walk_ptr_tree ino t base slot d index true s = (q, slot', s') ->
  vol g s' /\ chg (touched O ino t d base) s s' /\ (slot <> 0 -> slot' = slot) /\ (q <> 0 -> exists O', mapped O O' ino t d base slot index s s' q slot').
Proof.
  revert O base slot index s q slot' s'. induction d as [|d IH]; intros O base slot index s q slot' s' Hs Ho Hslot Hd Hi; rewrite walk_eq by done.
  all: run_step bp s1 E1; destruct bp as [blk p]; eapply node_get_run in E1 as (Hs1 & Hc1 & Hsl & HR); [|done|done|done]; cbv beta iota zeta.
  all: destruct blk as [blk|]; [|intros [= <- <- <-]; by split_and!].
  all: destruct (HR blk eq_refl) as (O1 & Ho1 & He1 & Hp & Hb & Hsz & Hl1); destruct (entry_bound _ index Hi) as [Hk Hm].
  all: rewrite (proj2 (Z.leb_gt 512 _)) by apply Hk.
  - rewrite span_0, Z.div_1_r in *. intros E. eapply leaf_run in E as (-> & Hs2 & Hc2 & HM); [|done|done|done|done|done|done]. split; [done|].
    split; [eapply chg_trans; [exact Hc1|eapply chg_weaken; [|exact Hc2]; intros x; by apply touched_extends]|]. split; [done|].
    intros [O' HM']%HM. exists O'. by eapply mapped_pre.
  - set (k := index / ptr_span (S d)) in *. set (cb := base + k * ptr_span (S d)). run_step r s2 E2. destruct r as [phys c].
    assert (ptr_get blk k = 0 \/ O1 (ptr_get blk k) = Some (ino, Node t d cb)) as Hch.
    { destruct (ow_node _ _ Ho1 _ _ _ _ _ Hp) as (blk' & Hb' & _ & Hc'). assert (blk' = blk) as -> by congruence.
      destruct (decide (ptr_get blk k = 0)); [by left|right; by apply (Hc' k)]. }
    destruct (IH O1 cb (ptr_get blk k) (index mod ptr_span (S d)) s1 phys c s2 Hs1 Ho1 Hch ltac:(lia) Hm E2) as (Hs2 & Hc2 & Hslc & HM).
    destruct (ow_data _ _ Ho1 _ _ Hp) as [Hpd _]. assert (chg (touched O ino t (S d) base) s s2) as Hc.
    { eapply chg_trans; [exact Hc1|]. eapply chg_weaken; [|exact Hc2]. intros x Hx. eapply touched_extends; [exact He1|]. by apply touched_child in Hx. }
    assert (plain g s2 ino (ptr_block_id t (Z.of_nat (S d)) base) p = Some blk) as Hb2.
    { rewrite (cells_plain g (touched O1 ino t d cb) s1 s2); [done|by apply chg_cells|by apply data_user|]. eapply not_touched; [done|exact Hp|lia]. }
    destruct (Z.eqb_spec c (ptr_get blk k)) as [Ec|Hc']; cbn [negb].
    + intros [= <- <- <-]. split_and!; [done|done|done|]. intros [O2 HM2]%HM. exists O2. eapply mapped_pre; [exact He1|exact Hl1|].
      eapply (mapped_up O1 O2 O2); [done|done|done|exact Hb|exact HM2|done|apply (cells_refl g)|apply HM2|apply extends_refl|exact Hb2|done|done].
    + run_step ok s3 E3. pose proof E3 as E3'. apply (write_sealed_run g fit) in E3' as (Hs3 & Hc3 & HW); [|done|done|by apply ptr_set_sized].
      intros [= <- <- <-]. split; [done|]. split; [eapply chg_trans; [exact Hc|]; eapply chg_weaken; [|exact Hc3]; intros x <-; eapply touched_extends; [exact He1|]; apply touched_self; [done|by right]|].
      split; [done|]. destruct ok; [|done]. intros [O2 HM2]%HM. pose proof HM2 as (Ho2 & He2 & Hc2' & _). destruct (ow_data _ _ Ho2 _ _ Hc2') as [Hcd _].
      destruct (link_run O2 ino t (S d) base p blk k c s2 s3) as (O3 & Ho3 & He3 & Hb3); [done|done|by apply He2|done|done|done|done|done|].
      exists O3. eapply mapped_pre; [exact He1|exact Hl1|]. eapply (mapped_up O1 O2 O3); [done|done|done|exact Hb|exact HM2|done|by apply chg_cells|done|done|exact Hb3|..].
      * apply ptr_get_same; [done|done|by apply data_ptr].
      * intros j Hj Hne. apply ptr_get_other; [done|done|lia|done].
Qed.
(** *** The blocks of a file *)
Definition block_at (s : store) (ino : Z) (i : on_disk_inode) (b : Z) : option Z :=
  match seat b with
  | Some (Direct b) => Some (zget 0 i.(i_direct) b)
  | Some (Leaf t index) => look s ino t 0 (root i (Z.to_nat t)) (Z.to_nat t) index
  | _ => Some 0
  end.
Lemma get_physical_eq ino i b al :
  get_physical_block ino i b al
  = match seat b with
    | Some (Direct b) =>
        if (zget 0 i.(i_direct) b =? 0) && al then
          got ← storage_alloc_block;
          match got with None => mret (0, i) | Some phys => mret (phys, i_set_direct i (zset i.(i_direct) b phys)) end
        else mret (zget 0 i.(i_direct) b, i)
    | Some (Leaf t index) =>
        r ← walk_ptr_tree ino t 0 (root i (Z.to_nat t)) (Z.to_nat t) index al; mret (r.1, set_root i (Z.to_nat t) r.2)
    | _ => mret (0, i)
    end.
Proof.
  unfold get_physical_block. change PTRS_PER_BLOCK with 512. cbv zeta. by_seat b; done.
Qed.
(** All of an inode but what it points to. *)
Definition bare (i : on_disk_inode) : on_disk_inode := i_set_roots (i_set_direct i []) 0 0 0.
Lemma get_physical_bare ino i b al s q i' s' : get_physical_block ino i b al s = (q, i', s') -> bare i' = bare i.
Proof.
  rewrite get_physical_eq. destruct (seat b) as [[b'|t d base|t index]|]; [|by intros [= _ <- _]| |by intros [= _ <- _]].
  - destruct (_ && _); [|by intros [= _ <- _]]. run_step got s1 E. destruct got; by intros [= _ <- _].
  - run_step r s1 E. intros [= _ <- _]. by destruct (Z.to_nat t) as [|[|?]].
Qed.
(** What mapping a block of file [ino] may change. *)
Definition grown (O : owner) (ino x : Z) : Prop :=
  bitmaps g x \/ is_data x /\ (O x = None \/ exists t d base, O x = Some (ino, Node t d base)).
(** Block [b] of the file is [q]; the others are where they were, with the inode that was read too. *)
Record placed (O O' : owner) (ino b : Z) (i : on_disk_inode) (s : store) (i' : on_disk_inode) (s' : store) (q : Z) : Prop := {
  pl_owned : owned O' s';
  pl_extends : extends O O';
  pl_inode : inode_ok i' /\ roots_ok O' ino i';
  pl_own : exists o, seat b = Some o /\ O' q = Some (ino, o);
  pl_at : block_at s' ino i' b = Some q;
  pl_other : forall j, 0 <= j -> j <> b -> block_at s' ino i' j = block_at s ino i j /\ block_at s' ino i j = block_at s ino i j;
  pl_old : i' = i \/ block_at s' ino i b = Some 0 /\ block_at s ino i b = Some 0
}.
Lemma roots_extend O O' ino i : extends O O' -> roots_ok O ino i -> roots_ok O' ino i.
Proof. intros He [H1 H2]. split; intros; apply He; auto. Qed.
(** A change of bitmaps and unowned blocks moves nothing. *)
Lemma block_at_frame X O s s' ino i b :
  owned O s -> cells X s s' -> roots_ok O ino i -> 0 <= b -> (forall p t d base, X p -> O p = Some (ino, Node t d base) -> False) ->
  block_at s' ino i b = block_at s ino i b.
Proof.
  intros Ho Hc [_ Hr] Hb HX. unfold block_at. destruct (seat b) as [[|?|t index]|] eqn:Es; try done. apply seat_leaf in Es as [Ht Hi]; [|done].
  apply (look_frame X O s s'); [done|done| |done|].
  - destruct (decide (root i (Z.to_nat t) = 0)) as [|Hn]; [by left|right]. rewrite (Hr (Z.to_nat t)) by (done || lia). by rewrite Z2Nat.id by lia.
  - intros p d' base' Hp HO _ _. by eapply HX.
Qed.
Lemma place_tree O ino b i t index s r s' :
  vol g s -> owned O s -> inode_ok i -> roots_ok O ino i -> 0 <= b -> seat b = Some (Leaf t index) ->
  walk_ptr_tree ino t 0 (root i (Z.to_nat t)) (Z.to_nat t) index true s = (r, s') ->
  vol g s' /\ chg (grown O ino) s s' /\ (r.1 <> 0 -> exists O', placed O O' ino b i s (set_root i (Z.to_nat t) r.2) s' r.1).
Proof.
  intros Hs Ho Hok Hr Hb Es E. destruct r as [q slot]. destruct (seat_leaf _ _ _ Hb Es) as [Ht Hi]. assert (Z.of_nat (Z.to_nat t) = t) as Et by lia.
  set (n := Z.to_nat t) in *. assert (forall t', (t' < 3)%nat -> root i t' = 0 \/ O (root i t') = Some (ino, Node (Z.of_nat t') t' 0)) as Hroot.
  { intros t' Ht'. destruct (decide (root i t' = 0)); [by left|right; by apply Hr]. }
  pose proof (Hroot n ltac:(lia)) as Hslot. rewrite Et in Hslot. eapply walk_run in E as (Hs' & Hc & Hsl & HM); [|done|done|exact Hslot|lia|done].
  split; [done|]. split; [eapply chg_weaken; [|exact Hc]; intros x [?|[? [?|(d' & b' & ? & _)]]]; [by left|right; split; [done|by left]|right; split; [done|right; by eauto]]|].
  intros [O' (Ho' & He' & Hs1 & Hq & Hl & Hj)]%HM. cbn [fst snd] in *. exists O'. destruct (ow_data _ _ Ho' _ _ Hs1) as [Hsd _].
  assert (forall t' index', 0 <= t' < 3 -> t' <> t -> 0 <= index' < ptr_span (S (Z.to_nat t')) ->
    look s' ino t' 0 (root i (Z.to_nat t')) (Z.to_nat t') index' = look s ino t' 0 (root i (Z.to_nat t')) (Z.to_nat t') index') as Htree.
  { intros t' index' Ht' Hne Hi'. pose proof (Hroot (Z.to_nat t') ltac:(lia)) as Hr'. rewrite Z2Nat.id in Hr' by lia.
    apply (look_frame (touched O ino t n 0) O s s'); [done|by apply chg_cells|done|done|].
    intros x d' base' [Hx|[_ [Hx|(? & ? & Hx & _)]]] HO _ _; [by destruct (ow_data _ _ Ho _ _ HO) as [Hxd _]; apply (data_apart x Hxd)|congruence|congruence]. }
  split.
  - done.
  - done.
  - split; [apply set_root_ok; [done|by apply data_ptr]|]. destruct (roots_extend O O' ino i He' Hr) as [R1 R2]. split; [by rewrite set_root_direct|].
    intros t' Ht'. rewrite root_set by lia. destruct (decide (n = t')) as [<-|]; [by rewrite Et|by apply R2].
  - eexists. split; [exact Es|done].
  - unfold block_at. rewrite Es. fold n. rewrite root_set, decide_True by lia. done.
  - intros j Hj0 Hne. unfold block_at. destruct (seat j) as [[|?|t' index']|] eqn:Ej; try done; [by rewrite set_root_direct|].
    destruct (seat_leaf _ _ _ Hj0 Ej) as [Ht' Hi']. rewrite root_set by lia. destruct (decide (t' = t)) as [->|Htne].
    + fold n. rewrite decide_True by done. fold n in Hi'. rewrite Hj by (done || (intros ->; apply Hne; by eapply seat_inj)). split; [done|].
      destruct (decide (root i n = 0)) as [E0|Hn0]; [rewrite E0; by destruct n|]. rewrite <- (Hsl Hn0) at 1. rewrite Hj by (done || (intros ->; apply Hne; by eapply seat_inj)). done.
    + rewrite decide_False by (intros E'; apply Htne; apply Z2Nat.inj; unfold n in *; lia). by rewrite Htree.
  - destruct (decide (root i n = 0)) as [E0|Hn0]; [right|left; rewrite (Hsl Hn0); apply set_root_same].
    unfold block_at. rewrite Es. fold n. rewrite E0. by destruct n.
Qed.
Lemma placed_old O ino b i s q :
  owned O s -> inode_ok i -> roots_ok O ino i -> 0 <= b < 12 -> zget 0 i.(i_direct) b = q -> q <> 0 -> placed O O ino b i s i s q.
Proof.
  intros Ho Hok Hr Hb Eq Hq. assert (seat b = Some (Direct b)) as Es by (by_seat b; done || lia).
  split; [done|apply extends_refl|done| |unfold block_at; rewrite Es; by f_equal|done|by left]. exists (Direct b). split; [done|]. rewrite <- Eq in *. by apply Hr.
Qed.
Lemma placed_new O ino b i s s' p :
  owned O s -> inode_ok i -> roots_ok O ino i -> 0 <= b < 12 -> zget 0 i.(i_direct) b = 0 -> chg (bitmaps g) s s' -> allocated g s s' p ->
  placed O (own p (ino, Direct b) O) ino b i s (i_set_direct i (zset i.(i_direct) b p)) s' p.
Proof.
  intros Ho Hok Hr Hb E0 Hc HA. assert (seat b = Some (Direct b)) as Es by (by_seat b; done || lia).
  destruct (owned_alloc O s s' p Ho HA) as (Ho' & Hn & Hd & Hu). pose proof (own_extends p (ino, Direct b) O (or_introl Hn)) as He.
  assert (zlen i.(i_direct) = 12) as Hlen by (unfold zlen; by rewrite (in_direct i Hok)).
  assert (forall j, 0 <= j -> block_at s' ino i j = block_at s ino i j) as Hsame.
  { intros j Hj. apply (block_at_frame (bitmaps g) O); [done|by apply chg_cells|done|done|]. intros x t d base Hx HO.
    destruct (ow_data _ _ Ho _ _ HO) as [Hxd _]. by apply (data_apart x Hxd). }
  split.
  - by apply owned_more.
  - done.
  - split; [apply set_direct_ok; [done|done|by apply data_ptr]|]. destruct (roots_extend O _ ino i He Hr) as [R1 R2]. split; [|exact R2].
    intros j Hj. cbn [i_set_direct i_direct]. destruct (decide (b = j)) as [<-|Hne]; [rewrite zget_zset_eq by lia; intros _; apply own_same|].
    rewrite zget_zset_ne by done. by apply R1.
  - exists (Direct b). split; [done|apply own_same].
  - unfold block_at. rewrite Es. cbn [i_set_direct i_direct]. by rewrite zget_zset_eq by lia.
  - intros j Hj Hne. rewrite Hsame by done. split; [|done]. rewrite <- Hsame by done. unfold block_at.
    destruct (seat j) as [[b'|?|t' index']|] eqn:Ej; try done. apply seat_direct in Ej as [-> _]. cbn [i_set_direct i_direct]. by rewrite zget_zset_ne.
  - right. rewrite Hsame by lia. unfold block_at. rewrite Es, E0. done.
Qed.
Lemma place_run O ino b i s q i' s' :
  vol g s -> owned O s -> inode_ok i -> roots_ok O ino i -> 0 <= b -> get_physical_block ino i b true s = (q, i', s') ->
  vol g s' /\ chg (grown O ino) s s' /\ (q <> 0 -> exists O', placed O O' ino b i s i' s' q).
Proof.
  intros Hs Ho Hok Hr Hb. rewrite get_physical_eq. destruct (seat b) as [[b'|t d base|t index]|] eqn:Es.
  - apply seat_direct in Es as [-> Hb12]. rewrite andb_true_r. destruct (Z.eqb_spec (zget 0 (i_direct i) b) 0) as [E0|Hn0].
    + run_step got s1 E1. apply (alloc_run g fit) in E1 as (Hs1 & Hc1 & HA); [|done].
      assert (chg (grown O ino) s s1) as Hc by (eapply chg_weaken; [|exact Hc1]; by left).
      destruct got as [p|]; intros [= <- <- <-]; (split; [done|split; [done|]]); [|done]. intros _. eexists. by apply placed_new.
    + intros [= <- <- <-]. split; [done|]. split; [apply chg_refl|]. intros _. exists O. by apply placed_old.
  - by apply seat_not_node in Es.
  - run_step r s1 E1. intros [= <- <- <-]. by apply (place_tree O ino b i t index s r s1).
  - intros [= <- <- <-]. split; [done|]. split; [apply chg_refl|done].
Qed.
(** The contents of block [b] of file [ino]; none where there is a hole. *)
Definition contents (s : store) (ino b : Z) : option block :=
  i ← inode_of g s ino; p ← block_at s ino i b; if p =? 0 then None else plain g s ino b p.
Lemma look_owned O s ino t base slot d index p :
  owned O s -> slot = 0 \/ O slot = Some (ino, Node t d base) -> 0 <= index < ptr_span (S d) ->
  look s ino t base slot d index = Some p -> p <> 0 -> O p = Some (ino, Leaf t (base + index)).
Proof.
  intros Ho. revert base slot index. induction d as [|d IH]; intros base slot index Hslot Hi Hl Hp; cbn [look] in Hl;
    (destruct (Z.eqb_spec slot 0); [congruence|]); (destruct Hslot as [|Hslot]; [done|]); destruct (ow_node _ _ Ho _ _ _ _ _ Hslot) as (blk & Eb & _ & Hch);
    rewrite Eb in Hl; cbn [mbind option_bind] in Hl; destruct (entry_bound _ index Hi) as [Hk Hm].
  - rewrite span_0, Z.div_1_r in *. injection Hl as <-. by apply (Hch index).
  - set (k := index / ptr_span (S d)) in *. assert (index = k * ptr_span (S d) + index mod ptr_span (S d)) as ->.
    { unfold k. pose proof (span_pos (S d)). rewrite (Z.div_mod index (ptr_span (S d))) at 1 by lia. lia. }
    rewrite Z.add_assoc. apply (IH (base + k * ptr_span (S d)) (ptr_get blk k)); [|done|done|done].
    destruct (decide (ptr_get blk k = 0)); [by left|right; by apply (Hch k)].
Qed.
Lemma block_at_owned O s ino i b p :
  owned O s -> roots_ok O ino i -> 0 <= b -> block_at s ino i b = Some p -> p <> 0 -> exists o, seat b = Some o /\ O p = Some (ino, o).
Proof.
  intros Ho [R1 R2] Hb. unfold block_at. destruct (seat b) as [[b'|?|t index]|] eqn:Es; [|by intros [= <-]| |by intros [= <-]].
  - apply seat_direct in Es as [-> ?]. intros [= <-] Hp. exists (Direct b). split; [done|by apply R1].
  - destruct (seat_leaf _ _ _ Hb Es) as [Ht Hi]. intros Hl Hp. exists (Leaf t index). split; [done|].
    apply (look_owned O s ino t 0 (root i (Z.to_nat t)) (Z.to_nat t) index p Ho); [|done|done|done].
    destruct (decide (root i (Z.to_nat t) = 0)) as [|Hn]; [by left|right]. rewrite (R2 (Z.to_nat t)) by (done || lia). by rewrite Z2Nat.id by lia.
Qed.
Lemma contents_frame X O s s' ino b :
  owned O s -> live ino -> 0 <= b -> cells X s s' -> inode_of g s' ino = inode_of g s ino ->
  (forall x t d base, X x -> O x <> Some (ino, Node t d base)) -> (forall x o, X x -> seat b = Some o -> O x <> Some (ino, o)) ->
  contents s' ino b = contents s ino b.
Proof.
  intros Ho Hl Hb Hc Ei HN HS. destruct (ow_inode _ _ Ho ino Hl) as [Hi (i & E & Hok & Hr)]. unfold contents. rewrite Ei, E. cbn [mbind option_bind].
  rewrite (block_at_frame X O s s'); [|done|done|done|done|intros x t d base Hx HO; by eapply HN].
  destruct (block_at s ino i b) as [p|] eqn:Ep; cbn [mbind option_bind]; [|done]. destruct (Z.eqb_spec p 0) as [|Hp]; [done|].
  destruct (block_at_owned O s ino i b p Ho Hr Hb Ep Hp) as (o & Es & HO). destruct (ow_data _ _ Ho _ _ HO) as [Hd _].
  apply (cells_plain g X s s'); [done|by apply data_user|]. intros Hx. by eapply HS.
Qed.
(** The inode of a file is written. *)
End files.

(** The inode table changes, and with it which files there are. *)
Lemma owned_table g (fit : fits g) (live live' : Z -> Prop) X O s s' :
  owned g live O s -> cells g X s s' -> (forall p, is_data g p -> ~ X p) -> (forall p, bitmaps g p -> ~ X p) ->
  (forall j, live' j -> is_ino g j /\ exists i, inode_of g s' j = Some i /\ inode_ok i /\ roots_ok O j i) -> owned g live' O s'.
Proof.
  intros [H1 H2 _] Hc Hd Hb H3. split; [| |done].
  - intros p o Hp. destruct (H1 p o Hp) as [Hpd Hu]. split; [done|]. apply (used_cells g fit X s s' p Hc Hpd); [|done]. by apply Hb, bm_of_bitmaps.
  - intros p ino' t d base Hp. destruct (H2 _ _ _ _ _ Hp) as (blk & ? & ?). destruct (H1 _ _ Hp) as [Hpd _]. exists blk. split; [|done].
    rewrite (cells_plain g X s s'); [done|done|by apply data_user|by apply Hd].
Qed.
Lemma owned_inode g (fit : fits g) live O s s' ino i :
  owned g live O s -> is_ino g ino -> cells g (eq (inode_block g ino)) s s' -> inode_of g s' ino = Some i ->
  (forall j, is_ino g j -> j <> ino -> inode_of g s' j = inode_of g s j) -> inode_ok i -> roots_ok O ino i -> owned g live O s'.
Proof.
  intros Ho Hi Hc Ei Hoth Hok Hr. destruct (inode_apart g fit ino Hi) as [Hb Hd]. apply (owned_table g fit live live (eq (inode_block g ino)) O s s'); [done|done|by intros p ? <-|by intros p ? <-|].
  intros j Hl. destruct (ow_inode _ _ _ _ Ho j Hl) as [Hj (i0 & E0 & ? & ?)]. split; [done|]. destruct (decide (j = ino)) as [->|Hne]; [by exists i|]. exists i0. by rewrite Hoth.
Qed.
