(* ===== verification/Commit.v ===== *)
(** Committing what a transaction shows (storage.c): after [journal_commit] the device
    alone shows what the transaction showed, and no cache line is dirty. *)
From S2P Require Import Prelude Sha256 Aead Disk Super Store Journal Tree Staging Knot Merkle Format Files View Cells Alloc.

(** ** The staged blocks, written out *)
Lemma apply_snoc st b w h x : apply_all (st ++ [(b, w)]) h x = if b =? x then w else apply_all st h x.
Proof. rewrite apply_all_app. cbn. unfold update. by destruct (Z.eqb_spec b x), (Z.eqb_spec x b); try lia. Qed.
Lemma raw_apply act ov st d x : default (latest d x) (staged_at (mk_txn act ov st) x) = apply_all st (latest d) x.
Proof.
  induction st as [|[b w] st IH] using rev_ind; [done|]. rewrite apply_snoc, <- IH.
  pose proof (staged_at_app (mk_txn act ov st) b w x) as E. cbn [t_active t_overflow t_staged] in E. rewrite E. by destruct (b =? x).
Qed.
(** *** What writing out leaves in RAM *)
Definition same_ram (s s' : store) : Prop :=
  s'.(s_mfs) = s.(s_mfs) /\ s'.(g_meta_cache) = s.(g_meta_cache) /\ s'.(g_merkle_cache) = s.(g_merkle_cache)
  /\ s'.(g_alloc_hint) = s.(g_alloc_hint) /\ s'.(op_depth) = s.(op_depth).
#[global] Instance same_ram_pre : PreOrder same_ram.
Proof. split; [by intros s|]. intros a b c (? & ? & ? & ? & ?) (? & ? & ? & ? & ?). unfold same_ram. split_and!; congruence. Qed.
Definition device_only {A} (m : SM A) : Prop := forall s, same_ram s (m s).2.
Lemma device_ret {A} (a : A) : device_only (mret a).
Proof. by intros s. Qed.
Lemma device_bind {A B} (m : SM A) (k : A -> SM B) : device_only m -> (forall a, device_only (k a)) -> device_only (m ≫= k).
Proof. intros Hm Hk s. unfold mbind, sm_bind. specialize (Hm s). destruct (m s) as [a s1]. cbn in Hm. etransitivity; [exact Hm|apply Hk]. Qed.
Lemma device_gets {A} (f : store -> A) : device_only (gets f).
Proof. by intros s. Qed.
Lemma device_on_disk {A} (f : disk -> A * disk) : device_only (on_disk f).
Proof. intros s. unfold on_disk. by destruct (f _). Qed.
Lemma device_permitted : device_only storage_io_permitted.
Proof. apply device_bind; [apply device_gets|intros d]. destruct (0 <? d); [apply device_ret|]. by apply device_bind; [|intros _; apply device_ret]. Qed.
Lemma device_write b w : device_only (raw_block_write b w).
Proof. apply device_bind; [apply device_permitted|intros ok]. destruct (negb ok); [apply device_ret|apply device_on_disk]. Qed.
Lemma device_all_ok {A} (f : A -> SM bool) l : (forall x, device_only (f x)) -> device_only (all_ok f l).
Proof. intros Hf. induction l as [|x l IH]; [apply device_ret|]. cbn [all_ok]. apply device_bind; [done|intros ok]. by destruct ok. Qed.
Lemma device_each {A} (f : A -> SM unit) l : (forall x, device_only (f x)) -> device_only (each f l).
Proof. intros Hf. induction l as [|x l IH]; [apply device_ret|]. cbn [each]. by apply device_bind. Qed.
Ltac device :=
  repeat first
    [ apply device_ret | apply device_gets | apply device_write | apply device_on_disk | apply device_all_ok; intros ? | apply device_each; intros ?
    | match goal with |- device_only (if ?b then _ else _) => destruct b end | apply device_bind; [|intros ?] ].
(** Runs an action that uses the device only. *)
Ltac device_step r s1 H :=
  match goal with |- (mbind ?k ?m) ?s = _ -> _ =>
    let E := fresh "E" in
    assert (device_only m) as H by device; specialize (H s); destruct (m s) as [r s1] eqn:E; rewrite (bind_run _ _ _ _ _ E); cbn [snd] in H; clear E
  end.
Lemma write_out_ram s s' : journal_write_out s = (true, s') -> same_ram s s' /\ s'.(s_txn).(t_active) = false.
Proof.
  unfold journal_write_out. rewrite (bind_run _ _ s s.(s_mfs) s), (bind_run _ _ s s.(s_txn) s) by done. cbv zeta.
  device_step ok1 s1 H1. destruct ok1; [|done]. cbn [negb]. device_step ok2 s2 H2. destruct ok2; [|done]. cbn [negb].
  device_step sq s3 H3. device_step ok4 s4 H4. destruct ok4; [|done]. cbn [negb]. device_step ok5 s5 H5. destruct ok5; [|done]. cbn [negb].
  device_step u6 s6 H6. device_step ok7 s7 H7. device_step u8 s8 H8. intros [= <-]. split; [|done].
  do 8 (etransitivity; [eassumption|]). by split_and!.
Qed.

Section commit.
Context (g : geometry) (fit : fits g).
#[local] Abbreviation rg := (lay_regions g fit).
#[local] Abbreviation io := (io_at 1).
(** ** Caches with nothing left to write *)
Definition node_clean (l : merkle_line) : Prop := Merkle.used l -> l.(kl_dirty) = false.
Record clean (s : store) : Prop := { cl_meta : forall i, line_clean (ml s i); cl_nodes : forall i, node_clean (line s i) }.
Lemma meta_flush_lines l s r s' :
  (forall i, i ∈ l -> 0 <= i < 32) -> vol g s ->
  each_ok (fun i => l ← mline i; if negb (l.(ml_blk) =? META_BLK_NONE) && l.(ml_dirty) then meta_cache_flush_line io i else mret true) l s = (r, s') ->
  vol g s' /\ kept g s s' /\ (forall j, line_clean (ml s j) -> line_clean (ml s' j)) /\ (r = true -> forall i, i ∈ l -> line_clean (ml s' i)).
Proof.
  intros Hl. revert s r s'. induction l as [|i l IH]; intros s r s' Hs; cbn [each_ok].
  { intros [= <- <-]. split_and!; try done. by intros _ i ?%elem_of_nil. }
  run_step ok s1 E1. run_step rest s2 E2. intros [= <- <-].
  assert (vol g s1 /\ kept g s s1 /\ (ok = true -> line_clean (ml s1 i)) /\ (forall j, line_clean (ml s j) -> line_clean (ml s1 j))) as (Hs1 & Hk1 & Hi1 & Hj1).
  { rewrite (bind_run _ _ s (ml s i) s) in E1 by done. destruct (Z.eqb_spec (ml_blk (ml s i)) META_BLK_NONE) as [En|Hn]; cbn [negb andb] in E1.
    - injection E1 as <- <-. split_and!; try done. intros _ Hr. by destruct Hr.
    - destruct (ml_dirty (ml s i)) eqn:Ed; [|injection E1 as <- <-; split_and!; [done|done|by intros _ _|done]].
      apply (flush_line_run g rg) in E1 as (? & ? & _ & ? & ?); [by split_and!|done|apply Hl; by left]. }
  apply IH in E2 as (Hs2 & Hk2 & Hj2 & Hi2); [|intros j Hj; apply Hl; by right|done].
  split_and!; [done|by etransitivity|by auto|]. intros [-> ->]%andb_true_iff j [->|Hj]%elem_of_cons; auto.
Qed.
Lemma clean_all (f : Z -> Prop) n : (forall i, i ∈ seqZ 0 n -> f i) -> (forall i, ~ 0 <= i < n -> f i) -> forall i, f i.
Proof. intros H1 H2 i. destruct (decide (0 <= i < n)); [apply H1; apply elem_of_seqZ; lia|by apply H2]. Qed.
Lemma meta_flush_all_run s r s' :
  vol g s -> meta_cache_flush_all io s = (r, s') -> vol g s' /\ kept g s s' /\ (r = true -> forall i, line_clean (ml s' i)).
Proof.
  intros Hs E. apply meta_flush_lines in E as (Hs' & Hk & _ & Hc); [|intros i Hi%elem_of_seqZ; change META_CACHE_LINES with 32 in Hi; lia|done].
  split_and!; [done|done|]. intros Hr. apply (clean_all _ META_CACHE_LINES); [by apply Hc|]. intros i Hi. unfold line_clean, ml.
  change META_CACHE_LINES with 32 in Hi. rewrite zget_out by (rewrite (ca_len g s' (vo_cache _ _ Hs')); lia). intros H. by destruct H.
Qed.
Lemma node_flush_line_run i s r s' :
  open_txn g s -> merkle_flush_line io i s = (r, s') ->
  (r = true -> node_clean (line s' i)) /\ (forall j, node_clean (line s j) -> node_clean (line s' j)) /\ s'.(g_meta_cache) = s.(g_meta_cache).
Proof.
  intros Ho. pose proof Ho as [[Hg Hk _] _ _ _]. unfold merkle_flush_line. rewrite (bind_run _ _ s s.(s_mfs) s) by done. destruct (no_tree _); [by intros [= <- <-]|].
  rewrite (bind_run _ _ s (line s i) s) by done. assert (kline_in g (line s i)) as Hin by (unfold line; by apply Forall_zget; [left|]).
  destruct (Z.eqb_spec (kl_index (line s i)) MERKLE_IDX_NONE) as [En|Hn]; [intros [= <- <-]; split_and!; [intros _ Hu; by destruct Hu|done|done]|].
  destruct Hin as [?|Hin]; [done|]. rewrite Hg. run_step ok s1 E1.
  apply (plain_write_open g) in E1 as (Ho1 & [_ _ Hmc _] & _ & _ & _ & Hkc); [|done|by apply rg].
  assert (forall j, line s1 j = line s j) as Hl by (intros j; unfold line; by rewrite Hkc).
  destruct ok; cbn [negb]; [|intros [= <- <-]; split_and!; [done|intros j; by rewrite Hl|done]].
  rewrite (bind_run _ _ s1 (line s1 i) s1) by done. set (l := mk_kl _ _ _ false _ _). intros [= <- <-].
  assert (forall j, node_clean (line s j) -> node_clean (line (set_merkle (zset (g_merkle_cache s1) i l) (g_merkle_clock s1) s1) j)) as Hj.
  { intros j Hj. unfold line. cbn. destruct (decide (i = j)) as [<-|Hne]; [|rewrite zget_zset_ne by done; by rewrite Hkc].
    destruct (decide (0 <= i < zlen (g_merkle_cache s1))) as [Hr|Hr]; [by rewrite zget_zset_eq|]. rewrite zget_out by (rewrite zlen_zset; lia). intros Hu. by destruct Hu. }
  split_and!; [|done|done]. intros _. unfold line. cbn. destruct (decide (0 <= i < zlen (g_merkle_cache s1))) as [Hr|Hr]; [by rewrite zget_zset_eq|].
  rewrite zget_out by (rewrite zlen_zset; lia). intros Hu. by destruct Hu.
Qed.
Lemma node_flush_lines l s r s' :
  open_txn g s ->
  each_ok (fun i => l ← kline i; if negb (l.(kl_index) =? MERKLE_IDX_NONE) && l.(kl_dirty) then merkle_flush_line io i else mret true) l s = (r, s') ->
  (forall j, node_clean (line s j) -> node_clean (line s' j)) /\ (r = true -> forall i, i ∈ l -> node_clean (line s' i)).
Proof.
  revert s r s'. induction l as [|i l IH]; intros s r s' Hs; cbn [each_ok]; [intros [= <- <-]; split; [done|by intros _ i ?%elem_of_nil]|].
  run_step ok s1 E1. run_step rest s2 E2. intros [= <- <-].
  assert (open_txn g s1 /\ (ok = true -> node_clean (line s1 i)) /\ (forall j, node_clean (line s j) -> node_clean (line s1 j))) as (Hs1 & Hi1 & Hj1).
  { rewrite (bind_run _ _ s (line s i) s) in E1 by done. destruct (Z.eqb_spec (kl_index (line s i)) MERKLE_IDX_NONE) as [En|Hn]; cbn [negb andb] in E1.
    - injection E1 as <- <-. split_and!; try done. intros _ Hu. by destruct Hu.
    - destruct (kl_dirty (line s i)) eqn:Ed; [|injection E1 as <- <-; split_and!; [done|by intros _ _|done]].
      destruct (merkle_flush_line_calm g (rg_pm g rg) 0 i s Hs) as [Ho _]. rewrite E1 in Ho. split; [exact Ho|].
      by destruct (node_flush_line_run i s ok s1 Hs E1) as (? & ? & _). }
  apply IH in E2 as (Hj2 & Hi2); [|done]. split; [by auto|]. intros [-> ->]%andb_true_iff j [->|Hj]%elem_of_cons; auto.
Qed.
Lemma node_flush_all_run s r s' :
  vol g s -> zlen s.(g_merkle_cache) = MERKLE_CACHE_LINES -> merkle_flush_all io s = (r, s') ->
  vol g s' /\ kept g s s' /\ s'.(g_meta_cache) = s.(g_meta_cache) /\ (r = true -> forall i, node_clean (line s' i)).
Proof.
  intros Hs Hl E. destruct (io_at_stages g True 1 (rg_wf g rg)) as [_ HW].
  destruct (calm_kept g rg _ _ _ _ _ _ Hs (merkle_flush_all_calm g (rg_pm g rg) 0) (merkle_flush_all_stages g True (rg_wf g rg) _ HW) E) as (Hs' & Hk & Hm & _).
  split_and!; [done|done|done|]. apply node_flush_lines in E as [_ Hc]; [|apply Hs]. intros Hr. apply (clean_all _ MERKLE_CACHE_LINES); [by apply Hc|].
  intros i Hi. unfold node_clean, line. rewrite zget_out; [intros Hu; by destruct Hu|]. destruct Hk as [[(_ & _ & _ & _ & _ & _ & Hlen & _) _ _ _ _ _] _ _ _].
  unfold zlen in *. lia.
Qed.
(** ** The commit *)
Definition opened (s : store) : store := set_txn (mk_txn true false []) s.
(** A device, caches and keys that show what [s] shows, with nothing staged. *)
Lemma opened_shows s s' :
  vol g s -> same_ram s s' -> ram_ok g s' -> (forall x, home g x -> latest s'.(s_disk) x = raw s x) ->
  vol g (opened s') /\ cells g (fun _ => False) s (opened s').
Proof.
  intros Hs (Em & Ec & Ek & Eh & Ed) Hr HL. pose proof Hs as [[[Hg Hk Hm] Ha Ho Hn] Hram Hc [H1 H2] Hh]. set (v := opened s').
  assert (forall x, home g x -> raw v x = raw s x) as Hraw by (intros x Hx; by apply HL).
  assert (forall i, ml v i = ml s i) as Hml by (intros i; unfold ml; cbn; by rewrite Ec).
  destruct (same_lines_show g rg s v Hc) as [Hc' Hi]; [cbn; rewrite Ec; apply Hc|intros i _; by rewrite Hml|..].
  - intros i Hi Hri. rewrite Hml. intros Hd. rewrite Hraw by by apply (wg_meta _ (rg_wf g rg)), ml_range. symmetry. by apply Hc.
  - intros k Hk' _. apply Hraw. by apply (wg_meta _ (rg_wf g rg)).
  - split; [split|split].
    + split; [split; cbn; by rewrite ?Em, ?Ec, ?Ek|done|cbn; by rewrite Ed|constructor].
    + destruct Hr. by split.
    + done.
    + cbn. by rewrite Em.
    + cbn. by rewrite Eh.
    + change (s_mfs v) with (s_mfs s'). by rewrite Em.
    + intros x Hx _. split; [by apply Hraw, (rg_home g rg)|]. unfold entry. by rewrite Hi by by apply (user_blk g rg).
Qed.
(** What holds between operations, the device being honest; [cs] is what was committed since [h]. *)
Record steady (key : list Z) (h : contents) (cs fs : list (Z * list (Z * block))) (s : store) : Prop := {
  st_hist : hist_inv g key True h cs fs s;
  st_lines : zlen s.(g_merkle_cache) = MERKLE_CACHE_LINES
}.
Lemma steady_latest key h cs fs s : steady key h cs fs s -> s.(s_disk).(d_alive) = true -> forall x, home g x -> latest s.(s_disk) x = applied cs h x.
Proof.
  intros [[_ [(H & Hj & _)|[Hd _]]] _] Ha x [_ Hx]; [|congruence]. by apply (jdisk_latest g key _ H).
Qed.
Lemma alive_back s s' : ram_step True s s' -> s'.(s_disk).(d_alive) = true -> s.(s_disk).(d_alive) = true.
Proof. by intros [_ (_ & _ & _ & H & _)]. Qed.
Lemma commit_run key h cs fs s s' :
  vol g s -> steady key h cs fs s -> journal_commit store_io s = (true, s') -> s'.(s_disk).(d_alive) = true ->
  vol g (opened s') /\ cells g (fun _ => False) s (opened s') /\ clean s' /\ s.(s_txn).(t_overflow) = false /\ s'.(op_depth) = s.(op_depth) /\ s'.(s_txn).(t_active) = false
  /\ steady key h (cs ++ [commit_of store_io s]) fs s'.
Proof.
  intros Hs Hst E Ha'. pose proof Hst as [Hh Hl]. pose proof Hs as [Ho Hr _ _ _].
  pose proof (commit_step g key h cs fs s true s' (rg_wf g rg) (conj Hr Hh) (ot_active _ _ Ho) E) as [Hr' Hh']. cbv iota zeta in Hh'.
  assert (s.(s_txn).(t_overflow) = false /\ vol g (gathered store_io s) /\ kept g s (gathered store_io s) /\ clean (gathered store_io s)
    /\ same_ram (gathered store_io s) s' /\ s'.(s_txn).(t_active) = false) as (Hov & Hsg & Hkg & Hcg & Hram & Hact).
  { revert E. unfold journal_commit, gathered. rewrite (bind_run _ _ s s.(s_mfs) s) by done. destruct (negb _ || _); [done|].
    rewrite (bind_run _ _ s s.(s_txn) s) by done. destruct (t_overflow (s_txn s)); [done|]. run_step ok1 s1 E1. destruct ok1; [|done]. cbn [negb snd].
    apply meta_flush_all_run in E1 as (Hs1 & Hk1 & Hc1); [|done]. assert (zlen s1.(g_merkle_cache) = MERKLE_CACHE_LINES) as Hl1.
    { destruct Hk1 as [[(_ & _ & _ & _ & _ & _ & Hlen & _) _ _ _ _ _] _ _ _]. unfold zlen in *. lia. }
    run_step ok2 s2 E2. destruct ok2; [|done]. cbn [negb snd]. apply node_flush_all_run in E2 as (Hs2 & Hk2 & Hm2 & Hc2); [|done|done].
    rewrite (bind_run _ _ s2 s2.(s_txn) s2) by done. intros E3. split; [done|]. split; [done|]. split; [by etransitivity|]. split.
    - split; [|by apply Hc2]. intros i. unfold ml. rewrite Hm2. by apply Hc1.
    - destruct (t_staged (s_txn s2)); [injection E3 as <-; by split; [split_and!|]|]. by apply write_out_ram in E3. }
  pose proof Hram as (Em & Ec & Ek & _ & Ed). assert (same_vol s (gathered store_io s)) as Hv by apply Hkg.
  assert (s.(s_disk).(d_alive) = true) as Ha.
  { destruct (commit_cases g True 1 s true s' (rg_wf g rg) Hr (ot_active _ _ Ho) E) as [_ [[? _]|[(_ & _ & H)|(Hst1 & _ & Hne & Hw)]]]; [done|by eapply alive_back|].
    eapply alive_back; [exact Hst1|]. destruct (d_alive (s_disk (gathered store_io s))) eqn:Hd; [done|].
    by apply write_out_dead in Hw as [? _]; [..|apply Hsg| |]. }
  assert (steady key h (cs ++ [commit_of store_io s]) fs s') as Hst'.
  { split; [done|]. unfold zlen. rewrite Ek. by destruct Hv as [(_ & _ & _ & _ & _ & _ & -> & _) _ _ _ _ _]. }
  destruct (opened_shows (gathered store_io s) s' Hsg Hram Hr') as [Hvo Hce].
  { intros x Hx. rewrite (steady_latest key h (cs ++ [commit_of store_io s]) fs s') by done.
    rewrite applied_snoc. unfold raw. destruct (s_txn (gathered store_io s)) as [act ov stg] eqn:Et. rewrite raw_apply. unfold commit_of. cbn [snd]. rewrite Et. cbn [t_staged].
    apply apply_all_pt. rewrite (sv_disk _ _ Hv). symmetry. by apply (steady_latest key h cs fs s). }
  split; [done|]. split.
  { destruct Hce as [[? ?] Hc], (chg_cells _ _ _ _ (kept_chg g fit (fun _ => False) _ _ Hkg)) as [[? ?] Hc']. split; [split; congruence|].
    intros x Hx Hn. destruct (Hc x Hx Hn), (Hc' x Hx Hn). split; congruence. }
  split; [split; intros i; unfold ml, line; rewrite ?Ec, ?Ek; apply Hcg|]. split; [done|]. split; [rewrite Ed; apply Hv|done].
Qed.
End commit.
