(* ===== verification/Reads.v ===== *)
(** Reading outside a transaction (storage.c): when no cache line is dirty, reading is
    the same with no transaction open as with an empty one: nothing is written back,
    and nothing is staged. *)
From S2P Require Import Prelude Sha256 Aead Disk Super Store Journal Tree Staging Knot Merkle Format Files View Cells Alloc Nodes FileMap Commit.

Create HintDb tame.
(** [s'] is [s] with an empty transaction open. *)
Record twin (s s' : store) : Prop := {
  tw_txn : s.(s_txn).(t_active) = false;
  tw_open : s' = opened s;
  tw_clean : clean s;
  tw_meta : zlen s.(g_meta_cache) = 32;
  tw_nodes : zlen s.(g_merkle_cache) = 16
}.
(** [m] does the same in both, with a result in [Q]. *)
Definition tame_at {A} (s s' : store) (m : SM A) (Q : A -> Prop) : Prop := (m s).1 = (m s').1 /\ twin (m s).2 (m s').2 /\ Q (m s).1.
Definition tame {A} (m : SM A) (Q : A -> Prop) : Prop := forall s s', twin s s' -> tame_at s s' m Q.
Lemma tame_ret {A} (a : A) (Q : A -> Prop) : Q a -> tame (mret a) Q.
Proof. intros H s s' Hs. by split_and!. Qed.
Lemma tame_bind_at {A B} s s' (m : SM A) (k : A -> SM B) P Q :
  tame_at s s' m P -> (forall a, P a -> tame (k a) Q) -> tame_at s s' (m ≫= k) Q.
Proof.
  intros (H1 & H2 & H3) Hk. unfold tame_at, mbind, sm_bind. destruct (m s) as [a s1], (m s') as [a' s1']. cbn in *. subst a'. by apply Hk.
Qed.
Lemma tame_bind {A B} (m : SM A) (k : A -> SM B) P Q : tame m P -> (forall a, P a -> tame (k a) Q) -> tame (m ≫= k) Q.
Proof. intros Hm Hk s s' Hs. eapply tame_bind_at; [by apply Hm|done]. Qed.
Lemma tame_weaken {A} (m : SM A) (P Q : A -> Prop) : (forall a, P a -> Q a) -> tame m P -> tame m Q.
Proof. intros H Hm s s' Hs. destruct (Hm s s' Hs) as (? & ? & ?). split_and!; auto. Qed.
(** Reads of anything but the transaction. *)
Lemma tame_gets {A} (f : store -> A) (Q : A -> Prop) : (forall t s, f (set_txn t s) = f s) -> (forall s s', twin s s' -> Q (f s)) -> tame (gets f) Q.
Proof. intros Hf HQ s s' Hs. unfold tame_at. cbn. rewrite (tw_open _ _ Hs). unfold opened. rewrite Hf. split_and!; [done|by pose proof (tw_open _ _ Hs) as E; unfold opened in E; rewrite <- E|by eapply HQ]. Qed.
Lemma tame_gets_at {A B} (f : store -> A) (k : A -> SM B) s s' Q : f s' = f s -> tame_at s s' (k (f s)) Q -> tame_at s s' (gets f ≫= k) Q.
Proof. intros Hf H. unfold tame_at, mbind, sm_bind, gets in *. by rewrite Hf. Qed.
Lemma tame_modify f :
  (forall t s, f (set_txn t s) = set_txn t (f s)) -> (forall s, (f s).(s_txn) = s.(s_txn)) ->
  (forall s s', twin s s' -> clean (f s) /\ zlen (f s).(g_meta_cache) = 32 /\ zlen (f s).(g_merkle_cache) = 16) -> tame (modify f) any.
Proof.
  intros Hf Ht Hc s s' Hs. destruct (Hc s s' Hs) as (Hc1 & Hc2 & Hc3). pose proof Hs as [H1 -> _ _ _]. unfold tame_at. cbn. split_and!; [done| |done].
  split; [by rewrite Ht|apply Hf|done|done|done].
Qed.
Lemma tame_kline i : tame (kline i) node_clean.
Proof. apply tame_gets; [done|]. intros s s' [_ _ [_ H] _ _]. apply H. Qed.
Lemma tame_mline i : tame (mline i) line_clean.
Proof. apply tame_gets; [done|]. intros s s' [_ _ [H _] _ _]. apply H. Qed.
Lemma clean_set_node s i l c : clean s -> node_clean l -> clean (set_merkle (zset s.(g_merkle_cache) i l) c s).
Proof.
  intros [H1 H2] Hl. split; [exact H1|]. intros j. unfold line. cbn. destruct (decide (i = j)) as [<-|Hne]; [|by rewrite zget_zset_ne; [apply H2|]].
  destruct (decide (0 <= i < zlen s.(g_merkle_cache))); [by rewrite zget_zset_eq|]. rewrite zget_out by (rewrite zlen_zset; lia). intros Hu. by destruct Hu.
Qed.
Lemma clean_set_meta s i l c : clean s -> line_clean l -> clean (set_meta (zset s.(g_meta_cache) i l) c s).
Proof.
  intros [H1 H2] Hl. split; [|exact H2]. intros j. unfold ml. cbn. destruct (decide (i = j)) as [<-|Hne]; [|by rewrite zget_zset_ne; [apply H1|]].
  destruct (decide (0 <= i < zlen s.(g_meta_cache))); [by rewrite zget_zset_eq|]. rewrite zget_out by (rewrite zlen_zset; lia). intros Hu. by destruct Hu.
Qed.
Lemma tame_set_kline i l : node_clean l -> tame (set_kline i l) any.
Proof. intros Hl. apply tame_modify; [done|done|]. intros s s' [_ _ Hc ? ?]. split; [by apply clean_set_node|]. cbn. by rewrite zlen_zset. Qed.
Lemma tame_set_mline i l : line_clean l -> tame (set_mline i l) any.
Proof. intros Hl. apply tame_modify; [done|done|]. intros s s' [_ _ Hc ? ?]. split; [by apply clean_set_meta|]. cbn. by rewrite zlen_zset. Qed.
Lemma tame_count f : tame (count f) any.
Proof. apply tame_modify; [done|done|]. intros s s' [_ _ [] ? ?]. by split; [split|]. Qed.
Lemma tame_mfs : tame mfs_of any.
Proof. by apply tame_gets. Qed.
Lemma tame_tick : tame merkle_tick any.
Proof. eapply tame_bind; [apply tame_modify; [done|done|]; intros s s' [_ _ [] ? ?]; by split; [split|]|intros _ _; by apply tame_gets]. Qed.
Lemma tame_mtick : tame meta_tick any.
Proof. eapply tame_bind; [apply tame_modify; [done|done|]; intros s s' [_ _ [] ? ?]; by split; [split|]|intros _ _; by apply tame_gets]. Qed.
Lemma tame_permitted : tame storage_io_permitted any.
Proof. eapply tame_bind; [by apply (tame_gets op_depth any)|intros d _]. destruct (0 <? d); [by apply tame_ret|]. eapply tame_bind; [apply tame_count|intros _ _; by apply tame_ret]. Qed.
Lemma tame_raw_read b : tame (raw_block_read b) any.
Proof.
  eapply tame_bind; [apply tame_permitted|intros ok _]. destruct (negb ok); [by apply tame_ret|]. intros s s' [H1 -> [H3 H4] H5 H6].
  unfold tame_at, on_disk. cbn. destruct (disk_read (s_disk s) b). by split_and!.
Qed.
#[export] Hint Resolve tame_kline tame_mline tame_count tame_mfs tame_tick tame_mtick tame_permitted tame_raw_read : tame.
Ltac tame :=
  repeat (cbv beta zeta; lazymatch goal with
  | |- tame (mret _) _ => apply tame_ret; try done
  | |- tame (_ ≫= _) _ => eapply tame_bind; [solve [eauto with tame]|intros ? ?]
  | |- tame (if ?b then _ else _) _ => destruct b eqn:?
  | |- tame (match ?x with _ => _ end) _ => destruct x eqn:?
  end).
Ltac line_is_clean := first [done | match goal with H : node_clean _ |- _ => exact H | H : line_clean _ |- _ => exact H end | intros Hu; by destruct Hu].
Ltac tame_kset := eapply tame_bind; [apply tame_set_kline; line_is_clean|intros _ _].
Ltac tame_mset := eapply tame_bind; [apply tame_set_mline; line_is_clean|intros _ _].

(** ** Every reading operation *)
Section tame.
Context (io : blockio).
Hypothesis Hio : forall b, tame (io.(io_read) b) any.
#[local] Hint Resolve Hio : tame.
Lemma full_victim {A} (f : A -> bool) (d : A) (stamp : A -> Z) (c : list A) n :
  zlen c = Z.of_nat n -> (0 < n)%nat -> find_index (fun i => f (zget d c i)) 0 n = None -> f (zget d c (Z.of_nat (oldest stamp c))) = false.
Proof.
  intros Hl Hn E. unfold zlen in Hl. assert (oldest stamp c < length c)%nat by (apply oldest_lt; intros ->; cbn in Hl; lia).
  apply (find_index_None _ _ _ E). lia.
Qed.
Lemma merkle_line_for_tame l i : tame (merkle_line_for io l i) any.
Proof.
  unfold merkle_line_for. eapply tame_bind; [apply tame_mfs|intros m _]. destruct (no_tree m); [by tame|]. intros s s' Hs.
  apply tame_gets_at; [by rewrite (tw_open _ _ Hs)|]. destruct (find_index _ 0 _) as [j|].
  { revert s s' Hs. change (tame (t ← merkle_tick; l0 ← kline j; set_kline j (kl_stamped l0 t);; mret (Some j)) any). tame. tame_kset. by tame. }
  cbv zeta. set (free := find_index _ 0 _). set (v := default _ free). eapply tame_bind_at with (P := any).
  - destruct free as [x|] eqn:Ef; [by apply tame_ret|]. apply tame_gets_at; [by rewrite (tw_open _ _ Hs)|]. assert (kl_dirty (line s v) = false) as Hd.
    { pose proof Hs as [_ _ [_ Hc] _ Hl]. apply Hc. unfold Merkle.used, line, v. cbn [default]. apply Z.eqb_neq.
      apply (full_victim (fun l => kl_index l =? MERKLE_IDX_NONE) kl_none kl_stamp (g_merkle_cache s) 16); [done|lia|exact Ef]. }
    unfold line in Hd. rewrite Hd. clear Hd Ef. clearbody v. clear free. revert s s' Hs.
    change (tame (ok ← mret true; if negb ok then mret false else count (fun c => mk_stats c.(g_meta_evictions) c.(g_meta_dirty_evictions) (c.(g_merkle_evictions) + 1) c.(g_span_refusals)
                 c.(g_txn_highwater) c.(g_free_batches) c.(g_alloc_bitmap_reads) c.(g_storage_op_unheld));; mret true) any).
    eapply tame_bind; [by apply (tame_ret true any)|intros ok _]. by tame.
  - intros ok _. clearbody v. clear free. destruct (negb ok); [by tame|]. tame. tame_kset. tame; tame_kset; by tame.
Qed.
Lemma node_checked_tame m levels l i p j : tame (node_checked m levels l i p j) any.
Proof. unfold node_checked. tame. tame_kset. by tame. Qed.
#[local] Hint Resolve merkle_line_for_tame node_checked_tame : tame.
Lemma merkle_walk_tame m levels l i k p : tame (merkle_walk io m levels l i k p) any.
Proof. revert p. induction k as [|k IH]; intros p; [by tame|]. cbn [merkle_walk]. tame. apply IH. Qed.
#[local] Hint Resolve merkle_walk_tame : tame.
Lemma merkle_node_tame l i : tame (merkle_node io l i) any.
Proof. unfold merkle_node. tame. apply merkle_walk_tame. Qed.
#[local] Hint Resolve merkle_node_tame : tame.
Lemma merkle_verify_leaf_tame leaf img : tame (merkle_verify_leaf io leaf img) any.
Proof. unfold merkle_verify_leaf. by tame. Qed.
#[local] Hint Resolve merkle_verify_leaf_tame : tame.
Lemma meta_cache_get_tame k : tame (meta_cache_get io k) any.
Proof.
  unfold meta_cache_get. eapply tame_bind; [apply tame_mfs|intros m _]. destruct (no_meta m); [by tame|]. destruct (_ <=? k); [by tame|]. intros s s' Hs.
  apply tame_gets_at; [by rewrite (tw_open _ _ Hs)|]. destruct (find_index _ 0 _) as [j|].
  { revert s s' Hs. change (tame (t ← meta_tick; l ← mline j; set_mline j (mk_ml l.(ml_blk) t l.(ml_dirty) l.(ml_img));; mret (Some j)) any). tame. tame_mset. by tame. }
  cbv zeta. set (free := find_index _ 0 _). set (v := default _ free). eapply tame_bind_at with (P := any).
  - destruct free as [x|] eqn:Ef; [by apply tame_ret|]. apply tame_gets_at; [by rewrite (tw_open _ _ Hs)|]. assert (ml_dirty (ml s v) = false) as Hd.
    { pose proof Hs as [_ _ [Hc _] Hl _]. apply Hc. unfold resident, ml, v. cbn [default]. apply Z.eqb_neq.
      apply (full_victim (fun l => ml_blk l =? META_BLK_NONE) ml_none ml_stamp (g_meta_cache s) 32); [done|lia|exact Ef]. }
    unfold ml in Hd. rewrite Hd. clear Hd Ef. clearbody v. clear free. revert s s' Hs.
    change (tame (ok ← mret true; if negb ok then mret false else count (fun c => mk_stats (c.(g_meta_evictions) + 1) c.(g_meta_dirty_evictions) c.(g_merkle_evictions) c.(g_span_refusals)
                 c.(g_txn_highwater) c.(g_free_batches) c.(g_alloc_bitmap_reads) c.(g_storage_op_unheld));; mret true) any).
    eapply tame_bind; [by apply (tame_ret true any)|intros ok _]. by tame.
  - intros ok _. clearbody v. clear free. destruct (negb ok); [by tame|]. tame. tame_mset. tame; tame_mset; tame. tame_mset. by tame.
Qed.
#[local] Hint Resolve meta_cache_get_tame : tame.
Lemma derive_tame ino b : tame (storage_derive_block_keys ino b) any.
Proof. unfold storage_derive_block_keys. by tame. Qed.
#[local] Hint Resolve derive_tame : tame.
Lemma decrypt_tame phys ino b buf : tame (storage_decrypt_block io phys ino b buf) any.
Proof. unfold storage_decrypt_block. by tame. Qed.
#[local] Hint Resolve decrypt_tame : tame.
Lemma span_open_tame phys buf : tame (span_open io phys buf) any.
Proof. unfold span_open. tame. apply decrypt_tame. Qed.
#[local] Hint Resolve span_open_tame : tame.
Lemma span_leaf_tame b : tame (span_leaf b) any.
Proof. unfold span_leaf. by tame. Qed.
Lemma span_refused_tame : tame span_refused any.
Proof. unfold span_refused. by tame. Qed.
#[local] Hint Resolve span_leaf_tame span_refused_tame : tame.
Lemma do_block_read_tame b : tame (do_block_read_with io b) any.
Proof.
  unfold do_block_read_with. eapply tame_bind; [apply tame_permitted|intros ok _]. destruct (negb ok); [by tame|]. intros s s' Hs.
  pose proof Hs as [Ha Es _ _ _]. set (k := fun staged : option block =>
    r ← match staged with Some w => mret (Some w) | None => raw_block_read b end;
    match r with
    | None => mret None
    | Some buf =>
        sp ← span_leaf b;
        match sp with
        | span_no => mret (Some buf)
        | span_bad => span_refused
        | span_leaf_of leaf =>
            ok ← match staged with Some _ => mret true | None => merkle_verify_leaf io leaf buf end;
            if negb ok then span_refused else
            r ← span_open io b buf;
            if negb r.1 then span_refused else mret (Some r.2)
        end
    end).
  assert (forall s1, s1 = s \/ s1 = s' -> (t ← gets s_txn; k (if t.(t_active) then staged_at t b else None)) s1 = k None s1) as Ek.
  { intros s1 [->| ->]; [rewrite (bind_run _ _ s s.(s_txn) s) by done; by rewrite Ha|]. rewrite (bind_run _ _ s' s'.(s_txn) s') by done. by rewrite Es. }
  unfold tame_at. pose proof (Ek s (or_introl eq_refl)) as E1. pose proof (Ek s' (or_intror eq_refl)) as E2. unfold k in E1, E2 at 1. rewrite E1, E2.
  assert (tame (k None) any) as Hk; [|by apply Hk]. unfold k. tame; first [apply span_refused_tame|by tame].
Qed.
End tame.
Lemma io_tame n b : tame ((io_at n).(io_read) b) any.
Proof. revert b. induction n as [|n IH]; intros b; [by apply tame_ret|]. by apply do_block_read_tame. Qed.
Lemma block_read_tame b : tame (do_block_read b) any.
Proof. apply do_block_read_tame, io_tame. Qed.
Lemma ptr_read_tame ino id p : tame (ptr_block_read ino id p) any.
Proof.
  unfold ptr_block_read. eapply tame_bind; [apply block_read_tame|intros r _]. destruct r; [|by tame].
  eapply tame_bind; [apply decrypt_tame, io_tame|intros r _]. by tame.
Qed.
Lemma geo_tame : tame geo_of any.
Proof. by apply tame_gets. Qed.
Lemma op_tame {A} (m : SM A) : tame m any -> tame (STORAGE_OP m) any.
Proof.
  intros Hm. unfold STORAGE_OP. eapply tame_bind; [|intros _ _; eapply tame_bind; [exact Hm|intros a _; eapply tame_bind; [|intros _ _; by apply tame_ret]]];
    (apply tame_modify; [done|done|]; intros s s' [_ _ [] ? ?]; by split; [split|]).
Qed.
#[export] Hint Resolve geo_tame block_read_tame ptr_read_tame : tame.
Lemma read_inode_tame ino : tame (storage_read_inode ino) any.
Proof. apply op_tame. by tame. Qed.
Lemma node_get_tame ino id slot : tame (node_get ino id slot false) (fun r => r.2 = slot).
Proof. unfold node_get. by tame. Qed.
#[export] Hint Resolve read_inode_tame node_get_tame : tame.
(** Without allocation a slot keeps what it names, so no pointer block is rewritten. *)
Lemma walk_tame ino t base slot d index : (d < 3)%nat -> tame (walk_ptr_tree ino t base slot d index false) (fun r => r.2 = slot).
Proof.
  revert base slot index. induction d as [|d IH]; intros base slot index Hd; rewrite walk_eq by done;
    (eapply tame_bind; [apply node_get_tame|intros [blk p] Hp; cbn in Hp; subst p]); (destruct blk as [blk|]; [|by tame]); cbv zeta; (destruct (512 <=? _); [by tame|]).
  - rewrite andb_false_r. by tame.
  - eapply tame_bind; [apply IH; lia|intros [phys c] Hc; cbn in Hc; subst c]. rewrite Z.eqb_refl. by tame.
Qed.
Lemma get_physical_tame ino i b : 0 <= b -> tame (get_physical_block ino i b false) any.
Proof.
  intros Hb. rewrite get_physical_eq. destruct (seat b) as [[b'|? ? ?|t index]|] eqn:Es; [rewrite andb_false_r; by tame|by tame| |by tame].
  apply seat_leaf in Es as [Ht _]; [|done]. eapply tame_bind; [apply walk_tame; lia|intros r _; by tame].
Qed.
Lemma read_file_tame ino b : 0 <= b -> tame (storage_read_file_block ino b) any.
Proof.
  intros Hb. apply op_tame. tame. eapply tame_bind; [by apply get_physical_tame|intros p _]. tame. eapply tame_bind; [apply decrypt_tame, io_tame|intros r _]. by tame.
Qed.
