(* ===== verification/FileOps.v ===== *)
(** Writing and reading a block of a file (storage.c): what the transaction stages,
    what committing it leaves, and what reading outside a transaction returns. *)
From S2P Require Import Prelude Sha256 Aead Disk Super Store Journal Tree Staging Knot Merkle Format Files View Cells Alloc Nodes FileMap Commit Reads.

(** ** What a write stages *)
Definition write_body (ino b : Z) (buf : block) : SM bool :=
  r ← storage_read_inode ino;
  match r with
  | None => mret false
  | Some i =>
      p ← get_physical_block ino i b true;
      if p.1 =? 0 then mret false else
      _ ← storage_write_inode ino p.2;
      ptr_block_write ino b p.1 buf
  end.
Lemma write_file_eq ino b buf s :
  storage_write_file_block ino b buf s
  = STORAGE_OP (journal_begin;; ok ← write_body ino b buf; if negb ok then journal_abort;; mret false else journal_commit store_io) s.
Proof.
  unfold storage_write_file_block, write_body, ptr_block_write, STORAGE_OP, mbind, sm_bind. cbn [journal_begin modify].
  destruct (storage_read_inode _ _) as [[i|] s1]; [|done]. destruct (get_physical_block _ _ _ _ _) as [p s2]. destruct (p.1 =? 0); [done|].
  destruct (storage_write_inode _ _ _) as [ok s3]. destruct (storage_encrypt_block _ _ _ _ _ _) as [[ok1 ct] s4]. cbn [fst snd]. destruct ok1; cbn [negb]; [|done].
  destruct (do_block_write _ _ _) as [ok2 s5]. done.
Qed.
(** Whether the inode's write-back, the result of which the code drops, succeeds in the
    write that begins in this state. *)
Definition write_back (ino b : Z) (s : store) : bool :=
  ((r ← storage_read_inode ino;
   match r with
   | None => mret true
   | Some i => p ← get_physical_block ino i b true; if p.1 =? 0 then mret true else storage_write_inode ino p.2
   end) s).1.
Definition read_body (ino b : Z) : SM (option block) :=
  r ← storage_read_inode ino;
  match r with
  | None => mret None
  | Some i => p ← get_physical_block ino i b false; if p.1 =? 0 then mret None else ptr_block_read ino b p.1
  end.
Lemma read_file_eq ino b : storage_read_file_block ino b = STORAGE_OP (read_body ino b).
Proof. done. Qed.
(** The same reads, telling a hole from a block that could not be read: [None] when the
    inode, a pointer block or the data block was not read or did not open, [Some None] when
    no block is mapped. *)
Fixpoint find_node (ino t base slot : Z) (d : nat) (index : Z) : SM (option Z) :=
  if slot =? 0 then mret (Some 0) else
  r ← ptr_block_read ino (ptr_block_id t (Z.of_nat d) base) slot;
  match r with
  | None => mret None
  | Some blk =>
      let k := index / ptr_span d in
      match d with
      | O => mret (Some (ptr_get blk k))
      | S d' => find_node ino t (base + k * ptr_span d) (ptr_get blk k) d' (index mod ptr_span d)
      end
  end.
Definition find_block (ino : Z) (i : on_disk_inode) (b : Z) : SM (option Z) :=
  match seat b with
  | Some (Direct b) => mret (Some (zget 0 i.(i_direct) b))
  | Some (Leaf t index) => find_node ino t 0 (root i (Z.to_nat t)) (Z.to_nat t) index
  | _ => mret (Some 0)
  end.
Definition path_read (ino b : Z) : SM (option (option block)) :=
  r ← storage_read_inode ino;
  match r with
  | None => mret None
  | Some i =>
      p ← find_block ino i b;
      match p with
      | None => mret None
      | Some q => if q =? 0 then mret (Some None) else r ← ptr_block_read ino b q; mret (Some <$> r)
      end
  end.
Lemma walk_find ino t base slot d index s :
  (d < 3)%nat -> 0 <= index < ptr_span (S d) ->
  walk_ptr_tree ino t base slot d index false s
  = let r := find_node ino t base slot d index s in ((default 0 r.1, slot), r.2).
Proof.
  revert base slot index s. induction d as [|d IH]; intros base slot index s Hd Hi; rewrite walk_eq by done; unfold node_get; cbn [find_node].
  all: destruct (Z.eqb_spec slot 0) as [->|Hne]; cbn [negb]; [done|].
  all: unfold mbind, sm_bind; destruct (ptr_block_read _ _ _ s) as [[blk|] s1]; [|done]; cbv beta iota zeta; cbn [mret sm_ret].
  all: destruct (entry_bound _ index Hi) as [Hk Hm]; rewrite (proj2 (Z.leb_gt 512 _)) by apply Hk.
  - by rewrite andb_false_r.
  - rewrite IH by (done || lia). cbv zeta. destruct (find_node _ _ _ _ _ _ _) as [x s2]. cbn [fst snd]. by rewrite Z.eqb_refl.
Qed.
Lemma get_physical_find ino i b s :
  0 <= b -> let r := get_physical_block ino i b false s in let x := find_block ino i b s in r.1.1 = default 0 x.1 /\ r.2 = x.2.
Proof.
  intros Hb. cbv zeta. rewrite get_physical_eq. unfold find_block. destruct (seat b) as [[b'|? ? ?|t index]|] eqn:Es; [by rewrite andb_false_r|done| |done].
  apply seat_leaf in Es as [Ht Hi]; [|done]. unfold mbind, sm_bind. rewrite walk_find by (done || lia). done.
Qed.
Lemma read_body_path ino b s : 0 <= b -> read_body ino b s = let r := path_read ino b s in (mjoin r.1, r.2).
Proof.
  intros Hb. unfold read_body, path_read, mbind, sm_bind. destruct (storage_read_inode _ _) as [[i|] s1]; [|done].
  destruct (get_physical_find ino i b s1 Hb) as [H1 H2]. destruct (get_physical_block _ _ _ _ _) as [p s2], (find_block _ _ _ _) as [x s3]. cbn [fst snd] in *. subst s3.
  rewrite H1. destruct x as [q|]; [|done]. change (default 0 (Some q)) with q. destruct (q =? 0); [done|]. by destruct (ptr_block_read _ _ _ _) as [[]].
Qed.
Lemma find_node_tame ino t base slot d index : tame (find_node ino t base slot d index) any.
Proof. revert base slot index. induction d as [|d IH]; intros base slot index; cbn [find_node]; tame. apply IH. Qed.
Lemma path_read_tame ino b : tame (path_read ino b) any.
Proof.
  unfold path_read. tame. eapply tame_bind with (P := any); [|intros p _; by tame]. unfold find_block. destruct (seat b) as [[]|]; try by tame. apply find_node_tame.
Qed.
Lemma read_body_tame ino b : 0 <= b -> tame (read_body ino b) any.
Proof. intros Hb. unfold read_body. tame. eapply tame_bind; [by apply get_physical_tame|intros p _]. tame. apply ptr_read_tame. Qed.

Section ops.
Context (g : geometry) (fit : fits g) (live : Z -> Prop).
#[local] Abbreviation rg := (lay_regions g fit).
#[local] Abbreviation cells := (cells g).
#[local] Abbreviation chg := (chg g).
#[local] Abbreviation owned := (owned g live).
#[local] Abbreviation contents := (contents g).
(** Where writing to file [ino] leaves traces. *)
Definition spread (ino x : Z) : Prop := bitmaps g x \/ is_data g x \/ x = inode_block g ino.
(** Block [b] of file [ino] holds [buf], or, the inode's write-back [wb] having failed, was
    and is a hole; every other block holds what it held, and inodes change in what they
    point to only. *)
Record updated (wb : bool) (ino b : Z) (buf : block) (s s' : store) : Prop := {
  up_block : contents s' ino b = Some buf \/ wb = false /\ contents s' ino b = None /\ contents s ino b = None;
  up_others : forall ino' b', live ino' -> 0 <= b' -> (ino', b') <> (ino, b) -> contents s' ino' b' = contents s ino' b';
  up_bare : forall j, is_ino g j -> bare <$> inode_of g s' j = bare <$> inode_of g s j;
  up_cells : cells (spread ino) s s'
}.
Lemma grown_spread O ino x : grown g O ino x -> spread ino x.
Proof. intros [?|[? _]]; [by left|by right; left]. Qed.
Lemma inode_ungrown O ino j : is_ino g j -> ~ grown g O ino (inode_block g j).
Proof. intros Hj. destruct (inode_apart g fit j Hj) as [H1 H2]. by intros [?|[? _]]. Qed.
Lemma chg_overflow X s s' : chg X s s' -> s'.(s_txn).(t_overflow) = false -> s.(s_txn).(t_overflow) = false.
Proof. intros [[_ _ _ _ Ho _] _] H. destruct (t_overflow (s_txn s)); [|done]. by rewrite Ho in H. Qed.
(** The inode is written, or its block could not be read again. *)
Lemma inode_step O ino i i' s s' r :
  vol g s -> owned O s -> live ino -> inode_of g s ino = Some i -> inode_ok i' -> roots_ok O ino i' ->
  storage_write_inode ino i' s = (r, s') -> s'.(s_txn).(t_overflow) = false ->
  vol g s' /\ chg (eq (inode_block g ino)) s s' /\ owned O s' /\ inode_of g s' ino = Some (if r : bool then i' else i)
  /\ forall j, is_ino g j -> j <> ino -> inode_of g s' j = inode_of g s j.
Proof.
  intros Hs Ho Hl Ei Hok Hr E Hov. destruct (ow_inode _ _ _ _ Ho ino Hl) as [Hi _].
  apply (write_inode_run g fit) in E as (Hs' & Hc & HW); [|done|done|done]. destruct r.
  - destruct HW as [Ei' Hoth]. split_and!; [done|done|by apply (owned_inode g fit live O s s' ino i'); [..|apply chg_cells| | | |]|done|done].
  - destruct HW as [HW|HW]; [congruence|]. pose proof (chg_cells _ _ _ _ HW) as Hcc. assert (forall j, is_ino g j -> inode_of g s' j = inode_of g s j) as Hsame.
    { intros j Hj. apply (inode_of_cells g fit (fun _ => False) s s'); [done|done|by intros []]. }
    split_and!; [done|done|by apply (owned_still g fit live O s s')|by rewrite Hsame|auto].
Qed.
(** Sealing a data block disturbs no owner. *)
Lemma sealed_owned O ino o s s' q :
  owned O s -> O q = Some (ino, o) -> (forall t d base, o <> Node t d base) -> chg (eq q) s s' -> owned O s'.
Proof.
  intros Ho HOq Hon Hc. destruct (ow_data _ _ _ _ Ho _ _ HOq) as [Hqd _]. apply (owned_frame g fit live (eq q) O s s'); [done|by apply chg_cells|..].
  - intros p o' Hp. destruct (ow_data _ _ _ _ Ho _ _ Hp) as [Hpd ?]. apply (used_cells g fit (eq q) s s' p (chg_cells _ _ _ _ Hc) Hpd); [|done].
    intros ->. by apply (proj1 (data_apart g fit _ Hqd)), bm_of_bitmaps.
  - intros p ino' t d base Hp <-. rewrite HOq in Hp. injection Hp as _ E. by apply Hon in E.
  - intros ino' Hl' ->. destruct (ow_inode _ _ _ _ Ho ino' Hl') as [Hi' _]. by apply (inode_apart g fit ino' Hi').
Qed.
(** Of the blocks that are owned, a write to file [ino] reaches its pointer blocks and [q]. *)
Definition reach (O : owner) (ino q x : Z) : Prop := grown g O ino x \/ x = inode_block g ino \/ x = q.
Lemma reach_owned O s ino q x ino' o :
  owned O s -> is_ino g ino -> reach O ino q x -> O x = Some (ino', o) -> (forall t d base, (ino', o) <> (ino, Node t d base)) -> x = q.
Proof.
  intros Ho Hi Hx HO Hn. destruct (ow_data _ _ _ _ Ho _ _ HO) as [Hxd _]. destruct Hx as [[Hx|[_ [Hx|(t & d & base & Hx)]]]|[->|?]]; [..|done]; exfalso.
  - by apply (data_apart g fit x Hxd).
  - congruence.
  - rewrite Hx in HO. injection HO as <- <-. by apply (Hn t d base).
  - by apply (inode_apart g fit ino Hi).
Qed.
(** From the mapping of the block to its contents. *)
Lemma sealed_update O O' (wb : bool) ino b buf i i' i3 s s2 s3 s4 q :
  owned O s -> live ino -> 0 <= b -> inode_of g s ino = Some i -> inode_ok i -> roots_ok O ino i -> q <> 0 ->
  chg (grown g O ino) s s2 -> placed g live O O' ino b i s i' s2 q -> owned O' s3 -> chg (eq (inode_block g ino)) s2 s3 ->
  inode_of g s3 ino = Some i3 -> i3 = (if wb then i' else i) -> (forall j, is_ino g j -> j <> ino -> inode_of g s3 j = inode_of g s2 j) ->
  chg (eq q) s3 s4 -> plain g s4 ino b q = Some buf -> bare i' = bare i -> owned O' s4 /\ updated wb ino b buf s s4.
Proof.
  intros Ho Hl Hb Ei Hok Hr Hq Hc2 [Ho2 He [Hok' Hr'] (o & Es & HOq) Hat Hoth Hold] Ho3 Hc3 Ei3 Hwb Hinos Hc4 Hp4 Hbare.
  assert (i3 = i' \/ i3 = i) as Hi3 by (subst i3; destruct wb; auto).
  destruct (ow_inode _ _ _ _ Ho ino Hl) as [Hi _]. destruct (inode_apart g fit ino Hi) as [Hib Hid]. destruct (ow_data _ _ _ _ Ho2 _ _ HOq) as [Hqd _].
  assert (forall t d base, o <> Node t d base) as Hon by (intros t d base ->; by apply seat_not_node in Es).
  split; [by eapply sealed_owned|]. assert (forall j, is_ino g j -> inode_of g s4 j = inode_of g s3 j) as Hin4.
  { intros j Hj. apply (inode_of_cells g fit (eq q) s3 s4); [by apply chg_cells|done|]. intros E. by apply (proj2 (data_apart g fit _ Hqd) j Hj). }
  set (X := reach O ino q). assert (cells X s s4) as HX.
  { apply chg_cells. eapply chg_trans; [|eapply chg_trans]; (eapply chg_weaken; [|eassumption]); intros x; unfold X, reach; auto. }
  pose proof (reach_owned O s ino q) as HXO. fold X in HXO.
  (* the file itself, from the mapping on *)
  assert (roots_ok O' ino i) as Hri by by apply (roots_extend O).
  assert (roots_ok O' ino i3) as Hr3 by (by destruct Hi3 as [->| ->]).
  assert (forall j, 0 <= j -> block_at g s4 ino i3 j = block_at g s2 ino i3 j) as Hat4.
  { intros j Hj. apply (block_at_frame g fit live (fun x => x = inode_block g ino \/ x = q) O' s2 s4); [done| |done|done|].
    - apply chg_cells. eapply chg_trans; (eapply chg_weaken; [|eassumption]); intros x; auto.
    - intros x t d base [->| ->] HO; [by destruct (ow_data _ _ _ _ Ho2 _ _ HO)|]. rewrite HOq in HO. injection HO as E. by apply Hon in E. }
  split.
  - unfold FileMap.contents. rewrite Hin4, Ei3, Ei by done. cbn [mbind option_bind]. rewrite Hat4 by done.
    assert (block_at g s2 ino i3 b = Some q \/ wb = false /\ block_at g s2 ino i3 b = Some 0 /\ block_at g s ino i b = Some 0) as [->|(? & -> & ->)].
    { subst i3. destruct wb; [by left|]. destruct Hold as [<-|[? ?]]; [by left|by right]. }
    + left. cbn [mbind option_bind]. by rewrite (proj2 (Z.eqb_neq q 0)).
    + by right.
  - intros ino' b' Hl' Hb' Hne. destruct (decide (ino' = ino)) as [->|Hino].
    + unfold FileMap.contents. rewrite Hin4, Ei3, Ei by done. cbn [mbind option_bind]. rewrite Hat4 by done.
      assert (b' <> b) as Hbne by congruence. destruct (Hoth b' Hb' Hbne) as [Hj1 Hj2].
      assert (block_at g s2 ino i3 b' = block_at g s ino i b') as -> by (by destruct Hi3 as [->| ->]).
      destruct (block_at g s ino i b') as [p|] eqn:Ep; cbn [mbind option_bind]; [|done]. destruct (Z.eqb_spec p 0) as [|Hp]; [done|].
      destruct (block_at_owned g live O s ino i b' p Ho Hr Hb' Ep Hp) as (o' & Es' & HO). destruct (ow_data _ _ _ _ Ho _ _ HO) as [Hd _].
      apply (cells_plain g X s s4); [done|by apply data_user|]. intros Hx. apply (HXO p ino o' Ho Hi) in Hx as ->; [|done|intros t d base [= ->]; by apply seat_not_node in Es'].
      apply He in HO. rewrite HOq in HO. injection HO as <-. apply Hbne. by eapply seat_inj.
    + apply (contents_frame g fit live X O s s4); [done|done|done|done| |..].
      * destruct (ow_inode _ _ _ _ Ho ino' Hl') as [Hi' _]. rewrite Hin4, Hinos by done.
        apply (inode_of_cells g fit (grown g O ino) s s2); [by apply chg_cells|done|]. by apply inode_ungrown.
      * intros x t d base Hx HO. apply (HXO x ino' (Node t d base) Ho Hi) in Hx as ->; [|done|congruence]. apply He in HO. congruence.
      * intros x o' Hx _ HO. apply (HXO x ino' o' Ho Hi) in Hx as ->; [|done|congruence]. apply He in HO. congruence.
  - intros j Hj. rewrite Hin4 by done. destruct (decide (j = ino)) as [->|Hne].
    + rewrite Ei3, Ei. cbn. by destruct Hi3 as [->| ->]; [rewrite Hbare|].
    + rewrite Hinos by done. f_equal. apply (inode_of_cells g fit (grown g O ino) s s2); [by apply chg_cells|done|]. by apply inode_ungrown.
  - eapply cells_weaken, HX. intros x [?%grown_spread|[->| ->]]; [done|by right; right|by right; left].
Qed.
Lemma contents_still O s s' ino b : owned O s -> cells (fun _ => False) s s' -> live ino -> 0 <= b -> contents s' ino b = contents s ino b.
Proof.
  intros Ho Hc Hl Hb. destruct (ow_inode _ _ _ _ Ho ino Hl) as [Hi _]. apply (contents_frame g fit live (fun _ => False) O s s'); [done|done|done|done| |by intros ? ? ? ? []|by intros ? ? []].
  apply (inode_of_cells g fit (fun _ => False) s s'); [done|done|by intros []].
Qed.
Lemma inode_still s s' j : cells (fun _ => False) s s' -> is_ino g j -> inode_of g s' j = inode_of g s j.
Proof. intros Hc Hj. apply (inode_of_cells g fit (fun _ => False)); [done|done|by intros []]. Qed.
Lemma updated_after O wb ino b buf s s1 s2 :
  owned O s -> live ino -> 0 <= b -> cells (fun _ => False) s s1 -> updated wb ino b buf s1 s2 -> updated wb ino b buf s s2.
Proof.
  intros Ho Hl Hb Hc [H1 H2 H3 H4]. assert (forall i j, live i -> 0 <= j -> contents s1 i j = contents s i j) as E by (intros; by apply (contents_still O)).
  split; [by rewrite <- (E ino b)|intros; rewrite H2 by done; by apply E|intros j Hj; rewrite H3 by done; by rewrite (inode_still s s1)|].
  eapply cells_trans, H4. eapply cells_weaken, Hc. by intros x [].
Qed.
Lemma body_run O ino b buf s r s' :
  vol g s -> owned O s -> live ino -> 0 <= b -> sized buf -> write_body ino b buf s = (r, s') ->
  vol g s' /\ chg (spread ino) s s' /\ (r = true -> s'.(s_txn).(t_overflow) = false -> exists O', owned O' s' /\ updated (write_back ino b s) ino b buf s s').
Proof.
  intros Hs Ho Hl Hb Hsz. assert (forall wb, wb = write_back ino b s -> write_body ino b buf s = (r, s') -> vol g s' /\ chg (spread ino) s s'
    /\ (r = true -> s'.(s_txn).(t_overflow) = false -> exists O', owned O' s' /\ updated wb ino b buf s s')) as H; [|by apply H].
  intros wb. unfold write_body, write_back. destruct (ow_inode _ _ _ _ Ho ino Hl) as [Hi (i & Ei & Hok & Hr)].
  destruct (storage_read_inode ino s) as [ri s1] eqn:E1. rewrite !(bind_run _ _ _ _ _ E1). apply (read_inode_run g fit) in E1 as (Hs1 & Hc1 & HR); [|done|done].
  assert (forall s2, chg (spread ino) s1 s2 -> chg (spread ino) s s2) as Hall by (intros s2 H; eapply chg_trans, H; eapply chg_weaken, Hc1; by intros x []).
  destruct ri as [i1|]; [|intros _ [= <- <-]; split_and!; [done|apply Hall, chg_refl|done]].
  assert (i1 = i) as -> by (specialize (HR _ eq_refl); congruence). pose proof (chg_cells _ _ _ _ Hc1) as Hcc1.
  pose proof (owned_still g fit live O s s1 Ho Hcc1) as Ho1. destruct (get_physical_block ino i b true s1) as [[q i'] s2] eqn:E2. rewrite !(bind_run _ _ _ _ _ E2).
  pose proof (get_physical_bare _ _ _ _ _ _ _ _ E2) as Hbare. eapply place_run in E2 as (Hs2 & Hc2 & HP); [|done|done|done|done|done|done]. cbn [fst snd].
  assert (chg (spread ino) s1 s2) as Hc2' by (eapply chg_weaken, Hc2; intros x; apply grown_spread).
  destruct (Z.eqb_spec q 0) as [|Hq]; [intros _ [= <- <-]; split_and!; [done|by apply Hall|done]|]. destruct (HP Hq) as [O' HP'].
  pose proof HP' as [Ho2 He [Hok' Hr'] (o & Es & HOq) _ _ _]. destruct (ow_data _ _ _ _ Ho2 _ _ HOq) as [Hqd _].
  destruct (storage_write_inode ino i' s2) as [ok s3] eqn:E3. rewrite (bind_run _ _ _ _ _ E3). intros Ewb. cbn in Ewb. subst wb. pose proof E3 as E3'. apply (write_inode_run g fit) in E3' as (Hs3 & Hc3 & _); [|done|done|done]. intros E4.
  apply (write_sealed_run g fit) in E4 as (Hs4 & Hc4 & HW); [|done|done|done].
  split; [done|]. split.
  { apply Hall. eapply chg_trans; [exact Hc2'|eapply chg_trans; (eapply chg_weaken; [|eassumption])]; intros x <-; [by right; right|by right; left]. }  intros -> Hov. pose proof (chg_overflow _ _ _ Hc4 Hov) as Hov3.
  assert (inode_of g s1 ino = Some i) as Ei1 by (rewrite (inode_of_cells g fit (fun _ => False) s s1); [done|done|done|by intros []]).
  assert (inode_of g s2 ino = Some i) as Ei2.
  { rewrite (inode_of_cells g fit (grown g O ino) s1 s2); [done|by apply chg_cells|done|]. by apply inode_ungrown. }
  destruct (inode_step O' ino i i' s2 s3 ok) as (_ & _ & Ho3 & Hi3 & Hinos); [done|done|done|done|done|done|done|done|].
  exists O'. destruct (sealed_update O O' ok ino b buf i i' (if ok then i' else i) s1 s2 s3 s' q) as [Ho4 HU]; [done..|]. split; [done|]. by apply (updated_after O ok ino b buf s s1).
Qed.
(** ** What a read finds *)
Lemma find_node_run O ino t d base slot index s x s' :
  vol g s -> owned O s -> slot = 0 \/ O slot = Some (ino, Node t d base) -> (d < 3)%nat -> 0 <= index < ptr_span (S d) ->
  find_node ino t base slot d index s = (x, s') ->
  vol g s' /\ chg (fun _ => False) s s' /\ forall q, x = Some q -> look g s ino t base slot d index = Some q.
Proof.
  revert base slot index s x s'. induction d as [|d IH]; intros base slot index s x s' Hs Ho Hslot Hd Hi; cbn [find_node].
  all: destruct (Z.eqb_spec slot 0) as [->|Hne];
    [intros [= <- <-]; split; [done|]; split; [apply chg_refl|]; by intros q [= <-]|].
  all: destruct Hslot as [|Hslot]; [done|]; destruct (ow_data _ _ _ _ Ho _ _ Hslot) as [Hdt _]; run_step r s1 E1.
  all: apply (read_sealed_run g fit) in E1 as (Hs1 & Hk1 & HR); [|done|done]; cbv beta iota zeta.
  all: pose proof (kept_chg g fit (fun _ => False) _ _ Hk1) as Hc1; destruct r as [blk|]; [|intros [= <- <-]; by split_and!].
  all: destruct (HR _ eq_refl) as [Hb Hsz]; destruct (entry_bound _ index Hi) as [Hk Hm].
  - intros [= <- <-]. split; [done|]. split; [done|]. intros q [= <-]. by rewrite (look_node g s ino t base slot 0 index blk).
  - set (k := index / ptr_span (S d)) in *. pose proof (owned_still g fit live O s s1 Ho (chg_cells _ _ _ _ Hc1)) as Ho1. intros E2.
    assert (ptr_get blk k = 0 \/ O (ptr_get blk k) = Some (ino, Node t d (base + k * ptr_span (S d)))) as Hch.
    { destruct (ow_node _ _ _ _ Ho _ _ _ _ _ Hslot) as (blk' & Hb' & _ & Hc'). assert (blk' = blk) as -> by congruence.
      destruct (decide (ptr_get blk k = 0)); [by left|right; by apply (Hc' k)]. }
    destruct (IH (base + k * ptr_span (S d)) (ptr_get blk k) (index mod ptr_span (S d)) s1 x s' Hs1 Ho1 Hch ltac:(lia) Hm E2) as (Hs3 & Hc3 & HL).
    split; [done|]. split; [by eapply chg_trans|]. intros q Hq.
    rewrite (look_node g s ino t base slot (S d) index blk) by done. fold k. rewrite <- (HL q Hq). symmetry.
    apply (look_frame g fit live (fun _ => False) O s s1); [done|by apply chg_cells|done|done|by intros ? ? ? []].
Qed.
Lemma find_block_run O ino b i s x s' :
  vol g s -> owned O s -> roots_ok O ino i -> 0 <= b -> find_block ino i b s = (x, s') ->
  vol g s' /\ chg (fun _ => False) s s' /\ forall q, x = Some q -> block_at g s ino i b = Some q.
Proof.
  intros Hs Ho [R1 R2] Hb. unfold find_block, block_at. destruct (seat b) as [[b'|? ? ?|t index]|] eqn:Es.
  1,2,4: intros [= <- <-]; split; [done|split; [apply chg_refl|done]].
  destruct (seat_leaf _ _ _ Hb Es) as [Ht Hi]. intros E1. eapply find_node_run in E1; [done|done|done| |lia|done].
  destruct (decide (root i (Z.to_nat t) = 0)) as [|Hn]; [by left|right]. rewrite (R2 (Z.to_nat t)) by (done || lia). by rewrite Z2Nat.id by lia.
Qed.
Lemma path_run O ino b s x s' :
  vol g s -> owned O s -> live ino -> 0 <= b -> path_read ino b s = (x, s') ->
  vol g s' /\ chg (fun _ => False) s s' /\ forall c, x = Some c -> contents s ino b = c.
Proof.
  intros Hs Ho Hl Hb. destruct (ow_inode _ _ _ _ Ho ino Hl) as [Hi (i & Ei & Hok & Hr)]. unfold path_read.
  run_step ri s2 E1. apply (read_inode_run g fit) in E1 as (Hs2 & Hc2 & HR); [|done|done]. destruct ri as [i1|]; [|intros [= <- <-]; by split_and!].
  assert (i1 = i) as -> by (specialize (HR _ eq_refl); congruence).
  pose proof (owned_still g fit live O s s2 Ho (chg_cells _ _ _ _ Hc2)) as Ho2. run_step y s3 E2.
  eapply find_block_run in E2 as (Hs3 & Hc3 & HQ); [|done|done|done|done]. pose proof (chg_trans g _ _ _ _ Hc2 Hc3) as Hc.
  destruct y as [q|]; [|intros [= <- <-]; by split_and!]. specialize (HQ q eq_refl).
  assert (block_at g s3 ino i b = Some q) as HQ3.
  { rewrite (block_at_frame g fit live (fun _ => False) O s2 s3), HQ; [done|done|by apply chg_cells|done|done|by intros ? ? ? ? []]. }
  assert (contents s ino b = if q =? 0 then None else plain g s3 ino b q) as HC.
  { rewrite <- (contents_still O s s3) by (done || by apply chg_cells). unfold FileMap.contents. assert (inode_of g s3 ino = Some i) as ->.
    { rewrite (inode_of_cells g fit (fun _ => False) s s3); [done|by apply chg_cells|done|by intros []]. }
    cbn [mbind option_bind]. by rewrite HQ3. }
  destruct (Z.eqb_spec q 0) as [|Hq]; [intros [= <- <-]; split_and!; [done|done|by intros c [= <-]]|].
  destruct (block_at_owned g live O s2 ino i b q Ho2 Hr Hb HQ Hq) as (o & _ & HO). destruct (ow_data _ _ _ _ Ho2 _ _ HO) as [Hqd _].
  run_step r s4 E. apply (read_sealed_run g fit) in E as (Hs4 & Hk4 & HB); [|done|done]. intros [= <- <-].
  split; [done|]. split; [eapply chg_trans; [exact Hc|by apply kept_chg]|]. intros c Hx. destruct r as [blk|]; [|done]. injection Hx as <-. rewrite HC. by apply HB.
Qed.
Lemma read_run O ino b s r s' :
  vol g s -> owned O s -> live ino -> 0 <= b -> read_body ino b s = (r, s') ->
  vol g s' /\ chg (fun _ => False) s s' /\ forall buf, r = Some buf -> contents s ino b = Some buf.
Proof.
  intros Hs Ho Hl Hb. rewrite read_body_path by done. cbv zeta. destruct (path_read ino b s) as [x s1] eqn:E. cbn [fst snd]. intros [= <- <-].
  apply (path_run O) in E as (? & ? & HC); [|done..]. split_and!; [done|done|]. intros buf Hx. destruct x as [c|]; [|done]. cbn in Hx. subst c. by apply HC.
Qed.
(** ** The whole operation *)
(** What an operation begun in [s] sees. *)
Definition shown (s : store) : store := opened (set_depth (s.(op_depth) + 1) s).
(** The volume between two operations. *)
Record ready (key : list Z) (h : Disk.contents) (cs fs : list (Z * list (Z * block))) (O : owner) (s : store) : Prop := {
  re_idle : s.(s_txn).(t_active) = false;
  re_vol : vol g (shown s);
  re_clean : clean s;
  re_steady : steady g key h cs fs (shown s);
  re_owned : owned O (shown s)
}.
Lemma chg_step X s s' : chg X s s' -> ram_step True s s'.
Proof. intros [[(_ & _ & ? & _ & _ & ? & _ & ? & ?) ? _ _ _ _] _]. by split; [split_and!|]. Qed.
Lemma steady_chg X key h cs fs s s' : chg X s s' -> steady g key h cs fs s -> steady g key h cs fs s'.
Proof.
  intros Hc [Hh Hl]. split; [eapply ram_inv; [exact Hh|by eapply chg_step]|]. destruct Hc as [[(_ & _ & _ & _ & _ & _ & Hlen & _) _ _ _ _ _] _].
  unfold zlen in *. lia.
Qed.
Lemma updated_still O wb ino b buf s s1 s2 :
  owned O s1 -> live ino -> 0 <= b -> updated wb ino b buf s s1 -> cells (fun _ => False) s1 s2 -> updated wb ino b buf s s2.
Proof.
  intros Ho Hl Hb [H1 H2 H3 H4] Hc. assert (forall i j, live i -> 0 <= j -> contents s2 i j = contents s1 i j) as E by (intros; by eapply contents_still).
  split; [by rewrite E|intros; rewrite E by done; by apply H2|intros j Hj; rewrite (inode_still s1 s2) by done; by apply H3|].
  eapply cells_trans; [exact H4|]. eapply cells_weaken, Hc. by intros x [].
Qed.
Lemma write_file_run key h cs fs O ino b buf s s' :
  ready key h cs fs O s -> live ino -> 0 <= b -> sized buf -> storage_write_file_block ino b buf s = (true, s') -> s'.(s_disk).(d_alive) = true ->
  exists e O', ready key h (cs ++ [e]) fs O' s' /\ updated (write_back ino b (shown s)) ino b buf (shown s) (shown s').
Proof.
  intros [_ Hv _ Hst Ho] Hl Hb Hsz. rewrite write_file_eq. unfold STORAGE_OP. set (s0 := set_depth (op_depth s + 1) s).
  rewrite (bind_run _ _ s tt s0) by done. intros E Ha. revert E. run_step r s2 E2. revert E2. rewrite (bind_run _ _ s0 tt (shown s)) by done.
  run_step ok s1 E1. apply (body_run O) in E1 as (Hs1 & Hc1 & HU); [|done|done|done|done|done]. destruct ok; cbn [negb].
  2:{ intros [= <- _]. by rewrite (bind_run _ _ s2 tt (set_depth (op_depth s2 - 1) s2)) by done. }
  intros E2. rewrite (bind_run _ _ s2 tt (set_depth (op_depth s2 - 1) s2)) by done. intros [= -> <-]. cbn in Ha.
  pose proof (steady_chg _ _ _ _ _ _ _ Hc1 Hst) as Hst1. destruct (commit_run g fit key h cs fs s1 s2 Hs1 Hst1 E2 Ha) as (Hv2 & Hce & Hcl & Hov & Hd & Hact & Hst2).
  destruct (HU eq_refl Hov) as (O' & Ho1 & Hup). exists (commit_of store_io s1), O'.
  set (s' := set_depth (op_depth s2 - 1) s2). assert (shown s' = opened s2) as Es.
  { unfold shown, s'. cbn. replace (op_depth s2 - 1 + 1) with (op_depth s2) by lia. by destruct s2. }
  split; [split|].
  - done.
  - by rewrite Es.
  - destruct Hcl. by split.
  - rewrite Es. destruct Hst2 as [Hh2 Hl2]. split; [|done]. eapply ram_inv; [exact Hh2|]. by split; split_and!.
  - rewrite Es. by apply (owned_still g fit live O' s1).
  - rewrite Es. by eapply updated_still.
Qed.
(** On a strict device, writing out a transaction fails only with the power. *)
Lemma write_out_refused key h cs fs s s' :
  hist_inv g key True h cs fs s -> ram_ok g s -> s.(s_txn).(t_staged) <> [] -> journal_write_out s = (false, s') -> s'.(s_disk).(d_alive) = false.
Proof.
  intros [(Hd & Hg & Hk & Hok & Hho & Hsq) Hcase] Hrg Hne Hw.
  destruct (d_alive (s_disk s)) eqn:Hal; [|apply write_out_dead in Hw as (_ & Ed & _); [congruence|done|done|done]].
  destruct Hcase as [(H & Hj & _)|[? _]]; [|congruence]. assert (wo_ready g key True (applied cs h) H s) as Hwo.
  { unfold wo_ready. split_and!; try done. by apply commit_txn_ok; [|apply Hrg|]. }
  destruct (write_out_shape g key True (applied cs h) H _ _ _ Hwo Hw) as [_ [[? _]|(_ & _ & Hdead)]]; [done|]. by apply Hdead.
Qed.
(** A write that is refused has not changed the device, unless it lost its power. *)
Lemma write_file_refused key h cs fs O ino b buf s s' :
  ready key h cs fs O s -> live ino -> 0 <= b -> sized buf -> storage_write_file_block ino b buf s = (false, s') -> s'.(s_disk).(d_alive) = true ->
  latest s'.(s_disk) = latest s.(s_disk).
Proof.
  intros [_ Hv _ Hst Ho] Hl Hb Hsz. rewrite write_file_eq. unfold STORAGE_OP. set (s0 := set_depth (op_depth s + 1) s).
  rewrite (bind_run _ _ s tt s0) by done. intros E Ha. revert E. run_step r s2 E2. revert E2. rewrite (bind_run _ _ s0 tt (shown s)) by done.
  run_step ok s1 E1. apply (body_run O) in E1 as (Hs1 & Hc1 & _); [|done|done|done|done|done]. pose proof (steady_chg _ _ _ _ _ _ _ Hc1 Hst) as [Hh1 _].
  assert (latest (s_disk s1) = latest (s_disk s)) as <- by apply (ch_vol _ _ _ _ Hc1).
  intros E2. rewrite (bind_run _ _ s2 tt (set_depth (op_depth s2 - 1) s2)) by done. intros [= -> <-]. cbn in Ha |- *.
  assert (forall d d', quiet True d d' -> latest d' = latest d) as Hq by (intros d d' (_ & E1 & E3 & _); unfold latest; by rewrite E1, E3).
  destruct ok; cbn [negb] in E2; [|by injection E2 as <-].
  destruct (commit_cases g True 1 s1 false s2 (rg_wf g rg) (vo_ram _ _ Hs1) (ot_active _ _ (vo_open _ _ Hs1)) E2) as [_ [[_ [_ H]]|[[? _]|(Hst1 & Hrg & Hne & Hw)]]]; [by apply Hq|done|].
  apply (write_out_refused key h cs fs) in Hw; [congruence|by eapply ram_inv|done|done].
Qed.
Lemma read_file_ready key h cs fs O ino b s r s' :
  ready key h cs fs O s -> live ino -> 0 <= b -> storage_read_file_block ino b s = (r, s') ->
  ready key h cs fs O s' /\ (forall buf, r = Some buf -> contents (shown s) ino b = Some buf)
  /\ (forall ino' b', live ino' -> 0 <= b' -> contents (shown s') ino' b' = contents (shown s) ino' b').
Proof.
  intros [Hi Hv Hcl Hst Ho] Hl Hb. rewrite read_file_eq. unfold STORAGE_OP. set (s0 := set_depth (op_depth s + 1) s). rewrite (bind_run _ _ s tt s0) by done.
  run_step r1 s1 E1. rewrite (bind_run _ _ s1 tt (set_depth (op_depth s1 - 1) s1)) by done. intros [= <- <-].
  assert (twin s0 (shown s)) as Htw by (split; [done|done|by destruct Hcl; split|apply (vo_cache _ _ Hv)|apply Hst]).
  destruct (read_body_tame ino b Hb s0 (shown s) Htw) as (Er & Ht' & _). rewrite E1 in Er, Ht'. cbn [fst snd] in *.
  destruct (read_body ino b (shown s)) as [r2 s2] eqn:E2. cbn [fst snd] in *. subst r2. apply (read_run O) in E2 as (Hs2 & Hc2 & HR); [|done|done|done|done].
  set (s' := set_depth (op_depth s1 - 1) s1). assert (shown s' = s2) as Es.
  { rewrite (tw_open _ _ Ht'). unfold shown, s'. cbn. replace (op_depth s1 - 1 + 1) with (op_depth s1) by lia. by destruct s1. }
  split; [split|split; [done|]].
  - apply Ht'.
  - by rewrite Es.
  - destruct (tw_clean _ _ Ht'). by split.
  - rewrite Es. by eapply steady_chg.
  - rewrite Es. apply (owned_still g fit live O (shown s)); [done|by apply chg_cells].
  - intros ino' b' Hl' Hb'. rewrite Es. apply (contents_still O); [done|by apply chg_cells|done|done].
Qed.
End ops.
