(* ===== verification/Mortal.v ===== *)
(** A device that lost its power stays off (storage.c): no operation of the volume
    switches it on again, so a device that is alive after an operation was alive
    throughout it. *)
From S2P Require Import Prelude Sha256 Aead Disk Super Store Files.

(** Alive afterwards, alive before. *)
Class Mortal {A} (m : SM A) : Prop := mortal : forall s, (m s).2.(s_disk).(d_alive) = true -> s.(s_disk).(d_alive) = true.
#[global] Hint Mode Mortal ! ! : typeclass_instances.
Lemma alive_before {A} (m : SM A) `{!Mortal m} s r s' : m s = (r, s') -> s'.(s_disk).(d_alive) = true -> s.(s_disk).(d_alive) = true.
Proof. intros E. pose proof (mortal (m := m) s) as H. by rewrite E in H. Qed.

#[global] Instance mortal_ret {A} (a : A) : Mortal (mret a).
Proof. by intros s. Qed.
#[global] Instance mortal_bind {A B} (m : SM A) (k : A -> SM B) : Mortal m -> (forall a, Mortal (k a)) -> Mortal (m ≫= k).
Proof. intros Hm Hk s. unfold mbind, sm_bind. destruct (m s) as [a s1] eqn:E. intros H%Hk. by eapply alive_before. Qed.
#[global] Instance mortal_gets {A} (f : store -> A) : Mortal (gets f).
Proof. by intros s. Qed.
Lemma mortal_modify f : (forall s, (f s).(s_disk) = s.(s_disk)) -> Mortal (modify f).
Proof. intros H s. cbn. by rewrite H. Qed.
#[global] Hint Extern 1 (Mortal (modify _)) => apply mortal_modify; intros s0; try destruct (_ <=? _); reflexivity : typeclass_instances.
Lemma mortal_on_disk {A} (f : disk -> A * disk) : (forall d, (f d).2.(d_alive) = true -> d.(d_alive) = true) -> Mortal (on_disk f).
Proof. intros H s. unfold on_disk. specialize (H (s_disk s)). by destruct (f (s_disk s)). Qed.
(** A branch is mortal when each arm is. *)
#[global] Hint Extern 2 (Mortal (match ?x with _ => _ end)) => destruct x : typeclass_instances.
#[global] Hint Extern 3 (Mortal (let _ := _ in _)) => cbv zeta : typeclass_instances.
#[local] Typeclasses Opaque all_ok each_ok each merkle_flush_all meta_cache_flush_all seqZ.
Ltac mortal := cbv zeta; apply _.

#[global] Instance mortal_mfs : Mortal mfs_of := _.
#[global] Instance mortal_geo : Mortal geo_of := _.
#[global] Instance mortal_count f : Mortal (count f).
Proof. unfold count. mortal. Qed.
#[global] Instance mortal_upd_sb f : Mortal (upd_sb f).
Proof. unfold upd_sb. mortal. Qed.
#[global] Instance mortal_random n : Mortal (secure_random_bytes n).
Proof. by intros s. Qed.
#[global] Instance mortal_permitted : Mortal storage_io_permitted.
Proof. unfold storage_io_permitted. mortal. Qed.
#[global] Instance mortal_op {A} (m : SM A) : Mortal m -> Mortal (STORAGE_OP m).
Proof. intros H. unfold STORAGE_OP. mortal. Qed.
#[global] Instance mortal_raw_read b : Mortal (raw_block_read b).
Proof.
  unfold raw_block_read. apply mortal_bind; [mortal|]. intros [|]; [|mortal]. apply mortal_on_disk. intros d.
  unfold disk_read. destruct (d_alive d) eqn:E; [done|cbn; congruence].
Qed.
#[global] Instance mortal_raw_write b w : Mortal (raw_block_write b w).
Proof.
  unfold raw_block_write. apply mortal_bind; [mortal|]. intros [|]; [|mortal]. apply mortal_on_disk. intros d.
  unfold disk_write. destruct (d_alive d) eqn:E; [done|cbn; congruence].
Qed.
#[global] Instance mortal_flush : Mortal raw_block_flush.
Proof. apply mortal_on_disk. intros d. unfold disk_flush. destruct (d_alive d) eqn:E; [done|cbn; congruence]. Qed.
#[global] Instance mortal_all_ok {A} (f : A -> SM bool) l : (forall x, Mortal (f x)) -> Mortal (all_ok f l).
Proof. intros H. induction l; cbn [all_ok]; mortal. Qed.
#[global] Instance mortal_each_ok {A} (f : A -> SM bool) l : (forall x, Mortal (f x)) -> Mortal (each_ok f l).
Proof. intros H. induction l; cbn [each_ok]; mortal. Qed.
#[global] Instance mortal_each {A} (f : A -> SM unit) l : (forall x, Mortal (f x)) -> Mortal (each f l).
Proof. intros H. induction l; cbn [each]; mortal. Qed.

(** ** The block layer *)
#[global] Instance mortal_kline i : Mortal (kline i) := _.
#[global] Instance mortal_mline i : Mortal (mline i) := _.
#[global] Instance mortal_set_kline i l : Mortal (set_kline i l).
Proof. unfold set_kline. mortal. Qed.
#[global] Instance mortal_set_mline i l : Mortal (set_mline i l).
Proof. unfold set_mline. mortal. Qed.
#[global] Instance mortal_tick : Mortal merkle_tick.
Proof. unfold merkle_tick. mortal. Qed.
#[global] Instance mortal_mtick : Mortal meta_tick.
Proof. unfold meta_tick. mortal. Qed.
#[global] Instance mortal_begin : Mortal journal_begin.
Proof. unfold journal_begin. mortal. Qed.
#[global] Instance mortal_abort : Mortal journal_abort.
Proof. unfold journal_abort, meta_cache_drop_dirty, merkle_drop_dirty. mortal. Qed.
#[global] Instance mortal_write_out : Mortal journal_write_out.
Proof. unfold journal_write_out. mortal. Qed.
#[global] Instance mortal_stage b w : Mortal (stage_slot b w).
Proof. unfold stage_slot. mortal. Qed.
Class MortalIo (io : blockio) : Prop := {
  mortal_io_read :: forall b, Mortal (io.(io_read) b);
  mortal_io_write :: forall b w, Mortal (io.(io_write) b w)
}.
Section layer.
Context (io : blockio) `{!MortalIo io}.
#[global] Instance mortal_flush_line i : Mortal (merkle_flush_line io i).
Proof. unfold merkle_flush_line. mortal. Qed.
#[global] Instance mortal_flush_nodes : Mortal (merkle_flush_all io).
Proof. unfold merkle_flush_all. mortal. Qed.
#[global] Instance mortal_line_for l i : Mortal (merkle_line_for io l i).
Proof. unfold merkle_line_for. mortal. Qed.
#[global] Instance mortal_checked m levels l i p j : Mortal (node_checked m levels l i p j).
Proof. unfold node_checked. mortal. Qed.
#[global] Instance mortal_walk m levels l i n p : Mortal (merkle_walk io m levels l i n p).
Proof. revert p. induction n; intros p; cbn [merkle_walk]; mortal. Qed.
#[global] Instance mortal_node l i : Mortal (merkle_node io l i).
Proof. unfold merkle_node. mortal. Qed.
#[global] Instance mortal_verify leaf img : Mortal (merkle_verify_leaf io leaf img).
Proof. unfold merkle_verify_leaf. mortal. Qed.
#[global] Instance mortal_carry m levels l n idx h : Mortal (merkle_carry io m levels l n idx h).
Proof. revert l idx h. induction n; intros l idx h; cbn [merkle_carry]; mortal. Qed.
#[global] Instance mortal_update leaf img : Mortal (merkle_update_leaf io leaf img).
Proof. unfold merkle_update_leaf, superblock_block. mortal. Qed.
#[global] Instance mortal_flush_meta_line i : Mortal (meta_cache_flush_line io i).
Proof. unfold meta_cache_flush_line. mortal. Qed.
#[global] Instance mortal_flush_meta : Mortal (meta_cache_flush_all io).
Proof. unfold meta_cache_flush_all. mortal. Qed.
#[global] Instance mortal_meta_get k : Mortal (meta_cache_get io k).
Proof. unfold meta_cache_get. mortal. Qed.
#[global] Instance mortal_derive ino b : Mortal (storage_derive_block_keys ino b).
Proof. unfold storage_derive_block_keys. mortal. Qed.
#[global] Instance mortal_encrypt phys ino b buf : Mortal (storage_encrypt_block io phys ino b buf).
Proof. unfold storage_encrypt_block. mortal. Qed.
#[global] Instance mortal_decrypt phys ino b buf : Mortal (storage_decrypt_block io phys ino b buf).
Proof. unfold storage_decrypt_block. mortal. Qed.
#[global] Instance mortal_span_open phys buf : Mortal (span_open io phys buf).
Proof. unfold span_open. mortal. Qed.
#[global] Instance mortal_commit : Mortal (journal_commit io).
Proof. unfold journal_commit. mortal. Qed.
#[global] Instance mortal_read b : Mortal (do_block_read_with io b).
Proof. unfold do_block_read_with, span_leaf, span_refused. mortal. Qed.
#[global] Instance mortal_write b w : Mortal (do_block_write_with io b w).
Proof. unfold do_block_write_with, span_leaf, seal_staged, stage_block, set_overflow. mortal. Qed.
End layer.
#[global] Instance mortal_io n : MortalIo (io_at n).
Proof. induction n; cbn [io_at]; split; cbn; intros; mortal. Qed.

(** ** Files *)
#[global] Instance mortal_block_read b : Mortal (do_block_read b).
Proof. unfold do_block_read, store_io. mortal. Qed.
#[global] Instance mortal_block_write b w : Mortal (do_block_write b w).
Proof. unfold do_block_write, store_io. mortal. Qed.
#[global] Instance mortal_store_commit : Mortal (journal_commit store_io).
Proof. unfold store_io. mortal. Qed.
#[global] Instance mortal_alloc_inode_scan n bm remaining : Mortal (alloc_inode_scan n bm remaining).
Proof. revert bm remaining. induction n; intros bm remaining; cbn [alloc_inode_scan]; mortal. Qed.
#[global] Instance mortal_alloc_inode : Mortal storage_alloc_inode.
Proof. unfold storage_alloc_inode. mortal. Qed.
#[global] Instance mortal_free_inode ino : Mortal (storage_free_inode ino).
Proof. unfold storage_free_inode. mortal. Qed.
#[global] Instance mortal_read_inode ino : Mortal (storage_read_inode ino).
Proof. unfold storage_read_inode. mortal. Qed.
#[global] Instance mortal_write_inode ino i : Mortal (storage_write_inode ino i).
Proof. unfold storage_write_inode. mortal. Qed.
#[global] Instance mortal_ptr_read ino id p : Mortal (ptr_block_read ino id p).
Proof. unfold ptr_block_read, store_io. mortal. Qed.
#[global] Instance mortal_free_block b : Mortal (storage_free_block b).
Proof. unfold storage_free_block, read_block_bitmap_n, write_block_bitmap_n. mortal. Qed.
#[global] Instance mortal_free_batched b : Mortal (free_block_batched b).
Proof. unfold free_block_batched, merkle_dirty_lines. mortal. Qed.
#[global] Instance mortal_free_tree ino t base p d : Mortal (free_ptr_tree ino t base p d).
Proof. revert base p. induction d; intros base p; cbn [free_ptr_tree]; mortal. Qed.
#[global] Instance mortal_write_superblock : Mortal write_superblock.
Proof. unfold write_superblock, superblock_block. mortal. Qed.
