(* ===== verification/Inodes.v ===== *)
(** Operations on inodes between transactions (storage.c): a block of the metadata
    written in a transaction of its own, the inode table, reserving an inode, and
    giving a file's blocks back in batches. *)
From S2P Require Import Prelude Sha256 Aead Disk Super Store Journal Tree Staging Knot Merkle Format Files View Cells Alloc Nodes FileMap Commit Reads FileOps Mortal.

(** ** Fields of an inode *)
Lemma set_size_ok i v : inode_ok i -> 0 <= v < 2 ^ 64 -> inode_ok (i_set_size i v).
Proof. intros [Hw Hl Hd Hb] Hv. split; [done| |done|done]. cbn [app i_set_size] in *. apply Forall_cons in Hl as [_ Hl]. by apply Forall_cons. Qed.
Lemma set_links_ok i v : inode_ok i -> 0 <= v < 2 ^ 32 -> inode_ok (i_set_links i v).
Proof.
  intros [Hw Hl Hd Hb] Hv. split; [|done|done|done]. cbn in *. do 5 (apply Forall_cons in Hw as [? Hw]). by repeat (apply Forall_cons; split; [done|]).
Qed.
Lemma no_pointers_ok i : inode_ok i -> inode_ok (i_set_roots (i_set_direct i (replicate 12 0)) 0 0 0).
Proof.
  intros [Hw Hl Hd Hb]. split; [done| |done|done]. cbn -[replicate] in *. do 4 (apply Forall_cons in Hl as [? Hl]).
  by repeat (apply Forall_cons; split; [done|]).
Qed.

Section idle.
Context (g : geometry) (fit : fits g).
#[local] Abbreviation rg := (lay_regions g fit).
#[local] Abbreviation cells := (cells g).
#[local] Abbreviation chg := (chg g).
#[local] Abbreviation nowhere := (fun _ : Z => False).
(** Inside an operation, with no transaction open. *)
Record poised (key : list Z) (h : Disk.contents) (cs fs : list (Z * list (Z * block))) (s : store) : Prop := {
  po_idle : s.(s_txn).(t_active) = false;
  po_vol : vol g (opened s);
  po_clean : clean s;
  po_steady : steady g key h cs fs (opened s)
}.
Lemma poised_twin key h cs fs s : poised key h cs fs s -> twin s (opened s).
Proof. intros [Hi Hv Hc Hs]. split; [done|done|done|apply (vo_cache _ _ Hv)|apply Hs]. Qed.
Lemma steady_ram key h cs fs s s' : ram_step True s s' -> zlen s'.(g_merkle_cache) = zlen s.(g_merkle_cache) -> steady g key h cs fs s -> steady g key h cs fs s'.
Proof. intros Hr Hl [Hh Hn]. split; [by eapply ram_inv|by rewrite Hl]. Qed.
(** What reads inside a transaction leave alone, they leave alone outside one. *)
Lemma poised_quiet {A} (m : SM A) key h cs fs s r s' :
  poised key h cs fs s -> tame m any -> m s = (r, s') -> (forall r s', m (opened s) = (r, s') -> vol g s' /\ chg nowhere (opened s) s') ->
  m (opened s) = (r, opened s') /\ poised key h cs fs s' /\ cells nowhere (opened s) (opened s').
Proof.
  intros Hp Hm E HR. destruct (Hm _ _ (poised_twin _ _ _ _ _ Hp)) as (Er & Ht & _). rewrite E in Er, Ht. destruct (m (opened s)) as [r2 s2] eqn:E2. cbn [fst snd] in *.
  subst r2. pose proof (tw_open _ _ Ht) as ->. destruct (HR _ _ eq_refl) as [Hv Hc]. split; [done|].
  split; [|by apply chg_cells]. split; [apply Ht|done|apply Ht|]. eapply steady_chg, Hp. exact Hc.
Qed.
Lemma commit_poised key h cs fs s s' :
  vol g s -> steady g key h cs fs s -> journal_commit store_io s = (true, s') -> s'.(s_disk).(d_alive) = true ->
  exists e, poised key h (cs ++ [e]) fs s' /\ cells nowhere s (opened s') /\ s.(s_txn).(t_overflow) = false.
Proof.
  intros Hv Hst E Ha. destruct (commit_run g fit key h cs fs s s' Hv Hst E Ha) as (Hv' & Hce & Hcl & Hov & _ & Hact & Hst').
  eexists. split; [|done]. split; [done|done|done|]. apply (steady_ram _ _ _ _ s'); [by split; split_and!|done|done].
Qed.
(** A block of the metadata, written in a transaction of its own. *)
Lemma own_write_run key h cs fs b w s s' :
  poised key h cs fs s -> user g b -> g.(inode_bitmap_start) <= b < g.(data_start) -> sized w -> do_block_write b w s = (true, s') -> s'.(s_disk).(d_alive) = true ->
  exists e, poised key h (cs ++ [e]) fs s' /\ cells (eq b) (opened s) (opened s') /\ span_plain g (opened s') b = Some w.
Proof.
  intros [Hi Hv Hcl Hst] Hb Hd Hsz. pose proof (ot_depth _ _ (vo_open _ _ Hv)) as Ho. change (op_depth (opened s)) with (op_depth s) in Ho.
  assert (span_leaf b s = (span_leaf_of (g.(meta_blocks) + (b - g.(inode_bitmap_start))), s)) as Hleaf.
  { pose proof (span_leaf_run g rg (opened s) b Hv Hd) as H. unfold span_leaf in *. rewrite (bind_run _ _ s s.(s_mfs) s) by done.
    rewrite (bind_run _ _ (opened s) s.(s_mfs) (opened s)) in H by done. destruct (negb (mounted (s_mfs s))); [done|]. destruct (pm_leaf_of _ b); [|done].
    destruct (_ || _); [done|]. by injection H as ->. }
  unfold do_block_write, do_block_write_with. rewrite (bind_run _ _ _ _ _ (open_permitted s Ho)). cbn [negb].
  rewrite (bind_run _ _ _ _ _ Hleaf). rewrite (bind_run _ _ s s.(s_txn) s) by done. rewrite Hi. cbn [negb]. rewrite (bind_run _ _ s tt (opened s)) by done.
  set (leaf := meta_blocks g + _). run_step ok s1 E1. destruct ok; [|done]. cbn [negb]. intros E2 Ha.
  assert (do_block_write b w (opened s) = (true, s1)) as E.
  { unfold do_block_write, do_block_write_with. rewrite (bind_run _ _ _ _ _ (open_permitted (opened s) Ho)). cbn [negb].
    rewrite (bind_run _ _ _ _ _ (span_leaf_run g rg (opened s) b Hv Hd)). rewrite (bind_run _ _ (opened s) (mk_txn true false []) (opened s)) by done.
    cbn [negb t_active]. rewrite (bind_run _ _ (opened s) tt (opened s)) by done. fold leaf. by rewrite (bind_run _ _ _ _ _ E1). }
  apply (write_span_run g rg) in E as (Hv1 & Ho1 & HW); [|done|done|done|done]. apply others_chg in Ho1.
  destruct (commit_poised key h cs fs s1 s' Hv1) as (e & Hp & Hce & _); [by eapply steady_chg|done|done|].
  exists e. split; [done|]. split.
  - apply chg_cells in Ho1. eapply cells_trans; [exact Ho1|]. by eapply cells_weaken, Hce; intros x [].
  - rewrite <- HW. by apply (cells_span g nowhere s1); [..|intros []].
Qed.
(** Between operations. *)
Definition resting (key : list Z) (h : Disk.contents) (cs fs : list (Z * list (Z * block))) (s : store) : Prop := poised key h cs fs (set_depth (s.(op_depth) + 1) s).
(** An operation takes the lock and gives it back. *)
Lemma rest_op {A} (m : SM A) s r s' :
  STORAGE_OP m s = (r, s') -> exists s1, m (set_depth (s.(op_depth) + 1) s) = (r, s1) /\ s'.(s_disk) = s1.(s_disk) /\ shown s' = opened s1
    /\ forall key h cs fs, poised key h cs fs s1 -> resting key h cs fs s'.
Proof.
  unfold STORAGE_OP. rewrite (bind_run _ _ s tt (set_depth (op_depth s + 1) s)) by done. run_step r1 s1 E. rewrite (bind_run _ _ s1 tt (set_depth (op_depth s1 - 1) s1)) by done.
  intros [= <- <-]. exists s1. assert (set_depth (op_depth (set_depth (op_depth s1 - 1) s1) + 1) (set_depth (op_depth s1 - 1) s1) = s1) as E1.
  { cbn. replace (op_depth s1 - 1 + 1) with (op_depth s1) by lia. by destruct s1. }
  unfold resting, shown. rewrite E1. by split_and!.
Qed.
Lemma own_geo key h cs fs s : poised key h cs fs s -> geo_of s = (g, s).
Proof. intros Hp. pose proof (geo_run g (opened s) (po_vol _ _ _ _ _ Hp)) as H. unfold geo_of, gets in *. by injection H as ->. Qed.
Lemma own_read_run key h cs fs b s r s' :
  poised key h cs fs s -> user g b -> g.(inode_bitmap_start) <= b < g.(data_start) -> do_block_read b s = (r, s') ->
  poised key h cs fs s' /\ cells nowhere (opened s) (opened s') /\ forall w, r = Some w -> span_plain g (opened s) b = Some w /\ sized w.
Proof.
  intros Hp Hb Hd E. destruct (poised_quiet _ _ _ _ _ _ _ _ Hp (block_read_tame b) E) as (E1 & Hp' & Hc).
  - intros r1 s1 E1. apply (read_span_run g rg) in E1 as (? & ? & _); [|apply Hp|done|done]. split; [done|by apply kept_chg].
  - apply (read_span_run g rg) in E1 as (_ & _ & HR); [|apply Hp|done|done]. by split_and!.
Qed.
Lemma rest_read_inode key h cs fs ino s r s' :
  resting key h cs fs s -> is_ino g ino -> storage_read_inode ino s = (r, s') ->
  resting key h cs fs s' /\ cells nowhere (shown s) (shown s') /\ forall i, r = Some i -> inode_of g (shown s) ino = Some i.
Proof.
  intros Hp Hi (s1 & E & _ & Es & Hr)%rest_op. rewrite Es. revert E. unfold resting in Hp. unfold shown. set (s0 := set_depth (op_depth s + 1) s) in *.
  rewrite (bind_run _ _ _ _ _ (own_geo _ _ _ _ _ Hp)). destruct (Z.leb_spec (inode_count g) ino); [unfold is_ino in Hi; lia|]. run_step r1 s2 E1. intros [= <- <-].
  apply (own_read_run _ _ _ _ _ _ _ _ Hp (inode_block_user g fit ino Hi) (inode_block_span g fit ino Hi)) in E1 as (Hp2 & Hc2 & HR).
  split_and!; [by apply Hr|done|]. intros i Ei. destruct r1 as [buf|]; [|done]. injection Ei as <-. unfold inode_of. by rewrite (proj1 (HR _ eq_refl)).
Qed.
Lemma rest_write_inode key h cs fs ino i s s' :
  resting key h cs fs s -> is_ino g ino -> inode_ok i -> storage_write_inode ino i s = (true, s') -> s'.(s_disk).(d_alive) = true ->
  exists e, resting key h (cs ++ [e]) fs s' /\ cells (eq (inode_block g ino)) (shown s) (shown s')
    /\ inode_of g (shown s') ino = Some i /\ forall j, is_ino g j -> j <> ino -> inode_of g (shown s') j = inode_of g (shown s) j.
Proof.
  intros Hp Hi Hok (s1 & E & Ed & Es & Hr)%rest_op. rewrite Ed, Es. revert E. unfold resting in Hp. unfold shown. set (s0 := set_depth (op_depth s + 1) s) in *.
  pose proof (inode_block_user g fit ino Hi) as Hu. pose proof (inode_block_span g fit ino Hi) as Hd.
  rewrite (bind_run _ _ _ _ _ (own_geo _ _ _ _ _ Hp)). destruct (Z.leb_spec (inode_count g) ino); [done|].
  run_step r s2 E2. apply (own_read_run _ _ _ _ _ _ _ _ Hp Hu Hd) in E2 as (Hp2 & Hc2 & HR). destruct r as [buf|]; [|done]. destruct (HR _ eq_refl) as [Hs Hsz].
  intros E3 Ha. pose proof (off_bound ino). assert (sized (splice buf (inode_off ino) (inode_bytes i))) as Hsz'.
  { apply splice_sized; [done|lia|unfold zlen; rewrite length_inode_bytes by done; change BLOCK_SIZE with 4096; lia]. }
  destruct (own_write_run _ _ _ _ _ _ _ _ Hp2 Hu Hd Hsz' E3 Ha) as (e & Hp3 & Hc3 & Hs3). exists e.
  assert (cells (eq (inode_block g ino)) (opened s0) (opened s1)) as Hc by (eapply cells_trans, Hc3; eapply cells_weaken, Hc2; by intros x []).
  split; [by apply Hr|]. split; [done|]. by apply (inode_put g fit ino i buf (opened s0) (opened s1)).
Qed.
(** ** Reserving an inode *)
Definition ibm_of (ino : Z) : Z := g.(inode_bitmap_start) + ino / BITS_PER_BITMAP_BLOCK.
Definition taken (s : store) (ino : Z) : Prop :=
  exists bm, span_plain g s (ibm_of ino) = Some bm /\ bitmap_test bm (ino mod BITS_PER_BITMAP_BLOCK) = true.
#[local] Abbreviation nibm := ((g.(inode_count) + 32768 - 1) / 32768).
Lemma ibm_region k : 0 <= k < nibm -> user g (g.(inode_bitmap_start) + k) /\ g.(inode_bitmap_start) <= g.(inode_bitmap_start) + k < g.(block_bitmap_start).
Proof.
  intros Hk. destruct (lay_facts g fit) as (F1 & F2 & F3 & F4 & F5 & _). pose proof (ly_block_bitmap g (fi_layout g fit)). pose proof (ly_inodes_covered g (fi_layout g fit)) as [[_ Hc] _].
  change BITS_PER_BLOCK with 32768 in Hc. change BITS_PER_BITMAP_BLOCK with 32768 in *.
  assert (nibm < g.(inode_bitmap_blocks) + 1) by (apply Z.div_lt_upper_bound; lia). unfold user. change BITS_PER_BITMAP_BLOCK with 32768 in *. lia.
Qed.
Lemma ino_group ino : is_ino g ino -> 0 <= ino / BITS_PER_BITMAP_BLOCK < nibm.
Proof.
  intros [H1 H2]. change BITS_PER_BITMAP_BLOCK with 32768. split; [apply Z.div_pos; lia|]. apply Z.div_lt_upper_bound; [lia|]. Z.to_euclidean_division_equations. lia.
Qed.
Lemma ibm_user ino : is_ino g ino -> user g (ibm_of ino) /\ g.(inode_bitmap_start) <= ibm_of ino < g.(block_bitmap_start).
Proof. intros H%ino_group. by apply ibm_region. Qed.
Lemma ibm_apart ino : is_ino g ino -> ~ bitmaps g (ibm_of ino) /\ ~ is_data g (ibm_of ino) /\ forall j, is_ino g j -> inode_block g j <> ibm_of ino.
Proof.
  intros [_ H]%ibm_user. destruct (lay_facts g fit) as (F1 & F2 & F3 & _). split_and!; [unfold bitmaps; lia|unfold is_data; lia|]. intros j Hj. pose proof (inode_block_bound g fit j Hj). lia.
Qed.
Lemma taken_cells X s s' ino : cells X s s' -> is_ino g ino -> ~ X (ibm_of ino) -> taken s' ino <-> taken s ino.
Proof. intros Hc Hi HX. unfold taken. rewrite (cells_span g X s s') by (done || by apply ibm_user). done. Qed.
(** Setting the bit of one inode, or clearing it. *)
Lemma taken_put ino bm bm' s s' :
  is_ino g ino -> span_plain g s (ibm_of ino) = Some bm -> sized bm -> cells (eq (ibm_of ino)) s s' -> span_plain g s' (ibm_of ino) = Some bm' ->
  (forall k, 0 <= k -> k <> ino mod BITS_PER_BITMAP_BLOCK -> bitmap_test bm' k = bitmap_test bm k) ->
  forall j, is_ino g j -> j <> ino -> taken s' j <-> taken s j.
Proof.
  intros Hi Hs Hsz Hc Hs' Hb j Hj Hne. destruct (decide (ibm_of ino = ibm_of j)) as [E|]; [|by apply (taken_cells (eq (ibm_of ino)))].
  assert (j mod BITS_PER_BITMAP_BLOCK <> ino mod BITS_PER_BITMAP_BLOCK) as Hm.
  { intros Em. apply Hne. unfold ibm_of in E. change BITS_PER_BITMAP_BLOCK with 32768 in *. rewrite (Z.div_mod j 32768), (Z.div_mod ino 32768) by lia. lia. }
  unfold taken. rewrite <- E, Hs, Hs'. change BITS_PER_BITMAP_BLOCK with 32768 in *. pose proof (Z.mod_pos_bound j 32768 ltac:(lia)).
  split; intros (x & [= <-] & Ht); (eexists; split; [done|]); [rewrite <- Hb by (lia || done)|rewrite Hb by (lia || done)]; done.
Qed.
(** A table block none of whose inodes are taken may be cleared. *)
Lemma table_block_free ino j bm s :
  is_ino g ino -> is_ino g j -> span_plain g s (ibm_of ino) = Some bm -> bitmap_test bm (ino mod BITS_PER_BITMAP_BLOCK) = false ->
  inode_table_block_in_use g bm (ino / BITS_PER_BITMAP_BLOCK * BITS_PER_BITMAP_BLOCK) ino = false -> taken s j -> inode_block g j <> inode_block g ino.
Proof.
  intros Hi Hj Hs Hf Hu (bm' & Hs' & Ht) Eb. unfold inode_block in Eb. change INODES_PER_BLOCK with 16 in *. change BITS_PER_BITMAP_BLOCK with 32768 in *.
  assert (j / 16 = ino / 16) as E16 by lia. assert (j / 32768 = ino / 32768) as E.
  { change 32768 with (16 * 2048). rewrite <- !Z.div_div by lia. by rewrite E16. }
  assert (bm' = bm) as -> by (unfold ibm_of in *; change BITS_PER_BITMAP_BLOCK with 32768 in *; rewrite E in Hs'; congruence).
  assert (j <> ino) as Hne by (intros ->; congruence). enough (inode_table_block_in_use g bm (ino / 32768 * 32768) ino = true) by congruence.
  unfold inode_table_block_in_use. change INODES_PER_BLOCK with 16. apply existsb_exists. exists j. split.
  - apply list_elem_of_In, elem_of_seqZ. pose proof (Z.div_mod j 16 ltac:(lia)). pose proof (Z.mod_pos_bound j 16 ltac:(lia)). lia.
  - unfold is_ino, in_range in *. change BITS_PER_BITMAP_BLOCK with 32768. pose proof (Z.div_mod j 32768 ltac:(lia)). pose proof (Z.mod_pos_bound j 32768 ltac:(lia)).
    replace (j - ino / 32768 * 32768) with (j mod 32768) by lia. rewrite Ht. destruct (Z.eqb_spec j ino); [done|]. destruct (Z.leb_spec (inode_count g) j); [lia|]. cbn [orb negb andb].
    rewrite andb_true_r. apply andb_true_iff. split; [apply Z.leb_le; lia|apply Z.ltb_lt; lia].
Qed.
(** What reserving inode [ino] changes. *)
Record reserved (ino : Z) (s s' : store) : Prop := {
  rv_ino : is_ino g ino;
  rv_cells : cells (fun x => x = ibm_of ino \/ x = inode_block g ino) s s';
  rv_free : ~ taken s ino;
  rv_taken : taken s' ino;
  rv_others : forall j, is_ino g j -> j <> ino -> taken s' j <-> taken s j;
  rv_inodes : forall j, is_ino g j -> taken s j -> inode_of g s' j = inode_of g s j
}.
Lemma reserved_run key h cs fs bitmap bm bit s s' :
  let ino := bm * 32768 + bit in
  poised key h cs fs s -> 0 <= bm < nibm -> 0 <= bit < Z.min (g.(inode_count) - bm * 32768) 32768 ->
  span_plain g (opened s) (g.(inode_bitmap_start) + bm) = Some bitmap -> sized bitmap -> bitmap_test bitmap bit = false ->
  (ok ← (if inode_table_block_in_use g bitmap (bm * 32768) ino then mret true
         else do_block_write (g.(inode_table_start) + ino / INODES_PER_BLOCK) zero_block);
   if negb ok then mret None else
   ok ← do_block_write (g.(inode_bitmap_start) + bm) (bitmap_set bitmap bit);
   if negb ok then mret None else mret (Some ino)) s = (Some ino, s') -> s'.(s_disk).(d_alive) = true ->
  exists cs', poised key h (cs ++ cs') fs s' /\ reserved ino (opened s) (opened s').
Proof.
  intros ino Hp Hbm Hbit Hsp Hsz Hfree. assert (is_ino g ino) as Hi by (unfold is_ino, ino; lia).
  assert (ino / 32768 = bm /\ ino mod 32768 = bit) as [Ed Em] by (unfold ino; rewrite Z.add_comm, Z.div_add, Z.mod_add, Z.div_small, Z.mod_small by lia; lia).
  assert (ibm_of ino = g.(inode_bitmap_start) + bm) as Eb by (unfold ibm_of; change BITS_PER_BITMAP_BLOCK with 32768; by rewrite Ed).
  rewrite <- Eb in *. change (g.(inode_table_start) + ino / INODES_PER_BLOCK) with (inode_block g ino). run_step ok s1 E1. destruct ok; [|done]. cbn [negb].
  run_step ok2 s2 E2. destruct ok2; [|done]. intros [= <-] Ha. destruct (ibm_user ino Hi) as [Hu Hlt]. destruct (lay_facts g fit) as (F1 & F2 & F3 & _).
  assert (s1.(s_disk).(d_alive) = true -> exists cs1, poised key h (cs ++ cs1) fs s1 /\ cells (eq (inode_block g ino)) (opened s) (opened s1)
    /\ forall j, is_ino g j -> taken (opened s) j -> inode_of g (opened s1) j = inode_of g (opened s) j) as H1.
  { intros Ha1. destruct (inode_table_block_in_use _ _ _ _) eqn:Eu.
    - injection E1 as <-. exists []. rewrite app_nil_r. split_and!; [done|apply cells_refl|done].
    - destruct (own_write_run _ _ _ _ _ _ _ _ Hp (inode_block_user g fit ino Hi) (inode_block_span g fit ino Hi) zero_sized E1 Ha1) as (e & ? & Hc & _).
      exists [e]. split_and!; [done|done|]. intros j Hj Ht. apply (inode_of_cells g fit _ _ _ _ Hc Hj). apply not_eq_sym.
      apply (table_block_free ino j bitmap (opened s)); [done|done|done| | |done]; change BITS_PER_BITMAP_BLOCK with 32768; rewrite ?Ed, ?Em; done. }
  destruct (H1 (alive_before _ _ _ _ E2 Ha)) as (cs1 & Hp1 & Hc1 & Hin1). destruct (ibm_apart ino Hi) as (_ & _ & Hap).
  assert (span_plain g (opened s1) (ibm_of ino) = Some bitmap) as Hsp1 by (rewrite (cells_span g _ _ _ _ Hc1); [done|done|by apply Hap]).
  destruct (own_write_run _ _ _ _ _ _ _ _ Hp1 Hu ltac:(lia) (set_sized _ bit Hsz) E2 Ha) as (e & Hp2 & Hc2 & Hs2).
  exists (cs1 ++ [e]). rewrite app_assoc. split; [done|].
  assert (forall k, 0 <= k -> bitmap_test (bitmap_set bitmap bit) k = bool_decide (bit = k) || bitmap_test bitmap k) as Hset.
  { intros k Hk. apply bitmap_test_set; [|done]. unfold zlen. rewrite Hsz. change (Z.of_nat (Z.to_nat BLOCK_SIZE)) with 4096. lia. }
  assert (forall j, is_ino g j -> taken (opened s1) j <-> taken (opened s) j) as Ht1.
  { intros j Hj. apply (taken_cells _ _ _ _ Hc1 Hj). destruct (ibm_apart j Hj) as (_ & _ & H). by apply H. }
  split; [done|..].
  - eapply cells_trans; [eapply cells_weaken, Hc1|eapply cells_weaken, Hc2]; intros x <-; auto.
  - intros (bm' & E & Ht). change BITS_PER_BITMAP_BLOCK with 32768 in Ht. rewrite Em in Ht. congruence.
  - exists (bitmap_set bitmap bit). split; [done|]. change BITS_PER_BITMAP_BLOCK with 32768. rewrite Em, Hset by lia. by rewrite bool_decide_true.
  - intros j Hj Hne. rewrite <- Ht1 by done. apply (taken_put ino bitmap (bitmap_set bitmap bit) (opened s1)); [done|done|done|done|done| |done|done].
    change BITS_PER_BITMAP_BLOCK with 32768. rewrite Em. intros k Hk Hkn. rewrite Hset by done. by rewrite bool_decide_false.
  - intros j Hj Ht. rewrite <- Hin1 by done. apply (inode_of_cells g fit _ _ _ _ Hc2 Hj). apply not_eq_sym. by apply Hap.
Qed.
Lemma reserved_still ino s s1 s' : cells nowhere s s1 -> reserved ino s1 s' -> reserved ino s s'.
Proof.
  intros Hc [Hi Hce Hf Ht Ho Hn]. assert (forall j, is_ino g j -> taken s1 j <-> taken s j) as E by (intros; apply (taken_cells nowhere); [done|done|by intros []]).
  split; [done|eapply cells_trans, Hce; eapply cells_weaken, Hc; by intros x []|by rewrite <- E|done|..].
  - intros j Hj Hne. by rewrite Ho, E.
  - intros j Hj Hj'. rewrite Hn by (done || by apply E). apply (inode_of_cells g fit nowhere); [done|done|by intros []].
Qed.
Lemma alloc_inode_scan_run key h cs fs n bm s ino s' :
  poised key h cs fs s -> 0 <= bm -> bm + Z.of_nat n = nibm -> alloc_inode_scan n bm (g.(inode_count) - bm * 32768) s = (Some ino, s') -> s'.(s_disk).(d_alive) = true ->
  exists cs', poised key h (cs ++ cs') fs s' /\ reserved ino (opened s) (opened s').
Proof.
  revert bm s. induction n as [|n IH]; intros bm s Hp Hbm Hn; [done|]. cbn [alloc_inode_scan]. rewrite (bind_run _ _ _ _ _ (own_geo _ _ _ _ _ Hp)). cbv zeta.
  change BITS_PER_BITMAP_BLOCK with 32768. destruct (ibm_region bm ltac:(lia)) as [Hu Hlt]. destruct (lay_facts g fit) as (F1 & F2 & F3 & _).
  run_step r s1 E1. apply (own_read_run _ _ _ _ _ _ _ _ Hp Hu ltac:(lia)) in E1 as (Hp1 & Hc1 & HR). destruct r as [bitmap|]; [|done].
  destruct (HR _ eq_refl) as [Hsp Hsz]. destruct (bitmap_find_free _ _) as [bit|] eqn:Ef.
  - apply find_free_spec in Ef as [Hbit Hfree]. intros E Ha. assert (ino = bm * 32768 + bit) as ->.
    { revert E. run_step ok s2 E2. destruct ok; [|done]. cbn [negb]. run_step ok s3 E3. destruct ok; [|done]. by intros [= <-]. }
    rewrite <- (cells_span g nowhere _ (opened s1)) in Hsp by (done || by intros []). destruct (reserved_run key h cs fs bitmap bm bit s1 s' Hp1 ltac:(lia) Hbit Hsp Hsz Hfree E Ha) as (cs' & ? & ?).
    exists cs'. split; [done|by eapply reserved_still].
  - intros E Ha. destruct (Z.min_spec (g.(inode_count) - bm * 32768) 32768) as [[Hlt' Em]|[Hge Em]]; rewrite Em in E.
    + destruct n; [done|]. exfalso. assert (nibm < bm + 2); [|lia]. apply Z.div_lt_upper_bound; lia.
    + replace (g.(inode_count) - bm * 32768 - 32768) with (g.(inode_count) - (bm + 1) * 32768) in E by lia.
      destruct (IH (bm + 1) s1 Hp1 ltac:(lia) ltac:(lia) E Ha) as (cs' & ? & ?). exists cs'. split; [done|by eapply reserved_still].
Qed.
Lemma alloc_inode_run key h cs fs s ino s' :
  resting key h cs fs s -> storage_alloc_inode s = (Some ino, s') -> s'.(s_disk).(d_alive) = true ->
  exists cs', resting key h (cs ++ cs') fs s' /\ reserved ino (shown s) (shown s').
Proof.
  intros Hp (s1 & E & Ed & Es & Hr)%rest_op. rewrite Ed, Es. intros Ha. revert E. unfold resting in Hp. unfold shown. set (s0 := set_depth (op_depth s + 1) s) in *.
  rewrite (bind_run _ _ _ _ _ (own_geo _ _ _ _ _ Hp)). change BITS_PER_BITMAP_BLOCK with 32768. intros E.
  replace (alloc_inode_scan _ _ _) with (alloc_inode_scan (Z.to_nat nibm) 0 (g.(inode_count) - 0 * 32768)) in E by (by rewrite Z.sub_0_r).
  apply (alloc_inode_scan_run _ _ _ _ _ _ _ _ _ Hp (Z.le_refl 0)) in E as (cs' & Hp1 & Hres);
    [|destruct (lay_facts g fit) as (_ & _ & _ & _ & _ & _ & F & _); rewrite Z2Nat.id by (apply Z.div_pos; lia); lia|done].
  exists cs'. split; [by apply Hr|done].
Qed.
End idle.
