(* ===== verification/Freeing.v ===== *)
(** Giving a file back (storage.c): its blocks are freed in as many transactions as the
    journal needs, from the pointer trees down, and then its inode; whatever belongs to
    another file keeps its place and its contents. *)
From S2P Require Import Prelude Sha256 Aead Disk Super Store Journal Tree Staging Knot Merkle Format Files View Cells Alloc Nodes FileMap Commit Reads FileOps Mortal Inodes.

Section freeing.
Context (g : geometry) (fit : fits g).
#[local] Abbreviation rg := (lay_regions g fit).
#[local] Abbreviation cells := (cells g).
#[local] Abbreviation chg := (chg g).
#[local] Abbreviation used := (Alloc.used g).
#[local] Abbreviation is_data := (is_data g).
#[local] Abbreviation nowhere := (fun _ : Z => False).
(** ** One block *)
Lemma used_clear p q bm s s' :
  is_data p -> is_data q -> q <> p -> span_plain g s (bm_of g p) = Some bm -> sized bm -> cells (eq (bm_of g p)) s s' ->
  span_plain g s' (bm_of g p) = Some (bitmap_clear bm (bit_of g p)) -> used s' q <-> used s q.
Proof.
  intros Hp Hq Hne Hs Hsz Hc Hs'. destruct (decide (bm_of g p = bm_of g q)) as [Eb|Hb]; [|by apply (used_cells g fit (eq (bm_of g p)) s s' q Hc)].
  unfold Alloc.used. rewrite <- Eb, Hs, Hs'. change BITS_PER_BITMAP_BLOCK with 32768 in *.
  assert (0 <= bit_of g p < 8 * zlen bm /\ 0 <= bit_of g q) as [Hbp Hbq].
  { unfold bit_of, zlen. rewrite Hsz. change (Z.of_nat (Z.to_nat BLOCK_SIZE)) with 4096. change BITS_PER_BITMAP_BLOCK with 32768. by split; apply Z.mod_pos_bound. }
  assert (bit_of g p <> bit_of g q) as Hbit by (intros Ebit; apply Hne; symmetry; by apply (same_bit g)).
  assert (bitmap_test (bitmap_clear bm (bit_of g p)) (bit_of g q) = bitmap_test bm (bit_of g q)) as Ht by (rewrite bitmap_test_clear by done; by rewrite bool_decide_false).
  split; intros (x & [= <-] & Hx); (eexists; split; [done|]); congruence.
Qed.
Lemma free_block_run p s u s' :
  vol g s -> is_data p -> storage_free_block p s = (u, s') ->
  vol g s' /\ chg (bitmaps g) s s' /\ (s'.(s_txn).(t_overflow) = false -> forall q, is_data q -> q <> p -> used s' q <-> used s q).
Proof.
  intros Hs Hp E. apply (op_run g) in E as (s1 & E & -> & Hs0 & Hop); [|done]. set (s0 := set_depth (op_depth s + 1) s) in *. revert E.
  rewrite (bind_run _ _ _ _ _ (geo_run g s0 Hs0)). cbv zeta. destruct (bm_of_span g fit p Hp) as (Hu & Hlt & Hge). destruct (lay_facts g fit) as (F1 & F2 & F3 & F4 & F5 & _).
  assert (u64 (p - g.(data_start)) = p - g.(data_start)) as -> by (apply (u64_small g fit); unfold Alloc.is_data in Hp; lia).
  change (_ / BITS_PER_BITMAP_BLOCK) with ((p - g.(data_start)) / BITS_PER_BITMAP_BLOCK). set (k := (p - data_start g) / BITS_PER_BITMAP_BLOCK).
  assert (0 <= k < g.(inode_table_start) - g.(block_bitmap_start)) as Hk by (unfold bm_of in *; fold k in Hlt, Hge; lia). change (block_bitmap_start g + k) with (bm_of g p).
  run_step r s2 E2. apply (read_bitmap_run g fit) in E2 as (Hs2 & Hk2 & HR); [|done|done]. pose proof (kept_chg g fit nowhere _ _ Hk2) as Hc2. destruct r as [bm|].
  - destruct (HR _ eq_refl) as [Hsp Hsz]. run_step ok s3 E3. intros [= _ <-]. apply (write_bitmap_run g fit) in E3 as (Hs3 & Ho3 & HW); [|done|done|by apply clear_sized].
    apply others_chg in Ho3. change (block_bitmap_start g + k) with (bm_of g p) in *. destruct (Hop (bitmaps g) Hs3) as [Hs' Hc'].
    { eapply chg_trans; eapply chg_weaken; [|exact Hc2| |exact Ho3]; [by intros x []|intros x <-; by apply bm_of_bitmaps]. }
    split; [done|]. split; [done|]. intros Hov q Hq Hne. destruct ok; [|cbn in Hov; congruence]. change (used (set_depth (op_depth s3 - 1) s3) q) with (used s3 q).
    change (used s q) with (used s0 q). assert (used s2 q <-> used s0 q) as <- by (apply (used_cells g fit nowhere s0 s2 q (chg_cells _ _ _ _ Hc2) Hq); by intros []).
    apply (used_clear p q bm s2 s3); [done|done|done| |done|by apply chg_cells|done]. by rewrite (chg_span g nowhere s0 s2) by (done || by intros []).
  - intros [= _ <-]. destruct (Hop nowhere Hs2 Hc2) as [Hs' Hc']. split; [done|]. split; [eapply chg_weaken, Hc'; by intros x []|]. intros _ q Hq _.
    apply (used_cells g fit nowhere s _ q (chg_cells _ _ _ _ Hc') Hq). by intros [].
Qed.
(** ** Batches *)
(** The pointer blocks of [O] are what [O] says. *)
Record named (O : owner) (s : store) : Prop := {
  nm_data : forall p o, O p = Some o -> is_data p;
  nm_node : forall p ino t d base, O p = Some (ino, Node t d base) -> node_ok g O s p ino t d base
}.
(** Only bits of the bitmap changed, and none of a block outside [P]. *)
Record shrunk (P : Z -> Prop) (s s' : store) : Prop := {
  sh_cells : cells (bitmaps g) s s';
  sh_used : forall q, is_data q -> ~ P q -> used s' q <-> used s q
}.
#[global] Instance shrunk_pre P : PreOrder (shrunk P).
Proof.
  split; [intros s; split; [apply cells_refl|done]|]. intros a b c [? H1] [? H2]. split; [by eapply cells_trans|]. intros q Hq Hn. by rewrite H2, H1.
Qed.
Lemma shrunk_still P s s' : cells nowhere s s' -> shrunk P s s'.
Proof. intros Hc. split; [eapply cells_weaken, Hc; by intros x []|]. intros q Hq _. apply (used_cells g fit nowhere); [done|done|by intros []]. Qed.
Lemma named_shrunk O P s s' : shrunk P s s' -> named O s -> named O s'.
Proof.
  intros [Hc _] [H1 H2]. split; [done|]. intros p ino t d base Hp. destruct (H2 _ _ _ _ _ Hp) as (blk & Hb & ?). exists blk. split; [|done].
  pose proof (H1 _ _ Hp) as Hd. rewrite (cells_plain g (bitmaps g) s s'); [done|done|by apply data_user|by apply data_apart].
Qed.
(** [m] succeeds by freeing blocks in [P] only, committing as often as it likes. *)
Definition frees (O : owner) (P : Z -> Prop) (m : SM bool) : Prop :=
  forall key h cs fs s s', vol g s -> steady g key h cs fs s -> named O s -> m s = (true, s') -> s'.(s_disk).(d_alive) = true ->
    exists cs', vol g s' /\ steady g key h (cs ++ cs') fs s' /\ shrunk P s s'.
Lemma frees_true O P : frees O P (mret true).
Proof. intros key h cs fs s s' Hv Hs _ [= <-] _. exists []. by rewrite app_nil_r. Qed.
Lemma frees_then O P (m k : SM bool) : frees O P m -> frees O P k -> Mortal k -> frees O P (ok ← m; if negb ok then mret false else k).
Proof.
  intros Hm Hk Hmk key h cs fs s s' Hv Hs Hn. run_step ok s1 E1. destruct ok; [|done]. cbn [negb]. intros E2 Ha.
  destruct (Hm _ _ _ _ _ _ Hv Hs Hn E1 (alive_before k _ _ _ E2 Ha)) as (cs1 & Hv1 & Hs1 & Hsh1).
  destruct (Hk _ _ _ _ _ _ Hv1 Hs1 (named_shrunk _ _ _ _ Hsh1 Hn) E2 Ha) as (cs2 & Hv2 & Hs2 & Hsh2). exists (cs1 ++ cs2). rewrite app_assoc.
  split_and!; [done|done|by etransitivity].
Qed.
Lemma frees_all_ok {A} O P (f : A -> SM bool) l : (forall x, x ∈ l -> frees O P (f x)) -> (forall x, Mortal (f x)) -> frees O P (all_ok f l).
Proof.
  intros Hf Hm. induction l as [|x l IH]; [apply frees_true|]. cbn [all_ok]. intros key h cs fs s s' Hv Hs Hn E. eapply (frees_then O P (f x) (all_ok f l)); [apply Hf; left|apply IH; intros; apply Hf; by right|mortal|done|done|done|].
  revert E. unfold mbind, sm_bind. destruct (f x s) as [[] s1]; done.
Qed.
Lemma batched_frees O P p : is_data p -> P p -> frees O P (free_block_batched p).
Proof.
  intros Hp HP key h cs fs s s' Hv Hs _. unfold free_block_batched. rewrite (bind_run _ _ s s.(s_txn) s) by done. unfold merkle_dirty_lines.
  match goal with |- (mbind _ (gets ?f)) s = _ -> _ => rewrite (bind_run _ _ s (f s) s) by done end. run_step ok s1 E1. destruct ok; [|done]. cbn [negb].
  run_step u s2 E2. rewrite (bind_run _ _ s2 s2.(s_txn) s2) by done. intros [= Hov <-] Ha. apply negb_true_iff in Hov. pose proof (alive_before _ _ _ _ E2 Ha) as Ha1.
  assert (exists cs', vol g s1 /\ steady g key h (cs ++ cs') fs s1 /\ shrunk P s s1) as (cs' & Hv1 & Hs1 & Hsh1).
  { destruct (_ <? _); [|injection E1 as <-; exists []; by rewrite app_nil_r]. revert E1.
    match goal with |- mbind _ (count ?f) s = _ -> _ => destruct (count_kept g f s Hv) as (s3 & E & Hv3 & Hk3 & _) end. rewrite (bind_run _ _ _ _ _ E). apply (kept_chg g fit nowhere) in Hk3.
    run_step ok s4 E4. destruct ok; [|done]. cbn [negb]. rewrite (bind_run _ _ s4 tt (opened s4)) by done. intros [= <-].
    destruct (commit_poised g fit key h cs fs s3 s4 Hv3) as (e & [_ ? _ ?] & Hc & _); [by eapply steady_chg|done|done|]. exists [e]. split_and!; [done|done|].
    apply shrunk_still. eapply cells_trans, Hc. by apply chg_cells. }
  apply free_block_run in E2 as (Hv2 & Hc2 & HU); [|done|done]. exists cs'. split_and!; [done|by eapply steady_chg|].
  etransitivity; [exact Hsh1|]. split; [by apply chg_cells|]. intros q Hq Hn. apply HU; [done|done|]. by intros ->.
Qed.
(** ** Pointer trees *)
Definition mine (O : owner) (ino q : Z) : Prop := exists o, O q = Some (ino, o).
Lemma tree_frees O ino t d base slot :
  (d < 3)%nat -> slot = 0 \/ O slot = Some (ino, Node t d base) -> frees O (mine O ino) (free_ptr_tree ino t base slot d).
Proof.
  revert base slot. induction d as [|d IH]; intros base slot Hd Hslot; cbn [free_ptr_tree].
  all: destruct (Z.eqb_spec slot 0) as [|Hne]; cbn [orb]; [apply frees_true|]; destruct Hslot as [|Hslot]; [done|].
  all: rewrite (proj2 (Nat.leb_gt FSCK_MAX_DEPTH _)) by (unfold FSCK_MAX_DEPTH; lia); intros key h cs fs s s' Hv Hs Hn; run_step r s1 E1.
  all: apply (read_sealed_run g fit) in E1 as (Hv1 & Hk1 & HR); [|done|by eapply nm_data]; apply (kept_chg g fit nowhere) in Hk1.
  all: assert (shrunk (mine O ino) s s1) as Hsh1 by by apply shrunk_still, chg_cells.
  all: pose proof (named_shrunk _ _ _ _ Hsh1 Hn) as Hn1; intros E Ha.
  all: match type of E with (mbind ?k ?m) _ = _ => assert (frees O (mine O ino) (mbind k m)) as HF end.
  1,3: apply frees_then; [|apply batched_frees; [by eapply nm_data|by eexists]|mortal]; destruct r as [blk|]; [|apply frees_true].
  1,2: destruct (HR _ eq_refl) as [Hb _]; destruct (nm_node _ _ Hn _ _ _ _ _ Hslot) as (blk' & Hb' & _ & Hch); assert (blk' = blk) as -> by congruence.
  1,2: apply frees_all_ok; [|mortal]; intros k Hk%elem_of_seqZ; change (0 + PTRS_PER_BLOCK) with 512 in Hk; destruct (Z.eqb_spec (ptr_get blk k) 0) as [|Hp]; [apply frees_true|].
  - apply batched_frees; [by eapply nm_data, Hch|eexists; by apply Hch].
  - apply IH; [lia|right; by apply Hch].
  - destruct (HF _ _ _ _ _ _ Hv1 (steady_chg g _ _ _ _ _ _ _ Hk1 Hs) Hn1 E Ha) as (cs' & ? & ? & ?). exists cs'. split_and!; [done|done|by etransitivity].
  - destruct (HF _ _ _ _ _ _ Hv1 (steady_chg g _ _ _ _ _ _ _ Hk1 Hs) Hn1 E Ha) as (cs' & ? & ? & ?). exists cs'. split_and!; [done|done|by etransitivity].
Qed.
(** All the blocks an inode points to. *)
Definition free_pointers (ino : Z) (i : on_disk_inode) : SM bool :=
  ok ← all_ok (fun p => if p =? 0 then mret true else free_block_batched p) i.(i_direct);
  (if ok : bool then
     all_ok (fun lp : nat * Z => if lp.2 =? 0 then mret true else free_ptr_tree ino (Z.of_nat lp.1) 0 lp.2 lp.1)
       [(0%nat, i.(i_indirect)); (1%nat, i.(i_double_indirect)); (2%nat, i.(i_triple_indirect))]
   else mret false).
Lemma pointers_free O ino i : inode_ok i -> roots_ok O ino i -> (forall p o, O p = Some o -> is_data p) -> frees O (mine O ino) (free_pointers ino i).
Proof.
  intros Hok [R1 R2] Hd key h cs fs s s' Hv Hs Hn E.
  apply (frees_then O (mine O ino) (all_ok (fun p => if p =? 0 then mret true else free_block_batched p) i.(i_direct))
    (all_ok (fun lp : nat * Z => if lp.2 =? 0 then mret true else free_ptr_tree ino (Z.of_nat lp.1) 0 lp.2 lp.1)
       [(0%nat, i.(i_indirect)); (1%nat, i.(i_double_indirect)); (2%nat, i.(i_triple_indirect))])); try done.
  - apply frees_all_ok; [|mortal]. intros p [k Hk]%list_elem_of_lookup. destruct (Z.eqb_spec p 0) as [|Hp]; [apply frees_true|].
    assert (zget 0 i.(i_direct) (Z.of_nat k) = p) as Ek by (rewrite zget_lookup, Nat2Z.id, Hk by lia; done). pose proof (lookup_lt_Some _ _ _ Hk) as Hlt. rewrite (in_direct _ Hok) in Hlt.
    assert (O p = Some (ino, Direct (Z.of_nat k))) as HO by (rewrite <- Ek; apply R1; [lia|by rewrite Ek]). apply batched_frees; [by eapply Hd|by eexists].
  - apply frees_all_ok; [|mortal]. intros [t p] Ht. cbn [fst snd]. destruct (Z.eqb_spec p 0) as [|Hp]; [apply frees_true|].
    assert ((t < 3)%nat /\ root i t = p) as [Hlt Er] by (apply elem_of_cons in Ht as [[= -> ->]|[[= -> ->]|[[= -> ->]|[]%elem_of_nil]%elem_of_cons]%elem_of_cons]; (split; [lia|done])).
    apply tree_frees; [done|right]. rewrite <- Er. apply R2; [done|by rewrite Er].
  - mortal.
  - revert E. unfold free_pointers, mbind, sm_bind. destruct (all_ok _ (i_direct i) s) as [[] s1]; done.
Qed.
(** ** The inode and the superblock *)
Lemma sb_flag_run n s u s' : vol g s -> upd_sb (set_needs_fsck n) s = (u, s') -> vol g s' /\ chg nowhere s s'.
Proof.
  intros Hs E. assert (calm g (hidden g) (upd_sb (set_needs_fsck n)) any) as HC.
  { intros s0 [[Hg Hk Hm] Ha Ho Hn]. cbn. split; [done|]. split; [|done]. by split; [split; [split_and!|..]|..]. }
  assert (stages g True (upd_sb (set_needs_fsck n)) any) as HS by by apply stages_upd_sb.
  destruct (calm_kept g rg _ _ _ _ _ _ Hs HC HS E) as (? & ? & _). split; [done|by apply kept_chg].
Qed.
Lemma sb_write_run s u s' : vol g s -> write_superblock s = (u, s') -> vol g s' /\ chg nowhere s s'.
Proof.
  intros Hs E. assert (calm g (hidden g) write_superblock any) as HC.
  { unfold write_superblock. eapply calm_bind; [by apply (calm_gets _ _ _ any)|intros w _].
    eapply calm_bind; [apply (calm_write g (rg_pm g rg) 1 0 w); by left|intros ok _]. by apply calm_ret. }
  assert (stages g True write_superblock any) as HS.
  { unfold write_superblock. eapply stages_bind; [apply superblock_block_stages|intros w Hw]. destruct (io_at_stages g True 1 (rg_wf g rg)) as [H1 H2].
    eapply stages_bind; [apply (do_block_write_stages g True (rg_wf g rg) store_io H1 H2 0 w); [apply rg|done]|intros ok _]. by apply stages_ret. }
  destruct (calm_kept g rg _ _ _ _ _ _ Hs HC HS E) as (? & ? & _). split; [done|by apply kept_chg].
Qed.
Lemma free_inode_run ino s u s' :
  vol g s -> is_ino g ino -> storage_free_inode ino s = (u, s') ->
  vol g s' /\ chg (eq (ibm_of g ino)) s s' /\ (s'.(s_txn).(t_overflow) = false -> forall j, is_ino g j -> j <> ino -> taken g s' j <-> taken g s j).
Proof.
  intros Hs Hi E. apply (op_run g) in E as (s1 & E & -> & Hs0 & Hop); [|done]. set (s0 := set_depth (op_depth s + 1) s) in *. revert E.
  rewrite (bind_run _ _ _ _ _ (geo_run g s0 Hs0)). destruct (Z.leb_spec (inode_count g) ino); [unfold is_ino in Hi; lia|]. cbv zeta. change (_ + ino / _) with (ibm_of g ino).
  destruct (ibm_user g fit ino Hi) as [Hu Hlt]. destruct (lay_facts g fit) as (F1 & F2 & F3 & _).
  run_step r s2 E2. apply (read_span_run g rg) in E2 as (Hs2 & Hk2 & HR); [|done|done|lia]. apply (kept_chg g fit nowhere) in Hk2. destruct r as [bm|].
  - destruct (HR _ eq_refl) as [Hsp Hsz]. run_step ok s3 E3. intros [= _ <-]. apply (write_span_run g rg) in E3 as (Hs3 & Ho3 & HW); [|done|done|lia|by apply clear_sized].
    apply others_chg in Ho3. destruct (Hop (eq (ibm_of g ino)) Hs3) as [Hs' Hc']; [eapply chg_trans, Ho3; eapply chg_weaken, Hk2; by intros x []|].
    split; [done|]. split; [done|]. intros Hov. destruct ok; [|cbn in Hov; congruence].
    apply (taken_put g fit ino bm (bitmap_clear bm (ino mod BITS_PER_BITMAP_BLOCK)) s); [done|done|done|by apply chg_cells|done|]. intros k Hk Hne.
    rewrite bitmap_test_clear; [by rewrite bool_decide_false| |done]. unfold zlen. rewrite Hsz. change (Z.of_nat (Z.to_nat BLOCK_SIZE)) with 4096.
    change BITS_PER_BITMAP_BLOCK with 32768. by apply Z.mod_pos_bound.
  - intros [= _ <-]. destruct (Hop nowhere Hs2 Hk2) as [Hs' Hc']. split; [done|]. split; [eapply chg_weaken, Hc'; by intros x []|]. intros _ j Hj _.
    apply (taken_cells g fit nowhere); [by apply chg_cells|done|by intros []].
Qed.
(** ** The whole operation *)
(** What removing file [ino] may change. *)
Record removed (O : owner) (ino : Z) (s s' : store) : Prop := {
  rm_cells : cells (fun x => bitmaps g x \/ x = inode_block g ino \/ x = ibm_of g ino) s s';
  rm_used : forall q, is_data q -> ~ mine O ino q -> used s' q <-> used s q;
  rm_inodes : forall j, is_ino g j -> j <> ino -> inode_of g s' j = inode_of g s j;
  rm_taken : forall j, is_ino g j -> j <> ino -> taken g s' j <-> taken g s j
}.
#[global] Instance removed_pre O ino : PreOrder (removed O ino).
Proof.
  split; [intros s; split; [apply cells_refl|done|done|done]|]. intros a b c [? H1 H2 H3] [? K1 K2 K3].
  split; [by eapply cells_trans|intros; by rewrite K1, H1|intros; by rewrite K2, H2|intros; by rewrite K3, H3].
Qed.
Lemma removed_still O ino s s' : cells nowhere s s' -> removed O ino s s'.
Proof.
  intros Hc. split; [eapply cells_weaken, Hc; by intros x []|intros; apply (used_cells g fit nowhere)|intros; apply (inode_of_cells g fit nowhere)|intros; apply (taken_cells g fit nowhere)];
    (done || by intros []).
Qed.
Lemma removed_inode O ino s s' :
  is_ino g ino -> chg (eq (inode_block g ino)) s s' -> (forall j, is_ino g j -> j <> ino -> inode_of g s' j = inode_of g s j) -> removed O ino s s'.
Proof.
  intros Hi Hc%chg_cells Hj. destruct (inode_apart g fit ino Hi) as [Hb _]. split; [eapply cells_weaken, Hc; intros x <-; by right; left| |done|].
  - intros q Hq _. apply (used_cells g fit _ _ _ q Hc Hq). intros E. apply Hb. rewrite E. by apply bm_of_bitmaps.
  - intros j Hj' _. apply (taken_cells g fit _ _ _ _ Hc Hj'). destruct (ibm_apart g fit j Hj') as (_ & _ & H). by apply H.
Qed.
Lemma removed_shrunk O ino s s' : shrunk (mine O ino) s s' -> removed O ino s s'.
Proof.
  intros [Hc Hu]. split; [eapply cells_weaken, Hc; by left|done|..]; intros j Hj _.
  - apply (inode_of_cells g fit _ _ _ _ Hc Hj). by apply inode_apart.
  - apply (taken_cells g fit _ _ _ _ Hc Hj). by apply ibm_apart.
Qed.
Lemma removed_bit O ino s s' :
  is_ino g ino -> chg (eq (ibm_of g ino)) s s' -> (forall j, is_ino g j -> j <> ino -> taken g s' j <-> taken g s j) -> removed O ino s s'.
Proof.
  intros Hi Hc%chg_cells Ht. destruct (ibm_apart g fit ino Hi) as (Hb & _ & Hj). split; [eapply cells_weaken, Hc; intros x <-; by right; right| | |done].
  - intros q Hq _. apply (used_cells g fit _ _ _ q Hc Hq). intros E. apply Hb. rewrite E. by apply bm_of_bitmaps.
  - intros j Hj' _. apply (inode_of_cells g fit _ _ _ _ Hc Hj'). apply not_eq_sym. by apply Hj.
Qed.
(** A transaction is closed and the next one opened. *)
Lemma turn_run key h cs fs s s' :
  vol g s -> steady g key h cs fs s -> journal_commit store_io s = (true, s') -> s'.(s_disk).(d_alive) = true ->
  exists e, poised g key h (cs ++ [e]) fs s' /\ vol g (opened s') /\ steady g key h (cs ++ [e]) fs (opened s') /\ cells nowhere s (opened s')
    /\ s.(s_txn).(t_overflow) = false.
Proof. intros Hv Hs E Ha. destruct (commit_poised g fit key h cs fs s s' Hv Hs E Ha) as (e & Hp & ? & ?). exists e. pose proof Hp as [_ ? _ ?]. by split_and!. Qed.
(** Flag and superblock in the open transaction. *)
Lemma flag_run {A} n (k : SM A) s r s' :
  vol g s -> (upd_sb (set_needs_fsck n);; write_superblock;; k) s = (r, s') -> exists s1, vol g s1 /\ chg nowhere s s1 /\ k s1 = (r, s').
Proof.
  intros Hv. run_step u s1 E1. apply sb_flag_run in E1 as [Hv1 Hc1]; [|done]. run_step u2 s2 E2. apply sb_write_run in E2 as [Hv2 Hc2]; [|done].
  intros E. exists s2. split_and!; [done|by eapply chg_trans|done].
Qed.
Definition emptied (i : on_disk_inode) : on_disk_inode := i_set_links (i_set_size i 0) 0.
Definition cleared (i : on_disk_inode) : on_disk_inode := i_set_links (i_set_size (i_set_roots (i_set_direct i (replicate 12 0)) 0 0 0) 0) 0.
Lemma emptied_ok i : inode_ok i -> inode_ok (emptied i).
Proof. intros H. apply set_links_ok; [by apply set_size_ok|done]. Qed.
Lemma cleared_ok i : inode_ok i -> inode_ok (cleared i).
Proof. intros H. apply set_links_ok; [apply set_size_ok; [by apply no_pointers_ok|done]|done]. Qed.
(** The last transaction. *)
Definition drop_body (ino : Z) : SM bool :=
  r ← storage_read_inode ino;
  match r with
  | None => journal_abort;; mret false
  | Some i => _ ← storage_write_inode ino (cleared i); storage_free_inode ino;; upd_sb (set_needs_fsck 0);; write_superblock;; journal_commit store_io
  end.
#[global] Instance mortal_drop ino : Mortal (drop_body ino).
Proof. unfold drop_body. mortal. Qed.
(** The three transactions. *)
Definition free_body (ino : Z) : SM bool :=
  r ← storage_read_inode ino;
  match r with
  | None => journal_abort;; mret false
  | Some i =>
      ok ← storage_write_inode ino (emptied i);
      if negb ok then journal_abort;; mret false else
      upd_sb (set_needs_fsck 1);; write_superblock;;
      ok ← journal_commit store_io; if negb ok then mret false else
      journal_begin;;
      ok ← free_pointers ino i;
      if negb ok then journal_abort;; mret false else
      ok ← journal_commit store_io; if negb ok then mret false else
      journal_begin;; drop_body ino
  end.
Lemma free_eq ino s : storage_free_inode_blocks ino s = STORAGE_OP (journal_begin;; free_body ino) s.
Proof.
  unfold storage_free_inode_blocks, free_body, drop_body, free_pointers, STORAGE_OP, mbind, sm_bind. cbn [journal_begin modify].
  destruct (storage_read_inode _ _) as [[i|] s1]; [|done]. fold (emptied i). destruct (storage_write_inode _ _ _) as [ok s2]. destruct ok; [|done]. cbn [negb].
  destruct (upd_sb _ _) as [u s3]. destruct (write_superblock _) as [u1 s4]. destruct (journal_commit _ _) as [ok s5]. destruct ok; [|done]. cbn [negb journal_begin modify].
  destruct (all_ok _ (i_direct i) _) as [ok s6]. destruct ok; [|done]. by destruct (all_ok _ _ _) as [ok s7].
Qed.
#[global] Instance mortal_pointers ino i : Mortal (free_pointers ino i).
Proof. unfold free_pointers. mortal. Qed.
Lemma drop_run key h cs fs O ino i s s' :
  vol g s -> steady g key h cs fs s -> is_ino g ino -> inode_of g s ino = Some i -> inode_ok i -> drop_body ino s = (true, s') -> s'.(s_disk).(d_alive) = true ->
  exists e, poised g key h (cs ++ [e]) fs s' /\ removed O ino s (opened s').
Proof.
  intros Hv Hs Hi Ei Hok. unfold drop_body. run_step r s1 E1. apply (read_inode_run g fit) in E1 as (Hv1 & Hc1 & HR); [|done|done].
  destruct r as [i1|]; [|done]. assert (i1 = i) as -> by (specialize (HR _ eq_refl); congruence).
  run_step ok s2 E2. apply (write_inode_run g fit) in E2 as (Hv2 & Hc2 & HW); [|done|done|by apply cleared_ok].
  run_step u s3 E3. apply free_inode_run in E3 as (Hv3 & Hc3 & HT); [|done|done]. intros (s4 & Hv4 & Hc4 & E4)%flag_run Ha; [|done].
  assert (steady g key h cs fs s4) as Hs4 by (do 4 (eapply steady_chg; [eassumption|]); exact Hs).
  destruct (turn_run key h cs fs s4 s' Hv4 Hs4 E4 Ha) as (e & Hp & _ & _ & Hc5 & Hov). pose proof (chg_overflow g _ _ _ Hc4 Hov) as Hov3. pose proof (chg_overflow g _ _ _ Hc3 Hov3) as Hov2.
  exists e. split; [done|]. transitivity s1; [by apply removed_still, chg_cells|]. transitivity s2.
  { destruct ok; [by apply removed_inode; [..|apply HW]|]. destruct HW as [HW|HW]; [congruence|]. by apply removed_still, chg_cells. }
  transitivity s3; [by apply removed_bit; [..|apply HT]|]. transitivity s4; [by apply removed_still, chg_cells|by apply removed_still].
Qed.
Lemma named_owned live O X s s' : owned g live O s -> cells X s s' -> (forall p, is_data p -> ~ X p) -> named O s'.
Proof.
  intros Ho Hc HX. split; [intros p o Hp; by apply (ow_data _ _ _ _ Ho p o)|]. intros p ino t d base Hp. destruct (ow_node _ _ _ _ Ho _ _ _ _ _ Hp) as (blk & Hb & ?).
  destruct (ow_data _ _ _ _ Ho _ _ Hp) as [Hd _]. exists blk. split; [|done]. rewrite (cells_plain g X s s'); [done|done|by apply data_user|by apply HX].
Qed.
Lemma free_body_run live key h cs fs O ino s s' :
  vol g s -> steady g key h cs fs s -> owned g live O s -> live ino -> free_body ino s = (true, s') -> s'.(s_disk).(d_alive) = true ->
  exists cs', poised g key h (cs ++ cs') fs s' /\ removed O ino s (opened s').
Proof.
  intros Hv Hs Ho Hl. destruct (ow_inode _ _ _ _ Ho ino Hl) as [Hi (i & Ei & Hok & Hr)]. unfold free_body.
  run_step r s1 E1. apply (read_inode_run g fit) in E1 as (Hv1 & Hc1 & HR); [|done|done]. destruct r as [i1|]; [|done].
  assert (i1 = i) as -> by (specialize (HR _ eq_refl); congruence). run_step ok s2 E2. apply (write_inode_run g fit) in E2 as (Hv2 & Hc2 & HW); [|done|done|by apply emptied_ok].
  destruct ok; [|done]. cbn [negb]. destruct HW as [Ei2 Hoth2]. intros (s3 & Hv3 & Hc3 & E3)%flag_run; [|done]. revert E3. run_step ok s4 E4. destruct ok; [|done]. cbn [negb].
  rewrite (bind_run _ _ s4 tt (opened s4)) by done. run_step ok s5 E5. destruct ok; [|done]. cbn [negb]. run_step ok s6 E6. destruct ok; [|done]. cbn [negb].
  rewrite (bind_run _ _ s6 tt (opened s6)) by done.
  intros E7 Ha. assert (s6.(s_disk).(d_alive) = true) as Ha6 by (by apply (alive_before (drop_body ino) (opened s6) true s')).
  pose proof (alive_before _ _ _ _ E6 Ha6) as Ha5. assert (s4.(s_disk).(d_alive) = true) as Ha4 by (by apply (alive_before (free_pointers ino i) (opened s4) true s5)).
  assert (steady g key h cs fs s3) as Hs3 by (do 3 (eapply steady_chg; [eassumption|]); exact Hs).
  destruct (turn_run _ _ _ _ _ _ Hv3 Hs3 E4 Ha4) as (e1 & _ & Hv4 & Hs4 & Hc4 & _).
  assert (removed O ino s (opened s4)) as Hr4.
  { transitivity s1; [by apply removed_still, chg_cells|]. transitivity s2; [by apply removed_inode|]. transitivity s3; [by apply removed_still, chg_cells|by apply removed_still]. }
  assert (named O (opened s4)) as Hn4.
  { eapply named_owned; [exact Ho|apply Hr4|]. intros p Hp [Hb|[E|E]]; [by apply (data_apart g fit p Hp)|by apply (proj2 (data_apart g fit p Hp) ino Hi)|]. subst p. by apply (ibm_apart g fit ino Hi). }
  assert (forall p o, O p = Some o -> is_data p) as Hdat by (intros p o Hp; by apply (ow_data _ _ _ _ Ho p o)).
  destruct (pointers_free O ino i Hok Hr Hdat _ _ _ _ _ _ Hv4 Hs4 Hn4 E5 Ha5) as (cs5 & Hv5 & Hs5 & Hsh5).
  destruct (turn_run _ _ _ _ _ _ Hv5 Hs5 E6 Ha6) as (e6 & _ & Hv6 & Hs6 & Hc6 & _).
  assert (inode_of g (opened s6) ino = Some (emptied i)) as Ei6.
  { rewrite (inode_of_cells g fit nowhere s5), (inode_of_cells g fit (bitmaps g) (opened s4)), (inode_of_cells g fit nowhere s3), (inode_of_cells g fit nowhere s2);
      try done; try (by intros []); [by apply chg_cells|apply Hsh5|by apply inode_apart]. }
  destruct (drop_run _ _ _ _ O ino _ _ _ Hv6 Hs6 Hi Ei6 (emptied_ok i Hok) E7 Ha) as (e7 & Hp7 & Hr7).
  exists ([e1] ++ cs5 ++ [e6] ++ [e7]). rewrite !app_assoc. split; [done|].
  transitivity (opened s4); [done|]. transitivity s5; [by apply removed_shrunk|]. transitivity (opened s6); [by apply removed_still|done].
Qed.
(** Ownership and contents without the file. *)
Definition without (O : owner) (ino : Z) : owner := fun p => match O p with Some (i, o) => if i =? ino then None else Some (i, o) | None => None end.
Lemma without_spec O ino p i o : without O ino p = Some (i, o) <-> O p = Some (i, o) /\ i <> ino.
Proof. unfold without. destruct (O p) as [[i' o']|]; [|naive_solver]. destruct (Z.eqb_spec i' ino); naive_solver. Qed.
Lemma without_theirs O ino p i o : O p = Some (i, o) -> i <> ino -> without O ino p = Some (i, o) /\ ~ mine O ino p.
Proof. intros H Hne. split; [by apply without_spec|]. intros [o' E]. congruence. Qed.
Lemma removed_owned live O ino s s' :
  is_ino g ino -> owned g live O s -> removed O ino s s' -> owned g (fun j => live j /\ j <> ino) (without O ino) s'.
Proof.
  intros Hi [H1 H2 H3] [Hc Hu Hin _]. assert (forall p, is_data p -> ~ (bitmaps g p \/ p = inode_block g ino \/ p = ibm_of g ino)) as HX.
  { intros p Hp [Hb|[->| ->]]; [by apply (data_apart g fit p Hp)|by apply (inode_apart g fit ino Hi)|by apply (ibm_apart g fit ino Hi)]. }
  split.
  - intros p [i o] [Hp Hne]%without_spec. destruct (H1 _ _ Hp) as [Hd ?]. split; [done|]. apply Hu; [done|by eapply without_theirs|done].
  - intros p i t d base [Hp Hne]%without_spec. destruct (H2 _ _ _ _ _ Hp) as (blk & Hb & Hsz & Hch). destruct (H1 _ _ Hp) as [Hd _]. exists blk. split_and!; [|done|].
    + rewrite (cells_plain g _ _ _ _ _ _ Hc); [done|by apply data_user|by apply HX].
    + intros k Hk Hn. by apply without_theirs; [apply Hch|].
  - intros j [Hl Hne]. destruct (H3 j Hl) as [Hj (i & Ei & Hok & R1 & R2)]. split; [done|]. exists i. split_and!; [by rewrite Hin|done|].
    split; [intros b Hb Hn; by apply without_theirs; [apply R1|]|intros t Ht Hn; by apply without_theirs; [apply R2|]].
Qed.
Lemma removed_contents live O ino s s' j b :
  is_ino g ino -> owned g live O s -> removed O ino s s' -> live j -> j <> ino -> 0 <= b -> contents g s' j b = contents g s j b.
Proof.
  intros Hi Ho [Hc _ Hin _] Hl Hne Hb. destruct (ow_inode _ _ _ _ Ho j Hl) as [Hj _].
  assert (forall x o, bitmaps g x \/ x = inode_block g ino \/ x = ibm_of g ino -> O x <> Some o) as HX.
  { intros x o Hx E. destruct (ow_data _ _ _ _ Ho _ _ E) as [Hd _]. destruct Hx as [Hx|[->| ->]]; [by apply (data_apart g fit x Hd)|by apply (inode_apart g fit ino Hi)|by apply (ibm_apart g fit ino Hi)]. }
  apply (contents_frame g fit live _ O s s' j b Ho Hl Hb Hc); [by apply Hin|intros; by apply HX|intros; by apply HX].
Qed.
Lemma rest_free_blocks live key h cs fs O ino s s' :
  resting g key h cs fs s -> owned g live O (shown s) -> live ino -> storage_free_inode_blocks ino s = (true, s') -> s'.(s_disk).(d_alive) = true ->
  exists cs', resting g key h (cs ++ cs') fs s' /\ removed O ino (shown s) (shown s').
Proof.
  intros Hp Ho Hl. rewrite free_eq. intros (s1 & E & Ed & Es & Hr)%(rest_op g). rewrite Ed, Es. intros Ha. revert E. rewrite (bind_run _ _ _ tt (shown s)) by done. intros E.
  destruct (free_body_run live key h cs fs O ino (shown s) s1 (po_vol _ _ _ _ _ _ Hp) (po_steady _ _ _ _ _ _ Hp) Ho Hl E Ha) as (cs' & ? & ?).
  exists cs'. split; [by apply Hr|done].
Qed.
End freeing.
