(* ===== verification/StoreSpec.v ===== *)
(** What the block layer of a volume promises to the file system (storage.c): sound
    layouts, transactions that survive a power cut, a recovery that does too, and a
    recursion that ends. *)
From S2P Require Import Prelude Sha256 Aead Disk Super Store Journal Tree Staging Knot Merkle Format.

(** C14: every size the format accepts gets a sound layout, and no size in range is
    refused.  From 512 blocks to the kernel's ceiling, the format computes a geometry:
    the regions follow one another without gap or overlap and end at the last block;
    the nonce table has an entry for every block; the inode bitmap a bit for every inode
    and the block bitmap a bit for every data block, although its length is found by a
    fixed number of steps of an iteration that need not converge; and the tree over the
    final metadata fits the region that was reserved from a bound.  Such a volume meets
    what crash atomicity and the two-level recursion assume of it. *)
Theorem format_layout_sound dev_total volume_blocks total :
  format_size dev_total volume_blocks = Some total -> total <= BLOCKS_PER_DISK ->
  exists g, format_geometry total = Some g /\ g.(total_blocks) = total /\ total <= dev_total
    /\ layout_ok g /\ wf_geo g /\ plain_metadata g /\ geo_ok g total.
Proof.
  unfold format_size. cbv zeta. set (t := if _ =? 0 then _ else _). destruct (Z.ltb_spec dev_total t), (Z.ltb_spec t STORAGE_MIN_BLOCKS); try done.
  intros [= <-] Hle. destruct (format_geometry_ok t) as (g & E & Hok & Et); [lia|].
  assert (0 <= g.(meta_blocks)) as Hm by (destruct Hok as [_ _ _ _ _ _ _ _ _ [_ ?] _ _ Hn _]; change META_ENTRIES_PER_BLOCK with 128 in Hn; unfold STORAGE_MIN_BLOCKS in *; lia).
  destruct (layout_wf g Hok Hm) as (? & ? & ?). exists g. rewrite Et in *. split_and!; try done; apply H3.
Qed.


(** C4: transactions on the volume are atomic and durable across a power cut.  Take a
    mounted volume with an idle journal and any session of block operations: begin a
    transaction, read and write blocks in it (the sealing, the nonce table, the Merkle
    tree and both caches included), abort it or commit it, and so on.  Cut the power at
    any request to the device, the writes in the device's cache being lost, applied or
    torn in any combination except that the journal header block is written whole.
    Recovery then finds exactly the transactions whose commit had returned success,
    applied in order; or those and one whose commit was under way; or two different
    messages under the journal's key on which HMAC-SHA256 collides, given explicitly. *)
Theorem session_crash_atomic g key h s0 cs fs s m :
  wf_geo g -> vol_ready g key True s0 -> ram_ok g s0 -> jdisk g key h [] s0.(s_disk) ->
  g.(total_blocks) < 2 ^ 64 -> (length key <= 64)%nat ->
  session g s0 cs fs s -> crash_media (eq g.(journal_start)) s.(s_disk) m -> (forall b, sized (m b)) ->
  same_home g (recovered g key m) (applied cs h)
  \/ (exists e, e ∈ fs /\ same_home g (recovered g key m) (applied (cs ++ [e]) h))
  \/ (exists e, e ∈ cs ++ fs /\ collides (hmac_inputs key (jmsg e.1 e.2)) (hmac_inputs key (found g m))).
Proof.
  intros wf Hv Hr Hj Hg Hk Hs Hcr Hb. destruct (session_inv g key h s0 cs fs s wf Hv Hr Hj Hs) as [_ Hi].
  by eapply hist_crash.
Qed.

(** An open transaction never writes the device.  Whatever block is read or written
    while a transaction is open, and however the operation ends, the medium and the
    device's cache are as they were, the transaction is still open, and every block
    staged so far lies in the volume and outside the journal, at most as many as the
    journal can hold. *)
Theorem open_transaction_only_stages g s b w :
  wf_geo g -> ram_ok g s -> s.(s_txn).(t_active) = true -> home g b -> sized w ->
  let s1 := (do_block_read b s).2 in let s2 := (do_block_write b w s).2 in
  (ram_ok g s1 /\ s1.(s_txn).(t_active) = true /\ quiet True s.(s_disk) s1.(s_disk))
  /\ (ram_ok g s2 /\ s2.(s_txn).(t_active) = true /\ quiet True s.(s_disk) s2.(s_disk)).
Proof.
  intros wf Hr Ha Hb Hw. destruct (io_at_stages g True 1 wf) as [HR HW].
  destruct (do_block_read_stages g True wf store_io HR HW b s Hr Ha) as (? & ? & [_ ?] & _).
  destruct (do_block_write_stages g True wf store_io HR HW b w Hb Hw s Hr Ha) as (? & ? & [_ ?] & _). by split.
Qed.

(** C36: the recursion of the block layer ends.  Reading or writing a block of the sealed
    span goes through blocks that are read and written the same way; on a volume whose
    tree nodes, nonce blocks and superblock are outside the span, two levels are all
    there is: with any larger bound on the depth, every read, write and commit gives the
    same result and the same state. *)
Theorem two_levels_suffice g n s :
  plain_metadata g -> lines_ok g s ->
  (forall b, do_block_read_with (io_at (S n)) b s = do_block_read b s)
  /\ (forall b w, do_block_write_with (io_at (S n)) b w s = do_block_write b w s)
  /\ journal_commit (io_at (S n)) s = journal_commit store_io s.
Proof.
  intros pm Hs. assert (forall b, pm_leaf_of g b = None -> same g (io_read (io_at (S n)) b) (io_read store_io b) any) as HR
    by (intros; by apply do_block_read_plain).
  assert (forall b w, pm_leaf_of g b = None -> same g (io_write (io_at (S n)) b w) (io_write store_io b w) any) as HW
    by (intros; by apply do_block_write_plain).
  split_and!; intros.
  - by apply (do_block_read_same g pm _ _ HR HW b s Hs).
  - by apply (do_block_write_same g pm _ _ HR HW b w s Hs).
  - by apply (journal_commit_same g pm _ _ HR HW s Hs).
Qed.

(** C17: recovery after a crash may itself be interrupted.  Let the power be cut at
    any request of a recovery, with any of the writes it had made lost, applied or
    torn, and flushes failing at will: what is on the medium then recovers to the
    same files as before, and a recovery that runs to its end leaves those files. *)
Theorem recovery_survives_crashes g key s m r s' :
  rec_ready g key False s m -> journal_recover s = (r, s') ->
  (forall m', crash_media (eq g.(journal_start)) s'.(s_disk) m' -> same_home g (recovered g key m') (recovered g key m))
  /\ (s'.(s_disk).(d_alive) = true -> same_home g (latest s'.(s_disk)) (recovered g key m)).
Proof.
  intros Hr E. destruct (recover_shape _ _ _ _ _ _ _ Hr E) as [Hd Hl]. split; [|done]. intros m' Hc.
  destruct Hr as (_ & _ & _ & _ & _ & Hok & _). by apply (rec_disk_crash _ _ _ _ _ _ Hok Hd).
Qed.

(** C5: the metadata tree is an authenticated array of blocks.  Start from a volume whose
    root authenticates the nodes [N], whose leaves are the hashes of the blocks [L], and
    run any sequence of leaf checks and leaf updates through the node cache, its
    evictions and the volume's own block layer, while the device (and the open
    transaction) may hold or return anything at every moment.  Every image a check
    accepts is the one the last update of that leaf recorded; or, at some point of the
    run, an image that was offered differs from the recorded one and HMAC-SHA256 under
    the metadata key collides on the two messages, which are given.  The clock of the
    cache must not wrap during the run. *)
Theorem tree_is_authenticated_array g key seen N L s evs N' s' :
  plain_metadata g -> merkle_tree_fits g = true -> 0 < g.(merkle_start) -> (length key <= 64)%nat ->
  auth g key seen (offers g seen) N L s -> tree_run g key seen N s evs N' s' ->
  array_spec L evs \/ tree_broken g key seen L N s evs.
Proof.
  intros pm Hf Hm Hk Ha Hr. destruct (run_auth g key seen L N s evs N' s' pm Hf Hm Hk Ha Hr) as [[_ ?]|?]; auto.
Qed.

(** ** A small volume, to evaluate the theorems on *)
Definition demo_geo : geometry := Eval vm_compute in default (sb_of_bytes []).(geo) (format_geometry 512).
Definition demo_key : list Z := replicate 32 0.
Definition demo_store (writes : list outcome) : store :=
  mk_store (mk_disk 512 (fun _ => zero_block) [] true [] writes [])
    (mk_mfs true true (mk_sb demo_geo (replicate 32 0) 0 0) (replicate 16 0) demo_key demo_key demo_key)
    (mk_txn false false []) 1 (replicate (Z.to_nat META_CACHE_LINES) ml_none) 0 (replicate (Z.to_nat MERKLE_CACHE_LINES) kl_none) 0 0 1 []
    zero_block (mk_stats 0 0 0 0 0 0 0 0) (mk_oplog (replicate 8 (mk_intent 0 0 0 0)) 0 0).
Lemma demo_layout : format_geometry 512 = Some demo_geo.
Proof. by vm_compute. Qed.
Lemma demo_geo_ok : wf_geo demo_geo /\ plain_metadata demo_geo /\ geo_ok demo_geo 512.
Proof.
  destruct (format_geometry_ok 512) as (g & E & Hok & _); [done|]. rewrite demo_layout in E. injection E as <-.
  by apply layout_wf.
Qed.
Lemma demo_ram ws : ram_ok demo_geo (demo_store ws).
Proof.
  split; [done|apply Nat.eq_le_incl; symmetry; apply zero_sized|apply staged_nil_ok|apply Forall_replicate, kline_none_ok|apply Forall_replicate, mline_none_ok|].
  split; [intros b; apply zero_sized|constructor].
Qed.
Lemma demo_ready ws strict : Forall fair ws -> vol_ready demo_geo demo_key strict (demo_store ws).
Proof. intros Hw. by split_and!. Qed.
Lemma demo_jdisk ws : jdisk demo_geo demo_key (fun _ => zero_block) [] (demo_store ws).(s_disk).
Proof. split_and!; [|done|left; apply zero_idle|]; cbn; by intros ? ?%elem_of_nil. Qed.

(** The layout of the smallest volume. *)
Lemma format_layout_sound_witness :
  exists g, format_geometry 512 = Some g /\ g.(total_blocks) = 512 /\ 512 <= 4096
    /\ layout_ok g /\ wf_geo g /\ plain_metadata g /\ geo_ok g 512.
Proof. apply (format_layout_sound 4096 512 512); by vm_compute. Defined.
Lemma recovery_survives_crashes_witness :
  rec_ready demo_geo demo_key False (demo_store []) (fun _ => zero_block)
  /\ (forall m', crash_media (eq demo_geo.(journal_start)) (journal_recover (demo_store [])).2.(s_disk) m' ->
        same_home demo_geo (recovered demo_geo demo_key m') (recovered demo_geo demo_key (fun _ => zero_block))).
Proof.
  assert (rec_ready demo_geo demo_key False (demo_store []) (fun _ => zero_block)) as H.
  { split_and!; try done. cbn. by apply Forall_replicate. }
  split; [exact H|]. apply (recovery_survives_crashes _ _ _ _ (journal_recover (demo_store [])).1 _ H). apply surjective_pairing.
Defined.
Lemma two_levels_suffice_witness :
  plain_metadata demo_geo /\ journal_commit (io_at 3) (demo_store []) = journal_commit store_io (demo_store []).
Proof.
  assert (lines_ok demo_geo (demo_store [])) as H by (split; [done|by apply Forall_replicate; left..]).
  destruct demo_geo_ok as (_ & Hp & _). split; [exact Hp|]. apply (two_levels_suffice demo_geo 2 (demo_store []) Hp H).
Defined.
(** One transaction of one block, and the power cut at its first write. *)
Definition demo_begun : store := (journal_begin (demo_store [io_crash])).2.
Definition demo_written : store := (do_block_write 400 zero_block demo_begun).2.
Definition demo_cut : store := (journal_commit store_io demo_written).2.
Lemma demo_home : home demo_geo 400.
Proof. split; [done|]. unfold in_journal. cbn. lia. Qed.
Lemma demo_session : session demo_geo (demo_store [io_crash]) [] [commit_of store_io demo_written] demo_cut.
Proof.
  apply S_fail; [|by vm_compute|].
  - apply (S_write _ _ [] [] demo_begun 400 zero_block (do_block_write 400 zero_block demo_begun).1);
      [|by vm_compute|apply demo_home|apply zero_sized|apply surjective_pairing].
    apply (S_begin _ _ _ _ (demo_store [io_crash])); [apply S_start|done].
  - unfold demo_cut. rewrite (surjective_pairing (journal_commit store_io demo_written)) at 1. by f_equal.
Qed.
Lemma session_crash_atomic_witness :
  session demo_geo (demo_store [io_crash]) [] [commit_of store_io demo_written] demo_cut
  /\ forall m, crash_media (eq demo_geo.(journal_start)) demo_cut.(s_disk) m -> (forall b, sized (m b)) ->
    same_home demo_geo (recovered demo_geo demo_key m) (fun _ => zero_block)
    \/ (exists e, e ∈ [commit_of store_io demo_written]
          /\ same_home demo_geo (recovered demo_geo demo_key m) (applied ([] ++ [e]) (fun _ => zero_block)))
    \/ (exists e, e ∈ [] ++ [commit_of store_io demo_written]
          /\ collides (hmac_inputs demo_key (jmsg e.1 e.2)) (hmac_inputs demo_key (found demo_geo m))).
Proof.
  split; [exact demo_session|]. intros m Hc Hs.
  refine (session_crash_atomic demo_geo demo_key (fun _ => zero_block) (demo_store [io_crash]) [] _ demo_cut m
    (proj1 demo_geo_ok) (demo_ready _ _ _) (demo_ram _) (demo_jdisk _) _ _ demo_session Hc Hs).
  - repeat constructor; by right.
  - done.
  - apply Nat.leb_le. reflexivity.
Defined.
Lemma open_transaction_only_stages_witness :
  quiet True demo_begun.(s_disk) demo_written.(s_disk) /\ demo_written.(s_txn).(t_active) = true.
Proof.
  destruct (open_transaction_only_stages demo_geo demo_begun 400 zero_block (proj1 demo_geo_ok)) as [_ (_ & Ha & Hq)];
    [apply safe_put_txn; [done|apply demo_ram]|done|apply demo_home|apply zero_sized|by split].
Defined.
(** The smallest volume with all its metadata zero, and the device holding the one node of its tree. *)
Definition demo_node : block :=
  fold_left (fun w leaf => set_slot w leaf (merkle_hash 0 leaf demo_key zero_block)) (seqZ 0 7) zero_block.
Definition demo_sealed : store :=
  let s := demo_store [] in
  mk_store (mk_disk 512 (fun _ => demo_node) [] true [] [] [])
    (mk_mfs true true (set_meta_root (merkle_root_hash s.(s_mfs).(sb) demo_node demo_key 1) s.(s_mfs).(sb)) (replicate 16 0) demo_key demo_key demo_key)
    s.(s_txn) 1 s.(g_meta_cache) 0 s.(g_merkle_cache) 0 0 1 [] zero_block s.(s_stats) s.(s_log).
Lemma slots_sized f ls w : sized w -> (forall l, length (f l) = 32%nat) -> sized (fold_left (fun w leaf => set_slot w leaf (f leaf)) ls w).
Proof. intros Hw Hf. revert w Hw. induction ls as [|l ls IH]; intros w Hw; [done|]. apply IH. by apply set_slot_sized. Qed.
Lemma slots_get f ls w l :
  sized w -> (forall l, length (f l) = 32%nat) -> Forall (fun l => 0 <= l < 128) ls -> NoDup ls -> l ∈ ls ->
  slot_of (fold_left (fun w leaf => set_slot w leaf (f leaf)) ls w) l = f l.
Proof.
  intros Hw Hf. revert w Hw. induction ls as [|a ls IH] using rev_ind; intros w Hw Hb Hn Hl; [by apply elem_of_nil in Hl|].
  rewrite fold_left_app. cbn. apply Forall_app in Hb as [Hb [Ha _]%Forall_cons]. apply NoDup_app in Hn as (Hn & Hd & _).
  pose proof (slots_sized f ls w Hw Hf). apply elem_of_app in Hl as [Hl| ->%list_elem_of_singleton]; [|by apply slot_set_same].
  rewrite slot_set_other; [by apply IH|done|done|]. assert (a <> l) by (intros ->; apply (Hd l Hl); by constructor).
  rewrite Forall_forall in Hb. specialize (Hb l Hl). rewrite !Z.mod_small by lia. done.
Qed.
Lemma demo_node_sized : sized demo_node.
Proof. apply slots_sized; [apply zero_sized|intros; apply length_merkle_hash]. Qed.
Lemma demo_slot leaf : 0 <= leaf < 7 -> slot_of demo_node leaf = merkle_hash 0 leaf demo_key zero_block.
Proof.
  intros Hl. unfold demo_node. rewrite (slots_get (fun leaf => merkle_hash 0 leaf demo_key zero_block)); [reflexivity|apply zero_sized| | | |].
  - intros. apply length_merkle_hash.
  - by repeat constructor.
  - apply NoDup_seqZ.
  - apply elem_of_seqZ. lia.
Qed.
#[local] Opaque demo_node merkle_hash merkle_root_hash.
Lemma demo_counts : tree_counts demo_geo = [1].
Proof. by vm_compute. Qed.
Lemma demo_tree_node l i : tree_node demo_geo l i -> l = 0 /\ i = 0.
Proof.
  unfold tree_node. rewrite demo_counts. change (zlen [1]) with 1. intros [Hl Hi]. assert (l = 0) as -> by lia.
  change (zget 0 [1] 0) with 1 in Hi. lia.
Qed.
Lemma demo_unused i : ~ used (line demo_sealed i).
Proof.
  unfold used, line. enough (zget kl_none demo_sealed.(g_merkle_cache) i = kl_none) as -> by (intros H; by apply H).
  unfold zget. destruct (i <? 0); [done|]. cbn [g_merkle_cache demo_sealed demo_store].
  destruct (replicate _ _ !! _) eqn:E; [|done]. apply lookup_replicate in E as [-> _]. done.
Qed.
Lemma demo_offers : offers demo_geo (eq demo_node) demo_sealed.
Proof. intros l i Hn. split; [split; [done|apply demo_node_sized]|]. by intros w ?%elem_of_nil. Qed.
Lemma demo_auth : auth demo_geo demo_key (eq demo_node) (offers demo_geo (eq demo_node)) (fun _ _ => demo_node) (fun _ => zero_block) demo_sealed.
Proof.
  split.
  - split; try (by intros i ? ?%demo_unused); try (by intros i j ? ? ?%demo_unused).
    + unfold no_tree. cbn [s_mfs demo_sealed mounted sb meta_mac_key]. by split_and!.
    + apply demo_offers.
    + done.
    + done.
  - unfold rooted. rewrite demo_counts. change (zlen [1]) with 1. cbn [s_mfs demo_sealed sb]. rewrite root_hash_set. reflexivity.
  - intros l i Hl Hn. rewrite demo_counts. change (zlen [1]) with 1. apply demo_tree_node in Hn. lia.
  - intros leaf Hl. change (merkle_leaves demo_geo) with 7 in Hl. by apply demo_slot.
  - intros. apply demo_node_sized.
Qed.
(** A check of a forged image of leaf 2, against the tree on the device. *)
Definition demo_forged : block := splice zero_block 0 [1].
Lemma demo_run :
  tree_run demo_geo demo_key (eq demo_node) (fun _ _ => demo_node) demo_sealed
    ([] ++ if (merkle_verify_leaf store_io 2 demo_forged demo_sealed).1 then [Accepted 2 demo_forged] else [])
    (fun _ _ => demo_node) (merkle_verify_leaf store_io 2 demo_forged demo_sealed).2.
Proof.
  eapply R_check; [apply R_start|by vm_compute|unfold tick_ok; cbn [g_merkle_clock demo_sealed]; lia|apply surjective_pairing].
Qed.
Lemma tree_is_authenticated_array_witness :
  (merkle_verify_leaf store_io 2 demo_forged demo_sealed).1 = false
  \/ tree_broken demo_geo demo_key (eq demo_node) (fun _ => zero_block) (fun _ _ => demo_node) demo_sealed [Accepted 2 demo_forged].
Proof.
  destruct demo_geo_ok as (wf & pm & _).
  pose proof (tree_is_authenticated_array demo_geo demo_key (eq demo_node) _ _ _ _ _ _ pm (wg_fits _ wf)
    ltac:(reflexivity) ltac:(apply Nat.leb_le; reflexivity) demo_auth demo_run) as H.
  destruct (merkle_verify_leaf store_io 2 demo_forged demo_sealed).1; [right|by left].
  destruct H as [[H _]|H]; [|exact H]. exfalso. apply (f_equal (fun w => zget 0 w 0)) in H. by vm_compute in H.
Defined.
