(* ===== verification/FileSpec.v ===== *)
(** What the file layer promises: the allocator hands out free blocks only, writing a
    block of a file changes that block and no other, and so a volume is a map from
    files and block numbers to contents. *)
From S2P Require Import Prelude Sha256 Aead Disk Super Store Journal Tree Staging Knot Merkle Format Files View Cells Alloc Nodes FileMap Commit Reads FileOps StoreSpec.

(** C25: reserving a data block in an open transaction.  A block that is returned lies in
    the data region, its bit was clear and is set, and no other block's bit changes; the
    transaction stages nothing outside the bitmap.  The allocator refuses only when the
    transaction overflowed, or every data block is in use, or its scan of the bitmap, in
    order from the hint and around the end, came to a block whose read fails at that
    point, every bitmap block it read before having no free bit. *)
Theorem alloc_block_exact g s r s' :
  fits g -> vol g s -> storage_alloc_block s = (r, s') ->
  vol g s' /\ chg g (bitmaps g) s s'
  /\ match r with
     | Some p => is_data g p /\ ~ Alloc.used g s p /\ Alloc.used g s' p /\ forall q, is_data g q -> q <> p -> Alloc.used g s' q <-> Alloc.used g s q
     | None => s'.(s_txn).(t_overflow) = true \/ refused g s \/ forall p, is_data g p -> Alloc.used g s p
     end.
Proof.
  intros fit Hs E. destruct (alloc_run g fit s r s' Hs E) as (Hs' & Hc & HR). split; [done|]. split; [done|]. destruct r as [p|].
  - destruct (alloc_used g fit s s' p HR) as (? & ? & ?). split; [apply HR|done].
  - destruct HR as [?|[_ ?]]; auto.
Qed.

(** C6: writing block [b] of file [ino] on a volume between operations, with every
    level of indirection, allocation, sealing, the journal and the caches.  When the
    write succeeds, the volume is again between operations with one more committed
    transaction, and a new operation sees [buf] in that block and every other block of
    every file as before, inodes changing in nothing but what they
    point to.  There is one exception: when the inode's write-back fails in this run, a
    result the code drops ([write_back]), and the block was a hole, it may still be one.
    When the write is refused, the device holds what it held.  The device is an honest one:
    its reads and writes fail only with its power, and a device that lost its power on the
    way is what recovery is for. *)
Theorem write_file_block_updates g live key h cs fs O ino b buf s r s' :
  fits g -> ready g live key h cs fs O s -> live ino -> 0 <= b -> sized buf -> storage_write_file_block ino b buf s = (r, s') ->
  s'.(s_disk).(d_alive) = false
  \/ if r then exists e O', ready g live key h (cs ++ [e]) fs O' s' /\ updated g live (write_back ino b (shown s)) ino b buf (shown s) (shown s')
     else latest s'.(s_disk) = latest s.(s_disk).
Proof.
  intros fit Hr Hl Hb Hsz E. destruct (d_alive (s_disk s')) eqn:Ha; [right|by left]. destruct r; [by eapply write_file_run|by eapply write_file_refused].
Qed.

(** C13: what a write of the superblock puts into its block.  The code writes a whole
    block from where the superblock lies in the volume's record, and the volume's keys
    follow it there: unless the transaction overflows, block 0 holds, in the clear, the
    volume key at byte 360, the disk key at 384, and the keys of the metadata tree and
    of the journal at 416 and 448. *)
Theorem superblock_write_exposes_keys g s u s' :
  fits g -> vol g s -> sb_ok s.(s_mfs).(sb) -> length s.(s_mfs).(volume_key) = 16%nat ->
  length s.(s_mfs).(disk_key) = 32%nat -> length s.(s_mfs).(meta_mac_key) = 32%nat -> length s.(s_mfs).(journal_mac_key) = 32%nat ->
  write_superblock s = (u, s') ->
  s'.(s_txn).(t_overflow) = true
  \/ take 16 (drop 360 (raw s' 0)) = s.(s_mfs).(volume_key) /\ take 32 (drop 384 (raw s' 0)) = s.(s_mfs).(disk_key)
     /\ take 32 (drop 416 (raw s' 0)) = s.(s_mfs).(meta_mac_key) /\ take 32 (drop 448 (raw s' 0)) = s.(s_mfs).(journal_mac_key).
Proof.
  intros fit Hs Hsb Hv Hd Hm Hj. unfold write_superblock. set (w := sb_block s.(s_mfs) s.(after)). rewrite (bind_run _ _ s w s) by done.
  run_step ok s1 E. intros [= _ <-]. apply (plain_write_open g) in E as (_ & _ & Hok & Hno & _); [|apply Hs|apply (rg_pm _ (lay_regions g fit))].
  destruct ok; [right|left; by apply Hno]. rewrite Hok by done. pose proof (length_sb_bytes _ Hsb) as Hl. change SB_SIZE with 360%nat in Hl.
  set (m := s_mfs s) in *. unfold w, sb_block. fold m. change (Z.to_nat BLOCK_SIZE) with 4096%nat.
  rewrite !slice_front by lia. split_and!; [by apply slice_mid|..].
  - rewrite (app_assoc (sb_bytes _)), (app_assoc (_ ++ _)). apply slice_mid; [|done]. rewrite !length_app, Hl, Hv, length_le. done.
  - rewrite (app_assoc (sb_bytes _)), !(app_assoc (_ ++ _)), <- (app_assoc _ (journal_mac_key m)), <- (app_assoc _ (meta_mac_key m)). apply slice_mid; [|done].
    rewrite !length_app, Hl, Hv, Hd, length_le. done.
  - rewrite (app_assoc (sb_bytes _)), !(app_assoc (_ ++ _)), <- (app_assoc _ (journal_mac_key m)). apply slice_mid; [|done].
    rewrite !length_app, Hl, Hv, Hd, Hm, length_le. done.
Qed.

(** ** Files as a map *)
Definition files : Type := Z -> Z -> option block.
Definition put (M : files) (ino b : Z) (buf : block) : files := fun i j => if decide ((i, j) = (ino, b)) then Some buf else M i j.
(** A write is recorded with whether the inode's write-back succeeded. *)
Inductive file_event := wrote (ino b : Z) (buf : block) (wb : bool) | read_back (ino b : Z) (r : option block).
(** A map explains the events: a read finds nothing it can open, or what the map holds. *)
Fixpoint explained (M : files) (evs : list file_event) : Prop :=
  match evs with
  | [] => True
  | wrote ino b buf wb :: evs => explained (put M ino b buf) evs \/ wb = false /\ M ino b = None /\ explained M evs
  | read_back ino b r :: evs => (r = None \/ r = M ino b) /\ explained M evs
  end.
(** Reads and successful writes of the files in [live]. *)
Inductive file_run (live : Z -> Prop) : store -> list file_event -> store -> Prop :=
| fr_done s : file_run live s [] s
| fr_write ino b buf s s1 evs s' :
    live ino -> 0 <= b -> sized buf -> storage_write_file_block ino b buf s = (true, s1) -> s1.(s_disk).(d_alive) = true ->
    file_run live s1 evs s' -> file_run live s (wrote ino b buf (write_back ino b (shown s)) :: evs) s'
| fr_read ino b r s s1 evs s' :
    live ino -> 0 <= b -> storage_read_file_block ino b s = (r, s1) -> file_run live s1 evs s' -> file_run live s (read_back ino b r :: evs) s'.
Definition holds (g : geometry) (live : Z -> Prop) (M : files) (s : store) : Prop :=
  forall i j, live i -> 0 <= j -> M i j = contents g (shown s) i j.
Lemma holds_updated g live wb M ino b buf s s' :
  holds g live M s -> live ino -> 0 <= b -> updated g live wb ino b buf (shown s) (shown s') ->
  holds g live (put M ino b buf) s' \/ wb = false /\ M ino b = None /\ holds g live M s'.
Proof.
  intros HM Hl Hb [H1 H2 _ _]. assert (forall i j, live i -> 0 <= j -> (i, j) <> (ino, b) -> M i j = contents g (shown s') i j) as Ho.
  { intros i j Hi Hj Hne. rewrite H2 by done. by apply HM. }
  destruct H1 as [H1|(Hwb & H1 & H0)].
  - left. intros i j Hi Hj. unfold put. destruct (decide ((i, j) = (ino, b))) as [[= -> ->]|Hne]; [done|by apply Ho].
  - right. split; [done|]. split; [by rewrite HM|]. intros i j Hi Hj. destruct (decide ((i, j) = (ino, b))) as [[= -> ->]|Hne]; [by rewrite H1, HM|by apply Ho].
Qed.

(** The files of a volume are a map.  Along any run of reads and successful writes,
    each with its own transactions, allocations, cache misses and evictions, there is a
    map from inode and block number to contents that starts as what the volume shows and
    is updated at the written block only, and every read that returns a block returns
    the block the map holds there; a write to a hole is lost only where the inode's
    write-back failed. *)
Theorem files_are_a_map g live key h cs fs O s evs s' M :
  fits g -> ready g live key h cs fs O s -> holds g live M s -> file_run live s evs s' -> explained M evs.
Proof.
  intros fit Hr HM Hrun. revert M cs O Hr HM. induction Hrun as [s|ino b buf s s1 evs s' Hl Hb Hsz E Ha _ IH|ino b r s s1 evs s' Hl Hb E _ IH]; intros M cs O Hr HM; [done|..].
  - destruct (write_file_run g fit live _ _ _ _ _ _ _ _ _ _ Hr Hl Hb Hsz E Ha) as (e & O' & Hr' & Hu). cbn [explained].
    destruct (holds_updated g live _ M ino b buf s s1 HM Hl Hb Hu) as [H|(Hw & Hn & H)]; [left; by eapply IH|right; split_and!; [done|done|by eapply IH]].
  - destruct (read_file_ready g fit live _ _ _ _ _ _ _ _ _ _ Hr Hl Hb E) as (Hr' & HR & Hsame). cbn [explained]. split.
    + destruct r as [buf|]; [right|by left]. rewrite HM by done. symmetry. by apply HR.
    + eapply IH; [exact Hr'|]. intros i j Hi Hj. rewrite Hsame by done. by apply HM.
Qed.

(** ** The small volume *)
Definition no_owner : owner := fun _ => None.
Lemma demo_fits : fits demo_geo.
Proof.
  destruct (format_geometry_ok 512) as (g & E & Hok & _); [done|]. rewrite demo_layout in E. injection E as <-. by split.
Qed.
Lemma zget_all_same {A} (x : A) n i : zget x (replicate n x) i = x.
Proof.
  destruct (decide (0 <= i < Z.of_nat n)); [by apply zget_replicate|]. apply zget_out. unfold zlen. rewrite length_replicate. lia.
Qed.
Definition demo_shown : store := shown (demo_store []).
Definition demo_inode : on_disk_inode := Eval vm_compute in inode_at zero_block 3.
Lemma demo_lines i : ml demo_shown i = ml_none.
Proof.
  unfold ml. change (g_meta_cache demo_shown) with (replicate 32 ml_none). apply zget_all_same.
Qed.
Lemma demo_vol : vol demo_geo demo_shown.
Proof.
  destruct (demo_ram []) as [? ? ? ? ? ?]. split; [split; [split; [done|by apply Forall_replicate; left..]|done|done|constructor]| | |done|done].
  - by split.
  - split; [done|..]; intros i; unfold resident; rewrite demo_lines; intros; done.
Qed.
Lemma demo_clean : clean (demo_store []).
Proof.
  split; intros i; [unfold line_clean, resident; change (ml (demo_store []) i) with (ml demo_shown i); by rewrite demo_lines|].
  unfold node_clean, Merkle.used, line. change (g_merkle_cache (demo_store [])) with (replicate 16 kl_none).
  by rewrite zget_all_same.
Qed.
Lemma demo_inode_at : inode_of demo_geo demo_shown 3 = Some demo_inode.
Proof. vm_compute. reflexivity. Qed.
Lemma demo_inode_good : inode_ok demo_inode /\ roots_ok no_owner 3 demo_inode.
Proof.
  split; [split; [by repeat constructor|by repeat constructor|done|done]|]. split; [|intros [|[|?]]; done]. intros b Hb Hn. destruct Hn.
  unfold demo_inode. cbn [i_direct]. change [0; 0; 0; 0; 0; 0; 0; 0; 0; 0; 0; 0] with (replicate 12 0). apply zget_all_same.
Qed.
Lemma demo_ready_files : ready demo_geo (eq 3) demo_key (fun _ => zero_block) [] [] no_owner (demo_store []).
Proof.
  split; [done|apply demo_vol|apply demo_clean| |].
  - split; [|done]. split; [by split_and!|]. left. exists []. split_and!; [apply demo_jdisk|constructor|]. by intros ? ?%elem_of_nil.
  - split; [done|done|]. intros ino <-. split; [done|]. exists demo_inode. split; [apply demo_inode_at|apply demo_inode_good].
Qed.
Lemma alloc_block_exact_witness :
  vol demo_geo demo_shown /\ vol demo_geo (storage_alloc_block demo_shown).2 /\ chg demo_geo (bitmaps demo_geo) demo_shown (storage_alloc_block demo_shown).2.
Proof.
  split; [exact demo_vol|]. destruct (alloc_block_exact demo_geo demo_shown _ _ demo_fits demo_vol (surjective_pairing (storage_alloc_block demo_shown))) as (H1 & H2 & _).
  split; [exact H1|exact H2].
Defined.
Lemma write_file_block_updates_witness :
  let w := storage_write_file_block 3 700 zero_block (demo_store []) in
  w.2.(s_disk).(d_alive) = false
  \/ if w.1 then exists e O', ready demo_geo (eq 3) demo_key (fun _ => zero_block) ([] ++ [e]) [] O' w.2 /\ updated demo_geo (eq 3) (write_back 3 700 demo_shown) 3 700 zero_block demo_shown (shown w.2)
     else latest w.2.(s_disk) = latest (demo_store []).(s_disk).
Proof.
  intros w. apply (write_file_block_updates demo_geo (eq 3) demo_key (fun _ => zero_block) [] [] no_owner 3 700 zero_block (demo_store []) w.1 w.2 demo_fits demo_ready_files eq_refl).
  - lia.
  - apply zero_sized.
  - apply surjective_pairing.
Defined.
Lemma files_are_a_map_witness :
  holds demo_geo (eq 3) (contents demo_geo demo_shown) (demo_store [])
  /\ explained (contents demo_geo demo_shown) [read_back 3 0 (storage_read_file_block 3 0 (demo_store [])).1].
Proof.
  assert (holds demo_geo (eq 3) (contents demo_geo demo_shown) (demo_store [])) as HM by (intros i j _ _; reflexivity). split; [exact HM|].
  apply (files_are_a_map demo_geo (eq 3) demo_key (fun _ => zero_block) [] [] no_owner (demo_store []) _ (storage_read_file_block 3 0 (demo_store [])).2 _ demo_fits demo_ready_files HM).
  apply (fr_read (eq 3) 3 0 (storage_read_file_block 3 0 (demo_store [])).1 (demo_store []) (storage_read_file_block 3 0 (demo_store [])).2);
    [reflexivity|lia|apply surjective_pairing|apply fr_done].
Defined.
Lemma superblock_write_exposes_keys_witness :
  sb_ok demo_shown.(s_mfs).(sb)
  /\ ((write_superblock demo_shown).2.(s_txn).(t_overflow) = true \/ take 32 (drop 384 (raw (write_superblock demo_shown).2 0)) = demo_shown.(s_mfs).(disk_key)).
Proof.
  assert (sb_ok demo_shown.(s_mfs).(sb)) as Hsb by (unfold sb_ok; cbn; split_and!; try done; repeat constructor; lia).
  split; [exact Hsb|]. destruct (superblock_write_exposes_keys demo_geo demo_shown (write_superblock demo_shown).1 (write_superblock demo_shown).2 demo_fits demo_vol Hsb)
    as [H|(_ & H & _)]; [reflexivity|reflexivity|reflexivity|reflexivity|apply surjective_pairing|left; exact H|right; exact H].
Defined.
