(* ===== verification/FsSys.v ===== *)
(** The system calls of the encrypted object store (syscall_fs.c): inodes and blocks of
    files, the raw blocks below them, and the gate of the dispatch table before them.

    [k] is the caller's kernel state; a call gives the value of rax, what it copied to
    the caller, and the store after.  [data] are the bytes of the caller's buffer and
    [copied] says whether the copy succeeds. *)
From S2P Require Import Prelude Sha256 KTypes KState CSpace PipeSys TaskSys Aead Disk Super Store Files.

Definition SYS_ERR_IO : Z := -5.
Definition FS_DIR : Z := 2.
Record fs_stat := mk_stat { st_size : Z; st_type : Z; st_mode : Z; st_uid : Z; st_gid : Z; st_links : Z }.
(** What a call hands to its caller besides rax. *)
Inductive fs_out := out_none | out_block (b : list Z) | out_stat (st : fs_stat).
Definition answer (rax : Z) : SM (Z * fs_out) := mret (rax, out_none).
Definition err (e : Z) : SM (Z * fs_out) := answer (rax32 e).

(** A store is open when a volume is mounted and its key is known. *)
Definition store_open : SM bool := m ← mfs_of; mret (m.(mounted) && m.(unlocked)).
Definition fresh_inode (type uid gid : Z) : on_disk_inode :=
  mk_inode 0 type (if type =? FS_DIR then 0x41ED else 0x81A4) uid gid 0 0 0 (replicate 12 0) 0 0 0
    (replicate 32 0) (replicate 16 0) (replicate 16 0) 1 0 0 (replicate 4 0).
Definition h_fs_inode_alloc (k : kstate) (rbx : Z) : SM (Z * fs_out) :=
  let type := u32 rbx in
  open ← store_open; if negb open then err SYS_ERR_INVAL else
  r ← storage_alloc_inode;
  match r with
  | None => err SYS_ERR_IO
  | Some ino =>
      let ids := (cur_task k).(t_ids) in
      _ ← storage_write_inode ino (fresh_inode type (u32 ids.(id_uid)) (u32 ids.(id_gid)));
      answer (rax32 ino)
  end.
Definition h_fs_inode_free (rbx : Z) : SM (Z * fs_out) :=
  if rbx =? 0 then err SYS_ERR_INVAL else
  open ← store_open; if negb open then err SYS_ERR_INVAL else
  r ← storage_read_inode rbx;
  match r with
  | None => err SYS_ERR_NOENT
  | Some i =>
      ok ← (if negb (i.(i_type) =? FS_DIR) && (1 <? i.(i_links)) then storage_write_inode rbx (i_set_links i (i.(i_links) - 1))
            else storage_free_inode_blocks rbx);
      if ok : bool then answer 0 else err SYS_ERR_IO
  end.
Definition h_fs_inode_link (rbx : Z) : SM (Z * fs_out) :=
  if rbx =? 0 then err SYS_ERR_INVAL else
  open ← store_open; if negb open then err SYS_ERR_INVAL else
  r ← storage_read_inode rbx;
  match r with
  | None => err SYS_ERR_NOENT
  | Some i =>
      if (i.(i_type) =? FS_DIR) || (i.(i_type) =? 0) then err SYS_ERR_INVAL else
      if i.(i_links) =? 0xFFFFFFFF then err SYS_ERR_INVAL else
      ok ← storage_write_inode rbx (i_set_links i (i.(i_links) + 1));
      if ok : bool then answer 0 else err SYS_ERR_IO
  end.
Definition h_fblock_read (rbx rcx : Z) (copied : bool) : SM (Z * fs_out) :=
  open ← store_open; if negb open then err SYS_ERR_INVAL else
  r ← storage_read_file_block rbx rcx;
  match r with
  | None => err SYS_ERR_NOENT
  | Some kbuf => if negb copied then err SYS_ERR_FAULT else mret (BLOCK_SIZE, out_block kbuf)
  end.
(** A short write is padded with zeros. *)
Definition padded_block (len : Z) (data : list Z) : block := splice zero_block 0 (take (Z.to_nat len) data).
Definition h_fblock_write (rbx rcx rsi : Z) (data : list Z) (copied : bool) : SM (Z * fs_out) :=
  let len := Z.min (u32 rsi) BLOCK_SIZE in
  open ← store_open; if negb open then err SYS_ERR_INVAL else
  if (0 <? len) && negb copied then err SYS_ERR_FAULT else
  ok ← storage_write_file_block rbx rcx (padded_block len data);
  if negb ok then err SYS_ERR_IO else answer len.
Definition h_fs_set_size (rbx rcx : Z) : SM (Z * fs_out) :=
  open ← store_open; if negb open then err SYS_ERR_INVAL else
  r ← storage_read_inode rbx;
  match r with
  | None => err SYS_ERR_NOENT
  | Some i =>
      ok ← storage_write_inode rbx (i_set_size i rcx);
      if negb ok then err SYS_ERR_IO else answer 0
  end.
Definition stat_of (i : on_disk_inode) : fs_stat := mk_stat i.(i_size) i.(i_type) i.(i_mode) i.(i_uid) i.(i_gid) i.(i_links).
Definition h_fs_stat (rbx : Z) (copied : bool) : SM (Z * fs_out) :=
  open ← store_open; if negb open then err SYS_ERR_INVAL else
  r ← storage_read_inode rbx;
  match r with
  | None => err SYS_ERR_NOENT
  | Some i => if negb copied then err SYS_ERR_FAULT else mret (0, out_stat (stat_of i))
  end.

(** ** Raw blocks *)
Definition storage_block_read (b : Z) : SM (option block) := STORAGE_OP (raw_block_read b).
Definition storage_block_write (b : Z) (w : block) : SM bool := STORAGE_OP (raw_block_write b w).
Definition block_number (rbx rcx : Z) : Z := Z.lor (u64 (Z.shiftl rbx 32)) rcx.
Definition h_block_read (rbx rcx rsi : Z) (copied : bool) : SM (Z * fs_out) :=
  let to := Z.min (u32 rsi) BLOCK_SIZE in
  r ← storage_block_read (block_number rbx rcx);
  match r with
  | Some kbuf => if copied then mret (to, out_block (take (Z.to_nat to) kbuf)) else answer (u64 SYS_ERR_FAULT)
  | None => answer (u64 SYS_ERR_IO)
  end.
(** The buffer is on the kernel's stack; [stack] are the bytes it holds before the copy. *)
Definition h_block_write (rbx rcx rsi : Z) (stack : block) (data : list Z) (copied : bool) : SM (Z * fs_out) :=
  let to := Z.min (u32 rsi) BLOCK_SIZE in
  if negb copied then answer (u64 SYS_ERR_FAULT) else
  ok ← storage_block_write (block_number rbx rcx) (splice stack 0 (take (Z.to_nat to) data));
  answer (if ok : bool then to else u64 SYS_ERR_IO).

(** ** Through the dispatch table *)
Inductive fs_call :=
| SYS_FS_INODE_ALLOC (rbx : Z)
| SYS_FS_INODE_FREE (rbx : Z)
| SYS_FS_INODE_LINK (rbx : Z)
| SYS_FBLOCK_READ (rbx rcx : Z) (copied : bool)
| SYS_FBLOCK_WRITE (rbx rcx rsi : Z) (data : list Z) (copied : bool)
| SYS_FS_SET_SIZE (rbx rcx : Z)
| SYS_FS_STAT (rbx : Z) (copied : bool).
Definition fs_number (c : fs_call) : Z :=
  match c with
  | SYS_FS_INODE_ALLOC _ => 56 | SYS_FS_INODE_FREE _ => 57 | SYS_FS_INODE_LINK _ => 76 | SYS_FBLOCK_READ _ _ _ => 58
  | SYS_FBLOCK_WRITE _ _ _ _ _ => 59 | SYS_FS_STAT _ _ => 60 | SYS_FS_SET_SIZE _ _ => 61
  end.
Definition fs_handler (k : kstate) (c : fs_call) : SM (Z * fs_out) :=
  match c with
  | SYS_FS_INODE_ALLOC rbx => h_fs_inode_alloc k rbx
  | SYS_FS_INODE_FREE rbx => h_fs_inode_free rbx
  | SYS_FS_INODE_LINK rbx => h_fs_inode_link rbx
  | SYS_FBLOCK_READ rbx rcx copied => h_fblock_read rbx rcx copied
  | SYS_FBLOCK_WRITE rbx rcx rsi data copied => h_fblock_write rbx rcx rsi data copied
  | SYS_FS_SET_SIZE rbx rcx => h_fs_set_size rbx rcx
  | SYS_FS_STAT rbx copied => h_fs_stat rbx copied
  end.
(** No handler of the store changes the kernel's own tables. *)
Definition fs_syscall (k : kstate) (c : fs_call) : SM (Z * fs_out) :=
  match syscall_gate k (fs_number c) with
  | Some e => answer e
  | None => fs_handler k c
  end.
