(* ===== verification/ObjectStore.v ===== *)
(** What the object store promises to the tasks that may call it (syscall_fs.c over
    storage.c): files that come and go, each with an inode and numbered blocks, changed
    by the calls one file at a time; and nothing at all to the others. *)
From S2P Require Import Prelude Sha256 KTypes KState CSpace CapCore PipeSys TaskSys Aead Disk Super Store Journal Tree Staging Knot Merkle Format Files View Cells Alloc Nodes FileMap Commit Reads FileOps Mortal Inodes Freeing FsSys Kernel StoreSpec FileSpec.

(** ** The abstract store *)
Record afile := mk_afile { a_inode : on_disk_inode; a_block : Z -> option block }.
Definition afiles : Type := Z -> option afile.
Definition aset (A : afiles) (ino : Z) (f : option afile) : afiles := fun j => if j =? ino then f else A j.
Definition with_inode (f : afile) (i : on_disk_inode) : afile := mk_afile i f.(a_block).
Definition with_block (f : afile) (b : Z) (buf : block) : afile := mk_afile f.(a_inode) (fun j => if j =? b then Some buf else f.(a_block) j).
Definition shared (i : on_disk_inode) : bool := negb (i.(i_type) =? FS_DIR) && (1 <? i.(i_links)).
Definition may_link (i : on_disk_inode) : bool := negb ((i.(i_type) =? FS_DIR) || (i.(i_type) =? 0)) && negb (i.(i_links) =? 0xFFFFFFFF).
Definition holds_store (k : kstate) : bool := bool_decide (is_Some (cap_lookup k CAPSLOT_AUDIT CAP_ENCRYPTED_STORAGE (CAP_RIGHT_READ + CAP_RIGHT_WRITE))).
Definition ret_rax (rax : Z) : Z * fs_out := (rax, out_none).
(** One call of a task that holds the store's capability.  [bad] says that a block the call
    reads to find its file could not be read or did not verify, [lost] that the inode could not be
    written back. *)
Inductive served (bad lost : bool) (k : kstate) (A : afiles) : fs_call -> Z * fs_out -> afiles -> Prop :=
| sv_alloc rbx ino :
    A ino = None -> 0 <= ino < 2 ^ 32 ->
    served bad lost k A (SYS_FS_INODE_ALLOC rbx) (ret_rax ino)
      (aset A ino (Some (mk_afile (bare (fresh_inode (u32 rbx) (u32 (cur_task k).(t_ids).(id_uid)) (u32 (cur_task k).(t_ids).(id_gid)))) (fun _ => None))))
| sv_unlink ino f :
    ino <> 0 -> A ino = Some f -> shared f.(a_inode) = true ->
    served bad lost k A (SYS_FS_INODE_FREE ino) (ret_rax 0) (aset A ino (Some (with_inode f (i_set_links f.(a_inode) (f.(a_inode).(i_links) - 1)))))
| sv_free ino f :
    ino <> 0 -> A ino = Some f -> shared f.(a_inode) = false -> served bad lost k A (SYS_FS_INODE_FREE ino) (ret_rax 0) (aset A ino None)
| sv_link ino f :
    ino <> 0 -> A ino = Some f -> may_link f.(a_inode) = true ->
    served bad lost k A (SYS_FS_INODE_LINK ino) (ret_rax 0) (aset A ino (Some (with_inode f (i_set_links f.(a_inode) (f.(a_inode).(i_links) + 1)))))
| sv_no_link ino f : A ino = Some f -> may_link f.(a_inode) = false -> served bad lost k A (SYS_FS_INODE_LINK ino) (ret_rax (rax32 SYS_ERR_INVAL)) A
| sv_root_link : served bad lost k A (SYS_FS_INODE_LINK 0) (ret_rax (rax32 SYS_ERR_INVAL)) A
| sv_root_free : served bad lost k A (SYS_FS_INODE_FREE 0) (ret_rax (rax32 SYS_ERR_INVAL)) A
| sv_read ino b f buf : A ino = Some f -> f.(a_block) b = Some buf -> served bad lost k A (SYS_FBLOCK_READ ino b true) (BLOCK_SIZE, out_block buf) A
| sv_write ino b rsi data copied f :
    let len := Z.min (u32 rsi) BLOCK_SIZE in
    A ino = Some f -> len = 0 \/ copied = true -> served bad lost k A (SYS_FBLOCK_WRITE ino b rsi data copied) (ret_rax len) (aset A ino (Some (with_block f b (padded_block len data))))
(* a hole stays one: the code does not look at the result of the write-back *)
| sv_write_lost ino b rsi data copied f :
    lost = true -> A ino = Some f -> f.(a_block) b = None -> served bad lost k A (SYS_FBLOCK_WRITE ino b rsi data copied) (ret_rax (Z.min (u32 rsi) BLOCK_SIZE)) A
| sv_size ino n f : A ino = Some f -> served bad lost k A (SYS_FS_SET_SIZE ino n) (ret_rax 0) (aset A ino (Some (with_inode f (i_set_size f.(a_inode) n))))
| sv_stat ino f : A ino = Some f -> served bad lost k A (SYS_FS_STAT ino true) (0, out_stat (stat_of f.(a_inode))) A
| sv_fault_read ino b : served bad lost k A (SYS_FBLOCK_READ ino b false) (ret_rax (rax32 SYS_ERR_FAULT)) A
| sv_fault_stat ino : served bad lost k A (SYS_FS_STAT ino false) (ret_rax (rax32 SYS_ERR_FAULT)) A
| sv_fault_write ino b rsi data : served bad lost k A (SYS_FBLOCK_WRITE ino b rsi data false) (ret_rax (rax32 SYS_ERR_FAULT)) A
| sv_hole ino b copied f : A ino = Some f -> f.(a_block) b = None -> served bad lost k A (SYS_FBLOCK_READ ino b copied) (ret_rax (rax32 SYS_ERR_NOENT)) A
| sv_unreadable c : bad = true -> served bad lost k A c (ret_rax (rax32 SYS_ERR_NOENT)) A.
(** The same through the gate. *)
Definition store_step (bad lost : bool) (k : kstate) (A : afiles) (c : fs_call) (r : Z * fs_out) (A' : afiles) : Prop :=
  if holds_store k then served bad lost k A c r A' else r = ret_rax (rax32 SYS_ERR_PERM) /\ A' = A.

(** What goes wrong in a call that begins in [s]: the block of the inode table with the file's
    inode cannot be read, or, for a block of the file, a block on the way from the inode
    to it; and the inode is not written back. *)
Definition fails {A} (m : SM (option A)) (s : store) : bool := negb (bool_decide (is_Some (m (set_depth (s.(op_depth) + 1) s)).1)).
Definition unread (g : geometry) (c : fs_call) (s : store) : bool :=
  match c with
  | SYS_FS_INODE_FREE ino | SYS_FS_INODE_LINK ino | SYS_FS_SET_SIZE ino _ | SYS_FS_STAT ino _ => fails (do_block_read (inode_block g ino)) s
  | SYS_FBLOCK_READ ino b _ => fails (path_read ino b) s
  | SYS_FS_INODE_ALLOC _ | SYS_FBLOCK_WRITE _ _ _ _ _ => false
  end.
Definition unsaved (c : fs_call) (s : store) : bool :=
  match c with SYS_FBLOCK_WRITE ino b _ _ _ => negb (write_back ino b (shown s)) | _ => false end.

(** ** What a volume represents *)
Section store.
Context (g : geometry) (fit : fits g).
#[local] Abbreviation rg := (lay_regions g fit).
#[local] Abbreviation nowhere := (fun _ : Z => False).
(** The volume's key and the accounts table, which the calls here leave alone. *)
Context (K : list Z) (T : Z -> block).
Definition tabled (s : store) : Prop := s.(s_mfs).(disk_key) = K /\ forall x, accounts g x -> raw s x = T x.
Lemma above_tabled (X : Z -> Prop) s s' : cells g X s s' -> (forall x, X x -> g.(inode_bitmap_start) <= x) -> tabled s -> tabled s'.
Proof.
  intros [[_ Ek] Hc] HX [Hk Ht]. split; [congruence|]. intros x Hx. rewrite <- Ht by done. apply Hc; [by right|]. intros H%HX. pose proof (rg_accounts g rg x Hx). lia.
Qed.
Lemma files_above ino x : is_ino g ino -> bitmaps g x \/ is_data g x \/ x = inode_block g ino \/ x = ibm_of g ino -> g.(inode_bitmap_start) <= x.
Proof.
  intros Hi. destruct (lay_facts g fit) as (F1 & F2 & F3 & _). destruct (ibm_user g fit ino Hi) as [_ H]. pose proof (inode_block_span g fit ino Hi) as H'.
  unfold bitmaps, is_data. intros [?|[?|[->| ->]]]; lia.
Qed.
Definition present (A : afiles) (j : Z) : Prop := is_Some (A j).
(** File [j] of the volume is [f]. *)
Record shows_file (s : store) (j : Z) (f : afile) : Prop := {
  sf_taken : taken g s j;
  sf_inode : bare <$> inode_of g s j = Some f.(a_inode);
  sf_blocks : forall b, 0 <= b -> contents g s j b = f.(a_block) b
}.
Definition represents (key : list Z) (h : Disk.contents) (cs fs : list (Z * list (Z * block))) (A : afiles) (s : store) : Prop :=
  (resting g key h cs fs s /\ tabled (shown s)) /\ exists O, owned g (present A) O (shown s) /\ forall j f, A j = Some f -> shows_file (shown s) j f.
Lemma ready_resting live key h cs fs O s : ready g live key h cs fs O s <-> resting g key h cs fs s /\ owned g live O (shown s).
Proof. split; [intros [? ? [? ?] ? ?]; by split; [split|]|intros [[? ? [? ?] ?] ?]; by split]. Qed.
Lemma owned_fewer (live live' : Z -> Prop) O s : (forall j, live' j -> live j) -> owned g live O s -> owned g live' O s.
Proof. intros H [? ? H3]. split; [done|done|]. intros j Hj. by apply H3, H. Qed.
(** Nothing that shows changed. *)
Lemma represents_still key h cs cs' fs A s s' :
  represents key h cs fs A s -> resting g key h cs' fs s' -> cells g nowhere (shown s) (shown s') -> represents key h cs' fs A s'.
Proof.
  intros [[_ HT] (O & Ho & HA)] Hr Hc. split; [split; [done|by apply (above_tabled nowhere (shown s))]|]. exists O. split; [by apply (owned_still g fit _ O (shown s))|]. intros j f Hj.
  destruct (ow_inode _ _ _ _ Ho j) as [Hi _]; [by eexists|]. destruct (HA j f Hj) as [Ht Hb Hx]. split.
  - apply (taken_cells g fit nowhere (shown s)); [done|done|by intros []|done].
  - by rewrite (inode_still g fit (shown s)).
  - intros b Hb0. rewrite <- Hx by done. apply (contents_still g fit (present A) O); [done|done|by eexists|done].
Qed.
(** *** An inode changes in what does not point *)
Definition same_pointers (i i' : on_disk_inode) : Prop := i'.(i_direct) = i.(i_direct) /\ forall t, root i' t = root i t.
Lemma size_pointers i n : same_pointers i (i_set_size i n).
Proof. split; [done|by intros [|[|t]]]. Qed.
Lemma links_pointers i n : same_pointers i (i_set_links i n).
Proof. split; [done|by intros [|[|t]]]. Qed.
Lemma same_pointers_at i i' s ino b : same_pointers i i' -> block_at g s ino i' b = block_at g s ino i b.
Proof. intros [Hd Hr]. unfold block_at. by rewrite Hd, ?Hr; destruct (seat b) as [[]|]; rewrite ?Hr. Qed.
Lemma same_pointers_roots O ino i i' : same_pointers i i' -> roots_ok O ino i -> roots_ok O ino i'.
Proof. intros [Hd Hr] [R1 R2]. split; [rewrite Hd; done|]. intros t Ht. rewrite Hr. by apply R2. Qed.
Lemma represents_inode key h cs fs A s ino f i i' s' :
  represents key h cs fs A s -> A ino = Some f -> inode_of g (shown s) ino = Some i -> same_pointers i i' -> inode_ok i' ->
  storage_write_inode ino i' s = (true, s') -> s'.(s_disk).(d_alive) = true ->
  exists cs', represents key h (cs ++ cs') fs (aset A ino (Some (with_inode f (bare i')))) s'.
Proof.
  intros [[Hr HT] (O & Ho & HA)] Hf Ei Hsp Hok E Ha. destruct (ow_inode _ _ _ _ Ho ino) as [Hi (i0 & E0 & _ & Hro)]; [by eexists|]. assert (i0 = i) as -> by congruence.
  destruct (rest_write_inode g fit _ _ _ _ _ _ _ _ Hr Hi Hok E Ha) as (e & Hr' & Hc & Ei' & Hoth). exists [e]. destruct (inode_apart g fit ino Hi) as [Hnb Hnd].
  assert (forall j, present (aset A ino (Some (with_inode f (bare i')))) j -> present A j) as Hp.
  { intros j. unfold present, aset. destruct (Z.eqb_spec j ino) as [->|]; [by eexists|done]. }
  assert (owned g (present A) O (shown s')) as Ho' by (apply (owned_inode g fit _ O (shown s) (shown s') ino i'); [done..|by eapply same_pointers_roots]).
  assert (forall j, is_ino g j -> taken g (shown s') j <-> taken g (shown s) j) as Ht.
  { intros j Hj. apply (taken_cells g fit _ _ _ _ Hc Hj). destruct (ibm_apart g fit j Hj) as (_ & _ & H). by apply H. }
  split; [split; [done|eapply above_tabled, HT; [exact Hc|intros x <-; apply (files_above ino); auto]]|]. exists O. split; [by eapply owned_fewer|]. assert (forall x o, inode_block g ino = x -> O x <> Some o) as HX.
  { intros x o <- Hx. by destruct (ow_data _ _ _ _ Ho _ _ Hx). }
  intros j f'. unfold aset. destruct (Z.eqb_spec j ino) as [->|Hne].
  - intros [= <-]. destruct (HA ino f Hf) as [Hta Hb Hx]. split; [by apply Ht|by rewrite Ei'|]. intros b Hb0. cbn. rewrite <- Hx by done. unfold contents. rewrite Ei', Ei.
    cbn [mbind option_bind]. rewrite (same_pointers_at i i' _ _ _ Hsp). rewrite (block_at_frame g fit _ _ O _ _ ino i b Ho Hc) by (done || intros ? ? ? ? H1 H2; by eapply HX).
    destruct (block_at g (shown s) ino i b) as [p|] eqn:Ep; cbn [mbind option_bind]; [|done]. destruct (Z.eqb_spec p 0) as [|Hp0]; [done|].
    destruct (block_at_owned g _ O _ ino i b p Ho Hro Hb0 Ep Hp0) as (o & _ & HO). apply (cells_plain g _ _ _ _ _ _ Hc); [apply data_user; [done|]; by apply (ow_data _ _ _ _ Ho _ _ HO)|].
    intros Eq. by eapply HX.
  - intros Hf'. destruct (ow_inode _ _ _ _ Ho j) as [Hj _]; [by eexists|]. destruct (HA j f' Hf') as [Hta Hb Hx]. split; [by apply Ht|by rewrite Hoth|].
    intros b Hb0. rewrite <- Hx by done. apply (contents_frame g fit (present A) _ O _ _ j b Ho) with (3 := Hc); [by eexists|done|by apply Hoth|intros; by apply HX|intros; by apply HX].
Qed.
(** *** Blocks of files *)
Lemma represents_read key h cs fs A s ino f b r s' :
  represents key h cs fs A s -> A ino = Some f -> 0 <= b -> storage_read_file_block ino b s = (r, s') ->
  represents key h cs fs A s' /\ match r with Some buf => f.(a_block) b = Some buf | None => fails (path_read ino b) s = true \/ f.(a_block) b = None end.
Proof.
  intros [[Hr HT] (O & Ho & HA)] Hf Hb E. assert (ready g (present A) key h cs fs O s) as Hrd by by apply ready_resting.
  rewrite read_file_eq in E. apply (rest_op g) in E as (s1 & E & _ & Es & Hout). unfold resting in Hr. pose proof (po_vol _ _ _ _ _ _ Hr) as Hv.
  rewrite read_body_path in E by done. cbv zeta in E. unfold fails.
  destruct (path_read ino b (set_depth (op_depth s + 1) s)) as [x s2] eqn:Ex. cbn [fst snd] in E |- *. injection E as <- <-.
  destruct (poised_quiet g _ _ _ _ _ _ _ _ Hr (path_read_tame ino b) Ex) as (E1 & Hp1 & Hc1).
  { intros r1 s3 E2. apply (path_run g fit (present A) O) in E2 as (? & ? & _); [done|done|done|by eexists|done]. }
  apply (path_run g fit (present A) O) in E1 as (_ & _ & HR); [|done|done|by eexists|done]. split.
  - apply (represents_still key h cs cs fs A s s'); [by split; [split|exists O]|by apply Hout|by rewrite Es].
  - rewrite <- (sf_blocks _ _ _ (HA _ _ Hf)) by done. destruct x as [c|]; [rewrite ((HR c eq_refl) : contents g (shown s) ino b = c)|by left]. destruct c; [done|by right].
Qed.
Lemma represents_write key h cs fs A s ino f b buf s' :
  represents key h cs fs A s -> A ino = Some f -> 0 <= b -> sized buf -> storage_write_file_block ino b buf s = (true, s') -> s'.(s_disk).(d_alive) = true ->
  exists cs', represents key h (cs ++ cs') fs (aset A ino (Some (with_block f b buf))) s'
    \/ write_back ino b (shown s) = false /\ f.(a_block) b = None /\ represents key h (cs ++ cs') fs A s'.
Proof.
  intros [[Hr HT] (O & Ho & HA)] Hf Hb Hsz E Ha. assert (ready g (present A) key h cs fs O s) as Hrd by by apply ready_resting.
  destruct (write_file_run g fit _ _ _ _ _ _ _ _ _ _ _ Hrd ltac:(by eexists) Hb Hsz E Ha) as (e & O' & [Hr' Ho']%ready_resting & [HU Hoth Hbare Hc]). exists [e].
  assert (forall j, is_ino g j -> taken g (shown s') j <-> taken g (shown s) j) as Ht.
  { intros j Hj. apply (taken_cells g fit _ _ _ _ Hc Hj). destruct (ibm_apart g fit j Hj) as (H1 & H2 & H3). destruct (ow_inode _ _ _ _ Ho ino) as [Hi _]; [by eexists|].
    intros [?|[?|?]]; [done|done|]. by apply (H3 ino Hi). }
  assert (forall j f', A j = Some f' -> (j = ino -> forall b', 0 <= b' -> contents g (shown s') ino b' = f'.(a_block) b') -> shows_file (shown s') j f') as Hkeep.
  { intros j f' Hj Hsame. destruct (ow_inode _ _ _ _ Ho j) as [Hi _]; [by eexists|]. destruct (HA j f' Hj) as [? ? Hx]. split; [by apply Ht|by rewrite Hbare|].
    intros b' Hb'. destruct (decide (j = ino)) as [->|Hne]; [by apply Hsame|]. rewrite Hoth; [by apply Hx|by eexists|done|congruence]. }
  destruct (HA ino f Hf) as [Hta Hin Hx]. destruct (ow_inode _ _ _ _ Ho ino) as [Hi _]; [by eexists|].
  assert (tabled (shown s')) as HT' by (eapply above_tabled, HT; [exact Hc|intros x Hs; apply (files_above ino); [done|]; unfold spread in Hs; tauto]). destruct HU as [HU|(Hwb & HU1 & HU2)]; [left|right].
  - split; [done|]. exists O'. split.
    + apply (owned_fewer (present A)); [|done]. intros j. unfold present, aset. destruct (Z.eqb_spec j ino) as [->|]; [by eexists|done].
    + intros j f'. unfold aset. destruct (Z.eqb_spec j ino) as [->|Hne]; [|intros Hj; by apply Hkeep]. intros [= <-]. split; [by apply Ht|by rewrite Hbare|].
      intros b' Hb'. cbn. destruct (Z.eqb_spec b' b) as [->|]; [done|]. rewrite Hoth; [by apply Hx|by eexists|done|congruence].
  - split; [done|]. split; [rewrite <- HU2; symmetry; by apply Hx|]. split; [done|]. exists O'. split; [done|]. intros j f' Hj. apply Hkeep; [done|]. intros -> b' Hb'.
    assert (f' = f) as -> by congruence. destruct (decide (b' = b)) as [->|]; [by rewrite HU1, <- Hx|]. rewrite Hoth; [by apply Hx|by eexists|done|congruence].
Qed.
(** *** Files come and go *)
Lemma fresh_ok type uid gid : 0 <= type < 2 ^ 32 -> 0 <= uid < 2 ^ 32 -> 0 <= gid < 2 ^ 32 -> inode_ok (fresh_inode type uid gid).
Proof. intros Ht Hu Hg. split; [|by repeat constructor|done|done]. unfold fresh_inode. cbn [i_type i_mode i_uid i_gid i_links i_generation i_checksum]. destruct (type =? FS_DIR); by repeat (apply Forall_cons; split; [done|]). Qed.
Lemma fresh_roots O ino type uid gid : roots_ok O ino (fresh_inode type uid gid).
Proof. split; [|by intros [|[|t]]]. intros b Hb Hn. destruct Hn. unfold fresh_inode. cbn -[replicate]. by apply zget_replicate. Qed.
Lemma fresh_empty s ino b type uid gid : inode_of g s ino = Some (fresh_inode type uid gid) -> 0 <= b -> contents g s ino b = None.
Proof.
  intros E Hb. unfold contents. rewrite E. cbn [mbind option_bind]. assert (block_at g s ino (fresh_inode type uid gid) b = Some 0) as ->; [|done].
  unfold block_at. destruct (seat b) as [[b'|?|t index]|] eqn:Es; try done.
  - apply seat_direct in Es as [-> Hb']. f_equal. unfold fresh_inode. cbn -[replicate]. apply zget_replicate. lia.
  - apply seat_leaf in Es as [Ht _]; [|done]. assert (root (fresh_inode type uid gid) (Z.to_nat t) = 0) as -> by (by destruct (Z.to_nat t) as [|[|?]]). by destruct (Z.to_nat t).
Qed.
Lemma represents_alloc key h cs fs A s ino fr s1 s2 type uid gid :
  fr = fresh_inode type uid gid -> inode_ok fr -> represents key h cs fs A s -> storage_alloc_inode s = (Some ino, s1) ->
  storage_write_inode ino fr s1 = (true, s2) -> s2.(s_disk).(d_alive) = true ->
  A ino = None /\ is_ino g ino /\ exists cs', represents key h (cs ++ cs') fs (aset A ino (Some (mk_afile (bare fr) (fun _ => None)))) s2.
Proof.
  intros Efr Hok [[Hr HT] (O & Ho & HA)] E1 E2 Ha. destruct (alloc_inode_run g fit _ _ _ _ _ _ _ Hr E1 (alive_before _ _ _ _ E2 Ha)) as (cs1 & Hr1 & [Hi Hc1 Hfree Htk Hto Hin1]).
  destruct (rest_write_inode g fit _ _ _ _ _ _ _ _ Hr1 Hi Hok E2 Ha) as (e & Hr2 & Hc2 & Ei2 & Hin2). set (X := fun x => x = ibm_of g ino \/ x = inode_block g ino).
  assert (cells g X (shown s) (shown s2)) as Hc by (eapply cells_trans; [exact Hc1|eapply cells_weaken, Hc2; intros x <-; by right]).
  assert (A ino = None) as Hnone by (destruct (A ino) as [f|] eqn:Ef; [by destruct Hfree, (HA ino f Ef)|done]).
  assert (forall j f, A j = Some f -> is_ino g j /\ j <> ino /\ taken g (shown s2) j /\ inode_of g (shown s2) j = inode_of g (shown s) j) as Hold.
  { intros j f Hj. destruct (ow_inode _ _ _ _ Ho j) as [Hji _]; [by eexists|]. assert (j <> ino) as Hne by congruence. destruct (HA j f Hj) as [Hta _ _].
    split_and!; [done|done| |by rewrite Hin2, Hin1]. apply (taken_cells g fit _ _ _ _ Hc2 Hji); [|by apply Hto]. destruct (ibm_apart g fit j Hji) as (_ & _ & H). by apply H. }
  assert (forall p, is_data g p -> ~ X p) as HXd by (intros p Hp [->| ->]; [by destruct (ibm_apart g fit ino Hi) as (_ & ? & _)|by destruct (inode_apart g fit ino Hi)]).
  assert (forall p, bitmaps g p -> ~ X p) as HXb by (intros p Hp [->| ->]; [by destruct (ibm_apart g fit ino Hi)|by destruct (inode_apart g fit ino Hi)]).
  split; [done|]. split; [done|]. exists (cs1 ++ [e]). rewrite app_assoc. split; [split; [done|eapply above_tabled, HT; [exact Hc|intros x HX; apply (files_above ino); [done|]; unfold X in HX; tauto]]|]. exists O. split.
  - apply (owned_table g fit (present A) _ X O (shown s) (shown s2)); [done|done|done|done|]. intros j. unfold present, aset. destruct (Z.eqb_spec j ino) as [->|Hne].
    + intros _. split; [done|]. exists fr. split_and!; [done|done|]. subst fr. apply fresh_roots.
    + intros [f Hj]. destruct (ow_inode _ _ _ _ Ho j) as [Hji (i & Ei & ?)]; [by eexists|]. split; [done|]. exists i. destruct (Hold j f Hj) as (_ & _ & _ & ->). done.
  - intros j f. unfold aset. destruct (Z.eqb_spec j ino) as [->|Hne].
    + intros [= <-]. split; [|by rewrite Ei2|intros b Hb; subst fr; by apply (fresh_empty _ _ _ _ _ _ Ei2)]. apply (taken_cells g fit _ _ _ _ Hc2 Hi); [|done]. by apply (ibm_apart g fit ino Hi).
    + intros Hj. destruct (Hold j f Hj) as (Hji & _ & Hta & Ein). destruct (HA j f Hj) as [_ Hb Hx]. split; [done|by rewrite Ein|]. intros b Hb0. rewrite <- Hx by done.
      assert (forall x o, X x -> O x <> Some o) as HXO by (intros x o Hx' HO; destruct (ow_data _ _ _ _ Ho _ _ HO) as [Hd _]; by apply (HXd x)).
      apply (contents_frame g fit (present A) X O _ _ j b Ho); [by eexists|done|done|done|intros; by apply HXO|intros; by apply HXO].
Qed.
Lemma represents_free key h cs fs A s ino f s' :
  represents key h cs fs A s -> A ino = Some f -> storage_free_inode_blocks ino s = (true, s') -> s'.(s_disk).(d_alive) = true ->
  exists cs', represents key h (cs ++ cs') fs (aset A ino None) s'.
Proof.
  intros [[Hr HT] (O & Ho & HA)] Hf E Ha. assert (present A ino) as Hp by by eexists. destruct (ow_inode _ _ _ _ Ho ino Hp) as [Hi _].
  destruct (rest_free_blocks g fit _ _ _ _ _ _ _ _ _ Hr Ho Hp E Ha) as (cs' & Hr' & Hrm). exists cs'. split; [split; [done|eapply above_tabled, HT; [apply (rm_cells _ _ _ _ _ Hrm)|intros x HX; cbv beta in HX; apply (files_above ino); [done|tauto]]]|]. exists (without O ino). split.
  - apply (owned_fewer (fun j => present A j /\ j <> ino)); [|by apply (removed_owned g fit _ _ _ (shown s))]. intros j. unfold present, aset.
    destruct (Z.eqb_spec j ino); [by intros []|done].
  - intros j f'. unfold aset. destruct (Z.eqb_spec j ino) as [|Hne]; [done|]. intros Hj. assert (present A j) as Hpj by by eexists. destruct (ow_inode _ _ _ _ Ho j Hpj) as [Hji _].
    destruct (HA j f' Hj) as [Ht Hb Hx]. split; [by apply (rm_taken _ _ _ _ _ Hrm)|by rewrite (rm_inodes _ _ _ _ _ Hrm)|].
    intros b Hb0. rewrite <- Hx by done. by apply (removed_contents g fit (present A) O ino).
Qed.
(** ** The calls *)
(** A call names files that are there, and its registers hold 64 bits. *)
Definition addressed (A : afiles) (c : fs_call) : Prop :=
  match c with
  | SYS_FS_INODE_ALLOC _ => True
  | SYS_FS_INODE_FREE ino | SYS_FS_INODE_LINK ino | SYS_FS_STAT ino _ => present A ino
  | SYS_FBLOCK_READ ino b _ | SYS_FBLOCK_WRITE ino b _ _ _ => present A ino /\ 0 <= b
  | SYS_FS_SET_SIZE ino n => present A ino /\ 0 <= n < 2 ^ 64
  end.
Definition new_inode (k : kstate) (rbx : Z) : on_disk_inode :=
  fresh_inode (u32 rbx) (u32 (cur_task k).(t_ids).(id_uid)) (u32 (cur_task k).(t_ids).(id_gid)).
(** The one failure that the answer does not show. *)
Definition inode_written (k : kstate) (c : fs_call) (s : store) : Prop :=
  match c with
  | SYS_FS_INODE_ALLOC rbx => forall ino s1, storage_alloc_inode s = (Some ino, s1) -> (storage_write_inode ino (new_inode k rbx) s1).1 = true
  | _ => True
  end.
Definition answered (key : list Z) (h : Disk.contents) (cs fs : list (Z * list (Z * block))) (k : kstate) (A : afiles) (c : fs_call) (s : store) (r : Z * fs_out) (s' : store) : Prop :=
  exists A' cs', served (unread g c s) (unsaved c s) k A c r A' /\ represents key h (cs ++ cs') fs A' s'.
#[local] Abbreviation io_failed := (rax32 SYS_ERR_IO).
Lemma open_run key h cs fs A s : represents key h cs fs A s -> store_open s = (true, s).
Proof.
  intros [[Hr _] _]. destruct (vo_keys _ _ (po_vol _ _ _ _ _ _ Hr)) as [H1 H2]. unfold store_open. rewrite (bind_run _ _ s s.(s_mfs) s) by done.
  change (mounted (s_mfs s) = true) in H1. change (unlocked (s_mfs s) = true) in H2. by rewrite H1, H2.
Qed.
Lemma answered_same key h cs fs k A c s r s' : served (unread g c s) (unsaved c s) k A c r A -> represents key h cs fs A s' -> answered key h cs fs k A c s r s'.
Proof. intros H1 H2. exists A, []. by rewrite app_nil_r. Qed.
(** Reading the inode a call names. *)
Lemma inode_unread key h cs fs s s' ino :
  resting g key h cs fs s -> is_ino g ino -> storage_read_inode ino s = (None, s') -> fails (do_block_read (inode_block g ino)) s = true.
Proof.
  intros Hr Hi. unfold storage_read_inode, STORAGE_OP, fails. set (s0 := set_depth (op_depth s + 1) s). rewrite (bind_run _ _ s tt s0) by done.
  run_step r s1 E1. intros [= -> _]. revert E1. assert (geo_of s0 = (g, s0)) as Eg by exact (f_equal (fun x => (x.1, s0)) (geo_run g _ (po_vol _ _ _ _ _ _ Hr))).
  rewrite (bind_run _ _ _ _ _ Eg). destruct (Z.leb_spec (inode_count g) ino) as [?|_]; [unfold is_ino in Hi; lia|].
  run_step r1 s2 E2. intros [= Er _]. by destruct r1.
Qed.
Lemma fetch_inode key h cs fs A s ino f r s' :
  represents key h cs fs A s -> A ino = Some f -> storage_read_inode ino s = (r, s') ->
  represents key h cs fs A s' /\ match r with
    | Some i => inode_of g (shown s') ino = Some i /\ bare i = f.(a_inode) /\ inode_ok i
    | None => fails (do_block_read (inode_block g ino)) s = true
    end.
Proof.
  intros HR Hf E. pose proof HR as [[Hr _] (O & Ho & HA)]. destruct (ow_inode _ _ _ _ Ho ino) as [Hi (i0 & Ei0 & Hok & _)]; [by eexists|].
  destruct (rest_read_inode g fit _ _ _ _ _ _ _ _ Hr Hi E) as (Hr' & Hc & HI). split; [by apply (represents_still key h cs cs fs A s)|].
  destruct r as [i|]; [|by apply (inode_unread key h cs fs s s' ino)]. specialize (HI i eq_refl). assert (i0 = i) as -> by congruence. rewrite (inode_still g fit (shown s)) by done. split_and!; [done| |done].
  pose proof (sf_inode _ _ _ (HA ino f Hf)) as Hb. rewrite HI in Hb. by injection Hb.
Qed.
Lemma u32_below x : 0 <= u32 x < 2 ^ 32.
Proof. rewrite u32_mod. by apply Z.mod_pos_bound. Qed.
Lemma serve_alloc key h cs fs k A rbx s r s' :
  represents key h cs fs A s -> inode_written k (SYS_FS_INODE_ALLOC rbx) s -> h_fs_inode_alloc k rbx s = (r, s') -> r.1 <> io_failed -> s'.(s_disk).(d_alive) = true ->
  answered key h cs fs k A (SYS_FS_INODE_ALLOC rbx) s r s'.
Proof.
  intros HR Hw. unfold h_fs_inode_alloc. cbv zeta. rewrite (bind_run _ _ _ _ _ (open_run _ _ _ _ _ _ HR)). cbn [negb]. run_step ri s1 E1.
  destruct ri as [ino|]; [|intros [= <- <-]; by intros []]. fold (new_inode k rbx). run_step ok s2 E2. intros [= <- <-] _ Ha.
  specialize (Hw ino s1 E1). rewrite E2 in Hw. cbn in Hw. subst ok. assert (inode_ok (new_inode k rbx)) as Hok by (apply fresh_ok; apply u32_below).
  destruct (represents_alloc _ _ _ _ _ _ _ _ _ _ _ _ _ eq_refl Hok HR E1 E2 Ha) as (Hn & Hi & cs' & HR'). assert (0 <= ino < 2 ^ 32) as Hino.
  { pose proof (fi_small g fit) as Hs. destruct (lay_facts g fit) as (F1 & F2 & F3 & F4 & F5 & F6 & F7 & F8). unfold is_ino in Hi. unfold BLOCKS_PER_DISK in Hs.
    pose proof (Z.div_mod (inode_count g) 16 ltac:(lia)). lia. }
  exists (aset A ino (Some (mk_afile (bare (new_inode k rbx)) (fun _ => None)))), cs'. split; [|done]. unfold answer, rax32. rewrite u32_mod, Z.mod_small by done. by apply sv_alloc.
Qed.
Lemma serve_read key h cs fs k A ino b copied s r s' :
  represents key h cs fs A s -> present A ino -> 0 <= b -> h_fblock_read ino b copied s = (r, s') -> answered key h cs fs k A (SYS_FBLOCK_READ ino b copied) s r s'.
Proof.
  intros HR [f Hf] Hb. unfold h_fblock_read. rewrite (bind_run _ _ _ _ _ (open_run _ _ _ _ _ _ HR)). cbn [negb]. run_step res s1 E1.
  apply (represents_read _ _ _ _ _ _ _ _ _ _ _ HR Hf Hb) in E1 as [HR1 HB]. destruct res as [buf|]; [destruct copied|]; intros [= <- <-]; (apply answered_same; [|done]).
  - by eapply sv_read.
  - apply sv_fault_read.
  - destruct HB as [HB|HB]; [by apply sv_unreadable|by eapply sv_hole].
Qed.
Lemma padded_sized len data : 0 <= len <= BLOCK_SIZE -> sized (padded_block len data).
Proof. intros H. apply splice_sized; [apply zero_sized|done|]. unfold zlen. rewrite length_take. lia. Qed.
Lemma serve_write key h cs fs k A ino b rsi data copied s r s' :
  represents key h cs fs A s -> present A ino -> 0 <= b -> h_fblock_write ino b rsi data copied s = (r, s') -> r.1 <> io_failed -> s'.(s_disk).(d_alive) = true ->
  answered key h cs fs k A (SYS_FBLOCK_WRITE ino b rsi data copied) s r s'.
Proof.
  intros HR [f Hf] Hb. unfold h_fblock_write. cbv zeta. rewrite (bind_run _ _ _ _ _ (open_run _ _ _ _ _ _ HR)). cbn [negb]. pose proof (u32_below rsi) as Hu.
  set (len := Z.min (u32 rsi) BLOCK_SIZE). assert (0 <= len <= BLOCK_SIZE) as Hlen by (unfold len, BLOCK_SIZE in *; lia). destruct (_ && _) eqn:Ec.
  - intros [= <- <-] _ _. apply andb_true_iff in Ec as [_ ->%negb_true_iff]. apply answered_same; [apply sv_fault_write|done].
  - run_step ok s1 E1. destruct ok; [|intros [= <- <-]; by intros []]. cbn [negb]. intros [= <- <-] _ Ha.
    destruct (represents_write _ _ _ _ _ _ _ _ _ _ _ HR Hf Hb (padded_sized len data Hlen) E1 Ha) as (cs' & [HR'|(Hwb & Hn & HR')]).
    + eexists _, cs'. split; [|exact HR']. apply sv_write; [done|]. destruct (Z.ltb_spec 0 len); [right; by destruct copied|left; fold len; lia].
    + exists A, cs'. split; [eapply sv_write_lost; [cbn; by rewrite Hwb|done|done]|done].
Qed.
Lemma links_range i : inode_ok i -> 0 <= i.(i_links) < 2 ^ 32.
Proof. intros [Hw _ _ _]. do 4 (apply Forall_cons in Hw as [_ Hw]). by apply Forall_cons in Hw as [? _]. Qed.
Lemma serve_size key h cs fs k A ino n s r s' :
  represents key h cs fs A s -> present A ino -> 0 <= n < 2 ^ 64 -> h_fs_set_size ino n s = (r, s') -> r.1 <> io_failed -> s'.(s_disk).(d_alive) = true ->
  answered key h cs fs k A (SYS_FS_SET_SIZE ino n) s r s'.
Proof.
  intros HR [f Hf] Hn. unfold h_fs_set_size. rewrite (bind_run _ _ _ _ _ (open_run _ _ _ _ _ _ HR)). cbn [negb]. run_step res s1 E1.
  apply (fetch_inode _ _ _ _ _ _ _ _ _ _ HR Hf) in E1 as [HR1 HI]. destruct res as [i|]; [|intros [= <- <-] _ _; apply answered_same; [by apply sv_unreadable|done]].
  destruct HI as (Ei & Eb & Hok). run_step ok s2 E2. destruct ok; [|intros [= <- <-]; by intros []]. cbn [negb]. intros [= <- <-] _ Ha.
  destruct (represents_inode _ _ _ _ _ _ _ _ _ _ _ HR1 Hf Ei (size_pointers i n) (set_size_ok i n Hok Hn) E2 Ha) as (cs' & HR2).
  exists (aset A ino (Some (with_inode f (i_set_size f.(a_inode) n)))), cs'. split; [by apply sv_size|]. by rewrite <- Eb.
Qed.
Lemma serve_stat key h cs fs k A ino copied s r s' :
  represents key h cs fs A s -> present A ino -> h_fs_stat ino copied s = (r, s') -> answered key h cs fs k A (SYS_FS_STAT ino copied) s r s'.
Proof.
  intros HR [f Hf]. unfold h_fs_stat. rewrite (bind_run _ _ _ _ _ (open_run _ _ _ _ _ _ HR)). cbn [negb]. run_step res s1 E1.
  apply (fetch_inode _ _ _ _ _ _ _ _ _ _ HR Hf) in E1 as [HR1 HI]. destruct res as [i|]; [destruct copied|]; intros [= <- <-]; (apply answered_same; [|done]).
  - destruct HI as (_ & Eb & _). change (stat_of i) with (stat_of (bare i)). rewrite Eb. by apply sv_stat.
  - apply sv_fault_stat.
  - by apply sv_unreadable.
Qed.
Lemma serve_link key h cs fs k A ino s r s' :
  represents key h cs fs A s -> present A ino -> h_fs_inode_link ino s = (r, s') -> r.1 <> io_failed -> s'.(s_disk).(d_alive) = true ->
  answered key h cs fs k A (SYS_FS_INODE_LINK ino) s r s'.
Proof.
  intros HR [f Hf]. unfold h_fs_inode_link. destruct (Z.eqb_spec ino 0) as [->|Hne]; [intros [= <- <-] _ _; apply answered_same; [apply sv_root_link|done]|].
  rewrite (bind_run _ _ _ _ _ (open_run _ _ _ _ _ _ HR)). cbn [negb]. run_step res s1 E1. apply (fetch_inode _ _ _ _ _ _ _ _ _ _ HR Hf) in E1 as [HR1 HI].
  destruct res as [i|]; [|intros [= <- <-] _ _; apply answered_same; [by apply sv_unreadable|done]]. destruct HI as (Ei & Eb & Hok).
  assert (may_link f.(a_inode) = negb ((i.(i_type) =? FS_DIR) || (i.(i_type) =? 0)) && negb (i.(i_links) =? 0xFFFFFFFF)) as Em by (by rewrite <- Eb).
  destruct (_ || _); [intros [= <- <-] _ _; apply answered_same; [by eapply sv_no_link|done]|]. destruct (Z.eqb_spec (i_links i) 0xFFFFFFFF); [intros [= <- <-] _ _; apply answered_same; [by eapply sv_no_link|done]|].
  run_step ok s2 E2. destruct ok; [|intros [= <- <-]; by intros []]. intros [= <- <-] _ Ha. pose proof (links_range i Hok) as Hl.
  destruct (represents_inode _ _ _ _ _ _ _ _ _ _ _ HR1 Hf Ei (links_pointers i _) (set_links_ok i (i.(i_links) + 1) Hok ltac:(lia)) E2 Ha) as (cs' & HR2).
  exists (aset A ino (Some (with_inode f (i_set_links f.(a_inode) (f.(a_inode).(i_links) + 1))))), cs'. split; [by apply sv_link|]. by rewrite <- Eb.
Qed.
Lemma serve_free key h cs fs k A ino s r s' :
  represents key h cs fs A s -> present A ino -> h_fs_inode_free ino s = (r, s') -> r.1 <> io_failed -> s'.(s_disk).(d_alive) = true ->
  answered key h cs fs k A (SYS_FS_INODE_FREE ino) s r s'.
Proof.
  intros HR [f Hf]. unfold h_fs_inode_free. destruct (Z.eqb_spec ino 0) as [->|Hne]; [intros [= <- <-] _ _; apply answered_same; [apply sv_root_free|done]|].
  rewrite (bind_run _ _ _ _ _ (open_run _ _ _ _ _ _ HR)). cbn [negb]. run_step res s1 E1. apply (fetch_inode _ _ _ _ _ _ _ _ _ _ HR Hf) in E1 as [HR1 HI].
  destruct res as [i|]; [|intros [= <- <-] _ _; apply answered_same; [by apply sv_unreadable|done]]. destruct HI as (Ei & Eb & Hok).
  assert (shared f.(a_inode) = negb (i.(i_type) =? FS_DIR) && (1 <? i.(i_links))) as Es by (by rewrite <- Eb). pose proof (links_range i Hok) as Hl.
  run_step ok s2 E2. destruct ok; [|intros [= <- <-]; by intros []]. intros [= <- <-] _ Ha. destruct (_ && _) eqn:Ec.
  - apply andb_true_iff in Ec as [_ Hl1%Z.ltb_lt].
    destruct (represents_inode _ _ _ _ _ _ _ _ _ _ _ HR1 Hf Ei (links_pointers i _) (set_links_ok i (i.(i_links) - 1) Hok ltac:(lia)) E2 Ha) as (cs' & HR2).
    exists (aset A ino (Some (with_inode f (i_set_links f.(a_inode) (f.(a_inode).(i_links) - 1))))), cs'. split; [by apply sv_unlink|]. by rewrite <- Eb.
  - destruct (represents_free _ _ _ _ _ _ _ _ _ HR1 Hf E2 Ha) as (cs' & HR2). exists (aset A ino None), cs'. split; [by eapply sv_free|done].
Qed.
(** *** Through the gate *)
Lemma store_gate k c : syscall_gate k (fs_number c) = if holds_store k then None else Some (rax32 SYS_ERR_PERM).
Proof.
  unfold holds_store. destruct (cap_lookup k CAPSLOT_AUDIT CAP_ENCRYPTED_STORAGE (CAP_RIGHT_READ + CAP_RIGHT_WRITE)) as [x|] eqn:E.
  all: unfold syscall_gate; assert (syscall_table (u32 (fs_number c)) = Some storage_rw) as -> by (by destruct c); unfold storage_rw; by rewrite E.
Qed.
Lemma call_refines key h cs fs k A c s r s' :
  represents key h cs fs A s -> addressed A c -> inode_written k c s -> fs_syscall k c s = (r, s') -> r.1 <> io_failed -> s'.(s_disk).(d_alive) = true ->
  exists A' cs', store_step (unread g c s) (unsaved c s) k A c r A' /\ represents key h (cs ++ cs') fs A' s'.
Proof.
  intros HR HA Hw. unfold fs_syscall, store_step. rewrite store_gate. destruct (holds_store k).
  - intros E Hio Ha. change (answered key h cs fs k A c s r s'). destruct c; cbn [fs_handler addressed] in *.
    + by apply (serve_alloc _ _ _ _ _ _ _ s).
    + by apply (serve_free _ _ _ _ _ _ _ s).
    + by apply (serve_link _ _ _ _ _ _ _ s).
    + destruct HA. by apply (serve_read _ _ _ _ _ _ _ _ _ s).
    + destruct HA. by apply (serve_write _ _ _ _ _ _ _ _ _ _ _ s).
    + destruct HA. by apply (serve_size _ _ _ _ _ _ _ _ s).
    + by apply (serve_stat _ _ _ _ _ _ _ _ s).
  - intros [= <- <-] _ _. exists A, []. by rewrite app_nil_r.
Qed.
End store.
(** The accounts table changes and no file does. *)
Lemma represents_table g (fit : fits g) K T key h cs cs' fs A s s' :
  represents g K T key h cs fs A s -> resting g key h cs' fs s' -> cells g (accounts g) (shown s) (shown s') ->
  represents g K (raw (shown s')) key h cs' fs A s'.
Proof.
  intros [[_ [HK _]] (O & Ho & HA)] Hr Hc. assert (forall x, g.(inode_bitmap_start) <= x -> ~ accounts g x) as Hout.
  { intros x Hx H%(rg_accounts g (lay_regions g fit)). lia. }
  assert (forall p, is_data g p -> ~ accounts g p) as Hd by (intros p [Hp _]; apply Hout; pose proof (lay_facts g fit); lia).
  assert (forall j, is_ino g j -> inode_of g (shown s') j = inode_of g (shown s) j) as Hin.
  { intros j Hj. apply (inode_of_cells g fit _ _ _ _ Hc Hj), Hout. pose proof (inode_block_span g fit j Hj). lia. }
  split; [split; [done|split; [|done]]; rewrite <- HK; apply Hc|]. exists O. split.
  - apply (owned_table g fit (present A) _ (accounts g) O (shown s) (shown s')); [done|done|done| |].
    + intros p [Hp _]. apply Hout. pose proof (lay_facts g fit). lia.
    + intros j Hj. destruct (ow_inode _ _ _ _ Ho j Hj) as [Hi (i & Ei & ?)]. split; [done|]. exists i. by rewrite Hin.
  - intros j f Hj. assert (present A j) as Hp by by eexists. destruct (ow_inode _ _ _ _ Ho j Hp) as [Hi _]. destruct (HA j f Hj) as [Ht Hb Hx]. split.
    + apply (taken_cells g fit _ _ _ _ Hc Hi); [|done]. apply Hout. destruct (ibm_user g fit j Hi). lia.
    + by rewrite Hin.
    + intros b Hb0. rewrite <- Hx by done.
      apply (contents_frame g fit (present A) (accounts g) O _ _ j b Ho Hp Hb0 Hc (Hin j Hi)); intros x; intros; intros HO; destruct (ow_data _ _ _ _ Ho _ _ HO) as [Hxd _]; by apply (Hd x).
Qed.

(** The inode was reserved and could not be written; the call does not look. *)
Definition unrecorded (k : kstate) (c : fs_call) (s : store) : Prop :=
  exists rbx ino s1, c = SYS_FS_INODE_ALLOC rbx /\ storage_alloc_inode s = (Some ino, s1) /\ (storage_write_inode ino (new_inode k rbx) s1).1 = false.

(** C3: the object store is what it promises to be.  A volume between two operations
    represents a set of files, each an inode and a map from block numbers to contents;
    a system call on a file that is there, through the gate of the dispatch table and
    then the handler with its transactions, allocations, pointer trees and caches, moves
    it to a volume that represents the files after that call and answers as they say: a
    new file has an unused number and no blocks, removing one of several names only
    counts down, removing the last takes the file and leaves all others whole, a write
    changes one block of one file.  The accounts table [T], which lies on the same volume,
    is never touched.  A caller without the store's capability is refused
    and nothing changes.  A hole answers SYS_ERR_NOENT.  So does, with nothing changed, a call
    for which the file's block of the inode table, or a block on the way to the block of the file it
    reads, could not be read or did not verify in this very call ([unread]); and a write to a
    hole is reported as done and lost only when the inode could not be written back
    ([unsaved]).  Three things end such a history: an answer of I/O error, a device that
    lost its power, and a new inode that could not be written, which the call reports as
    success.  The device is an honest one: its reads and writes fail only with its power.
    Calls on files that are not there are outside the statement. *)
Theorem object_store_refines g K T key h cs fs k A c s r s' :
  fits g -> represents g K T key h cs fs A s -> addressed A c -> fs_syscall k c s = (r, s') ->
  r.1 = rax32 SYS_ERR_IO \/ s'.(s_disk).(d_alive) = false \/ unrecorded k c s
  \/ exists A' cs', store_step (unread g c s) (unsaved c s) k A c r A' /\ represents g K T key h (cs ++ cs') fs A' s'.
Proof.
  intros fit HR HA E. destruct (decide (r.1 = rax32 SYS_ERR_IO)) as [|Hio]; [by left|right]. destruct (d_alive (s_disk s')) eqn:Ha; [right|by left].
  destruct c as [rbx| | | | | |]; try (right; by eapply (call_refines g fit K T)).
  destruct (storage_alloc_inode s) as [[ino|] s1] eqn:E1; [destruct (storage_write_inode ino (new_inode k rbx) s1).1 eqn:E2|].
  - right. eapply (call_refines g fit K T); [done|done| |done|done|done]. intros ino' s1' E'. rewrite E1 in E'. by injection E' as -> ->.
  - left. by exists rbx, ino, s1.
  - right. eapply (call_refines g fit K T); [done|done| |done|done|done]. intros ino' s1' E'. by rewrite E1 in E'.
Qed.

(** A store that is not mounted, or not unlocked, answers no call and is left as it is. *)
Theorem closed_store_untouched k c s :
  s.(s_mfs).(mounted) && s.(s_mfs).(unlocked) = false ->
  fs_syscall k c s = (ret_rax (rax32 (if holds_store k then SYS_ERR_INVAL else SYS_ERR_PERM)), s).
Proof.
  intros Hm. unfold fs_syscall. rewrite store_gate. destruct (holds_store k); [|done].
  assert (store_open s = (false, s)) as Ho by (unfold store_open; rewrite (bind_run _ _ s s.(s_mfs) s) by done; by rewrite Hm).
  destruct c; cbn [fs_handler]; unfold h_fs_inode_alloc, h_fs_inode_free, h_fs_inode_link, h_fblock_read, h_fblock_write, h_fs_set_size, h_fs_stat; cbv zeta;
    try (destruct (_ =? 0); [done|]); by rewrite (bind_run _ _ _ _ _ Ho).
Qed.

(** A raw write of fewer bytes than a block fills the rest of the block with what the
    kernel's stack held, and a raw read hands that to the caller. *)
Theorem short_block_write_exposes_stack rbx rcx rsi stack data s :
  let b := block_number rbx rcx in let to := Z.to_nat (Z.min (u32 rsi) BLOCK_SIZE) in
  s.(s_disk).(d_alive) = true -> s.(s_disk).(d_writes) = [] -> s.(s_disk).(d_reads) = [] -> 0 <= s.(op_depth) -> in_range 0 s.(s_disk).(d_total) b = true ->
  length stack = Z.to_nat BLOCK_SIZE -> (to <= length data)%nat ->
  (h_block_read rbx rcx BLOCK_SIZE true (h_block_write rbx rcx rsi stack data true s).2).1 = (BLOCK_SIZE, out_block (take to data ++ drop to stack)).
Proof.
  intros b to Ha Hw Hr Hd Hb Hst Hdt. pose proof (u32_below rsi) as Hu.
  assert (HB : Z.min (u32 BLOCK_SIZE) BLOCK_SIZE = BLOCK_SIZE) by reflexivity.
  assert (Hdep : (0 <? op_depth s + 1) = true) by lia.
  unfold h_block_read, h_block_write, storage_block_write, storage_block_read, STORAGE_OP, raw_block_write, raw_block_read, storage_io_permitted, on_disk, mbind, sm_bind, gets, modify.
  rewrite HB. fold b to. cbn [negb op_depth set_depth fst snd s_disk mret sm_ret answer]. rewrite Hdep. cbn [negb op_depth set_depth fst snd s_disk mret sm_ret]. unfold disk_write. rewrite Ha, Hw, Hb. cbn.
  replace (op_depth s + 1 - 1 + 1) with (op_depth s + 1) by lia. rewrite Hdep. cbn. unfold disk_read. cbn. rewrite Hr. cbn. rewrite Hb. cbn.
  unfold latest. cbn. rewrite Z.eqb_refl. cbn. f_equal. f_equal. unfold splice. cbn. rewrite length_take, Nat.min_l by done.
  apply take_ge. rewrite length_app, length_take, length_drop, Hst. lia.
Qed.

(** ** Evaluated on the small volume: a task that holds the store's capability sets the
    size of file 3, whose bit is set *)
Definition store_client : kstate := kexec [OSpawn (fun _ => false) demo_image 0 0 UNTYPED_KERNEL; OInstallRoot 1 7 9 0; OSwitch 1] demo_boot.
Definition one_file (b : Z) : block := if b =? demo_geo.(inode_bitmap_start) then splice zero_block 0 [8] else zero_block.
Definition one_store : store := set_disk (mk_disk 512 one_file [] true [] [] []) (demo_store []).
Definition one_map : afiles := fun j => if j =? 3 then Some (mk_afile (bare demo_inode) (contents demo_geo (shown one_store) 3)) else None.
Lemma one_file_sized b : sized (one_file b).
Proof. unfold one_file. destruct (_ =? _); [apply splice_sized; [apply zero_sized|done|done]|apply zero_sized]. Qed.
Lemma one_resting : resting demo_geo demo_key one_file [] [] one_store.
Proof.
  destruct demo_vol as [[[? ? ?] ? ? ?] [? ? ? ? ? ?] [? ? ?] ? ?]. destruct demo_clean as [? ?]. split; [done| |by split|].
  - split; [by split; [split|..]|split; try done; split; [intros b; apply one_file_sized|constructor]| |done|done].
    split; [done|done|]. intros i _ H. unfold resident in H. change (ml_blk (ml demo_shown i) <> META_BLK_NONE) in H. by rewrite demo_lines in H.
  - split; [|done]. split; [by split_and!|]. left. exists []. split_and!; [|constructor|by intros ? ?%elem_of_nil].
    split_and!; [by intros ? ?%elem_of_nil|done|left; apply zero_idle|by intros ? ?%elem_of_nil].
Qed.
Lemma one_represents : represents demo_geo one_store.(s_mfs).(disk_key) (raw (shown one_store)) demo_key one_file [] [] one_map one_store.
Proof.
  split; [split; [apply one_resting|done]|]. assert (inode_of demo_geo (shown one_store) 3 = Some demo_inode) as Ei by (vm_compute; reflexivity). exists no_owner. split.
  - split; [done|done|]. intros j. unfold present, one_map. destruct (Z.eqb_spec j 3) as [->|]; [|by intros []]. intros _. split; [clear; done|]. exists demo_inode. split; [exact Ei|apply demo_inode_good].
  - intros j f. unfold one_map. destruct (Z.eqb_spec j 3) as [->|]; [|done]. intros [= <-]. split; [|by rewrite Ei|done].
    exists (one_file demo_geo.(inode_bitmap_start)). split; vm_compute; reflexivity.
Qed.
Lemma object_store_refines_witness :
  let w := fs_syscall store_client (SYS_FS_SET_SIZE 3 100) one_store in
  holds_store store_client = true
  /\ (w.1.1 = rax32 SYS_ERR_IO \/ w.2.(s_disk).(d_alive) = false \/ unrecorded store_client (SYS_FS_SET_SIZE 3 100) one_store
      \/ exists A' cs', store_step (unread demo_geo (SYS_FS_SET_SIZE 3 100) one_store) false store_client one_map (SYS_FS_SET_SIZE 3 100) w.1 A' /\ represents demo_geo one_store.(s_mfs).(disk_key) (raw (shown one_store)) demo_key one_file ([] ++ cs') [] A' w.2).
Proof.
  intros w. split; [vm_compute; reflexivity|].
  apply (object_store_refines demo_geo one_store.(s_mfs).(disk_key) (raw (shown one_store)) demo_key one_file [] [] store_client one_map (SYS_FS_SET_SIZE 3 100) one_store w.1 w.2 demo_fits one_represents).
  - split; [eexists; reflexivity|lia].
  - apply surjective_pairing.
Defined.
